(* ===== verification/_CoqProject ===== *)
-Q . S2P
Prelude.v
RustStd.v
Value.v
Codec.v
Page.v
Slotted.v
PageManager.v
Overflow.v
BufferPool.v
Hlc.v
VClock.v
WalRecord.v
WalWriter.v
AppliedSet.v
Recovery.v
Crdt.v
Ring.v
BTreeNode.v
BTree.v
BTreeShape.v
BTreeInsert.v
BTreeSpec.v
BTreeDelete.v
BTreeCursor.v
Index.v
Collection.v
CollectionSpec.v
CollectionIndex.v
Naming.v
Frame.v
Mvcc.v
Database.v
DatabaseSpec.v
Response.v
Command.v
Parser.v
ParserSpec.v
JsonLines.v
Hints.v
Schema.v
SchemaSpec.v
Auth.v
Limits.v
Coordinator.v
CoordinatorSpec.v
Handler.v
Replication.v
Session.v
SessionSpec.v
JsonValue.v
AuthStore.v
AuthStoreSpec.v
Server.v
Exec.v
Shared.v
VerifiedQuery.v
Peer.v
Connection.v
Client.v
ClientSpec.v
EndToEnd.v
Snapshot.v
