(* ===== verification/Prelude.v ===== *)
(** * GrumpyDB: a machine-checked model of the storage engine

    ** The program

    GrumpyDB (src/) is a document database.  A document is a [Value] with a UUID.  A
    collection keeps its documents, encoded, in the slots of 8 KiB pages of a data
    file; documents that do not fit a page go to chains of overflow pages.  Pages are
    read and written by the page manager and cached by a buffer pool.  A B+Tree in a
    file of its own maps UUIDs to slots, others map field values to UUIDs.  The
    write-ahead log records page images and is replayed by recovery; its records
    carry a hybrid logical clock and a vector clock, which replication uses to apply
    each record once, to merge conflicting documents, and to place documents on nodes
    by consistent hashing.

    A process serves several clients, each with a directory of databases that threads
    share.  A server speaks a text protocol with its clients, checks their roles and connection
    limits, and coordinates with its peers: gossip spreads membership and index
    definitions, writes wait for a quorum of replicas, writes that a replica missed are
    kept as hints and replayed, and followers stream the log of the writer.  Users, their
    roles and the keys that sign their tokens are files of an authentication store.

    ** Files of this development and the code they model

    - Prelude: errors (error.rs), the outcome type, the state monads, tactics;
    - RustStd: bytes, machine integers, slices, ordered maps of the standard library;
    - Value, Codec: document/value.rs; document/codec.rs and document/mod.rs;
    - Page: page/mod.rs, headers and checksums;
    - Slotted: page/slotted.rs on the bytes of a page;
    - PageManager: page/manager.rs on the bytes of the file, and [PageStore], the
      contract (allocate, read, write, free) that its clients are proved against;
    - Overflow: page/overflow.rs over [PageStore];
    - BufferPool: buffer/frame.rs and buffer/pool.rs over [PageStore];
    - BTreeNode: btree/key.rs (the [Key] trait as a class with laws and its two
      instances) and btree/node.rs;  BTree: btree/mod.rs and btree/ops.rs;
      BTreeCursor: btree/cursor.rs;  BTreeShape, BTreeInsert, BTreeSpec and
      BTreeDelete: the tree a set of pages represents, and the proofs;
    - Index: index/encoding.rs and index/mod.rs;  Naming: naming.rs;
    - Collection: collection/mod.rs, which composes all of the above;  CollectionSpec:
      the ordered map of documents it refines;  CollectionIndex: the agreement of
      documents and secondary indexes;
    - Hlc, VClock: wal/hlc.rs, wal/vclock.rs;  WalRecord, WalWriter: wal/record.rs,
      wal/writer.rs;  AppliedSet: wal/applied_set.rs and the idempotent applier of
      grumpydb-replication/src/idempotent.rs;  Recovery: wal/recovery.rs;
    - Crdt: document/crdt.rs;  Ring: grumpydb-ring/src/ring.rs and hash.rs;
    - Mvcc: the version histories and snapshot readers of database/mod.rs;  Database:
      the rest of database/mod.rs, which composes collections, log and histories;
      DatabaseSpec: the maps of documents it refines, snapshot isolation;
    - Frame: grumpydb-replication/src/frame.rs, the wire frames of replication;
    - Response, Command, Parser: response.rs, command.rs and parser.rs of
      grumpydb-protocol/src;  ParserSpec: the grammar the parser is proved against;
    - JsonLines, Hints: the backlog files of grumpydb-server/src/cluster/hints.rs and
      read_repair.rs;  Schema, SchemaSpec: cluster/schema/, the schema part of gossip.rs
      and coordinator.rs, and its convergence;
    - Auth, Limits: auth/role.rs and session/mod.rs; limits.rs;
    - Coordinator, CoordinatorSpec: coordinator.rs, its membership, placement and quorums;
      Handler: the read and write concerns of tcp/handler.rs and its replica writes;
    - Replication: tailer.rs, writer_control.rs and lag_tracker.rs of
      grumpydb-replication/src;  Session: session.rs and tasks.rs, the handshake and the
      loops of leader and follower over a stream of pieces;  SessionSpec: their proofs;
    - JsonValue: the two conversions between documents and JSON, of tcp/handler.rs and
      cluster/handshake.rs of grumpydb-server/src;
    - AuthStore, AuthStoreSpec: auth/store.rs, auth/jwt.rs and auth/user.rs;
    - Server: server/mod.rs, server/client.rs and the cache of open databases of
      concurrency/shared.rs, with the interleaving of its calls;
    - Exec: [execute_command] of tcp/handler.rs, each command a definition, over [DbOps],
      the operations of a database that commands use;  Shared: SharedDatabase of
      concurrency/shared.rs, the instance of [DbOps] by Database;
    - VerifiedQuery: the index queries of tcp/handler.rs that are checked by a quorum;
      Peer: cluster/handshake.rs, the frames, the hello and the calls between nodes;
      Connection: the connection loop of tcp/handler.rs, which composes all of these;
    - Client, ClientSpec: the client library, grumpydb-client/src/lib.rs and connection.rs;
      EndToEnd: client and connection handler put together;
    - Snapshot: snapshot.rs of grumpydb-server/src, archives of a data directory.

    ** How code is modelled

    A Rust struct is a record with the fields of the struct, an enum an inductive
    type.  A function that returns [Result] returns [res], which is [Ok], [Err e] with
    the error of the source, or [Panic] where the source would panic (an index out
    of range, an arithmetic overflow in a checked build, an [expect]).  A method on
    [&mut self] is an [ST] computation, which returns the outcome and the new state,
    also after an error, so the state that an early return leaves behind is visible.
    Loops whose bound is not structural run in [FT], which returns [None] when the
    fuel runs out.  Bytes are [Byte.byte]; a machine integer is a [Z], wrapped or
    checked where the source does.  Error messages keep their fixed text; the numbers
    interpolated in them are left out.

    Code that is not in the repository is a parameter with the laws it documents: the
    CRC-32 (with the IEEE polynomial as an instance that evaluates), Murmur3, JSON
    texts, base64, UUID texts, SHA-256, compressed archives, password hashes, the signing of tokens, the token bucket
    of the command rate, the wall clock.  A file is its bytes; [sync] and the operating system's cache are
    not modelled.

    ** Fuel

    A descent in a B+Tree needs at most the height of the tree ([enough]); the walk
    back along the path is structural.  Scans of the leaf chain and of overflow
    chains are proved to return for every fuel above a bound that the theorem gives.
    Results are stated as "returns this", never as "if it returns".

    ** What the theorems show

    - Codec: decoding an encoded value gives it back, whatever follows it; whatever
      decodes is a well-formed value within the limits; depth above 64 is refused.
    - Pages: a slotted page answers like an abstract page of slots, flags and exact free
      space, whatever is inserted, read, deleted, updated, flagged and compacted; the page manager fulfils [PageStore]; freed pages are
      handed out again; overflow chains give their bytes back.
    - Buffer pool: fetching pins the page's current bytes, an unpinned dirty frame
      becomes the page, flushing leaves every logical page on disk, eviction takes the
      least recently used unpinned frame.
    - B+Tree: create, search, insert, delete and range scans refine an ordered
      association list, on every branch, splits and merges included, and terminate.
    - Indexes: byte order of keys is the order of values; maintenance adds and removes
      exactly one pair; exact lookups return exactly the matching documents.
    - Collections: reading, inserting, deleting and scanning refine an ordered map from
      UUIDs to bytes through index, pool, slots and overflow chains, errors included;
      documents and the fields that can be indexed stay in agreement, and queries are exact.  Opening
      is proved for new collections; compaction is modelled, not yet verified.
    - Log: records round-trip; the file only grows but for truncation; a torn append
      loses only itself; however a serial writer's pages were flushed before the crash,
      recovery leaves the committed images and nothing of the unfinished transaction.
    - Replication: clocks are strictly increasing, vector clocks form a join
      semilattice, each record is applied once, a CRDT merge gives the least state that
      knows what both states know, adding a node to the ring moves keys only to that node.
    - Databases: every call, reads included, answers as ordered maps with tombstones say and
      leaves the histories and the indexes in order; a read transaction sees, through
      [get] and [scan], the documents of the moment it began, whatever is written and
      whatever old versions are collected meanwhile.
    - Wire formats: frames, responses and commands are read back as they were sent, a
      cut-off input asks for more, and parsers never panic or run on but for the cases
      listed as findings.
    - Server: a command is authorized exactly as a table of commands, roles and scopes says;
      the caps on connections hold under every interleaving of the atomic steps of acquiring
      and releasing, up to the slots that closed loopback connections give away.
    - Cluster: nodes that applied the same schema entries agree, whatever the order, a
      restart rebuilds the schema from its log, and gossip delivers missing entries; a
      read and a write quorum whose sizes exceed the replicas share a node; gossip only
      adds members; a write that was acknowledged is on, or hinted for, every replica;
      every hint is in the backlog, with the worker, sent, or overwritten in the window in
      which the backlog is rewritten, and a worker left alone delivers them all; the log tailer hands out the records
      of the log in order, however the file grows between polls.
    - Sessions between nodes: both ends of a handshake agree on whether it succeeded and
      on who the other is; a follower applies exactly the records of its subscription,
      each once and in the order of the log; a node is let in exactly when it is of the
      cluster and listed or claims to gossip, and the answer to a call is what the operation
      does on the receiving node.
    - Clients: documents that JSON values can hold are converted without change; a restart
      finds the users and keys that were there; a login proves the password, and its tokens
      carry the user's roles until they expire or the keys are rotated; however requests and
      drops interleave, step by step, a handle leads to the database asked for; a command
      touches only databases, and directories, of its own tenant; a connection that nobody logged
      into changes nothing; INSERT, UPDATE, DELETE and GET refine the maps of documents
      down to the pages; a verified query succeeds exactly when nothing failed and returns
      exactly the candidates that match.  Every call of the client library is executed by the server as the command it stands for,
      and its answer, or that of the owner it is forwarded to, is what the call returns.
    - Snapshots: restoring a snapshot gives back the files that were saved; a destination
      that is not empty and an archive with a wrong manifest, a missing file or a wrong
      checksum are refused, and nothing is written.

    ** Not modelled

    The engine facade and the lock manager, which are deprecated and not used by the
    server, and the index builds of the materializer are not modelled.  Sockets, TLS, HTTP
    routes, cloud storage, configuration files, the command line, the key sets of the client
    library, the interactive shell and the test harness are input and output or third-party
    code and stay out.
*)

From stdpp Require Export prelude gmap list numbers strings.
From Stdlib Require Export Strings.Byte ZArith Lia Sorted.

Declare Scope grumpy_scope.
Delimit Scope grumpy_scope with grumpy.

(** ** Errors

    [GrumpyError] of src/error.rs.  A formatted message keeps its fixed text;
    the numbers interpolated in it are not part of the model. *)

Inductive GrumpyError :=
| Io
| PageNotFound (page_id : Z)
| PageFull (page_id : Z)
| DuplicateKey (key : list byte)
| KeyNotFound (key : list byte)
| ChecksumMismatch (page_id expected actual : Z)
| WalCorrupted (lsn : Z)
| BufferPoolExhausted
| DocumentTooLarge (size max : Z)
| Codec (msg : string)
| NotIndexable
| IndexNotFound (name : list byte)
| IndexAlreadyExists (name : list byte)
| CollectionNotFound (name : list byte)
| InvalidName (msg : string)
| InvalidArgument (msg : string)
| CyclicReference
| ClientNotFound (name : list byte)
| DatabaseNotFound (name : list byte)
| Corruption (msg : string)
| InvalidPageOffset (page offset : Z)
| InvalidVarKey (msg : string)
| HlcErr (msg : string)
| VectorClockErr (msg : string)
| UnsupportedWalVersion (version : Z).

#[export] Instance byte_eq_dec : EqDecision byte := Byte.byte_eq_dec.
#[export] Instance byte_countable : Countable byte := inj_countable Byte.to_N Byte.of_N Byte.of_to_N.
#[export] Instance GrumpyError_eq_dec : EqDecision GrumpyError.
Proof. solve_decision. Defined.

(** ** Outcomes and the state monad

    A fallible call returns a value, an error of type [E], or panics (slice
    index out of range, [u16] subtraction below zero in the checked paths). *)

Inductive outcome (E A : Type) :=
| Ok (a : A)
| Err (e : E)
| Panic.
Arguments Ok {E A} _.
Arguments Err {E A} _.
Arguments Panic {E A}.

Abbreviation res := (outcome GrumpyError).
Abbreviation bytes := (list byte).

#[export] Instance outcome_ret {E} : MRet (outcome E) := λ A a, Ok a.
#[export] Instance outcome_bind {E} : MBind (outcome E) := λ A B f m,
  match m with Ok a => f a | Err e => Err e | Panic => Panic end.
#[export] Instance outcome_fmap {E} : FMap (outcome E) := λ A B f m,
  match m with Ok a => Ok (f a) | Err e => Err e | Panic => Panic end.
#[export] Instance outcome_eq_dec `{EqDecision E, EqDecision A} : EqDecision (outcome E A).
Proof. solve_decision. Defined.

(** [&mut self] methods: the state survives an error, as in Rust. *)
Definition ST (S E A : Type) : Type := S → outcome E A * S.

#[export] Instance st_ret {S E} : MRet (ST S E) := λ A a s, (Ok a, s).
#[export] Instance st_bind {S E} : MBind (ST S E) := λ A B f m s,
  match m s with
  | (Ok a, s') => f a s'
  | (Err e, s') => (Err e, s')
  | (Panic, s') => (Panic, s')
  end.

Definition st_get {S E} : ST S E S := λ s, (Ok s, s).
Definition st_put {S E} (s' : S) : ST S E unit := λ _, (Ok tt, s').
Definition st_modify {S E} (f : S → S) : ST S E unit := λ s, (Ok tt, f s).
Definition st_fail {S E A} (e : E) : ST S E A := λ s, (Err e, s).
Definition st_lift {S E A} (r : outcome E A) : ST S E A := λ s, (r, s).

(** [.map_err(f)] *)
Definition st_map_err {S E E' A} (f : E → E') (m : ST S E A) : ST S E' A := λ s,
  let '(r, s) := m s in (match r with Ok a => Ok a | Err e => Err (f e) | Panic => Panic end, s).

(** [let _ = ...;], [.ok();] *)
Definition st_ignore {S E E' A} (m : ST S E A) : ST S E' unit := λ s,
  let '(r, s) := m s in (match r with Panic => Panic | _ => Ok tt end, s).

(** Runs a method of a field of the state. *)
Definition st_zoom {S T E A} (proj : S → T) (upd : T → S → S) (m : ST T E A) : ST S E A :=
  λ s, let '(r, t) := m (proj s) in (r, upd t s).

(** Methods with an unbounded loop: [None] when the fuel given to the loop runs out. *)
Definition FT (S E A : Type) : Type := S → option (outcome E A * S).

#[export] Instance ft_ret {S E} : MRet (FT S E) := λ A a s, Some (Ok a, s).
#[export] Instance ft_bind {S E} : MBind (FT S E) := λ A B f m s,
  match m s with
  | Some (Ok a, s') => f a s'
  | Some (Err e, s') => Some (Err e, s')
  | Some (Panic, s') => Some (Panic, s')
  | None => None
  end.

Definition ft_lift {S E A} (m : ST S E A) : FT S E A := λ s, Some (m s).
Definition ft_stop {S E A} : FT S E A := λ _, None.

Definition ft_zoom {S T E A} (proj : S → T) (upd : T → S → S) (m : FT T E A) : FT S E A := λ s,
  match m (proj s) with
  | Some (r, t) => Some (r, upd t s)
  | None => None
  end.

(** [let _ = call;]: the error is dropped, the state kept. *)
Definition ft_ignore {S E A} (m : FT S E A) : FT S E unit := λ s,
  match m s with
  | Some (Ok _, s') | Some (Err _, s') => Some (Ok tt, s')
  | Some (Panic, s') => Some (Panic, s')
  | None => None
  end.

Lemma ft_zoom_ok {S T E A} (proj : S → T) (upd : T → S → S) (m : FT T E A) s r t :
  m (proj s) = Some (r, t) → ft_zoom proj upd m s = Some (r, upd t s).
Proof. unfold ft_zoom. by intros ->. Qed.

Lemma ft_step_err {S E A B} (m : FT S E A) (f : A → FT S E B) s e s' :
  m s = Some (Err e, s') → (m ≫= f) s = Some (Err e, s').
Proof. unfold mbind, ft_bind. by intros ->. Qed.

Lemma ft_step {S E A B} (m : FT S E A) (f : A → FT S E B) s a s' :
  m s = Some (Ok a, s') → (m ≫= f) s = f a s'.
Proof. unfold mbind, ft_bind. by intros ->. Qed.

Lemma ft_bind_Ok {S E A B} (m : FT S E A) (f : A → FT S E B) s b s2 :
  (m ≫= f) s = Some (Ok b, s2) → ∃ a s1, m s = Some (Ok a, s1) ∧ f a s1 = Some (Ok b, s2).
Proof. unfold mbind, ft_bind. destruct (m s) as [[[a|e|] s1]|] eqn:E1; try discriminate. eauto. Qed.

Lemma ft_lift_step {S E A B} (m : ST S E A) (f : A → FT S E B) s a s' :
  m s = (Ok a, s') → (ft_lift m ≫= f) s = f a s'.
Proof. intros Hm. apply ft_step. unfold ft_lift. by rewrite Hm. Qed.

Lemma ft_get_bind {S E A} (k : S → FT S E A) s : (ft_lift st_get ≫= k) s = k s s.
Proof. done. Qed.
Lemma ft_modify_bind {S E A} f (k : unit → FT S E A) s : (ft_lift (st_modify f) ≫= k) s = k tt (f s).
Proof. done. Qed.

(** [Option::ok_or] *)
Definition ok_or {E A} (o : option A) (e : E) : outcome E A :=
  match o with Some a => Ok a | None => Err e end.

Lemma outcome_bind_Ok {E A B} (m : outcome E A) (f : A → outcome E B) b :
  m ≫= f = Ok b ↔ ∃ a, m = Ok a ∧ f a = Ok b.
Proof.
  split.
  - destruct m; simpl; try discriminate. eauto.
  - intros (a & -> & ?). done.
Qed.

Lemma st_bind_Ok {S E A B} (m : ST S E A) (f : A → ST S E B) s b s2 :
  (m ≫= f) s = (Ok b, s2) ↔ ∃ a s1, m s = (Ok a, s1) ∧ f a s1 = (Ok b, s2).
Proof.
  unfold mbind, st_bind. split.
  - destruct (m s) as [[a|e|] s1] eqn:E1; try discriminate. eauto.
  - intros (a & s1 & -> & ?). done.
Qed.

(** Inverts a successful monadic computation in a hypothesis. *)
Ltac inv_ok :=
  repeat match goal with
  | H : Ok _ = Ok _ |- _ => injection H as H; subst
  | H : mret _ = Ok _ |- _ => injection H as H; subst
  | H : mret _ _ = (Ok _, _) |- _ => unfold mret, st_ret in H
  | H : st_fail _ _ = (Ok _, _) |- _ => discriminate H
  | H : Err _ = Ok _ |- _ => discriminate H
  | H : Panic = Ok _ |- _ => discriminate H
  | H : (Ok _, _) = (Ok _, _) |- _ => injection H as ?; subst
  | H : (Err _, _) = (Ok _, _) |- _ => discriminate H
  | H : (Panic, _) = (Ok _, _) |- _ => discriminate H
  | H : (_ ≫= _) = Ok _ |- _ =>
      let a := fresh "a" in let Ha := fresh "Ha" in
      apply outcome_bind_Ok in H as (a & Ha & H)
  | H : (_ ≫= _) _ = (Ok _, _) |- _ =>
      let a := fresh "a" in let s := fresh "s" in let Ha := fresh "Ha" in
      apply st_bind_Ok in H as (a & s & Ha & H)
  end.

(** ** Slices: [buf[off..off+len]] and [copy_from_slice] *)

Definition slice {A} (off len : nat) (l : list A) : list A := take len (drop off l).

Definition copy_at {A} (off : nat) (src dst : list A) : list A :=
  take off dst ++ src ++ drop (off + length src) dst.

Create HintDb grumpy.
Create Rewrite HintDb len.

Section slices.
Context {A : Type}.
Implicit Types l src dst : list A.

Lemma length_slice off len l :
  length (slice off len l) = len `min` (length l - off).
Proof. unfold slice. by rewrite length_take, length_drop. Qed.

Lemma length_slice_le off len l : off + len ≤ length l → length (slice off len l) = len.
Proof. rewrite length_slice. lia. Qed.

Lemma lookup_slice off len l i :
  slice off len l !! i = if decide (i < len) then l !! (off + i) else None.
Proof. unfold slice. rewrite lookup_take. case_decide; [|done]. by rewrite lookup_drop. Qed.

Lemma length_copy_at off src dst :
  off + length src ≤ length dst → length (copy_at off src dst) = length dst.
Proof. intros. unfold copy_at. rewrite !length_app, length_take, length_drop. lia. Qed.

Lemma lookup_copy_at off src dst i :
  off ≤ length dst →
  copy_at off src dst !! i =
    if decide (off ≤ i < off + length src) then src !! (i - off) else dst !! i.
Proof.
  intros Hoff. unfold copy_at. rewrite !lookup_app, length_take.
  replace (off `min` length dst) with off by lia.
  destruct (decide (i < off)) as [Hi|Hi].
  - rewrite lookup_take_lt by done. rewrite decide_False by lia.
    destruct (dst !! i) eqn:E; [done|].
    apply lookup_ge_None in E. lia.
  - rewrite lookup_take_ge by lia. case_decide as Hd.
    + destruct (src !! (i - off)) eqn:E; [done|]. apply lookup_ge_None in E. lia.
    + rewrite (lookup_ge_None_2 src) by lia. rewrite lookup_drop. f_equal. lia.
Qed.

Lemma slice_copy_at_eq off src dst :
  off + length src ≤ length dst → slice off (length src) (copy_at off src dst) = src.
Proof.
  intros. apply list_eq. intros i. rewrite lookup_slice. case_decide.
  - rewrite lookup_copy_at by lia. rewrite decide_True by lia. f_equal. lia.
  - symmetry. apply lookup_ge_None_2. lia.
Qed.

Lemma slice_copy_at_eq' off n src dst :
  n = length src → off + n ≤ length dst → slice off n (copy_at off src dst) = src.
Proof. intros ->. apply slice_copy_at_eq. Qed.

Lemma slice_copy_at_ne off src dst o n :
  off ≤ length dst → o + n ≤ off ∨ off + length src ≤ o →
  slice o n (copy_at off src dst) = slice o n dst.
Proof.
  intros. apply list_eq. intros i. rewrite !lookup_slice. case_decide; [|done].
  rewrite lookup_copy_at by lia. by rewrite decide_False by lia.
Qed.

Lemma slice_slice o n o' n' l :
  o' + n' ≤ n → slice o' n' (slice o n l) = slice (o + o') n' l.
Proof.
  intros. apply list_eq. intros i. rewrite !lookup_slice. case_decide; [|done].
  rewrite decide_True by lia. f_equal. lia.
Qed.

Lemma slice_all l : slice 0 (length l) l = l.
Proof. unfold slice. by rewrite drop_0, take_ge. Qed.

Lemma slice_app_l o n l k : o + n ≤ length l → slice o n (l ++ k) = slice o n l.
Proof.
  intros. apply list_eq. intros i. rewrite !lookup_slice. case_decide; [|done].
  by rewrite lookup_app_l by lia.
Qed.

Lemma slice_app_r o n l k : length l ≤ o → slice o n (l ++ k) = slice (o - length l) n k.
Proof.
  intros. apply list_eq. intros i. rewrite !lookup_slice. case_decide; [|done].
  rewrite lookup_app_r by lia. f_equal. lia.
Qed.

Lemma take_slice_drop n l : take n l = slice 0 n l.
Proof. unfold slice. by rewrite drop_0. Qed.

Lemma copy_at_nil off dst : off ≤ length dst → copy_at off [] dst = dst.
Proof. intros. unfold copy_at. simpl. rewrite Nat.add_0_r. apply take_drop. Qed.
End slices.

(** ** Bytes and little-endian machine integers

    [u8]/[u16]/[u32]/[u64]/[u128] are [Z] kept in range; [to_le n z] is
    [z.to_le_bytes()] of the [8*n]-bit type, truncating as an [as] cast does. *)

Local Open Scope Z_scope.

Definition b2z (b : byte) : Z := Z.of_N (Byte.to_N b).
Definition z2b (z : Z) : byte := default x00 (Byte.of_N (Z.to_N (z `mod` 256))).

Fixpoint of_le (l : bytes) : Z :=
  match l with
  | [] => 0
  | b :: l => b2z b + 256 * of_le l
  end.

Fixpoint to_le (n : nat) (z : Z) : bytes :=
  match n with
  | O => []
  | S n => z2b z :: to_le n (z `div` 256)
  end.

Definition to_be (n : nat) (z : Z) : bytes := reverse (to_le n z).

(** [uN::from_le_bytes] of the [n] bytes at [off]. *)
Definition le_at (off n : nat) (buf : bytes) : Z := of_le (slice off n buf).

Definition u16_max : Z := 65535.
Definition u32_max : Z := 4294967295.
Definition u64_max : Z := 18446744073709551615.

Definition is_u8 (z : Z) : Prop := 0 ≤ z < 256.
Definition is_u16 (z : Z) : Prop := 0 ≤ z < 65536.
Definition is_u32 (z : Z) : Prop := 0 ≤ z < 4294967296.
Definition is_u64 (z : Z) : Prop := 0 ≤ z < 18446744073709551616.
Definition is_u128 (z : Z) : Prop := 0 ≤ z < 2 ^ 128.
Definition is_i64 (z : Z) : Prop := -9223372036854775808 ≤ z < 9223372036854775808.

(** [x as u64] of an [i64], and back. *)
Definition i64_as_u64 (z : Z) : Z := z `mod` 18446744073709551616.
Definition u64_as_i64 (z : Z) : Z :=
  if z <? 9223372036854775808 then z else z - 18446744073709551616.

Lemma b2z_range b : 0 ≤ b2z b < 256.
Proof. unfold b2z. pose proof (Byte.to_N_bounded b). lia. Qed.

Lemma z2b_b2z b : z2b (b2z b) = b.
Proof.
  unfold z2b. rewrite Z.mod_small by apply b2z_range. unfold b2z.
  by rewrite N2Z.id, Byte.of_to_N.
Qed.

Lemma b2z_z2b z : b2z (z2b z) = z `mod` 256.
Proof.
  unfold z2b, b2z. pose proof (Z.mod_pos_bound z 256 ltac:(lia)) as Hb.
  destruct (Byte.of_N _) as [b|] eqn:E; simpl.
  - apply Byte.to_of_N in E. rewrite E. lia.
  - apply Byte.of_N_None_iff in E. lia.
Qed.

Lemma b2z_inj a b : b2z a = b2z b → a = b.
Proof. intros E. rewrite <-(z2b_b2z a), <-(z2b_b2z b). by rewrite E. Qed.

Lemma z2b_inj_range a b : 0 ≤ a < 256 → 0 ≤ b < 256 → z2b a = z2b b → a = b.
Proof.
  intros Ha Hb E. apply (f_equal b2z) in E. rewrite !b2z_z2b in E.
  by rewrite !Z.mod_small in E.
Qed.

Lemma length_to_le n z : length (to_le n z) = n.
Proof. revert z. induction n; intros; simpl; auto. Qed.

Lemma length_to_be n z : length (to_be n z) = n.
Proof. unfold to_be. by rewrite length_reverse, length_to_le. Qed.

Lemma of_le_range l : 0 ≤ of_le l < 256 ^ Z.of_nat (length l).
Proof.
  induction l as [|b l IH]; simpl length; [simpl; lia|].
  rewrite Nat2Z.inj_succ, Z.pow_succ_r by lia. simpl.
  pose proof (b2z_range b). lia.
Qed.

Lemma of_to_le n z : of_le (to_le n z) = z `mod` 256 ^ Z.of_nat n.
Proof.
  revert z. induction n as [|n IH]; intros z; [simpl; by rewrite Z.mod_1_r|].
  rewrite Nat2Z.inj_succ, Z.pow_succ_r by lia.
  simpl to_le. simpl of_le. rewrite IH, b2z_z2b.
  assert (0 < 256 ^ Z.of_nat n) by (apply Z.pow_pos_nonneg; lia).
  rewrite Z.rem_mul_r by lia. done.
Qed.

Lemma to_of_le l : to_le (length l) (of_le l) = l.
Proof.
  induction l as [|b l IH]; simpl; [done|]. f_equal.
  - apply b2z_inj. rewrite b2z_z2b. pose proof (b2z_range b).
    rewrite (Z.mul_comm 256), Z.mod_add by lia. by apply Z.mod_small.
  - pose proof (b2z_range b).
    rewrite (Z.mul_comm 256), Z.div_add by lia.
    rewrite Z.div_small by lia. done.
Qed.

Lemma of_to_le_small n z : 0 ≤ z < 256 ^ Z.of_nat n → of_le (to_le n z) = z.
Proof. intros. rewrite of_to_le. by apply Z.mod_small. Qed.

Lemma of_le_app l k : of_le (l ++ k) = of_le l + 256 ^ Z.of_nat (length l) * of_le k.
Proof.
  induction l as [|b l IH]; [simpl; lia|].
  simpl length. rewrite Nat2Z.inj_succ, Z.pow_succ_r by lia. simpl. rewrite IH. lia.
Qed.

Lemma of_le_inj l k : length l = length k → of_le l = of_le k → l = k.
Proof. intros Hl E. rewrite <-(to_of_le l), <-(to_of_le k). by rewrite Hl, E. Qed.

Lemma le_at_range off n buf : 0 ≤ le_at off n buf < 256 ^ Z.of_nat n.
Proof.
  unfold le_at. pose proof (of_le_range (slice off n buf)) as [H0 H1].
  split; [done|]. eapply Z.lt_le_trans; [done|]. apply Z.pow_le_mono_r; [lia|].
  rewrite length_slice. lia.
Qed.

Lemma le_at_u16 off buf : is_u16 (le_at off 2 buf).
Proof. apply (le_at_range off 2 buf). Qed.
Lemma le_at_u32 off buf : is_u32 (le_at off 4 buf).
Proof. apply (le_at_range off 4 buf). Qed.
Lemma le_at_u64 off buf : is_u64 (le_at off 8 buf).
Proof. apply (le_at_range off 8 buf). Qed.
Lemma le_at_u128 off buf : is_u128 (le_at off 16 buf).
Proof. apply (le_at_range off 16 buf). Qed.

(** Reading back an integer written by [copy_from_slice(&z.to_le_bytes())]. *)
Lemma le_at_copy_eq off n z buf :
  (off + n ≤ length buf)%nat → 0 ≤ z < 256 ^ Z.of_nat n →
  le_at off n (copy_at off (to_le n z) buf) = z.
Proof.
  intros. unfold le_at.
  rewrite slice_copy_at_eq' by (rewrite ?length_to_le; lia). by apply of_to_le_small.
Qed.

Lemma le_at_copy_ne off src buf o n :
  (off ≤ length buf)%nat → (o + n ≤ off ∨ off + length src ≤ o)%nat →
  le_at o n (copy_at off src buf) = le_at o n buf.
Proof. intros. unfold le_at. by rewrite slice_copy_at_ne. Qed.

Lemma le_at_app_l o n l k : (o + n ≤ length l)%nat → le_at o n (l ++ k) = le_at o n l.
Proof. intros. unfold le_at. by rewrite slice_app_l. Qed.

Lemma le_at_app_r o n l k :
  (length l ≤ o)%nat → le_at o n (l ++ k) = le_at (o - length l) n k.
Proof. intros. unfold le_at. by rewrite slice_app_r. Qed.

Lemma le_at_to_le n z k : 0 ≤ z < 256 ^ Z.of_nat n → le_at 0 n (to_le n z ++ k) = z.
Proof.
  intros. rewrite le_at_app_l by (rewrite length_to_le; lia). unfold le_at.
  rewrite <-(length_to_le n z) at 1. rewrite slice_all. by apply of_to_le_small.
Qed.

Lemma i64_u64_roundtrip z : is_i64 z → u64_as_i64 (i64_as_u64 z) = z.
Proof.
  unfold is_i64, u64_as_i64, i64_as_u64. intros.
  destruct (decide (0 ≤ z)).
  - rewrite Z.mod_small by lia. case (Z.ltb_spec z 9223372036854775808); lia.
  - assert (z `mod` 18446744073709551616 = z + 18446744073709551616) as ->.
    { symmetry. apply (Z.mod_unique_pos _ _ (-1)); lia. }
    case (Z.ltb_spec (z + 18446744073709551616) 9223372036854775808); lia.
Qed.

Lemma i64_as_u64_range z : is_u64 (i64_as_u64 z).
Proof. unfold is_u64, i64_as_u64. apply Z.mod_pos_bound. lia. Qed.

#[export] Hint Rewrite length_to_le length_to_be length_app @length_replicate
  @length_take @length_drop : len.
#[export] Hint Rewrite @length_copy_at using (autorewrite with len; lia) : len.

Ltac len :=
  cbn beta in *; autorewrite with len in *; simpl length in *;
  autorewrite with len in *; try lia.

(** One successful (resp. failing) step of a monadic computation. *)
Lemma st_step {S E A B} (m : ST S E A) (f : A → ST S E B) s a s' :
  m s = (Ok a, s') → (m ≫= f) s = f a s'.
Proof. unfold mbind, st_bind. by intros ->. Qed.

Lemma st_step_err {S E A B} (m : ST S E A) (f : A → ST S E B) s e s' :
  m s = (Err e, s') → (m ≫= f) s = (Err e, s').
Proof. unfold mbind, st_bind. by intros ->. Qed.

#[global] Arguments to_le : simpl never.
#[global] Arguments of_le : simpl never.
#[global] Arguments le_at : simpl never.
#[global] Arguments slice : simpl never.
#[global] Arguments copy_at : simpl never.

Lemma st_get_bind {S E A} (f : S → ST S E A) s : (st_get ≫= f) s = f s s.
Proof. done. Qed.
Lemma st_modify_bind {S E A} (g : S → S) (f : unit → ST S E A) s :
  (st_modify g ≫= f) s = f tt (g s).
Proof. done. Qed.
Lemma st_ret_bind {S E A B} (a : A) (f : A → ST S E B) s : (mret a ≫= f) s = f a s.
Proof. done. Qed.
