(* ===== verification/RustStd.v ===== *)
(** * The parts of the Rust standard library the engine uses

    [Ord] (the trait), lexicographic order of byte strings, [BTreeMap] as an
    association list in key order, [slice::binary_search_by] and
    [partition_point] (the bisection of the standard library), and UTF-8
    validation as [String::from_utf8] performs it. *)

From stdpp Require Export sorting.
From S2P Require Import Prelude.

(** ** The [Ord] trait *)

Class Ord (K : Type) := {
  cmp : K → K → comparison;
  cmp_refl : ∀ x, cmp x x = Eq;
  cmp_eq : ∀ x y, cmp x y = Eq → x = y;
  cmp_antisym : ∀ x y, cmp y x = CompOpp (cmp x y);
  cmp_trans : ∀ x y z, cmp x y = Lt → cmp y z = Lt → cmp x z = Lt;
}.

Definition klt {K} `{Ord K} (x y : K) : Prop := cmp x y = Lt.
Definition kle {K} `{Ord K} (x y : K) : Prop := cmp x y ≠ Gt.

(** [a <= b] of the trait, as a boolean. *)
Definition kleb {K} `{Ord K} (x y : K) : bool :=
  match cmp x y with Gt => false | _ => true end.
Definition kltb {K} `{Ord K} (x y : K) : bool :=
  match cmp x y with Lt => true | _ => false end.

Section ord.
Context {K : Type} `{Ord K}.
Implicit Types x y z : K.

Lemma cmp_Lt_Gt x y : cmp x y = Lt ↔ cmp y x = Gt.
Proof. rewrite (cmp_antisym x y). destruct (cmp x y); simpl; naive_solver. Qed.

Lemma cmp_Gt_Lt x y : cmp x y = Gt ↔ cmp y x = Lt.
Proof. symmetry. apply cmp_Lt_Gt. Qed.

Lemma cmp_eq_iff x y : cmp x y = Eq ↔ x = y.
Proof. split; [apply cmp_eq|intros ->; apply cmp_refl]. Qed.

#[export] Instance klt_strict : StrictOrder (klt (K:=K)).
Proof.
  split.
  - intros x Hx. unfold klt in Hx. by rewrite cmp_refl in Hx.
  - intros x y z. apply cmp_trans.
Qed.

Lemma kle_lt_eq x y : kle x y ↔ klt x y ∨ x = y.
Proof.
  unfold kle, klt. rewrite <-cmp_eq_iff. destruct (cmp x y); naive_solver.
Qed.

Lemma kle_not_lt x y : kle x y ↔ ¬ klt y x.
Proof. unfold kle, klt. rewrite (cmp_Lt_Gt y x). done. Qed.

Lemma klt_not_le x y : klt x y ↔ ¬ kle y x.
Proof.
  unfold kle, klt. rewrite (cmp_Lt_Gt x y). destruct (cmp y x); naive_solver.
Qed.

Lemma kle_trans x y z : kle x y → kle y z → kle x z.
Proof.
  rewrite !kle_lt_eq. intros [Hxy| ->] [Hyz| ->]; auto.
  left. by transitivity y.
Qed.

Lemma klt_le_trans x y z : klt x y → kle y z → klt x z.
Proof. rewrite kle_lt_eq. intros Hxy [Hyz| <-]; [by transitivity y|done]. Qed.

Lemma kle_lt_trans x y z : kle x y → klt y z → klt x z.
Proof. rewrite kle_lt_eq. intros [Hxy| ->] ?; [by transitivity y|done]. Qed.

Lemma klt_le x y : klt x y → kle x y.
Proof. rewrite kle_lt_eq. auto. Qed.

Lemma kle_refl x : kle x x.
Proof. rewrite kle_lt_eq. auto. Qed.

Lemma klt_irrefl x : ¬ klt x x.
Proof. unfold klt. by rewrite cmp_refl. Qed.

Lemma kleb_spec x y : kleb x y = true ↔ kle x y.
Proof. unfold kleb, kle. destruct (cmp x y); naive_solver. Qed.

Lemma kltb_spec x y : kltb x y = true ↔ klt x y.
Proof. unfold kltb, klt. destruct (cmp x y); naive_solver. Qed.

#[export] Instance ord_eq_dec : EqDecision K.
Proof.
  intros x y. destruct (cmp x y) eqn:E.
  - left. by apply cmp_eq.
  - right. intros ->. by rewrite cmp_refl in E.
  - right. intros ->. by rewrite cmp_refl in E.
Defined.
End ord.

#[export] Hint Resolve klt_le kle_refl : grumpy.

#[export] Instance Z_ord : Ord Z.
Proof.
  refine {| cmp := Z.compare |}.
  - apply Z.compare_refl.
  - apply Z.compare_eq.
  - intros. apply Z.compare_antisym.
  - intros x y z. rewrite !Z.compare_lt_iff. lia.
Defined.

(** Byte strings ([String], [Vec<u8>], [Uuid]): lexicographic. *)
Fixpoint bytes_cmp (a b : bytes) : comparison :=
  match a, b with
  | [], [] => Eq
  | [], _ :: _ => Lt
  | _ :: _, [] => Gt
  | x :: a, y :: b =>
      match (b2z x ?= b2z y)%Z with Eq => bytes_cmp a b | c => c end
  end.

#[export] Instance bytes_ord : Ord (list byte).
Proof.
  refine {| cmp := bytes_cmp |}.
  - induction x as [|b x IH]; simpl; [done|]. by rewrite Z.compare_refl.
  - induction x as [|b x IH]; intros [|c y]; simpl; try done.
    destruct (b2z b ?= b2z c)%Z eqn:E; try done. intros Hc.
    apply Z.compare_eq, b2z_inj in E as ->. f_equal. by apply IH.
  - induction x as [|b x IH]; intros [|c y]; simpl; try done.
    rewrite (Z.compare_antisym (b2z b) (b2z c)).
    destruct (b2z b ?= b2z c)%Z; simpl; auto.
  - induction x as [|b x IH]; intros [|c y] [|d z]; simpl; try done.
    destruct (Z.compare_spec (b2z b) (b2z c)), (Z.compare_spec (b2z c) (b2z d)),
      (Z.compare_spec (b2z b) (b2z d)); try done; try lia. apply IH.
Defined.

Lemma bytes_cmp_app_same p a b : bytes_cmp (p ++ a) (p ++ b) = bytes_cmp a b.
Proof. induction p as [|x p IH]; simpl; [done|]. by rewrite Z.compare_refl. Qed.

(** ** [BTreeMap] *)

Section btreemap.
Context {K V : Type} `{Ord K}.
Implicit Types m : list (K * V).

Fixpoint bt_get (k : K) m : option V :=
  match m with
  | [] => None
  | (k', v) :: m =>
      match cmp k k' with Eq => Some v | Lt => None | Gt => bt_get k m end
  end.

Fixpoint bt_insert (k : K) (v : V) m : list (K * V) :=
  match m with
  | [] => [(k, v)]
  | (k', v') :: m' =>
      match cmp k k' with
      | Lt => (k, v) :: m
      | Eq => (k', v) :: m'
      | Gt => (k', v') :: bt_insert k v m'
      end
  end.

Fixpoint bt_remove (k : K) m : list (K * V) :=
  match m with
  | [] => []
  | (k', v') :: m' =>
      match cmp k k' with
      | Lt => m
      | Eq => m'
      | Gt => (k', v') :: bt_remove k m'
      end
  end.

Definition bt_sorted m : Prop := StronglySorted (λ a b, klt a.1 b.1) m.

Lemma bt_sorted_cons k v m :
  bt_sorted ((k, v) :: m) ↔ Forall (λ e, klt k e.1) m ∧ bt_sorted m.
Proof.
  split.
  - intros Hs. inversion Hs; subst. done.
  - intros [? ?]. by constructor.
Qed.

Lemma bt_get_below k m : Forall (λ e, klt k e.1) m → bt_get k m = None.
Proof.
  destruct m as [|[k' v'] m]; simpl; [done|]. intros [Hk _]%Forall_cons.
  simpl in Hk. unfold klt in Hk. by rewrite Hk.
Qed.

Lemma bt_get_insert k k' v m :
  bt_sorted m →
  bt_get k (bt_insert k' v m) = if decide (k = k') then Some v else bt_get k m.
Proof.
  induction m as [|[k2 v2] m IH]; intros Hs; simpl.
  - case_decide as Hd.
    + subst. by rewrite cmp_refl.
    + destruct (cmp k k') eqn:E; try done. by apply cmp_eq in E.
  - apply bt_sorted_cons in Hs as [Hall Hs].
    destruct (cmp k' k2) eqn:E2; simpl.
    + apply cmp_eq in E2 as ->. case_decide; [subst; by rewrite cmp_refl|].
      destruct (cmp k k2) eqn:E3; try done. by apply cmp_eq in E3.
    + case_decide as Hd; [subst; by rewrite cmp_refl|].
      destruct (cmp k k') eqn:E3; try done.
      * by apply cmp_eq in E3.
      * by rewrite (cmp_trans _ _ _ E3 E2).
    + rewrite IH by done. case_decide; [|done]. subst. by rewrite E2.
Qed.

Lemma bt_insert_Forall (P : K * V → Prop) k v m :
  P (k, v) → (∀ v', P (k, v') → P (k, v)) → Forall P m → Forall P (bt_insert k v m).
Proof.
  intros HP HP2. induction m as [|[k2 v2] m IH]; simpl; intros Hm.
  - by constructor.
  - apply Forall_cons in Hm as [H2 Hm].
    destruct (cmp k k2) eqn:E.
    + apply cmp_eq in E as ->. constructor; eauto.
    + repeat constructor; auto.
    + constructor; auto.
Qed.

Lemma bt_sorted_insert k v m : bt_sorted m → bt_sorted (bt_insert k v m).
Proof.
  induction m as [|[k2 v2] m IH]; intros Hs; simpl.
  - by repeat constructor.
  - pose proof Hs as [Hall Hs']%bt_sorted_cons.
    destruct (cmp k k2) eqn:E.
    + apply cmp_eq in E as ->. by apply bt_sorted_cons.
    + apply bt_sorted_cons. split; [|done]. constructor; [done|].
      eapply Forall_impl; [exact Hall|]. intros e He. by transitivity k2.
    + apply bt_sorted_cons. split; [|auto].
      apply bt_insert_Forall; auto. by apply cmp_Gt_Lt in E.
Qed.

Lemma bt_get_remove k k' m : bt_sorted m → bt_get k (bt_remove k' m) = if decide (k = k') then None else bt_get k m.
Proof.
  induction m as [|[k1 v] m IH]; intros Hs; [by case_decide|]. apply bt_sorted_cons in Hs as [Hall Hs]. cbn [bt_remove].
  destruct (cmp k' k1) eqn:E.
  - apply cmp_eq in E as ->. cbn [bt_get]. case_decide as Hk.
    + subst. by apply bt_get_below.
    + destruct (cmp k k1) eqn:E2; [by apply cmp_eq in E2| |done]. symmetry. rewrite bt_get_below; [done|].
      eapply Forall_impl; [exact Hall|]. intros [k2 v2] H2. by eapply cmp_trans.
  - case_decide as Hk; [subst; cbn [bt_get]; by rewrite E|done].
  - cbn [bt_get]. destruct (cmp k k1) eqn:E2; [|by case_decide|by apply IH]. apply cmp_eq in E2 as ->.
    rewrite decide_False; [done|]. intros ->. by rewrite cmp_refl in E.
Qed.

Lemma bt_remove_Forall (P : K * V → Prop) k m : Forall P m → Forall P (bt_remove k m).
Proof. induction 1 as [|[k2 v2] m H2 Hm IH]; cbn [bt_remove]; [constructor|]. destruct (cmp k k2); by try constructor. Qed.

Lemma bt_sorted_remove k m : bt_sorted m → bt_sorted (bt_remove k m).
Proof.
  induction m as [|[k2 v2] m IH]; intros Hs; [done|]. cbn [bt_remove]. pose proof Hs as [Hall Hs']%bt_sorted_cons.
  destruct (cmp k k2); [done|done|]. apply bt_sorted_cons. split; [by apply bt_remove_Forall|auto].
Qed.

Lemma bt_insert_length k v m : (length (bt_insert k v m) ≤ S (length m))%nat.
Proof. induction m as [|[k2 v2] m IH]; simpl; [lia|]. destruct (cmp k k2); simpl; lia. Qed.

(** A map is determined by its lookups. *)
Lemma bt_ext m1 m2 :
  bt_sorted m1 → bt_sorted m2 → (∀ k, bt_get k m1 = bt_get k m2) → m1 = m2.
Proof.
  revert m2. induction m1 as [|[k1 v1] m1 IH]; intros [|[k2 v2] m2] H1 H2 E; [done| | |].
  - specialize (E k2). simpl in E. by rewrite cmp_refl in E.
  - specialize (E k1). simpl in E. by rewrite cmp_refl in E.
  - pose proof H1 as [Ha1 Hs1]%bt_sorted_cons. pose proof H2 as [Ha2 Hs2]%bt_sorted_cons.
    assert (k1 = k2) as <-.
    { pose proof (E k1) as E1. pose proof (E k2) as E2. simpl in E1, E2.
      rewrite cmp_refl in E1, E2. rewrite (cmp_antisym k1 k2) in E2.
      destruct (cmp k1 k2) eqn:Ec; [by apply cmp_eq in Ec|done|].
      simpl in E2. done. }
    assert (v1 = v2) as <-.
    { specialize (E k1). simpl in E. rewrite cmp_refl in E. congruence. }
    f_equal. apply IH; [done..|]. intros k. specialize (E k). simpl in E.
    destruct (cmp k k1) eqn:Ek; [| |done].
    + apply cmp_eq in Ek as ->. by rewrite !bt_get_below.
    + rewrite !bt_get_below; [done|..];
        (eapply Forall_impl; [eassumption|]); intros e He; by transitivity k1.
Qed.

Lemma bt_insert_last k v m :
  Forall (λ e, klt e.1 k) m → bt_insert k v m = m ++ [(k, v)].
Proof.
  induction m as [|[k2 v2] m IH]; simpl; [done|].
  intros [Hk Hm]%Forall_cons. simpl in Hk.
  apply cmp_Lt_Gt in Hk. rewrite Hk. by rewrite IH.
Qed.

Lemma bt_get_app_lt k v m1 m2 :
  Forall (λ e, klt e.1 k) m1 → bt_get k (m1 ++ (k, v) :: m2) = Some v.
Proof.
  induction m1 as [|[k2 v2] m IH]; simpl.
  - by rewrite cmp_refl.
  - intros [Hk Hm]%Forall_cons. simpl in Hk.
    apply cmp_Lt_Gt in Hk. rewrite Hk. by apply IH.
Qed.

Lemma bt_get_elem k v m : bt_sorted m → bt_get k m = Some v ↔ (k, v) ∈ m.
Proof.
  induction m as [|[k2 v2] m IH]; intros Hs; simpl.
  - split; [done|]. by intros ?%elem_of_nil.
  - apply bt_sorted_cons in Hs as [Hall Hs]. rewrite elem_of_cons, <-IH by done.
    destruct (cmp k k2) eqn:E.
    + apply cmp_eq in E as ->. rewrite (bt_get_below k2 m) by done. naive_solver.
    + rewrite bt_get_below.
      * split; [done|]. intros [[= -> _]|?]; [|done]. by rewrite cmp_refl in E.
      * eapply Forall_impl; [exact Hall|]. intros e He. by transitivity k2.
    + split; [auto|]. intros [[= -> _]|?]; [|done]. by rewrite cmp_refl in E.
Qed.
End btreemap.

(** ** [slice::binary_search_by] and [slice::partition_point] *)

Section binary_search.
Context {A : Type}.
Implicit Types (f : A → comparison) (l : list A).

(** [while size > 1 { half = size / 2; mid = base + half;
     base = if f(mid) == Greater { base } else { mid }; size -= half }] *)
Fixpoint bs_loop (fuel : nat) f l (size base : nat) : nat :=
  match fuel with
  | O => base
  | S fuel =>
      if decide (size ≤ 1) then base else
      let half := size / 2 in
      let mid := base + half in
      let base' :=
        match f <$> l !! mid with Some Gt => base | _ => mid end in
      bs_loop fuel f l (size - half) base'
  end.

(** [inl i] is [Ok(i)] (found), [inr i] is [Err(i)] (insertion point). *)
Definition binary_search_by f l : nat + nat :=
  let base := bs_loop (length l) f l (length l) 0 in
  match l !! base with
  | None => inr 0
  | Some x =>
      match f x with Eq => inl base | Lt => inr (S base) | Gt => inr base end
  end.

Definition unwrap_or_else_id (r : nat + nat) : nat :=
  match r with inl i => i | inr i => i end.

Definition partition_point (pred : A → bool) l : nat :=
  unwrap_or_else_id (binary_search_by (λ x, if pred x then Lt else Gt) l).

(** What a sorted slice guarantees of the comparator. *)
Definition bs_mono f l : Prop :=
  ∀ i j x y, i < j → l !! i = Some x → l !! j = Some y →
    (f y = Lt → f x = Lt) ∧ (f x = Gt → f y = Gt).

Lemma bs_loop_spec fuel f l size base :
  bs_mono f l → size ≤ fuel → 0 < size → base + size ≤ length l →
  (base = 0 ∨ ∃ x, l !! base = Some x ∧ f x ≠ Gt) →
  (∀ j y, base + size ≤ j → l !! j = Some y → f y = Gt) →
  let b := bs_loop fuel f l size base in
  b < length l ∧ (b = 0 ∨ ∃ x, l !! b = Some x ∧ f x ≠ Gt) ∧
  (∀ j y, S b ≤ j → l !! j = Some y → f y = Gt).
Proof.
  intros Hm. revert size base. induction fuel as [|fuel IH]; intros size base Hf Hs Hb H0 Hg;
    [lia|]. cbn [bs_loop]. case_decide as Hd.
  - assert (size = 1) as -> by lia. rewrite Nat.add_1_r in Hg. split; [lia|done].
  - pose proof (Nat.div_lt size 2 ltac:(lia) ltac:(lia)).
    assert (1 ≤ size / 2) by (apply Nat.div_le_lower_bound; lia).
    destruct (lookup_lt_is_Some_2 l (base + size / 2)) as [x Hx]; [lia|]. rewrite Hx. cbn [fmap option_fmap option_map].
    assert (2 * (size / 2) ≤ size) by (apply Nat.Div0.mul_div_le).
    destruct (f x) eqn:Ef; apply IH; try lia; eauto using eq_refl.
    1,3: right; exists x; rewrite Ef; done.
    1,2: intros j y Hj; apply Hg; lia.
    intros j y Hj Hy. destruct (decide (j = base + size / 2)) as [->|]; [congruence|].
    eapply (Hm (base + size / 2) j); eauto. lia.
Qed.

Lemma binary_search_by_found f l i :
  binary_search_by f l = inl i → ∃ x, l !! i = Some x ∧ f x = Eq.
Proof.
  unfold binary_search_by. set (b := bs_loop _ _ _ _ _).
  destruct (l !! b) as [x|] eqn:E; [|done].
  destruct (f x) eqn:Ef; try done. intros [= <-]. eauto.
Qed.

Lemma binary_search_by_absent f l p :
  bs_mono f l → binary_search_by f l = inr p →
  p ≤ length l ∧ (∀ i x, i < p → l !! i = Some x → f x = Lt) ∧
  (∀ i x, p ≤ i → l !! i = Some x → f x = Gt).
Proof.
  intros Hm. unfold binary_search_by.
  destruct (decide (length l = 0)) as [Hl|Hl].
  { rewrite lookup_ge_None_2 by lia. intros [= <-]. split; [lia|].
    split; intros i x Hi Hx; [lia|]. apply lookup_lt_Some in Hx. lia. }
  destruct (bs_loop_spec (length l) f l (length l) 0) as (Hb & H0 & Hg);
    [done|lia|lia|lia|by left| |].
  { intros j y Hj Hy%lookup_lt_Some. lia. }
  set (b := bs_loop _ _ _ _ _) in *.
  destruct (lookup_lt_is_Some_2 l b Hb) as [x Hx]. rewrite Hx.
  destruct (f x) eqn:Ef; [done|..]; intros [= <-].
  - split; [lia|]. split; [|done]. intros i y Hi Hy.
    destruct (decide (i = b)) as [->|]; [congruence|].
    apply (Hm i b y x ltac:(lia) Hy Hx). done.
  - assert (b = 0) as Hb0 by (destruct H0 as [?|(x' & ? & ?)]; [done|congruence]).
    split; [lia|]. split; [lia|]. intros i y Hi Hy.
    destruct (decide (i = b)) as [->|]; [congruence|]. apply (Hg i); [lia|done].
Qed.

(** [partition_point] is the length of the prefix satisfying the predicate. *)
Lemma partition_point_spec (pred : A → bool) l :
  (∀ i j x y, i < j → l !! i = Some x → l !! j = Some y → pred y = true → pred x = true) →
  let p := partition_point pred l in
  p ≤ length l ∧ (∀ i x, i < p → l !! i = Some x → pred x = true) ∧
  (∀ i x, p ≤ i → l !! i = Some x → pred x = false).
Proof.
  intros Hm. unfold partition_point.
  destruct (binary_search_by _ l) as [i|p] eqn:E; simpl.
  { apply binary_search_by_found in E as (x & _ & Hx). by destruct (pred x). }
  apply binary_search_by_absent in E as (Hp & H1 & H2).
  - split; [done|]. split; intros i x Hi Hx.
    + specialize (H1 i x Hi Hx). by destruct (pred x).
    + specialize (H2 i x Hi Hx). by destruct (pred x).
  - intros i j x y Hij Hx Hy. specialize (Hm i j x y Hij Hx Hy).
    destruct (pred x), (pred y); naive_solver.
Qed.
End binary_search.

(** ** [Vec::insert], and insertion by bisection *)

Definition vec_insert {A} (i : nat) (x : A) (l : list A) : list A := take i l ++ x :: drop i l.

Section insert_sorted.
Context {A : Type} `{Ord A}.

Definition insert_pos (x : A) (l : list A) : nat :=
  unwrap_or_else_id (binary_search_by (λ y, cmp y x) l).

Lemma sorted_kle (l : list A) i j a b :
  StronglySorted kle l → (i < j) → l !! i = Some a → l !! j = Some b → kle a b.
Proof.
  intros Hs. revert i j. induction Hs as [|x l Hs IH Hall]; intros i j Hij Hi Hj; [done|].
  destruct i as [|i], j as [|j]; try lia; simpl in *.
  - injection Hi as <-. rewrite Forall_forall in Hall. apply Hall. by eapply list_elem_of_lookup_2.
  - by apply (IH i j); [lia|..].
Qed.

Lemma bs_mono_sorted x (l : list A) : StronglySorted kle l → bs_mono (λ y, cmp y x) l.
Proof.
  intros Hs i j a b Hij Ha Hb. pose proof (sorted_kle l i j a b Hs Hij Ha Hb) as Hab. split.
  - intros Hlt. exact (kle_lt_trans a b x Hab Hlt).
  - intros Hgt. apply cmp_Gt_Lt in Hgt. apply cmp_Gt_Lt. exact (klt_le_trans x a b Hgt Hab).
Qed.

Lemma insert_pos_spec x (l : list A) :
  StronglySorted kle l →
  let p := insert_pos x l in
  (p ≤ length l) ∧ (∀ i a, (i < p) → l !! i = Some a → kle a x) ∧
  (∀ i a, (p ≤ i) → l !! i = Some a → kle x a).
Proof.
  intros Hs. unfold insert_pos. destruct (binary_search_by _ l) as [p|p] eqn:E; simpl.
  - apply binary_search_by_found in E as (y & Hy & Heq). apply cmp_eq in Heq as ->.
    split; [by apply Nat.lt_le_incl, (lookup_lt_Some _ _ _ Hy)|]. split.
    + intros i a Hi Ha. by apply (sorted_kle l i p a x).
    + intros i a Hi Ha. destruct (decide (i = p)) as [->|].
      * assert (a = x) as -> by congruence. apply kle_refl.
      * apply (sorted_kle l p i x a); [done|lia|done|done].
  - apply binary_search_by_absent in E as (Hp & Hlt & Hgt); [|by apply bs_mono_sorted].
    split; [done|]. split.
    + intros i a Hi Ha. apply klt_le. by apply (Hlt i).
    + intros i a Hi Ha. apply klt_le. apply cmp_Gt_Lt. by apply (Hgt i).
Qed.

Lemma vec_insert_sorted x (l : list A) :
  StronglySorted kle l → StronglySorted kle (vec_insert (insert_pos x l) x l).
Proof.
  intros Hs. destruct (insert_pos_spec x l Hs) as (Hp & Hq1 & Hq2). set (p := insert_pos x l) in *.
  unfold vec_insert. rewrite <- (take_drop p l) in Hs. apply StronglySorted_app in Hs as (Hc & Ht & Hd).
  apply StronglySorted_app. split; [|split; [done|]].
  - intros a b Ha [->|Hb]%elem_of_cons; [|by apply Hc].
    apply elem_of_take in Ha as (i & Hi & Hip). by apply (Hq1 i).
  - constructor; [done|]. apply Forall_forall. intros b Hb.
    apply list_elem_of_lookup in Hb as [i Hi]. rewrite lookup_drop in Hi. apply (Hq2 (p + i)); [lia|done].
Qed.
End insert_sorted.

Lemma elem_of_vec_insert {A} i (x y : A) l : y ∈ vec_insert i x l ↔ y = x ∨ y ∈ l.
Proof.
  unfold vec_insert. rewrite elem_of_app, elem_of_cons. rewrite <- (take_drop i l) at 3.
  rewrite elem_of_app. tauto.
Qed.

(** [slice::sort] on names *)
Definition sort_names (l : list bytes) : list bytes := foldr (λ n s, vec_insert (insert_pos n s) n s) [] l.

Lemma elem_of_sort_names n l : n ∈ sort_names l ↔ n ∈ l.
Proof. induction l as [|m l IH]; [done|]. cbn [sort_names foldr]. rewrite elem_of_vec_insert, IH. set_solver. Qed.

Lemma filter_vec_insert {A} (P : A → Prop) `{∀ x, Decision (P x)} i x l :
  ¬ P x → filter P (vec_insert i x l) = filter P l.
Proof.
  intros Hx. unfold vec_insert. rewrite filter_app, filter_cons_False by done.
  by rewrite <- filter_app, take_drop.
Qed.

(** Bisection on the keys of an ordered association list. *)
Section keyed_search.
Context {K V : Type} `{Ord K}.
Implicit Types (l : list (K * V)) (k : K).

Lemma sorted_klt l i j a b :
  bt_sorted l → i < j → l !! i = Some a → l !! j = Some b → klt a.1 b.1.
Proof.
  intros Hs. revert i j. induction Hs as [|x l Hs IH Hall]; intros i j Hij Hi Hj; [done|].
  destruct i as [|i], j as [|j]; try lia; simpl in *.
  - injection Hi as <-. rewrite Forall_forall in Hall. apply Hall. by eapply list_elem_of_lookup_2.
  - by apply (IH i j); [lia|..].
Qed.

Lemma bs_mono_key k l : bt_sorted l → bs_mono (λ e, cmp e.1 k) l.
Proof.
  intros Hs i j a b Hij Ha Hb. pose proof (sorted_klt l i j a b Hs Hij Ha Hb) as Hab. split.
  - intros Hlt. exact (cmp_trans _ _ _ Hab Hlt).
  - intros Hgt. apply cmp_Gt_Lt in Hgt. apply cmp_Gt_Lt. exact (cmp_trans _ _ _ Hgt Hab).
Qed.

Lemma bt_get_lookup l i k v : bt_sorted l → l !! i = Some (k, v) → bt_get k l = Some v.
Proof. intros Hs Hi. apply bt_get_elem; [done|]. by eapply list_elem_of_lookup_2. Qed.

Lemma bt_insert_between k v l1 l2 :
  Forall (λ e, klt e.1 k) l1 → Forall (λ e, klt k e.1) l2 → bt_insert k v (l1 ++ l2) = l1 ++ (k, v) :: l2.
Proof.
  intros H1 H2. induction H1 as [|[k' v'] l1 Hk' _ IH]; simpl.
  - destruct l2 as [|[k2 v2] l2]; [done|]. apply Forall_cons in H2 as [Hk2 _]. simpl in *.
    unfold klt in Hk2. by rewrite Hk2.
  - simpl in Hk'. apply cmp_Lt_Gt in Hk'. by rewrite Hk', IH.
Qed.

Lemma bt_get_between k l1 l2 :
  Forall (λ e, klt e.1 k) l1 → Forall (λ e, klt k e.1) l2 → bt_get k (l1 ++ l2) = None.
Proof.
  intros H1 H2. induction H1 as [|[k' v'] l1 Hk' _ IH]; simpl; [by apply bt_get_below|].
  simpl in Hk'. apply cmp_Lt_Gt in Hk'. by rewrite Hk'.
Qed.

(** What the bisection for [k] finds in an ordered list. *)
Lemma key_search_spec k l :
  bt_sorted l →
  match binary_search_by (λ e, cmp e.1 k) l with
  | inl i => ∃ v, l !! i = Some (k, v) ∧ bt_get k l = Some v
  | inr p => p ≤ length l ∧ bt_get k l = None ∧
      Forall (λ e, klt e.1 k) (take p l) ∧ Forall (λ e, klt k e.1) (drop p l) ∧
      ∀ v, vec_insert p (k, v) l = bt_insert k v l
  end.
Proof.
  intros Hs. destruct (binary_search_by _ l) as [i|p] eqn:E.
  - apply binary_search_by_found in E as ([k' v] & Hi & Heq). simpl in Heq. apply cmp_eq in Heq as ->.
    exists v. split; [done|]. by eapply bt_get_lookup.
  - apply binary_search_by_absent in E as (Hp & Hlt & Hgt); [|by apply bs_mono_key].
    assert (Ht : Forall (λ e, klt e.1 k) (take p l)).
    { apply Forall_forall. intros e (i & Hi & Hip)%elem_of_take. by apply (Hlt i). }
    assert (Hd : Forall (λ e, klt k e.1) (drop p l)).
    { apply Forall_forall. intros e [i Hi]%list_elem_of_lookup. rewrite lookup_drop in Hi.
      apply cmp_Gt_Lt. apply (Hgt (p + i)); [lia|done]. }
    split; [done|]. split; [|split; [done|split; [done|]]].
    + rewrite <- (take_drop p l). by apply bt_get_between.
    + intros v. unfold vec_insert. rewrite <- (take_drop p l) at 3. by rewrite bt_insert_between.
Qed.

(** [partition_point(|e| e.key <= k)] of an ordered list. *)
Lemma key_partition_spec k l :
  bt_sorted l →
  let p := partition_point (λ e, kleb e.1 k) l in
  p ≤ length l ∧ Forall (λ e, kle e.1 k) (take p l) ∧ Forall (λ e, klt k e.1) (drop p l).
Proof.
  intros Hs p. destruct (partition_point_spec (λ e, kleb e.1 k) l) as (Hp & H1 & H2).
  { intros i j a b Hij Ha Hb Hkb. apply kleb_spec in Hkb. apply kleb_spec.
    eapply kle_trans; [|exact Hkb]. apply klt_le. by apply (sorted_klt l i j). }
  split; [done|]. split; apply Forall_forall.
  - intros e (i & Hi & Hip)%elem_of_take. apply kleb_spec. by apply (H1 i).
  - intros e [i Hi]%list_elem_of_lookup. rewrite lookup_drop in Hi.
    apply klt_not_le. intros Hle%kleb_spec. rewrite (H2 (p + i) e) in Hle; [done|lia|done].
Qed.
End keyed_search.

(** ** UTF-8: [String::from_utf8] (Unicode 15, table 3-7) *)

Definition in_range (lo hi : Z) (b : byte) : bool := (lo <=? b2z b)%Z && (b2z b <=? hi)%Z.
Definition utf8_cont (b : byte) : bool := in_range 128 191 b.

Fixpoint utf8_valid (l : bytes) : bool :=
  match l with
  | [] => true
  | b0 :: l1 =>
      if (b2z b0 <? 128)%Z then utf8_valid l1 else
      if in_range 194 223 b0 then
        match l1 with
        | b1 :: l2 => utf8_cont b1 && utf8_valid l2
        | [] => false
        end
      else if in_range 224 239 b0 then
        match l1 with
        | b1 :: b2 :: l3 =>
            (if (b2z b0 =? 224)%Z then in_range 160 191 b1
             else if (b2z b0 =? 237)%Z then in_range 128 159 b1
             else utf8_cont b1)
            && utf8_cont b2 && utf8_valid l3
        | _ => false
        end
      else if in_range 240 244 b0 then
        match l1 with
        | b1 :: b2 :: b3 :: l4 =>
            (if (b2z b0 =? 240)%Z then in_range 144 191 b1
             else if (b2z b0 =? 244)%Z then in_range 128 143 b1
             else utf8_cont b1)
            && utf8_cont b2 && utf8_cont b3 && utf8_valid l4
        | _ => false
        end
      else false
  end.

(** An ASCII literal as the bytes of the [str]. *)
Definition str (s : string) : bytes := Ascii.byte_of_ascii <$> String.list_ascii_of_string s.

Lemma utf8_valid_ascii l : Forall (λ b, b2z b < 128)%Z l → utf8_valid l = true.
Proof.
  induction l as [|b l IH]; simpl; [done|]. intros [Hb Hl]%Forall_cons.
  assert ((b2z b <? 128)%Z = true) as -> by lia. auto.
Qed.

(** [String::from_utf8_lossy]: every sequence that is not UTF-8, as far as it could begin
    one, becomes U+FFFD. *)
Definition REPLACEMENT : bytes := [xef; xbf; xbd].

Definition second_ok (b0 b1 : byte) : bool :=
  if (b2z b0 =? 224)%Z then in_range 160 191 b1
  else if (b2z b0 =? 237)%Z then in_range 128 159 b1
  else if (b2z b0 =? 240)%Z then in_range 144 191 b1
  else if (b2z b0 =? 244)%Z then in_range 128 143 b1
  else utf8_cont b1.

Fixpoint from_utf8_lossy (l : bytes) : bytes :=
  match l with
  | [] => []
  | b0 :: l1 =>
      if (b2z b0 <? 128)%Z then b0 :: from_utf8_lossy l1
      else if in_range 194 223 b0 then
        match l1 with
        | b1 :: l2 => if utf8_cont b1 then b0 :: b1 :: from_utf8_lossy l2 else REPLACEMENT ++ from_utf8_lossy l1
        | [] => REPLACEMENT
        end
      else if in_range 224 239 b0 then
        match l1 with
        | b1 :: l2 =>
            if second_ok b0 b1 then
              match l2 with
              | b2 :: l3 => if utf8_cont b2 then b0 :: b1 :: b2 :: from_utf8_lossy l3 else REPLACEMENT ++ from_utf8_lossy l2
              | [] => REPLACEMENT
              end
            else REPLACEMENT ++ from_utf8_lossy l1
        | [] => REPLACEMENT
        end
      else if in_range 240 244 b0 then
        match l1 with
        | b1 :: l2 =>
            if second_ok b0 b1 then
              match l2 with
              | b2 :: l3 =>
                  if utf8_cont b2 then
                    match l3 with
                    | b3 :: l4 => if utf8_cont b3 then b0 :: b1 :: b2 :: b3 :: from_utf8_lossy l4 else REPLACEMENT ++ from_utf8_lossy l3
                    | [] => REPLACEMENT
                    end
                  else REPLACEMENT ++ from_utf8_lossy l2
              | [] => REPLACEMENT
              end
            else REPLACEMENT ++ from_utf8_lossy l1
        | [] => REPLACEMENT
        end
      else REPLACEMENT ++ from_utf8_lossy l1
  end.

Lemma utf8_valid_app a b : utf8_valid a = true → utf8_valid (a ++ b) = utf8_valid b.
Proof.
  remember (length a) as n eqn:Hn. revert a Hn. induction (lt_wf n) as [n _ IH]. intros a -> Ha.
  destruct a as [|b0 l1]; [done|]. cbn [app utf8_valid] in *.
  assert (Hrec : ∀ l, (length l < length (b0 :: l1))%nat → utf8_valid l = true → utf8_valid (l ++ b) = utf8_valid b) by (intros l Hl; by apply (IH (length l))).
  clear IH. destruct (b2z b0 <? 128)%Z; [apply Hrec; cbn; (done || lia)|].
  destruct (in_range 194 223 b0).
  { destruct l1 as [|b1 l2]; [done|]. apply andb_prop in Ha as [Hc Hv]. cbn [app]. rewrite Hc. apply Hrec; cbn; (done || lia). }
  destruct (in_range 224 239 b0).
  { destruct l1 as [|b1 [|b2 l3]]; [done..|]. apply andb_prop in Ha as [Hc Hv]. cbn [app]. rewrite Hc. apply Hrec; cbn; (done || lia). }
  destruct (in_range 240 244 b0); [|done].
  destruct l1 as [|b1 [|b2 [|b3 l4]]]; [done..|]. apply andb_prop in Ha as [Hc Hv]. cbn [app]. rewrite Hc. apply Hrec; cbn; (done || lia).
Qed.

Lemma lossy_valid a : utf8_valid a = true → from_utf8_lossy a = a.
Proof.
  remember (length a) as n eqn:Hn. revert a Hn. induction (lt_wf n) as [n _ IH]. intros a -> Ha.
  destruct a as [|b0 l1]; [done|]. cbn [utf8_valid from_utf8_lossy] in *.
  assert (Hrec : ∀ l, (length l < length (b0 :: l1))%nat → utf8_valid l = true → from_utf8_lossy l = l) by (intros l Hl; by apply (IH (length l))).
  clear IH. destruct (b2z b0 <? 128)%Z; [f_equal; apply Hrec; cbn; (done || lia)|].
  destruct (in_range 194 223 b0).
  { destruct l1 as [|b1 l2]; [done|]. apply andb_prop in Ha as [Hc Hv]. rewrite Hc. do 2 f_equal. apply Hrec; cbn; (done || lia). }
  unfold second_ok. destruct (in_range 224 239 b0) eqn:H3.
  { destruct l1 as [|b1 [|b2 l3]]; [done..|]. apply andb_prop in Ha as [[Hs Hc]%andb_prop Hv]. rewrite Hc.
    assert ((b2z b0 =? 240)%Z = false ∧ (b2z b0 =? 244)%Z = false) as [-> ->] by (unfold in_range in H3; lia).
    rewrite Hs. do 3 f_equal. apply Hrec; cbn; (done || lia). }
  destruct (in_range 240 244 b0) eqn:H4; [|done]. destruct l1 as [|b1 [|b2 [|b3 l4]]]; [done..|].
  apply andb_prop in Ha as [[[Hs Hc]%andb_prop Hc3]%andb_prop Hv]. rewrite Hc, Hc3.
  assert ((b2z b0 =? 224)%Z = false ∧ (b2z b0 =? 237)%Z = false) as [-> ->] by (unfold in_range in H4; lia).
  rewrite Hs. do 4 f_equal. apply Hrec; cbn; (done || lia).
Qed.

Lemma StronglySorted_filter {A} (R : A → A → Prop) (P : A → Prop) `{∀ x, Decision (P x)} l :
  StronglySorted R l → StronglySorted R (filter P l).
Proof.
  induction 1 as [|x l Hs IH Hall]; [constructor|]. destruct (decide (P x)).
  - rewrite filter_cons_True by done. constructor; [done|].
    apply Forall_forall. intros y [_ Hy]%list_elem_of_filter. rewrite Forall_forall in Hall. by apply Hall.
  - by rewrite filter_cons_False.
Qed.

Lemma filter_none {A} (P : A → Prop) `{∀ x, Decision (P x)} (l : list A) :
  (∀ x, x ∈ l → ¬ P x) → filter P l = [].
Proof.
  induction l as [|x l IH]; intros Hall; [done|].
  rewrite filter_cons_False by (apply Hall; left). apply IH. intros y Hy. apply Hall. by right.
Qed.

(** Decidable form of [bt_sorted], for evaluation. *)
Fixpoint bt_sortedb {K V} `{Ord K} (m : list (K * V)) : bool :=
  match m with
  | [] => true
  | (k1, _) :: m' =>
      match m' with [] => true | (k2, _) :: _ => kltb k1 k2 end && bt_sortedb m'
  end.

Lemma bt_sortedb_spec {K V} `{Ord K} (m : list (K * V)) : bt_sortedb m = true ↔ bt_sorted m.
Proof.
  induction m as [|[k1 v1] m IH]; [by split; [constructor|]|].
  destruct m as [|[k2 v2] m]; [by split; [repeat constructor|]|].
  change (bt_sortedb _) with (kltb k1 k2 && bt_sortedb ((k2, v2) :: m)).
  rewrite andb_true_iff, IH, kltb_spec, (bt_sorted_cons k1).
  split.
  - intros [Hk Hs]. split; [|done]. constructor; [done|].
    apply bt_sorted_cons in Hs as [Hall _]. eapply Forall_impl; [exact Hall|].
    intros e He. by transitivity k2.
  - intros [[Hk _]%Forall_cons Hs]. done.
Qed.
