(* ===== verification/Value.v ===== *)
(** * Documents: [Value] and [CrdtKind] (src/src/document/value.rs)

    A [String] is its UTF-8 bytes, an [f64] its 64 bits, a [Uuid] its 16
    bytes, and a [BTreeMap<String, Value>] an association list in key order. *)

From S2P Require Import Prelude RustStd.

Inductive CrdtKind := GCounter | PNCounter | LwwSet | OrSet | Mvr.

#[export] Instance CrdtKind_eq_dec : EqDecision CrdtKind.
Proof. solve_decision. Defined.

Definition to_tag (k : CrdtKind) : Z :=
  match k with GCounter => 0 | PNCounter => 1 | LwwSet => 2 | OrSet => 3 | Mvr => 4 end.

Definition from_tag (tag : Z) : option CrdtKind :=
  match tag with
  | 0 => Some GCounter
  | 1 => Some PNCounter
  | 2 => Some LwwSet
  | 3 => Some OrSet
  | 4 => Some Mvr
  | _ => None
  end%Z.

Definition as_str_kind (k : CrdtKind) : string :=
  match k with
  | GCounter => "GCounter"
  | PNCounter => "PNCounter"
  | LwwSet => "LwwSet"
  | OrSet => "OrSet"
  | Mvr => "Mvr"
  end.

Definition from_name (name : string) : option CrdtKind :=
  if decide (name = "GCounter") then Some GCounter
  else if decide (name = "PNCounter") then Some PNCounter
  else if decide (name = "LwwSet") then Some LwwSet
  else if decide (name = "OrSet") then Some OrSet
  else if decide (name = "Mvr") then Some Mvr
  else None.

Inductive Value :=
| VNull
| VBool (b : bool)
| VInteger (n : Z)
| VFloat (bits : Z)
| VString (s : bytes)
| VBytes (b : bytes)
| VArray (arr : list Value)
| VObject (map : list (bytes * Value))
| VRef (collection uuid : bytes)
| VTombstone (deleted_at_hlc : Z) (vector_clock : bytes)
| VCrdt (kind : CrdtKind) (payload : bytes).

(** Induction over the nested lists. *)
Fixpoint Value_ind' (P : Value → Prop)
  (Hnull : P VNull) (Hbool : ∀ b, P (VBool b)) (Hint : ∀ n, P (VInteger n))
  (Hfloat : ∀ f, P (VFloat f)) (Hstr : ∀ s, P (VString s)) (Hbytes : ∀ b, P (VBytes b))
  (Harr : ∀ l, Forall P l → P (VArray l))
  (Hobj : ∀ m, Forall (λ e, P e.2) m → P (VObject m))
  (Href : ∀ c u, P (VRef c u)) (Htomb : ∀ h v, P (VTombstone h v))
  (Hcrdt : ∀ k p, P (VCrdt k p)) (v : Value) {struct v} : P v :=
  let rec := Value_ind' P Hnull Hbool Hint Hfloat Hstr Hbytes Harr Hobj Href Htomb Hcrdt in
  match v with
  | VNull => Hnull
  | VBool b => Hbool b
  | VInteger n => Hint n
  | VFloat f => Hfloat f
  | VString s => Hstr s
  | VBytes b => Hbytes b
  | VArray l =>
      Harr l ((fix go l : Forall P l :=
        match l with
        | [] => Forall_nil_2 _
        | x :: l => Forall_cons_2 _ _ _ (rec x) (go l)
        end) l)
  | VObject m =>
      Hobj m ((fix go m : Forall (λ e, P e.2) m :=
        match m with
        | [] => Forall_nil_2 _
        | e :: m => Forall_cons_2 (λ e, P e.2) _ _ (rec e.2) (go m)
        end) m)
  | VRef c u => Href c u
  | VTombstone h v => Htomb h v
  | VCrdt k p => Hcrdt k p
  end.

(** ** Accessors *)

Definition is_null (v : Value) : bool := match v with VNull => true | _ => false end.
Definition as_bool (v : Value) : option bool := match v with VBool b => Some b | _ => None end.
Definition as_i64 (v : Value) : option Z := match v with VInteger n => Some n | _ => None end.
Definition as_f64 (v : Value) : option Z := match v with VFloat f => Some f | _ => None end.
Definition as_str (v : Value) : option bytes := match v with VString s => Some s | _ => None end.
Definition as_bytes (v : Value) : option bytes := match v with VBytes b => Some b | _ => None end.
Definition as_array (v : Value) : option (list Value) :=
  match v with VArray a => Some a | _ => None end.
Definition as_object (v : Value) : option (list (bytes * Value)) :=
  match v with VObject m => Some m | _ => None end.
Definition as_ref (v : Value) : option (bytes * bytes) :=
  match v with VRef c u => Some (c, u) | _ => None end.
Definition is_tombstone (v : Value) : bool :=
  match v with VTombstone _ _ => true | _ => false end.
Definition as_tombstone (v : Value) : option (Z * bytes) :=
  match v with VTombstone h vc => Some (h, vc) | _ => None end.
Definition is_crdt (v : Value) : bool := match v with VCrdt _ _ => true | _ => false end.
Definition as_crdt (v : Value) : option (CrdtKind * bytes) :=
  match v with VCrdt k p => Some (k, p) | _ => None end.

(** ** What the Rust types guarantee of a value *)

Definition i64b (z : Z) : bool :=
  ((-9223372036854775808 <=? z) && (z <? 9223372036854775808))%Z.
Definition u64b (z : Z) : bool := ((0 <=? z) && (z <? 18446744073709551616))%Z.

Fixpoint rust_value (v : Value) : bool :=
  match v with
  | VNull | VBool _ | VBytes _ | VCrdt _ _ => true
  | VInteger n => i64b n
  | VFloat f => u64b f
  | VString s => utf8_valid s
  | VArray l => forallb rust_value l
  | VObject m => bt_sortedb m && forallb (λ e, utf8_valid e.1 && rust_value e.2) m
  | VRef c u => utf8_valid c && (length u =? 16)
  | VTombstone h _ => u64b h
  end.

Lemma from_to_tag k : from_tag (to_tag k) = Some k.
Proof. by destruct k. Qed.

Lemma to_from_tag t k : from_tag t = Some k → to_tag k = t.
Proof.
  unfold from_tag. intros Hk. repeat case_match; simplify_eq; done.
Qed.

Lemma from_name_as_str k : from_name (as_str_kind k) = Some k.
Proof. by destruct k. Qed.

Lemma i64b_spec z : i64b z = true ↔ is_i64 z.
Proof. unfold i64b, is_i64. lia. Qed.
Lemma u64b_spec z : u64b z = true ↔ is_u64 z.
Proof. unfold u64b, is_u64. lia. Qed.
