(* ===== verification/Codec.v ===== *)
(** * Binary codec for values and documents

    [encode], [encoded_size], [decode] of src/src/document/codec.rs and
    [Document] of src/src/document/mod.rs.  The decoder's cursor is the state
    of the monad; [decode_recursive] recurses on the levels that remain before
    the nesting limit, so its recursion needs no other bound. *)

From S2P Require Import Prelude RustStd Value.

Local Open Scope Z_scope.

Definition TAG_NULL : Z := 0.
Definition TAG_BOOL : Z := 1.
Definition TAG_INTEGER : Z := 2.
Definition TAG_FLOAT : Z := 3.
Definition TAG_STRING : Z := 4.
Definition TAG_BYTES : Z := 5.
Definition TAG_ARRAY : Z := 6.
Definition TAG_OBJECT : Z := 7.
Definition TAG_REF : Z := 8.
Definition TAG_TOMBSTONE : Z := 9.
Definition TAG_CRDT : Z := 10.

Definition MAX_REF_NAME_LEN : Z := 64.
Definition MAX_TOMBSTONE_VCLOCK_LEN : Z := 128 * 1024.
Definition MAX_CRDT_PAYLOAD_LEN : Z := 16 * 1024 * 1024.
Definition MAX_NESTING_DEPTH : nat := 64.
Definition MAX_BLOB_LEN : Z := 16 * 1024 * 1024.
Definition MAX_ARRAY_LEN : Z := 1000000.
Definition MAX_OBJECT_KEYS : Z := 100000.

Definition zlen {A} (l : list A) : Z := Z.of_nat (length l).

(** ** Encode *)

(** The bytes [encode] appends. *)
Fixpoint encode_value (v : Value) : bytes :=
  match v with
  | VNull => [z2b TAG_NULL]
  | VBool b => [z2b TAG_BOOL; z2b (if b then 1 else 0)]
  | VInteger n => z2b TAG_INTEGER :: to_le 8 (i64_as_u64 n)
  | VFloat f => z2b TAG_FLOAT :: to_le 8 f
  | VString s => z2b TAG_STRING :: to_le 4 (zlen s) ++ s
  | VBytes b => z2b TAG_BYTES :: to_le 4 (zlen b) ++ b
  | VArray arr =>
      z2b TAG_ARRAY :: to_le 4 (zlen arr) ++ concat (encode_value <$> arr)
  | VObject map =>
      z2b TAG_OBJECT :: to_le 4 (zlen map) ++
        concat ((λ e, to_le 4 (zlen e.1) ++ e.1 ++ encode_value e.2) <$> map)
  | VRef collection uuid =>
      z2b TAG_REF :: to_le 4 (zlen collection) ++ collection ++ uuid
  | VTombstone deleted_at_hlc vector_clock =>
      z2b TAG_TOMBSTONE :: to_le 8 deleted_at_hlc ++
        to_le 4 (zlen vector_clock) ++ vector_clock
  | VCrdt kind payload =>
      z2b TAG_CRDT :: z2b (to_tag kind) :: to_le 4 (zlen payload) ++ payload
  end.

Definition encode (v : Value) (buf : bytes) : bytes := buf ++ encode_value v.

Definition encode_to_vec (v : Value) : bytes := encode v [].

Definition sum_nat (l : list nat) : nat := foldr Nat.add 0%nat l.

Fixpoint encoded_size (v : Value) : nat :=
  match v with
  | VNull => 1
  | VBool _ => 2
  | VInteger _ | VFloat _ => 9
  | VString s => 1 + 4 + length s
  | VBytes b => 1 + 4 + length b
  | VArray arr => 1 + 4 + sum_nat (encoded_size <$> arr)
  | VObject map =>
      1 + 4 + sum_nat ((λ e, 4 + length e.1 + encoded_size e.2)%nat <$> map)
  | VRef collection _ => 1 + 4 + length collection + 16
  | VTombstone _ vector_clock => 1 + 8 + 4 + length vector_clock
  | VCrdt _ payload => 1 + 1 + 4 + length payload
  end%nat.

(** ** Decode *)

Abbreviation reader := (ST bytes GrumpyError).

Definition read_u8 : reader Z := λ cursor,
  match cursor with
  | [] => (Err (Codec "unexpected end of data"), cursor)
  | b :: rest => (Ok (b2z b), rest)
  end.

Definition read_int_le (n : nat) (what : string) : reader Z := λ cursor,
  if decide (length cursor < n)%nat then (Err (Codec what), cursor)
  else (Ok (le_at 0 n cursor), drop n cursor).

Definition read_u32_le : reader Z := read_int_le 4 "unexpected end of data reading u32".
Definition read_i64_le : reader Z :=
  n ← read_int_le 8 "unexpected end of data reading i64"; mret (u64_as_i64 n).
Definition read_f64_le : reader Z := read_int_le 8 "unexpected end of data reading f64".

Definition read_bytes (len : Z) : reader bytes := λ cursor,
  if decide (zlen cursor < len) then (Err (Codec "unexpected end of data"), cursor)
  else (Ok (take (Z.to_nat len) cursor), drop (Z.to_nat len) cursor).

Definition read_string (len : Z) : reader bytes :=
  b ← read_bytes len;
  if utf8_valid b then mret b else st_fail (Codec "invalid UTF-8").

(** [if len > max { return Err(..) }] *)
Definition check_len (len max : Z) (msg : string) : reader unit :=
  if decide (len > max) then st_fail (Codec msg) else mret tt.

(** [for _ in 0..n { arr.push(item()?) }] *)
Fixpoint read_items {A} (n : nat) (item : reader A) : reader (list A) :=
  match n with
  | O => mret []
  | S n => x ← item; xs ← read_items n item; mret (x :: xs)
  end.

(** [for _ in 0..n { let (k, v) = item()?; map.insert(k, v) }] *)
Fixpoint read_entries (n : nat) (item : reader (bytes * Value))
    (map : list (bytes * Value)) : reader (list (bytes * Value)) :=
  match n with
  | O => mret map
  | S n => e ← item; read_entries n item (bt_insert e.1 e.2 map)
  end.

(** One key/value pair of an object. *)
Definition read_entry (item : reader Value) : reader (bytes * Value) :=
  key_len ← read_u32_le;
  _ ← check_len key_len MAX_BLOB_LEN "object key length exceeds maximum";
  key ← read_string key_len;
  val ← item;
  mret (key, val).

(** [levels] is [MAX_NESTING_DEPTH + 1 - depth]: [depth > MAX_NESTING_DEPTH] is [levels = 0]. *)
Fixpoint decode_recursive (levels : nat) : reader Value :=
  match levels with
  | O => st_fail (Codec "nesting depth exceeds maximum")
  | S levels =>
      tag ← read_u8;
      if decide (tag = TAG_NULL) then mret VNull
      else if decide (tag = TAG_BOOL) then
        b ← read_u8; mret (VBool (negb (b =? 0)))
      else if decide (tag = TAG_INTEGER) then
        n ← read_i64_le; mret (VInteger n)
      else if decide (tag = TAG_FLOAT) then
        f ← read_f64_le; mret (VFloat f)
      else if decide (tag = TAG_STRING) then
        len ← read_u32_le;
        _ ← check_len len MAX_BLOB_LEN "string length exceeds maximum";
        s ← read_string len; mret (VString s)
      else if decide (tag = TAG_BYTES) then
        len ← read_u32_le;
        _ ← check_len len MAX_BLOB_LEN "bytes length exceeds maximum";
        b ← read_bytes len; mret (VBytes b)
      else if decide (tag = TAG_ARRAY) then
        count ← read_u32_le;
        _ ← check_len count MAX_ARRAY_LEN "array length exceeds maximum";
        arr ← read_items (Z.to_nat count) (decode_recursive levels);
        mret (VArray arr)
      else if decide (tag = TAG_OBJECT) then
        count ← read_u32_le;
        _ ← check_len count MAX_OBJECT_KEYS "object key count exceeds maximum";
        map ← read_entries (Z.to_nat count) (read_entry (decode_recursive levels)) [];
        mret (VObject map)
      else if decide (tag = TAG_REF) then
        name_len ← read_u32_le;
        _ ← check_len name_len MAX_REF_NAME_LEN "ref collection name length exceeds maximum";
        collection ← read_string name_len;
        uuid ← read_bytes 16;
        mret (VRef collection uuid)
      else if decide (tag = TAG_TOMBSTONE) then
        deleted_at_hlc ← read_int_le 8 "unexpected end of data reading tombstone HLC";
        vc_len ← read_u32_le;
        _ ← check_len vc_len MAX_TOMBSTONE_VCLOCK_LEN
              "tombstone vector clock length exceeds maximum";
        vector_clock ← read_bytes vc_len;
        mret (VTombstone deleted_at_hlc vector_clock)
      else if decide (tag = TAG_CRDT) then
        kind_tag ← read_u8;
        kind ← st_lift (ok_or (from_tag kind_tag) (Codec "unknown CRDT kind tag"));
        payload_len ← read_u32_le;
        _ ← check_len payload_len MAX_CRDT_PAYLOAD_LEN "CRDT payload length exceeds maximum";
        payload ← read_bytes payload_len;
        mret (VCrdt kind payload)
      else st_fail (Codec "unknown type tag")
  end.

Definition decode_from_cursor : reader Value := decode_recursive (MAX_NESTING_DEPTH + 1).

Definition decode (data : bytes) : res Value := (decode_from_cursor data).1.

(** ** Documents *)

Record Document := mkDocument { key : bytes; value : Value }.

Definition doc_encode (d : Document) : bytes := encode (value d) (key d).

Definition doc_decode (data : bytes) : res Document :=
  if decide (length data < 16)%nat then Err (Codec "document too short for UUID")
  else v ← (decode_from_cursor (drop 16 data)).1; Ok (mkDocument (take 16 data) v).

Definition doc_encoded_size (d : Document) : nat := (16 + encoded_size (value d))%nat.

(** ** The limits the decoder enforces, and the nesting depth *)

Fixpoint codec_limits (v : Value) : bool :=
  match v with
  | VNull | VBool _ | VInteger _ | VFloat _ => true
  | VString s => zlen s <=? MAX_BLOB_LEN
  | VBytes b => zlen b <=? MAX_BLOB_LEN
  | VArray l => (zlen l <=? MAX_ARRAY_LEN) && forallb codec_limits l
  | VObject m =>
      (zlen m <=? MAX_OBJECT_KEYS) &&
      forallb (λ e, (zlen e.1 <=? MAX_BLOB_LEN) && codec_limits e.2) m
  | VRef c _ => zlen c <=? MAX_REF_NAME_LEN
  | VTombstone _ vc => zlen vc <=? MAX_TOMBSTONE_VCLOCK_LEN
  | VCrdt _ p => zlen p <=? MAX_CRDT_PAYLOAD_LEN
  end.

Definition max_nat (l : list nat) : nat := foldr Nat.max 0%nat l.

Fixpoint nesting (v : Value) : nat :=
  match v with
  | VArray l => max_nat ((λ x, S (nesting x)) <$> l)
  | VObject m => max_nat ((λ e, S (nesting e.2)) <$> m)
  | _ => 0%nat
  end.

(** ** Reading what was written *)

Lemma read_u8_cons t rest : 0 ≤ t < 256 → read_u8 (z2b t :: rest) = (Ok t, rest).
Proof. intros. unfold read_u8. by rewrite b2z_z2b, Z.mod_small. Qed.

Lemma read_int_app n what z rest :
  0 ≤ z < 256 ^ Z.of_nat n → read_int_le n what (to_le n z ++ rest) = (Ok z, rest).
Proof.
  intros. unfold read_int_le. rewrite decide_False by (len; lia).
  rewrite le_at_to_le by done. rewrite drop_app_length'; [done|len].
Qed.

Lemma read_u32_app z rest : is_u32 z → read_u32_le (to_le 4 z ++ rest) = (Ok z, rest).
Proof. intros. by apply read_int_app. Qed.

Lemma read_i64_app z rest :
  is_i64 z → read_i64_le (to_le 8 (i64_as_u64 z) ++ rest) = (Ok z, rest).
Proof.
  intros. unfold read_i64_le. erewrite st_step by (apply read_int_app, i64_as_u64_range).
  by rewrite i64_u64_roundtrip.
Qed.

Lemma read_bytes_app n b rest : n = zlen b → read_bytes n (b ++ rest) = (Ok b, rest).
Proof.
  intros ->. unfold read_bytes, zlen. rewrite decide_False by (len; lia).
  rewrite Nat2Z.id, take_app_length, drop_app_length. done.
Qed.

Lemma read_string_app n b rest :
  n = zlen b → utf8_valid b = true → read_string n (b ++ rest) = (Ok b, rest).
Proof.
  intros Hn Hu. unfold read_string. erewrite st_step by (by apply read_bytes_app).
  by rewrite Hu.
Qed.

Lemma check_len_ok n mx msg s : n ≤ mx → check_len n mx msg s = (Ok tt, s).
Proof. intros. unfold check_len. rewrite decide_False by lia. done. Qed.

Lemma read_items_ok {A} (item : reader A) (enc : A → bytes) l rest :
  Forall (λ x, ∀ r, item (enc x ++ r) = (Ok x, r)) l →
  read_items (length l) item (concat (enc <$> l) ++ rest) = (Ok l, rest).
Proof.
  induction l as [|x l IH]; intros Hl; [done|]. apply Forall_cons in Hl as [Hx Hl].
  simpl. rewrite <-app_assoc.
  erewrite st_step by apply Hx. erewrite st_step by (by apply IH). done.
Qed.

(** The first element that fails fails the loop. *)
Lemma read_items_err {A} (item : reader A) (enc : A → bytes) (bad : A → Prop) e l rest :
  (∀ x, x ∈ l → bad x ∨ ¬ bad x) →
  (∀ x r, x ∈ l → ¬ bad x → item (enc x ++ r) = (Ok x, r)) →
  (∀ x r, x ∈ l → bad x → ∃ s, item (enc x ++ r) = (Err e, s)) →
  Exists bad l →
  ∃ s, read_items (length l) item (concat (enc <$> l) ++ rest) = (Err e, s).
Proof.
  induction l as [|x l IH]; intros Hdec Hok Hbad Hex; [by inversion Hex|].
  simpl. rewrite <-app_assoc.
  destruct (Hdec x ltac:(left)) as [Hx|Hx].
  - destruct (Hbad x (concat (enc <$> l) ++ rest) ltac:(left) Hx) as [s Hs]. exists s.
    by erewrite st_step_err by apply Hs.
  - erewrite st_step by (by apply Hok; [left|]).
    destruct IH as [s Hs].
    + intros y Hy. apply Hdec. by right.
    + intros y r Hy. apply Hok. by right.
    + intros y r Hy. apply Hbad. by right.
    + by inversion Hex.
    + exists s. by erewrite st_step_err by apply Hs.
Qed.

(** [read_entries] is [read_items] followed by the insertions. *)
Lemma read_entries_items n item m s :
  read_entries n item m s =
    match read_items n item s with
    | (Ok l, s') => (Ok (foldl (λ m e, bt_insert e.1 e.2 m) m l), s')
    | (Err e, s') => (Err e, s')
    | (Panic, s') => (Panic, s')
    end.
Proof.
  revert m s. induction n as [|n IH]; intros m s; [done|].
  simpl. unfold mbind, st_bind. destruct (item s) as [[e| |] s1]; [|done|done].
  rewrite IH. by destruct (read_items n item s1) as [[l| |] s2].
Qed.

Lemma foldl_insert_sorted (m l : list (bytes * Value)) :
  bt_sorted (m ++ l) → foldl (λ m e, bt_insert e.1 e.2 m) m l = m ++ l.
Proof.
  revert m. induction l as [|[k v] l IH]; intros m Hs; simpl; [by rewrite app_nil_r|].
  rewrite bt_insert_last.
  - rewrite IH; [by rewrite <-app_assoc|]. by rewrite <-app_assoc.
  - clear IH. induction m as [|[k2 v2] m IH]; [done|].
    simpl in Hs. apply bt_sorted_cons in Hs as [Hall Hs]. constructor; [|auto].
    rewrite Forall_app in Hall. destruct Hall as [_ [? _]%Forall_cons]. done.
Qed.

Definition encode_entry (e : bytes * Value) : bytes :=
  to_le 4 (zlen e.1) ++ e.1 ++ encode_value e.2.

Lemma read_entry_head item e r :
  utf8_valid e.1 = true → zlen e.1 ≤ MAX_BLOB_LEN →
  read_entry item (encode_entry e ++ r) = (v ← item; mret (e.1, v)) (encode_value e.2 ++ r).
Proof.
  intros Hu Hl. unfold read_entry, encode_entry. rewrite <-!app_assoc.
  erewrite st_step by (apply read_u32_app; unfold is_u32, zlen, MAX_BLOB_LEN in *; lia).
  erewrite st_step by (by apply check_len_ok).
  erewrite st_step by (by apply read_string_app). done.
Qed.

Lemma max_nat_le n l : (max_nat l ≤ n)%nat ↔ Forall (λ x, x ≤ n)%nat l.
Proof.
  induction l as [|x l IH]; simpl; [split; [done|lia]|].
  rewrite Forall_cons, <-IH. lia.
Qed.

Lemma max_nat_gt n l : (n < max_nat l)%nat ↔ Exists (λ x, n < x)%nat l.
Proof.
  induction l as [|x l IH]; simpl.
  - split; [lia|]. intros He. inversion He.
  - rewrite Exists_cons, <-IH. lia.
Qed.

(** Selects the branch of the tag dispatch. *)
Ltac dispatch :=
  cbn [decode_recursive]; erewrite st_step by (apply read_u8_cons; done);
  repeat (rewrite decide_False by done); rewrite ?decide_True by done.

(** The decoder on an encoding: the value itself, consuming exactly its
    bytes, when the value fits in the remaining levels; the nesting error
    otherwise. *)
Definition decodes_at (v : Value) : Prop := ∀ levels rest,
  ((nesting v < levels)%nat → decode_recursive levels (encode_value v ++ rest) = (Ok v, rest)) ∧
  ((levels ≤ nesting v)%nat → ∃ s, decode_recursive levels (encode_value v ++ rest) =
     (Err (Codec "nesting depth exceeds maximum"), s)).

Lemma decodes_scalar v :
  nesting v = 0%nat →
  (∀ levels rest, decode_recursive (S levels) (encode_value v ++ rest) = (Ok v, rest)) →
  decodes_at v.
Proof.
  intros Hn Hv levels rest. rewrite Hn. split.
  - destruct levels as [|levels]; [lia|]. intros _. apply Hv.
  - destruct levels as [|levels]; [|lia]. intros _. eexists. done.
Qed.

Lemma decodes_array l :
  zlen l ≤ MAX_ARRAY_LEN → Forall decodes_at l → decodes_at (VArray l).
Proof.
  intros Hlen Hl levels rest. destruct levels as [|levels].
  { split; [lia|]. intros _. eexists. done. }
  assert (Hu : is_u32 (zlen l)) by (unfold is_u32, zlen, MAX_ARRAY_LEN in *; lia).
  cbn [encode_value]. rewrite <-app_comm_cons, <-app_assoc. dispatch.
  erewrite st_step by (by apply read_u32_app).
  erewrite st_step by (by apply check_len_ok).
  unfold zlen. rewrite Nat2Z.id. cbn [nesting]. rewrite Forall_forall in Hl. split; intros Hn.
  - apply Nat.lt_succ_r, max_nat_le in Hn. rewrite Forall_fmap, Forall_forall in Hn.
    erewrite st_step; [done|]. apply read_items_ok, Forall_forall. intros x Hx r.
    apply Hl; [done|]. apply Hn in Hx. simpl in Hx. lia.
  - apply Nat.le_succ_l, max_nat_gt in Hn. rewrite Exists_fmap in Hn.
    destruct (read_items_err (decode_recursive levels) encode_value
      (λ x, levels ≤ nesting x)%nat (Codec "nesting depth exceeds maximum") l rest) as [s Hs].
    + intros x _. lia.
    + intros x r Hx Hb. apply Hl; [done|lia].
    + intros x r Hx Hb. by apply Hl.
    + eapply Exists_impl; [exact Hn|]. intros x Hx. simpl in Hx. lia.
    + exists s. by erewrite st_step_err.
Qed.

Lemma decodes_object m :
  zlen m ≤ MAX_OBJECT_KEYS → bt_sorted m →
  Forall (λ e, utf8_valid e.1 = true ∧ zlen e.1 ≤ MAX_BLOB_LEN ∧ decodes_at e.2) m →
  decodes_at (VObject m).
Proof.
  intros Hlen Hs Hl levels rest. destruct levels as [|levels].
  { split; [lia|]. intros _. eexists. done. }
  assert (Hu : is_u32 (zlen m)) by (unfold is_u32, zlen, MAX_OBJECT_KEYS in *; lia).
  cbn [encode_value]. rewrite <-app_comm_cons, <-app_assoc. dispatch.
  erewrite st_step by (by apply read_u32_app).
  erewrite st_step by (by apply check_len_ok).
  change (λ e : bytes * Value, to_le 4 (zlen e.1) ++ e.1 ++ encode_value e.2) with encode_entry.
  unfold zlen. rewrite Nat2Z.id. cbn [nesting]. rewrite Forall_forall in Hl.
  split; intros Hn.
  - apply Nat.lt_succ_r, max_nat_le in Hn. rewrite Forall_fmap, Forall_forall in Hn.
    erewrite st_step; [done|]. rewrite read_entries_items.
    rewrite (read_items_ok _ encode_entry); [by rewrite foldl_insert_sorted|].
    apply Forall_forall. intros [k v] Hx r. destruct (Hl _ Hx) as (Hk & Hkl & Hd).
    rewrite read_entry_head by done.
    erewrite st_step; [done|]. apply Hd. apply Hn in Hx. simpl in *. lia.
  - apply Nat.le_succ_l, max_nat_gt in Hn. rewrite Exists_fmap in Hn.
    destruct (read_items_err (read_entry (decode_recursive levels)) encode_entry
      (λ e, levels ≤ nesting e.2)%nat (Codec "nesting depth exceeds maximum") m rest) as [s Hs'].
    + intros x _. lia.
    + intros [k v] r Hx Hb. destruct (Hl _ Hx) as (Hk & Hkl & Hd).
      rewrite read_entry_head by done.
      erewrite st_step; [done|]. apply Hd. simpl in Hb |- *. lia.
    + intros [k v] r Hx Hb. destruct (Hl _ Hx) as (Hk & Hkl & Hd).
      rewrite read_entry_head by done.
      destruct (proj2 (Hd levels r) Hb) as [s Hs']. exists s. by erewrite st_step_err.
    + eapply Exists_impl; [exact Hn|]. intros x Hx. simpl in Hx. lia.
    + exists s. erewrite st_step_err; [done|]. by rewrite read_entries_items, Hs'.
Qed.

Lemma forallb_Forall {A} (f : A → bool) l : forallb f l = true ↔ Forall (λ x, f x = true) l.
Proof. induction l; simpl; rewrite ?andb_true_iff, ?Forall_cons; naive_solver. Qed.

Lemma decodes v : rust_value v = true → codec_limits v = true → decodes_at v.
Proof.
  induction v using Value_ind'; intros Hr Hc; simpl in Hr, Hc.
  all: try (rewrite ?andb_true_iff, ?Z.leb_le in * ).
  7: { destruct Hc as [Hc Hcl]. apply decodes_array; [done|].
       rewrite forallb_Forall in *. rewrite Forall_forall in *. naive_solver. }
  7: { destruct Hc as [Hc Hcl], Hr as [Hs Hr]. apply decodes_object; [done|by apply bt_sortedb_spec|].
       rewrite forallb_Forall in *. rewrite Forall_forall in *. intros e He.
       specialize (Hr e He). specialize (Hcl e He). specialize (H e He).
       rewrite andb_true_iff, ?Z.leb_le in *. naive_solver. }
  all: apply decodes_scalar; [done|]; intros levels rest; cbn [encode_value];
    rewrite <-?app_comm_cons, <-?app_assoc; dispatch.
  - done.
  - erewrite st_step by (apply read_u8_cons; by destruct b). by destruct b.
  - erewrite st_step by (by apply read_i64_app, i64b_spec). done.
  - erewrite st_step by (by apply read_int_app, u64b_spec). done.
  - erewrite st_step by (apply read_u32_app; unfold is_u32, zlen, MAX_BLOB_LEN in *; lia).
    erewrite st_step by (by apply check_len_ok).
    erewrite st_step by (by apply read_string_app). done.
  - erewrite st_step by (apply read_u32_app; unfold is_u32, zlen, MAX_BLOB_LEN in *; lia).
    erewrite st_step by (by apply check_len_ok).
    erewrite st_step by (by apply read_bytes_app). done.
  - destruct Hr as [Hr Hl].
    erewrite st_step by (apply read_u32_app; unfold is_u32, zlen, MAX_REF_NAME_LEN in *; lia).
    erewrite st_step by (by apply check_len_ok).
    erewrite st_step by (by apply read_string_app).
    erewrite st_step by (apply read_bytes_app; unfold zlen; apply Nat.eqb_eq in Hl; lia). done.
  - erewrite st_step by (by apply read_int_app, u64b_spec).
    erewrite st_step by
      (apply read_u32_app; unfold is_u32, zlen, MAX_TOMBSTONE_VCLOCK_LEN in *; lia).
    erewrite st_step by (by apply check_len_ok).
    erewrite st_step by (by apply read_bytes_app). done.
  - erewrite st_step by (apply read_u8_cons; by destruct k).
    erewrite st_step by (unfold st_lift; by rewrite from_to_tag).
    erewrite st_step by
      (apply read_u32_app; unfold is_u32, zlen, MAX_CRDT_PAYLOAD_LEN in *; lia).
    erewrite st_step by (by apply check_len_ok).
    erewrite st_step by (by apply read_bytes_app). done.
Qed.

(** ** What a successful decode guarantees *)

Definition decoded (levels : nat) (v : Value) : Prop :=
  rust_value v = true ∧ codec_limits v = true ∧ (nesting v < levels)%nat.

Lemma read_u8_post s z s' : read_u8 s = (Ok z, s') → 0 ≤ z < 256.
Proof. destruct s as [|b s]; simpl; [done|]. intros [= <- _]. apply b2z_range. Qed.

Lemma read_int_post n what s z s' :
  read_int_le n what s = (Ok z, s') → 0 ≤ z < 256 ^ Z.of_nat n.
Proof.
  unfold read_int_le. case_decide; [done|]. intros [= <- _]. apply le_at_range.
Qed.

Lemma read_bytes_post n s b s' :
  0 ≤ n → read_bytes n s = (Ok b, s') → zlen b = n.
Proof.
  unfold read_bytes, zlen. case_decide; [done|]. intros ? [= <- _]. len.
Qed.

Lemma read_string_post n s b s' :
  0 ≤ n → read_string n s = (Ok b, s') → zlen b = n ∧ utf8_valid b = true.
Proof.
  unfold read_string. intros Hn Hs. inv_ok. destruct (utf8_valid a) eqn:Hu; [|done].
  inv_ok. split; [|done]. by eapply read_bytes_post.
Qed.

Lemma check_len_post n mx msg s u s' : check_len n mx msg s = (Ok u, s') → n ≤ mx ∧ s = s'.
Proof. unfold check_len. case_decide; [done|]. intros [= _ <-]. split; [lia|done]. Qed.

Lemma read_items_post {A} (P : A → Prop) n (item : reader A) s l s' :
  (∀ s x s', item s = (Ok x, s') → P x) →
  read_items n item s = (Ok l, s') → length l = n ∧ Forall P l.
Proof.
  intros HP. revert s l s'. induction n as [|n IH]; intros s l s' Hr; simpl in Hr.
  - inv_ok. done.
  - inv_ok. apply IH in Ha0 as [<- ?]. split; [done|]. eauto.
Qed.

Lemma foldl_insert_post (P : bytes * Value → Prop) m l :
  bt_sorted m → Forall P m → Forall P l →
  let m' := foldl (λ m e, bt_insert e.1 e.2 m) m l in
  bt_sorted m' ∧ Forall P m' ∧ (length m' ≤ length m + length l)%nat.
Proof.
  revert m. induction l as [|[k v] l IH]; intros m Hs Hm Hl; simpl; [split_and!; auto; lia|].
  apply Forall_cons in Hl as [Hx Hl].
  destruct (IH (bt_insert k v m)) as (H1 & H2 & H3); [by apply bt_sorted_insert|
    by apply bt_insert_Forall|done|].
  split_and!; [done..|]. pose proof (bt_insert_length k v m). lia.
Qed.

Lemma forallb_imp {A} (f : A → bool) (P : A → Prop) l :
  (∀ x, P x → f x = true) → Forall P l → forallb f l = true.
Proof. intros Hf Hl. apply forallb_Forall. eapply Forall_impl; eauto. Qed.

(** Collects the facts of the reads of a branch. *)
Ltac reads :=
  inv_ok; repeat match goal with
  | H : read_u8 _ = (Ok _, _) |- _ => apply read_u8_post in H
  | H : read_u32_le _ = (Ok _, _) |- _ => apply read_int_post in H
  | H : read_f64_le _ = (Ok _, _) |- _ => apply read_int_post in H
  | H : read_int_le _ _ _ = (Ok _, _) |- _ => apply read_int_post in H
  | H : check_len _ _ _ _ = (Ok _, _) |- _ => apply check_len_post in H as [H ?]; subst
  | H : read_string _ _ = (Ok _, _) |- _ => apply read_string_post in H as [? H]; [|lia]
  | H : read_bytes _ _ = (Ok _, _) |- _ => apply read_bytes_post in H; [|lia]
  end.

Lemma decode_recursive_post levels s v s' :
  decode_recursive levels s = (Ok v, s') → decoded levels v.
Proof.
  revert s v s'. induction levels as [|levels IH]; intros s v s' Hd; [done|].
  cbn [decode_recursive] in Hd. inv_ok. unfold decoded.
  repeat (case_decide; [subst a|]); [..|done].
  - reads. split_and!; [done|done|simpl; lia].
  - reads. split_and!; [done|done|simpl; lia].
  - unfold read_i64_le in Hd. reads. split_and!; [|done|simpl; lia].
    apply i64b_spec. unfold is_i64, u64_as_i64. simpl in *. case_match; lia.
  - reads. split_and!; [|done|simpl; lia]. by apply u64b_spec.
  - reads. split_and!; [done| |simpl; lia]. simpl. lia.
  - reads. split_and!; [done| |simpl; lia]. simpl. lia.
  - reads. eapply (read_items_post (decoded levels)) in Ha2 as [Hl Hall]; [|done].
    simpl. rewrite andb_true_iff, Z.leb_le. split_and!.
    + eapply forallb_imp; [|done]. by intros x (? & ? & ?).
    + unfold zlen. lia.
    + eapply forallb_imp; [|done]. by intros x (? & ? & ?).
    + apply Nat.lt_succ_r, max_nat_le. rewrite Forall_fmap.
      eapply Forall_impl; [exact Hall|]. intros x (? & ? & ?). simpl. lia.
  - reads. rewrite read_entries_items in Ha2.
    destruct (read_items _ _ _) as [[l| |] s3] eqn:Hit; try done.
    eapply (read_items_post (λ e, utf8_valid e.1 = true ∧ zlen e.1 ≤ MAX_BLOB_LEN ∧
      decoded levels e.2)) in Hit as [Hl Hall].
    2: { intros s4 x s5 Hx. unfold read_entry in Hx. reads. simpl.
         split_and!; [done|lia|eauto..]. }
    injection Ha2 as <- <-.
    destruct (foldl_insert_post _ [] l ltac:(constructor) ltac:(constructor) Hall)
      as (Hs1 & Hm & Hlen). set (m := foldl _ _ _) in *.
    simpl. rewrite !andb_true_iff, Z.leb_le. split_and!.
    + by apply bt_sortedb_spec.
    + eapply forallb_imp; [|done]. intros x (? & ? & ? & ? & ?). by apply andb_true_iff.
    + unfold zlen. simpl in Hlen. lia.
    + eapply forallb_imp; [|done]. intros x (? & ? & ? & ? & ?).
      rewrite andb_true_iff, Z.leb_le. done.
    + apply Nat.lt_succ_r, max_nat_le. rewrite Forall_fmap.
      eapply Forall_impl; [exact Hm|]. intros x (? & ? & ? & ? & ?). simpl. lia.
  - reads. simpl. rewrite andb_true_iff, Z.leb_le. unfold zlen in *.
    rewrite Nat.eqb_eq. split_and!; [done|lia|lia|lia].
  - reads. simpl. rewrite Z.leb_le. split_and!; [by apply u64b_spec|lia|lia].
  - reads. simpl. rewrite Z.leb_le. split_and!; [done|lia|lia].
Qed.

(** ** Properties *)

Lemma length_concat_map {A} (f : A → bytes) (g : A → nat) l :
  Forall (λ x, length (f x) = g x) l → length (concat (f <$> l)) = sum_nat (g <$> l).
Proof.
  induction l as [|x l IH]; intros Hl; [done|]. apply Forall_cons in Hl as [Hx Hl].
  rewrite !fmap_cons. cbn [concat sum_nat foldr]. rewrite length_app, Hx, IH; done.
Qed.

Lemma length_encode_value v : rust_value v = true → length (encode_value v) = encoded_size v.
Proof.
  induction v using Value_ind'; intros Hr; cbn [encode_value encoded_size];
    simpl length; len; simpl in Hr.
  - rewrite forallb_Forall in Hr. rewrite (length_concat_map _ encoded_size); [lia|].
    rewrite Forall_forall in *. naive_solver.
  - apply andb_true_iff in Hr as [_ Hr]. rewrite forallb_Forall in Hr.
    rewrite (length_concat_map _ (λ e, 4 + length e.1 + encoded_size e.2)%nat); [lia|].
    rewrite Forall_forall in *. intros e He. specialize (Hr e He). specialize (H e He).
    apply andb_true_iff in Hr as [_ Hr]. specialize (H Hr). len.
  - apply andb_true_iff in Hr as [_ Hr%Nat.eqb_eq]. lia.
Qed.

Lemma decode_encode_value v rest :
  rust_value v = true → codec_limits v = true → (nesting v ≤ MAX_NESTING_DEPTH)%nat →
  decode_from_cursor (encode_value v ++ rest) = (Ok v, rest).
Proof. intros Hr Hc Hn. apply decodes; [done..|]. unfold MAX_NESTING_DEPTH in *. lia. Qed.

(** C1: A value within the codec's limits survives a round trip: decoding its
    encoding, whatever bytes follow, gives the value back and consumes exactly
    its own bytes. *)
Theorem decode_encode v rest :
  rust_value v = true → codec_limits v = true → (nesting v ≤ MAX_NESTING_DEPTH)%nat →
  decode_from_cursor (encode_to_vec v ++ rest) = (Ok v, rest).
Proof. apply decode_encode_value. Qed.

Definition sample_value : Value :=
  VObject [(str "age", VInteger (-30));
           (str "name", VString (str "Alice"));
           (str "tags", VArray [VNull; VBool true; VFloat 4607182418800017408;
                                VArray [VRef (str "users") (to_le 16 7)]])].

Lemma decode_encode_witness :
  decode_from_cursor (encode_to_vec sample_value ++ [x2a]) = (Ok sample_value, [x2a]).
Proof. apply decode_encode; [reflexivity|reflexivity|vm_compute; lia]. Defined.

(** [encoded_size], which sizes the buffers, is exactly the number of bytes
    [encode] writes. *)
Theorem encoded_size_exact v :
  rust_value v = true → encoded_size v = length (encode_to_vec v).
Proof. intros Hr. symmetry. by apply length_encode_value. Qed.

Lemma encoded_size_exact_witness :
  encoded_size sample_value = length (encode_to_vec sample_value).
Proof. apply encoded_size_exact. reflexivity. Defined.

(** C40: Whatever bytes are given to the decoder, a value it accepts is a
    well-formed Rust value (integers in range, UTF-8 strings, object keys
    sorted and distinct, 16-byte uuids), respects every size limit and is at
    most [MAX_NESTING_DEPTH] levels deep. *)
Theorem decode_sound data v :
  decode data = Ok v →
  rust_value v = true ∧ codec_limits v = true ∧ (nesting v ≤ MAX_NESTING_DEPTH)%nat.
Proof.
  unfold decode, decode_from_cursor. destruct (decode_recursive _ data) as [r s] eqn:E.
  simpl. intros ->. apply decode_recursive_post in E as (Hr & Hc & Hn).
  split_and!; [done..|]. unfold MAX_NESTING_DEPTH in *. lia.
Qed.

Lemma decode_sound_witness :
  rust_value sample_value = true ∧ codec_limits sample_value = true ∧
  (nesting sample_value ≤ MAX_NESTING_DEPTH)%nat.
Proof. apply (decode_sound (encode_to_vec sample_value)). vm_compute. reflexivity. Defined.

(** [encode] puts no bound on nesting, but [decode] does: the encoding of
    any value deeper than [MAX_NESTING_DEPTH] is refused, so a document
    accepted by an insert can be unreadable afterwards. *)
Theorem decode_too_deep v rest :
  rust_value v = true → codec_limits v = true → (MAX_NESTING_DEPTH < nesting v)%nat →
  decode (encode_to_vec v ++ rest) = Err (Codec "nesting depth exceeds maximum").
Proof.
  intros Hr Hc Hn. unfold decode, decode_from_cursor.
  change (encode_to_vec v) with (encode_value v).
  destruct (decodes v Hr Hc (MAX_NESTING_DEPTH + 1)%nat rest) as [_ Hd].
  destruct Hd as [s Hs]; [unfold MAX_NESTING_DEPTH in *; lia|]. by rewrite Hs.
Qed.

Lemma decode_too_deep_witness :
  decode (encode_to_vec (Nat.iter 65 (λ v, VArray [v]) VNull) ++ []) =
    Err (Codec "nesting depth exceeds maximum").
Proof. apply decode_too_deep; [reflexivity|reflexivity|vm_compute; lia]. Defined.

Lemma doc_decode_encode_rest d rest :
  length (key d) = 16%nat → rust_value (value d) = true → codec_limits (value d) = true →
  (nesting (value d) ≤ MAX_NESTING_DEPTH)%nat →
  doc_decode (doc_encode d ++ rest) = Ok d.
Proof.
  intros Hk Hr Hc Hn. unfold doc_decode, doc_encode, encode. rewrite <-app_assoc.
  rewrite decide_False by (len; lia).
  rewrite drop_app_length', take_app_length' by done.
  rewrite decode_encode_value by done. by destruct d.
Qed.

(** A stored document (16-byte key, value within the limits) decodes to
    the same key and value, its size is [doc_encoded_size], and the bytes are
    long enough never to be taken for a 9-byte overflow reference. *)
Theorem document_roundtrip d :
  length (key d) = 16%nat → rust_value (value d) = true → codec_limits (value d) = true →
  (nesting (value d) ≤ MAX_NESTING_DEPTH)%nat →
  doc_decode (doc_encode d) = Ok d ∧ length (doc_encode d) = doc_encoded_size d ∧
  (17 ≤ doc_encoded_size d)%nat.
Proof.
  intros Hk Hr Hc Hn. split_and!.
  - rewrite <-(app_nil_r (doc_encode d)). by apply doc_decode_encode_rest.
  - unfold doc_encode, doc_encoded_size, encode. len. rewrite length_encode_value by done. lia.
  - unfold doc_encoded_size. destruct (value d); simpl; lia.
Qed.

Lemma document_roundtrip_witness :
  let d := mkDocument (to_le 16 42) sample_value in
  doc_decode (doc_encode d) = Ok d ∧ length (doc_encode d) = doc_encoded_size d ∧
  (17 ≤ doc_encoded_size d)%nat.
Proof. apply document_roundtrip; [reflexivity..|vm_compute; lia]. Defined.
