(* ===== verification/Page.v ===== *)
(** * Pages: constants, the 32-byte header, checksums

    src/src/page/mod.rs.  A page is the list of its [PAGE_SIZE] bytes.  The
    CRC-32 of the [crc32fast] crate is the class [Crc32]: a function of the
    bytes hashed whose result is a [u32]. *)

From S2P Require Import Prelude RustStd.

Local Open Scope Z_scope.

Definition PAGE_SIZE : nat := Z.to_nat 8192.
Definition PAGE_HEADER_SIZE : nat := 32.
Definition PAGE_USABLE_SPACE : nat := (PAGE_SIZE - PAGE_HEADER_SIZE)%nat.
Definition SLOT_SIZE : nat := 4.
Definition OVERFLOW_MARKER : Z := 255.
Definition INVALID_PAGE_ID : Z := 0.

Lemma PAGE_SIZE_Z : Z.of_nat PAGE_SIZE = 8192.
Proof. reflexivity. Qed.

#[global] Opaque PAGE_SIZE.

(** [lia] with the page size at hand. *)
Ltac plia :=
  pose proof PAGE_SIZE_Z; unfold PAGE_USABLE_SPACE, PAGE_HEADER_SIZE, SLOT_SIZE in *; lia.

Definition zero_page : bytes := replicate PAGE_SIZE x00.

Lemma length_zero_page : length zero_page = PAGE_SIZE.
Proof. apply length_replicate. Qed.

Inductive PageType := Free | Data | BTreeInternal | BTreeLeaf | Overflow | FreeList.

#[export] Instance PageType_eq_dec : EqDecision PageType.
Proof. solve_decision. Defined.

Definition page_type_u8 (t : PageType) : Z :=
  match t with
  | Free => 0 | Data => 1 | BTreeInternal => 2 | BTreeLeaf => 3 | Overflow => 4 | FreeList => 5
  end.

Definition page_type_from_u8 (v : Z) : option PageType :=
  match v with
  | 0 => Some Free
  | 1 => Some Data
  | 2 => Some BTreeInternal
  | 3 => Some BTreeLeaf
  | 4 => Some Overflow
  | 5 => Some FreeList
  | _ => None
  end.

Record PageHeader := mkPageHeader {
  page_id : Z;
  page_type : PageType;
  flags : Z;
  num_slots : Z;
  free_space_start : Z;
  free_space_end : Z;
  next_page_id : Z;
  prev_page_id : Z;
  lsn : Z;
  checksum : Z;
}.

Definition header_new (pid : Z) (ptype : PageType) : PageHeader :=
  {| page_id := pid; page_type := ptype; flags := 0; num_slots := 0;
     free_space_start := Z.of_nat PAGE_HEADER_SIZE; free_space_end := Z.of_nat PAGE_SIZE;
     next_page_id := 0; prev_page_id := 0; lsn := 0; checksum := 0 |}.

Definition write_to (h : PageHeader) (buf : bytes) : bytes :=
  let buf := copy_at 0 (to_le 4 (page_id h)) buf in
  let buf := copy_at 4 (to_le 1 (page_type_u8 (page_type h))) buf in
  let buf := copy_at 5 (to_le 1 (flags h)) buf in
  let buf := copy_at 6 (to_le 2 (num_slots h)) buf in
  let buf := copy_at 8 (to_le 2 (free_space_start h)) buf in
  let buf := copy_at 10 (to_le 2 (free_space_end h)) buf in
  let buf := copy_at 12 (to_le 4 (next_page_id h)) buf in
  let buf := copy_at 16 (to_le 4 (prev_page_id h)) buf in
  let buf := copy_at 20 (to_le 8 (lsn h)) buf in
  copy_at 28 (to_le 4 (checksum h)) buf.

Definition read_from (buf : bytes) : PageHeader :=
  {| page_id := le_at 0 4 buf;
     page_type := default Free (page_type_from_u8 (le_at 4 1 buf));
     flags := le_at 5 1 buf;
     num_slots := le_at 6 2 buf;
     free_space_start := le_at 8 2 buf;
     free_space_end := le_at 10 2 buf;
     next_page_id := le_at 12 4 buf;
     prev_page_id := le_at 16 4 buf;
     lsn := le_at 20 8 buf;
     checksum := le_at 28 4 buf |}.

(** ** Checksums *)

Class Crc32 := {
  crc32 : bytes → Z;
  crc32_u32 : ∀ b, is_u32 (crc32 b);
}.

Section checksums.
Context `{Crc32}.

Definition compute_checksum (buf : bytes) : Z := crc32 (slice 0 28 buf ++ drop 32 buf).

Definition stamp_checksum (buf : bytes) : bytes :=
  copy_at 28 (to_le 4 (compute_checksum buf)) buf.

Definition verify_checksum (buf : bytes) (pid : Z) : res unit :=
  let stored := le_at 28 4 buf in
  if decide (stored = 0) then Ok tt else
  let computed := compute_checksum buf in
  if decide (stored ≠ computed) then Err (ChecksumMismatch pid stored computed)
  else Ok tt.
End checksums.

(** CRC-32 (reflected, polynomial 0xEDB88320): an instance to evaluate with. *)
Definition crc32_bit (c : Z) : Z :=
  if Z.odd c then Z.lxor (Z.shiftr c 1) 3988292384 else Z.shiftr c 1.
Definition crc32_byte (c : Z) (b : byte) : Z := Nat.iter 8 crc32_bit (Z.lxor c (b2z b)).
Definition crc32_ieee_raw (l : bytes) : Z := Z.lxor (foldl crc32_byte 4294967295 l) 4294967295.
Definition crc32_ieee_fn (l : bytes) : Z := crc32_ieee_raw l `mod` 4294967296.

Definition crc32_ieee : Crc32.
Proof.
  refine {| crc32 := crc32_ieee_fn |}. intros b. apply Z.mod_pos_bound. lia.
Defined.

(** ** Lemmas *)

Definition header_ok (h : PageHeader) : Prop :=
  is_u32 (page_id h) ∧ is_u8 (flags h) ∧ is_u16 (num_slots h) ∧
  is_u16 (free_space_start h) ∧ is_u16 (free_space_end h) ∧ is_u32 (next_page_id h) ∧
  is_u32 (prev_page_id h) ∧ is_u64 (lsn h) ∧ is_u32 (checksum h).

(** Reads an integer field back through a chain of [copy_at]s. *)
Ltac le_step :=
  first
  [ rewrite le_at_copy_eq by (len; plia)
  | rewrite le_at_copy_ne by (len; plia) ].

Lemma length_write_to h buf : length buf = PAGE_SIZE → length (write_to h buf) = PAGE_SIZE.
Proof. intros Hl. pose proof PAGE_SIZE_Z. unfold write_to. len. Qed.

Lemma page_type_roundtrip t : page_type_from_u8 (page_type_u8 t) = Some t.
Proof. by destruct t. Qed.

Lemma page_type_u8_range t : 0 ≤ page_type_u8 t < 256 ^ Z.of_nat 1.
Proof. destruct t; simpl; lia. Qed.

(** Bytes past the header are not touched. *)
Lemma slice_write_to h buf o n :
  length buf = PAGE_SIZE → (32 ≤ o)%nat → slice o n (write_to h buf) = slice o n buf.
Proof.
  intros Hl Ho. pose proof PAGE_SIZE_Z. unfold write_to.
  repeat (rewrite slice_copy_at_ne by (len; lia)). done.
Qed.

Lemma read_write_header h buf :
  length buf = PAGE_SIZE → header_ok h → read_from (write_to h buf) = h.
Proof.
  intros Hl (H1 & H2 & H3 & H4 & H5 & H6 & H7 & H8 & H9). pose proof PAGE_SIZE_Z.
  pose proof (page_type_u8_range (page_type h)).
  unfold is_u8, is_u16, is_u32, is_u64 in *.
  unfold read_from, write_to. destruct h as [a b c d e f g i j k]; simpl in *.
  f_equal; repeat le_step; [done..| |done|done|done|done|done|done|done|done].
  by rewrite page_type_roundtrip.
Qed.

Lemma header_new_ok pid t : is_u32 pid → header_ok (header_new pid t).
Proof.
  intros. pose proof PAGE_SIZE_Z. unfold header_ok, header_new; simpl.
  unfold is_u8, is_u16, is_u32, is_u64 in *. unfold PAGE_HEADER_SIZE. lia.
Qed.

Section checksum_lemmas.
Context `{Crc32}.

Lemma drop_copy_at {A} n off (src dst : list A) :
  (off + length src ≤ n)%nat → (off ≤ length dst)%nat →
  drop n (copy_at off src dst) = drop n dst.
Proof.
  intros. apply list_eq. intros i. rewrite !lookup_drop, lookup_copy_at by done.
  by rewrite decide_False by lia.
Qed.

Lemma length_stamp buf : length buf = PAGE_SIZE → length (stamp_checksum buf) = PAGE_SIZE.
Proof. intros. pose proof PAGE_SIZE_Z. unfold stamp_checksum. len. Qed.

Lemma slice_stamp o n buf :
  length buf = PAGE_SIZE → (o + n ≤ 28 ∨ 32 ≤ o)%nat →
  slice o n (stamp_checksum buf) = slice o n buf.
Proof.
  intros. pose proof PAGE_SIZE_Z. unfold stamp_checksum.
  by rewrite slice_copy_at_ne by (len; lia).
Qed.

Lemma le_at_stamp o n buf :
  length buf = PAGE_SIZE → (o + n ≤ 28 ∨ 32 ≤ o)%nat →
  le_at o n (stamp_checksum buf) = le_at o n buf.
Proof. intros. unfold le_at. by rewrite slice_stamp. Qed.

Lemma compute_checksum_stamp buf :
  length buf = PAGE_SIZE → compute_checksum (stamp_checksum buf) = compute_checksum buf.
Proof.
  intros. pose proof PAGE_SIZE_Z. unfold compute_checksum.
  rewrite slice_stamp by (done || lia). unfold stamp_checksum.
  by rewrite drop_copy_at by (len; lia).
Qed.

Lemma verify_stamp buf pid : length buf = PAGE_SIZE → verify_checksum (stamp_checksum buf) pid = Ok tt.
Proof.
  intros Hl. unfold verify_checksum. rewrite compute_checksum_stamp by done.
  unfold stamp_checksum. rewrite le_at_copy_eq.
  - case_decide; [done|]. case_decide; [|done]. congruence.
  - plia.
  - apply crc32_u32.
Qed.

(** [read_from] sees the same header after stamping, but for the checksum. *)
Lemma read_from_stamp buf :
  length buf = PAGE_SIZE →
  page_type (read_from (stamp_checksum buf)) = page_type (read_from buf) ∧
  num_slots (read_from (stamp_checksum buf)) = num_slots (read_from buf) ∧
  next_page_id (read_from (stamp_checksum buf)) = next_page_id (read_from buf) ∧
  page_id (read_from (stamp_checksum buf)) = page_id (read_from buf).
Proof. intros. simpl. rewrite !le_at_stamp by (done || lia). done. Qed.

(** The 32-byte header survives serialisation: reading back a header
    written into a page gives the same fields, and no byte after the header
    changes. *)
Theorem header_roundtrip h buf :
  length buf = PAGE_SIZE → header_ok h →
  read_from (write_to h buf) = h ∧ length (write_to h buf) = PAGE_SIZE ∧
  drop 32 (write_to h buf) = drop 32 buf.
Proof.
  intros Hl Hh. split_and!; [by apply read_write_header|by apply length_write_to|].
  pose proof PAGE_SIZE_Z. unfold write_to.
  repeat (rewrite drop_copy_at by (len; lia)). done.
Qed.

(** A stamped page always verifies; in general [verify_checksum] accepts a
    page exactly when its checksum field is zero (never stamped) or equals the
    CRC-32 of all other bytes. *)
Theorem checksum_spec buf pid :
  length buf = PAGE_SIZE →
  verify_checksum (stamp_checksum buf) pid = Ok tt ∧
  (verify_checksum buf pid = Ok tt ↔
     le_at 28 4 buf = 0 ∨ le_at 28 4 buf = crc32 (slice 0 28 buf ++ drop 32 buf)).
Proof.
  intros Hl. split; [by apply verify_stamp|].
  unfold verify_checksum, compute_checksum. repeat case_decide; naive_solver.
Qed.
End checksum_lemmas.

Lemma header_roundtrip_witness :
  let h := header_new 7 Data in
  read_from (write_to h zero_page) = h ∧ length (write_to h zero_page) = PAGE_SIZE ∧
  drop 32 (write_to h zero_page) = drop 32 zero_page.
Proof.
  apply header_roundtrip; [vm_compute; reflexivity|]. apply header_new_ok. unfold is_u32. lia.
Defined.

Lemma checksum_spec_witness :
  @verify_checksum crc32_ieee (@stamp_checksum crc32_ieee zero_page) 3 = Ok tt.
Proof. refine (proj1 (@checksum_spec crc32_ieee zero_page 3 _)). vm_compute. reflexivity. Defined.
