(* ===== verification/Slotted.v ===== *)
(** * Slotted pages (src/src/page/slotted.rs)

    A page is its bytes; a method taking [&mut self] is a computation on that
    state, and slicing outside the page is [Panic].  [contents] is the abstract
    view of a page (one optional tuple per slot); the theorems say that every
    method implements its obvious effect on that view. *)

From S2P Require Import Prelude RustStd Page.

Local Open Scope Z_scope.

Definition SLOT_LENGTH_MASK : Z := 32767.
Definition SLOT_TOMBSTONE_BIT : Z := 32768.
Definition MAX_SLOT_LENGTH : Z := SLOT_LENGTH_MASK.

Abbreviation page_m := (ST bytes GrumpyError).

Definition slotted_new (pid : Z) : bytes := write_to (header_new pid Data) zero_page.

Definition sp_num_slots (p : bytes) : Z := le_at 6 2 p.
Definition sp_free_space_start (p : bytes) : Z := le_at 8 2 p.
Definition sp_free_space_end (p : bytes) : Z := le_at 10 2 p.
Definition set_num_slots (n : Z) (p : bytes) : bytes := copy_at 6 (to_le 2 n) p.
Definition set_free_space_start (o : Z) (p : bytes) : bytes := copy_at 8 (to_le 2 o) p.
Definition set_free_space_end (o : Z) (p : bytes) : bytes := copy_at 10 (to_le 2 o) p.

(** [end.saturating_sub(start)] *)
Definition free_space (p : bytes) : Z :=
  Z.max 0 (sp_free_space_end p - sp_free_space_start p).

Definition slot_offset (i : nat) : nat := (PAGE_HEADER_SIZE + i * SLOT_SIZE)%nat.

(** The two fields of a slot entry as stored. *)
Definition slot_off (p : bytes) (i : nat) : Z := le_at (slot_offset i) 2 p.
Definition slot_raw (p : bytes) (i : nat) : Z := le_at (slot_offset i + 2) 2 p.
Definition slot_len (p : bytes) (i : nat) : Z := Z.land (slot_raw p i) SLOT_LENGTH_MASK.

Definition read_slot (i : nat) : page_m (Z * Z) := λ p,
  if decide (slot_offset i + 4 ≤ PAGE_SIZE)%nat then (Ok (slot_off p i, slot_len p i), p)
  else (Panic, p).

Definition put_slot (i : nat) (offset length : Z) (p : bytes) : bytes :=
  let p := copy_at (slot_offset i) (to_le 2 offset) p in
  copy_at (slot_offset i + 2) (to_le 2 length) p.

Definition write_slot (i : nat) (offset length : Z) : page_m unit := λ p,
  if decide (length > MAX_SLOT_LENGTH) then
    (Err (Codec "slot length exceeds maximum (bit 15 reserved for tombstone)"), p)
  else if decide (slot_offset i + 4 ≤ PAGE_SIZE)%nat then (Ok tt, put_slot i offset length p)
  else (Panic, p).

Definition is_slot_tombstone (i : nat) (p : bytes) : bool :=
  if decide (sp_num_slots p ≤ Z.of_nat i) then false
  else negb (slot_off p i =? 0) && negb (Z.land (slot_raw p i) SLOT_TOMBSTONE_BIT =? 0).

Definition set_slot_tombstone_flag (i : nat) (is_tombstone : bool) (p : bytes) : bytes :=
  if decide (sp_num_slots p ≤ Z.of_nat i) then p
  else
    let raw := slot_raw p i in
    let raw := if is_tombstone then Z.lor raw SLOT_TOMBSTONE_BIT
               else Z.land raw SLOT_LENGTH_MASK in
    copy_at (slot_offset i + 2) (to_le 2 raw) p.

Definition write_slot_preserving_flag (i : nat) (offset length : Z) : page_m unit :=
  p ← st_get;
  let was_tombstone := is_slot_tombstone i p in
  _ ← write_slot i offset length;
  if was_tombstone then st_modify (set_slot_tombstone_flag i true) else mret tt.

(** [for i in 0..num { if read_slot(i).0 == 0 { return Some(i) } } None] *)
Fixpoint find_tombstone_loop (i n : nat) : page_m (option nat) :=
  match n with
  | O => mret None
  | S n =>
      s ← read_slot i;
      if decide (s.1 = 0) then mret (Some i) else find_tombstone_loop (S i) n
  end.

Definition find_tombstone_slot : page_m (option nat) :=
  p ← st_get; find_tombstone_loop 0 (Z.to_nat (sp_num_slots p)).

(** [self.data[off..off + src.len()].copy_from_slice(src)] *)
Definition write_range (off : nat) (src : bytes) : page_m unit := λ p,
  if decide (off + length src ≤ PAGE_SIZE)%nat then (Ok tt, copy_at off src p) else (Panic, p).

(** [self.find_tombstone_slot().unwrap_or_else(|| ...)] *)
Definition choose_slot : page_m nat :=
  found ← find_tombstone_slot;
  match found with
  | Some i => mret i
  | None =>
      p ← st_get;
      let idx := Z.to_nat (sp_num_slots p) in
      _ ← st_modify (set_num_slots (Z.of_nat (idx + 1)));
      _ ← st_modify (set_free_space_start (Z.of_nat (slot_offset (idx + 1))));
      mret idx
  end.

(** Allocates space at the end of the page, copies the tuple, writes the slot. *)
Definition fill_slot (slot_index : nat) (tuple_data : bytes) : page_m nat :=
  p ← st_get;
  let new_end := sp_free_space_end p - Z.of_nat (length tuple_data) in
  _ ← st_modify (set_free_space_end new_end);
  _ ← write_range (Z.to_nat new_end) tuple_data;
  _ ← write_slot slot_index new_end (Z.of_nat (length tuple_data));
  mret slot_index.

Definition insert (tuple_data : bytes) : page_m nat :=
  p ← st_get;
  if decide (free_space p < Z.of_nat (length tuple_data + SLOT_SIZE)) then
    st_fail (PageFull (page_id (read_from p)))
  else
    slot_index ← choose_slot;
    fill_slot slot_index tuple_data.

Definition get (i : nat) : page_m bytes :=
  p ← st_get;
  if decide (sp_num_slots p ≤ Z.of_nat i) then st_fail (PageNotFound (page_id (read_from p)))
  else
    s ← read_slot i;
    if decide (s.1 = 0) then st_fail (PageNotFound (page_id (read_from p)))
    else if decide (s.1 + s.2 ≤ Z.of_nat PAGE_SIZE) then
      mret (slice (Z.to_nat s.1) (Z.to_nat s.2) p)
    else st_lift Panic.

Definition delete (i : nat) : page_m unit :=
  p ← st_get;
  if decide (sp_num_slots p ≤ Z.of_nat i) then st_fail (PageNotFound (page_id (read_from p)))
  else
    s ← read_slot i;
    if decide (s.1 = 0) then st_fail (PageNotFound (page_id (read_from p)))
    else write_slot i 0 0.

Definition update (i : nat) (new_data : bytes) : page_m nat :=
  p ← st_get;
  if decide (sp_num_slots p ≤ Z.of_nat i) then st_fail (PageNotFound (page_id (read_from p)))
  else
    s ← read_slot i;
    if decide (s.1 = 0) then st_fail (PageNotFound (page_id (read_from p)))
    else if decide (Z.of_nat (length new_data) ≤ s.2) then
      _ ← write_range (Z.to_nat s.1) new_data;
      _ ← write_slot i s.1 (Z.of_nat (length new_data));
      mret i
    else
      _ ← delete i;
      insert new_data.

(** Collects the live tuples: [(slot_index, data)]. *)
Fixpoint collect_live (i n : nat) : page_m (list (nat * bytes)) :=
  match n with
  | O => mret []
  | S n =>
      s ← read_slot i;
      p ← st_get;
      if decide (s.1 ≠ 0) then
        if decide (s.1 + s.2 ≤ Z.of_nat PAGE_SIZE) then
          rest ← collect_live (S i) n;
          mret ((i, slice (Z.to_nat s.1) (Z.to_nat s.2) p) :: rest)
        else st_lift Panic
      else collect_live (S i) n
  end.

(** Re-packs the tuples downwards from [write_end]. *)
Fixpoint repack (tuples : list (nat * bytes)) (write_end : Z) : page_m Z :=
  match tuples with
  | [] => mret write_end
  | (i, d) :: tuples =>
      let write_end := write_end - Z.of_nat (length d) in
      _ ← write_range (Z.to_nat write_end) d;
      _ ← write_slot i write_end (Z.of_nat (length d));
      repack tuples write_end
  end.

Definition compact : page_m unit :=
  p ← st_get;
  let n := Z.to_nat (sp_num_slots p) in
  live_tuples ← collect_live 0 n;
  _ ← write_range (slot_offset n) (replicate (PAGE_SIZE - slot_offset n) x00);
  write_end ← repack live_tuples (Z.of_nat PAGE_SIZE);
  st_modify (set_free_space_end write_end).

Definition live_tuple_count (p : bytes) : nat :=
  length (filter (λ i, slot_off p i ≠ 0) (seq 0 (Z.to_nat (sp_num_slots p)))).

(** ** The abstract view and the invariant *)

Definition slot_content (p : bytes) (i : nat) : option bytes :=
  if decide (slot_off p i = 0) then None
  else Some (slice (Z.to_nat (slot_off p i)) (Z.to_nat (slot_len p i)) p).

Definition contents (p : bytes) : list (option bytes) :=
  slot_content p <$> seq 0 (Z.to_nat (sp_num_slots p)).

(** The live slots among the first [n] that satisfy [L] hold tuples that lie in
    [lo, PAGE_SIZE) and do not overlap. *)
Definition slots_in (n : nat) (L : nat → Prop) (lo : Z) (p : bytes) : Prop :=
  (∀ i, (i < n)%nat → L i → slot_off p i ≠ 0 →
     lo ≤ slot_off p i ∧ slot_off p i + slot_len p i ≤ Z.of_nat PAGE_SIZE) ∧
  (∀ i j, (i < n)%nat → (j < n)%nat → L i → L j → i ≠ j →
     slot_off p i ≠ 0 → slot_off p j ≠ 0 →
     slot_off p i + slot_len p i ≤ slot_off p j ∨ slot_off p j + slot_len p j ≤ slot_off p i).

(** The slot array ends where free space starts, free space ends where tuple
    data starts, live tuples lie in the data area and do not overlap. *)
Record page_wf (p : bytes) : Prop := {
  wf_length : length p = PAGE_SIZE;
  wf_start : sp_free_space_start p = Z.of_nat (slot_offset (Z.to_nat (sp_num_slots p)));
  wf_free : sp_free_space_start p ≤ sp_free_space_end p ≤ Z.of_nat PAGE_SIZE;
  wf_slots : slots_in (Z.to_nat (sp_num_slots p)) (λ _, True) (sp_free_space_end p) p;
}.

(** ** Effects of the primitive writes *)

Ltac slia := unfold slot_offset in *; plia.

Lemma slot_len_mod p i : slot_len p i = slot_raw p i `mod` 32768.
Proof.
  unfold slot_len, SLOT_LENGTH_MASK. change 32767 with (Z.ones 15).
  by rewrite Z.land_ones by lia.
Qed.

Lemma slot_len_range p i : 0 ≤ slot_len p i < 32768.
Proof. rewrite slot_len_mod. apply Z.mod_pos_bound. lia. Qed.

Lemma slot_off_range p i : 0 ≤ slot_off p i < 65536.
Proof. apply (le_at_u16 _ p). Qed.

Lemma num_slots_range p : 0 ≤ sp_num_slots p < 65536.
Proof. apply (le_at_u16 _ p). Qed.

(** The reads of a slot only depend on the bytes of its entry. *)
Lemma slot_off_copy off src p i :
  (off ≤ length p)%nat → (slot_offset i + 4 ≤ off ∨ off + length src ≤ slot_offset i)%nat →
  slot_off (copy_at off src p) i = slot_off p i ∧ slot_raw (copy_at off src p) i = slot_raw p i ∧
  slot_len (copy_at off src p) i = slot_len p i.
Proof.
  intros. unfold slot_len, slot_off, slot_raw.
  rewrite !le_at_copy_ne by lia. done.
Qed.

Section put_slot.
Context (p : bytes) (i : nat) (o l : Z).
Hypothesis Hlen : length p = PAGE_SIZE.
Hypothesis Hi : (slot_offset i + 4 ≤ PAGE_SIZE)%nat.
Hypothesis Ho : is_u16 o.
Hypothesis Hl : 0 ≤ l ≤ MAX_SLOT_LENGTH.

Lemma length_put_slot : length (put_slot i o l p) = PAGE_SIZE.
Proof. unfold put_slot. pose proof PAGE_SIZE_Z. len. Qed.

Lemma slot_off_put j : slot_off (put_slot i o l p) j = if decide (j = i) then o else slot_off p j.
Proof.
  unfold slot_off, put_slot. case_decide.
  - subst. rewrite le_at_copy_ne by (len; lia). apply le_at_copy_eq; [lia|done].
  - rewrite !le_at_copy_ne by (len; slia). done.
Qed.

Lemma slot_raw_put j : slot_raw (put_slot i o l p) j = if decide (j = i) then l else slot_raw p j.
Proof.
  unfold slot_raw, put_slot. case_decide.
  - subst. apply le_at_copy_eq; [len|]. unfold MAX_SLOT_LENGTH, SLOT_LENGTH_MASK in Hl. lia.
  - rewrite !le_at_copy_ne by (len; slia). done.
Qed.

Lemma slot_len_put j : slot_len (put_slot i o l p) j = if decide (j = i) then l else slot_len p j.
Proof.
  rewrite !slot_len_mod, slot_raw_put. case_decide; [|done].
  unfold MAX_SLOT_LENGTH, SLOT_LENGTH_MASK in Hl. apply Z.mod_small. lia.
Qed.

Lemma slice_put a n :
  (a + n ≤ slot_offset i ∨ slot_offset i + 4 ≤ a)%nat →
  slice a n (put_slot i o l p) = slice a n p.
Proof. intros. unfold put_slot. rewrite !slice_copy_at_ne by (len; lia). done. Qed.

Lemma header_put a n : (a + n ≤ 32)%nat → le_at a n (put_slot i o l p) = le_at a n p.
Proof. intros. unfold le_at. rewrite slice_put by slia. done. Qed.
End put_slot.

#[local] Opaque le_at copy_at.

(** ** Placing a tuple just below the data area *)

Definition place (i : nat) (new_end : Z) (d p : bytes) : bytes :=
  put_slot i new_end (Z.of_nat (length d)) (copy_at (Z.to_nat new_end) d p).

Section place.
Context (n : nat) (L : nat → Prop) (lo : Z) (p : bytes) (i : nat) (d : bytes).
Hypothesis Hlen : length p = PAGE_SIZE.
Hypothesis Hi : (i < n)%nat.
Hypothesis Hin : slots_in n L lo p.
Hypothesis Hlo : lo ≤ Z.of_nat PAGE_SIZE.
Hypothesis Hroom : Z.of_nat (slot_offset n) ≤ lo - Z.of_nat (length d).
Let we : Z := lo - Z.of_nat (length d).
Let q : bytes := copy_at (Z.to_nat we) d p.

Lemma place_pre :
  length q = PAGE_SIZE ∧ (slot_offset i + 4 ≤ PAGE_SIZE)%nat ∧ is_u16 we ∧
  0 ≤ Z.of_nat (length d) ≤ MAX_SLOT_LENGTH.
Proof.
  unfold q, we, is_u16, MAX_SLOT_LENGTH, SLOT_LENGTH_MASK. pose proof PAGE_SIZE_Z.
  unfold slot_offset, PAGE_HEADER_SIZE, SLOT_SIZE in *. rewrite length_copy_at; lia.
Qed.

Lemma length_place : length (place i we d p) = PAGE_SIZE.
Proof. destruct place_pre as (? & ? & ? & ?). by apply length_put_slot. Qed.

Lemma place_header a k : (a + k ≤ 32)%nat → le_at a k (place i we d p) = le_at a k p.
Proof.
  destruct place_pre as (? & ? & ? & ?). intros. unfold place. rewrite header_put by done.
  rewrite le_at_copy_ne by (unfold we; slia). done.
Qed.

Lemma place_slot_off j :
  (j < n)%nat → slot_off (place i we d p) j = if decide (j = i) then we else slot_off p j.
Proof.
  destruct place_pre as (? & ? & ? & ?). intros. unfold place. rewrite slot_off_put by done.
  case_decide; [done|]. apply slot_off_copy; [unfold we; plia|]. unfold we. slia.
Qed.

Lemma place_slot_len j :
  (j < n)%nat →
  slot_len (place i we d p) j = if decide (j = i) then Z.of_nat (length d) else slot_len p j.
Proof.
  destruct place_pre as (? & ? & ? & ?). intros. unfold place. rewrite slot_len_put by done.
  case_decide; [done|]. apply slot_off_copy; [unfold we; plia|]. unfold we. slia.
Qed.

Lemma place_slots_in : slots_in n (λ j, j = i ∨ L j) we (place i we d p).
Proof.
  destruct Hin as [Hb Hd]. split.
  - intros j Hj HL. rewrite place_slot_off, place_slot_len by done. case_decide; [unfold we; lia|].
    intros Hne. destruct HL as [?|HL]; [done|]. specialize (Hb j Hj HL Hne). unfold we. lia.
  - intros j k Hj Hk HLj HLk Hjk.
    rewrite !place_slot_off, !place_slot_len by done.
    destruct (decide (j = i)) as [Hj'|Hj'], (decide (k = i)) as [Hk'|Hk']; intros H1 H2;
      [congruence|..].
    + destruct HLk as [?|HL]; [done|]. specialize (Hb k Hk HL H2). left. unfold we. lia.
    + destruct HLj as [?|HL]; [done|]. specialize (Hb j Hj HL H1). right. unfold we. lia.
    + destruct HLj as [?|HLj], HLk as [?|HLk]; try done. by apply Hd.
Qed.

Lemma place_content j :
  (j < n)%nat → j = i ∨ L j →
  slot_content (place i we d p) j = if decide (j = i) then Some d else slot_content p j.
Proof.
  destruct place_pre as (Hq & Hp2 & Hp3 & Hp4). intros Hj HL. unfold slot_content.
  rewrite place_slot_off, place_slot_len by done. unfold place.
  destruct (decide (j = i)) as [->|Heq].
  - rewrite decide_False by (unfold we; slia). f_equal.
    rewrite slice_put by (done || (unfold we; slia)). rewrite Nat2Z.id.
    unfold q in *. apply slice_copy_at_eq. unfold we. slia.
  - destruct HL as [?|HL]; [done|]. case_decide as H0; [done|]. f_equal.
    destruct Hin as [Hb _]. specialize (Hb j Hj HL H0).
    rewrite slice_put by (done || slia). unfold q.
    rewrite slice_copy_at_ne by (unfold we; slia). done.
Qed.
End place.

Lemma place_slot_raw n lo p i d j :
  length p = PAGE_SIZE → (i < n)%nat → lo ≤ Z.of_nat PAGE_SIZE →
  Z.of_nat (slot_offset n) ≤ lo - Z.of_nat (length d) → (j < n)%nat →
  slot_raw (place i (lo - Z.of_nat (length d)) d p) j =
    if decide (j = i) then Z.of_nat (length d) else slot_raw p j.
Proof.
  intros Hlen Hi Hlo Hroom Hj. destruct (place_pre n lo p i d Hlen Hi Hlo Hroom) as (? & ? & ? & ?).
  unfold place. rewrite slot_raw_put by done.
  case_decide; [done|]. apply slot_off_copy; [plia|slia].
Qed.

(** ** Running the primitive operations *)

Lemma read_slot_ok i p :
  (slot_offset i + 4 ≤ PAGE_SIZE)%nat → read_slot i p = (Ok (slot_off p i, slot_len p i), p).
Proof. intros. unfold read_slot. by rewrite decide_True. Qed.

Lemma write_slot_ok i o l p :
  (slot_offset i + 4 ≤ PAGE_SIZE)%nat → l ≤ MAX_SLOT_LENGTH →
  write_slot i o l p = (Ok tt, put_slot i o l p).
Proof. intros. unfold write_slot. by rewrite decide_False, decide_True by lia. Qed.

Lemma write_range_ok off src p :
  (off + length src ≤ PAGE_SIZE)%nat → write_range off src p = (Ok tt, copy_at off src p).
Proof. intros. unfold write_range. by rewrite decide_True. Qed.

Lemma wf_slot_fits p i :
  page_wf p → (i < Z.to_nat (sp_num_slots p))%nat → (slot_offset i + 4 ≤ PAGE_SIZE)%nat.
Proof. intros [_ Hs Hf _] Hi. slia. Qed.

Lemma contents_length p : length (contents p) = Z.to_nat (sp_num_slots p).
Proof. unfold contents. by rewrite length_fmap, length_seq. Qed.

Lemma contents_lookup p i :
  contents p !! i =
    if decide (i < Z.to_nat (sp_num_slots p))%nat then Some (slot_content p i) else None.
Proof.
  unfold contents. rewrite list_lookup_fmap. case_decide.
  - by rewrite lookup_seq_lt.
  - by rewrite lookup_seq_ge by lia.
Qed.

(** Two pages with the same slot count and the same slots show the same contents. *)
Lemma contents_eq p l :
  length l = Z.to_nat (sp_num_slots p) →
  (∀ i, (i < Z.to_nat (sp_num_slots p))%nat → l !! i = Some (slot_content p i)) → contents p = l.
Proof.
  intros Hl Hc. apply list_eq. intros i. rewrite contents_lookup. case_decide.
  - by rewrite Hc.
  - symmetry. apply lookup_ge_None_2. lia.
Qed.

(** ** Insert *)

(** The abstract effect: the first free slot, or a new one at the end. *)
Definition spec_insert (d : bytes) (cs : list (option bytes)) : nat * list (option bytes) :=
  match list_find (λ o, o = None) cs with
  | Some (i, _) => (i, <[i := Some d]> cs)
  | None => (length cs, cs ++ [Some d])
  end.

Lemma find_tombstone_loop_ok i n p :
  (∀ j, (i ≤ j < i + n)%nat → (slot_offset j + 4 ≤ PAGE_SIZE)%nat) →
  ∃ r, find_tombstone_loop i n p = (Ok r, p) ∧
  match r with
  | Some k => (i ≤ k < i + n)%nat ∧ slot_off p k = 0 ∧
              ∀ j, (i ≤ j < k)%nat → slot_off p j ≠ 0
  | None => ∀ j, (i ≤ j < i + n)%nat → slot_off p j ≠ 0
  end.
Proof.
  revert i. induction n as [|n IH]; intros i Hfit.
  { exists None. split; [done|]. intros. lia. }
  cbn [find_tombstone_loop]. erewrite st_step by (apply read_slot_ok, Hfit; lia). simpl.
  case_decide as H0.
  - exists (Some i). split; [done|]. split_and!; [lia|lia|done|]. intros. lia.
  - destruct (IH (S i)) as (r & Hr & Hspec); [intros; apply Hfit; lia|].
    exists r. split; [done|]. destruct r as [k|].
    + destruct Hspec as (Hk & Hk0 & Hlt). split_and!; [lia|lia|done|].
      intros j Hj. destruct (decide (j = i)) as [->|]; [done|]. apply Hlt. lia.
    + intros j Hj. destruct (decide (j = i)) as [->|]; [done|]. apply Hspec. lia.
Qed.

Lemma slot_content_None p i : slot_content p i = None ↔ slot_off p i = 0.
Proof. unfold slot_content. case_decide; naive_solver. Qed.

Lemma find_tombstone_slot_ok p :
  page_wf p →
  find_tombstone_slot p = (Ok (fst <$> list_find (λ o, o = None) (contents p)), p).
Proof.
  intros Hwf. unfold find_tombstone_slot. rewrite st_get_bind.
  destruct (find_tombstone_loop_ok 0 (Z.to_nat (sp_num_slots p)) p) as (r & Hr & Hspec).
  { intros j Hj. eapply wf_slot_fits; [done|lia]. }
  rewrite Hr. do 2 f_equal. destruct r as [k|].
  - destruct Hspec as (Hk & H0 & Hlt).
    assert (list_find (λ o, o = None) (contents p) = Some (k, None)) as ->; [|done].
    apply list_find_Some. rewrite contents_lookup, decide_True by lia. split_and!.
    + f_equal. by apply slot_content_None.
    + done.
    + intros j y Hy Hj. rewrite contents_lookup in Hy. case_decide; [|done].
      injection Hy as <-. rewrite slot_content_None. apply Hlt. lia.
  - assert (list_find (λ o, o = None) (contents p) = None) as ->; [|done].
    apply list_find_None, Forall_lookup. intros j y Hy. rewrite contents_lookup in Hy.
    case_decide; [|done]. injection Hy as <-. rewrite slot_content_None. apply Hspec. lia.
Qed.

(** Slot reads ignore the header. *)
Lemma slot_reads_header off z p i :
  length p = PAGE_SIZE → (off + 2 ≤ 32)%nat →
  slot_off (copy_at off (to_le 2 z) p) i = slot_off p i ∧
  slot_len (copy_at off (to_le 2 z) p) i = slot_len p i.
Proof.
  intros. pose proof PAGE_SIZE_Z.
  destruct (slot_off_copy off (to_le 2 z) p i) as (? & ? & ?); [lia|len; slia|done].
Qed.

Lemma slots_in_header off z p n L lo :
  length p = PAGE_SIZE → (off + 2 ≤ 32)%nat →
  slots_in n L lo (copy_at off (to_le 2 z) p) ↔ slots_in n L lo p.
Proof.
  intros Hl Ho. unfold slots_in.
  assert (∀ i, slot_off (copy_at off (to_le 2 z) p) i = slot_off p i) as E1
    by (intros; by apply slot_reads_header).
  assert (∀ i, slot_len (copy_at off (to_le 2 z) p) i = slot_len p i) as E2
    by (intros; by apply slot_reads_header).
  setoid_rewrite E1. setoid_rewrite E2. done.
Qed.

Lemma slot_content_header off z p i :
  length p = PAGE_SIZE → (off + 2 ≤ 32)%nat → 32 ≤ slot_off p i ∨ slot_off p i = 0 →
  slot_content (copy_at off (to_le 2 z) p) i = slot_content p i.
Proof.
  intros Hl Ho H32. unfold slot_content.
  destruct (slot_reads_header off z p i Hl Ho) as [-> ->].
  case_decide; [done|]. f_equal. pose proof PAGE_SIZE_Z. rewrite slice_copy_at_ne; [done|lia|len].
Qed.

Lemma slots_in_mono n n' (L L' : nat → Prop) lo p :
  (n' ≤ n)%nat → (∀ j, (j < n')%nat → L' j → L j) → slots_in n L lo p → slots_in n' L' lo p.
Proof.
  intros Hn HL [H1 H2]. split.
  - intros j Hj Hl. apply H1; [lia|auto].
  - intros j k Hj Hk Hlj Hlk. apply H2; auto; lia.
Qed.

(** The part of [page_wf] about the header and the slots other than [i]. *)
Record wf_except (n i : nat) (p : bytes) : Prop := {
  we_length : length p = PAGE_SIZE;
  we_index : (i < n)%nat;
  we_num : sp_num_slots p = Z.of_nat n;
  we_start : sp_free_space_start p = Z.of_nat (slot_offset n);
  we_end : sp_free_space_end p ≤ Z.of_nat PAGE_SIZE;
  we_slots : slots_in n (λ j, j ≠ i) (sp_free_space_end p) p;
}.

Lemma fill_slot_ok n i d p :
  wf_except n i p → Z.of_nat (slot_offset n) ≤ sp_free_space_end p - Z.of_nat (length d) →
  ∃ p', fill_slot i d p = (Ok i, p') ∧ page_wf p' ∧ sp_num_slots p' = Z.of_nat n ∧
    sp_free_space_end p' = sp_free_space_end p - Z.of_nat (length d) ∧
    page_id (read_from p') = page_id (read_from p) ∧
    (∀ j, (j < n)%nat → slot_content p' j = if decide (j = i) then Some d else slot_content p j) ∧
    (∀ j, (j < n)%nat → j ≠ i → slot_off p' j = slot_off p j ∧ slot_raw p' j = slot_raw p j) ∧
    slot_raw p' i = Z.of_nat (length d) ∧ Z.of_nat (length d) < 32768.
Proof.
  intros [Hl Hi Hn Hs He Hin] Hroom. pose proof PAGE_SIZE_Z as HP.
  set (we := sp_free_space_end p - Z.of_nat (length d)) in *.
  set (p1 := set_free_space_end we p).
  assert (Hl1 : length p1 = PAGE_SIZE) by (unfold p1, set_free_space_end; len).
  assert (Hin1 : slots_in n (λ j, j ≠ i) (sp_free_space_end p) p1)
    by (apply slots_in_header; [done|lia|done]).
  exists (place i we d p1).
  assert (Hrun : fill_slot i d p = (Ok i, place i we d p1)).
  { unfold fill_slot. rewrite st_get_bind, st_modify_bind. fold we p1.
    erewrite st_step by (apply write_range_ok; unfold we; slia).
    erewrite st_step by (apply write_slot_ok; unfold MAX_SLOT_LENGTH, SLOT_LENGTH_MASK; slia).
    done. }
  pose proof (length_place n (sp_free_space_end p) p1 i d Hl1 Hi He Hroom) as Hl2.
  pose proof (place_header n (sp_free_space_end p) p1 i d Hl1 Hi He Hroom) as Hh.
  pose proof (place_slots_in n _ (sp_free_space_end p) p1 i d Hl1 Hi Hin1 He Hroom) as Hin2.
  pose proof (place_content n _ (sp_free_space_end p) p1 i d Hl1 Hi Hin1 He Hroom) as Hc.
  fold we in Hl2, Hh, Hin2, Hc.
  assert (Hend : sp_free_space_end (place i we d p1) = we).
  { unfold sp_free_space_end at 1. rewrite Hh by lia. unfold p1, set_free_space_end.
    apply le_at_copy_eq; [lia|]. unfold we. slia. }
  assert (Hkeep : ∀ a k, (a + k ≤ 10 ∨ 12 ≤ a ∧ a + k ≤ 32)%nat →
    le_at a k (place i we d p1) = le_at a k p).
  { intros a k Hak. rewrite Hh by lia. unfold p1, set_free_space_end.
    apply le_at_copy_ne; [lia|len]. }
  assert (Hnum : sp_num_slots (place i we d p1) = Z.of_nat n).
  { unfold sp_num_slots. rewrite Hkeep by lia. done. }
  split_and!; [done| |done|done| | | | |slia].
  - constructor; [done| | |].
    + rewrite Hnum, Nat2Z.id. unfold sp_free_space_start. rewrite Hkeep by lia. done.
    + rewrite Hend. unfold sp_free_space_start in *. rewrite Hkeep by lia. rewrite Hs.
      unfold we. slia.
    + rewrite Hnum, Nat2Z.id, Hend. eapply slots_in_mono; [| |exact Hin2]; [lia|].
      intros j _ _. destruct (decide (j = i)); auto.
  - simpl. apply Hkeep. lia.
  - intros j Hj. rewrite Hc by (done || destruct (decide (j = i)); auto).
    case_decide; [done|]. apply slot_content_header; [done|lia|].
    destruct (decide (slot_off p j = 0)); [auto|]. left.
    destruct Hin as [Hb _]. specialize (Hb j Hj). slia.
  - intros j Hj Hne. unfold we.
    rewrite (place_slot_off n (sp_free_space_end p)), (place_slot_raw n) by done.
    rewrite !decide_False by done. unfold p1, set_free_space_end.
    destruct (slot_off_copy 10 (to_le 2 we) p j) as (-> & -> & _); [lia|len; slia|done].
  - unfold we. rewrite (place_slot_raw n) by done. by rewrite decide_True.
Qed.

Lemma choose_slot_ok p :
  page_wf p → 4 ≤ sp_free_space_end p - sp_free_space_start p →
  ∃ i n p0, choose_slot p = (Ok i, p0) ∧ wf_except n i p0 ∧
    sp_free_space_end p0 = sp_free_space_end p ∧
    page_id (read_from p0) = page_id (read_from p) ∧
    Z.of_nat (slot_offset n) ≤ sp_free_space_start p + 4 ∧
    (∀ j, (j < length (contents p))%nat → slot_content p0 j = slot_content p j) ∧
    (∀ j, slot_off p0 j = slot_off p j ∧ slot_raw p0 j = slot_raw p j) ∧
    match list_find (λ o, o = None) (contents p) with
    | Some (k, _) => i = k ∧ n = length (contents p)
    | None => i = length (contents p) ∧ n = S (length (contents p))
    end.
Proof.
  intros Hwf Hroom. pose proof PAGE_SIZE_Z as HP. pose proof (num_slots_range p) as Hnr.
  pose proof Hwf as [Hl Hs Hf Hin]. rewrite contents_length.
  unfold choose_slot. erewrite st_step by (by apply find_tombstone_slot_ok).
  destruct (list_find _ (contents p)) as [[k o]|] eqn:Hfind; simpl.
  - apply list_find_Some in Hfind as (Hk & -> & _). rewrite contents_lookup in Hk.
    case_decide; [|done]. exists k, (Z.to_nat (sp_num_slots p)), p.
    split_and!; [reflexivity| |reflexivity|reflexivity|slia|reflexivity|done|reflexivity..].
    constructor; [exact Hl|lia|lia|exact Hs|lia|]. eapply slots_in_mono; [| |exact Hin]; [lia|intros; exact I].
  - set (n := Z.to_nat (sp_num_slots p)). rewrite st_get_bind, !st_modify_bind. fold n.
    set (p1 := set_num_slots (Z.of_nat (n + 1)) p).
    set (p2 := set_free_space_start (Z.of_nat (slot_offset (n + 1))) p1).
    assert (Hl1 : length p1 = PAGE_SIZE) by (unfold p1, set_num_slots; len).
    assert (Hl2 : length p2 = PAGE_SIZE) by (unfold p2, set_free_space_start; len).
    assert (Hkeep : ∀ a k, (a + k ≤ 6 ∨ 10 ≤ a)%nat → le_at a k p2 = le_at a k p).
    { intros a k Hak. unfold p2, p1, set_free_space_start, set_num_slots.
      rewrite !le_at_copy_ne by (len; lia). done. }
    assert (Hend : sp_free_space_end p2 = sp_free_space_end p) by (apply Hkeep; lia).
    exists n, (S n), p2. split_and!; [reflexivity| |exact Hend| |slia| | |reflexivity..].
    + constructor; [done|lia| | |rewrite Hend; lia|].
      * unfold sp_num_slots, p2, p1, set_free_space_start, set_num_slots.
        rewrite le_at_copy_ne by (len; lia). rewrite le_at_copy_eq by (len; unfold n; slia). lia.
      * unfold sp_free_space_start, p2, set_free_space_start.
        rewrite le_at_copy_eq by (len; unfold n; slia). slia.
      * rewrite Hend. apply slots_in_header; [done|lia|]. apply slots_in_header; [done|lia|].
        destruct Hin as [H1 H2]. split.
        -- intros j Hj Hne. apply H1; [fold n; lia|done].
        -- intros j k Hj Hk Hnj Hnk. apply H2; [fold n; lia|fold n; lia|done..].
    + simpl. apply Hkeep. lia.
    + intros j Hj.
      assert (32 ≤ slot_off p j ∨ slot_off p j = 0) as Hoff.
      { destruct (decide (slot_off p j = 0)); [auto|]. left. destruct Hin as [H1 _].
        specialize (H1 j). slia. }
      unfold p2, set_free_space_start. rewrite slot_content_header; [|done|lia|].
      * by apply slot_content_header; [|lia|].
      * unfold p1, set_num_slots. by destruct (slot_reads_header 6 (Z.of_nat (n + 1)) p j) as [-> _]; [|lia|].
    + intros j. unfold p2, set_free_space_start.
      destruct (slot_off_copy 8 (to_le 2 (Z.of_nat (slot_offset (n + 1)))) p1 j) as (-> & -> & _); [lia|len; slia|].
      unfold p1, set_num_slots.
      destruct (slot_off_copy 6 (to_le 2 (Z.of_nat (n + 1))) p j) as (-> & -> & _); [lia|len; slia|done].
Qed.

(** A raw length below [0x8000] has the flag clear. *)
Lemma flag_clear p i : 0 ≤ slot_raw p i < 32768 → is_slot_tombstone i p = false.
Proof.
  intros Hr. unfold is_slot_tombstone. case_decide; [done|].
  assert (Z.land (slot_raw p i) SLOT_TOMBSTONE_BIT = 0) as ->; [|apply andb_false_r].
  apply Z.bits_inj'. intros k Hk. rewrite Z.land_spec, Z.bits_0.
  change SLOT_TOMBSTONE_BIT with (2 ^ 15). rewrite Z.pow2_bits_eqb by lia.
  destruct (Z.eqb_spec 15 k) as [<-|]; [|apply andb_false_r].
  rewrite (Z.bits_above_log2 _ 15); [done|lia|].
  destruct (decide (slot_raw p i = 0)) as [->|]; [done|]. apply Z.log2_lt_pow2; lia.
Qed.

(** A flag is a function of the slot count and of the two words of the entry. *)
Lemma flag_same p q j :
  sp_num_slots q = sp_num_slots p → slot_off q j = slot_off p j → slot_raw q j = slot_raw p j →
  is_slot_tombstone j q = is_slot_tombstone j p.
Proof. unfold is_slot_tombstone. by intros -> -> ->. Qed.

Lemma flag_dead p j : slot_off p j = 0 → is_slot_tombstone j p = false.
Proof. unfold is_slot_tombstone. intros ->. by case_decide. Qed.

Lemma flag_outside p j : sp_num_slots p ≤ Z.of_nat j → is_slot_tombstone j p = false.
Proof. intros. unfold is_slot_tombstone. by rewrite decide_True. Qed.

(** The bytes of free space a tuple takes: its own, and a slot entry when no
    deleted slot can be reused. *)
Definition insert_cost (d : bytes) (cs : list (option bytes)) : Z :=
  Z.of_nat (length d) + (if list_find (λ o, o = None) cs then 0 else 4).

Lemma insert_ok p d :
  page_wf p → Z.of_nat (length d + SLOT_SIZE) ≤ free_space p →
  ∃ p', insert d p = (Ok (spec_insert d (contents p)).1, p') ∧ page_wf p' ∧
    contents p' = (spec_insert d (contents p)).2 ∧
    page_id (read_from p') = page_id (read_from p) ∧
    free_space p' = free_space p - insert_cost d (contents p) ∧
    ∀ j, is_slot_tombstone j p' = is_slot_tombstone j p.
Proof.
  intros Hwf Hroom. pose proof PAGE_SIZE_Z as HP. unfold insert. rewrite st_get_bind.
  rewrite decide_False by lia. pose proof (wf_free _ Hwf) as Hf.
  unfold free_space in *. unfold SLOT_SIZE in Hroom.
  destruct (choose_slot_ok p Hwf ltac:(lia)) as (i & n & p0 & Hc & Hwe & He & Hid & Hn & Hcont & Hsl & Hcase).
  erewrite st_step by exact Hc.
  destruct (fill_slot_ok n i d p0 Hwe) as (p' & Hrun & Hwf' & Hnum & Hend & Hid' & Hcont' & Hsl' & Hri & Hdl).
  { rewrite He. lia. }
  exists p'. unfold spec_insert. rewrite Hrun.
  assert (Hflag : is_slot_tombstone i p = false → (∀ j, (j < n)%nat → j ≠ i → (j < Z.to_nat (sp_num_slots p))%nat) →
    (Z.to_nat (sp_num_slots p) ≤ n)%nat → ∀ j, is_slot_tombstone j p' = is_slot_tombstone j p).
  { intros Hfi Hlt Hle j. destruct (decide (j < n)%nat) as [Hj|Hj].
    - destruct (decide (j = i)) as [->|Hne]; [rewrite Hfi; apply flag_clear; lia|].
      specialize (Hlt j Hj Hne). destruct (Hsl' j Hj Hne) as [Ho Hr], (Hsl j) as [Ho' Hr'].
      unfold is_slot_tombstone. rewrite Ho, Hr, Ho', Hr', !decide_False by lia. done.
    - rewrite !flag_outside by lia. done. }
  pose proof (wf_start _ Hwf) as Hst. pose proof (wf_start _ Hwf') as Hst'. rewrite Hnum, Nat2Z.id in Hst'.
  pose proof (wf_free _ Hwf') as Hf'. pose proof (num_slots_range p) as Hnr. unfold insert_cost.
  destruct (list_find _ (contents p)) as [[k o]|] eqn:Hfind; destruct Hcase as [-> Hnn];
    cbn [fst snd].
  - apply list_find_Some in Hfind as (Hk & -> & _). rewrite contents_lookup in Hk.
    case_decide as Hkn; [|done]. rewrite contents_length in Hnn.
    assert (slot_off p k = 0) as Hk0 by (apply slot_content_None; congruence).
    split_and!; [done|done| |congruence|slia|apply Hflag; [by apply flag_dead|intros; lia|lia]].
    apply contents_eq.
    { rewrite length_insert, Hnum, contents_length. lia. }
    rewrite Hnum, Nat2Z.id. intros j Hj. rewrite Hcont' by done.
    destruct (decide (j = k)) as [->|].
    + apply list_lookup_insert_eq. rewrite contents_length. lia.
    + rewrite list_lookup_insert_ne by done. rewrite Hcont by (rewrite contents_length; lia).
      rewrite contents_lookup. by rewrite decide_True by lia.
  - split_and!; [done|done| |congruence|rewrite contents_length in Hnn; slia|
      apply Hflag; rewrite ?contents_length in *; [apply flag_outside; lia|intros; lia|lia]].
    apply contents_eq.
    { rewrite length_app, Hnum. simpl. lia. }
    rewrite Hnum, Nat2Z.id. intros j Hj. rewrite Hcont' by done. case_decide as Hd.
    + subst j. rewrite lookup_app_r, Nat.sub_diag by lia. done.
    + rewrite lookup_app_l by lia. rewrite Hcont by lia.
      rewrite contents_lookup. rewrite contents_length in *. by rewrite decide_True by lia.
Qed.

(** ** Get, delete, update *)

Lemma get_ok p i :
  page_wf p →
  get i p = (match contents p !! i with
             | Some (Some d) => Ok d
             | _ => Err (PageNotFound (page_id (read_from p)))
             end, p).
Proof.
  intros Hwf. unfold get. rewrite st_get_bind, contents_lookup.
  pose proof (num_slots_range p). case_decide as Hi.
  { by rewrite decide_False by lia. }
  rewrite decide_True by lia. erewrite st_step by (apply read_slot_ok; eapply wf_slot_fits; [done|lia]).
  cbn [fst snd]. unfold slot_content. case_decide as H0; [done|].
  rewrite decide_True; [done|]. by apply (wf_slots _ Hwf); [lia| |].
Qed.

(** Rewriting the entry of slot [i] to [(o, l)], within the bytes it already
    holds or to nothing, keeps the page well formed. *)
Section put_wf.
Context (p : bytes) (i : nat) (o l : Z).
Hypothesis Hwf : page_wf p.
Hypothesis Hi : (i < Z.to_nat (sp_num_slots p))%nat.
Hypothesis Ho : o = 0 ∧ l = 0 ∨ o = slot_off p i ∧ slot_off p i ≠ 0 ∧ 0 ≤ l ≤ slot_len p i.

Lemma put_pre :
  length p = PAGE_SIZE ∧ (slot_offset i + 4 ≤ PAGE_SIZE)%nat ∧ is_u16 o ∧ 0 ≤ l ≤ MAX_SLOT_LENGTH.
Proof.
  split; [apply Hwf|]. split; [by apply (wf_slot_fits p)|].
  pose proof (slot_off_range p i). pose proof (slot_len_range p i).
  unfold is_u16, MAX_SLOT_LENGTH, SLOT_LENGTH_MASK. lia.
Qed.

Lemma put_header a k : (a + k ≤ 32)%nat → le_at a k (put_slot i o l p) = le_at a k p.
Proof. destruct put_pre as (? & ? & ? & ?). by apply header_put. Qed.

Lemma put_wf : page_wf (put_slot i o l p).
Proof.
  destruct put_pre as (Hq1 & Hq2 & Hq3 & Hq4). destruct Hwf as [Hl Hs Hf [H1 H2]].
  constructor.
  - by apply length_put_slot.
  - unfold sp_free_space_start, sp_num_slots. rewrite !put_header by lia. apply Hs.
  - unfold sp_free_space_start, sp_free_space_end. rewrite !put_header by lia. apply Hf.
  - unfold sp_free_space_end, sp_num_slots. rewrite !put_header by lia. split.
    + intros j Hj _. rewrite slot_off_put, slot_len_put by done.
      case_decide as E; [|by apply H1]. subst j. intros Hne. specialize (H1 i Hi I).
      unfold sp_free_space_end in H1. lia.
    + intros j k Hj Hk _ _ Hjk. rewrite !slot_off_put, !slot_len_put by done.
      specialize (H2 j k Hj Hk I I Hjk).
      destruct (decide (j = i)) as [->|], (decide (k = i)) as [->|]; lia.
Qed.

Lemma put_content j :
  slot_content (put_slot i o l p) j =
    if decide (j = i) then
      if decide (o = 0) then None else Some (slice (Z.to_nat o) (Z.to_nat l) p)
    else if decide (j < Z.to_nat (sp_num_slots p))%nat then slot_content p j
    else slot_content (put_slot i o l p) j.
Proof.
  destruct put_pre as (? & ? & ? & ?).
  destruct (decide (j = i)) as [->|Hne].
  - unfold slot_content. rewrite slot_off_put, slot_len_put by done. rewrite !(decide_True (P := i = i)) by done.
    case_decide; [done|]. f_equal.
    pose proof (wf_start _ Hwf). pose proof (wf_free _ Hwf). destruct (wf_slots _ Hwf) as [H1' _].
    specialize (H1' i Hi I). apply slice_put; done || slia.
  - case_decide as Hj; [|done]. unfold slot_content. rewrite slot_off_put, slot_len_put by done.
    rewrite !(decide_False (P := j = i)) by done. case_decide; [done|]. f_equal.
    pose proof (wf_start _ Hwf). pose proof (wf_free _ Hwf). destruct (wf_slots _ Hwf) as [H1' _].
    specialize (H1' j Hj I). apply slice_put; done || slia.
Qed.

Lemma put_contents :
  contents (put_slot i o l p) =
    <[i := if decide (o = 0) then None else Some (slice (Z.to_nat o) (Z.to_nat l) p)]> (contents p).
Proof.
  assert (Hn : sp_num_slots (put_slot i o l p) = sp_num_slots p) by (apply put_header; lia).
  apply contents_eq.
  { rewrite length_insert, contents_length. by rewrite Hn. }
  rewrite Hn. intros j Hj. rewrite put_content. destruct (decide (j = i)) as [->|Hne].
  - apply list_lookup_insert_eq. by rewrite contents_length.
  - rewrite list_lookup_insert_ne by done. rewrite contents_lookup. by rewrite !decide_True by done.
Qed.

Lemma put_flags j :
  is_slot_tombstone j (put_slot i o l p) = if decide (j = i) then false else is_slot_tombstone j p.
Proof.
  destruct put_pre as (? & ? & ? & Hl). assert (l < 32768) by (unfold MAX_SLOT_LENGTH, SLOT_LENGTH_MASK in Hl; lia).
  case_decide as Hj.
  - subst j. apply flag_clear. rewrite slot_raw_put by done. rewrite decide_True by done. lia.
  - apply flag_same; [apply put_header; lia|rewrite slot_off_put by done|rewrite slot_raw_put by done];
      by rewrite decide_False.
Qed.

Lemma put_free : free_space (put_slot i o l p) = free_space p.
Proof.
  unfold free_space, sp_free_space_end, sp_free_space_start. rewrite !put_header by lia. done.
Qed.
End put_wf.

Lemma delete_ok p i :
  page_wf p →
  match contents p !! i with
  | Some (Some _) =>
      ∃ p', delete i p = (Ok tt, p') ∧ page_wf p' ∧ contents p' = <[i := None]> (contents p) ∧
        page_id (read_from p') = page_id (read_from p) ∧ free_space p' = free_space p ∧
        ∀ j, is_slot_tombstone j p' = if decide (j = i) then false else is_slot_tombstone j p
  | _ => delete i p = (Err (PageNotFound (page_id (read_from p))), p)
  end.
Proof.
  intros Hwf. unfold delete. rewrite st_get_bind, contents_lookup.
  pose proof (num_slots_range p). destruct (decide (sp_num_slots p ≤ Z.of_nat i)) as [Hi|Hi].
  { by rewrite decide_False by lia. }
  rewrite decide_True by lia. assert (Hi' : (i < Z.to_nat (sp_num_slots p))%nat) by lia.
  erewrite st_step by (by apply read_slot_ok, (wf_slot_fits p)). cbn [fst snd].
  unfold slot_content at 1. case_decide as H0; [done|].
  exists (put_slot i 0 0 p). rewrite write_slot_ok by (by apply (wf_slot_fits p) || done).
  assert (Hp : 0 = 0 ∧ 0 = 0 ∨ 0 = slot_off p i ∧ slot_off p i ≠ 0 ∧ 0 ≤ 0 ≤ slot_len p i) by lia.
  split_and!; [done|by apply put_wf|by rewrite put_contents| | |].
  - apply put_header; done || lia.
  - by apply put_free.
  - by apply put_flags.
Qed.

(** Overwriting the front of the tuple of slot [i] leaves every other slot alone. *)
Section overwrite.
Context (p : bytes) (i : nat) (d : bytes).
Hypothesis Hwf : page_wf p.
Hypothesis Hi : (i < Z.to_nat (sp_num_slots p))%nat.
Hypothesis Hlive : slot_off p i ≠ 0.
Hypothesis Hd : Z.of_nat (length d) ≤ slot_len p i.
Let q : bytes := copy_at (Z.to_nat (slot_off p i)) d p.

Lemma ow_range :
  sp_free_space_end p ≤ slot_off p i ∧ slot_off p i + Z.of_nat (length d) ≤ Z.of_nat PAGE_SIZE ∧
  Z.of_nat (slot_offset (Z.to_nat (sp_num_slots p))) ≤ sp_free_space_end p ∧ length p = PAGE_SIZE.
Proof.
  pose proof (wf_start _ Hwf). pose proof (wf_free _ Hwf).
  destruct (wf_slots _ Hwf) as [H1 _]. specialize (H1 i Hi I Hlive).
  pose proof (wf_length _ Hwf). lia.
Qed.

Lemma ow_header a k : (a + k ≤ 32)%nat → le_at a k q = le_at a k p.
Proof. intros. pose proof ow_range. unfold q. rewrite le_at_copy_ne by slia. done. Qed.

Lemma ow_slots j :
  (j < Z.to_nat (sp_num_slots p))%nat → slot_off q j = slot_off p j ∧ slot_len q j = slot_len p j.
Proof.
  intros. pose proof ow_range as (? & ? & ? & ?).
  destruct (slot_off_copy (Z.to_nat (slot_off p i)) d p j) as (? & _ & ?); [slia|slia|done].
Qed.

Lemma ow_flags j : is_slot_tombstone j q = is_slot_tombstone j p.
Proof.
  pose proof ow_range as (? & ? & ? & ?).
  assert (sp_num_slots q = sp_num_slots p) as Hn by (apply ow_header; lia).
  destruct (decide (sp_num_slots p ≤ Z.of_nat j)); [by rewrite !flag_outside by lia|].
  destruct (slot_off_copy (Z.to_nat (slot_off p i)) d p j) as (? & ? & ?); [slia|slia|].
  by apply flag_same.
Qed.

Lemma ow_wf : page_wf q.
Proof.
  pose proof ow_range as (Hr1 & Hr2 & Hr3 & Hr4). destruct Hwf as [Hl Hs Hf [H1 H2]]. constructor.
  - unfold q. rewrite length_copy_at; lia.
  - unfold sp_free_space_start, sp_num_slots. rewrite !ow_header by lia. apply Hs.
  - unfold sp_free_space_start, sp_free_space_end. rewrite !ow_header by lia. apply Hf.
  - unfold sp_free_space_end, sp_num_slots. rewrite !ow_header by lia. split.
    + intros j Hj _. destruct (ow_slots j Hj) as [-> ->]. by apply H1.
    + intros j k Hj Hk _ _ Hjk. destruct (ow_slots j Hj) as [-> ->], (ow_slots k Hk) as [-> ->].
      by apply H2.
Qed.

Lemma ow_content j :
  (j < Z.to_nat (sp_num_slots p))%nat → j ≠ i → slot_content q j = slot_content p j.
Proof.
  intros Hj Hne. unfold slot_content. destruct (ow_slots j Hj) as [-> ->].
  case_decide as H0; [done|]. f_equal. pose proof ow_range.
  destruct (wf_slots _ Hwf) as [H1 H2]. specialize (H1 j Hj I H0).
  specialize (H2 i j Hi Hj I I ltac:(done) Hlive H0). unfold q.
  pose proof (slot_len_range p j). rewrite slice_copy_at_ne by lia. done.
Qed.
End overwrite.

Lemma update_in_place p i d :
  page_wf p → (i < Z.to_nat (sp_num_slots p))%nat → slot_off p i ≠ 0 →
  Z.of_nat (length d) ≤ slot_len p i →
  ∃ p', update i d p = (Ok i, p') ∧ page_wf p' ∧ contents p' = <[i := Some d]> (contents p) ∧
    page_id (read_from p') = page_id (read_from p) ∧ free_space p' = free_space p ∧
    ∀ j, is_slot_tombstone j p' = if decide (j = i) then false else is_slot_tombstone j p.
Proof.
  intros Hwf Hi Hne Hd. pose proof (num_slots_range p) as Hnr.
  pose proof (ow_range p i d Hwf Hi Hne Hd) as (Hr1 & Hr2 & Hr3 & Hlen).
  pose proof (ow_wf p i d Hwf Hi Hne Hd) as Hqwf.
  pose proof (ow_header p i d Hwf Hi Hne Hd) as Hqh.
  pose proof (ow_slots p i d Hwf Hi Hne Hd i Hi) as [Hqo Hql].
  pose proof (ow_content p i d Hwf Hi Hne Hd) as Hqc.
  pose proof (slot_len_range p i) as Hslr.
  unfold update. rewrite st_get_bind, decide_False by lia.
  erewrite st_step by (by apply read_slot_ok, (wf_slot_fits p)). cbn [fst snd].
  rewrite decide_False, decide_True by done.
  erewrite st_step by (apply write_range_ok; slia).
  erewrite st_step by (apply write_slot_ok; [by apply (wf_slot_fits p)|];
    unfold MAX_SLOT_LENGTH, SLOT_LENGTH_MASK; lia).
  set (q := copy_at (Z.to_nat (slot_off p i)) d p) in *.
  assert (Hqn : sp_num_slots q = sp_num_slots p) by (apply Hqh; lia).
  assert (Hiq : (i < Z.to_nat (sp_num_slots q))%nat) by (by rewrite Hqn).
  assert (Hput : slot_off p i = 0 ∧ Z.of_nat (length d) = 0 ∨ slot_off p i = slot_off q i ∧
    slot_off q i ≠ 0 ∧ 0 ≤ Z.of_nat (length d) ≤ slot_len q i).
  { right. rewrite Hqo, Hql. lia. }
  exists (put_slot i (slot_off p i) (Z.of_nat (length d)) q).
  split_and!; [done|by apply put_wf| | | |].
  - rewrite put_contents by done. rewrite decide_False by done. rewrite Nat2Z.id.
    unfold q at 1. rewrite slice_copy_at_eq by slia.
    apply list_eq_same_length with (n := length (contents p)).
    { by rewrite length_insert. }
    { rewrite length_insert, !contents_length, Hqn. done. }
    intros j x y Hj. destruct (decide (j = i)) as [->|Hji].
    + rewrite !list_lookup_insert_eq by (rewrite contents_length; done). congruence.
    + rewrite !list_lookup_insert_ne by done. rewrite !contents_lookup, Hqn.
      case_decide; [|done]. rewrite Hqc by done. congruence.
  - transitivity (page_id (read_from q)); [apply put_header; done || lia|apply Hqh; lia].
  - rewrite put_free by done. unfold free_space, sp_free_space_end, sp_free_space_start.
    rewrite !Hqh by lia. done.
  - intros j. rewrite put_flags by done. unfold q. by rewrite ow_flags.
Qed.

Lemma update_ok p i d :
  page_wf p →
  match contents p !! i with
  | Some (Some old) =>
      ∃ r p', update i d p = (r, p') ∧ page_wf p' ∧
        page_id (read_from p') = page_id (read_from p) ∧
        (∀ j, is_slot_tombstone j p' = if decide (j = i) then false else is_slot_tombstone j p) ∧
        if decide (length d ≤ length old)%nat then
          r = Ok i ∧ contents p' = <[i := Some d]> (contents p) ∧ free_space p' = free_space p
        else if decide (free_space p < Z.of_nat (length d + SLOT_SIZE)) then
          r = Err (PageFull (page_id (read_from p))) ∧ contents p' = <[i := None]> (contents p) ∧
          free_space p' = free_space p
        else
          r = Ok (spec_insert d (<[i := None]> (contents p))).1 ∧
          contents p' = (spec_insert d (<[i := None]> (contents p))).2 ∧
          free_space p' = free_space p - insert_cost d (<[i := None]> (contents p))
  | _ => update i d p = (Err (PageNotFound (page_id (read_from p))), p)
  end.
Proof.
  intros Hwf. pose proof (delete_ok p i Hwf) as Hdel. pose proof (num_slots_range p).
  destruct (contents p !! i) as [[old|]|] eqn:Hc; rewrite contents_lookup in Hc.
  - case_decide as Hi; [|done]. injection Hc as Hc. unfold slot_content in Hc.
    case_decide as H0; [done|]. injection Hc as Hc.
    assert (Hlo : Z.of_nat (length old) = slot_len p i).
    { rewrite <- Hc. destruct (wf_slots _ Hwf) as [Hb _]. specialize (Hb i Hi I H0).
      pose proof (wf_length _ Hwf). pose proof (slot_len_range p i).
      pose proof (slot_off_range p i). rewrite length_slice by lia. lia. }
    destruct (decide (length d ≤ length old)%nat) as [Hd|Hd].
    + destruct (update_in_place p i d Hwf Hi H0 ltac:(lia)) as (p' & Hr & Hwf' & Hc' & Hid & Hfr & Hfl).
      by exists (Ok i), p'.
    + destruct Hdel as (p1 & Hr1 & Hwf1 & Hc1 & Hid1 & Hf1 & Hfl1).
      assert (Hrun : update i d p = insert d p1).
      { unfold update. rewrite st_get_bind, decide_False by lia.
        erewrite st_step by (by apply read_slot_ok, (wf_slot_fits p)). cbn [fst snd].
        rewrite !decide_False by lia. by erewrite st_step by exact Hr1. }
      rewrite Hrun. rewrite <- Hf1. case_decide as Hfull.
      * exists (Err (PageFull (page_id (read_from p)))), p1. split_and!; try done.
        unfold insert. rewrite st_get_bind, decide_True by done. by rewrite Hid1.
      * destruct (insert_ok p1 d Hwf1 ltac:(lia)) as (p2 & Hr2 & Hwf2 & Hc2 & Hid2 & Hf2 & Hfl2).
        rewrite Hr2. exists (Ok (spec_insert d (contents p1)).1), p2. rewrite <- Hc1.
        split_and!; [done|done|congruence| |done|done|done]. intros j. by rewrite Hfl2.
  - case_decide as Hi; [|done]. injection Hc as Hc. apply slot_content_None in Hc.
    unfold update. rewrite st_get_bind, decide_False by lia.
    erewrite st_step by (by apply read_slot_ok, (wf_slot_fits p)). cbn [fst snd].
    by rewrite decide_True.
  - case_decide as Hi; [done|]. unfold update. by rewrite st_get_bind, decide_True by lia.
Qed.

(** ** Compaction *)

Definition live (cs : list (option bytes)) : list (nat * bytes) :=
  omap (λ j, pair j <$> mjoin (cs !! j)) (seq 0 (length cs)).

Definition live_bytes (cs : list (option bytes)) : nat :=
  sum_list (length <$> (live cs).*2).

Lemma live_spec cs j d : (j, d) ∈ live cs ↔ cs !! j = Some (Some d).
Proof.
  unfold live. rewrite list_elem_of_omap. setoid_rewrite elem_of_seq. split.
  - intros (k & _ & Hk). destruct (cs !! k) as [[e|]|] eqn:E; naive_solver.
  - intros Hj. exists j. rewrite Hj. pose proof (lookup_lt_Some _ _ _ Hj).
    split; [lia|done].
Qed.

Lemma omap_fst_NoDup {A} (f : nat → option A) (l : list nat) :
  NoDup l → NoDup (omap (λ j, pair j <$> f j) l).*1 ∧
  ∀ j, j ∈ (omap (λ j, pair j <$> f j) l).*1 → j ∈ l.
Proof.
  intros Hl. induction Hl as [|j l Hj Hnd IH]; [split; [constructor|done]|].
  destruct IH as [IH1 IH2]. csimpl.
  destruct (f j) as [x|]; csimpl.
  - split; [constructor; [|done]|].
    + intros Hin. apply Hj, IH2, Hin.
    + intros k. rewrite !elem_of_cons. intros [->|Hk]; auto.
  - split; [done|]. intros k Hk. apply elem_of_cons. auto.
Qed.

Lemma live_NoDup cs : NoDup (live cs).*1.
Proof. apply omap_fst_NoDup, NoDup_seq. Qed.

(** Tuples that do not overlap fit in the data area. *)
Lemma live_bytes_fit p :
  page_wf p → (Z.of_nat (live_bytes (contents p)) ≤ Z.of_nat PAGE_SIZE - sp_free_space_end p).
Proof.
  intros Hwf. pose proof PAGE_SIZE_Z. destruct (wf_slots _ Hwf) as [Hb Hd].
  pose proof (wf_free _ Hwf). pose proof (wf_start _ Hwf).
  set (f := λ jd : nat * bytes, seq (Z.to_nat (slot_off p jd.1)) (length jd.2)).
  assert (Hl : ∀ jd, jd ∈ live (contents p) → (jd.1 < Z.to_nat (sp_num_slots p))%nat ∧
    slot_off p jd.1 ≠ 0 ∧ Z.of_nat (length jd.2) = slot_len p jd.1).
  { intros [j d] Hjd. apply live_spec in Hjd. rewrite contents_lookup in Hjd.
    case_decide as Hj; [|done]. injection Hjd as Hjd. unfold slot_content in Hjd.
    case_decide as Hz; [done|]. injection Hjd as <-. cbn. split_and!; [done|done|].
    specialize (Hb j Hj I Hz). pose proof (slot_len_range p j). pose proof (slot_off_range p j).
    pose proof (wf_length _ Hwf). rewrite length_slice by lia. lia. }
  assert (Hnd : NoDup (live (contents p) ≫= f)).
  { apply NoDup_bind; [|intros; apply NoDup_seq|eapply NoDup_fmap_1, live_NoDup].
    intros [j d] [k e] y Hj Hk. unfold f. cbn. rewrite !elem_of_seq. intros Hy1 Hy2.
    destruct (Hl _ Hj) as (Hj1 & Hj2 & Hj3), (Hl _ Hk) as (Hk1 & Hk2 & Hk3). cbn in *.
    destruct (decide (j = k)) as [->|Hne].
    - apply live_spec in Hj, Hk. congruence.
    - specialize (Hd j k Hj1 Hk1 I I Hne Hj2 Hk2).
      pose proof (slot_off_range p j). pose proof (slot_off_range p k). lia. }
  assert (Hlen : length (live (contents p) ≫= f) = live_bytes (contents p)).
  { unfold live_bytes. generalize (live (contents p)). intros l.
    induction l as [|[j d] l IH]; [done|]. csimpl. rewrite length_app, IH. unfold f. cbn.
    by rewrite length_seq. }
  rewrite <- Hlen.
  set (lo := Z.to_nat (sp_free_space_end p)).
  assert (length (live (contents p) ≫= f) ≤ length (seq lo (PAGE_SIZE - lo)))%nat as Hle.
  { apply NoDup_incl_length; [by apply NoDup_ListNoDup|]. intros y.
    rewrite <- !list_elem_of_In, elem_of_seq. intros Hy.
    apply list_elem_of_bind in Hy as ([j d] & Hy & Hj). unfold f in Hy. cbn in Hy.
    rewrite elem_of_seq in Hy. destruct (Hl _ Hj) as (Hj1 & Hj2 & Hj3). cbn in *.
    specialize (Hb j Hj1 I Hj2). pose proof (slot_off_range p j). unfold lo. lia. }
  rewrite length_seq in Hle. unfold lo in Hle. slia.
Qed.

(** ** The compaction loops *)

Lemma collect_live_ok p i n :
  page_wf p → (i + n ≤ Z.to_nat (sp_num_slots p))%nat →
  collect_live i n p = (Ok (omap (λ j, pair j <$> slot_content p j) (seq i n)), p).
Proof.
  intros Hwf. revert i. induction n as [|n IH]; intros i Hn; [done|].
  assert (Hi : (i < Z.to_nat (sp_num_slots p))%nat) by lia.
  cbn [collect_live seq]. erewrite st_step by (by apply read_slot_ok, (wf_slot_fits p)).
  rewrite st_get_bind. cbn [fst snd]. csimpl. unfold slot_content at 1.
  specialize (IH (S i) ltac:(lia)). destruct (decide (slot_off p i = 0)) as [Hz|Hz].
  - by rewrite decide_False by auto.
  - rewrite decide_True by done. rewrite decide_True by (by apply (wf_slots _ Hwf); [lia| |]).
    by erewrite st_step by exact IH.
Qed.

Lemma collect_live_all p :
  page_wf p → collect_live 0 (Z.to_nat (sp_num_slots p)) p = (Ok (live (contents p)), p).
Proof.
  intros Hwf. rewrite collect_live_ok by (done || lia). do 2 f_equal.
  unfold live. rewrite contents_length.
  apply list_omap_ext, Forall_Forall2_diag, Forall_forall. intros j Hj.
  apply elem_of_seq in Hj. rewrite contents_lookup, decide_True by lia. done.
Qed.

Definition total (tuples : list (nat * bytes)) : Z := Z.of_nat (sum_list (length <$> tuples.*2)).

Lemma repack_ok n tuples : ∀ lo (L : nat → Prop) q,
  length q = PAGE_SIZE → NoDup tuples.*1 → (∀ j, j ∈ tuples.*1 → (j < n)%nat) →
  slots_in n L lo q → lo ≤ Z.of_nat PAGE_SIZE → Z.of_nat (slot_offset n) ≤ lo - total tuples →
  ∃ q', repack tuples lo q = (Ok (lo - total tuples), q') ∧ length q' = PAGE_SIZE ∧
    (∀ a k, (a + k ≤ 32)%nat → le_at a k q' = le_at a k q) ∧
    slots_in n (λ j, j ∈ tuples.*1 ∨ L j) (lo - total tuples) q' ∧
    (∀ j d, (j, d) ∈ tuples → slot_content q' j = Some d ∧ 0 ≤ slot_raw q' j < 32768) ∧
    (∀ j, (j < n)%nat → j ∉ tuples.*1 → slot_raw q' j = slot_raw q j ∧
       slot_off q' j = slot_off q j ∧ (L j → slot_content q' j = slot_content q j)).
Proof.
  induction tuples as [|[i d] tuples IH]; intros lo L q Hlen Hnd Hlt Hin Hlo Hroom.
  { exists q. unfold total in *. cbn in *. rewrite Z.sub_0_r in *. split_and!; try done.
    - eapply slots_in_mono; [| |exact Hin]; [lia|]. intros j _ [Hj|Hj]; [|done].
      by apply not_elem_of_nil in Hj.
    - intros j e Hj. by apply not_elem_of_nil in Hj. }
  csimpl in Hnd. apply NoDup_cons in Hnd as [Hi Hnd].
  assert (Hin' : (i < n)%nat) by (apply Hlt; csimpl; set_solver).
  assert (Htot : total ((i, d) :: tuples) = Z.of_nat (length d) + total tuples)
    by (unfold total; csimpl; lia).
  rewrite Htot in *. assert (0 ≤ total tuples) by (unfold total; lia).
  assert (Hroom1 : Z.of_nat (slot_offset n) ≤ lo - Z.of_nat (length d)) by lia.
  pose proof (length_place n lo q i d Hlen Hin' Hlo Hroom1) as Hl1.
  pose proof (place_header n lo q i d Hlen Hin' Hlo Hroom1) as Hh1.
  pose proof (place_slots_in n L lo q i d Hlen Hin' Hin Hlo Hroom1) as Hin1.
  pose proof (place_content n L lo q i d Hlen Hin' Hin Hlo Hroom1) as Hc1.
  pose proof (place_slot_off n lo q i d Hlen Hin' Hlo Hroom1) as Ho1.
  pose proof (λ j, place_slot_raw n lo q i d j Hlen Hin' Hlo Hroom1) as Hraw1.
  set (q1 := place i (lo - Z.of_nat (length d)) d q) in *.
  destruct (IH (lo - Z.of_nat (length d)) (λ j, j = i ∨ L j) q1 Hl1 Hnd) as (q' & Hrun & Hl & Hh & Hs & Hc & Hrest);
    [|done|lia|lia|].
  { intros j Hj. apply Hlt. csimpl. set_solver. }
  exists q'. replace (lo - (Z.of_nat (length d) + total tuples))
    with (lo - Z.of_nat (length d) - total tuples) by lia.
  split_and!.
  - cbn [repack]. erewrite st_step by (apply write_range_ok; slia).
    erewrite st_step by (apply write_slot_ok; unfold MAX_SLOT_LENGTH, SLOT_LENGTH_MASK; slia).
    apply Hrun.
  - done.
  - intros a k Hak. rewrite Hh by done. by apply Hh1.
  - eapply slots_in_mono; [| |exact Hs]; [lia|]. intros j _. csimpl. set_solver.
  - intros j e [[= -> ->]|Hj]%elem_of_cons; [|by apply Hc].
    destruct (Hrest i Hin' Hi) as (Hr1 & _ & Hr2). rewrite Hr1, Hr2 by auto.
    rewrite Hc1, Hraw1 by auto. rewrite !decide_True by done. split; [done|]. slia.
  - intros j Hj. csimpl. intros [Hji Hjt]%not_elem_of_cons.
    destruct (Hrest j Hj Hjt) as (Hr1 & Hr2 & Hr3).
    rewrite Hr1, Hr2, Hraw1, Ho1 by done. rewrite !decide_False by done. split_and!; [done..|].
    intros HL. rewrite Hr3, Hc1 by auto. by rewrite decide_False.
Qed.

Lemma not_live_dead p j :
  (j < Z.to_nat (sp_num_slots p))%nat → j ∉ (live (contents p)).*1 → slot_off p j = 0.
Proof.
  intros Hj Hn. destruct (decide (slot_off p j = 0)) as [|Hz]; [done|]. destruct Hn.
  apply list_elem_of_fmap. eexists (j, _). split; [done|]. apply live_spec.
  rewrite contents_lookup, decide_True by done. unfold slot_content. by rewrite decide_False.
Qed.

(** The page after the re-packing loop: the header of [p], the contents of [p],
    tuples packed against the end of the page. *)
Lemma compact_repacked p :
  let n := Z.to_nat (sp_num_slots p) in
  let we := Z.of_nat PAGE_SIZE - Z.of_nat (live_bytes (contents p)) in
  page_wf p →
  ∃ q, compact p = (Ok tt, set_free_space_end we q) ∧ length q = PAGE_SIZE ∧
    (∀ a k, (a + k ≤ 32)%nat → le_at a k q = le_at a k p) ∧
    slots_in n (λ _, True) we q ∧
    (∀ j, (j < n)%nat → slot_content q j = slot_content p j) ∧
    (∀ j, (j < n)%nat → slot_off q j ≠ 0 → 0 ≤ slot_raw q j < 32768).
Proof.
  intros n we Hwf. pose proof PAGE_SIZE_Z as HP. pose proof (live_bytes_fit p Hwf) as Hfit.
  pose proof Hwf as [Hlen Hs Hf Hin]. pose proof (num_slots_range p) as Hnr. fold n in Hs, Hin.
  unfold compact. rewrite st_get_bind. erewrite st_step by (by apply collect_live_all). fold n.
  erewrite st_step by (apply write_range_ok; rewrite length_replicate; slia).
  set (zs := replicate (PAGE_SIZE - slot_offset n) x00).
  set (q := copy_at (slot_offset n) zs p).
  assert (Hzs : length zs = (PAGE_SIZE - slot_offset n)%nat) by (unfold zs; by rewrite length_replicate).
  assert (Hq : length q = PAGE_SIZE) by (unfold q; rewrite length_copy_at; slia).
  assert (Hqh : ∀ a k, (a + k ≤ slot_offset n)%nat → le_at a k q = le_at a k p).
  { intros. unfold q. rewrite le_at_copy_ne by slia. done. }
  assert (Hqs : ∀ j, (j < n)%nat → slot_off q j = slot_off p j).
  { intros j Hj. unfold slot_off. apply Hqh. slia. }
  destruct (repack_ok n (live (contents p)) (Z.of_nat PAGE_SIZE) (λ j, slot_off q j = 0) q) as
    (q' & Hrun & Hq' & Hh & Hin' & Hc & Hrest);
    [done|apply live_NoDup| |split; naive_solver|lia|unfold total; unfold live_bytes in Hfit; lia|].
  { intros j (e & -> & He)%list_elem_of_fmap. destruct e as [j e].
    apply live_spec in He. rewrite contents_lookup in He. by case_decide. }
  erewrite st_step by exact Hrun. exists q'.
  assert (Hcase : ∀ j, (j < n)%nat → (∃ d, (j, d) ∈ live (contents p)) ∨
    slot_off p j = 0 ∧ slot_off q' j = 0 ∧ j ∉ (live (contents p)).*1).
  { intros j Hj. destruct (decide (j ∈ (live (contents p)).*1)) as [Hj'|Hj'].
    - left. apply list_elem_of_fmap in Hj' as ([j' d] & -> & Hd). by exists d.
    - right. pose proof (not_live_dead p j Hj Hj'). destruct (Hrest j Hj Hj') as (_ & Ho & _).
      rewrite Ho, Hqs by done. done. }
  split_and!; [done|done| | | |].
  - intros a k Hak. rewrite Hh by lia. apply Hqh. slia.
  - eapply slots_in_mono; [| |exact Hin']; [lia|]. intros j Hj _.
    destruct (decide (j ∈ (live (contents p)).*1)) as [|Hj']; [by left|right].
    rewrite Hqs by done. by apply not_live_dead.
  - intros j Hj. destruct (Hcase j Hj) as [[d Hd]|(H1 & H2 & _)].
    + destruct (Hc _ _ Hd) as [-> _]. apply live_spec in Hd. rewrite contents_lookup in Hd.
      case_decide; congruence.
    + unfold slot_content. by rewrite H1, H2.
  - intros j Hj Hne. destruct (Hcase j Hj) as [[d Hd]|(H1 & H2 & _)]; [by apply (Hc _ _ Hd)|done].
Qed.

Lemma compact_ok p :
  page_wf p →
  ∃ p', compact p = (Ok tt, p') ∧ page_wf p' ∧ contents p' = contents p ∧
    page_id (read_from p') = page_id (read_from p) ∧
    free_space p' = Z.of_nat PAGE_SIZE - Z.of_nat (slot_offset (length (contents p))) -
                    Z.of_nat (live_bytes (contents p)) ∧
    (∀ i, is_slot_tombstone i p' = false).
Proof.
  intros Hwf. pose proof PAGE_SIZE_Z as HP. pose proof (live_bytes_fit p Hwf) as Hfit.
  pose proof (wf_free _ Hwf) as Hf. pose proof (wf_start _ Hwf) as Hs.
  destruct (compact_repacked p Hwf) as (q & Hrun & Hq & Hh & Hin & Hc & Hraw).
  rewrite contents_length. set (n := Z.to_nat (sp_num_slots p)) in *.
  set (we := Z.of_nat PAGE_SIZE - Z.of_nat (live_bytes (contents p))) in *.
  exists (set_free_space_end we q).
  assert (Hkeep : ∀ a k, (a + k ≤ 10 ∨ 12 ≤ a ∧ a + k ≤ 32)%nat →
    le_at a k (set_free_space_end we q) = le_at a k p).
  { intros a k Hak. unfold set_free_space_end. rewrite le_at_copy_ne by (len; lia).
    apply Hh. lia. }
  assert (Hend : sp_free_space_end (set_free_space_end we q) = we).
  { apply le_at_copy_eq; [len|]. unfold we. slia. }
  assert (Hnum : sp_num_slots (set_free_space_end we q) = sp_num_slots p) by (apply Hkeep; lia).
  assert (Hst : sp_free_space_start (set_free_space_end we q) = sp_free_space_start p)
    by (apply Hkeep; lia).
  split_and!; [done| | |apply Hkeep; lia|unfold free_space; rewrite Hend, Hst, Hs; unfold we; lia|].
  - constructor; rewrite ?Hnum, ?Hst, ?Hend; [unfold set_free_space_end; len|done|unfold we; lia|].
    apply slots_in_header; [done|lia|done].
  - apply contents_eq; rewrite Hnum; [apply contents_length|]. intros j Hj.
    rewrite contents_lookup, decide_True by done. f_equal. rewrite <- Hc by done.
    symmetry. apply slot_content_header; [done|lia|].
    destruct (decide (slot_off q j = 0)); [auto|]. left.
    destruct Hin as [Hb _]. specialize (Hb j Hj I). unfold we in Hb. slia.
  - intros j. unfold is_slot_tombstone at 1. rewrite Hnum. case_decide as Hj; [done|].
    destruct (Z.eqb_spec (slot_off (set_free_space_end we q) j) 0) as [|Hne]; [done|].
    rewrite andb_true_l.
    pose proof (flag_clear (set_free_space_end we q) j) as Hfc.
    unfold is_slot_tombstone in Hfc. rewrite Hnum, decide_False in Hfc by done.
    destruct (Z.eqb_spec (slot_off (set_free_space_end we q) j) 0) as [|_] in Hfc; [done|].
    apply Hfc. unfold set_free_space_end in *.
    destruct (slot_off_copy 10 (to_le 2 we) q j) as (E1 & E2 & _); [lia|len; slia|].
    rewrite E2. apply Hraw; [lia|]. by rewrite <- E1.
Qed.

(** ** The MVCC tombstone flag *)

(** A page with the same header, the same entries and the same data area as [p]
    shows the same view. *)
Lemma same_view p q :
  page_wf p → length q = PAGE_SIZE →
  (∀ a k, (a + k ≤ 28)%nat → le_at a k q = le_at a k p) →
  (∀ j, (j < Z.to_nat (sp_num_slots p))%nat →
     slot_off q j = slot_off p j ∧ slot_len q j = slot_len p j) →
  (∀ a k, sp_free_space_end p ≤ Z.of_nat a → slice a k q = slice a k p) →
  page_wf q ∧ contents q = contents p ∧ free_space q = free_space p ∧
  page_id (read_from q) = page_id (read_from p).
Proof.
  intros [Hl Hs Hf [H1 H2]] Hq Hh Hsl Hsc.
  assert (Hnum : sp_num_slots q = sp_num_slots p) by (apply Hh; lia).
  assert (Hst : sp_free_space_start q = sp_free_space_start p) by (apply Hh; lia).
  assert (Hend : sp_free_space_end q = sp_free_space_end p) by (apply Hh; lia).
  split_and!; [| |unfold free_space; congruence|apply Hh; lia].
  - constructor; rewrite ?Hnum, ?Hst, ?Hend; try done. split.
    + intros j Hj _. destruct (Hsl j Hj) as [-> ->]. by apply H1.
    + intros j k Hj Hk _ _ Hjk. destruct (Hsl j Hj) as [-> ->], (Hsl k Hk) as [-> ->]. by apply H2.
  - apply contents_eq; rewrite Hnum; [apply contents_length|]. intros j Hj.
    rewrite contents_lookup, decide_True by done. f_equal. unfold slot_content.
    destruct (Hsl j Hj) as [-> ->]. case_decide as Hz; [done|]. f_equal. symmetry. apply Hsc.
    specialize (H1 j Hj I Hz). lia.
Qed.

(** The raw length word with bit 15 set or cleared. *)
Lemma flag_word raw b :
  is_u16 raw →
  let raw' := if b : bool then Z.lor raw SLOT_TOMBSTONE_BIT else Z.land raw SLOT_LENGTH_MASK in
  is_u16 raw' ∧ Z.land raw' SLOT_LENGTH_MASK = Z.land raw SLOT_LENGTH_MASK ∧
  negb (Z.land raw' SLOT_TOMBSTONE_BIT =? 0) = b.
Proof.
  intros Hr raw'. unfold is_u16 in *.
  change SLOT_LENGTH_MASK with (Z.ones 15) in *. change SLOT_TOMBSTONE_BIT with (2 ^ 15) in *.
  assert (Hbits : ∀ k, 0 ≤ k → Z.testbit raw' k =
    if decide (k = 15) then b else Z.testbit raw k).
  { intros k Hk. assert (Hhi : 15 < k → Z.testbit raw k = false).
    { intros. destruct (decide (raw = 0)) as [->|]; [apply Z.bits_0|].
      apply Z.bits_above_log2; [lia|]. apply Z.lt_le_trans with 16; [|lia].
      apply Z.log2_lt_pow2; lia. }
    unfold raw'. destruct b; [rewrite Z.lor_spec, Z.pow2_bits_eqb by lia|
      rewrite Z.land_spec, Z.testbit_ones_nonneg by lia].
    - case_decide; [subst; apply orb_true_r|]. destruct (Z.eqb_spec 15 k); [lia|apply orb_false_r].
    - case_decide; [subst; apply andb_false_r|].
      destruct (Z.ltb_spec k 15); [apply andb_true_r|]. rewrite Hhi by lia. apply andb_false_r. }
  assert (Hmod : Z.land raw' (Z.ones 15) = Z.land raw (Z.ones 15)).
  { apply Z.bits_inj'. intros k Hk. rewrite !Z.land_spec, Z.testbit_ones_nonneg by lia.
    destruct (Z.ltb_spec k 15); [|by rewrite !andb_false_r]. rewrite Hbits by done.
    by rewrite decide_False by lia. }
  split; [|split; [done|]].
  - assert (0 ≤ raw'). { unfold raw'. destruct b; [apply Z.lor_nonneg|apply Z.land_nonneg]; lia. }
    split; [done|]. destruct (decide (raw' = 0)) as [->|]; [lia|].
    change 65536 with (2 ^ 16). apply Z.log2_lt_pow2; [lia|].
    unfold raw'. destruct b.
    + rewrite Z.log2_lor by lia. apply Z.max_lub_lt; [|done].
      destruct (decide (raw = 0)) as [->|]; [done|]. apply Z.log2_lt_pow2; lia.
    + rewrite Z.land_ones by lia. pose proof (Z.mod_pos_bound raw (2 ^ 15) ltac:(lia)).
      destruct (decide (raw `mod` 2 ^ 15 = 0)) as [->|]; [done|]. apply Z.log2_lt_pow2; lia.
  - destruct (Z.eqb_spec (Z.land raw' (2 ^ 15)) 0) as [E|E]; simpl.
    + apply (f_equal (λ z, Z.testbit z 15)) in E. rewrite Z.land_spec, Z.bits_0, Hbits in E by lia.
      rewrite decide_True in E by done. rewrite Z.pow2_bits_true in E by lia. by destruct b.
    + destruct b; [done|]. destruct E. apply Z.bits_inj'. intros k Hk.
      rewrite Z.land_spec, Z.pow2_bits_eqb, Z.bits_0, Hbits by lia.
      case_decide; [done|]. destruct (Z.eqb_spec 15 k); [lia|apply andb_false_r].
Qed.

Lemma set_flag_ok p i b :
  page_wf p →
  let q := set_slot_tombstone_flag i b p in
  page_wf q ∧ contents q = contents p ∧ free_space q = free_space p ∧
  page_id (read_from q) = page_id (read_from p) ∧
  ∀ j, is_slot_tombstone j q =
    if decide (j = i ∧ is_Some (mjoin (contents p !! i))) then b else is_slot_tombstone j p.
Proof.
  intros Hwf q. unfold q, set_slot_tombstone_flag. pose proof (num_slots_range p) as Hnr.
  case_decide as Hi.
  { split_and!; try done. intros j. rewrite decide_False; [done|].
    rewrite contents_lookup, decide_False by lia. intros [_ [? ?]]. discriminate. }
  set (raw' := if b then _ else _). set (q' := copy_at _ _ p).
  destruct (flag_word (slot_raw p i) b (le_at_u16 _ _)) as (Hr1 & Hr2 & Hr3). fold raw' in Hr1, Hr2, Hr3.
  pose proof (wf_slot_fits p i Hwf ltac:(lia)) as Hfit. pose proof (wf_length _ Hwf) as Hlen.
  assert (Hoff : ∀ j, slot_off q' j = slot_off p j).
  { intros j. unfold slot_off, q'. apply le_at_copy_ne; [lia|len; slia]. }
  assert (Hraw : ∀ j, slot_raw q' j = if decide (j = i) then raw' else slot_raw p j).
  { intros j. unfold slot_raw, q'. case_decide as Hji; [rewrite Hji; apply le_at_copy_eq; [lia|done]|].
    apply le_at_copy_ne; [lia|len; slia]. }
  assert (Hh : ∀ a k, (a + k ≤ 32)%nat → le_at a k q' = le_at a k p).
  { intros a k Hak. unfold q'. apply le_at_copy_ne; [lia|len; slia]. }
  destruct (same_view p q') as (Hv1 & Hv2 & Hv3 & Hv4); [done|unfold q'; len|intros; apply Hh; lia| | |].
  { intros j _. split; [done|]. unfold slot_len. rewrite Hraw. case_decide; [by rewrite Hr2; congruence|done]. }
  { intros a k Ha. unfold q'. pose proof (wf_start _ Hwf). pose proof (wf_free _ Hwf).
    apply slice_copy_at_ne; [lia|len; slia]. }
  split_and!; [done..|]. intros j. unfold is_slot_tombstone at 1.
  assert (sp_num_slots q' = sp_num_slots p) as -> by (apply Hh; lia). rewrite Hoff, Hraw.
  rewrite contents_lookup, (decide_True (P := (i < _)%nat)) by lia. cbn [mjoin option_join]. unfold slot_content.
  destruct (decide (j = i)) as [->|Hne].
  - rewrite (decide_False (P := sp_num_slots p ≤ _)) by lia. rewrite Hr3.
    destruct (Z.eqb_spec (slot_off p i) 0) as [Hz|Hz]; cbn [negb andb].
    + rewrite (decide_True (P := slot_off p i = 0)) by done. rewrite decide_False.
      * unfold is_slot_tombstone. rewrite decide_False by lia. by rewrite Hz.
      * intros [_ [? ?]]. discriminate.
    + rewrite (decide_False (P := slot_off p i = 0)) by done. by rewrite decide_True by eauto.
  - rewrite (decide_False (P := j = i ∧ _)) by naive_solver. done.
Qed.

(** ** The page as an abstract machine *)

Inductive op :=
  | OInsert (d : bytes)
  | OGet (i : nat)
  | ODelete (i : nat)
  | OUpdate (i : nat) (d : bytes)
  | OCompact
  | OSetFlag (i : nat) (b : bool)
  | OFlag (i : nat)
  | OFreeSpace
  | OCount.

Inductive answer :=
  | ASlot (i : nat) | AData (d : bytes) | ADone | AFlag (b : bool) | ASpace (z : Z) | ACount (n : nat).

Definition run_op (o : op) : page_m answer :=
  match o with
  | OInsert d => i ← insert d; mret (ASlot i)
  | OGet i => d ← get i; mret (AData d)
  | ODelete i => _ ← delete i; mret ADone
  | OUpdate i d => j ← update i d; mret (ASlot j)
  | OCompact => _ ← compact; mret ADone
  | OSetFlag i b => _ ← st_modify (set_slot_tombstone_flag i b); mret ADone
  | OFlag i => p ← st_get; mret (AFlag (is_slot_tombstone i p))
  | OFreeSpace => p ← st_get; mret (ASpace (free_space p))
  | OCount => p ← st_get; mret (ACount (live_tuple_count p))
  end.

(** The abstract page: one optional tuple per slot, the set of slots that carry
    the MVCC tombstone flag, the number of free bytes. *)
Record apage := APage { ap_cells : list (option bytes); ap_marked : gset nat; ap_room : Z }.

Definition ap_new : apage := APage [] ∅ 8160.

Definition ap_insert (pid : Z) (d : bytes) (s : apage) : res answer * apage :=
  if decide (ap_room s < Z.of_nat (length d) + 4) then (Err (PageFull pid), s)
  else
    let '(i, cs) := spec_insert d (ap_cells s) in
    (Ok (ASlot i), APage cs (ap_marked s) (ap_room s - insert_cost d (ap_cells s))).

Definition ap_delete (i : nat) (s : apage) : apage :=
  APage (<[i := None]> (ap_cells s)) (ap_marked s ∖ {[i]}) (ap_room s).

(** [k] on the tuple of slot [i], or the error of a slot that holds none. *)
Definition with_tuple (pid : Z) (i : nat) (s : apage) (k : bytes → res answer * apage) :
    res answer * apage :=
  match ap_cells s !! i with
  | Some (Some d) => k d
  | _ => (Err (PageNotFound pid), s)
  end.

Definition ap_step (pid : Z) (o : op) (s : apage) : res answer * apage :=
  match o with
  | OInsert d => ap_insert pid d s
  | OGet i => with_tuple pid i s (λ d, (Ok (AData d), s))
  | ODelete i => with_tuple pid i s (λ _, (Ok ADone, ap_delete i s))
  | OUpdate i d => with_tuple pid i s (λ old,
      if decide (length d ≤ length old)%nat then
        (Ok (ASlot i), APage (<[i := Some d]> (ap_cells s)) (ap_marked s ∖ {[i]}) (ap_room s))
      else ap_insert pid d (ap_delete i s))
  | OCompact =>
      let n := Z.of_nat (length (ap_cells s)) in
      (Ok ADone, APage (ap_cells s) ∅ (8192 - 32 - 4 * n - Z.of_nat (live_bytes (ap_cells s))))
  | OSetFlag i b =>
      (Ok ADone, APage (ap_cells s)
         (match ap_cells s !! i with
          | Some (Some _) => if b then {[i]} ∪ ap_marked s else ap_marked s ∖ {[i]}
          | _ => ap_marked s
          end) (ap_room s))
  | OFlag i => (Ok (AFlag (bool_decide (i ∈ ap_marked s))), s)
  | OFreeSpace => (Ok (ASpace (ap_room s)), s)
  | OCount => (Ok (ACount (length (live (ap_cells s)))), s)
  end.

(** The bytes [p] show the abstract page [s]. *)
Record shows (pid : Z) (p : bytes) (s : apage) : Prop := {
  sh_wf : page_wf p;
  sh_id : page_id (read_from p) = pid;
  sh_cells : contents p = ap_cells s;
  sh_room : free_space p = ap_room s;
  sh_marked : ∀ j, is_slot_tombstone j p = bool_decide (j ∈ ap_marked s);
}.

Lemma marked_delete (X : gset nat) i j :
  bool_decide (j ∈ X ∖ {[i]}) = if decide (j = i) then false else bool_decide (j ∈ X).
Proof. case_decide as Hj; [apply bool_decide_eq_false; set_solver|apply bool_decide_ext; set_solver]. Qed.

Lemma marked_insert (X : gset nat) i j :
  bool_decide (j ∈ {[i]} ∪ X) = if decide (j = i) then true else bool_decide (j ∈ X).
Proof. case_decide as Hj; [apply bool_decide_eq_true; set_solver|apply bool_decide_ext; set_solver]. Qed.

Lemma live_tuple_count_ok p : live_tuple_count p = length (live (contents p)).
Proof.
  unfold live_tuple_count, live. rewrite contents_length.
  assert (∀ l, (∀ j, j ∈ l → (j < Z.to_nat (sp_num_slots p))%nat) →
    length (filter (λ i, slot_off p i ≠ 0) l) = length (omap (λ j, pair j <$> mjoin (contents p !! j)) l)) as H.
  { induction l as [|j l IH]; intros Hl; [done|]. rewrite filter_cons. csimpl.
    rewrite contents_lookup, (decide_True (P := (j < _)%nat)) by (apply Hl; set_solver).
    cbn [mjoin option_join]. unfold slot_content. specialize (IH ltac:(intros; apply Hl; set_solver)).
    destruct (decide (slot_off p j = 0)); [rewrite decide_False by auto|rewrite decide_True by done]; csimpl; by rewrite IH. }
  apply H. intros j. rewrite elem_of_seq. lia.
Qed.

Lemma insert_sim pid d p s :
  shows pid p s →
  let '(r, p') := run_op (OInsert d) p in
  r = (ap_insert pid d s).1 ∧ shows pid p' (ap_insert pid d s).2.
Proof.
  intros [Hwf Hid Hc Hr Hm]. unfold run_op, ap_insert. rewrite <- Hr, <- Hc.
  replace (Z.of_nat (length d) + 4) with (Z.of_nat (length d + SLOT_SIZE)) by (unfold SLOT_SIZE; lia).
  case_decide as Hfull.
  - assert (insert d p = (Err (PageFull pid), p)) as E.
    { unfold insert. by rewrite st_get_bind, decide_True, Hid. }
    erewrite st_step_err by exact E. by split.
  - destruct (insert_ok p d Hwf ltac:(lia)) as (p' & Hrun & Hwf' & Hc' & Hid' & Hf & Hfl).
    erewrite st_step by exact Hrun. destruct (spec_insert d (contents p)) as [i cs]. split; [done|].
    constructor; cbn [ap_cells ap_room ap_marked ap_delete fst snd]; [done|congruence|done|done|]. intros j. by rewrite Hfl.
Qed.

Lemma with_tuple_None pid i s k : mjoin (ap_cells s !! i) = None → with_tuple pid i s k = (Err (PageNotFound pid), s).
Proof. unfold with_tuple. by destruct (ap_cells s !! i) as [[?|]|]. Qed.

Lemma with_tuple_Some pid i s k d : ap_cells s !! i = Some (Some d) → with_tuple pid i s k = k d.
Proof. unfold with_tuple. by intros ->. Qed.

Lemma update_sim pid i d p s :
  shows pid p s →
  let '(r, p') := run_op (OUpdate i d) p in
  r = (ap_step pid (OUpdate i d) s).1 ∧ shows pid p' (ap_step pid (OUpdate i d) s).2.
Proof.
  intros [Hwf Hid Hc Hr Hm]. unfold run_op. cbn [ap_step].
  pose proof (update_ok p i d Hwf) as Hg. rewrite Hc in Hg.
  destruct (ap_cells s !! i) as [[old|]|] eqn:E;
    [|rewrite with_tuple_None by (by rewrite E); erewrite st_step_err by exact Hg; rewrite Hid; by split..].
  rewrite (with_tuple_Some _ _ _ _ old) by done. destruct Hg as (r & p' & Hrun & Hwf' & Hid' & Hfl & Hcase).
  assert (Hm' : ∀ j, is_slot_tombstone j p' = bool_decide (j ∈ ap_marked s ∖ {[i]})).
  { intros j. by rewrite Hfl, marked_delete, Hm. }
  case_decide as Hd; [|unfold ap_insert; cbn [ap_delete ap_room ap_cells ap_marked];
    rewrite Hr in Hcase; replace (Z.of_nat (length d + SLOT_SIZE)) with (Z.of_nat (length d) + 4) in Hcase by (unfold SLOT_SIZE; lia);
    case_decide as Hr'].
  - destruct Hcase as (-> & Hc' & Hf). erewrite st_step by exact Hrun. split; [done|].
    constructor; cbn [ap_cells ap_room ap_marked ap_delete fst snd]; [done|congruence|done|congruence|done].
  - destruct Hcase as (-> & Hc' & Hf). erewrite st_step_err by exact Hrun. rewrite Hid. split; [done|].
    constructor; cbn [ap_cells ap_room ap_marked ap_delete fst snd]; [done|congruence|done|congruence|done].
  - destruct Hcase as (-> & Hc' & Hf). erewrite st_step by exact Hrun.
    destruct (spec_insert d _) as [k cs]. split; [done|].
    constructor; cbn [ap_cells ap_room ap_marked ap_delete fst snd]; [done|congruence|done|congruence|done].
Qed.

Lemma run_op_sim pid o p s :
  shows pid p s →
  let '(r, p') := run_op o p in
  r = (ap_step pid o s).1 ∧ shows pid p' (ap_step pid o s).2.
Proof.
  intros Hsh. pose proof Hsh as [Hwf Hid Hc Hr Hm].
  destruct o as [d|i|i|i d| |i b|i| |]; [by apply insert_sim| | |by apply update_sim|..]; unfold run_op; cbn [ap_step].
  - pose proof (get_ok p i Hwf) as Hg. rewrite Hc in Hg.
    destruct (ap_cells s !! i) as [[d|]|] eqn:E;
      [rewrite (with_tuple_Some _ _ _ _ d) by done; erewrite st_step by exact Hg; by split
      |rewrite with_tuple_None by (by rewrite E); erewrite st_step_err by exact Hg; rewrite Hid; by split..].
  - pose proof (delete_ok p i Hwf) as Hg. rewrite Hc in Hg.
    destruct (ap_cells s !! i) as [[d|]|] eqn:E;
      [|rewrite with_tuple_None by (by rewrite E); erewrite st_step_err by exact Hg; rewrite Hid; by split..].
    rewrite (with_tuple_Some _ _ _ _ d) by done. destruct Hg as (p' & Hrun & Hwf' & Hc' & Hid' & Hf & Hfl).
    erewrite st_step by exact Hrun. split; [done|]. constructor; cbn [ap_cells ap_room ap_marked ap_delete fst snd]; [done|congruence|done|congruence|].
    intros j. by rewrite Hfl, marked_delete, Hm.
  - destruct (compact_ok p Hwf) as (p' & Hrun & Hwf' & Hc' & Hid' & Hf & Hfl).
    erewrite st_step by exact Hrun. split; [done|]. constructor; cbn [ap_cells ap_room ap_marked ap_delete fst snd]; [done|congruence|congruence| |done].
    rewrite Hf, Hc. slia.
  - destruct (set_flag_ok p i b Hwf) as (Hwf' & Hc' & Hf & Hid' & Hfl). rewrite st_modify_bind. split; [done|].
    constructor; cbn [ap_cells ap_room ap_marked ap_delete fst snd]; [done|congruence|congruence|congruence|]. intros j. rewrite Hfl, Hc, Hm.
    destruct (ap_cells s !! i) as [[d|]|]; cbn [mjoin option_join];
      [|rewrite decide_False by (intros [_ [? ?]]; discriminate); done..].
    destruct (decide (j = i)) as [->|Hne].
    + rewrite decide_True by eauto. destruct b; rewrite ?marked_insert, ?marked_delete; by rewrite decide_True.
    + rewrite decide_False by naive_solver. destruct b; rewrite ?marked_insert, ?marked_delete; by rewrite decide_False.
  - rewrite st_get_bind. cbn. by rewrite Hm.
  - rewrite st_get_bind. cbn. by rewrite Hr.
  - rewrite st_get_bind. cbn. by rewrite live_tuple_count_ok, Hc.
Qed.

Lemma slotted_new_ok pid :
  is_u32 pid →
  page_wf (slotted_new pid) ∧ contents (slotted_new pid) = [] ∧
  free_space (slotted_new pid) = 8160 ∧ page_id (read_from (slotted_new pid)) = pid.
Proof.
  intros Hpid. pose proof PAGE_SIZE_Z. unfold slotted_new.
  assert (Hz : length zero_page = PAGE_SIZE) by apply length_replicate.
  pose proof (read_write_header (header_new pid Data) zero_page Hz (header_new_ok _ _ Hpid)) as Hrw.
  set (p := write_to _ _) in *.
  assert (Hl : length p = PAGE_SIZE) by (unfold p; by apply length_write_to).
  assert (sp_num_slots p = 0) as Hn by exact (f_equal num_slots Hrw).
  assert (sp_free_space_start p = 32) as Hs by exact (f_equal free_space_start Hrw).
  assert (sp_free_space_end p = Z.of_nat PAGE_SIZE) as He by exact (f_equal free_space_end Hrw).
  split_and!.
  - constructor; rewrite ?Hn, ?Hs, ?He; [done|done|lia|]. split; intros; simpl in *; lia.
  - unfold contents. by rewrite Hn.
  - unfold free_space. rewrite Hs, He. lia.
  - by rewrite Hrw.
Qed.

Fixpoint run_ops (os : list op) (p : bytes) : list (res answer) * bytes :=
  match os with
  | [] => ([], p)
  | o :: os => let '(r, p) := run_op o p in let '(rs, p) := run_ops os p in (r :: rs, p)
  end.

Fixpoint ap_run (pid : Z) (os : list op) (s : apage) : list (res answer) * apage :=
  match os with
  | [] => ([], s)
  | o :: os => let '(r, s) := ap_step pid o s in let '(rs, s) := ap_run pid os s in (r :: rs, s)
  end.

Lemma run_ops_sim pid os p s :
  shows pid p s →
  let '(rs, p') := run_ops os p in
  rs = (ap_run pid os s).1 ∧ shows pid p' (ap_run pid os s).2.
Proof.
  revert p s. induction os as [|o os IH]; intros p s Hsh; cbn [run_ops ap_run]; [done|].
  pose proof (run_op_sim pid o p s Hsh) as Hs. destruct (run_op o p) as [r p1], (ap_step pid o s) as [r' s1].
  destruct Hs as [-> Hsh1]. specialize (IH p1 s1 Hsh1).
  destruct (run_ops os p1) as [rs p2], (ap_run pid os s1) as [rs' s2]. by destruct IH as [-> ?].
Qed.

Lemma ap_step_no_panic pid o s : (ap_step pid o s).1 ≠ Panic.
Proof.
  assert (∀ d s, (ap_insert pid d s).1 ≠ Panic) as Hi.
  { intros d t. unfold ap_insert. case_decide; [done|]. by destruct (spec_insert d (ap_cells t)). }
  destruct o; cbn [ap_step]; unfold with_tuple; repeat (case_match || case_decide); auto.
Qed.

Lemma ap_run_no_panic pid os s : Forall (λ r, r ≠ Panic) (ap_run pid os s).1.
Proof.
  revert s. induction os as [|o os IH]; intros s; cbn [ap_run]; [constructor|].
  pose proof (ap_step_no_panic pid o s) as Hp. destruct (ap_step pid o s) as [r s1]. specialize (IH s1).
  destruct (ap_run pid os s1) as [rs s2]. by constructor.
Qed.

(** C2: From a fresh page, every sequence of insert, get, delete, update, compact,
    tombstone-flag, free-space and live-count operations gives exactly the answers
    of a deterministic abstract page (optional tuples, flagged slots, free bytes),
    [PageFull] and [PageNotFound] included, and ends in bytes that show its state:
    an insert is refused only when the free bytes do not hold the tuple and an
    entry, compaction gives back the bytes of dead tuples and clears the flags, a
    flag set is read back; no operation panics and the page stays well formed. *)
Theorem slotted_refines (pid : Z) (os : list op) :
  is_u32 pid →
  let '(rs, p) := run_ops os (slotted_new pid) in
  let '(rs', s) := ap_run pid os ap_new in
  rs = rs' ∧ shows pid p s ∧ Forall (λ r, r ≠ Panic) rs.
Proof.
  intros Hpid. destruct (slotted_new_ok pid Hpid) as (Hwf & Hc & Hf & Hid).
  assert (shows pid (slotted_new pid) ap_new) as Hsh.
  { constructor; [done..|]. intros j. rewrite flag_outside; [symmetry; apply bool_decide_eq_false; set_solver|].
    pose proof (contents_length (slotted_new pid)) as Hl. rewrite Hc in Hl. simpl in Hl.
    pose proof (num_slots_range (slotted_new pid)). lia. }
  pose proof (run_ops_sim pid os _ _ Hsh) as Hs. pose proof (ap_run_no_panic pid os ap_new) as Hp.
  destruct (run_ops os _) as [rs p], (ap_run pid os ap_new) as [rs' s]. by destruct Hs as [-> ?].
Qed.

Lemma slotted_refines_witness :
  let os := [OInsert (str "ab"); OInsert (str "c"); OSetFlag 1 true; OFlag 1; ODelete 0;
             OInsert (str "def"); OUpdate 1 (str "longer"); OFreeSpace; OCompact; OFreeSpace;
             OFlag 1; OGet 0; OCount] in
  (run_ops os (slotted_new 3)).1 =
    [Ok (ASlot 0); Ok (ASlot 1); Ok ADone; Ok (AFlag true); Ok ADone; Ok (ASlot 0); Ok (ASlot 1);
     Ok (ASpace 8140); Ok ADone; Ok (ASpace 8143); Ok (AFlag false); Ok (AData (str "def"));
     Ok (ACount 2)] ∧
  shows 3 (run_ops os (slotted_new 3)).2 (ap_run 3 os ap_new).2.
Proof.
  intros os. pose proof (slotted_refines 3 os ltac:(unfold is_u32; lia)) as H.
  destruct (run_ops os (slotted_new 3)) as [rs p]. cbn [fst snd].
  destruct (ap_run 3 os ap_new) as [rs' s] eqn:E. destruct H as (-> & Hsh & _). split; [|done].
  change rs' with (rs', s).1. rewrite <- E. vm_compute. reflexivity.
Defined.

Example slotted_run :
  (run_ops [OInsert (str "ab"); OInsert (str "c"); ODelete 0; OInsert (str "def");
            OUpdate 1 (str "longer"); OCompact; OGet 0; OGet 2] (slotted_new 3)).1 =
  [Ok (ASlot 0); Ok (ASlot 1); Ok ADone; Ok (ASlot 0); Ok (ASlot 1); Ok ADone;
   Ok (AData (str "def")); Err (PageNotFound 3)].
Proof. vm_compute. reflexivity. Qed.

(** Compaction of a well-formed page keeps every slot and its tuple, and
    afterwards the free space is exactly the page minus the header, the slot array
    and the live tuple bytes. *)
Theorem compact_preserves (p : bytes) :
  page_wf p →
  ∃ p', compact p = (Ok tt, p') ∧ page_wf p' ∧ contents p' = contents p ∧
    free_space p' = 8192 - 32 - 4 * Z.of_nat (length (contents p)) -
                    Z.of_nat (live_bytes (contents p)).
Proof.
  intros Hwf. destruct (compact_ok p Hwf) as (p' & Hr & Hwf' & Hc & _ & Hf & _).
  exists p'. split_and!; [done..|]. rewrite Hf. slia.
Qed.

Lemma compact_preserves_witness :
  ∃ p', compact (slotted_new 1) = (Ok tt, p') ∧ page_wf p' ∧
    contents p' = contents (slotted_new 1) ∧
    free_space p' = 8192 - 32 - 4 * Z.of_nat (length (contents (slotted_new 1))) -
                    Z.of_nat (live_bytes (contents (slotted_new 1))).
Proof. apply compact_preserves. apply slotted_new_ok. unfold is_u32. lia. Defined.

(** An insert on a well-formed page succeeds exactly when the free space
    holds the tuple and a slot entry, and then the tuple reads back from the
    returned slot while every other slot answers as before. *)
Theorem insert_get (p d : bytes) :
  page_wf p →
  if decide (Z.of_nat (length d + 4) ≤ free_space p) then
    ∃ i p', insert d p = (Ok i, p') ∧ page_wf p' ∧ (get i p').1 = Ok d ∧
      ∀ j, j ≠ i → (get j p').1 = (get j p).1
  else insert d p = (Err (PageFull (page_id (read_from p))), p).
Proof.
  intros Hwf. case_decide as Hr.
  - destruct (insert_ok p d Hwf ltac:(unfold SLOT_SIZE; lia)) as (p' & Hrun & Hwf' & Hc & Hid & _).
    exists (spec_insert d (contents p)).1, p'. split_and!; [done..| |].
    + rewrite get_ok by done. rewrite Hc. unfold spec_insert.
      destruct (list_find _ _) as [[k o]|] eqn:E; cbn [fst snd].
      * apply list_find_Some in E as (Hk & _). rewrite list_lookup_insert_eq; [done|].
        by eapply lookup_lt_Some.
      * by rewrite lookup_app_r, Nat.sub_diag by lia.
    + intros j Hj. rewrite !get_ok by done. rewrite Hc, Hid. unfold spec_insert in *.
      destruct (list_find _ _) as [[k o]|] eqn:E; cbn [fst snd] in *.
      * by rewrite list_lookup_insert_ne by done.
      * destruct (decide (j < length (contents p))%nat).
        -- by rewrite lookup_app_l by done.
        -- rewrite !lookup_ge_None_2; [done|lia|]. rewrite length_app. simpl. lia.
  - unfold insert. rewrite st_get_bind, decide_True; [done|]. unfold SLOT_SIZE. lia.
Qed.

Lemma insert_get_witness :
  ∃ i p', insert (str "x") (slotted_new 1) = (Ok i, p') ∧ page_wf p' ∧ (get i p').1 = Ok (str "x") ∧
    ∀ j, j ≠ i → (get j p').1 = (get j (slotted_new 1)).1.
Proof.
  destruct (slotted_new_ok 1 ltac:(unfold is_u32; lia)) as (Hwf & _ & Hf & _).
  pose proof (insert_get (slotted_new 1) (str "x") Hwf) as H.
  rewrite decide_True in H; [exact H|]. rewrite Hf. simpl. lia.
Defined.

(** The MVCC tombstone bit and the tuples are independent: setting or
    clearing the flag of a slot keeps every tuple and every other flag, while
    [compact] and an in-place [update] clear the flag of the slots they rewrite. *)
Theorem tombstone_flag (p : bytes) (i : nat) (b : bool) :
  page_wf p →
  (let q := set_slot_tombstone_flag i b p in
   page_wf q ∧ contents q = contents p ∧
   (∀ j, j ≠ i → is_slot_tombstone j q = is_slot_tombstone j p) ∧
   (is_Some (mjoin (contents p !! i)) → is_slot_tombstone i q = b)) ∧
  (∀ j, is_slot_tombstone j (compact p).2 = false) ∧
  (∀ old d, contents p !! i = Some (Some old) → (length d ≤ length old)%nat →
     is_slot_tombstone i (update i d p).2 = false).
Proof.
  intros Hwf. split_and!.
  - destruct (set_flag_ok p i b Hwf) as (H1 & H2 & _ & _ & H3). split_and!; [done..| |].
    + intros j Hj. rewrite H3, decide_False; [done|naive_solver].
    + intros Hs. by rewrite H3, decide_True.
  - intros j. destruct (compact_ok p Hwf) as (p' & -> & _ & _ & _ & _ & Hc). apply Hc.
  - intros old d Hc Hd. rewrite contents_lookup in Hc. case_decide as Hi; [|done].
    injection Hc as Hc. unfold slot_content in Hc. case_decide as Hz; [done|]. injection Hc as <-.
    destruct (update_in_place p i d Hwf Hi Hz) as (p' & -> & _ & _ & _ & _ & Ht); [|cbn [snd]; rewrite Ht; by rewrite decide_True].
    pose proof (slot_len_range p i). unfold slice in Hd. rewrite length_take in Hd. lia.
Qed.

Lemma tombstone_flag_witness :
  let p := (insert (str "x") (slotted_new 1)).2 in
  let q := set_slot_tombstone_flag 0 true p in
  is_slot_tombstone 0 q = true ∧ contents q = [Some (str "x")] ∧
  ∀ j, is_slot_tombstone j (compact p).2 = false.
Proof.
  destruct (slotted_new_ok 1 ltac:(unfold is_u32; lia)) as (Hwf & _ & Hf & _).
  destruct (insert_ok (slotted_new 1) (str "x") Hwf) as (p' & Hp & Hwf' & _).
  { rewrite Hf. vm_compute. discriminate. }
  rewrite Hp. cbn [snd].
  destruct (tombstone_flag p' 0 true Hwf') as ((_ & Hc & _ & Ht) & Hcomp & _).
  assert (contents p' = [Some (str "x")]) as Hcp.
  { replace p' with ((insert (str "x") (slotted_new 1)).2) by (by rewrite Hp).
    vm_compute. reflexivity. }
  split; [|split; [|exact Hcomp]].
  - apply Ht. rewrite Hcp. exists (str "x"). reflexivity.
  - rewrite Hc. exact Hcp.
Defined.
