(* ===== verification/PageManager.v ===== *)
(** * The page manager (src/src/page/manager.rs)

    The data file is its bytes; [seek] + [write_all] overwrites or extends it and
    [read_exact] past the end is an I/O error.  [PageStore] is what the manager
    promises to its clients (overflow chains, the buffer pool): a map of the pages
    they own, separate from the free list; [PageManager_store] discharges it. *)

From stdpp Require Import gmap.
From S2P Require Import Prelude RustStd Page.

Local Open Scope Z_scope.

(** ** Files *)

Definition file_write (off : nat) (d f : bytes) : bytes :=
  copy_at off d (f ++ replicate (off - length f) x00).

Definition file_read_exact (off n : nat) (f : bytes) : res bytes :=
  if decide (off + n ≤ length f)%nat then Ok (slice off n f) else Err Io.

Record PageManager := mkPM { file : bytes; num_pages : Z }.

Abbreviation pm_m := (ST PageManager GrumpyError).

Definition page_off (pid : Z) : nat := Z.to_nat (pid * Z.of_nat PAGE_SIZE).

Section PageManager.
Context `{Crc32}.

(** [PageManager::new]: [None] when the path does not exist. *)
Definition pm_new (existing : option bytes) : PageManager :=
  match existing with
  | None | Some [] =>
      let buf := write_to (header_new 0 FreeList) zero_page in
      let buf := copy_at PAGE_HEADER_SIZE (to_le 4 0) buf in
      mkPM (file_write 0 buf []) 1
  | Some f => mkPM f ((Z.of_nat (length f) `div` Z.of_nat PAGE_SIZE) `mod` 4294967296)
  end.

Definition read_page (pid : Z) : pm_m bytes :=
  pm ← st_get;
  if decide (num_pages pm ≤ pid) then st_fail (PageNotFound pid)
  else
    buf ← st_lift (file_read_exact (page_off pid) PAGE_SIZE (file pm));
    _ ← st_lift (verify_checksum buf pid);
    mret buf.

(** [seek(page_id * PAGE_SIZE); write_all(buf)] *)
Definition write_at (pid : Z) (buf : bytes) : pm_m unit :=
  st_modify (λ pm, mkPM (file_write (page_off pid) buf (file pm)) (num_pages pm)).

Definition write_page (pid : Z) (data : bytes) : pm_m unit :=
  pm ← st_get;
  if decide (num_pages pm ≤ pid) then st_fail (PageNotFound pid)
  else write_at pid (stamp_checksum data).

(** The loop of [read_free_list]. *)
Fixpoint get_free_ids (i n : nat) (buf : bytes) : list Z :=
  match n with
  | O => []
  | S n =>
      let offset := (PAGE_HEADER_SIZE + 4 + i * 4)%nat in
      if decide (PAGE_SIZE < offset + 4)%nat then []
      else le_at offset 4 buf :: get_free_ids (S i) n buf
  end.

Definition free_list_of (buf : bytes) : list Z :=
  get_free_ids 0 (Z.to_nat (le_at PAGE_HEADER_SIZE 4 buf)) buf.

Definition read_free_list : pm_m (list Z) :=
  buf ← read_page 0; mret (free_list_of buf).

(** The loop of [write_free_list]. *)
Fixpoint put_free_ids (i : nat) (ids : list Z) (buf : bytes) : bytes :=
  match ids with
  | [] => buf
  | pid :: ids =>
      let offset := (PAGE_HEADER_SIZE + 4 + i * 4)%nat in
      if decide (PAGE_SIZE < offset + 4)%nat then buf
      else put_free_ids (S i) ids (copy_at offset (to_le 4 pid) buf)
  end.

Definition write_free_list (ids : list Z) : pm_m unit :=
  let buf := write_to (header_new 0 FreeList) zero_page in
  let buf := copy_at PAGE_HEADER_SIZE (to_le 4 (Z.of_nat (length ids))) buf in
  write_page 0 (put_free_ids 0 ids buf).

Definition pop_free_list : pm_m (option Z) :=
  ids ← read_free_list;
  match last ids with
  | Some pid => _ ← write_free_list (removelast ids); mret (Some pid)
  | None => mret None
  end.

Definition push_free_list (pid : Z) : pm_m unit :=
  ids ← read_free_list; write_free_list (ids ++ [pid]).

Definition free_list_capacity : nat := ((PAGE_SIZE - PAGE_HEADER_SIZE - 4) / 4)%nat.

Definition allocate_page : pm_m Z :=
  found ← pop_free_list;
  match found with
  | Some pid => mret pid
  | None =>
      pm ← st_get;
      let pid := num_pages pm in
      _ ← write_at pid (write_to (header_new pid Free) zero_page);
      if decide (pid = u32_max) then st_lift Panic
      else
        _ ← st_modify (λ pm, mkPM (file pm) (num_pages pm + 1));
        mret pid
  end.

Definition free_page (pid : Z) : pm_m unit :=
  if decide (pid = 0) then st_fail (PageNotFound 0)
  else
    pm ← st_get;
    if decide (num_pages pm ≤ pid) then st_fail (PageNotFound pid)
    else
      _ ← write_page pid (write_to (header_new pid Free) zero_page);
      push_free_list pid.
End PageManager.

(** ** The contract *)

(** What a store of pages promises.  [ps_rep s m]: the client of store [s] owns
    the pages of [m], holding those bytes.  [ps_room s]: how many pages can still
    be allocated. *)
Class PageStore (C : Crc32) (S : Type) := {
  ps_alloc : ST S GrumpyError Z;
  ps_read : Z → ST S GrumpyError bytes;
  ps_write : Z → bytes → ST S GrumpyError unit;
  ps_free : Z → ST S GrumpyError unit;
  ps_rep : S → gmap Z bytes → Prop;
  ps_room : S → Z;
  ps_alloc_ok : ∀ s m, ps_rep s m → 0 < ps_room s →
    ∃ pid s' d, ps_alloc s = (Ok pid, s') ∧ pid ≠ 0 ∧ m !! pid = None ∧
      ps_rep s' (<[pid := d]> m) ∧ ps_room s' = ps_room s - 1;
  ps_read_ok : ∀ s m pid d, ps_rep s m → m !! pid = Some d → ps_read pid s = (Ok d, s);
  ps_write_ok : ∀ s m pid d0 d, ps_rep s m → m !! pid = Some d0 → length d = PAGE_SIZE →
    ∃ s', ps_write pid d s = (Ok tt, s') ∧ ps_rep s' (<[pid := stamp_checksum d]> m) ∧
      ps_room s' = ps_room s;
  ps_free_ok : ∀ s m pid d0, ps_rep s m → m !! pid = Some d0 →
    ∃ s', ps_free pid s = (Ok tt, s') ∧ ps_rep s' (delete pid m) ∧ ps_room s ≤ ps_room s';
  ps_owned : ∀ s m pid d, ps_rep s m → m !! pid = Some d → 0 < pid < 4294967296 ∧ length d = PAGE_SIZE;
}.

(** ** The file as an array of pages *)

Definition page_at (pid : Z) (pm : PageManager) : bytes := slice (page_off pid) PAGE_SIZE (file pm).
Definition set_page (pid : Z) (d : bytes) (pm : PageManager) : PageManager :=
  mkPM (file_write (page_off pid) d (file pm)) (num_pages pm).

(** Every page below [num_pages] is on disk. *)
Definition pm_sized (pm : PageManager) : Prop :=
  1 ≤ num_pages pm ≤ u32_max ∧ num_pages pm * 8192 ≤ Z.of_nat (length (file pm)).

Lemma page_off_Z pid : 0 ≤ pid → Z.of_nat (page_off pid) = pid * 8192.
Proof. intros. unfold page_off. rewrite PAGE_SIZE_Z. lia. Qed.

Ltac pgs :=
  repeat match goal with
  | |- context [page_off ?p] =>
      lazymatch goal with
      | _ : Z.of_nat (page_off p) = _ |- _ => fail
      | _ => pose proof (page_off_Z p ltac:(lia))
      end
  end.

Lemma file_write_in off d f : (off ≤ length f)%nat → file_write off d f = copy_at off d f.
Proof.
  intros Hle. unfold file_write. replace (off - length f)%nat with 0%nat by lia.
  by rewrite app_nil_r.
Qed.

Lemma length_file_write off d f :
  (off ≤ length f)%nat → length (file_write off d f) = (length f `max` (off + length d))%nat.
Proof.
  intros Hle. rewrite file_write_in by done. unfold copy_at.
  rewrite !length_app, length_take, length_drop. lia.
Qed.

Section set_page.
Context (pid : Z) (d : bytes) (pm : PageManager).
Hypothesis Hsz : pm_sized pm.
Hypothesis Hpid : 0 ≤ pid ≤ num_pages pm.
Hypothesis Hd : length d = PAGE_SIZE.

Lemma set_page_sized : pm_sized (set_page pid d pm).
Proof.
  unfold pm_sized in *. simpl. pgs. rewrite length_file_write; lia.
Qed.

Lemma page_at_set q :
  0 ≤ q → q < num_pages pm ∨ q = pid →
  page_at q (set_page pid d pm) = if decide (q = pid) then d else page_at q pm.
Proof.
  intros Hq Hq'. unfold pm_sized in *. pose proof PAGE_SIZE_Z. unfold page_at. simpl.
  pgs. rewrite file_write_in by lia. case_decide as E.
  - subst q. apply list_eq. intros i. rewrite lookup_slice. case_decide as Hi.
    + rewrite lookup_copy_at by lia. rewrite decide_True by lia. f_equal. lia.
    + symmetry. apply lookup_ge_None_2. lia.
  - apply slice_copy_at_ne; [lia|]. rewrite Hd.
    destruct (decide (q < pid)); [left; nia|right; nia].
Qed.
End set_page.

Lemma page_at_length pm pid :
  pm_sized pm → 0 ≤ pid < num_pages pm → length (page_at pid pm) = PAGE_SIZE.
Proof.
  intros Hsz Hp. unfold pm_sized in *. pose proof PAGE_SIZE_Z. unfold page_at. pgs.
  apply length_slice_le. nia.
Qed.

(** ** The free list on page 0 *)

Lemma length_put_free_ids i ids buf :
  length buf = PAGE_SIZE → length (put_free_ids i ids buf) = PAGE_SIZE.
Proof.
  revert i buf. induction ids as [|pid ids IH]; intros i buf Hl; [done|]. cbn [put_free_ids].
  case_decide; [done|]. apply IH. rewrite length_copy_at; [done|]. len.
Qed.

Lemma le_at_put_free_ids i ids buf o :
  length buf = PAGE_SIZE → (o + 4 ≤ 36 + i * 4)%nat →
  le_at o 4 (put_free_ids i ids buf) = le_at o 4 buf.
Proof.
  revert i buf. induction ids as [|pid ids IH]; intros i buf Hl Ho; [done|]. cbn [put_free_ids].
  case_decide as Hfit; [done|]. unfold PAGE_HEADER_SIZE in *.
  rewrite IH by (rewrite ?length_copy_at; len; lia).
  rewrite le_at_copy_ne by (len; lia). done.
Qed.

Lemma get_put_free_ids i ids buf :
  length buf = PAGE_SIZE → Forall is_u32 ids →
  get_free_ids i (length ids) (put_free_ids i ids buf) = take (2039 - i) ids.
Proof.
  revert i buf. induction ids as [|pid ids IH]; intros i buf Hl Hu; [by rewrite take_nil|].
  apply Forall_cons in Hu as [Hp Hu]. cbn [put_free_ids get_free_ids length].
  pose proof PAGE_SIZE_Z. unfold PAGE_HEADER_SIZE in *. case_decide as Hfit.
  { by replace (2039 - i)%nat with 0%nat by lia. }
  replace (2039 - i)%nat with (S (2039 - S i)) by lia. cbn [take].
  rewrite le_at_put_free_ids, le_at_copy_eq, IH by (rewrite ?length_copy_at; len; done || lia).
  done.
Qed.

Lemma length_get_free_ids i n buf : (length (get_free_ids i n buf) ≤ 2039 - i)%nat.
Proof.
  revert i. induction n as [|n IH]; intros i; [simpl; lia|]. cbn [get_free_ids].
  pose proof PAGE_SIZE_Z. unfold PAGE_HEADER_SIZE. case_decide; [simpl; lia|].
  simpl. specialize (IH (S i)). lia.
Qed.

Lemma get_free_ids_u32 i n buf : Forall is_u32 (get_free_ids i n buf).
Proof.
  revert i. induction n as [|n IH]; intros i; [constructor|]. cbn [get_free_ids].
  case_decide; constructor; [apply le_at_u32|apply IH].
Qed.

Definition free_list_page (ids : list Z) : bytes :=
  put_free_ids 0 ids
    (copy_at PAGE_HEADER_SIZE (to_le 4 (Z.of_nat (length ids)))
       (write_to (header_new 0 FreeList) zero_page)).

Lemma length_free_list_page ids : length (free_list_page ids) = PAGE_SIZE.
Proof.
  apply length_put_free_ids. pose proof PAGE_SIZE_Z.
  pose proof (length_write_to (header_new 0 FreeList) zero_page length_zero_page).
  rewrite length_copy_at; [done|]. unfold PAGE_HEADER_SIZE. len.
Qed.

(** What is written reads back, up to the capacity of the page. *)
Lemma free_list_roundtrip `{Crc32} ids :
  Forall is_u32 ids → Z.of_nat (length ids) ≤ u32_max →
  free_list_of (stamp_checksum (free_list_page ids)) = take 2039 ids.
Proof.
  intros Hu Hlen. pose proof PAGE_SIZE_Z. unfold u32_max in *.
  pose proof (length_free_list_page ids) as Hl. unfold free_list_of.
  assert (Hstamp : ∀ o, (32 ≤ o)%nat → le_at o 4 (stamp_checksum (free_list_page ids)) =
    le_at o 4 (free_list_page ids)) by (intros; apply le_at_stamp; [done|lia]).
  assert (Hget : ∀ i n, get_free_ids i n (stamp_checksum (free_list_page ids)) =
    get_free_ids i n (free_list_page ids)).
  { intros i n. revert i. induction n as [|n IH]; intros i; [done|]. cbn [get_free_ids].
    case_decide; [done|]. rewrite Hstamp, IH by (unfold PAGE_HEADER_SIZE; lia). done. }
  pose proof (length_write_to (header_new 0 FreeList) zero_page length_zero_page) as Hw.
  rewrite Hget, Hstamp by (unfold PAGE_HEADER_SIZE; lia). unfold free_list_page, PAGE_HEADER_SIZE.
  rewrite le_at_put_free_ids by (rewrite ?length_copy_at; len).
  rewrite le_at_copy_eq by (len; lia). rewrite Nat2Z.id.
  rewrite get_put_free_ids; [done| |done]. rewrite length_copy_at; len.
Qed.

(** ** The operations on a well-formed manager *)

Section operations.
Context `{C : Crc32}.

Definition free_ids (pm : PageManager) : list Z := free_list_of (page_at 0 pm).

(** All pages verify; the free list holds distinct user pages. *)
Record pm_inv (pm : PageManager) : Prop := {
  inv_sized : pm_sized pm;
  inv_verify : ∀ pid, 0 ≤ pid < num_pages pm → verify_checksum (page_at pid pm) pid = Ok tt;
  inv_free_nodup : NoDup (free_ids pm);
  inv_free_range : Forall (λ pid, 1 ≤ pid < num_pages pm) (free_ids pm);
}.

Lemma read_page_ok pm pid :
  pm_inv pm → 0 ≤ pid < num_pages pm → read_page pid pm = (Ok (page_at pid pm), pm).
Proof.
  intros [Hsz Hv _ _] Hp. unfold read_page. rewrite st_get_bind, decide_False by lia.
  unfold file_read_exact. rewrite decide_True.
  2:{ unfold pm_sized in *. pose proof PAGE_SIZE_Z. pgs. nia. }
  unfold st_lift at 1. erewrite st_step by reflexivity. fold (page_at pid pm).
  erewrite st_step by (unfold st_lift; by rewrite Hv). done.
Qed.

Lemma write_page_run pm pid d :
  pid < num_pages pm → write_page pid d pm = (Ok tt, set_page pid (stamp_checksum d) pm).
Proof. intros. unfold write_page. by rewrite st_get_bind, decide_False by lia. Qed.

(** Replacing a user page by a stamped one keeps the invariant. *)
Lemma inv_set_page pm pid d :
  pm_inv pm → 1 ≤ pid < num_pages pm → length d = PAGE_SIZE →
  pm_inv (set_page pid (stamp_checksum d) pm) ∧
  free_ids (set_page pid (stamp_checksum d) pm) = free_ids pm.
Proof.
  intros [Hsz Hv Hnd Hr] Hp Hd. pose proof (length_stamp d Hd) as Hl.
  assert (Hf : free_ids (set_page pid (stamp_checksum d) pm) = free_ids pm).
  { unfold free_ids. rewrite page_at_set by (done || lia). by rewrite decide_False by lia. }
  split; [|done]. constructor; rewrite ?Hf; [apply set_page_sized; (done || lia)| |done|done].
  intros q Hq. simpl in Hq. rewrite page_at_set by (done || lia).
  case_decide; [by apply verify_stamp|by apply Hv].
Qed.

(** Writing a free list that fits the page replaces the free list. *)
Lemma write_free_list_ok pm ids :
  pm_inv pm → NoDup ids → Forall (λ pid, 1 ≤ pid < num_pages pm) ids →
  Z.of_nat (length ids) ≤ u32_max →
  ∃ pm', write_free_list ids pm = (Ok tt, pm') ∧ pm_inv pm' ∧ num_pages pm' = num_pages pm ∧
    free_ids pm' = take 2039 ids ∧ ∀ q, 1 ≤ q < num_pages pm → page_at q pm' = page_at q pm.
Proof.
  intros [Hsz Hv _ _] Hnd Hr Hlen. pose proof (length_free_list_page ids) as Hl.
  pose proof (length_stamp _ Hl) as Hls. assert (Hn : 1 ≤ num_pages pm ≤ u32_max) by apply Hsz.
  exists (set_page 0 (stamp_checksum (free_list_page ids)) pm).
  assert (Hf : free_ids (set_page 0 (stamp_checksum (free_list_page ids)) pm) = take 2039 ids).
  { unfold free_ids. rewrite page_at_set by (done || lia). rewrite decide_True by done.
    apply free_list_roundtrip; [|done]. eapply Forall_impl; [exact Hr|].
    unfold is_u32, u32_max in *. simpl. lia. }
  split_and!; [unfold write_free_list; apply write_page_run; lia| |done|done|].
  - constructor; rewrite ?Hf; [apply set_page_sized; (done || lia)| | |].
    + intros q Hq. simpl in Hq. rewrite page_at_set by (done || lia).
      case_decide; [by apply verify_stamp|by apply Hv].
    + eapply sublist_NoDup; [exact Hnd|apply sublist_take].
    + by apply Forall_take.
  - intros q Hq. rewrite page_at_set by (done || lia). by rewrite decide_False by lia.
Qed.

Lemma free_ids_short pm : (length (free_ids pm) ≤ 2039)%nat.
Proof. pose proof (length_get_free_ids 0 (Z.to_nat (le_at PAGE_HEADER_SIZE 4 (page_at 0 pm))) (page_at 0 pm)). unfold free_ids, free_list_of. lia. Qed.

Lemma read_free_list_ok pm : pm_inv pm → read_free_list pm = (Ok (free_ids pm), pm).
Proof.
  intros Hinv. unfold read_free_list. pose proof (inv_sized _ Hinv) as [Hn _].
  by erewrite st_step by (apply read_page_ok; [done|lia]).
Qed.

Lemma allocate_reuse pm pid :
  pm_inv pm → last (free_ids pm) = Some pid →
  ∃ pm', allocate_page pm = (Ok pid, pm') ∧ pm_inv pm' ∧ num_pages pm' = num_pages pm ∧
    free_ids pm = free_ids pm' ++ [pid] ∧ ∀ q, 1 ≤ q < num_pages pm → page_at q pm' = page_at q pm.
Proof.
  intros Hinv Hlast. pose proof (free_ids_short pm) as Hshort.
  apply last_Some in Hlast as [ids Hids].
  pose proof (inv_free_nodup _ Hinv) as Hnd. pose proof (inv_free_range _ Hinv) as Hr.
  rewrite Hids in Hnd, Hr, Hshort. apply NoDup_app in Hnd as (Hnd & _ & _).
  apply Forall_app in Hr as [Hr _]. rewrite length_app in Hshort. simpl in Hshort.
  destruct (write_free_list_ok pm ids Hinv Hnd Hr) as (pm' & Hrun & Hinv' & Hn & Hf & Hpg).
  { unfold u32_max. lia. }
  exists pm'. rewrite take_ge in Hf by lia. split_and!; [|done..|by rewrite Hids, Hf|done].
  assert (Hpop : pop_free_list pm = (Ok (Some pid), pm')).
  { unfold pop_free_list. erewrite st_step by (by apply read_free_list_ok).
    rewrite Hids, last_snoc, removelast_last. by erewrite st_step by exact Hrun. }
  unfold allocate_page. by erewrite st_step by exact Hpop.
Qed.

Lemma allocate_extend pm :
  pm_inv pm → free_ids pm = [] → num_pages pm < u32_max →
  let pid := num_pages pm in
  ∃ pm', allocate_page pm = (Ok pid, pm') ∧ pm_inv pm' ∧ num_pages pm' = num_pages pm + 1 ∧
    free_ids pm' = [] ∧ page_at pid pm' = write_to (header_new pid Free) zero_page ∧
    ∀ q, 0 ≤ q < num_pages pm → page_at q pm' = page_at q pm.
Proof.
  intros Hinv Hnil Hroom pid. pose proof Hinv as [Hsz Hv _ _]. pose proof Hsz as [Hn _].
  set (d := write_to (header_new pid Free) zero_page).
  assert (Hd : length d = PAGE_SIZE) by apply length_write_to, length_zero_page.
  set (pm1 := set_page pid d pm).
  pose proof (set_page_sized pid d pm Hsz ltac:(lia) Hd) as Hsz1.
  pose proof (page_at_set pid d pm Hsz ltac:(lia) Hd) as Hpa. fold pm1 in Hsz1, Hpa.
  exists (mkPM (file pm1) (num_pages pm1 + 1)).
  assert (Hpage : ∀ q, 0 ≤ q < num_pages pm → page_at q pm1 = page_at q pm).
  { intros q Hq. rewrite Hpa by lia. by rewrite decide_False by (unfold pid; lia). }
  assert (Hnew : page_at pid pm1 = d) by (rewrite Hpa by lia; by rewrite decide_True).
  assert (Hpop : pop_free_list pm = (Ok None, pm)).
  { unfold pop_free_list. erewrite st_step by (by apply read_free_list_ok). by rewrite Hnil. }
  assert (Hf : free_ids (mkPM (file pm1) (num_pages pm1 + 1)) = []).
  { rewrite <- Hnil. unfold free_ids. change (page_at 0 (mkPM _ _)) with (page_at 0 pm1).
    by rewrite Hpage by lia. }
  split_and!; [| |done|done|done|done].
  - unfold allocate_page. erewrite st_step by exact Hpop. cbv beta iota. rewrite st_get_bind.
    unfold write_at. rewrite st_modify_bind. fold pid d. rewrite decide_False by (unfold pid; lia).
    done.
  - constructor; rewrite ?Hf; [|..|constructor|constructor].
    + destruct Hsz as [_ Hsz]. split; cbn [file num_pages set_page pm1]; [lia|].
      pose proof (page_off_Z pid ltac:(lia)) as Hoff. fold pid in Hsz.
      rewrite length_file_write by lia. rewrite Hd. plia.
    + intros q Hq. simpl in Hq. change (page_at q (mkPM _ _)) with (page_at q pm1).
      destruct (decide (q = pid)) as [->|Hne].
      * rewrite Hnew. unfold verify_checksum. rewrite decide_True; [done|].
        pose proof (read_write_header (header_new pid Free) zero_page length_zero_page) as Hrw.
        specialize (Hrw ltac:(apply header_new_ok; unfold is_u32, u32_max in *; lia)).
        exact (f_equal checksum Hrw).
      * rewrite Hpage by lia. apply Hv. lia.
Qed.

Lemma free_page_ok pm pid :
  pm_inv pm → 1 ≤ pid < num_pages pm → pid ∉ free_ids pm →
  ∃ pm', free_page pid pm = (Ok tt, pm') ∧ pm_inv pm' ∧ num_pages pm' = num_pages pm ∧
    free_ids pm' = take 2039 (free_ids pm ++ [pid]) ∧
    ∀ q, 1 ≤ q < num_pages pm → q ≠ pid → page_at q pm' = page_at q pm.
Proof.
  intros Hinv Hp Hfresh. pose proof (free_ids_short pm) as Hshort.
  pose proof (inv_sized _ Hinv) as Hsz.
  set (d := write_to (header_new pid Free) zero_page).
  assert (Hd : length d = PAGE_SIZE) by apply length_write_to, length_zero_page.
  destruct (inv_set_page pm pid d Hinv Hp Hd) as [Hinv1 Hf1].
  pose proof (inv_free_nodup _ Hinv) as Hnd. pose proof (inv_free_range _ Hinv) as Hr.
  destruct (write_free_list_ok _ (free_ids pm ++ [pid]) Hinv1) as (pm' & Hrun & Hinv' & Hn & Hf & Hpg).
  { apply NoDup_app. split_and!; [done| |apply NoDup_singleton].
    intros x Hx ->%list_elem_of_singleton. done. }
  { apply Forall_app. split; [done|]. by constructor. }
  { rewrite length_app. unfold u32_max. simpl. lia. }
  exists pm'. split_and!; [|done..|].
  - unfold free_page. rewrite decide_False by lia. rewrite st_get_bind, decide_False by lia.
    erewrite st_step by (apply write_page_run; lia). unfold push_free_list.
    erewrite st_step by (by apply read_free_list_ok). fold d. rewrite Hf1. exact Hrun.
  - intros q Hq Hne. rewrite Hpg by done. pose proof (length_stamp d Hd).
    rewrite page_at_set by (done || lia). by rewrite decide_False.
Qed.

(** ** The manager implements the contract *)

Definition pm_rep (pm : PageManager) (m : gmap Z bytes) : Prop :=
  pm_inv pm ∧ ∀ pid d, m !! pid = Some d →
    1 ≤ pid < num_pages pm ∧ pid ∉ free_ids pm ∧ page_at pid pm = d.

Definition pm_room (pm : PageManager) : Z :=
  u32_max - num_pages pm + Z.of_nat (length (free_ids pm)).

Lemma pm_alloc_ok pm m :
  pm_rep pm m → 0 < pm_room pm →
  ∃ pid pm' d, allocate_page pm = (Ok pid, pm') ∧ pid ≠ 0 ∧ m !! pid = None ∧
    pm_rep pm' (<[pid := d]> m) ∧ pm_room pm' = pm_room pm - 1.
Proof.
  intros [Hinv Hm] Hroom. unfold pm_room in *. destruct (last (free_ids pm)) as [pid|] eqn:Hl.
  - destruct (allocate_reuse pm pid Hinv Hl) as (pm' & Hrun & Hinv' & Hn & Hf & Hpg).
    pose proof (inv_free_range _ Hinv) as Hr. rewrite Hf, Forall_app, Forall_singleton in Hr.
    pose proof (inv_free_nodup _ Hinv) as Hnd. rewrite Hf in Hnd.
    apply NoDup_app in Hnd as (Hnd & Hdis & _).
    exists pid, pm', (page_at pid pm'). split_and!; [done|lia| | |].
    + destruct (m !! pid) as [d|] eqn:E; [|done]. destruct (Hm pid d E) as (_ & Hnf & _).
      destruct Hnf. rewrite Hf. apply elem_of_app. right. by constructor.
    + split; [done|]. intros q d [[<- <-]|[Hne Hq]]%lookup_insert_Some.
      * split_and!; [lia|lia| |done]. intros Hin. apply (Hdis pid Hin). by constructor.
      * destruct (Hm q d Hq) as (? & Hnf & <-). rewrite Hn. split_and!; [lia|lia| |by apply Hpg].
        intros Hin. apply Hnf. rewrite Hf. apply elem_of_app. by left.
    + rewrite Hf, Hn, length_app. simpl. lia.
  - apply last_None in Hl. rewrite Hl in *. simpl in Hroom.
    destruct (allocate_extend pm Hinv Hl ltac:(lia)) as (pm' & Hrun & Hinv' & Hn & Hf & Hnew & Hpg).
    pose proof (inv_sized _ Hinv) as [Hpos _].
    exists (num_pages pm), pm', (page_at (num_pages pm) pm'). split_and!; [done|lia| | |].
    + destruct (m !! num_pages pm) as [d|] eqn:E; [|done]. destruct (Hm _ d E). lia.
    + split; [done|]. rewrite Hn, Hf. intros q d [[<- <-]|[Hne Hq]]%lookup_insert_Some.
      * split_and!; [lia|lia|apply not_elem_of_nil|done].
      * destruct (Hm q d Hq) as (? & _ & <-).
        split_and!; [lia|lia|apply not_elem_of_nil|apply Hpg; lia].
    + rewrite Hf, Hn. simpl. lia.
Qed.

Lemma pm_read_ok pm m pid d :
  pm_rep pm m → m !! pid = Some d → read_page pid pm = (Ok d, pm).
Proof.
  intros [Hinv Hm] Hd. destruct (Hm pid d Hd) as (Hp & _ & <-). apply read_page_ok; [done|lia].
Qed.

Lemma pm_write_ok pm m pid d0 d :
  pm_rep pm m → m !! pid = Some d0 → length d = PAGE_SIZE →
  ∃ pm', write_page pid d pm = (Ok tt, pm') ∧ pm_rep pm' (<[pid := stamp_checksum d]> m) ∧
    pm_room pm' = pm_room pm.
Proof.
  intros [Hinv Hm] Hd0 Hd. destruct (Hm pid d0 Hd0) as (Hp & Hnf & _).
  destruct (inv_set_page pm pid d Hinv Hp Hd) as [Hinv1 Hf1]. pose proof (length_stamp d Hd).
  exists (set_page pid (stamp_checksum d) pm). split_and!.
  - apply write_page_run. lia.
  - split; [done|]. rewrite Hf1. simpl. pose proof (inv_sized _ Hinv) as Hsz.
    intros q e [[<- <-]|[Hne Hq]]%lookup_insert_Some.
    + split_and!; [lia|lia|done|]. rewrite page_at_set by (done || lia). by rewrite decide_True.
    + destruct (Hm q e Hq) as (? & ? & <-). split_and!; [lia|lia|done|].
      rewrite page_at_set by (done || lia). by rewrite decide_False.
  - unfold pm_room. by rewrite Hf1.
Qed.

Lemma pm_free_ok pm m pid d0 :
  pm_rep pm m → m !! pid = Some d0 →
  ∃ pm', free_page pid pm = (Ok tt, pm') ∧ pm_rep pm' (delete pid m) ∧ pm_room pm ≤ pm_room pm'.
Proof.
  intros [Hinv Hm] Hd0. destruct (Hm pid d0 Hd0) as (Hp & Hnf & _).
  destruct (free_page_ok pm pid Hinv Hp Hnf) as (pm' & Hrun & Hinv' & Hn & Hf & Hpg).
  exists pm'. split_and!; [done| |].
  - split; [done|]. intros q e [Hne Hq]%lookup_delete_Some.
    destruct (Hm q e Hq) as (? & Hnq & <-). rewrite Hn. split_and!; [lia|lia| |by apply Hpg].
    intros Hin. rewrite Hf in Hin. apply (elem_of_take _ _ _) in Hin as (i & Hin & _).
    apply list_elem_of_lookup_2, elem_of_app in Hin as [?|?%list_elem_of_singleton]; [done|].
    congruence.
  - unfold pm_room. rewrite Hf, Hn, length_take, length_app. pose proof (free_ids_short pm). cbn [length]. lia.
Qed.

Lemma pm_owned pm m pid d :
  pm_rep pm m → m !! pid = Some d → 0 < pid < 4294967296 ∧ length d = PAGE_SIZE.
Proof.
  intros [Hinv Hm] Hd. destruct (Hm pid d Hd) as (Hp & _ & <-).
  pose proof (inv_sized _ Hinv) as Hsz. split.
  - destruct Hsz as [Hsz _]. unfold u32_max in *. lia.
  - apply page_at_length; [done|lia].
Qed.

#[export] Instance PageManager_store : PageStore C PageManager := {|
  ps_alloc := allocate_page;
  ps_read := read_page;
  ps_write := write_page;
  ps_free := free_page;
  ps_rep := pm_rep;
  ps_room := pm_room;
  ps_alloc_ok := pm_alloc_ok;
  ps_read_ok := pm_read_ok;
  ps_write_ok := pm_write_ok;
  ps_free_ok := pm_free_ok;
  ps_owned := pm_owned;
|}.

(** ** Opening a file *)

Lemma pm_new_ok : pm_rep (pm_new None) ∅ ∧ num_pages (pm_new None) = 1 ∧ free_ids (pm_new None) = [].
Proof.
  pose proof PAGE_SIZE_Z as HP.
  pose proof (length_write_to (header_new 0 FreeList) zero_page length_zero_page) as Hw.
  set (d := copy_at PAGE_HEADER_SIZE (to_le 4 0) (write_to (header_new 0 FreeList) zero_page)).
  assert (Hd : length d = PAGE_SIZE)
    by (unfold d, PAGE_HEADER_SIZE; rewrite length_copy_at; len).
  assert (Hpage : page_at 0 (pm_new None) = d).
  { unfold page_at, pm_new, page_off. rewrite Z.mul_0_l. change (Z.to_nat 0) with 0%nat. fold d.
    cbn [file]. unfold file_write, copy_at. cbn [take app Nat.sub replicate length].
    rewrite drop_nil, app_nil_r, <- Hd. apply slice_all. }
  assert (Hsz : pm_sized (pm_new None)).
  { unfold pm_sized, pm_new. fold d. cbn [file num_pages]. unfold file_write, copy_at.
    cbn [take app Nat.sub replicate length]. rewrite drop_nil, app_nil_r. unfold u32_max. lia. }
  assert (Hle : le_at 28 4 d = 0 ∧ le_at 32 4 d = 0).
  { unfold d, PAGE_HEADER_SIZE. split; [|apply le_at_copy_eq; len].
    rewrite le_at_copy_ne by (len; lia).
    pose proof (read_write_header (header_new 0 FreeList) zero_page length_zero_page
      ltac:(apply header_new_ok; unfold is_u32; lia)) as Hrw. exact (f_equal checksum Hrw). }
  assert (Hf : free_ids (pm_new None) = []).
  { unfold free_ids, free_list_of. rewrite Hpage. change PAGE_HEADER_SIZE with 32%nat.
    by rewrite (proj2 Hle). }
  split_and!; [|done|done]. split; [constructor; rewrite ?Hf; [done| |constructor|constructor]|].
  - intros pid Hp. cbn [pm_new num_pages] in Hp. assert (pid = 0) as -> by lia.
    rewrite Hpage. unfold verify_checksum. by rewrite decide_True by apply Hle.
  - intros pid e He. by rewrite lookup_empty in He.
Qed.

(** Reopening the file of a manager whose file holds whole pages gives it back. *)
Lemma pm_reopen pm :
  pm_sized pm → Z.of_nat (length (file pm)) = num_pages pm * 8192 → pm_new (Some (file pm)) = pm.
Proof.
  intros [Hn _] Hlen. destruct pm as [f n]. cbn [file num_pages] in *. unfold pm_new.
  destruct f as [|b f]; [simpl in Hlen; lia|]. rewrite PAGE_SIZE_Z, Hlen, Z.div_mul by lia.
  rewrite Z.mod_small by (unfold u32_max in *; lia). done.
Qed.
End operations.

(** ** Theorems *)

Section theorems.
Context `{C : Crc32}.

(** C12: A new file owns no page; afterwards allocation never fails before the
    32-bit page numbers run out and returns a page nobody owns, a write is what the
    next read returns (with its checksum stamped), and writing, allocating or freeing
    one page leaves every other owned page as it was. *)
Theorem page_manager_contract :
  pm_rep (pm_new None) ∅ ∧
  ∀ pm m, pm_rep pm m →
    (0 < pm_room pm → ∃ pid pm' d, allocate_page pm = (Ok pid, pm') ∧ pid ≠ 0 ∧
       m !! pid = None ∧ pm_rep pm' (<[pid := d]> m)) ∧
    (∀ pid d, m !! pid = Some d →
       read_page pid pm = (Ok d, pm) ∧
       (∀ d', length d' = PAGE_SIZE → ∃ pm', write_page pid d' pm = (Ok tt, pm') ∧
          pm_rep pm' (<[pid := stamp_checksum d']> m)) ∧
       (∃ pm', free_page pid pm = (Ok tt, pm') ∧ pm_rep pm' (delete pid m))).
Proof.
  split; [apply pm_new_ok|]. intros pm m Hrep. split.
  - intros Hroom. destruct (pm_alloc_ok pm m Hrep Hroom) as (pid & pm' & d & H1 & H2 & H3 & H4 & _).
    by exists pid, pm', d.
  - intros pid d Hd. split_and!; [by eapply pm_read_ok| |].
    + intros d' Hd'. destruct (pm_write_ok pm m pid d d' Hrep Hd Hd') as (pm' & ? & ? & _). eauto.
    + destruct (pm_free_ok pm m pid d Hrep Hd) as (pm' & ? & ? & _). eauto.
Qed.

(** The free list is a stack while page 0 has room for it: a freed page is the
    next one allocated and the file does not grow.  When page 0 already holds 2039
    entries the freed page is dropped from the list and never allocated again. *)
Theorem free_then_allocate (pm : PageManager) (pid : Z) :
  pm_inv pm → 1 ≤ pid < num_pages pm → pid ∉ free_ids pm →
  ∃ pm1 pm2 got, free_page pid pm = (Ok tt, pm1) ∧ allocate_page pm1 = (Ok got, pm2) ∧
    num_pages pm2 = num_pages pm ∧
    if decide (length (free_ids pm) < 2039)%nat then got = pid ∧ free_ids pm2 = free_ids pm
    else Some got = last (free_ids pm) ∧ got ≠ pid ∧ pid ∉ free_ids pm2 ∧ free_ids pm1 = free_ids pm.
Proof.
  intros Hinv Hp Hnf. pose proof (free_ids_short pm) as Hshort.
  destruct (free_page_ok pm pid Hinv Hp Hnf) as (pm1 & Hfree & Hinv1 & Hn1 & Hf1 & _).
  assert (∃ got, last (free_ids pm1) = Some got) as [got Hgot].
  { rewrite Hf1. destruct (free_ids pm ++ [pid]) as [|x l] eqn:E; [by destruct (free_ids pm)|].
    change 2039%nat with (S 2038). cbn [take]. destruct (last (x :: take 2038 l)) eqn:El; eauto.
    by apply last_None in El. }
  destruct (allocate_reuse pm1 got Hinv1 Hgot) as (pm2 & Hal & Hinv2 & Hn2 & Hf2 & _).
  exists pm1, pm2, got. split_and!; [done|done|lia|]. case_decide as Hcap.
  - rewrite take_ge in Hf1 by (rewrite length_app; cbn [length]; lia).
    rewrite Hf2 in Hf1. apply app_inj_2 in Hf1 as [-> [= ->]]; done.
  - assert (Hsame : free_ids pm1 = free_ids pm).
    { rewrite Hf1, take_app_le by lia. apply take_ge. lia. }
    rewrite Hsame in Hgot, Hf2. split_and!; [done| | |done].
    + intros ->. apply Hnf. rewrite Hf2. apply elem_of_app. right. by constructor.
    + intros Hin. apply Hnf. rewrite Hf2. apply elem_of_app. by left.
Qed.
End theorems.

Lemma free_then_allocate_witness :
  let C := crc32_ieee in
  ∃ pm, allocate_page (pm_new None) = (Ok 1, pm) ∧
  ∃ pm1 pm2 got, free_page 1 pm = (Ok tt, pm1) ∧ allocate_page pm1 = (Ok got, pm2) ∧
    num_pages pm2 = num_pages pm ∧
    if decide (length (free_ids pm) < 2039)%nat then got = 1 ∧ free_ids pm2 = free_ids pm
    else Some got = last (free_ids pm) ∧ got ≠ 1 ∧ 1 ∉ free_ids pm2 ∧ free_ids pm1 = free_ids pm.
Proof.
  intros C. destruct pm_new_ok as ([Hinv _] & Hn & Hf).
  destruct (allocate_extend (pm_new None) Hinv Hf) as (pm & Hal & Hinv1 & Hn1 & Hf1 & _).
  { rewrite Hn. unfold u32_max. lia. }
  rewrite Hn in Hal, Hn1. exists pm. split; [exact Hal|].
  apply free_then_allocate; [done|lia|rewrite Hf1; apply not_elem_of_nil].
Defined.
