(* ===== verification/Overflow.v ===== *)
(** * Overflow chains (src/src/page/overflow.rs)

    Written against the [PageStore] interface.  The two [while] loops run on fuel
    and answer [None] when they are still running: on a chain of [n] pages, fuel
    [n] is enough (a damaged chain may loop forever in the code as well). *)

From stdpp Require Import gmap.
From S2P Require Import Prelude RustStd Page PageManager.

Local Open Scope Z_scope.

Definition OVERFLOW_REF_SIZE : nat := 9.

Definition encode_overflow_ref (first_page_id total_len : Z) : bytes :=
  to_le 1 OVERFLOW_MARKER ++ to_le 4 first_page_id ++ to_le 4 total_len.

Definition decode_overflow_ref (data : bytes) : option (Z * Z) :=
  if decide (length data < OVERFLOW_REF_SIZE)%nat then None
  else if decide (le_at 0 1 data ≠ OVERFLOW_MARKER) then None
  else Some (le_at 1 4 data, le_at 5 4 data).

Definition is_overflow (data : bytes) : bool :=
  match data with
  | [] => false
  | b :: _ => (b2z b =? OVERFLOW_MARKER) && (length data =? OVERFLOW_REF_SIZE)%nat
  end.

(** [slice::chunks] *)
Fixpoint chunks_fuel (fuel n : nat) (l : bytes) : list bytes :=
  match fuel, l with
  | S fuel, _ :: _ => take n l :: chunks_fuel fuel n (drop n l)
  | _, _ => []
  end.
Definition chunks (n : nat) (l : bytes) : list bytes := chunks_fuel (length l) n l.

Section overflow.
Context {C : Crc32} {S : Type} {PS : PageStore C S}.
Implicit Types (s : S) (m : gmap Z bytes).

Fixpoint alloc_pages (n : nat) : ST S GrumpyError (list Z) :=
  match n with
  | O => mret []
  | Datatypes.S n => pid ← ps_alloc; rest ← alloc_pages n; mret (pid :: rest)
  end.

Definition overflow_page (pid next : Z) (chunk : bytes) : bytes :=
  let h := header_new pid Overflow in
  let h := {| page_id := page_id h; page_type := page_type h; flags := flags h;
              num_slots := Z.of_nat (length chunk) `mod` 65536;
              free_space_start := free_space_start h; free_space_end := free_space_end h;
              next_page_id := next; prev_page_id := prev_page_id h; lsn := lsn h;
              checksum := checksum h |} in
  copy_at PAGE_HEADER_SIZE chunk (write_to h zero_page).

(** The loop over [page_ids.iter().zip(chunks.iter())]; the link is the next page
    id of the list, [0] for the last. *)
Fixpoint write_chain (ids : list Z) (cs : list bytes) : ST S GrumpyError unit :=
  match ids, cs with
  | pid :: ids, c :: cs =>
      _ ← ps_write pid (overflow_page pid (default 0 (head ids)) c);
      write_chain ids cs
  | _, _ => mret tt
  end.

Definition write_overflow (data : bytes) : ST S GrumpyError Z :=
  let cs := chunks PAGE_USABLE_SPACE data in
  page_ids ← alloc_pages (length cs);
  _ ← write_chain page_ids cs;
  match page_ids with
  | pid :: _ => mret pid
  | [] => st_lift Panic
  end.

Fixpoint read_chain (fuel : nat) (current_id : Z) (result : bytes) (s : S) :
    option (res bytes * S) :=
  if decide (current_id = 0) then Some (Ok result, s) else
  match fuel with
  | O => None
  | Datatypes.S fuel =>
      match ps_read current_id s with
      | (Ok buf, s) =>
          let header := read_from buf in
          let chunk_len := Z.to_nat (num_slots header) in
          if decide (PAGE_HEADER_SIZE + chunk_len ≤ PAGE_SIZE)%nat then
            read_chain fuel (next_page_id header)
              (result ++ slice PAGE_HEADER_SIZE chunk_len buf) s
          else Some (Panic, s)
      | (Err e, s) => Some (Err e, s)
      | (Panic, s) => Some (Panic, s)
      end
  end.

Definition read_overflow (fuel : nat) (first_page_id : Z) : S → option (res bytes * S) :=
  read_chain fuel first_page_id [].

Fixpoint free_overflow (fuel : nat) (current_id : Z) (s : S) : option (res unit * S) :=
  if decide (current_id = 0) then Some (Ok tt, s) else
  match fuel with
  | O => None
  | Datatypes.S fuel =>
      match ps_read current_id s with
      | (Ok buf, s) =>
          let next := next_page_id (read_from buf) in
          match ps_free current_id s with
          | (Ok _, s) => free_overflow fuel next s
          | (Err e, s) => Some (Err e, s)
          | (Panic, s) => Some (Panic, s)
          end
      | (Err e, s) => Some (Err e, s)
      | (Panic, s) => Some (Panic, s)
      end
  end.

(** ** Chunks *)

Lemma chunks_spec n l fuel :
  (0 < n)%nat → (length l ≤ fuel)%nat →
  concat (chunks_fuel fuel n l) = l ∧ Forall (λ c, length c ≤ n)%nat (chunks_fuel fuel n l) ∧
  (l ≠ [] → chunks_fuel fuel n l ≠ []).
Proof.
  intros Hn. revert l. induction fuel as [|fuel IH]; intros l Hl.
  { destruct l; [|simpl in Hl; lia]. done. }
  destruct l as [|b l]; [done|]. cbn [chunks_fuel].
  destruct (IH (drop n (b :: l))) as (H1 & H2 & _).
  { rewrite length_drop. cbn [length] in *. lia. }
  split_and!; [|constructor; [rewrite length_take; lia|done]|done].
  cbn [concat]. rewrite H1. apply take_drop.
Qed.

(** ** Chains in the owned map *)

Definition linked (m : gmap Z bytes) (pid next : Z) (c : bytes) : Prop :=
  ∃ d, m !! pid = Some d ∧ num_slots (read_from d) = Z.of_nat (length c) ∧
    next_page_id (read_from d) = next ∧ slice 32 (length c) d = c ∧
    (length c ≤ PAGE_USABLE_SPACE)%nat.

Fixpoint chain (m : gmap Z bytes) (ids : list Z) (cs : list bytes) : Prop :=
  match ids, cs with
  | [], [] => True
  | pid :: ids, c :: cs => linked m pid (default 0 (head ids)) c ∧ chain m ids cs
  | _, _ => False
  end.

Lemma chain_mono m m' ids cs :
  (∀ pid, pid ∈ ids → m' !! pid = m !! pid) → chain m ids cs → chain m' ids cs.
Proof.
  revert cs. induction ids as [|pid ids IH]; intros [|c cs] Hm; simpl; try done.
  intros [(d & Hd & Hrest) Hc]. split; [|apply IH; [set_solver|done]].
  exists d. rewrite Hm by set_solver. done.
Qed.

Lemma overflow_page_spec pid next c :
  is_u32 pid → is_u32 next → (length c ≤ PAGE_USABLE_SPACE)%nat →
  let d := overflow_page pid next c in
  length d = PAGE_SIZE ∧ num_slots (read_from (stamp_checksum d)) = Z.of_nat (length c) ∧
  next_page_id (read_from (stamp_checksum d)) = next ∧
  slice 32 (length c) (stamp_checksum d) = c.
Proof.
  intros Hp Hn Hc d. unfold d, overflow_page. set (h := mkPageHeader _ _ _ _ _ _ _ _ _ _).
  assert (Hh : header_ok h).
  { destruct (header_new_ok pid Overflow Hp) as (?&?&?&?&?&?&?&?&?).
    unfold header_ok, h; cbn [page_id flags num_slots free_space_start free_space_end next_page_id
      prev_page_id lsn checksum]. unfold is_u16 at 1. split_and!; try done;
      pose proof (Z.mod_pos_bound (Z.of_nat (length c)) 65536); lia. }
  pose proof (length_write_to h zero_page length_zero_page) as Hw.
  pose proof (read_write_header h zero_page length_zero_page Hh) as Hr.
  assert (Hl : length (copy_at PAGE_HEADER_SIZE c (write_to h zero_page)) = PAGE_SIZE)
    by (rewrite length_copy_at; plia).
  destruct (read_from_stamp _ Hl) as (_ & Hs1 & Hs2 & _). rewrite Hs1, Hs2.
  assert (Hkeep : ∀ o n, (o + n ≤ 32)%nat →
    le_at o n (copy_at PAGE_HEADER_SIZE c (write_to h zero_page)) = le_at o n (write_to h zero_page)).
  { intros. apply le_at_copy_ne; plia. }
  split_and!; [done| | |].
  - cbn [read_from num_slots]. rewrite Hkeep by lia.
    transitivity (num_slots h); [exact (f_equal num_slots Hr)|]. unfold h. cbn [num_slots].
    apply Z.mod_small. plia.
  - cbn [read_from next_page_id]. rewrite Hkeep by lia. exact (f_equal next_page_id Hr).
  - rewrite slice_stamp by (lia || exact Hl). apply slice_copy_at_eq. plia.
Qed.

(** ** The operations *)

Lemma alloc_pages_ok n s m :
  ps_rep s m → Z.of_nat n ≤ ps_room s →
  ∃ ids s' m', alloc_pages n s = (Ok ids, s') ∧ length ids = n ∧ NoDup ids ∧
    ps_rep s' m' ∧ (∀ pid, pid ∈ ids → m !! pid = None ∧ is_Some (m' !! pid)) ∧
    (∀ pid, pid ∉ ids → m' !! pid = m !! pid) ∧ ps_room s' = ps_room s - Z.of_nat n.
Proof.
  revert s m. induction n as [|n IH]; intros s m Hrep Hroom.
  { exists [], s, m. split_and!; [done|done|constructor|done|set_solver|done|lia]. }
  destruct (ps_alloc_ok s m Hrep ltac:(lia)) as (pid & s1 & d & Hal & Hne & Hfresh & Hrep1 & Hroom1).
  destruct (IH s1 (<[pid:=d]> m) Hrep1 ltac:(lia)) as (ids & s2 & m2 & Hrun & Hlen & Hnd & Hrep2 & Hin & Hout & Hr2).
  assert (Hpid : pid ∉ ids).
  { intros Hp. destruct (Hin pid Hp) as [Hx _]. by rewrite lookup_insert_eq in Hx. }
  exists (pid :: ids), s2, m2. split_and!; [|simpl; lia|by constructor|done| | |lia].
  - cbn [alloc_pages]. erewrite st_step by exact Hal. by erewrite st_step by exact Hrun.
  - intros q [->|Hq]%elem_of_cons.
    + split; [done|]. rewrite Hout by done. rewrite lookup_insert_eq. eauto.
    + destruct (Hin q Hq) as [Hn Hs]. split; [|done].
      apply lookup_insert_None in Hn. naive_solver.
  - intros q Hq. apply not_elem_of_cons in Hq as [Hq1 Hq2]. rewrite Hout by done.
    by apply lookup_insert_ne.
Qed.

Lemma write_chain_ok ids cs s m :
  ps_rep s m → NoDup ids → (∀ pid, pid ∈ ids → is_Some (m !! pid)) → length ids = length cs →
  Forall (λ c, length c ≤ PAGE_USABLE_SPACE)%nat cs →
  ∃ s' m', write_chain ids cs s = (Ok tt, s') ∧ ps_rep s' m' ∧ chain m' ids cs ∧
    (∀ pid, pid ∉ ids → m' !! pid = m !! pid) ∧ ps_room s' = ps_room s.
Proof.
  revert cs s m. induction ids as [|pid ids IH]; intros [|c cs] s m Hrep Hnd Hin Hlen Hcs; try done.
  { exists s, m. done. }
  apply NoDup_cons in Hnd as [Hpid Hnd]. apply Forall_cons in Hcs as [Hc Hcs].
  destruct (Hin pid ltac:(set_solver)) as [d0 Hd0].
  assert (Hnext : is_u32 (default 0 (head ids))).
  { destruct ids as [|q ids]; simpl; [unfold is_u32; lia|].
    destruct (Hin q ltac:(set_solver)) as [e He].
    destruct (ps_owned s m q e Hrep He). unfold is_u32. lia. }
  destruct (overflow_page_spec pid (default 0 (head ids)) c) as (Hl & Hs1 & Hs2 & Hs3);
    [|done|done|].
  { destruct (ps_owned s m pid d0 Hrep Hd0). unfold is_u32. lia. }
  destruct (ps_write_ok s m pid d0 _ Hrep Hd0 Hl) as (s1 & Hw & Hrep1 & Hr1).
  destruct (IH cs s1 _ Hrep1 Hnd) as (s2 & m2 & Hrun & Hrep2 & Hch & Hout & Hr2).
  { intros q Hq. rewrite lookup_insert_ne by set_solver. apply Hin. set_solver. }
  { simpl in Hlen. lia. } { done. }
  exists s2, m2. split_and!; [|done| | |lia].
  - cbn [write_chain]. by erewrite st_step by exact Hw.
  - split; [|done]. eexists. split; [by rewrite Hout, lookup_insert_eq by done|]. done.
  - intros q [Hq1 Hq2]%not_elem_of_cons. rewrite Hout by done. by apply lookup_insert_ne.
Qed.

Lemma read_chain_ok ids cs s m fuel acc :
  ps_rep s m → chain m ids cs → (length ids ≤ fuel)%nat →
  read_chain fuel (default 0 (head ids)) acc s = Some (Ok (acc ++ concat cs), s).
Proof.
  intros Hrep. revert cs fuel acc.
  induction ids as [|pid ids IH]; intros [|c cs] fuel acc Hch Hfuel; try done.
  { simpl. rewrite app_nil_r. by destruct fuel. }
  destruct Hch as [(d & Hd & Hn & Hnext & Hsl & Hc) Hch]. cbn [length] in Hfuel.
  destruct fuel as [|fuel]; [lia|]. destruct (ps_owned s m pid d Hrep Hd) as [Hp _].
  change (default 0 (head (pid :: ids))) with pid. cbn [read_chain]. rewrite decide_False by lia.
  rewrite (ps_read_ok s m pid d Hrep Hd). cbv zeta. rewrite Hn, Nat2Z.id.
  rewrite decide_True by plia. rewrite Hnext. unfold PAGE_HEADER_SIZE. rewrite Hsl.
  rewrite (IH cs) by (done || lia). by rewrite <- app_assoc.
Qed.

Lemma free_chain_ok ids cs s m fuel :
  ps_rep s m → chain m ids cs → NoDup ids → (length ids ≤ fuel)%nat →
  ∃ s' m', free_overflow fuel (default 0 (head ids)) s = Some (Ok tt, s') ∧ ps_rep s' m' ∧
    ∀ pid, m' !! pid = if decide (pid ∈ ids) then None else m !! pid.
Proof.
  revert cs s m fuel.
  induction ids as [|pid ids IH]; intros [|c cs] s m fuel Hrep Hch Hnd Hfuel; try done.
  { exists s, m. split_and!; [by destruct fuel|done|]. intros. by rewrite decide_False by set_solver. }
  destruct Hch as [(d & Hd & Hn & Hnext & Hsl & Hc) Hch]. cbn [length] in Hfuel.
  apply NoDup_cons in Hnd as [Hpid Hnd].
  destruct fuel as [|fuel]; [lia|]. destruct (ps_owned s m pid d Hrep Hd) as [Hp _].
  destruct (ps_free_ok s m pid d Hrep Hd) as (s1 & Hfree & Hrep1 & _).
  destruct (IH cs s1 (delete pid m) fuel Hrep1) as (s2 & m2 & Hrun & Hrep2 & Hm2); [|done|lia|].
  { eapply chain_mono; [|exact Hch]. intros q Hq. apply lookup_delete_ne. set_solver. }
  exists s2, m2. split_and!; [|done|].
  - change (default 0 (head (pid :: ids))) with pid. cbn [free_overflow]. rewrite decide_False by lia.
    rewrite (ps_read_ok s m pid d Hrep Hd). cbv zeta. rewrite Hfree, Hnext. exact Hrun.
  - intros q. rewrite Hm2. destruct (decide (q = pid)) as [->|Hne].
    + rewrite decide_False by done. rewrite decide_True by set_solver. apply lookup_delete_eq.
    + rewrite lookup_delete_ne by done. repeat case_decide; set_solver.
Qed.

(** The pages [ids] that a write of [data] allocates, and what they hold. *)
Lemma write_overflow_ok s m (data : bytes) :
  ps_rep s m → data ≠ [] →
  let cs := chunks PAGE_USABLE_SPACE data in
  Z.of_nat (length cs) ≤ ps_room s →
  ∃ pid ids s' m', write_overflow data s = (Ok pid, s') ∧ ps_rep s' m' ∧ concat cs = data ∧
    length (pid :: ids) = length cs ∧ NoDup (pid :: ids) ∧ chain m' (pid :: ids) cs ∧
    (∀ q, q ∈ pid :: ids → m !! q = None) ∧ (∀ q, q ∉ pid :: ids → m' !! q = m !! q) ∧
    ps_room s' = ps_room s - Z.of_nat (length cs).
Proof.
  intros Hrep Hdata cs Hroom.
  destruct (chunks_spec PAGE_USABLE_SPACE data (length data)) as (Hcat & Hle & Hne); [plia|lia|].
  fold (chunks PAGE_USABLE_SPACE data) cs in Hcat, Hle, Hne.
  destruct (alloc_pages_ok (length cs) s m Hrep Hroom) as (ids & s1 & m1 & Hal & Hlen & Hnd & Hrep1 & Hin & Hout & Hr1).
  destruct (write_chain_ok ids cs s1 m1) as (s2 & m2 & Hw & Hrep2 & Hch & Hout2 & Hr2);
    [done|done|intros; by apply Hin|done|done|].
  destruct ids as [|pid ids]; [destruct cs; [by destruct Hne|done]|].
  exists pid, ids, s2, m2. split_and!; [|done|done|done|done|done|intros; by apply Hin| |lia].
  - unfold write_overflow. fold cs. erewrite st_step by exact Hal. by erewrite st_step by exact Hw.
  - intros q Hq. by rewrite Hout2, Hout.
Qed.

(** With room for the pages, writing non-empty data to an overflow chain gives
    a first page from which the data reads back whole, no owned page is disturbed,
    and freeing the chain gives back exactly the pages owned before. *)
Theorem overflow_roundtrip s m (data : bytes) :
  ps_rep s m → data ≠ [] →
  let n := length (chunks PAGE_USABLE_SPACE data) in
  Z.of_nat n ≤ ps_room s →
  ∃ pid s' m', write_overflow data s = (Ok pid, s') ∧ ps_rep s' m' ∧ m ⊆ m' ∧
    (∀ fuel, (n ≤ fuel)%nat → read_overflow fuel pid s' = Some (Ok data, s')) ∧
    (∀ fuel, (n ≤ fuel)%nat → ∃ s'', free_overflow fuel pid s' = Some (Ok tt, s'') ∧ ps_rep s'' m).
Proof.
  intros Hrep Hdata n Hroom.
  destruct (write_overflow_ok s m data Hrep Hdata Hroom)
    as (pid & ids & s2 & m2 & Hw & Hrep2 & Hcat & Hlen & Hnd & Hch & Hin & Hout & _).
  exists pid, s2, m2. split_and!; [done|done| | |].
  - apply map_subseteq_spec. intros q d Hq. destruct (decide (q ∈ pid :: ids)) as [Hq'|Hq'].
    + specialize (Hin q Hq'). congruence.
    + by rewrite Hout.
  - intros fuel Hfuel. pose proof (read_chain_ok (pid :: ids) _ s2 m2 fuel [] Hrep2 Hch ltac:(lia)) as Hrd.
    rewrite Hcat in Hrd. exact Hrd.
  - intros fuel Hfuel.
    destruct (free_chain_ok (pid :: ids) _ s2 m2 fuel Hrep2 Hch Hnd ltac:(lia)) as (s3 & m3 & Hf & Hrep3 & Hm3).
    exists s3. split; [done|]. replace m with m3; [done|]. apply map_eq. intros q. rewrite Hm3.
    case_decide as Hq; [symmetry; by apply Hin|]. by rewrite Hout.
Qed.

(** [write_overflow] of empty data panics, whatever the store. *)
Lemma overflow_empty_panics s : write_overflow [] s = (Panic, s).
Proof. reflexivity. Qed.
End overflow.

(** An overflow reference reads back, is recognised as one, and decoding
    never accepts a slot shorter than nine bytes or without the marker. *)
Theorem overflow_ref_roundtrip (pid n : Z) (data : bytes) :
  is_u32 pid → is_u32 n →
  decode_overflow_ref (encode_overflow_ref pid n) = Some (pid, n) ∧
  is_overflow (encode_overflow_ref pid n) = true ∧
  (is_overflow data = true → ∃ p k, is_u32 p ∧ is_u32 k ∧ data = encode_overflow_ref p k).
Proof.
  intros Hp Hn. unfold encode_overflow_ref. split_and!.
  - unfold decode_overflow_ref. rewrite decide_False by (len; unfold OVERFLOW_REF_SIZE; lia).
    rewrite le_at_to_le by (unfold OVERFLOW_MARKER; lia). rewrite decide_False by auto.
    rewrite !(le_at_app_r _ _ (to_le 1 _)) by len. rewrite length_to_le. cbn [Nat.sub].
    rewrite le_at_to_le by done. rewrite le_at_app_r by len. rewrite length_to_le. cbn [Nat.sub].
    rewrite <- (app_nil_r (to_le 4 n)). by rewrite le_at_to_le by done.
  - reflexivity.
  - intros Hov. destruct data as [|b data]; [done|]. cbn [is_overflow] in Hov.
    apply andb_true_iff in Hov as [Hb Hl]. apply Z.eqb_eq in Hb. apply Nat.eqb_eq in Hl.
    cbn [length] in Hl. unfold OVERFLOW_REF_SIZE in Hl.
    exists (of_le (take 4 data)), (of_le (drop 4 data)).
    pose proof (of_le_range (take 4 data)) as H1. pose proof (of_le_range (drop 4 data)) as H2.
    assert (length (take 4 data) = 4%nat) as L1 by (rewrite length_take; lia).
    assert (length (drop 4 data) = 4%nat) as L2 by (rewrite length_drop; lia).
    rewrite L1 in H1. rewrite L2 in H2. split_and!; try (apply H1 || apply H2).
    assert (∀ l : bytes, length l = 4%nat → to_le 4 (of_le l) = l) as Hinv
      by (intros l <-; apply to_of_le).
    rewrite !Hinv, take_drop by done.
    change (to_le 1 OVERFLOW_MARKER) with [z2b OVERFLOW_MARKER]. rewrite <- Hb, z2b_b2z. done.
Qed.

Lemma overflow_roundtrip_witness :
  let C := crc32_ieee in
  let n := length (chunks PAGE_USABLE_SPACE (str "overflowing")) in
  ∃ pid s' m', write_overflow (str "overflowing") (pm_new None) = (Ok pid, s') ∧ ps_rep s' m' ∧
    ∅ ⊆ m' ∧
    (∀ fuel, (n ≤ fuel)%nat → read_overflow fuel pid s' = Some (Ok (str "overflowing"), s')) ∧
    (∀ fuel, (n ≤ fuel)%nat → ∃ s'', free_overflow fuel pid s' = Some (Ok tt, s'') ∧ ps_rep s'' ∅).
Proof.
  intros C n. destruct pm_new_ok as (Hrep & Hn & Hf).
  apply (overflow_roundtrip (PS := PageManager_store) (pm_new None) ∅ (str "overflowing") Hrep); [done|].
  cbn [ps_room PageManager_store]. unfold pm_room. rewrite Hn, Hf.
  assert (length (chunks PAGE_USABLE_SPACE (str "overflowing")) = 1%nat) as -> by (vm_compute; reflexivity).
  vm_compute. discriminate.
Defined.

Lemma overflow_ref_roundtrip_witness :
  decode_overflow_ref (encode_overflow_ref 7 10000) = Some (7, 10000) ∧
  is_overflow (encode_overflow_ref 7 10000) = true ∧
  (is_overflow (str "abc") = true → ∃ p k, is_u32 p ∧ is_u32 k ∧ str "abc" = encode_overflow_ref p k).
Proof. apply overflow_ref_roundtrip; unfold is_u32; lia. Defined.
