(* ===== verification/BufferPool.v ===== *)
(** * The buffer pool (src/src/buffer/frame.rs, src/src/buffer/pool.rs)

    Written against the [PageStore] interface.  [pool_rep b m] relates a pool to
    the logical pages [m] its clients see: the cached copy of a page when there is
    one, the page on disk otherwise.  Pages are compared by [erase], which forgets
    the checksum field that a write to disk stamps.  The [u64] counters ([clock],
    [read_count], [write_count]) are unbounded. *)

From stdpp Require Import gmap.
From S2P Require Import Prelude RustStd Page PageManager.

Local Open Scope Z_scope.

Record BufferFrame := mkFrame {
  data : bytes;
  fr_page_id : option Z;
  pin_count : Z;
  dirty : bool;
  last_accessed : Z;
}.

Definition frame_new : BufferFrame := mkFrame zero_page None 0 false 0.

Definition pin (f : BufferFrame) : res BufferFrame :=
  if decide (pin_count f = u32_max) then Panic
  else Ok (mkFrame (data f) (fr_page_id f) (pin_count f + 1) (dirty f) (last_accessed f)).

(** [debug_assert!(pin_count > 0)] and the [u32] subtraction. *)
Definition frame_unpin (d : bool) (f : BufferFrame) : res BufferFrame :=
  if decide (pin_count f ≤ 0) then Panic
  else Ok (mkFrame (data f) (fr_page_id f) (pin_count f - 1) (if d then true else dirty f) (last_accessed f)).

Definition is_pinned (f : BufferFrame) : bool := bool_decide (pin_count f > 0).
Definition is_free (f : BufferFrame) : bool := bool_decide (fr_page_id f = None).
Definition reset (f : BufferFrame) : BufferFrame := mkFrame (data f) None 0 false 0.

Definition set_data (d : bytes) (f : BufferFrame) : BufferFrame :=
  mkFrame d (fr_page_id f) (pin_count f) (dirty f) (last_accessed f).
Definition set_accessed (t : Z) (f : BufferFrame) : BufferFrame :=
  mkFrame (data f) (fr_page_id f) (pin_count f) (dirty f) t.
Definition set_clean (f : BufferFrame) : BufferFrame :=
  mkFrame (data f) (fr_page_id f) (pin_count f) false (last_accessed f).

Record BufferPool (S : Type) := mkPool {
  frames : list BufferFrame;
  page_table : gmap Z nat;
  pm : S;
  clock : Z;
  read_count : Z;
  write_count : Z;
}.
Arguments mkPool {S} _ _ _ _ _ _.
Arguments frames {S} _.
Arguments page_table {S} _.
Arguments pm {S} _.
Arguments clock {S} _.
Arguments read_count {S} _.
Arguments write_count {S} _.

Section pool.
Context {C : Crc32} {S : Type} {PS : PageStore C S}.
Implicit Types (b : BufferPool S) (m : gmap Z bytes).

Abbreviation pool_m := (ST (BufferPool S) GrumpyError).

Definition pool_new (capacity : nat) (s : S) : BufferPool S :=
  mkPool (replicate capacity frame_new) ∅ s 0 0 0.

(** Field updates. *)
Definition with_frames (fs : list BufferFrame) b := mkPool fs (page_table b) (pm b) (clock b) (read_count b) (write_count b).
Definition with_table (t : gmap Z nat) b := mkPool (frames b) t (pm b) (clock b) (read_count b) (write_count b).
Definition with_pm (s : S) b := mkPool (frames b) (page_table b) s (clock b) (read_count b) (write_count b).
Definition tick b := mkPool (frames b) (page_table b) (pm b) (clock b + 1) (read_count b) (write_count b).
Definition count_read b := mkPool (frames b) (page_table b) (pm b) (clock b) (read_count b + 1) (write_count b).
Definition count_write b := mkPool (frames b) (page_table b) (pm b) (clock b) (read_count b) (write_count b + 1).

(** [&self.frames[i]] and [self.frames[i] = f] *)
Definition get_frame (i : nat) : pool_m BufferFrame := λ b,
  match frames b !! i with Some f => (Ok f, b) | None => (Panic, b) end.
Definition put_frame (i : nat) (f : BufferFrame) : pool_m unit :=
  st_modify (λ b, with_frames (<[i := f]> (frames b)) b).

Definition pm_call {A} (c : ST S GrumpyError A) : pool_m A := st_zoom pm with_pm c.

(** [iter().enumerate().filter(unpinned, not free).min_by_key(last_accessed)]:
    the first frame with the least counter. *)
Fixpoint find_victim (i : nat) (fs : list BufferFrame) : option (nat * Z) :=
  match fs with
  | [] => None
  | f :: fs =>
      let rest := find_victim (Datatypes.S i) fs in
      if negb (is_pinned f) && negb (is_free f) then
        match rest with
        | Some (j, t) => if decide (t < last_accessed f) then Some (j, t) else Some (i, last_accessed f)
        | None => Some (i, last_accessed f)
        end
      else rest
  end.

Definition evict (victim_idx : nat) : pool_m nat :=
  frame ← get_frame victim_idx;
  _ ← (if dirty frame then
         pid ← st_lift (ok_or (fr_page_id frame) (Corruption "dirty frame without page_id"));
         _ ← pm_call (ps_write pid (data frame));
         st_modify count_write
       else mret tt);
  _ ← (match fr_page_id frame with
       | Some pid => st_modify (λ b, with_table (delete pid (page_table b)) b)
       | None => mret tt
       end);
  _ ← put_frame victim_idx (reset frame);
  mret victim_idx.

Definition find_free_frame : pool_m nat :=
  b ← st_get;
  match list_find (λ f, is_free f = true) (frames b) with
  | Some (i, _) => mret i
  | None =>
      victim ← st_lift (ok_or (find_victim 0 (frames b)) BufferPoolExhausted);
      evict victim.1
  end.

Definition fetch_page (pid : Z) : pool_m nat :=
  b ← st_get;
  match page_table b !! pid with
  | Some frame_idx =>
      f ← get_frame frame_idx;
      f ← st_lift (pin f);
      _ ← st_modify tick;
      _ ← put_frame frame_idx (set_accessed (clock b + 1) f);
      mret frame_idx
  | None =>
      frame_idx ← find_free_frame;
      d ← pm_call (ps_read pid);
      _ ← st_modify count_read;
      _ ← get_frame frame_idx;
      _ ← st_modify tick;
      b ← st_get;
      _ ← put_frame frame_idx (mkFrame d (Some pid) 1 false (clock b));
      _ ← st_modify (λ b, with_table (<[pid := frame_idx]> (page_table b)) b);
      mret frame_idx
  end.

Definition new_page : pool_m (Z * nat) :=
  pid ← pm_call ps_alloc;
  frame_idx ← find_free_frame;
  _ ← get_frame frame_idx;
  _ ← st_modify tick;
  b ← st_get;
  _ ← put_frame frame_idx (mkFrame zero_page (Some pid) 1 true (clock b));
  _ ← st_modify (λ b, with_table (<[pid := frame_idx]> (page_table b)) b);
  mret (pid, frame_idx).

Definition unpin (pid : Z) (d : bool) : pool_m unit :=
  b ← st_get;
  frame_idx ← st_lift (ok_or (page_table b !! pid) (PageNotFound pid));
  f ← get_frame frame_idx;
  f ← st_lift (frame_unpin d f);
  put_frame frame_idx f.

Definition flush_page (pid : Z) : pool_m unit :=
  b ← st_get;
  frame_idx ← st_lift (ok_or (page_table b !! pid) (PageNotFound pid));
  f ← get_frame frame_idx;
  if dirty f then
    _ ← pm_call (ps_write pid (data f));
    _ ← st_modify count_write;
    put_frame frame_idx (set_clean f)
  else mret tt.

Definition is_dirty_entry b (e : Z * nat) : Prop := dirty <$> frames b !! e.2 = Some true.
#[export] Instance is_dirty_entry_dec b e : Decision (is_dirty_entry b e).
Proof. unfold is_dirty_entry. apply _. Defined.

Definition dirty_pages b : list Z :=
  (filter (is_dirty_entry b) (map_to_list (page_table b))).*1.

Fixpoint flush_each (pids : list Z) : pool_m unit :=
  match pids with
  | [] => mret tt
  | pid :: pids => _ ← flush_page pid; flush_each pids
  end.

(** [order] is the order in which the hash map hands out the dirty pages. *)
Definition flush_all (order : list Z → list Z) : pool_m unit :=
  b ← st_get; flush_each (order (dirty_pages b)).

(** [self.frames[i].data = d] through [get_frame_mut]. *)
Definition write_frame (i : nat) (d : bytes) : pool_m unit :=
  f ← get_frame i; put_frame i (set_data d f).

(** ** The logical pages of a pool *)

(** A page with its checksum field cleared. *)
Definition erase (d : bytes) : bytes := copy_at 28 (replicate 4 x00) d.

Lemma erase_stamp d : length d = PAGE_SIZE → erase (stamp_checksum d) = erase d.
Proof.
  intros Hd. pose proof PAGE_SIZE_Z. pose proof (length_stamp d Hd). unfold erase, stamp_checksum.
  apply list_eq. intros i. rewrite !lookup_copy_at by (len; lia).
  rewrite length_replicate, length_to_le. case_decide; done.
Qed.

(** [dm]: the pages on disk; [m]: the logical pages, erased. *)
Record pool_inv b (dm m : gmap Z bytes) : Prop := {
  pi_store : ps_rep (pm b) dm;
  pi_table : ∀ pid i, page_table b !! pid = Some i →
    ∃ f, frames b !! i = Some f ∧ fr_page_id f = Some pid;
  pi_frame : ∀ i f pid, frames b !! i = Some f → fr_page_id f = Some pid →
    page_table b !! pid = Some i ∧ length (data f) = PAGE_SIZE ∧ m !! pid = Some (erase (data f)) ∧
    (dirty f = false → erase <$> dm !! pid = Some (erase (data f)));
  pi_free : ∀ i f, frames b !! i = Some f → fr_page_id f = None → is_pinned f = false;
  pi_pins : ∀ i f, frames b !! i = Some f → 0 ≤ pin_count f;
  pi_dom : ∀ pid, is_Some (dm !! pid) ↔ is_Some (m !! pid);
  pi_miss : ∀ pid, page_table b !! pid = None → m !! pid = erase <$> dm !! pid;
}.

Definition pool_rep b m : Prop := ∃ dm, pool_inv b dm m.

(** The fields that the operations below do not mention. *)
Lemma pool_inv_ext b b' dm m :
  frames b' = frames b → page_table b' = page_table b → pm b' = pm b →
  pool_inv b dm m → pool_inv b' dm m.
Proof. intros H1 H2 H3 []. constructor; rewrite ?H1, ?H2, ?H3; done. Qed.

(** Replacing a frame by one with the same page. *)
Lemma pool_inv_frame b dm m i f f' pid :
  pool_inv b dm m → frames b !! i = Some f → fr_page_id f = Some pid → fr_page_id f' = Some pid →
  length (data f') = PAGE_SIZE → 0 ≤ pin_count f' →
  (dirty f' = false → erase <$> dm !! pid = Some (erase (data f'))) →
  pool_inv (with_frames (<[i := f']> (frames b)) b) dm (<[pid := erase (data f')]> m).
Proof.
  intros [Hs Ht Hf Hfr Hpc Hdom Hmiss] Hi Hp Hp' Hlen Hpin Hclean.
  assert (Hil : (i < length (frames b))%nat) by (by eapply lookup_lt_Some).
  destruct (Hf i f pid Hi Hp) as (Htp & _ & Hmp & _).
  constructor; cbn [frames page_table pm with_frames].
  - done.
  - intros q j Hq. destruct (Ht q j Hq) as (g & Hg & Hgp). destruct (decide (j = i)) as [->|Hne].
    + exists f'. rewrite list_lookup_insert_eq by done. split; [done|]. congruence.
    + exists g. by rewrite list_lookup_insert_ne.
  - intros j g q Hj Hgq. destruct (decide (j = i)) as [->|Hne].
    + rewrite list_lookup_insert_eq in Hj by done. injection Hj as <-.
      rewrite Hp' in Hgq. injection Hgq as <-. rewrite lookup_insert_eq. done.
    + rewrite list_lookup_insert_ne in Hj by done. destruct (Hf j g q Hj Hgq) as (H1 & H2 & H3 & H4).
      rewrite lookup_insert_ne by (intros ->; congruence). done.
  - intros j g Hj Hg. destruct (decide (j = i)) as [->|Hne].
    + rewrite list_lookup_insert_eq in Hj by done. injection Hj as <-. congruence.
    + rewrite list_lookup_insert_ne in Hj by done. by eapply Hfr.
  - intros j g Hj. destruct (decide (j = i)) as [->|Hne].
    + rewrite list_lookup_insert_eq in Hj by done. by injection Hj as <-.
    + rewrite list_lookup_insert_ne in Hj by done. by eapply Hpc.
  - intros q. rewrite Hdom. destruct (decide (q = pid)) as [->|Hne].
    + rewrite lookup_insert_eq, Hmp. split; eauto.
    + by rewrite lookup_insert_ne.
  - intros q Hq. rewrite lookup_insert_ne by (intros ->; congruence). by apply Hmiss.
Qed.

(** Dropping a clean or flushed frame. *)
Lemma pool_inv_drop b dm m i f pid :
  pool_inv b dm m → frames b !! i = Some f → fr_page_id f = Some pid → dirty f = false →
  pool_inv (with_frames (<[i := reset f]> (frames b)) (with_table (delete pid (page_table b)) b)) dm m.
Proof.
  intros [Hs Ht Hf Hfr Hpc Hdom Hmiss] Hi Hp Hd.
  assert (Hil : (i < length (frames b))%nat) by (by eapply lookup_lt_Some).
  destruct (Hf i f pid Hi Hp) as (Htp & _ & Hmp & Hcl).
  constructor; cbn [frames page_table pm with_frames with_table]; [done| | | | |done|].
  - intros q j [Hne Hq]%lookup_delete_Some. destruct (Ht q j Hq) as (g & Hg & Hgp).
    exists g. rewrite list_lookup_insert_ne; [done|]. intros ->. congruence.
  - intros j g q Hj Hgq. destruct (decide (j = i)) as [->|Hne].
    + rewrite list_lookup_insert_eq in Hj by done. by injection Hj as <-.
    + rewrite list_lookup_insert_ne in Hj by done. destruct (Hf j g q Hj Hgq) as (H1 & H2 & H3 & H4).
      rewrite lookup_delete_ne by (intros ->; congruence). done.
  - intros j g Hj Hg. destruct (decide (j = i)) as [->|Hne].
    + rewrite list_lookup_insert_eq in Hj by done. by injection Hj as <-.
    + rewrite list_lookup_insert_ne in Hj by done. by eapply Hfr.
  - intros j g Hj. destruct (decide (j = i)) as [->|Hne].
    + rewrite list_lookup_insert_eq in Hj by done. by injection Hj as <-.
    + rewrite list_lookup_insert_ne in Hj by done. by eapply Hpc.
  - intros q Hq. destruct (decide (q = pid)) as [->|Hne]; [by rewrite Hmp, Hcl|].
    rewrite lookup_delete_ne in Hq by done. by apply Hmiss.
Qed.

(** Loading page [pid] in a free frame. *)
Lemma pool_inv_install b dm m i f0 f pid :
  pool_inv b dm m → frames b !! i = Some f0 → fr_page_id f0 = None → page_table b !! pid = None →
  is_Some (dm !! pid) → fr_page_id f = Some pid → length (data f) = PAGE_SIZE →
  0 ≤ pin_count f →
  (dirty f = false → erase <$> dm !! pid = Some (erase (data f))) →
  pool_inv (with_table (<[pid := i]> (page_table b)) (with_frames (<[i := f]> (frames b)) b)) dm
    (<[pid := erase (data f)]> m).
Proof.
  intros [Hs Ht Hf Hfr Hpc Hdom Hmiss] Hi Hp0 Htp Hdm Hp Hlen Hpin Hclean.
  assert (Hil : (i < length (frames b))%nat) by (by eapply lookup_lt_Some).
  constructor; cbn [frames page_table pm with_frames with_table].
  - done.
  - intros q j [[<- <-]|[Hne Hq]]%lookup_insert_Some.
    + exists f. by rewrite list_lookup_insert_eq.
    + destruct (Ht q j Hq) as (g & Hg & Hgp). exists g.
      rewrite list_lookup_insert_ne; [done|]. intros ->. congruence.
  - intros j g q Hj Hgq. destruct (decide (j = i)) as [->|Hne].
    + rewrite list_lookup_insert_eq in Hj by done. injection Hj as <-.
      rewrite Hp in Hgq. injection Hgq as <-. rewrite !lookup_insert_eq. done.
    + rewrite list_lookup_insert_ne in Hj by done. destruct (Hf j g q Hj Hgq) as (H1 & H2 & H3 & H4).
      rewrite !lookup_insert_ne by (intros ->; congruence). done.
  - intros j g Hj Hg. destruct (decide (j = i)) as [->|Hne].
    + rewrite list_lookup_insert_eq in Hj by done. injection Hj as <-. congruence.
    + rewrite list_lookup_insert_ne in Hj by done. by eapply Hfr.
  - intros j g Hj. destruct (decide (j = i)) as [->|Hne].
    + rewrite list_lookup_insert_eq in Hj by done. by injection Hj as <-.
    + rewrite list_lookup_insert_ne in Hj by done. by eapply Hpc.
  - intros q. destruct (decide (q = pid)) as [->|Hne].
    + rewrite lookup_insert_eq. split; eauto.
    + by rewrite lookup_insert_ne.
  - intros q [Hq Hne]%lookup_insert_None. rewrite lookup_insert_ne by done. by apply Hmiss.
Qed.

(** Writing the bytes of a cached page to disk. *)
Lemma pool_inv_flush b dm m i f pid :
  pool_inv b dm m → frames b !! i = Some f → fr_page_id f = Some pid →
  ∃ s', ps_write pid (data f) (pm b) = (Ok tt, s') ∧ ps_room s' = ps_room (pm b) ∧
    pool_inv (with_frames (<[i := set_clean f]> (frames b)) (with_pm s' b))
      (<[pid := stamp_checksum (data f)]> dm) m.
Proof.
  intros Hinv Hi Hp. pose proof Hinv as [Hs Ht Hf Hfr Hpc Hdom Hmiss].
  destruct (Hf i f pid Hi Hp) as (Htp & Hlen & Hmp & _).
  destruct (proj2 (Hdom pid) ltac:(rewrite Hmp; eauto)) as [d0 Hd0].
  destruct (ps_write_ok (pm b) dm pid d0 (data f) Hs Hd0 Hlen) as (s' & Hw & Hrep' & Hroom).
  exists s'. split_and!; [done|done|].
  assert (Hinv1 : pool_inv (with_pm s' b) (<[pid := stamp_checksum (data f)]> dm) m).
  { constructor; cbn [frames page_table pm with_pm]; [done|done| |done|done| |].
    - intros j g q Hj Hg. destruct (Hf j g q Hj Hg) as (H1 & H2 & H3 & H4). split_and!; try done.
      intros Hd. destruct (decide (q = pid)) as [->|Hne].
      + assert (j = i) as -> by congruence. replace g with f by congruence.
        rewrite lookup_insert_eq. simpl. by rewrite erase_stamp.
      + rewrite lookup_insert_ne by done. by apply H4.
    - intros q. destruct (decide (q = pid)) as [->|Hne].
      + rewrite lookup_insert_eq, Hmp. split; eauto.
      + by rewrite lookup_insert_ne.
    - intros q Hq. rewrite lookup_insert_ne by (intros ->; congruence). by apply Hmiss. }
  pose proof (pool_inv_frame _ _ _ i f (set_clean f) pid Hinv1 Hi Hp Hp Hlen (Hpc i f Hi)) as Hfin.
  cbn [data set_clean dirty] in Hfin. rewrite (insert_id m) in Hfin by done. apply Hfin.
  intros _. rewrite lookup_insert_eq. simpl. by rewrite erase_stamp.
Qed.

(** ** Finding a frame *)

Lemma find_victim_spec i0 fs :
  match find_victim i0 fs with
  | Some (j, t) => ∃ k f, j = (i0 + k)%nat ∧ fs !! k = Some f ∧ t = last_accessed f ∧
      is_pinned f = false ∧ is_free f = false ∧
      ∀ g, g ∈ fs → is_pinned g = false → is_free g = false → t ≤ last_accessed g
  | None => ∀ f, f ∈ fs → is_pinned f = true ∨ is_free f = true
  end.
Proof.
  revert i0. induction fs as [|f fs IH]; intros i0; [set_solver|]. cbn [find_victim].
  specialize (IH (Datatypes.S i0)). destruct (find_victim (Datatypes.S i0) fs) as [[j t]|].
  - destruct IH as (k & g & -> & Hg & -> & Hp & Hf & Hmin).
    destruct (is_pinned f) eqn:Ep; [|destruct (is_free f) eqn:Ef]; cbn [negb andb].
    + exists (Datatypes.S k), g. split_and!; [lia|done..|].
      intros h [->|Hh]%elem_of_cons; [congruence|by apply Hmin].
    + exists (Datatypes.S k), g. split_and!; [lia|done..|].
      intros h [->|Hh]%elem_of_cons; [congruence|by apply Hmin].
    + case_decide as Hlt.
      * exists (Datatypes.S k), g. split_and!; [lia|done..|].
        intros h [->|Hh]%elem_of_cons; [lia|by apply Hmin].
      * exists 0%nat, f. split_and!; [lia|done..|].
        intros h [->|Hh]%elem_of_cons; [lia|]. intros Hp' Hf'. specialize (Hmin h Hh Hp' Hf'). lia.
  - destruct (is_pinned f) eqn:Ep; [|destruct (is_free f) eqn:Ef]; cbn [negb andb].
    + intros h [->|Hh]%elem_of_cons; auto.
    + intros h [->|Hh]%elem_of_cons; auto.
    + exists 0%nat, f. split_and!; [lia|done..|].
      intros h [->|Hh]%elem_of_cons Hp' Hf'; [lia|]. destruct (IH h Hh); congruence.
Qed.

(** What a successful [find_free_frame] does: frame [i] of [b'] is free, every
    other frame is as it was; frame [i] was free or the least recently used of
    the unpinned frames. *)
Record freed b b' (i : nat) : Prop := {
  fr_free : ∃ f, frames b' !! i = Some f ∧ fr_page_id f = None;
  fr_others : ∀ j, j ≠ i → frames b' !! j = frames b !! j;
  fr_victim : ∃ f, frames b !! i = Some f ∧ is_pinned f = false ∧
    (is_free f = true ∨
     ∀ g, g ∈ frames b → is_free g = false ∧ (is_pinned g = false → last_accessed f ≤ last_accessed g));
  fr_table : ∀ pid j, page_table b' !! pid = Some j → page_table b !! pid = Some j;
  fr_clock : clock b' = clock b;
  fr_room : ps_room (pm b') = ps_room (pm b);
  fr_length : length (frames b') = length (frames b);
}.

Lemma get_frame_ok i f b : frames b !! i = Some f → get_frame i b = (Ok f, b).
Proof. intros Hf. unfold get_frame. by rewrite Hf. Qed.

Lemma evict_ok b dm m i f pid :
  pool_inv b dm m → frames b !! i = Some f → fr_page_id f = Some pid →
  ∃ b' dm', evict i b = (Ok i, b') ∧ pool_inv b' dm' m ∧
    frames b' = <[i := reset f]> (frames b) ∧ page_table b' = delete pid (page_table b) ∧
    clock b' = clock b ∧ ps_room (pm b') = ps_room (pm b).
Proof.
  intros Hinv Hi Hp. unfold evict. erewrite st_step by (by apply get_frame_ok).
  destruct (dirty f) eqn:Hd.
  - destruct (pool_inv_flush b dm m i f pid Hinv Hi Hp) as (s' & Hw & Hroom & Hinv').
    assert (Hil : (i < length (frames b))%nat) by (by eapply lookup_lt_Some).
    pose proof (pool_inv_drop _ _ _ i (set_clean f) pid Hinv') as Hdrop.
    cbn [frames with_frames with_pm page_table] in Hdrop.
    rewrite list_lookup_insert_eq in Hdrop by done. specialize (Hdrop eq_refl Hp eq_refl).
    rewrite list_insert_insert_eq in Hdrop.
    exists (with_frames (<[i := reset f]> (frames b))
      (with_table (delete pid (page_table b)) (count_write (with_pm s' b)))).
    eexists. split_and!; [| |done..].
    + rewrite Hp. cbn [ok_or]. unfold pm_call, st_zoom, st_lift, mbind, st_bind. rewrite Hw. reflexivity.
    + eapply pool_inv_ext; [| | |exact Hdrop]; done.
  - exists (with_frames (<[i := reset f]> (frames b)) (with_table (delete pid (page_table b)) b)), dm.
    rewrite st_ret_bind, Hp. split_and!; [done|by apply pool_inv_drop|done..].
Qed.

Lemma find_free_frame_ok b dm m :
  pool_inv b dm m →
  (∃ i b' dm', find_free_frame b = (Ok i, b') ∧ pool_inv b' dm' m ∧ freed b b' i) ∨
  (find_free_frame b = (Err BufferPoolExhausted, b) ∧ ∀ f, f ∈ frames b → is_pinned f = true).
Proof.
  intros Hinv. unfold find_free_frame. rewrite st_get_bind.
  destruct (list_find _ (frames b)) as [[i f]|] eqn:Hfind.
  - left. apply list_find_Some in Hfind as (Hi & Hfree & _). exists i, b, dm.
    split_and!; [done|done|]. pose proof Hfree as Hn. apply bool_decide_eq_true in Hn.
    constructor; try done; [by exists f|]. exists f. split_and!; [done| |by left].
    by eapply pi_free.
  - apply list_find_None in Hfind. rewrite Forall_forall in Hfind.
    pose proof (find_victim_spec 0 (frames b)) as Hv.
    destruct (find_victim 0 (frames b)) as [[j t]|].
    + left. destruct Hv as (k & f & -> & Hk & -> & Hpin & Hfree & Hmin).
      assert (∃ pid, fr_page_id f = Some pid) as [pid Hp].
      { apply bool_decide_eq_false in Hfree. destruct (fr_page_id f); eauto; done. }
      destruct (evict_ok b dm m k f pid Hinv Hk Hp) as (b' & dm' & Hrun & Hinv' & Hfr & Ht & Hc & Hr).
      exists k, b', dm'. split_and!; [exact Hrun|done|].
      assert (Hil : (k < length (frames b))%nat) by (by eapply lookup_lt_Some).
      constructor; rewrite ?Hfr, ?Ht; try done.
      * exists (reset f). by rewrite list_lookup_insert_eq.
      * intros q Hq. by rewrite list_lookup_insert_ne.
      * exists f. split_and!; [done|done|]. right. intros g Hg. specialize (Hfind g Hg).
        apply not_true_is_false in Hfind. split; [done|]. intros Hgp. by apply Hmin.
      * intros q q' [_ Hq]%lookup_delete_Some. done.
      * by rewrite length_insert.
    + right. split; [done|]. intros f Hf. destruct (Hv f Hf) as [|Hfree]; [done|].
      destruct (Hfind f Hf). done.
Qed.

(** ** The operations on the logical pages *)

(** Frame [i] of [b'] holds page [pid], pinned; the frames pinned in [b] other
    than [i] are untouched. *)
Record loaded b b' (i : nat) (pid : Z) : Prop := {
  ld_table : page_table b' !! pid = Some i;
  ld_frame : ∃ f, frames b' !! i = Some f ∧ fr_page_id f = Some pid ∧ is_pinned f = true;
  ld_pinned : ∀ j g, j ≠ i → frames b !! j = Some g → is_pinned g = true → frames b' !! j = Some g;
  ld_others : ∀ j, j ≠ i → frames b' !! j = frames b !! j;
  ld_cached : ∀ q j, page_table b' !! q = Some j → q = pid ∨ page_table b !! q = Some j;
  ld_pins : (∀ j f, frames b !! j = Some f → is_pinned f = false) → ∀ f, frames b' !! i = Some f → pin_count f = 1;
}.

Lemma frame_cached b dm m i f pid :
  pool_inv b dm m → frames b !! i = Some f → fr_page_id f = Some pid → m !! pid = Some (erase (data f)).
Proof. intros Hinv Hi Hp. by apply (pi_frame _ _ _ Hinv i f pid). Qed.

Lemma fetch_hit b dm m pid i f :
  pool_inv b dm m → page_table b !! pid = Some i → frames b !! i = Some f → pin_count f < u32_max →
  ∃ b', fetch_page pid b = (Ok i, b') ∧ pool_inv b' dm m ∧ loaded b b' i pid ∧ ps_room (pm b') = ps_room (pm b).
Proof.
  intros Hinv Ht Hi Hpin. destruct (pi_table _ _ _ Hinv pid i Ht) as (f' & Hf' & Hp).
  replace f' with f in * by congruence. pose proof (pi_pins _ _ _ Hinv i f Hi) as Hpos.
  set (g := mkFrame (data f) (fr_page_id f) (pin_count f + 1) (dirty f) (clock b + 1)).
  destruct (pi_frame _ _ _ Hinv i f pid Hi Hp) as (_ & Hlen & Hm & Hcl).
  exists (with_frames (<[i := g]> (frames b)) (tick b)).
  assert (Hil : (i < length (frames b))%nat) by (by eapply lookup_lt_Some).
  split_and!.
  - unfold fetch_page. rewrite st_get_bind, Ht. erewrite st_step by (by apply get_frame_ok).
    unfold pin. rewrite decide_False by lia. done.
  - pose proof (pool_inv_frame b dm m i f g pid Hinv Hi Hp Hp Hlen ltac:(simpl; lia) Hcl) as Hinv'.
    cbn [data g] in Hinv'. rewrite (insert_id m) in Hinv' by done.
    eapply pool_inv_ext; [| | |exact Hinv']; done.
  - constructor; cbn [frames with_frames page_table tick]; [done| | | |by right|].
    + exists g. rewrite list_lookup_insert_eq by done. split_and!; [done|done|].
      apply bool_decide_eq_true. simpl. lia.
    + intros j h Hj Hh _. by rewrite list_lookup_insert_ne.
    + intros j Hj. by rewrite list_lookup_insert_ne.
    + intros Hun g'. rewrite list_lookup_insert_eq by done. intros [= <-]. specialize (Hun i f Hi).
      apply bool_decide_eq_false in Hun. cbn [pin_count g]. lia.
  - done.
Qed.

Lemma fetch_miss b dm m pid :
  pool_inv b dm m → page_table b !! pid = None → is_Some (m !! pid) →
  (∃ i b' dm', fetch_page pid b = (Ok i, b') ∧ pool_inv b' dm' m ∧ loaded b b' i pid ∧ ps_room (pm b') = ps_room (pm b)) ∨
  (fetch_page pid b = (Err BufferPoolExhausted, b) ∧ ∀ f, f ∈ frames b → is_pinned f = true).
Proof.
  intros Hinv Ht Hown. unfold fetch_page. rewrite st_get_bind, Ht.
  destruct (find_free_frame_ok b dm m Hinv) as [(i & b1 & dm1 & Hrun & Hinv1 & Hfr)|[Hrun Hall]];
    [left|right; erewrite st_step_err by exact Hrun; done].
  erewrite st_step by exact Hrun. destruct (fr_free _ _ _ Hfr) as (f0 & Hi & Hp0).
  assert (Ht1 : page_table b1 !! pid = None).
  { destruct (page_table b1 !! pid) as [j|] eqn:E; [|done]. apply (fr_table _ _ _ Hfr) in E. congruence. }
  destruct (proj2 (pi_dom _ _ _ Hinv1 pid) Hown) as [d Hd].
  pose proof (ps_read_ok _ _ _ _ (pi_store _ _ _ Hinv1) Hd) as Hread.
  destruct (ps_owned _ _ _ _ (pi_store _ _ _ Hinv1) Hd) as [_ Hlen].
  set (g := mkFrame d (Some pid) 1 false (clock b1 + 1)).
  assert (Hm : m !! pid = Some (erase d)) by (rewrite (pi_miss _ _ _ Hinv1 pid Ht1), Hd; done).
  exists i, (with_table (<[pid := i]> (page_table b1))
    (with_frames (<[i := g]> (frames b1)) (tick (count_read (with_pm (pm b1) b1))))), dm1.
  assert (Hil : (i < length (frames b1))%nat) by (by eapply lookup_lt_Some).
  split_and!.
  - unfold pm_call, st_zoom. erewrite st_step by (rewrite Hread; reflexivity).
    rewrite st_modify_bind. erewrite st_step by (apply get_frame_ok; exact Hi). done.
  - pose proof (pool_inv_install b1 dm1 m i f0 g pid Hinv1 Hi Hp0 Ht1 ltac:(eauto) eq_refl Hlen
      ltac:(simpl; lia) ltac:(intros _; rewrite Hd; done)) as Hinv2.
    cbn [data g] in Hinv2. rewrite (insert_id m) in Hinv2 by done.
    eapply pool_inv_ext; [| | |exact Hinv2]; done.
  - constructor; cbn [frames with_frames page_table with_table tick count_read with_pm].
    + apply lookup_insert_eq.
    + exists g. by rewrite list_lookup_insert_eq.
    + intros j h Hj Hh _. rewrite list_lookup_insert_ne by done. by rewrite (fr_others _ _ _ Hfr).
    + intros j Hj. rewrite list_lookup_insert_ne by done. by apply (fr_others _ _ _ Hfr).
    + intros q j [[-> _]|[_ Hq]]%lookup_insert_Some; [by left|right]. by apply (fr_table _ _ _ Hfr).
    + intros _ f'. rewrite list_lookup_insert_eq by done. by intros [= <-].
  - cbn [pm with_frames with_table tick count_read with_pm]. apply Hfr.
Qed.

Lemma new_page_ok b dm m :
  pool_inv b dm m → 0 < ps_room (pm b) →
  (∃ pid i b' dm', new_page b = (Ok (pid, i), b') ∧ pid ≠ 0 ∧ m !! pid = None ∧
     pool_inv b' dm' (<[pid := erase zero_page]> m) ∧ loaded b b' i pid ∧ ps_room (pm b') = ps_room (pm b) - 1) ∨
  ((new_page b).1 = Err BufferPoolExhausted ∧ ∀ f, f ∈ frames b → is_pinned f = true).
Proof.
  intros Hinv Hroom. pose proof Hinv as [Hs Ht Hf Hfr Hpc Hdom Hmiss].
  destruct (ps_alloc_ok _ _ Hs Hroom) as (pid & s1 & d0 & Hal & Hne & Hfresh & Hs1 & Hr1).
  assert (Hm0 : m !! pid = None).
  { destruct (m !! pid) eqn:E; [|done]. destruct (proj2 (Hdom pid)) as [? ?]; [rewrite E; eauto|congruence]. }
  assert (Ht0 : page_table b !! pid = None).
  { destruct (page_table b !! pid) as [j|] eqn:E; [|done]. destruct (Ht pid j E) as (f & Hj & Hp).
    destruct (Hf j f pid Hj Hp) as (_ & _ & Hx & _). congruence. }
  assert (Hinv1 : pool_inv (with_pm s1 b) (<[pid := d0]> dm) (<[pid := erase d0]> m)).
  { constructor; cbn [frames page_table pm with_pm]; [done|done| |done|done| |].
    - intros j g q Hj Hg. destruct (Hf j g q Hj Hg) as (H1 & H2 & H3 & H4).
      rewrite !lookup_insert_ne by (intros ->; congruence). done.
    - intros q. destruct (decide (q = pid)) as [->|Hq].
      + rewrite !lookup_insert_eq. split; eauto.
      + by rewrite !lookup_insert_ne.
    - intros q Hq. destruct (decide (q = pid)) as [->|Hqp].
      + by rewrite !lookup_insert_eq.
      + rewrite !lookup_insert_ne by done. by apply Hmiss. }
  assert (Hrun0 : ∀ (k : Z → pool_m (Z * nat)), (pm_call ps_alloc ≫= k) b = k pid (with_pm s1 b)).
  { intros k. unfold pm_call, st_zoom. by erewrite st_step by (rewrite Hal; reflexivity). }
  unfold new_page. rewrite Hrun0.
  destruct (find_free_frame_ok _ _ _ Hinv1) as [(i & b1 & dm1 & Hrun & Hinv2 & Hfd)|[Hrun Hall]];
    [left|right; erewrite st_step_err by exact Hrun; done].
  erewrite st_step by exact Hrun. destruct (fr_free _ _ _ Hfd) as (f0 & Hi & Hp0).
  erewrite st_step by (apply get_frame_ok; exact Hi).
  set (g := mkFrame zero_page (Some pid) 1 true (clock b1 + 1)).
  assert (Ht1 : page_table b1 !! pid = None).
  { destruct (page_table b1 !! pid) as [j|] eqn:E; [|done]. apply (fr_table _ _ _ Hfd) in E.
    cbn in E. congruence. }
  assert (Hil : (i < length (frames b1))%nat) by (by eapply lookup_lt_Some).
  exists pid, i, (with_table (<[pid := i]> (page_table b1)) (with_frames (<[i := g]> (frames b1)) (tick b1))), dm1.
  split_and!; [done|done|done| | |].
  - pose proof (pool_inv_install b1 dm1 _ i f0 g pid Hinv2 Hi Hp0 Ht1) as Hinv3.
    rewrite insert_insert_eq in Hinv3.
    assert (is_Some (dm1 !! pid)) as Hd1.
    { apply (pi_dom _ _ _ Hinv2). rewrite lookup_insert_eq. eauto. }
    specialize (Hinv3 Hd1 eq_refl length_zero_page ltac:(simpl; lia) ltac:(done)).
    eapply pool_inv_ext; [| | |exact Hinv3]; done.
  - constructor; cbn [frames with_frames page_table with_table tick].
    + apply lookup_insert_eq.
    + exists g. by rewrite list_lookup_insert_eq.
    + intros j h Hj Hh _. rewrite list_lookup_insert_ne by done. by rewrite (fr_others _ _ _ Hfd).
    + intros j Hj. rewrite list_lookup_insert_ne by done. by rewrite (fr_others _ _ _ Hfd).
    + intros q j [[-> _]|[_ Hq]]%lookup_insert_Some; [by left|right]. by apply (fr_table _ _ _ Hfd) in Hq.
    + intros _ f'. rewrite list_lookup_insert_eq by done. by intros [= <-].
  - cbn [pm with_frames with_table tick]. rewrite (fr_room _ _ _ Hfd). exact Hr1.
Qed.

(** [unpin] after the frame was given bytes [d]: marking it dirty makes the new
    bytes the logical page; without a change either flag will do. *)
Lemma unpin_ok b dm m i f pid fl d :
  pool_inv b dm m → frames b !! i = Some f → fr_page_id f = Some pid → is_pinned f = true →
  length d = PAGE_SIZE → fl = true ∨ d = data f →
  let b1 := with_frames (<[i := set_data d f]> (frames b)) b in
  ∃ b' g, unpin pid fl b1 = (Ok tt, b') ∧ pool_inv b' dm (<[pid := erase d]> m) ∧ pm b' = pm b ∧
    page_table b' = page_table b ∧ frames b' = <[i := g]> (frames b) ∧ pin_count g = pin_count f - 1.
Proof.
  intros Hinv Hi Hp Hpin Hlen Hfl b1. apply bool_decide_eq_true in Hpin.
  assert (Hil : (i < length (frames b))%nat) by (by eapply lookup_lt_Some).
  destruct (pi_frame _ _ _ Hinv i f pid Hi Hp) as (Ht & _ & Hm & Hcl).
  set (g := mkFrame d (fr_page_id f) (pin_count f - 1) (if fl then true else dirty f) (last_accessed f)).
  exists (with_frames (<[i := g]> (frames b)) b), g. split_and!; [| |done..].
  - unfold unpin. rewrite st_get_bind. cbn [page_table with_frames b1]. rewrite Ht. cbn [ok_or].
    unfold st_lift at 1. erewrite st_step by reflexivity.
    erewrite st_step by (apply get_frame_ok; unfold b1; cbn [frames with_frames];
      by rewrite list_lookup_insert_eq).
    unfold frame_unpin. rewrite decide_False by (simpl; lia). cbn [set_data data fr_page_id pin_count
      dirty last_accessed]. unfold st_lift. erewrite st_step by reflexivity.
    unfold put_frame, st_modify, b1. cbn [frames with_frames]. by rewrite list_insert_insert_eq.
  - apply pool_inv_frame with f; [done|done|done|done|done|simpl; lia|].
    cbn [dirty data g]. intros Hd. destruct Hfl as [-> | ->]; [done|]. destruct fl; [done|]. by apply Hcl.
Qed.

Lemma flush_page_ok b dm m i f pid :
  pool_inv b dm m → page_table b !! pid = Some i → frames b !! i = Some f →
  ∃ b' dm', flush_page pid b = (Ok tt, b') ∧ pool_inv b' dm' m ∧ page_table b' = page_table b ∧
    frames b' = <[i := set_clean f]> (frames b).
Proof.
  intros Hinv Ht Hi. destruct (pi_table _ _ _ Hinv pid i Ht) as (f' & Hf' & Hp).
  replace f' with f in * by congruence. unfold flush_page. rewrite st_get_bind, Ht. cbn [ok_or].
  unfold st_lift. erewrite st_step by reflexivity. erewrite st_step by (by apply get_frame_ok).
  destruct (dirty f) eqn:Hd.
  - destruct (pool_inv_flush b dm m i f pid Hinv Hi Hp) as (s' & Hw & _ & Hinv').
    exists (with_frames (<[i := set_clean f]> (frames b)) (count_write (with_pm s' b))).
    eexists. split_and!; [| |done|done].
    + unfold pm_call, st_zoom. by erewrite st_step by (rewrite Hw; reflexivity).
    + eapply pool_inv_ext; [| | |exact Hinv']; done.
  - exists b, dm. split_and!; [done|done|done|]. symmetry. apply list_insert_id. rewrite Hi.
    f_equal. destruct f. simpl in *. by subst.
Qed.

Lemma flush_each_ok pids b dm m :
  pool_inv b dm m → (∀ pid, pid ∈ pids → is_Some (page_table b !! pid)) →
  ∃ b' dm', flush_each pids b = (Ok tt, b') ∧ pool_inv b' dm' m ∧ page_table b' = page_table b ∧
    pin_count <$> frames b' = pin_count <$> frames b ∧
    ∀ i f', frames b' !! i = Some f' → ∃ f, frames b !! i = Some f ∧ fr_page_id f' = fr_page_id f ∧
      (dirty f' = true → dirty f = true ∧ ∀ pid, fr_page_id f = Some pid → pid ∉ pids).
Proof.
  revert b dm. induction pids as [|pid pids IH]; intros b dm Hinv Hin.
  { exists b, dm. split_and!; [done..|]. intros i f Hf. exists f. split_and!; [done|done|set_solver]. }
  destruct (Hin pid ltac:(set_solver)) as [i Ht].
  destruct (pi_table _ _ _ Hinv pid i Ht) as (f & Hi & Hp).
  destruct (flush_page_ok b dm m i f pid Hinv Ht Hi) as (b1 & dm1 & Hrun & Hinv1 & Ht1 & Hf1).
  destruct (IH b1 dm1 Hinv1) as (b2 & dm2 & Hrun2 & Hinv2 & Ht2 & Hpin & Hf2).
  { intros q Hq. rewrite Ht1. apply Hin. set_solver. }
  exists b2, dm2. split_and!; [|done|congruence| |].
  - cbn [flush_each]. by erewrite st_step by exact Hrun.
  - rewrite Hpin, Hf1, list_fmap_insert. apply list_insert_id. by rewrite list_lookup_fmap, Hi.
  - intros j g2 Hj. destruct (Hf2 j g2 Hj) as (g1 & Hj1 & Hpg & Hd). rewrite Hf1 in Hj1.
    destruct (decide (j = i)) as [->|Hne].
    + rewrite list_lookup_insert_eq in Hj1 by (by eapply lookup_lt_Some). injection Hj1 as <-.
      exists f. split_and!; [done|done|]. intros Hd2. by destruct (Hd Hd2).
    + rewrite list_lookup_insert_ne in Hj1 by done. exists g1. split_and!; [done|done|].
      intros Hd2. destruct (Hd Hd2) as [Hd1 Hnot]. split; [done|]. intros q Hq.
      apply not_elem_of_cons. split; [|by apply Hnot]. intros ->.
      destruct (pi_frame _ _ _ Hinv j g1 pid Hj1 Hq). congruence.
Qed.

Lemma dirty_pages_spec b pid :
  pid ∈ dirty_pages b ↔ ∃ i, page_table b !! pid = Some i ∧ dirty <$> frames b !! i = Some true.
Proof.
  unfold dirty_pages. rewrite list_elem_of_fmap. split.
  - intros ([q i] & -> & [Hd Hin]%list_elem_of_filter). apply elem_of_map_to_list in Hin. eauto.
  - intros (i & Ht & Hd). exists (pid, i). split; [done|]. apply list_elem_of_filter.
    split; [done|]. by apply elem_of_map_to_list.
Qed.

Lemma pool_new_inv n s dm : ps_rep s dm → pool_inv (pool_new n s) dm (erase <$> dm).
Proof.
  intros Hrep. constructor; cbn [pool_new frames page_table pm]; [done| | | | | |].
  - intros pid i Hi. by rewrite lookup_empty in Hi.
  - intros i f pid Hf. apply lookup_replicate in Hf as [-> _]. done.
  - intros i f Hf. apply lookup_replicate in Hf as [-> _]. done.
  - intros i f Hf. apply lookup_replicate in Hf as [-> _]. done.
  - intros pid. rewrite lookup_fmap. by rewrite fmap_is_Some.
  - intros pid _. apply lookup_fmap.
Qed.

(** ** Theorems *)

(** C11: Fetching an owned page either pins a frame that holds exactly the page's
    current logical bytes, changing no logical page and no other pinned frame, or
    reports exhaustion, and then only when every frame is pinned. *)
Theorem fetch_page_spec b m pid :
  pool_rep b m → is_Some (m !! pid) →
  (∀ i f, frames b !! i = Some f → pin_count f < u32_max) →
  (∃ i b' f, fetch_page pid b = (Ok i, b') ∧ pool_rep b' m ∧ loaded b b' i pid ∧
     frames b' !! i = Some f ∧ m !! pid = Some (erase (data f))) ∨
  (fetch_page pid b = (Err BufferPoolExhausted, b) ∧ page_table b !! pid = None ∧
     ∀ f, f ∈ frames b → is_pinned f = true).
Proof.
  intros [dm Hinv] Hown Hpins.
  assert (Hload : ∀ i b' dm', pool_inv b' dm' m → loaded b b' i pid →
    ∃ f, frames b' !! i = Some f ∧ m !! pid = Some (erase (data f))).
  { intros i b' dm' Hi [_ (f & Hf & Hp & _) _]. exists f. split; [done|]. by eapply frame_cached. }
  destruct (page_table b !! pid) as [i|] eqn:Ht.
  - left. destruct (pi_table _ _ _ Hinv pid i Ht) as (f & Hf & Hp).
    destruct (fetch_hit b dm m pid i f Hinv Ht Hf (Hpins i f Hf)) as (b' & Hrun & Hinv' & Hl & _).
    destruct (Hload _ _ _ Hinv' Hl) as (g & Hg & Hm). exists i, b', g.
    split_and!; [done|by exists dm|done..].
  - destruct (fetch_miss b dm m pid Hinv Ht Hown) as [(i & b' & dm' & Hrun & Hinv' & Hl & _)|[Hrun Hall]].
    + left. destruct (Hload _ _ _ Hinv' Hl) as (g & Hg & Hm). exists i, b', g.
      split_and!; [done|by exists dm'|done..].
    + right. done.
Qed.

(** The bytes given to a pinned frame become the page's logical bytes when the
    frame is unpinned dirty: fetch, write, unpin is an update of one logical page. *)
Theorem write_unpin_spec b m i f pid d :
  pool_rep b m → frames b !! i = Some f → fr_page_id f = Some pid → is_pinned f = true →
  length d = PAGE_SIZE →
  ∃ b1 b', write_frame i d b = (Ok tt, b1) ∧ unpin pid true b1 = (Ok tt, b') ∧
    pool_rep b' (<[pid := erase d]> m).
Proof.
  intros [dm Hinv] Hi Hp Hpin Hlen.
  destruct (unpin_ok b dm m i f pid true d Hinv Hi Hp Hpin Hlen (or_introl eq_refl)) as (b' & g & Hrun & Hinv' & _).
  eexists _, b'. split_and!; [|exact Hrun|by exists dm].
  unfold write_frame. by erewrite st_step by (by apply get_frame_ok).
Qed.

(** Flushing every dirty page, in whatever order the hash map yields them,
    succeeds, keeps the logical pages and leaves each of them on disk. *)
Theorem flush_all_durable b m (order : list Z → list Z) :
  pool_rep b m → (∀ l, order l ≡ₚ l) →
  ∃ b' dm, flush_all order b = (Ok tt, b') ∧ pool_rep b' m ∧ ps_rep (pm b') dm ∧
    ∀ pid, erase <$> dm !! pid = m !! pid.
Proof.
  intros [dm Hinv] Horder.
  assert (Hmem : ∀ pid, pid ∈ order (dirty_pages b) ↔ pid ∈ dirty_pages b).
  { intros pid. by rewrite (Horder (dirty_pages b)). }
  destruct (flush_each_ok (order (dirty_pages b)) b dm m Hinv) as (b' & dm' & Hrun & Hinv' & Ht & _ & Hf).
  { intros pid Hp. apply Hmem, dirty_pages_spec in Hp as (i & Hi & _). eauto. }
  exists b', dm'. split_and!; [exact Hrun|by exists dm'|apply Hinv'|]. intros pid.
  destruct (page_table b' !! pid) as [i|] eqn:E; [|symmetry; by apply (pi_miss _ _ _ Hinv')].
  destruct (pi_table _ _ _ Hinv' pid i E) as (f' & Hi & Hp).
  destruct (pi_frame _ _ _ Hinv' i f' pid Hi Hp) as (_ & _ & -> & Hcl).
  destruct (dirty f') eqn:Hd; [|by apply Hcl]. exfalso.
  destruct (Hf i f' Hi) as (f & Hi0 & Hpf & Hd0). destruct (Hd0 Hd) as [Hdf Hnot].
  rewrite Hpf in Hp. apply (Hnot pid Hp), Hmem, dirty_pages_spec. exists i.
  split; [congruence|]. by rewrite Hi0, <- Hdf.
Qed.

(** Eviction takes a free frame when there is one, and otherwise the unpinned
    frame with the least access counter, whose page keeps its logical bytes; no
    pinned frame is touched. *)
Theorem eviction_lru b m i b' :
  pool_rep b m → find_free_frame b = (Ok i, b') →
  pool_rep b' m ∧ (∀ j, j ≠ i → frames b' !! j = frames b !! j) ∧
  ∃ f, frames b !! i = Some f ∧ is_pinned f = false ∧
    (is_free f = true ∨
     ∀ g, g ∈ frames b → is_free g = false ∧ (is_pinned g = false → last_accessed f ≤ last_accessed g)).
Proof.
  intros [dm Hinv] Hrun.
  destruct (find_free_frame_ok b dm m Hinv) as [(j & b1 & dm1 & Hrun1 & Hinv1 & Hfr)|[Hrun1 _]];
    rewrite Hrun1 in Hrun; [|done].
  injection Hrun as -> ->. split_and!; [by exists dm1|apply Hfr|apply Hfr].
Qed.
End pool.

(** ** Witnesses: a pool of two frames over a new file, after one [new_page] *)

Definition demo_pool : BufferPool PageManager :=
  let C := crc32_ieee in (new_page (PS := PageManager_store) (pool_new 2 (pm_new None))).2.

Lemma demo_loaded :
  let C := crc32_ieee in
  ∃ b m dm f, new_page (PS := PageManager_store) (pool_new 2 (pm_new None)) = (Ok (1, 0%nat), b) ∧
    pool_inv (PS := PageManager_store) b dm (<[1 := erase zero_page]> m) ∧
    frames b !! 0%nat = Some f ∧ fr_page_id f = Some 1 ∧ is_pinned f = true.
Proof.
  intros C. destruct pm_new_ok as (Hrep & Hn & Hf).
  pose proof (pool_new_inv (PS := PageManager_store) 2 (pm_new None) ∅ Hrep) as Hinv.
  assert (Hres : (new_page (PS := PageManager_store) (pool_new 2 (pm_new None))).1 = Ok (1, 0%nat))
    by (vm_compute; reflexivity).
  destruct (new_page_ok (PS := PageManager_store) _ _ _ Hinv)
    as [(pid & i & b & dm & Hrun & _ & _ & Hinv' & Hl & _)|[Hx _]].
  - cbn [ps_room PageManager_store pm pool_new]. unfold pm_room. rewrite Hn, Hf. unfold u32_max. simpl. lia.
  - rewrite Hrun in Hres. cbn [fst] in Hres. injection Hres as -> ->.
    destruct (ld_frame _ _ _ _ Hl) as (f & Hfr & Hp & Hpin). exists b, (erase <$> ∅), dm, f.
    split_and!; [exact Hrun|exact Hinv'|exact Hfr|exact Hp|exact Hpin].
  - rewrite Hx in Hres. discriminate Hres.
Qed.

Lemma demo_pins : ∀ i f, frames demo_pool !! i = Some f → pin_count f < u32_max.
Proof.
  assert (forallb (λ f, pin_count f <? u32_max) (frames demo_pool) = true) as Hall
    by (vm_compute; reflexivity).
  rewrite forallb_forall in Hall. intros i f Hf. apply Z.ltb_lt, Hall, list_elem_of_In.
  by eapply list_elem_of_lookup_2.
Qed.

Lemma fetch_page_spec_witness :
  let C := crc32_ieee in
  (∃ i b' f m, fetch_page (PS := PageManager_store) 1 demo_pool = (Ok i, b') ∧
     pool_rep (PS := PageManager_store) b' m ∧ loaded demo_pool b' i 1 ∧
     frames b' !! i = Some f ∧ m !! 1 = Some (erase (data f))) ∨
  (fetch_page (PS := PageManager_store) 1 demo_pool = (Err BufferPoolExhausted, demo_pool) ∧
     page_table demo_pool !! 1 = None ∧ ∀ f, f ∈ frames demo_pool → is_pinned f = true).
Proof.
  intros C. destruct demo_loaded as (b & m & dm & f & Hrun & Hinv & Hf & Hp & Hpin).
  assert (demo_pool = b) as Hb by exact (f_equal snd Hrun).
  destruct (fetch_page_spec (PS := PageManager_store) demo_pool (<[1 := erase zero_page]> m) 1)
    as [(i & b' & g & H)|H].
  - rewrite Hb. exists dm. exact Hinv.
  - rewrite lookup_insert_eq. eauto.
  - exact demo_pins.
  - left. exists i, b', g, (<[1 := erase zero_page]> m). exact H.
  - right. exact H.
Defined.

Lemma write_unpin_spec_witness :
  let C := crc32_ieee in
  ∃ b1 b' m, write_frame 0 zero_page demo_pool = (Ok tt, b1) ∧ unpin 1 true b1 = (Ok tt, b') ∧
    pool_rep (PS := PageManager_store) b' (<[1 := erase zero_page]> m).
Proof.
  intros C. destruct demo_loaded as (b & m & dm & f & Hrun & Hinv & Hf & Hp & Hpin).
  assert (demo_pool = b) as Hb by exact (f_equal snd Hrun).
  destruct (write_unpin_spec (PS := PageManager_store) b (<[1 := erase zero_page]> m) 0 f 1 zero_page)
    as (b1 & b' & H1 & H2 & H3); [exists dm; exact Hinv|exact Hf|exact Hp|exact Hpin|apply length_zero_page|].
  rewrite Hb. exists b1, b', (<[1 := erase zero_page]> m). exact (conj H1 (conj H2 H3)).
Defined.

Lemma flush_all_durable_witness :
  let C := crc32_ieee in
  ∃ b' dm m, flush_all (PS := PageManager_store) reverse demo_pool = (Ok tt, b') ∧
    pool_rep (PS := PageManager_store) b' m ∧ pm_rep (pm b') dm ∧ ∀ pid, erase <$> dm !! pid = m !! pid.
Proof.
  intros C. destruct demo_loaded as (b & m & dm & f & Hrun & Hinv & _).
  assert (demo_pool = b) as Hb by exact (f_equal snd Hrun).
  destruct (flush_all_durable (PS := PageManager_store) b (<[1 := erase zero_page]> m) reverse)
    as (b' & dm' & H); [exists dm; exact Hinv|intros l; apply reverse_Permutation|].
  rewrite Hb. exists b', dm', (<[1 := erase zero_page]> m). exact H.
Defined.

Lemma eviction_lru_witness :
  let C := crc32_ieee in
  ∃ i b' m, find_free_frame (PS := PageManager_store) demo_pool = (Ok i, b') ∧
    pool_rep (PS := PageManager_store) b' m ∧ (∀ j, j ≠ i → frames b' !! j = frames demo_pool !! j).
Proof.
  intros C. destruct demo_loaded as (b & m & dm & f & Hrun & Hinv & _).
  assert (demo_pool = b) as Hb by exact (f_equal snd Hrun).
  assert ((find_free_frame (PS := PageManager_store) demo_pool).1 = Ok 1%nat) as Hr
    by (vm_compute; reflexivity).
  destruct (find_free_frame (PS := PageManager_store) demo_pool) as [r b'] eqn:E. cbn [fst] in Hr. subst r.
  destruct (eviction_lru (PS := PageManager_store) demo_pool (<[1 := erase zero_page]> m) 1 b')
    as (H1 & H2 & _); [rewrite Hb; exists dm; exact Hinv|exact E|].
  exists 1%nat, b', (<[1 := erase zero_page]> m). exact (conj eq_refl (conj H1 H2)).
Defined.
