(* ===== verification/Hlc.v ===== *)
(** * Hybrid logical clocks (src/src/wal/hlc.rs)

    An HLC is its packed [u64].  The wall clock is an input of each event
    ([None]: before the epoch); the mutex makes each method one atomic step on
    the state, so a run of the clock is a list of events. *)

From S2P Require Import Prelude.

Local Open Scope Z_scope.

Definition PHYSICAL_BITS : Z := 48.
Definition LOGICAL_BITS : Z := 16.
Definition LOGICAL_MASK : Z := Z.shiftl 1 LOGICAL_BITS - 1.

Definition pack (physical_ms logical : Z) : Z :=
  let phys := Z.land physical_ms (Z.shiftl 1 PHYSICAL_BITS - 1) in
  Z.lor (Z.shiftl phys LOGICAL_BITS) logical.

Definition physical_ms (h : Z) : Z := Z.shiftr h LOGICAL_BITS.
Definition logical (h : Z) : Z := Z.land h LOGICAL_MASK.
Definition hlc_to_le_bytes (h : Z) : bytes := to_le 8 h.
Definition hlc_from_le_bytes (b : bytes) : Z := of_le b.

Inductive HlcError :=
  | SkewExceeded (skew tolerance : Z)
  | LogicalOverflow (physical : Z)
  | BeforeEpoch.

Definition DEFAULT_MAX_SKEW_MS : Z := 60 * 60 * 1000.

Record HlcClock := mkClock { state : Z; max_skew_ms : Z }.

Abbreviation clock_m := (ST HlcClock HlcError).

Definition with_max_skew (wall : option Z) (skew : Z) : HlcClock :=
  mkClock (pack (default 0 wall) 0) skew.

Definition set_state (h : Z) : clock_m unit := st_modify (λ c, mkClock h (max_skew_ms c)).

(** [u16::checked_add(1)] *)
Definition checked_succ (l : Z) : option Z := if decide (l = u16_max) then None else Some (l + 1).

Definition now (wall : option Z) : clock_m Z :=
  c ← st_get;
  wall ← st_lift (ok_or wall BeforeEpoch);
  let prev_phys := physical_ms (state c) in
  let prev_log := logical (state c) in
  next ← (if decide (prev_phys < wall) then mret (pack wall 0)
          else
            new_log ← st_lift (ok_or (checked_succ prev_log) (LogicalOverflow prev_phys));
            mret (pack prev_phys new_log));
  _ ← set_state next;
  mret next.

Definition update (wall : option Z) (remote : Z) : clock_m Z :=
  c ← st_get;
  wall ← st_lift (ok_or wall BeforeEpoch);
  if decide (u64_max < wall + max_skew_ms c) then st_lift Panic
  else if decide (wall + max_skew_ms c < physical_ms remote) then
    st_fail (SkewExceeded (physical_ms remote - wall) (max_skew_ms c))
  else
    let prev_phys := physical_ms (state c) in
    let prev_log := logical (state c) in
    let rem_phys := physical_ms remote in
    let rem_log := logical remote in
    let new_phys := Z.max (Z.max wall prev_phys) rem_phys in
    let bump l := st_lift (ok_or (checked_succ l) (LogicalOverflow new_phys)) in
    new_log ← (if decide (new_phys = prev_phys ∧ new_phys = rem_phys) then bump (Z.max prev_log rem_log)
               else if decide (new_phys = prev_phys) then bump prev_log
               else if decide (new_phys = rem_phys) then bump rem_log
               else mret 0);
    let next := pack new_phys new_log in
    _ ← set_state next;
    mret next.

(** ** Packing *)

Lemma pack_eq p l : is_u16 l → pack p l = (p `mod` 2 ^ 48) * 65536 + l.
Proof.
  intros Hl. unfold pack, PHYSICAL_BITS, LOGICAL_BITS, is_u16 in *.
  rewrite Z.shiftl_1_l. replace (2 ^ 48 - 1) with (Z.ones 48) by done.
  rewrite Z.land_ones by lia. rewrite Z.shiftl_mul_pow2 by lia.
  change 65536 with (2 ^ 16). symmetry.
  rewrite <- Z.add_lor_land. enough (Z.land (p `mod` 2 ^ 48 * 2 ^ 16) l = 0) as -> by lia.
  apply Z.bits_inj'. intros k Hk. rewrite Z.land_spec, Z.bits_0.
  destruct (decide (k < 16)).
  - rewrite Z.mul_pow2_bits_low by lia. done.
  - destruct (decide (l = 0)) as [->|]; [rewrite Z.bits_0; apply andb_false_r|].
    rewrite (Z.bits_above_log2 l); [apply andb_false_r|lia|].
    apply Z.lt_le_trans with 16; [|lia]. apply Z.log2_lt_pow2; lia.
Qed.

Lemma physical_eq h : physical_ms h = h `div` 65536.
Proof. unfold physical_ms, LOGICAL_BITS. by rewrite Z.shiftr_div_pow2. Qed.

Lemma logical_eq h : logical h = h `mod` 65536.
Proof.
  unfold logical, LOGICAL_MASK, LOGICAL_BITS. rewrite Z.shiftl_1_l.
  replace (2 ^ 16 - 1) with (Z.ones 16) by done. by rewrite Z.land_ones.
Qed.

Lemma hlc_split h : h = physical_ms h * 65536 + logical h.
Proof. rewrite physical_eq, logical_eq. pose proof (Z.div_mod h 65536). lia. Qed.

Lemma logical_range h : is_u16 (logical h).
Proof. rewrite logical_eq. apply Z.mod_pos_bound. lia. Qed.

Lemma physical_range h : is_u64 h → 0 ≤ physical_ms h < 2 ^ 48.
Proof.
  intros [H0 H1]. rewrite physical_eq. split; [apply Z.div_pos; lia|].
  apply Z.div_lt_upper_bound; lia.
Qed.

Lemma pack_small p l : 0 ≤ p < 2 ^ 48 → is_u16 l → pack p l = p * 65536 + l.
Proof. intros Hp Hl. rewrite pack_eq by done. by rewrite Z.mod_small. Qed.

Lemma pack_parts p l :
  0 ≤ p < 2 ^ 48 → is_u16 l →
  physical_ms (pack p l) = p ∧ logical (pack p l) = l ∧ is_u64 (pack p l).
Proof.
  intros Hp Hl. rewrite pack_small, physical_eq, logical_eq by done. unfold is_u16, is_u64 in *.
  rewrite Z.div_add_l, Z.div_small by lia. rewrite (Z.add_comm (p * 65536)), Z.mod_add, Z.mod_small by lia.
  split_and!; lia.
Qed.

(** HLCs are ordered by physical time first, then by the counter. *)
Lemma hlc_lt a b :
  physical_ms a < physical_ms b ∨ physical_ms a = physical_ms b ∧ logical a < logical b → a < b.
Proof.
  intros Hab. rewrite (hlc_split a), (hlc_split b). revert Hab. pose proof (logical_range a). pose proof (logical_range b).
  unfold is_u16 in *. lia.
Qed.

(** ** Events *)

Inductive event := ENow (wall : option Z) | EUpdate (wall : option Z) (remote : Z).

Definition step (e : event) : clock_m Z :=
  match e with ENow w => now w | EUpdate w r => update w r end.

Definition event_wall (e : event) : option Z := match e with ENow w | EUpdate w _ => w end.

(** A clock reading before the year 10889, a tolerance that does not overflow a
    [u64] when added to it, and a remote value that is a [u64]. *)
Definition sane (skew : Z) (e : event) : Prop :=
  match event_wall e with Some w => 0 ≤ w < 2 ^ 48 ∧ w + skew ≤ u64_max | None => True end ∧
  match e with EUpdate _ r => is_u64 r | ENow _ => True end.

Lemma now_run c w :
  is_u64 (state c) → 0 ≤ w < 2 ^ 48 →
  let p := physical_ms (state c) in let l := logical (state c) in
  now (Some w) c =
    if decide (p < w) then (Ok (pack w 0), mkClock (pack w 0) (max_skew_ms c))
    else if decide (l = u16_max) then (Err (LogicalOverflow p), c)
    else (Ok (pack p (l + 1)), mkClock (pack p (l + 1)) (max_skew_ms c)).
Proof.
  intros Hs Hw p l. unfold now. rewrite st_get_bind. cbn [ok_or]. unfold st_lift at 1.
  erewrite st_step by reflexivity. fold p l. case_decide; [done|]. unfold checked_succ.
  case_decide; done.
Qed.

Lemma now_ok c w :
  is_u64 (state c) → 0 ≤ w < 2 ^ 48 →
  match now (Some w) c with
  | (Ok h, c') => state c' = h ∧ state c < h ∧ is_u64 h ∧ max_skew_ms c' = max_skew_ms c ∧
      physical_ms h = Z.max w (physical_ms (state c))
  | (Err e, c') => c' = c ∧ e = LogicalOverflow (physical_ms (state c)) ∧
      w ≤ physical_ms (state c) ∧ logical (state c) = u16_max
  | (Panic, _) => False
  end.
Proof.
  intros Hs Hw. rewrite now_run by done. pose proof (physical_range _ Hs) as Hp.
  pose proof (logical_range (state c)) as Hl. unfold is_u16, u16_max in *.
  repeat case_decide; cbn [state max_skew_ms].
  - destruct (pack_parts w 0 Hw) as (H1 & H2 & H3); [unfold is_u16; lia|].
    split_and!; try done; [|lia]. apply hlc_lt. lia.
  - split_and!; try done. lia.
  - destruct (pack_parts (physical_ms (state c)) (logical (state c) + 1) Hp) as (H1 & H2 & H3);
      [unfold is_u16; lia|].
    split_and!; try done; [|lia]. apply hlc_lt. lia.
Qed.

Lemma hlc_update_ok c w r :
  is_u64 (state c) → 0 ≤ w < 2 ^ 48 → w + max_skew_ms c ≤ u64_max → is_u64 r →
  match update (Some w) r c with
  | (Ok h, c') => state c' = h ∧ state c < h ∧ r < h ∧ is_u64 h ∧ max_skew_ms c' = max_skew_ms c ∧
      physical_ms h = Z.max (Z.max w (physical_ms (state c))) (physical_ms r) ∧
      physical_ms r ≤ w + max_skew_ms c
  | (Err (SkewExceeded d t), c') => c' = c ∧ d = physical_ms r - w ∧ t = max_skew_ms c ∧ t < d
  | (Err (LogicalOverflow p), c') => c' = c ∧ physical_ms r ≤ w + max_skew_ms c ∧
      p = Z.max (Z.max w (physical_ms (state c))) (physical_ms r)
  | _ => False
  end.
Proof.
  intros Hs Hw Hsk Hr. pose proof (physical_range _ Hs) as Hp. pose proof (physical_range _ Hr) as Hq.
  pose proof (logical_range (state c)) as Hl. pose proof (logical_range r) as Hlr.
  unfold update. rewrite st_get_bind. cbn [ok_or]. unfold st_lift at 1.
  erewrite st_step by reflexivity. rewrite decide_False by lia. case_decide as Hskew.
  { simpl. split_and!; [done..|lia]. }
  set (np := Z.max (Z.max w (physical_ms (state c))) (physical_ms r)).
  set (bump := λ l : Z, st_lift (ok_or (checked_succ l) (LogicalOverflow np)) : clock_m Z).
  set (pick := (if decide (np = physical_ms (state c) ∧ np = physical_ms r)
                then bump (Z.max (logical (state c)) (logical r))
                else if decide (np = physical_ms (state c)) then bump (logical (state c))
                else if decide (np = physical_ms r) then bump (logical r) else mret 0)).
  assert (Hpick : (∃ l, pick c = (Ok l, c) ∧ is_u16 l ∧
      (np = physical_ms (state c) → logical (state c) < l) ∧ (np = physical_ms r → logical r < l)) ∨
    pick c = (Err (LogicalOverflow np), c)).
  { unfold pick, bump, checked_succ, is_u16, u16_max, st_lift in *. repeat case_decide; cbn [ok_or];
      first [by right | left; eexists; split; [reflexivity|lia]]. }
  destruct Hpick as [(l & Hrun & Hu & H1 & H2)|Hrun].
  - erewrite st_step by exact Hrun. destruct (pack_parts np l) as (E1 & E2 & E3); [lia|done|].
    cbn. split_and!; try done; try lia; apply hlc_lt; lia.
  - erewrite st_step_err by exact Hrun. split_and!; try done. lia.
Qed.

(** ** Runs *)

Fixpoint run_clock (es : list event) (c : HlcClock) : list (outcome HlcError Z) * HlcClock :=
  match es with
  | [] => ([], c)
  | e :: es => let '(r, c) := step e c in let '(rs, c) := run_clock es c in (r :: rs, c)
  end.

(** The timestamps issued, in order. *)
Definition issued (rs : list (outcome HlcError Z)) : list Z :=
  omap (λ r, match r with Ok h => Some h | _ => None end) rs.

Lemma step_ok e c :
  is_u64 (state c) → sane (max_skew_ms c) e →
  match step e c with
  | (Ok h, c') => state c' = h ∧ state c < h ∧ is_u64 h ∧ max_skew_ms c' = max_skew_ms c
  | (Err _, c') => c' = c
  | (Panic, _) => False
  end.
Proof.
  intros Hs [Hw Hr]. destruct e as [[w|]|[w|] r]; cbn [step event_wall] in *; try done.
  - pose proof (now_ok c w Hs ltac:(lia)) as H. destruct (now (Some w) c) as [[h|e|] c']; naive_solver.
  - pose proof (hlc_update_ok c w r Hs ltac:(lia) ltac:(lia) Hr) as H.
    destruct (update (Some w) r c) as [[h|[]|] c']; naive_solver.
Qed.

Lemma run_clock_mono es c :
  is_u64 (state c) → Forall (sane (max_skew_ms c)) es →
  StronglySorted Z.lt (state c :: issued (run_clock es c).1) ∧
  Forall (λ r, r ≠ Panic) (run_clock es c).1.
Proof.
  revert c. induction es as [|e es IH]; intros c Hs Hsane.
  { split; repeat constructor. }
  apply Forall_cons in Hsane as [He Hes]. pose proof (step_ok e c Hs He) as Hstep.
  cbn [run_clock]. destruct (step e c) as [r c1].
  destruct r as [h|er|]; [|subst c1|done].
  - destruct Hstep as (Hst & Hlt & Hu & Hsk). rewrite <- Hst in Hlt, Hu. rewrite <- Hsk in Hes.
    destruct (IH c1 Hu Hes) as [Hsort Hnp]. destruct (run_clock es c1) as [rs c2]. cbn [fst] in *.
    split; [|by constructor]. change (issued (Ok h :: rs)) with (h :: issued rs).
    rewrite <- Hst. constructor; [done|]. constructor; [done|].
    inversion Hsort as [|? ? _ Hall]; subst. eapply Forall_impl; [exact Hall|]. simpl. lia.
  - destruct (IH c Hs Hes) as [Hsort Hnp]. destruct (run_clock es c) as [rs c2]. cbn [fst] in *.
    split; [done|by constructor].
Qed.

(** C29: Whatever the wall clock does between calls (standing still or going back
    included), the timestamps a clock issues over any run of local and remote
    events are strictly increasing, and no event panics. *)
Theorem hlc_strictly_increasing (es : list event) (c : HlcClock) :
  is_u64 (state c) → Forall (sane (max_skew_ms c)) es →
  StronglySorted Z.lt (issued (run_clock es c).1) ∧
  Forall (λ h, state c < h) (issued (run_clock es c).1) ∧
  Forall (λ r, r ≠ Panic) (run_clock es c).1.
Proof.
  intros Hs He. destruct (run_clock_mono es c Hs He) as [Hsort Hnp].
  inversion Hsort; subst. done.
Qed.

Lemma hlc_strictly_increasing_witness :
  let es := [ENow (Some 1000); ENow (Some 1000); ENow (Some 900); EUpdate (Some 950) (pack 1200 7);
             ENow None; EUpdate (Some 1000) (pack 99999999 0); ENow (Some 1300)] in
  let c := mkClock (pack 1000 0) DEFAULT_MAX_SKEW_MS in
  StronglySorted Z.lt (issued (run_clock es c).1) ∧
  Forall (λ h, state c < h) (issued (run_clock es c).1) ∧
  Forall (λ r, r ≠ Panic) (run_clock es c).1.
Proof.
  intros es c. apply hlc_strictly_increasing.
  - vm_compute. intuition discriminate.
  - repeat constructor; vm_compute; discriminate || reflexivity.
Defined.

Example hlc_run :
  issued (run_clock [ENow (Some 1000); ENow (Some 900); EUpdate (Some 950) (pack 1200 7)]
            (mkClock (pack 1000 0) DEFAULT_MAX_SKEW_MS)).1 = [pack 1000 1; pack 1000 2; pack 1200 8].
Proof. reflexivity. Qed.

(** A merged remote timestamp is dominated by the result, which never runs
    further ahead of the wall clock than the tolerance or the previous state;
    a remote too far ahead, or a full counter, is refused with the state unchanged. *)
Theorem hlc_update_spec (c : HlcClock) (w r : Z) :
  is_u64 (state c) → 0 ≤ w < 2 ^ 48 → w + max_skew_ms c ≤ u64_max → is_u64 r →
  match update (Some w) r c with
  | (Ok h, c') => state c' = h ∧ state c < h ∧ r < h ∧
      physical_ms h ≤ Z.max (w + Z.max 0 (max_skew_ms c)) (physical_ms (state c))
  | (Err (SkewExceeded d t), c') => c' = c ∧ w + t < physical_ms r
  | (Err (LogicalOverflow p), c') => c' = c ∧ p = Z.max (Z.max w (physical_ms (state c))) (physical_ms r)
  | _ => False
  end.
Proof.
  intros Hs Hw Hsk Hr. pose proof (hlc_update_ok c w r Hs Hw Hsk Hr) as H.
  destruct (update (Some w) r c) as [[h|[]|] c']; try done; [| |naive_solver].
  2:{ destruct H as (-> & -> & -> & Hd). split; [done|lia]. }
  destruct H as (H1 & H2 & H3 & H4 & H5 & H6 & H7). split_and!; try done. lia.
Qed.

Lemma hlc_update_spec_witness :
  match update (Some 950) (pack 1200 7) (mkClock (pack 1000 0) 500) with
  | (Ok h, c') => state c' = h ∧ pack 1000 0 < h ∧ pack 1200 7 < h ∧
      physical_ms h ≤ Z.max (950 + Z.max 0 500) (physical_ms (pack 1000 0))
  | (Err (SkewExceeded d t), c') => c' = mkClock (pack 1000 0) 500 ∧ 950 + t < physical_ms (pack 1200 7)
  | (Err (LogicalOverflow p), c') => c' = mkClock (pack 1000 0) 500 ∧
      p = Z.max (Z.max 950 (physical_ms (pack 1000 0))) (physical_ms (pack 1200 7))
  | _ => False
  end.
Proof.
  apply (hlc_update_spec (mkClock (pack 1000 0) 500) 950 (pack 1200 7));
    vm_compute; intuition discriminate.
Defined.
