(* ===== verification/VClock.v ===== *)
(** * Vector clocks (src/src/wal/vclock.rs)

    The [BTreeMap<u128, u64>] is its entries in key order. *)

From stdpp Require Import sorting.
From S2P Require Import Prelude RustStd.

Local Open Scope Z_scope.

Definition MAX_VCLOCK_ENTRIES : Z := 4096.
Definition VCLOCK_ENTRY_SIZE : nat := 16 + 8.

Abbreviation VectorClock := (list (Z * Z)).

Inductive VClockOrdering := Equal | LessThan | GreaterThan | Concurrent.
Inductive VClockError := Truncated (needed have : nat) | TooManyEntries (n : Z).

Definition vc_new : VectorClock := [].
Definition singleton (node counter : Z) : VectorClock := bt_insert node counter [].
Definition get (vc : VectorClock) (node : Z) : Z := default 0 (bt_get node vc).
Definition set (node counter : Z) (vc : VectorClock) : VectorClock := bt_insert node counter vc.

(** [or_insert(0)] then [saturating_add(1)] *)
Definition bump (node : Z) (vc : VectorClock) : Z * VectorClock :=
  let v := Z.min (get vc node + 1) u64_max in (v, bt_insert node v vc).

Definition merge_entry (vc : VectorClock) (e : Z * Z) : VectorClock :=
  let cur := get vc e.1 in bt_insert e.1 (if decide (cur < e.2) then e.2 else cur) vc.
Definition merge (vc other : VectorClock) : VectorClock := foldl merge_entry vc other.

(** The [BTreeSet] of the keys of both clocks. *)
Definition all_keys (a b : VectorClock) : list Z :=
  (foldl (λ s k, bt_insert k tt s) [] (a.*1 ++ b.*1)).*1.

Definition compare_step (a b : VectorClock) (flags : bool * bool) (k : Z) : bool * bool :=
  let '(le, ge) := flags in
  let x := get a k in let y := get b k in
  (if decide (y < x) then false else le, if decide (x < y) then false else ge).

Definition compare (a b : VectorClock) : VClockOrdering :=
  match foldl (compare_step a b) (true, true) (all_keys a b) with
  | (true, true) => Equal
  | (true, false) => LessThan
  | (false, true) => GreaterThan
  | (false, false) => Concurrent
  end.

Definition encoded_len (vc : VectorClock) : nat := (2 + length vc * VCLOCK_ENTRY_SIZE)%nat.

Definition encode_entry (e : Z * Z) : bytes := to_le 16 e.1 ++ to_le 8 e.2.
Definition encode_to (vc : VectorClock) (buf : bytes) : bytes :=
  buf ++ to_le 2 (Z.of_nat (length vc) `mod` 65536) ++ concat (encode_entry <$> vc).

Fixpoint decode_entries (n cur : nat) (buf : bytes) (entries : VectorClock) : VectorClock :=
  match n with
  | O => entries
  | S n =>
      let node := le_at cur 16 buf in
      let counter := le_at (cur + 16) 8 buf in
      decode_entries n (cur + 24) buf (bt_insert node counter entries)
  end.

Definition decode (buf : bytes) : outcome VClockError (VectorClock * nat) :=
  if decide (length buf < 2)%nat then Err (Truncated 2 (length buf))
  else
    let n := le_at 0 2 buf in
    if decide (MAX_VCLOCK_ENTRIES < n) then Err (TooManyEntries n)
    else
      let total := (2 + Z.to_nat n * VCLOCK_ENTRY_SIZE)%nat in
      if decide (length buf < total)%nat then Err (Truncated total (length buf))
      else Ok (decode_entries (Z.to_nat n) 2 buf [], total).

(** ** Well-formed clocks *)

Record vc_wf (vc : VectorClock) : Prop := {
  vc_sorted : bt_sorted vc;
  vc_ranges : Forall (λ e, is_u128 e.1 ∧ is_u64 e.2) vc;
}.

Lemma vc_get_range vc k : vc_wf vc → is_u64 (get vc k).
Proof.
  intros [Hs Hr]. unfold get. destruct (bt_get k vc) as [v|] eqn:E; simpl.
  - apply bt_get_elem in E; [|done]. rewrite Forall_forall in Hr. by apply (Hr _ E).
  - unfold is_u64. lia.
Qed.

Lemma vc_wf_insert node v vc : vc_wf vc → is_u128 node → is_u64 v → vc_wf (bt_insert node v vc).
Proof.
  intros [Hs Hr] Hn Hv. split; [by apply bt_sorted_insert|].
  apply bt_insert_Forall; auto.
Qed.

(** ** Merge *)

Lemma bt_get_cons_sorted k k1 (c1 : Z) (b : VectorClock) :
  bt_sorted ((k1, c1) :: b) →
  bt_get k ((k1, c1) :: b) = if decide (k = k1) then Some c1 else bt_get k b.
Proof.
  intros [Hall Hs]%bt_sorted_cons. cbn [bt_get]. case_decide as Hd.
  - subst. by rewrite cmp_refl.
  - destruct (cmp k k1) eqn:E; [by apply cmp_eq in E| |done].
    rewrite bt_get_below; [done|]. eapply Forall_impl; [exact Hall|].
    intros e He. by transitivity k1.
Qed.

Lemma merge_spec a b :
  bt_sorted a → bt_sorted b →
  bt_sorted (merge a b) ∧
  ∀ k, bt_get k (merge a b) =
    match bt_get k b with Some c => Some (Z.max (get a k) c) | None => bt_get k a end.
Proof.
  unfold merge. revert a. induction b as [|[k1 c1] b IH]; intros a Ha Hb; [done|].
  pose proof Hb as [Hall Hb']%bt_sorted_cons. cbn [foldl].
  set (a' := merge_entry a (k1, c1)).
  assert (Ha' : bt_sorted a') by (by apply bt_sorted_insert).
  destruct (IH a' Ha' Hb') as [Hs Hg]. split; [done|]. intros k. rewrite Hg.
  assert (Hga : bt_get k a' = if decide (k = k1)
    then Some (if decide (get a k1 < c1) then c1 else get a k1) else bt_get k a).
  { unfold a', merge_entry. cbn [fst snd]. rewrite bt_get_insert by done.
    repeat case_decide; done. }
  rewrite bt_get_cons_sorted by done. case_decide as Hk.
  - rewrite Hk in *. rewrite (bt_get_below k1 b) by done. rewrite Hga. clear Hg Hga.
    repeat case_decide; try done; f_equal; lia.
  - unfold get. by rewrite Hga.
Qed.

Lemma merge_wf a b : vc_wf a → vc_wf b → vc_wf (merge a b).
Proof.
  intros [Ha Hra] [Hb Hrb]. destruct (merge_spec a b Ha Hb) as [Hs Hg]. split; [done|].
  apply Forall_forall. intros [k v] Hin. apply bt_get_elem in Hin; [|done]. rewrite Hg in Hin.
  assert (Hget : ∀ x w, (x, w) ∈ a → is_u128 x ∧ is_u64 w).
  { intros x w Hx. rewrite Forall_forall in Hra. by apply (Hra _ Hx). }
  pose proof (vc_get_range a k (Build_vc_wf _ Ha Hra)) as Hga.
  destruct (bt_get k b) as [c|] eqn:E; [|apply bt_get_elem in Hin; [by apply Hget|done]].
  apply bt_get_elem in E; [|done]. rewrite Forall_forall in Hrb. destruct (Hrb _ E) as [Hk Hc].
  cbn [fst snd] in *. injection Hin as <-. split; [done|]. unfold is_u64 in *. lia.
Qed.

Lemma merge_get a b k : vc_wf a → vc_wf b → get (merge a b) k = Z.max (get a k) (get b k).
Proof.
  intros Ha Hb. pose proof (vc_get_range a k Ha). unfold get at 1.
  rewrite (proj2 (merge_spec a b (vc_sorted _ Ha) (vc_sorted _ Hb))).
  unfold get in *. destruct (bt_get k b), (bt_get k a); simpl in *; unfold is_u64 in *; lia.
Qed.

(** ** Comparison *)

Lemma all_keys_spec a b k : k ∈ all_keys a b ↔ k ∈ a.*1 ∨ k ∈ b.*1.
Proof.
  unfold all_keys. rewrite <- elem_of_app. generalize (a.*1 ++ b.*1). intros l.
  assert (Hgen : ∀ s, bt_sorted s → (k ∈ (foldl (λ s k, bt_insert k tt s) s l).*1 ↔ k ∈ s.*1 ∨ k ∈ l)).
  { induction l as [|x l IH]; intros s Hs; cbn [foldl]; [set_solver|].
    rewrite IH by (by apply bt_sorted_insert). rewrite elem_of_cons.
    assert (k ∈ (bt_insert x tt s).*1 ↔ k = x ∨ k ∈ s.*1) as ->; [|tauto].
    assert (Hk : ∀ m : list (Z * unit), bt_sorted m → (k ∈ m.*1 ↔ bt_get k m = Some tt)).
    { intros m Hm. rewrite bt_get_elem by done. rewrite list_elem_of_fmap. split.
      - intros ([? []] & -> & ?). done.
      - intros Hin. by exists (k, tt). }
    rewrite !Hk by (done || by apply bt_sorted_insert). rewrite bt_get_insert by done.
    case_decide; naive_solver. }
  rewrite Hgen by constructor. set_solver.
Qed.

Definition vc_le (a b : VectorClock) : Prop := ∀ k, get a k ≤ get b k.

Lemma compare_fold a b ks le ge :
  foldl (compare_step a b) (le, ge) ks =
    (le && forallb (λ k, get a k <=? get b k) ks, ge && forallb (λ k, get b k <=? get a k) ks).
Proof.
  revert le ge. induction ks as [|k ks IH]; intros le ge; cbn [foldl forallb].
  - by rewrite !andb_true_r.
  - unfold compare_step at 2. rewrite IH.
    destruct (Z.leb_spec (get a k) (get b k)), (Z.leb_spec (get b k) (get a k));
      repeat case_decide; try lia; cbn [andb]; rewrite ?andb_false_r; done.
Qed.

Lemma get_absent a k : k ∉ a.*1 → bt_sorted a → get a k = 0.
Proof.
  intros Hk Hs. unfold get. destruct (bt_get k a) as [v|] eqn:E; [|done]. destruct Hk.
  apply bt_get_elem in E; [|done]. apply list_elem_of_fmap. by exists (k, v).
Qed.

Lemma forallb_le a b x y :
  bt_sorted x → bt_sorted y → (∀ k, k ∈ all_keys a b ↔ k ∈ x.*1 ∨ k ∈ y.*1) →
  forallb (λ k, get x k <=? get y k) (all_keys a b) = true ↔ vc_le x y.
Proof.
  intros Hx Hy Hk. rewrite forallb_forall. unfold vc_le. setoid_rewrite <- list_elem_of_In.
  setoid_rewrite Z.leb_le. split; [|auto]. intros H k.
  destruct (decide (k ∈ all_keys a b)) as [Hin|Hin]; [by apply H|].
  rewrite Hk in Hin. rewrite !get_absent by tauto. done.
Qed.

Lemma compare_spec a b :
  bt_sorted a → bt_sorted b →
  match compare a b with
  | Equal => vc_le a b ∧ vc_le b a
  | LessThan => vc_le a b ∧ ¬ vc_le b a
  | GreaterThan => ¬ vc_le a b ∧ vc_le b a
  | Concurrent => ¬ vc_le a b ∧ ¬ vc_le b a
  end.
Proof.
  intros Ha Hb. unfold compare. rewrite compare_fold. cbn [andb].
  pose proof (forallb_le a b a b Ha Hb (all_keys_spec a b)) as H1.
  assert (∀ k, k ∈ all_keys a b ↔ k ∈ b.*1 ∨ k ∈ a.*1) as Hk by (intros; rewrite all_keys_spec; tauto).
  pose proof (forallb_le a b b a Hb Ha Hk) as H2.
  destruct (forallb _ _), (forallb _ _); naive_solver.
Qed.

(** ** Encoding *)

Lemma length_encode_entry e : length (encode_entry e) = 24%nat.
Proof. unfold encode_entry. len. Qed.

Lemma length_entries (vc : VectorClock) : length (concat (encode_entry <$> vc)) = (length vc * 24)%nat.
Proof.
  induction vc as [|e vc IH]; [done|].
  change (concat (encode_entry <$> e :: vc)) with (encode_entry e ++ concat (encode_entry <$> vc)).
  rewrite length_app, IH, length_encode_entry. cbn [length]. lia.
Qed.

Lemma decode_entries_ok vc pre rest acc :
  Forall (λ e, is_u128 e.1 ∧ is_u64 e.2) vc → bt_sorted (acc ++ vc) →
  decode_entries (length vc) (length pre) (pre ++ concat (encode_entry <$> vc) ++ rest) acc = acc ++ vc.
Proof.
  revert pre acc. induction vc as [|[k v] vc IH]; intros pre acc Hr Hs; [by rewrite app_nil_r|].
  apply Forall_cons in Hr as [[Hk Hv] Hr]. cbn [fst snd] in *.
  change (concat (encode_entry <$> (k, v) :: vc)) with
    ((to_le 16 k ++ to_le 8 v) ++ concat (encode_entry <$> vc)).
  cbn [decode_entries length].
  rewrite !(le_at_app_r _ _ pre) by lia. rewrite Nat.sub_diag.
  replace (length pre + 16 - length pre)%nat with 16%nat by lia. rewrite <- !app_assoc.
  rewrite le_at_to_le by done. rewrite (le_at_app_r 16 8 (to_le 16 k)) by len.
  rewrite length_to_le, Nat.sub_diag, le_at_to_le by done.
  assert (Hlast : Forall (λ e, klt e.1 k) acc).
  { apply Forall_forall. intros e He.
    by apply (StronglySorted_app_1_elem_of (λ a b, klt a.1 b.1) acc ((k, v) :: vc) e (k, v) Hs He); left. }
  rewrite bt_insert_last by done.
  specialize (IH (pre ++ to_le 16 k ++ to_le 8 v) (acc ++ [(k, v)]) Hr).
  rewrite <- !app_assoc in IH. rewrite !length_app, !length_to_le in IH.
  replace (length pre + 24)%nat with (length pre + (16 + 8))%nat by lia. by apply IH.
Qed.

Lemma decode_encode_ok vc rest :
  vc_wf vc → Z.of_nat (length vc) ≤ MAX_VCLOCK_ENTRIES →
  decode (encode_to vc [] ++ rest) = Ok (vc, encoded_len vc).
Proof.
  intros [Hs Hr] Hn. unfold MAX_VCLOCK_ENTRIES in *. unfold encode_to. rewrite app_nil_l, <- app_assoc.
  rewrite Z.mod_small by lia. unfold decode, encoded_len, VCLOCK_ENTRY_SIZE, MAX_VCLOCK_ENTRIES.
  pose proof (length_entries vc) as Hl.
  rewrite decide_False by (rewrite !length_app, length_to_le; lia).
  rewrite le_at_to_le by lia. rewrite decide_False by lia. rewrite Nat2Z.id.
  rewrite decide_False by (rewrite !length_app, length_to_le, Hl; lia).
  pose proof (decode_entries_ok vc (to_le 2 (Z.of_nat (length vc))) rest [] Hr Hs) as Hd.
  rewrite length_to_le in Hd. by rewrite Hd.
Qed.

(** ** Theorems *)

(** [compare] decides the pointwise order: it answers [LessThan] exactly when
    every counter of the first clock is at most the second's and the converse
    fails, [Concurrent] exactly when neither dominates, and so on; an absent node
    counts as zero. *)
Theorem vclock_compare_spec (a b : VectorClock) :
  bt_sorted a → bt_sorted b →
  match compare a b with
  | Equal => ∀ k, get a k = get b k
  | LessThan => vc_le a b ∧ ∃ k, get a k < get b k
  | GreaterThan => vc_le b a ∧ ∃ k, get b k < get a k
  | Concurrent => (∃ k, get a k < get b k) ∧ ∃ k, get b k < get a k
  end.
Proof.
  intros Ha Hb. pose proof (compare_spec a b Ha Hb) as H.
  assert (Hex : ∀ x y, bt_sorted x → bt_sorted y → ¬ vc_le x y → ∃ k, get y k < get x k).
  { intros x y Hx Hy Hn. destruct (decide (Exists (λ k, get y k < get x k) (x.*1 ++ y.*1))) as [He|He].
    - apply Exists_exists in He as (k & _ & Hk). eauto.
    - destruct Hn. intros k. destruct (decide (k ∈ x.*1 ++ y.*1)) as [Hin|Hin].
      + apply Z.nlt_ge. intros Hk. apply He, Exists_exists. eauto.
      + rewrite elem_of_app in Hin. rewrite !get_absent by tauto. done. }
  destruct (compare a b); destruct H as [H1 H2]; try (split; auto).
  intros k. specialize (H1 k). specialize (H2 k). lia.
Qed.

Lemma vclock_compare_spec_witness :
  match compare [(1, 5); (2, 3)] [(1, 4); (3, 1)] with
  | Concurrent => (∃ k, get [(1, 5); (2, 3)] k < get [(1, 4); (3, 1)] k) ∧
      ∃ k, get [(1, 4); (3, 1)] k < get [(1, 5); (2, 3)] k
  | _ => False
  end.
Proof.
  pose proof (vclock_compare_spec [(1, 5); (2, 3)] [(1, 4); (3, 1)]
    ltac:(by apply bt_sortedb_spec) ltac:(by apply bt_sortedb_spec)) as H. exact H.
Defined.

(** [merge] is the join of the pointwise order: it keeps clocks well formed,
    is the least clock above both, and is commutative, associative and idempotent
    as an operation on the stored maps, so replicas that merge the same clocks in
    any order agree. *)
Theorem vclock_merge_join (a b c : VectorClock) :
  vc_wf a → vc_wf b → vc_wf c →
  vc_wf (merge a b) ∧ vc_le a (merge a b) ∧ vc_le b (merge a b) ∧
  (vc_le a c → vc_le b c → vc_le (merge a b) c) ∧
  merge a b = merge b a ∧ merge (merge a b) c = merge a (merge b c) ∧ merge a a = a.
Proof.
  intros Ha Hb Hc. pose proof (merge_wf a b Ha Hb) as Hab. pose proof (merge_wf b c Hb Hc) as Hbc.
  pose proof (merge_wf b a Hb Ha) as Hba. pose proof (merge_wf a a Ha Ha) as Haa.
  pose proof (merge_wf _ _ Hab Hc) as H1. pose proof (merge_wf _ _ Ha Hbc) as H2.
  assert (Hg : ∀ x y, vc_wf x → vc_wf y → ∀ k, bt_get k (merge x y) =
    match bt_get k x, bt_get k y with
    | Some v, Some w => Some (Z.max v w) | Some v, None => Some v | None, o => o end).
  { intros x y Hx Hy k. rewrite (proj2 (merge_spec x y (vc_sorted _ Hx) (vc_sorted _ Hy))).
    pose proof (vc_get_range y k Hy) as Hr. unfold get, is_u64 in *.
    destruct (bt_get k x), (bt_get k y); simpl in *; try done. f_equal. lia. }
  split_and!; [done|..].
  - intros k. rewrite merge_get by done. lia.
  - intros k. rewrite merge_get by done. lia.
  - intros Hx Hy k. rewrite merge_get by done. specialize (Hx k). specialize (Hy k). lia.
  - apply bt_ext; [apply Hab|apply Hba|]. intros k. rewrite !Hg by done.
    destruct (bt_get k a), (bt_get k b); try done. f_equal. lia.
  - apply bt_ext; [apply H1|apply H2|]. intros k. rewrite !Hg by done.
    destruct (bt_get k a), (bt_get k b), (bt_get k c); try done. f_equal. lia.
  - apply bt_ext; [apply Haa|apply Ha|]. intros k. rewrite Hg by done.
    destruct (bt_get k a); [|done]. f_equal. lia.
Qed.

Lemma vclock_merge_join_witness :
  let a := [(1, 5); (2, 3)] in let b := [(1, 4); (3, 1)] in let c := [(1, 9); (2, 3); (3, 1)] in
  vc_wf (merge a b) ∧ vc_le a (merge a b) ∧ vc_le b (merge a b) ∧
  (vc_le a c → vc_le b c → vc_le (merge a b) c) ∧
  merge a b = merge b a ∧ merge (merge a b) c = merge a (merge b c) ∧ merge a a = a.
Proof.
  intros a b c.
  apply vclock_merge_join; (split; [by apply bt_sortedb_spec|repeat constructor; vm_compute; intuition discriminate]).
Defined.

(** The encoding of a clock with at most 4096 entries has the announced
    length and decodes to the same clock, whatever follows it in the buffer, while a
    clock with more entries (up to 65535) encodes to bytes that [decode] refuses. *)
Theorem vclock_roundtrip (vc : VectorClock) (rest : bytes) :
  vc_wf vc → Z.of_nat (length vc) < 65536 →
  length (encode_to vc []) = encoded_len vc ∧
  decode (encode_to vc [] ++ rest) =
    if decide (Z.of_nat (length vc) ≤ MAX_VCLOCK_ENTRIES) then Ok (vc, encoded_len vc)
    else Err (TooManyEntries (Z.of_nat (length vc))).
Proof.
  intros Hwf Hn. split.
  - unfold encode_to, encoded_len, VCLOCK_ENTRY_SIZE.
    rewrite app_nil_l, length_app, length_to_le, length_entries. lia.
  - case_decide as Hm; [by apply decode_encode_ok|].
    unfold encode_to. rewrite app_nil_l, <- app_assoc, Z.mod_small by lia.
    unfold decode. rewrite decide_False by (rewrite !length_app, length_to_le; lia).
    rewrite le_at_to_le by lia. by rewrite decide_True by lia.
Qed.

Lemma vclock_roundtrip_witness :
  length (encode_to [(1, 5); (2, 3)] []) = encoded_len [(1, 5); (2, 3)] ∧
  decode (encode_to [(1, 5); (2, 3)] [] ++ [x00]) = Ok ([(1, 5); (2, 3)], 50%nat).
Proof.
  refine (vclock_roundtrip [(1, 5); (2, 3)] [x00] _ _); [|simpl; lia].
  split; [by apply bt_sortedb_spec|repeat constructor; vm_compute; intuition discriminate].
Defined.
