(* ===== verification/WalRecord.v ===== *)
(** * Write-ahead-log records (src/src/wal/record.rs)

    Both formats, the header page and the CRC over the record body.  Feeding the
    hasher piece by piece is hashing the concatenation. *)

From S2P Require Import Prelude RustStd Page Hlc VClock.

Local Open Scope Z_scope.

Definition WAL_MAGIC : bytes := str "GRUMPWAL".
Definition WAL_VERSION_V1 : Z := 1.
Definition WAL_VERSION_V2 : Z := 2.
Definition WAL_VERSION_CURRENT : Z := WAL_VERSION_V2.
Definition WAL_HEADER_SIZE : nat := PAGE_SIZE.
Definition NIL_NODE_ID : Z := 0.
Definition WAL_RECORD_HEADER_SIZE_V1 : nat := 33.
Definition WAL_RECORD_HEADER_SIZE_V2 : nat := 49.

Inductive WalOpType := PageWrite | Commit | Rollback | Checkpoint.

#[export] Instance WalOpType_eq_dec : EqDecision WalOpType.
Proof. solve_decision. Defined.

Definition op_u8 (o : WalOpType) : Z :=
  match o with PageWrite => 1 | Commit => 2 | Rollback => 3 | Checkpoint => 4 end.

Definition op_from_u8 (v : Z) : option WalOpType :=
  match v with
  | 1 => Some PageWrite
  | 2 => Some Commit
  | 3 => Some Rollback
  | 4 => Some Checkpoint
  | _ => None
  end.

Record WalRecord := mkRecord {
  r_record_len : Z;
  r_lsn : Z;
  r_tx_id : Z;
  r_op_type : WalOpType;
  r_origin_node_id : Z;
  r_hlc : Z;
  r_vector_clock : VectorClock;
  r_page_id : Z;
  r_data : bytes;
  r_checksum : Z;
}.

Definition vclock_error (e : VClockError) : GrumpyError :=
  match e with
  | Truncated _ _ => VectorClockErr "truncated vector clock"
  | TooManyEntries _ => VectorClockErr "vector clock has too many entries"
  end.

Section records.
Context `{Crc32}.

Definition encoded_v2_len (r : WalRecord) : nat :=
  let payload := match r_op_type r with PageWrite => 4 + 4 + length (r_data r) | _ => 0 end%nat in
  (WAL_RECORD_HEADER_SIZE_V2 + encoded_len (r_vector_clock r) + payload)%nat.

(** The op-specific payload. *)
Definition payload_bytes (r : WalRecord) : bytes :=
  match r_op_type r with
  | PageWrite => to_le 4 (r_page_id r) ++ to_le 4 (Z.of_nat (length (r_data r))) ++ r_data r
  | _ => []
  end.

(** Bytes 4 .. end-4: what the checksum covers. *)
Definition body_bytes (r : WalRecord) : bytes :=
  to_le 8 (r_lsn r) ++ to_le 8 (r_tx_id r) ++ to_le 1 (op_u8 (r_op_type r)) ++
  to_le 16 (r_origin_node_id r) ++ to_le 8 (r_hlc r) ++ encode_to (r_vector_clock r) [] ++
  payload_bytes r.

Definition compute_checksum_v2 (r : WalRecord) : Z := crc32 (body_bytes r).

Definition to_bytes (r : WalRecord) : bytes :=
  to_le 4 (r_record_len r) ++ body_bytes r ++ to_le 4 (r_checksum r).

(** [rec.record_len = ...; rec.checksum = ...] at the end of each constructor. *)
Definition seal (r : WalRecord) : WalRecord :=
  mkRecord (Z.of_nat (encoded_v2_len r) `mod` 4294967296) (r_lsn r) (r_tx_id r) (r_op_type r)
    (r_origin_node_id r) (r_hlc r) (r_vector_clock r) (r_page_id r) (r_data r)
    (compute_checksum_v2 r).

Definition page_write (lsn tx_id origin hlc : Z) (vc : VectorClock) (pid : Z) (before after : bytes) :
    WalRecord :=
  seal (mkRecord 0 lsn tx_id PageWrite origin hlc vc pid (after ++ before) 0).

Definition commit (lsn tx_id origin hlc : Z) (vc : VectorClock) : WalRecord :=
  seal (mkRecord 0 lsn tx_id Commit origin hlc vc 0 [] 0).

Definition checkpoint (lsn origin hlc : Z) (vc : VectorClock) : WalRecord :=
  seal (mkRecord 0 lsn 0 Checkpoint origin hlc vc 0 [] 0).

Definition from_bytes_v2 (buf : bytes) : res (WalRecord * nat) :=
  if decide (length buf < 4)%nat then Err (WalCorrupted 0)
  else
    let record_len := Z.to_nat (le_at 0 4 buf) in
    if decide (record_len < WAL_RECORD_HEADER_SIZE_V2 ∨ length buf < record_len)%nat
    then Err (WalCorrupted 0)
    else
      let lsn := le_at 4 8 buf in
      let tx_id := le_at 12 8 buf in
      op_type ← ok_or (op_from_u8 (le_at 20 1 buf)) (WalCorrupted lsn);
      let origin := le_at 21 16 buf in
      let hlc := le_at 37 8 buf in
      let payload_end := (record_len - 4)%nat in
      '(vector_clock, vc_consumed) ←
        (match decode (slice 45 (payload_end - 45) buf) with
         | Ok x => Ok x | Err e => Err (vclock_error e) | Panic => Panic end);
      let cursor := (45 + vc_consumed)%nat in
      '(pid, data, cursor) ←
        (if decide (op_type = PageWrite) then
           if decide (payload_end < cursor + 8)%nat then Err (WalCorrupted lsn)
           else
             let pid := le_at cursor 4 buf in
             let data_len := Z.to_nat (le_at (cursor + 4) 4 buf) in
             let cursor := (cursor + 8)%nat in
             if decide (payload_end < cursor + data_len)%nat then Err (WalCorrupted lsn)
             else Ok (pid, slice cursor data_len buf, (cursor + data_len)%nat)
         else Ok (0, [], cursor));
      if decide (cursor ≠ payload_end) then Err (WalCorrupted lsn)
      else
        let checksum := le_at cursor 4 buf in
        let r := mkRecord (Z.of_nat record_len) lsn tx_id op_type origin hlc vector_clock pid data checksum in
        if decide (compute_checksum_v2 r ≠ checksum) then Err (WalCorrupted lsn)
        else Ok (r, record_len).

Definition compute_v1_checksum (record_len lsn tx_id : Z) (op : WalOpType) (pid : Z) (data : bytes) : Z :=
  crc32 (to_le 4 record_len ++ to_le 8 lsn ++ to_le 8 tx_id ++ to_le 1 (op_u8 op) ++ to_le 4 pid ++
         to_le 4 (Z.of_nat (length data)) ++ data).

Definition encode_v1_record (lsn tx_id : Z) (op : WalOpType) (pid : Z) (data : bytes) : bytes :=
  let record_len := Z.of_nat (WAL_RECORD_HEADER_SIZE_V1 + length data) `mod` 4294967296 in
  to_le 4 record_len ++ to_le 8 lsn ++ to_le 8 tx_id ++ to_le 1 (op_u8 op) ++ to_le 4 pid ++
  to_le 4 (Z.of_nat (length data)) ++ data ++
  to_le 4 (compute_v1_checksum record_len lsn tx_id op pid data).

Definition from_bytes_v1 (buf : bytes) : res (WalRecord * nat) :=
  if decide (length buf < WAL_RECORD_HEADER_SIZE_V1)%nat then Err (WalCorrupted 0)
  else
    let record_len := Z.to_nat (le_at 0 4 buf) in
    if decide (record_len < WAL_RECORD_HEADER_SIZE_V1 ∨ length buf < record_len)%nat
    then Err (WalCorrupted 0)
    else
      let lsn := le_at 4 8 buf in
      let tx_id := le_at 12 8 buf in
      op_type ← ok_or (op_from_u8 (le_at 20 1 buf)) (WalCorrupted lsn);
      let pid := le_at 21 4 buf in
      let data_len := Z.to_nat (le_at 25 4 buf) in
      if decide (record_len < 29 + data_len + 4)%nat then Err (WalCorrupted lsn)
      else
        let data := slice 29 data_len buf in
        let checksum := le_at (29 + data_len) 4 buf in
        if decide (compute_v1_checksum (Z.of_nat record_len) lsn tx_id op_type pid data ≠ checksum)
        then Err (WalCorrupted lsn)
        else
          Ok (seal (mkRecord 0 lsn tx_id op_type NIL_NODE_ID lsn (singleton NIL_NODE_ID lsn) pid data 0),
              record_len).

Definition page_images (r : WalRecord) : option (bytes * bytes) :=
  if decide (r_op_type r ≠ PageWrite) then None
  else let half := (length (r_data r) / 2)%nat in Some (take half (r_data r), drop half (r_data r)).

Definition after_image (r : WalRecord) : option bytes := fst <$> page_images r.
Definition before_image (r : WalRecord) : option bytes := snd <$> page_images r.
Definition is_valid (r : WalRecord) : bool := compute_checksum_v2 r =? r_checksum r.

Definition build_wal_header (version : Z) : bytes :=
  copy_at 8 (to_le 2 version) (copy_at 0 WAL_MAGIC (replicate WAL_HEADER_SIZE x00)).

Definition parse_wal_header (hdr : bytes) : res Z :=
  if decide (length hdr < 10)%nat then Err (WalCorrupted 0)
  else if decide (take 8 hdr ≠ WAL_MAGIC) then Err (WalCorrupted 0)
  else
    let version := le_at 8 2 hdr in
    if decide (WAL_VERSION_CURRENT < version) then Err (UnsupportedWalVersion version) else Ok version.

(** ** Well-formed records *)

(** Fields in range, a sealed length and checksum, and no payload unless the
    record is a page write. *)
Record record_wf (r : WalRecord) : Prop := {
  rw_lsn : is_u64 (r_lsn r);
  rw_tx : is_u64 (r_tx_id r);
  rw_origin : is_u128 (r_origin_node_id r);
  rw_hlc : is_u64 (r_hlc r);
  rw_vc : vc_wf (r_vector_clock r);
  rw_vc_len : Z.of_nat (length (r_vector_clock r)) ≤ MAX_VCLOCK_ENTRIES;
  rw_page : is_u32 (r_page_id r);
  rw_payload : r_op_type r = PageWrite ∨ r_page_id r = 0 ∧ r_data r = [];
  rw_fits : Z.of_nat (encoded_v2_len r) < 4294967296;
  rw_sealed : r = seal r;
}.

Lemma length_encode_to vc : length (encode_to vc []) = encoded_len vc.
Proof.
  unfold encode_to, encoded_len, VCLOCK_ENTRY_SIZE.
  rewrite app_nil_l, length_app, length_to_le, length_entries. lia.
Qed.

Lemma length_payload r :
  length (payload_bytes r) = match r_op_type r with PageWrite => 8 + length (r_data r) | _ => 0 end%nat.
Proof. unfold payload_bytes. destruct (r_op_type r); [|done..]. rewrite !length_app, !length_to_le. lia. Qed.

Lemma length_body r : length (body_bytes r) = (41 + encoded_len (r_vector_clock r) + length (payload_bytes r))%nat.
Proof. unfold body_bytes. rewrite !length_app, !length_to_le, length_encode_to. lia. Qed.

Lemma length_to_bytes r : length (to_bytes r) = encoded_v2_len r.
Proof.
  unfold to_bytes, encoded_v2_len, WAL_RECORD_HEADER_SIZE_V2.
  rewrite !length_app, !length_to_le, length_body, length_payload. destruct (r_op_type r); lia.
Qed.

Lemma op_roundtrip o : op_from_u8 (op_u8 o) = Some o.
Proof. by destruct o. Qed.

Lemma op_range o : 0 ≤ op_u8 o < 256.
Proof. destruct o; simpl; lia. Qed.

(** Skips the fixed-width fields in front of an offset. *)
Ltac skip_fields :=
  repeat (rewrite le_at_app_r by (rewrite length_to_le; lia); rewrite length_to_le; cbn [Nat.sub]).

Section decode_v2.
Context (r : WalRecord) (rest : bytes).
Hypothesis Hwf : record_wf r.
Let buf : bytes := to_bytes r ++ rest.

Lemma sealed_fields :
  r_record_len r = Z.of_nat (encoded_v2_len r) ∧ r_checksum r = compute_checksum_v2 r.
Proof.
  pose proof (rw_sealed r Hwf) as Hseal. pose proof (rw_fits r Hwf). split.
  - rewrite Hseal at 1. cbn [seal r_record_len]. apply Z.mod_small. lia.
  - rewrite Hseal at 1. done.
Qed.

Lemma buf_layout :
  buf = to_le 4 (r_record_len r) ++ to_le 8 (r_lsn r) ++ to_le 8 (r_tx_id r) ++
    to_le 1 (op_u8 (r_op_type r)) ++ to_le 16 (r_origin_node_id r) ++ to_le 8 (r_hlc r) ++
    encode_to (r_vector_clock r) [] ++ payload_bytes r ++ to_le 4 (r_checksum r) ++ rest.
Proof. unfold buf, to_bytes, body_bytes. by rewrite <- !app_assoc. Qed.

Lemma buf_header :
  le_at 0 4 buf = Z.of_nat (encoded_v2_len r) ∧ le_at 4 8 buf = r_lsn r ∧ le_at 12 8 buf = r_tx_id r ∧
  le_at 20 1 buf = op_u8 (r_op_type r) ∧ le_at 21 16 buf = r_origin_node_id r ∧
  le_at 37 8 buf = r_hlc r.
Proof.
  destruct Hwf as [Hlsn Htx Hor Hhlc _ _ _ _ Hfit _]. pose proof (op_range (r_op_type r)).
  destruct sealed_fields as [Hrl _].
  rewrite buf_layout. split_and!; skip_fields; try by apply le_at_to_le.
  - rewrite Hrl. apply le_at_to_le. lia.
Qed.

Lemma buf_tail :
  drop 45 buf = encode_to (r_vector_clock r) [] ++ payload_bytes r ++ to_le 4 (r_checksum r) ++ rest.
Proof.
  rewrite buf_layout.
  repeat (rewrite drop_app_ge by (rewrite length_to_le; lia); rewrite length_to_le; cbn [Nat.sub]).
  apply drop_0.
Qed.

Lemma slice_tail o n : slice (45 + o) n buf = slice o n (drop 45 buf).
Proof. unfold slice. by rewrite drop_drop. Qed.

Lemma le_at_tail o n : le_at (45 + o) n buf = le_at o n (drop 45 buf).
Proof. unfold le_at. by rewrite slice_tail. Qed.

Lemma v2_len :
  encoded_v2_len r = (49 + encoded_len (r_vector_clock r) + length (payload_bytes r))%nat.
Proof.
  unfold encoded_v2_len, WAL_RECORD_HEADER_SIZE_V2. rewrite length_payload.
  destruct (r_op_type r); lia.
Qed.

Lemma buf_vclock :
  decode (slice 45 (encoded_v2_len r - 4 - 45) buf) =
    Ok (r_vector_clock r, encoded_len (r_vector_clock r)).
Proof.
  pose proof (slice_tail 0 (encoded_v2_len r - 4 - 45)) as Hs. rewrite Nat.add_0_r in Hs.
  rewrite Hs, buf_tail. unfold slice. rewrite drop_0, app_assoc.
  rewrite take_app_le by (rewrite length_app, length_encode_to, v2_len; lia).
  rewrite take_ge by (rewrite length_app, length_encode_to, v2_len; lia).
  apply decode_encode_ok; apply Hwf.
Qed.

(** The page-write payload, read from where the vector clock ended. *)
Lemma buf_payload :
  let cursor := (45 + encoded_len (r_vector_clock r))%nat in
  r_op_type r = PageWrite →
  le_at cursor 4 buf = r_page_id r ∧ le_at (cursor + 4) 4 buf = Z.of_nat (length (r_data r)) ∧
  slice (cursor + 8) (length (r_data r)) buf = r_data r.
Proof.
  intros cursor Hop. destruct Hwf as [_ _ _ _ _ _ Hpg _ Hfit _]. rewrite v2_len in Hfit.
  assert (Hp : payload_bytes r = to_le 4 (r_page_id r) ++ to_le 4 (Z.of_nat (length (r_data r))) ++ r_data r)
    by (unfold payload_bytes; by rewrite Hop).
  unfold cursor. rewrite <- !Nat.add_assoc, !le_at_tail, slice_tail, buf_tail.
  rewrite !(le_at_app_r _ _ (encode_to _ _)), slice_app_r by (rewrite length_encode_to; lia).
  rewrite length_encode_to, Nat.sub_diag.
  replace (encoded_len (r_vector_clock r) + 4 - encoded_len (r_vector_clock r))%nat with 4%nat by lia.
  replace (encoded_len (r_vector_clock r) + 8 - encoded_len (r_vector_clock r))%nat with 8%nat by lia.
  rewrite Hp in *. rewrite !length_app, !length_to_le in Hfit. rewrite <- !app_assoc. split_and!.
  - by apply le_at_to_le.
  - skip_fields. apply le_at_to_le. lia.
  - do 2 (rewrite slice_app_r by (rewrite length_to_le; lia); rewrite length_to_le; cbn [Nat.sub]).
    rewrite slice_app_l by lia. apply slice_all.
Qed.

Lemma buf_checksum : le_at (encoded_v2_len r - 4) 4 buf = r_checksum r.
Proof.
  replace (encoded_v2_len r - 4)%nat with
    (45 + (encoded_len (r_vector_clock r) + length (payload_bytes r)))%nat by (rewrite v2_len; lia).
  rewrite le_at_tail, buf_tail.
  rewrite le_at_app_r by (rewrite length_encode_to; lia). rewrite length_encode_to.
  rewrite le_at_app_r by lia.
  match goal with |- le_at ?o _ _ = _ => replace o with 0%nat by lia end.
  apply le_at_to_le. destruct sealed_fields as [_ ->]. apply crc32_u32.
Qed.

Lemma from_to_v2 : from_bytes_v2 buf = Ok (r, encoded_v2_len r).
Proof.
  destruct buf_header as (H1 & H2 & H3 & H4 & H5 & H6). destruct sealed_fields as [Hrl Hck].
  pose proof v2_len as Hl. pose proof (length_to_bytes r) as Hlb.
  assert (Hbl : (encoded_v2_len r ≤ length buf)%nat) by (unfold buf; rewrite length_app; lia).
  unfold from_bytes_v2. rewrite decide_False by lia. rewrite H1, Nat2Z.id.
  rewrite decide_False by (unfold WAL_RECORD_HEADER_SIZE_V2; lia).
  rewrite H2, H3, H4, H5, H6, op_roundtrip. cbn [ok_or mbind outcome_bind]. cbv zeta.
  rewrite buf_vclock. cbn [mbind outcome_bind].
  assert (Hfin : ∀ pid d, pid = r_page_id r → d = r_data r →
    mkRecord (Z.of_nat (encoded_v2_len r)) (r_lsn r) (r_tx_id r) (r_op_type r) (r_origin_node_id r)
      (r_hlc r) (r_vector_clock r) pid d (r_checksum r) = r).
  { intros pid d -> ->. rewrite <- Hrl. by destruct r. }
  destruct (decide (r_op_type r = PageWrite)) as [Hop|Hop].
  - destruct (buf_payload Hop) as (P1 & P2 & P3).
    assert (length (payload_bytes r) = 8 + length (r_data r))%nat as Hpl
      by (rewrite length_payload, Hop; done).
    rewrite decide_False by lia. rewrite P1, P2, Nat2Z.id. rewrite decide_False by lia.
    cbn [mbind outcome_bind]. rewrite P3. rewrite decide_False by lia.
    replace (45 + encoded_len (r_vector_clock r) + 8 + length (r_data r))%nat
      with (encoded_v2_len r - 4)%nat by lia.
    rewrite buf_checksum, Hfin by done. by rewrite decide_False by (rewrite Hck; auto).
  - destruct (rw_payload r Hwf) as [|[Hp Hd]]; [done|].
    assert (length (payload_bytes r) = 0)%nat as Hpl
      by (rewrite length_payload; by destruct (r_op_type r)).
    cbn [mbind outcome_bind]. rewrite decide_False by lia.
    replace (45 + encoded_len (r_vector_clock r))%nat with (encoded_v2_len r - 4)%nat by lia.
    rewrite buf_checksum, Hfin by done. by rewrite decide_False by (rewrite Hck; auto).
Qed.
End decode_v2.

(** A proper prefix of a record is refused. *)
Lemma from_prefix_v2 r k :
  record_wf r → (k < encoded_v2_len r)%nat → from_bytes_v2 (take k (to_bytes r)) = Err (WalCorrupted 0).
Proof.
  intros Hwf Hk. pose proof (length_to_bytes r) as Hl. unfold from_bytes_v2.
  assert (Hlen : length (take k (to_bytes r)) = k) by (rewrite length_take; lia).
  rewrite Hlen. case_decide as H4; [done|].
  destruct (buf_header r [] Hwf) as (H1 & _). rewrite app_nil_r in H1.
  assert (le_at 0 4 (take k (to_bytes r)) = Z.of_nat (encoded_v2_len r)) as ->.
  { rewrite <- H1. unfold le_at, slice. rewrite !drop_0, take_take. do 2 f_equal. lia. }
  rewrite Nat2Z.id. by rewrite decide_True by lia.
Qed.

(** What is accepted carries a matching checksum and was wholly in the buffer. *)
Lemma from_bytes_v2_sound buf r n :
  from_bytes_v2 buf = Ok (r, n) →
  is_valid r = true ∧ (49 ≤ n ≤ length buf)%nat ∧ r_record_len r = Z.of_nat n.
Proof.
  unfold from_bytes_v2, WAL_RECORD_HEADER_SIZE_V2. case_decide; [done|].
  case_decide as Hn; [done|]. intros Hb.
  apply outcome_bind_Ok in Hb as (op & _ & Hb).
  apply outcome_bind_Ok in Hb as ([vc c] & _ & Hb).
  apply outcome_bind_Ok in Hb as ([[pid d] cur] & _ & Hb).
  case_decide; [done|]. case_decide as Hck; [done|]. injection Hb as <- <-.
  split_and!; [|lia|lia|done]. unfold is_valid. cbn [r_checksum].
  by apply Z.eqb_eq.
Qed.

(** ** The constructors and the legacy format *)

Lemma seal_wf r :
  is_u64 (r_lsn r) → is_u64 (r_tx_id r) → is_u128 (r_origin_node_id r) → is_u64 (r_hlc r) →
  vc_wf (r_vector_clock r) → Z.of_nat (length (r_vector_clock r)) ≤ MAX_VCLOCK_ENTRIES →
  is_u32 (r_page_id r) → r_op_type r = PageWrite ∨ r_page_id r = 0 ∧ r_data r = [] →
  Z.of_nat (encoded_v2_len r) < 4294967296 → record_wf (seal r).
Proof. intros. by constructor. Qed.

Lemma singleton_wf node c : is_u128 node → is_u64 c → vc_wf (singleton node c).
Proof. intros Hn Hc. apply vc_wf_insert; [|done|done]. split; constructor. Qed.

(** Decoding a legacy record promotes it: nil origin, the LSN as HLC and as the
    only vector-clock entry, the payload byte for byte. *)
Definition promote (lsn tx_id : Z) (op : WalOpType) (pid : Z) (data : bytes) : WalRecord :=
  seal (mkRecord 0 lsn tx_id op NIL_NODE_ID lsn (singleton NIL_NODE_ID lsn) pid data 0).

Lemma from_to_v1 lsn tx_id op pid data rest :
  is_u64 lsn → is_u64 tx_id → is_u32 pid → Z.of_nat (length data) + 33 < 4294967296 →
  from_bytes_v1 (encode_v1_record lsn tx_id op pid data ++ rest) =
    Ok (promote lsn tx_id op pid data, (33 + length data)%nat).
Proof.
  intros Hl Ht Hp Hd. pose proof (op_range op). unfold encode_v1_record, WAL_RECORD_HEADER_SIZE_V1.
  set (rl := Z.of_nat (33 + length data) `mod` 4294967296).
  assert (Hrl : rl = Z.of_nat (33 + length data)) by (apply Z.mod_small; lia).
  set (ck := compute_v1_checksum rl lsn tx_id op pid data).
  assert (Hck : is_u32 ck) by apply crc32_u32.
  set (buf := (_ ++ _) ++ rest).
  assert (Hb : buf = to_le 4 rl ++ to_le 8 lsn ++ to_le 8 tx_id ++ to_le 1 (op_u8 op) ++ to_le 4 pid ++
    to_le 4 (Z.of_nat (length data)) ++ data ++ to_le 4 ck ++ rest) by (unfold buf; by rewrite <- !app_assoc).
  assert (Hlen : (33 + length data ≤ length buf)%nat) by (rewrite Hb; len).
  unfold from_bytes_v1, WAL_RECORD_HEADER_SIZE_V1. rewrite decide_False by lia.
  assert (le_at 0 4 buf = rl) as -> by (rewrite Hb; apply le_at_to_le; lia).
  assert (Z.to_nat rl = (33 + length data)%nat) as -> by lia. rewrite decide_False by lia.
  assert (le_at 4 8 buf = lsn) as -> by (rewrite Hb; skip_fields; by apply le_at_to_le).
  assert (le_at 12 8 buf = tx_id) as -> by (rewrite Hb; skip_fields; by apply le_at_to_le).
  assert (le_at 20 1 buf = op_u8 op) as -> by (rewrite Hb; skip_fields; apply le_at_to_le; lia).
  assert (le_at 21 4 buf = pid) as -> by (rewrite Hb; skip_fields; by apply le_at_to_le).
  assert (le_at 25 4 buf = Z.of_nat (length data)) as ->
    by (rewrite Hb; skip_fields; apply le_at_to_le; lia).
  rewrite op_roundtrip, Nat2Z.id. cbn [ok_or mbind outcome_bind]. rewrite decide_False by lia.
  assert (slice 29 (length data) buf = data) as ->.
  { rewrite Hb. do 6 (rewrite slice_app_r by (rewrite length_to_le; lia); rewrite length_to_le; cbn [Nat.sub]).
    rewrite slice_app_l by lia. apply slice_all. }
  assert (le_at (29 + length data) 4 buf = ck) as ->.
  { rewrite Hb. do 6 (rewrite le_at_app_r by (rewrite length_to_le; lia); rewrite length_to_le).
    rewrite le_at_app_r by lia.
    match goal with |- le_at ?o _ _ = _ => replace o with 0%nat by lia end. by apply le_at_to_le. }
  rewrite <- Hrl. fold ck. by rewrite decide_False by auto.
Qed.

(** ** Theorems *)

(** A well-formed record (as the constructors build them) occupies exactly its
    announced length and decodes to itself whatever follows it; every proper prefix
    of it is refused; and nothing is ever accepted whose checksum does not match. *)
Theorem wal_record_roundtrip (r : WalRecord) (rest : bytes) :
  record_wf r →
  length (to_bytes r) = encoded_v2_len r ∧
  from_bytes_v2 (to_bytes r ++ rest) = Ok (r, encoded_v2_len r) ∧
  (∀ k, (k < encoded_v2_len r)%nat → from_bytes_v2 (take k (to_bytes r)) = Err (WalCorrupted 0)) ∧
  (∀ buf r' n, from_bytes_v2 buf = Ok (r', n) → is_valid r' = true ∧ (n ≤ length buf)%nat).
Proof.
  intros Hwf. split_and!; [apply length_to_bytes|by apply from_to_v2| |].
  - intros k Hk. by apply from_prefix_v2.
  - intros buf r' n Hb. apply from_bytes_v2_sound in Hb as (? & ? & _). split; [done|lia].
Qed.

(** The page images of a legacy page-write record, stored before-image first,
    come out of the decoder exchanged: [after_image] is the old before-image. *)
Theorem v1_images_exchanged (lsn tx_id pid : Z) (before after rest : bytes) :
  is_u64 lsn → is_u64 tx_id → is_u32 pid → length before = length after →
  Z.of_nat (length (before ++ after)) + 33 < 4294967296 →
  ∃ r, from_bytes_v1 (encode_v1_record lsn tx_id PageWrite pid (before ++ after) ++ rest) =
         Ok (r, (33 + length (before ++ after))%nat) ∧
    after_image r = Some before ∧ before_image r = Some after.
Proof.
  intros Hl Ht Hp Hlen Hfit. eexists. split; [by apply from_to_v1|].
  unfold after_image, before_image, page_images. rewrite decide_False by auto.
  cbn [promote seal r_data fmap option_fmap option_map fst snd].
  rewrite length_app, <- Hlen. replace ((length before + length before) / 2)%nat with (length before).
  - by rewrite take_app_length, drop_app_length.
  - apply Nat.div_unique with 0%nat; lia.
Qed.
End records.

Lemma wal_record_roundtrip_witness :
  let C := crc32_ieee in
  let r := page_write 1 2 3 4 [(3, 4)] 5 (str "old") (str "new") in
  length (to_bytes r) = encoded_v2_len r ∧
  from_bytes_v2 (to_bytes r ++ str "tail") = Ok (r, encoded_v2_len r) ∧
  (∀ k, (k < encoded_v2_len r)%nat → from_bytes_v2 (take k (to_bytes r)) = Err (WalCorrupted 0)) ∧
  (∀ buf r' n, from_bytes_v2 buf = Ok (r', n) → is_valid r' = true ∧ (n ≤ length buf)%nat).
Proof.
  intros C r. apply wal_record_roundtrip. apply seal_wf; try (vm_compute; intuition discriminate).
  - apply (singleton_wf 3 4); vm_compute; intuition discriminate.
Defined.

Lemma v1_images_exchanged_witness :
  let C := crc32_ieee in
  ∃ r, from_bytes_v1 (encode_v1_record 1 2 PageWrite 5 (str "old" ++ str "new") ++ []) =
         Ok (r, (33 + length (str "old" ++ str "new"))%nat) ∧
    after_image r = Some (str "old") ∧ before_image r = Some (str "new").
Proof. apply v1_images_exchanged; vm_compute; intuition discriminate. Defined.
