(* ===== verification/WalWriter.v ===== *)
(** * The write-ahead-log writer (src/src/wal/writer.rs)

    The log file is its bytes and the handle stays at the end of it.  Opening a
    file, migrating a legacy one, appending, truncating and reading back are
    modelled; the wall clock is an input of every call that stamps a record. *)

From S2P Require Import Prelude RustStd Page Hlc VClock WalRecord.

Local Open Scope Z_scope.

Record WalWriter := mkWriter {
  w_file : bytes;
  w_next_lsn : Z;
  w_next_tx_id : Z;
  w_file_version : Z;
  w_node_id : Z;
  w_clock : HlcClock;
}.

Abbreviation wal_m := (ST WalWriter GrumpyError).

Definition hlc_error (e : HlcError) : GrumpyError :=
  match e with
  | SkewExceeded _ _ => HlcErr "clock skew exceeds the tolerance"
  | LogicalOverflow _ => HlcErr "logical counter overflow"
  | BeforeEpoch => HlcErr "system clock returned a time before the UNIX epoch"
  end.

Section writer.
Context `{C : Crc32}.

(** [while offset < all.len()]: decode, or stop at the first error.  Every record
    consumes bytes, so the length of the buffer is enough fuel. *)
Fixpoint read_loop (dec : bytes → res (WalRecord * nat)) (fuel : nat) (all : bytes) : list WalRecord :=
  match fuel, all with
  | S fuel, _ :: _ =>
      match dec all with
      | Ok (r, consumed) => r :: read_loop dec fuel (drop consumed all)
      | _ => []
      end
  | _, _ => []
  end.

Definition read_v2_records (f : bytes) : list WalRecord :=
  if decide (length f ≤ WAL_HEADER_SIZE)%nat then []
  else let all := drop WAL_HEADER_SIZE f in read_loop from_bytes_v2 (length all) all.

Definition read_v1_records (f : bytes) : list WalRecord := read_loop from_bytes_v1 (length f) f.

Definition migrate_v1_to_v2 (v1_records : list WalRecord) : bytes :=
  build_wal_header WAL_VERSION_V2 ++ concat (to_bytes <$> v1_records).

(** [iter().map(f).max().unwrap_or(0)] *)
Definition max_of (l : list Z) : Z := foldr Z.max 0 l.

(** [max + 1] on [u64]. *)
Definition next_after (l : list Z) : res Z :=
  if decide (max_of l = u64_max) then Panic else Ok (max_of l + 1).

Definition new_with_identity (existing : option bytes) (node_id : Z) (clock : HlcClock) : res WalWriter :=
  match existing with
  | None | Some [] =>
      Ok (mkWriter (build_wal_header WAL_VERSION_CURRENT) 1 1 WAL_VERSION_CURRENT node_id clock)
  | Some f =>
      detected_version ←
        (if decide (take 8 f = WAL_MAGIC) then parse_wal_header (take 18 f) else Ok WAL_VERSION_V1);
      if decide (detected_version = WAL_VERSION_V2) then
        let records := read_v2_records f in
        next_lsn ← next_after (r_lsn <$> records);
        next_tx ← next_after (r_tx_id <$> records);
        Ok (mkWriter f next_lsn next_tx WAL_VERSION_V2 node_id clock)
      else
        let v1_records := read_v1_records f in
        next_lsn ← next_after (r_lsn <$> v1_records);
        next_tx ← next_after (r_tx_id <$> v1_records);
        Ok (mkWriter (migrate_v1_to_v2 v1_records) next_lsn next_tx WAL_VERSION_V2 node_id clock)
  end.

Definition begin_tx : wal_m Z :=
  w ← st_get;
  if decide (w_next_tx_id w = u64_max) then st_lift Panic
  else
    _ ← st_modify (λ w, mkWriter (w_file w) (w_next_lsn w) (w_next_tx_id w + 1) (w_file_version w)
                          (w_node_id w) (w_clock w));
    mret (w_next_tx_id w).

Definition alloc_lsn : wal_m Z :=
  w ← st_get;
  if decide (w_next_lsn w = u64_max) then st_lift Panic
  else
    _ ← st_modify (λ w, mkWriter (w_file w) (w_next_lsn w + 1) (w_next_tx_id w) (w_file_version w)
                          (w_node_id w) (w_clock w));
    mret (w_next_lsn w).

Definition append_record (r : WalRecord) : wal_m unit :=
  st_modify (λ w, mkWriter (w_file w ++ to_bytes r) (w_next_lsn w) (w_next_tx_id w) (w_file_version w)
                    (w_node_id w) (w_clock w)).

(** [self.clock.now().map_err(..)] *)
Definition clock_now (wall : option Z) : wal_m Z := λ w,
  let '(r, c) := now wall (w_clock w) in
  (match r with Ok h => Ok h | Err e => Err (hlc_error e) | Panic => Panic end,
   mkWriter (w_file w) (w_next_lsn w) (w_next_tx_id w) (w_file_version w) (w_node_id w) c).

(** The common shape of the three [log_*] methods. *)
Definition log_record (wall : option Z) (make : Z → Z → Z → VectorClock → WalRecord) : wal_m (Z * Z) :=
  lsn ← alloc_lsn;
  hlc ← clock_now wall;
  w ← st_get;
  let vc := singleton (w_node_id w) hlc in
  _ ← append_record (make lsn (w_node_id w) hlc vc);
  mret (lsn, hlc).

Definition log_page_write (wall : option Z) (tx_id pid : Z) (before after : bytes) : wal_m (Z * Z) :=
  log_record wall (λ lsn node hlc vc, page_write lsn tx_id node hlc vc pid before after).

Definition log_commit (wall : option Z) (tx_id : Z) : wal_m (Z * Z) :=
  log_record wall (λ lsn node hlc vc, commit lsn tx_id node hlc vc).

Definition log_checkpoint (wall : option Z) : wal_m (Z * Z) :=
  log_record wall (λ lsn node hlc vc, checkpoint lsn node hlc vc).

Definition truncate : wal_m unit :=
  st_modify (λ w, mkWriter (build_wal_header WAL_VERSION_CURRENT) (w_next_lsn w) (w_next_tx_id w)
                    (w_file_version w) (w_node_id w) (w_clock w)).

Definition read_all_records : wal_m (list WalRecord) := λ w, (Ok (read_v2_records (w_file w)), w).

(** ** Reading back *)

Lemma length_wal_header v : length (build_wal_header v) = WAL_HEADER_SIZE.
Proof.
  unfold build_wal_header, WAL_HEADER_SIZE. pose proof PAGE_SIZE_Z.
  assert (length WAL_MAGIC = 8%nat) as Hm by reflexivity.
  rewrite !length_copy_at; rewrite ?length_replicate, ?length_to_le, ?Hm; [done|lia|].
  rewrite length_copy_at; rewrite ?length_replicate, ?Hm; lia.
Qed.

Lemma read_v2_after_header v tail :
  read_v2_records (build_wal_header v ++ tail) = read_loop from_bytes_v2 (length tail) tail.
Proof.
  unfold read_v2_records. pose proof (length_wal_header v) as Hl.
  rewrite drop_app_length' by done. rewrite length_app, Hl. case_decide as Hc; [|done].
  destruct tail; [done|simpl in Hc; lia].
Qed.

(** The records in front of a tail that does not decode are all read. *)
Lemma read_loop_records rs tail fuel :
  Forall record_wf rs → (length (concat (to_bytes <$> rs) ++ tail) ≤ fuel)%nat →
  read_loop from_bytes_v2 fuel (concat (to_bytes <$> rs) ++ tail) =
    rs ++ read_loop from_bytes_v2 (fuel - length rs) tail.
Proof.
  revert fuel. induction rs as [|r rs IH]; intros fuel Hrs Hf.
  { simpl. by rewrite Nat.sub_0_r. }
  apply Forall_cons in Hrs as [Hr Hrs]. pose proof (length_to_bytes r) as Hl.
  pose proof (v2_len r) as Hv.
  change (concat (to_bytes <$> r :: rs)) with (to_bytes r ++ concat (to_bytes <$> rs)) in *.
  rewrite <- app_assoc in *. rewrite length_app in Hf. destruct fuel as [|fuel]; [lia|].
  assert (∃ b l, to_bytes r ++ concat (to_bytes <$> rs) ++ tail = b :: l) as (b & l & Hbl).
  { destruct (to_bytes r ++ _) eqn:E; [|eauto]. apply (f_equal length) in E.
    rewrite length_app in E. simpl in E. lia. }
  cbn [read_loop]. rewrite Hbl. rewrite <- Hbl.
  rewrite (from_to_v2 r _ Hr). rewrite drop_app_length' by lia. cbn [app Nat.sub length].
  f_equal. apply IH; [done|lia].
Qed.

Lemma read_loop_nil fuel : read_loop from_bytes_v2 fuel [] = [].
Proof. by destruct fuel. Qed.

Lemma read_loop_stop fuel tail :
  (∀ r n, from_bytes_v2 tail ≠ Ok (r, n)) → read_loop from_bytes_v2 fuel tail = [].
Proof.
  intros Hno. destruct fuel as [|fuel], tail as [|b tail]; [done..|]. cbn [read_loop].
  destruct (from_bytes_v2 (b :: tail)) as [[r n]| |] eqn:E; [|done|done]. by destruct (Hno r n).
Qed.

Lemma read_file v rs tail :
  Forall record_wf rs → (∀ r n, from_bytes_v2 tail ≠ Ok (r, n)) →
  read_v2_records (build_wal_header v ++ concat (to_bytes <$> rs) ++ tail) = rs.
Proof.
  intros Hrs Hno. rewrite read_v2_after_header, read_loop_records by done.
  rewrite read_loop_stop by done. apply app_nil_r.
Qed.

Lemma nil_no_record r n : from_bytes_v2 [] ≠ Ok (r, n).
Proof. done. Qed.

(** ** The log of a writer *)

Record wal_rep (w : WalWriter) (rs : list WalRecord) : Prop := {
  wr_file : w_file w = build_wal_header WAL_VERSION_CURRENT ++ concat (to_bytes <$> rs);
  wr_wf : Forall record_wf rs;
  wr_lsn_sorted : StronglySorted Z.lt (r_lsn <$> rs);
  wr_lsn_below : Forall (λ r, r_lsn r < w_next_lsn w) rs;
  wr_next : 1 ≤ w_next_lsn w ≤ u64_max;
  wr_hlc_sorted : StronglySorted Z.lt (r_hlc <$> rs);
  wr_hlc_below : Forall (λ r, r_hlc r ≤ state (w_clock w)) rs;
  wr_clock : is_u64 (state (w_clock w));
  wr_node : is_u128 (w_node_id w);
}.

Lemma wal_rep_read w rs : wal_rep w rs → read_all_records w = (Ok rs, w).
Proof.
  intros Hrep. unfold read_all_records. do 2 f_equal. rewrite (wr_file _ _ Hrep).
  pose proof (read_file WAL_VERSION_CURRENT rs [] (wr_wf _ _ Hrep) nil_no_record) as Hr.
  by rewrite app_nil_r in Hr.
Qed.

Lemma sorted_snoc (l : list Z) x :
  StronglySorted Z.lt l → Forall (λ y, y < x) l → StronglySorted Z.lt (l ++ [x]).
Proof.
  induction 1 as [|y l Hs IH Hall]; intros Hx; simpl; [repeat constructor|].
  apply Forall_cons in Hx as [Hy Hx]. constructor; [by apply IH|].
  apply Forall_app. split; [done|by constructor].
Qed.

(** One stamped append: the next LSN, an HLC above every HLC in the log. *)
Lemma log_record_ok w rs wall make :
  wal_rep w rs → w_next_lsn w < u64_max → (∀ t, wall = Some t → 0 ≤ t < 2 ^ 48) →
  (∀ h, is_u64 h → record_wf (make (w_next_lsn w) (w_node_id w) h (singleton (w_node_id w) h))) →
  (∀ l n h v, r_lsn (make l n h v) = l ∧ r_hlc (make l n h v) = h) →
  let '(r, w') := log_record wall make w in
  w_next_lsn w' = w_next_lsn w + 1 ∧ w_node_id w' = w_node_id w ∧
  max_skew_ms (w_clock w') = max_skew_ms (w_clock w) ∧
  match r with
  | Ok (lsn, hlc) => lsn = w_next_lsn w ∧ state (w_clock w) < hlc ∧
      wal_rep w' (rs ++ [make lsn (w_node_id w) hlc (singleton (w_node_id w) hlc)])
  | Err _ => wal_rep w' rs
  | Panic => False
  end.
Proof.
  intros Hrep Hroom Hwall Hmake Hproj. pose proof Hrep as [Hf Hwf Hls Hlb Hnx Hhs Hhb Hck Hnd].
  set (w1 := mkWriter (w_file w) (w_next_lsn w + 1) (w_next_tx_id w) (w_file_version w) (w_node_id w) (w_clock w)).
  assert (Hal : alloc_lsn w = (Ok (w_next_lsn w), w1)).
  { unfold alloc_lsn. rewrite st_get_bind. by rewrite decide_False by lia. }
  assert (Hlb1 : Forall (λ r, r_lsn r < w_next_lsn w + 1) rs).
  { eapply Forall_impl; [exact Hlb|]. simpl. lia. }
  unfold log_record. erewrite st_step by exact Hal.
  destruct wall as [t|].
  2:{ unfold clock_now, now, mbind at 1, st_bind at 1. cbn. split_and!; [done..|].
      constructor; cbn [w_file w_next_lsn w_clock w_node_id]; done || lia. }
  pose proof (now_ok (w_clock w) t Hck (Hwall t eq_refl)) as Hnow.
  destruct (now (Some t) (w_clock w)) as [[h|e|] c] eqn:E; [| |done].
  - destruct Hnow as (Hst & Hlt & Hu & Hsk & _).
    erewrite st_step by (unfold clock_now, w1; cbn [w_clock]; rewrite E; reflexivity).
    rewrite st_get_bind. unfold append_record. rewrite st_modify_bind.
    cbn [mret st_ret w_file w_next_lsn w_next_tx_id w_file_version w_node_id w_clock w1].
    split_and!; [done|done|done|done|lia|].
    destruct (Hproj (w_next_lsn w) (w_node_id w) h (singleton (w_node_id w) h)) as [Hp1 Hp2].
    specialize (Hmake h Hu). set (r := make _ _ _ _) in *.
    constructor; cbn [w_file w_next_lsn w_clock w_node_id]; [| | | |lia| | |by rewrite Hst|done].
    + rewrite Hf, fmap_app, concat_app. cbn [fmap list_fmap concat]. by rewrite app_nil_r, app_assoc.
    + apply Forall_app. split; [done|by constructor].
    + rewrite fmap_app. cbn [fmap list_fmap]. rewrite Hp1. apply sorted_snoc; [done|].
      by apply Forall_fmap.
    + apply Forall_app. split; [done|]. constructor; [lia|done].
    + rewrite fmap_app. cbn [fmap list_fmap]. rewrite Hp2. apply sorted_snoc; [done|].
      apply Forall_fmap. eapply Forall_impl; [exact Hhb|]. simpl. lia.
    + rewrite Hst. apply Forall_app. split; [|constructor; [lia|done]].
      eapply Forall_impl; [exact Hhb|]. simpl. lia.
  - destruct Hnow as (-> & _).
    erewrite st_step_err by (unfold clock_now, w1; cbn [w_clock]; rewrite E; reflexivity).
    cbn [w_file w_next_lsn w_node_id w_clock w1]. split_and!; [done..|].
    constructor; cbn [w_file w_next_lsn w_clock w_node_id]; done || lia.
Qed.

(** ** Runs of a writer *)

Inductive wal_op :=
  | WBegin
  | WPageWrite (wall : option Z) (tx_id pid : Z) (before after : bytes)
  | WCommit (wall : option Z) (tx_id : Z)
  | WCheckpoint (wall : option Z)
  | WTruncate.

Definition run_wal_op (o : wal_op) : wal_m (option (Z * Z)) :=
  match o with
  | WBegin => _ ← begin_tx; mret None
  | WPageWrite wall tx pid before after => x ← log_page_write wall tx pid before after; mret (Some x)
  | WCommit wall tx => x ← log_commit wall tx; mret (Some x)
  | WCheckpoint wall => x ← log_checkpoint wall; mret (Some x)
  | WTruncate => _ ← truncate; mret None
  end.

Definition wall_ok (wall : option Z) : Prop := ∀ t, wall = Some t → 0 ≤ t < 2 ^ 48.

Definition wal_op_ok (o : wal_op) : Prop :=
  match o with
  | WBegin | WTruncate => True
  | WPageWrite wall tx pid before after => wall_ok wall ∧ is_u64 tx ∧ is_u32 pid ∧
      Z.of_nat (length (after ++ before)) < 4294967200
  | WCommit wall tx => wall_ok wall ∧ is_u64 tx
  | WCheckpoint wall => wall_ok wall
  end.

(** The record an operation answered with [(lsn, hlc)] has put in the log. *)
Definition entry (node : Z) (o : wal_op) (lsn hlc : Z) : list WalRecord :=
  let vc := singleton node hlc in
  match o with
  | WPageWrite _ tx pid before after => [page_write lsn tx node hlc vc pid before after]
  | WCommit _ tx => [commit lsn tx node hlc vc]
  | WCheckpoint _ => [checkpoint lsn node hlc vc]
  | WBegin | WTruncate => []
  end.

Definition spec_log (node : Z) (rs : list WalRecord) (o : wal_op) (r : res (option (Z * Z))) : list WalRecord :=
  match o, r with
  | WTruncate, _ => []
  | _, Ok (Some (lsn, hlc)) => rs ++ entry node o lsn hlc
  | _, _ => rs
  end.

Lemma entry_wf_page node wall tx pid before after lsn h :
  wal_op_ok (WPageWrite wall tx pid before after) → is_u64 lsn → is_u128 node → is_u64 h →
  record_wf (page_write lsn tx node h (singleton node h) pid before after).
Proof.
  intros (_ & Htx & Hpid & Hlen) Hl Hn Hh. apply seal_wf; try done.
  - by apply singleton_wf.
  - by left.
  - unfold encoded_v2_len, encoded_len. cbn [r_op_type r_data r_vector_clock singleton bt_insert length].
    unfold WAL_RECORD_HEADER_SIZE_V2, VCLOCK_ENTRY_SIZE. lia.
Qed.

Lemma entry_wf_plain node tx lsn h :
  is_u64 tx → is_u64 lsn → is_u128 node → is_u64 h →
  record_wf (commit lsn tx node h (singleton node h)) ∧
  record_wf (checkpoint lsn node h (singleton node h)).
Proof.
  intros Htx Hl Hn Hh. assert (is_u64 0) by (unfold is_u64; lia).
  assert (is_u32 0) by (unfold is_u32; lia).
  split; apply seal_wf; try done; try (by apply singleton_wf); by right.
Qed.

Lemma run_wal_op_ok o w rs :
  wal_rep w rs → wal_op_ok o → w_next_lsn w < u64_max → w_next_tx_id w < u64_max →
  let '(r, w') := run_wal_op o w in
  r ≠ Panic ∧ wal_rep w' (spec_log (w_node_id w) rs o r) ∧ w_node_id w' = w_node_id w ∧
  w_next_lsn w' ≤ w_next_lsn w + 1 ∧ w_next_tx_id w' ≤ w_next_tx_id w + 1.
Proof.
  intros Hrep Hok Hl Ht. pose proof (wr_next _ _ Hrep) as Hnx. pose proof (wr_node _ _ Hrep) as Hnd.
  assert (Hu : is_u64 (w_next_lsn w)) by (unfold is_u64, u64_max in *; lia).
  assert (Htx : ∀ wall make, w_next_tx_id (log_record wall make w).2 = w_next_tx_id w).
  { intros wall make. unfold log_record, alloc_lsn, clock_now, append_record, mbind, st_bind, st_get, st_modify, mret, st_ret.
    rewrite decide_False by lia. cbn. by destruct (now wall (w_clock w)) as [[| |] ?]. }
  assert (Hlog : ∀ wall make, wall_ok wall →
    (∀ h, is_u64 h → record_wf (make (w_next_lsn w) (w_node_id w) h (singleton (w_node_id w) h))) →
    (∀ l n h v, r_lsn (make l n h v) = l ∧ r_hlc (make l n h v) = h) →
    (∀ l h, entry (w_node_id w) o l h = [make l (w_node_id w) h (singleton (w_node_id w) h)]) →
    o ≠ WTruncate →
    let '(r, w') := (x ← log_record wall make; mret (Some x)) w in
    r ≠ Panic ∧ wal_rep w' (spec_log (w_node_id w) rs o r) ∧ w_node_id w' = w_node_id w ∧
    w_next_lsn w' ≤ w_next_lsn w + 1 ∧ w_next_tx_id w' ≤ w_next_tx_id w + 1).
  { intros wall make Hwall Hmake Hproj Hent Htr.
    pose proof (log_record_ok w rs wall make Hrep Hl Hwall Hmake Hproj) as Hr.
    specialize (Htx wall make).
    destruct (log_record wall make w) as [[[lsn hlc]|e|] w'] eqn:E; cbn [snd] in Htx.
    - erewrite st_step by exact E. destruct Hr as (H1 & H2 & _ & -> & _ & H3).
      cbn [mret st_ret]. split_and!; [done| |done|lia|lia].
      destruct o; cbn [spec_log]; rewrite ?Hent; done.
    - erewrite st_step_err by exact E. destruct Hr as (H1 & H2 & _ & H3).
      split_and!; [done| |done|lia|lia]. by destruct o.
    - by destruct Hr as (_ & _ & _ & ?). }
  destruct o as [|wall tx pid before after|wall tx|wall|]; cbn [run_wal_op].
  - unfold begin_tx, mbind, st_bind, st_get, st_modify, mret, st_ret. rewrite decide_False by lia.
    cbn. split_and!; [done| |done|lia|lia]. destruct Hrep. by constructor.
  - apply Hlog; [apply Hok| |done|done|done]. intros h Hh.
    exact (entry_wf_page (w_node_id w) wall tx pid before after (w_next_lsn w) h Hok Hu Hnd Hh).
  - apply Hlog; [apply Hok| |done|done|done]. intros h Hh.
    exact (proj1 (entry_wf_plain (w_node_id w) tx (w_next_lsn w) h (proj2 Hok) Hu Hnd Hh)).
  - apply Hlog; [apply Hok| |done|done|done]. intros h Hh.
    exact (proj2 (entry_wf_plain (w_node_id w) 0 (w_next_lsn w) h ltac:(unfold is_u64; lia) Hu Hnd Hh)).
  - unfold truncate. rewrite st_modify_bind. cbn [mret st_ret spec_log w_node_id w_next_lsn w_next_tx_id].
    split_and!; [done| |done|lia|lia]. destruct Hrep.
    constructor; cbn [w_file w_next_lsn w_clock w_node_id]; 
      [symmetry; apply app_nil_r|constructor|constructor|constructor|assumption|constructor|constructor|
       assumption|assumption].
Qed.

Fixpoint run_wal (os : list wal_op) (w : WalWriter) : list (res (option (Z * Z))) * WalWriter :=
  match os with
  | [] => ([], w)
  | o :: os => let '(r, w) := run_wal_op o w in let '(rs, w) := run_wal os w in (r :: rs, w)
  end.

(** The log a sequence of operations and their answers leaves. *)
Fixpoint spec_logs (node : Z) (rs : list WalRecord) (os : list wal_op) (ans : list (res (option (Z * Z)))) :
    list WalRecord :=
  match os, ans with
  | o :: os, r :: ans => spec_logs node (spec_log node rs o r) os ans
  | _, _ => rs
  end.

Lemma run_wal_ok os w rs :
  wal_rep w rs → Forall wal_op_ok os →
  w_next_lsn w + Z.of_nat (length os) ≤ u64_max → w_next_tx_id w + Z.of_nat (length os) ≤ u64_max →
  let '(ans, w') := run_wal os w in
  Forall (λ r, r ≠ Panic) ans ∧ wal_rep w' (spec_logs (w_node_id w) rs os ans).
Proof.
  revert w rs. induction os as [|o os IH]; intros w rs Hrep Hok Hl Ht; [by split|].
  apply Forall_cons in Hok as [Ho Hos]. cbn [length] in *.
  pose proof (run_wal_op_ok o w rs Hrep Ho ltac:(lia) ltac:(lia)) as Hstep.
  cbn [run_wal]. destruct (run_wal_op o w) as [r w1].
  destruct Hstep as (Hp & Hrep1 & Hn & Hl1 & Ht1).
  specialize (IH w1 _ Hrep1 Hos ltac:(lia) ltac:(lia)). destruct (run_wal os w1) as [ans w2].
  destruct IH as [Hnp Hrep2]. rewrite Hn in Hrep2. split; [by constructor|done].
Qed.

Definition fresh_writer (node : Z) (clock : HlcClock) : WalWriter :=
  mkWriter (build_wal_header WAL_VERSION_CURRENT) 1 1 WAL_VERSION_CURRENT node clock.

Lemma fresh_rep node clock :
  is_u128 node → is_u64 (state clock) → wal_rep (fresh_writer node clock) [].
Proof.
  intros Hn Hc. constructor; cbn [fresh_writer w_file w_next_lsn w_clock w_node_id];
    [symmetry; apply app_nil_r|constructor|constructor|constructor|unfold u64_max; lia|constructor|
     constructor|done|done].
Qed.

(** Reopening a file written by a writer resumes above every LSN in it. *)
Lemma take_wal_header v k tail :
  (k ≤ WAL_HEADER_SIZE)%nat → take k (build_wal_header v ++ tail) = take k (build_wal_header v).
Proof.
  intros Hk. apply take_app_le. by rewrite length_wal_header.
Qed.

Lemma max_of_spec l : Forall (λ x, 0 ≤ x) l → Forall (λ x, x ≤ max_of l) l ∧ 0 ≤ max_of l ∧
  (max_of l = 0 ∨ max_of l ∈ l).
Proof.
  induction 1 as [|x l Hx Hl IH]; [split_and!; [constructor|done|by left]|].
  destruct IH as (H1 & H2 & H3). cbn [max_of foldr]. fold (max_of l). split_and!.
  - constructor; [lia|]. eapply Forall_impl; [exact H1|]. simpl. lia.
  - lia.
  - destruct (Z.max_spec x (max_of l)) as [[_ ->]|[_ ->]]; set_solver.
Qed.

Lemma header_magic : take 8 (build_wal_header WAL_VERSION_CURRENT) = WAL_MAGIC.
Proof. vm_compute. reflexivity. Qed.

Lemma header_version : parse_wal_header (take 18 (build_wal_header WAL_VERSION_CURRENT)) = Ok WAL_VERSION_V2.
Proof. vm_compute. reflexivity. Qed.

Lemma open_v2_run f node clock nl nt :
  take 8 f = WAL_MAGIC → parse_wal_header (take 18 f) = Ok WAL_VERSION_V2 →
  next_after (r_lsn <$> read_v2_records f) = Ok nl → next_after (r_tx_id <$> read_v2_records f) = Ok nt →
  new_with_identity (Some f) node clock = Ok (mkWriter f nl nt WAL_VERSION_V2 node clock).
Proof.
  intros Hm Hv Hl Ht. unfold new_with_identity. destruct f as [|b f]; [done|].
  rewrite decide_True by done. rewrite Hv. cbn [mbind outcome_bind]. rewrite decide_True by done.
  rewrite Hl. cbn [mbind outcome_bind]. rewrite Ht. done.
Qed.

Lemma reopen_run tail node clock nl nt :
  let f := build_wal_header WAL_VERSION_CURRENT ++ tail in
  next_after (r_lsn <$> read_v2_records f) = Ok nl → next_after (r_tx_id <$> read_v2_records f) = Ok nt →
  new_with_identity (Some f) node clock = Ok (mkWriter f nl nt WAL_VERSION_V2 node clock).
Proof.
  intros f. pose proof PAGE_SIZE_Z.
  apply open_v2_run; unfold f; rewrite take_wal_header by (unfold WAL_HEADER_SIZE; lia);
    [apply header_magic|apply header_version].
Qed.

Lemma next_after_ok l : Forall (λ x, 0 ≤ x < u64_max) l → next_after l = Ok (max_of l + 1).
Proof.
  intros Hl. unfold next_after. rewrite decide_False; [done|]. intros E.
  destruct (max_of_spec l) as (_ & _ & [H0|Hin]).
  - eapply Forall_impl; [exact Hl|]. simpl. lia.
  - unfold u64_max in *. lia.
  - rewrite Forall_forall in Hl. apply Hl in Hin. lia.
Qed.

(** ** Theorems *)

(** C4: Over any run of begin, page-write, commit, checkpoint and truncate calls
    (the wall clock doing what it likes), reading the log gives exactly the records
    of the calls that succeeded since the last truncation, in order, with strictly
    increasing LSNs and HLCs; no call panics. *)
Theorem wal_append_only (os : list wal_op) (node : Z) (clock : HlcClock) :
  is_u128 node → is_u64 (state clock) → Forall wal_op_ok os →
  Z.of_nat (length os) < u64_max →
  let '(ans, w) := run_wal os (fresh_writer node clock) in
  let log := spec_logs node [] os ans in
  Forall (λ r, r ≠ Panic) ans ∧ read_all_records w = (Ok log, w) ∧
  StronglySorted Z.lt (r_lsn <$> log) ∧ StronglySorted Z.lt (r_hlc <$> log).
Proof.
  intros Hn Hc Hok Hlen.
  pose proof (run_wal_ok os _ [] (fresh_rep node clock Hn Hc) Hok) as Hr.
  cbn [fresh_writer w_next_lsn w_next_tx_id w_node_id] in Hr.
  specialize (Hr ltac:(lia) ltac:(lia)).
  change (mkWriter (build_wal_header WAL_VERSION_CURRENT) 1 1 WAL_VERSION_CURRENT node clock)
    with (fresh_writer node clock) in Hr.
  destruct (run_wal os (fresh_writer node clock)) as [ans w]. destruct Hr as [Hnp Hrep].
  split_and!; [done|by apply wal_rep_read|apply Hrep|apply Hrep].
Qed.

(** A crash in the middle of appending a record costs at most that record:
    the log reopens, shows every earlier record, and numbers new records above them. *)
Theorem wal_torn_append (w : WalWriter) (rs : list WalRecord) (r : WalRecord) (k : nat)
    (node : Z) (clock : HlcClock) :
  wal_rep w rs → record_wf r → (k < length (to_bytes r))%nat →
  Forall (λ r, r_tx_id r < u64_max) rs →
  ∃ w', new_with_identity (Some (w_file w ++ take k (to_bytes r))) node clock = Ok w' ∧
    read_all_records w' = (Ok rs, w') ∧ Forall (λ r, r_lsn r < w_next_lsn w') rs ∧
    Forall (λ r, r_tx_id r < w_next_tx_id w') rs.
Proof.
  intros Hrep Hr Hk Htx. rewrite length_to_bytes in Hk.
  assert (Hread : read_v2_records (w_file w ++ take k (to_bytes r)) = rs).
  { rewrite (wr_file _ _ Hrep), <- app_assoc. apply read_file; [apply Hrep|].
    intros r' n. rewrite from_prefix_v2 by done. done. }
  assert (Hlsn : Forall (λ x, 0 ≤ x < u64_max) (r_lsn <$> rs)).
  { apply Forall_fmap, Forall_forall. intros x Hx. simpl.
    pose proof (wr_lsn_below _ _ Hrep) as H1. pose proof (wr_wf _ _ Hrep) as H2.
    pose proof (wr_next _ _ Hrep). rewrite Forall_forall in H1, H2.
    specialize (H1 x Hx). destruct (rw_lsn _ (H2 x Hx)). lia. }
  assert (Htx' : Forall (λ x, 0 ≤ x < u64_max) (r_tx_id <$> rs)).
  { apply Forall_fmap, Forall_forall. intros x Hx. simpl.
    pose proof (wr_wf _ _ Hrep) as H2. rewrite Forall_forall in Htx, H2.
    specialize (Htx x Hx). destruct (rw_tx _ (H2 x Hx)). lia. }
  eexists. split; [|split; [|split]].
  - rewrite (wr_file _ _ Hrep), <- app_assoc in *. apply reopen_run; rewrite Hread; by apply next_after_ok.
  - unfold read_all_records. cbn [w_file]. by rewrite <- app_assoc, <- (wr_file _ _ Hrep), Hread
      || (rewrite (wr_file _ _ Hrep), <- app_assoc in Hread; by rewrite Hread).
  - cbn [w_next_lsn]. destruct (max_of_spec (r_lsn <$> rs)) as (Hm & _).
    { eapply Forall_impl; [exact Hlsn|]. simpl. lia. }
    rewrite Forall_fmap in Hm. eapply Forall_impl; [exact Hm|]. simpl. lia.
  - cbn [w_next_tx_id]. destruct (max_of_spec (r_tx_id <$> rs)) as (Hm & _).
    { eapply Forall_impl; [exact Htx'|]. simpl. lia. }
    rewrite Forall_fmap in Hm. eapply Forall_impl; [exact Hm|]. simpl. lia.
Qed.

(** A tail that starts with an impossible record length (zero bytes, say) is
    not removed when the log is reopened, so whatever is appended after it, commits
    included, is never read back. *)
Theorem wal_tail_hides_appends (w : WalWriter) (rs rs2 : list WalRecord) (tail : bytes) :
  wal_rep w rs → (4 ≤ length tail)%nat → le_at 0 4 tail < 49 →
  read_v2_records (w_file w ++ tail ++ concat (to_bytes <$> rs2)) = rs.
Proof.
  intros Hrep Hlen Hbad. rewrite (wr_file _ _ Hrep), <- app_assoc. apply read_file; [apply Hrep|].
  intros r n. unfold from_bytes_v2. rewrite decide_False by (rewrite length_app; lia).
  rewrite le_at_app_l by lia. rewrite decide_True; [done|]. left.
  pose proof (le_at_range 0 4 tail). unfold WAL_RECORD_HEADER_SIZE_V2. lia.
Qed.
End writer.

Lemma wal_append_only_witness :
  let C := crc32_ieee in
  let os := [WBegin; WPageWrite (Some 5) 1 3 (str "old") (str "new"); WCommit (Some 4) 1;
             WCheckpoint None; WTruncate; WCommit (Some 4) 2] in
  let '(ans, w) := run_wal os (fresh_writer 7 (mkClock 0 0)) in
  let log := spec_logs 7 [] os ans in
  Forall (λ r, r ≠ Panic) ans ∧ read_all_records w = (Ok log, w) ∧
  StronglySorted Z.lt (r_lsn <$> log) ∧ StronglySorted Z.lt (r_hlc <$> log).
Proof.
  intros C os. apply wal_append_only.
  - vm_compute. intuition discriminate.
  - vm_compute. intuition discriminate.
  - assert (Hs : ∀ t, 0 ≤ t < 2 ^ 48 → wall_ok (Some t)) by (intros t Ht u [= <-]; exact Ht).
    assert (Hu : ∀ z, 0 ≤ z < 10 → is_u64 z ∧ is_u32 z) by (intros z; unfold is_u64, is_u32; lia).
    apply Forall_cons_2; [exact I|]. apply Forall_cons_2.
    { split; [apply Hs; lia|]. split; [apply Hu; lia|]. split; [apply Hu; lia|vm_compute; reflexivity]. }
    apply Forall_cons_2; [split; [apply Hs; lia|apply Hu; lia]|].
    apply Forall_cons_2; [intros t Ht; discriminate Ht|]. apply Forall_cons_2; [exact I|].
    apply Forall_cons_2; [split; [apply Hs; lia|apply Hu; lia]|]. apply Forall_nil_2.
  - vm_compute. reflexivity.
Defined.

Lemma wal_torn_append_witness :
  let C := crc32_ieee in
  let r := commit 1 1 7 9 (singleton 7 9) in
  ∃ w', new_with_identity (Some (w_file (fresh_writer 7 (mkClock 0 0)) ++ take 20 (to_bytes r))) 7 (mkClock 0 0)
      = Ok w' ∧
    read_all_records w' = (Ok [], w') ∧ Forall (λ r, r_lsn r < w_next_lsn w') [] ∧
    Forall (λ r, r_tx_id r < w_next_tx_id w') [].
Proof.
  intros C r. apply (wal_torn_append (fresh_writer 7 (mkClock 0 0)) [] r 20 7 (mkClock 0 0)).
  - apply fresh_rep; vm_compute; intuition discriminate.
  - apply (entry_wf_plain 7 1 1 9); vm_compute; intuition discriminate.
  - vm_compute. lia.
  - constructor.
Defined.

Lemma wal_tail_hides_appends_witness :
  let C := crc32_ieee in
  read_v2_records (w_file (fresh_writer 7 (mkClock 0 0)) ++ replicate 4 x00 ++
    concat (to_bytes <$> [commit 1 1 7 9 (singleton 7 9)])) = [].
Proof.
  intros C. apply (wal_tail_hides_appends (fresh_writer 7 (mkClock 0 0))).
  - apply fresh_rep; vm_compute; intuition discriminate.
  - simpl. lia.
  - vm_compute. reflexivity.
Defined.
