(* ===== verification/AppliedSet.v ===== *)
(** * Applied watermarks and the idempotent applier

    src/src/wal/applied_set.rs and src/grumpydb-replication/src/idempotent.rs.
    The [uuid] crate's text form of a node id is the class [UuidText] (documented:
    distinct ids have distinct texts).  The JSON state file is represented by the
    [AppliedSet] it holds.  The inner applier is a parameter: a computation on a
    state of its own. *)

From S2P Require Import Prelude RustStd Hlc VClock Page WalRecord.

Local Open Scope Z_scope.

Class UuidText := {
  uuid_text : Z → bytes;
  uuid_text_inj : ∀ a b, is_u128 a → is_u128 b → uuid_text a = uuid_text b → a = b;
}.

(** [Uuid::as_u128]: the 16 bytes, most significant first. *)
Definition as_u128 (u : bytes) : Z := of_le (reverse u).

Inductive ObserveOutcome := New | AlreadyApplied.

#[export] Instance ObserveOutcome_eq_dec : EqDecision ObserveOutcome.
Proof. solve_decision. Defined.

Record AppliedSet := mkApplied { last_applied : list (bytes * Z); schema_version : Z }.

Definition applied_default : AppliedSet := mkApplied [] 1.

Definition load (state_file : option AppliedSet) : AppliedSet := default applied_default state_file.

(** ** The applier's state *)

Record IdempotentApplier (I : Type) := mkApplier {
  inner : I;
  set : AppliedSet;
  state_file : option AppliedSet;
}.
Arguments mkApplier {I} _ _ _.
Arguments inner {I} _.
Arguments set {I} _.
Arguments state_file {I} _.

(** ** The watermark *)

Section applied.
Context `{UuidText}.

Definition observe (origin hlc : Z) (s : AppliedSet) : ObserveOutcome * AppliedSet :=
  let key := uuid_text origin in
  let entry := default 0 (bt_get key (last_applied s)) in
  if decide (entry < hlc) then
    (New, mkApplied (bt_insert key hlc (last_applied s)) (schema_version s))
  else (AlreadyApplied, mkApplied (bt_insert key entry (last_applied s)) (schema_version s)).

Definition high_water (s : AppliedSet) (origin : Z) : Z :=
  default 0 (bt_get (uuid_text origin) (last_applied s)).

Definition applied_wf (s : AppliedSet) : Prop := bt_sorted (last_applied s).

Lemma observe_spec origin hlc s :
  applied_wf s → is_u128 origin →
  applied_wf (observe origin hlc s).2 ∧
  (observe origin hlc s).1 = (if decide (high_water s origin < hlc) then New else AlreadyApplied) ∧
  ∀ o, is_u128 o → high_water (observe origin hlc s).2 o =
    if decide (o = origin) then Z.max hlc (high_water s origin) else high_water s o.
Proof.
  intros Hs Ho. unfold observe, high_water, applied_wf in *.
  assert (Hget : ∀ v o, is_u128 o →
    default 0 (bt_get (uuid_text o) (bt_insert (uuid_text origin) v (last_applied s))) =
    if decide (o = origin) then v else default 0 (bt_get (uuid_text o) (last_applied s))).
  { intros v o Ho'. rewrite bt_get_insert by done. repeat case_decide; try done.
    - by apply uuid_text_inj in H0.
    - congruence. }
  case_decide as Hlt; cbn [fst snd last_applied].
  - split_and!; [by apply bt_sorted_insert|done|]. intros o Ho'. rewrite Hget by done.
    case_decide; [|done]. lia.
  - split_and!; [by apply bt_sorted_insert|done|]. intros o Ho'. rewrite Hget by done.
    case_decide; [|done]. lia.
Qed.

(** ** The applier *)

Definition ORIGIN_OFFSET : nat := 21.
Definition HLC_OFFSET : nat := 37.
Definition MIN_PEEK : nat := HLC_OFFSET + 8.

Definition peek_origin_hlc (raw : bytes) : option (Z * Z) :=
  if decide (length raw < MIN_PEEK)%nat then None
  else Some (le_at ORIGIN_OFFSET 16 raw, le_at HLC_OFFSET 8 raw).

Definition resume_hlc_for (state_file : option AppliedSet) (origin : Z) : Z :=
  high_water (load state_file) origin.

Inductive ApplyError := Decode (msg : string) | Engine (msg : string).

Section applier.
Context {I : Type} (inner_apply : bytes → ST I ApplyError unit).

Abbreviation applier_m := (ST (IdempotentApplier I) ApplyError).

Definition applier_new (i : I) (file : option AppliedSet) : IdempotentApplier I :=
  mkApplier i (load file) file.

Definition observe_m (origin hlc : Z) : applier_m ObserveOutcome := λ a,
  let '(o, s) := observe origin hlc (set a) in (Ok o, mkApplier (inner a) s (state_file a)).

Definition apply (raw : bytes) : applier_m unit :=
  '(origin, hlc) ← st_lift (ok_or (peek_origin_hlc raw) (Decode "cannot peek origin/hlc from raw record"));
  outcome ← observe_m origin hlc;
  if decide (outcome = New) then
    _ ← st_zoom inner (λ i a, mkApplier i (set a) (state_file a)) (inner_apply raw);
    st_modify (λ a, mkApplier (inner a) (set a) (Some (set a)))
  else mret tt.

Fixpoint apply_all (raws : list bytes) (a : IdempotentApplier I) : list (outcome ApplyError unit) * IdempotentApplier I :=
  match raws with
  | [] => ([], a)
  | raw :: raws => let '(r, a) := apply raw a in let '(rs, a) := apply_all raws a in (r :: rs, a)
  end.

Definition seen (a : IdempotentApplier I) (raw : bytes) : Prop :=
  ∃ o h, peek_origin_hlc raw = Some (o, h) ∧ h ≤ high_water (set a) o.

Lemma peek_range raw o h : peek_origin_hlc raw = Some (o, h) → is_u128 o ∧ is_u64 h.
Proof.
  unfold peek_origin_hlc. case_decide; [done|]. intros [= <- <-].
  split; [apply le_at_u128|apply le_at_u64].
Qed.

(** What one call does. *)
Lemma apply_spec a raw o h :
  applied_wf (set a) → peek_origin_hlc raw = Some (o, h) →
  let '(r, a') := apply raw a in
  applied_wf (set a') ∧
  (∀ x, is_u128 x → high_water (set a') x =
     if decide (x = o) then Z.max h (high_water (set a) o) else high_water (set a) x) ∧
  if decide (h ≤ high_water (set a) o) then r = Ok tt ∧ inner a' = inner a ∧ state_file a' = state_file a
  else r = (inner_apply raw (inner a)).1 ∧ inner a' = (inner_apply raw (inner a)).2 ∧
    (r = Ok tt → state_file a' = Some (set a')).
Proof.
  intros Hwf Hp. destruct (peek_range raw o h Hp) as [Ho _].
  destruct (observe_spec o h (set a) Hwf Ho) as (H1 & H2 & H3).
  unfold apply. rewrite Hp. cbn [ok_or]. unfold st_lift at 1. erewrite st_step by reflexivity.
  unfold observe_m. destruct (observe o h (set a)) as [oc s] eqn:E. cbn [fst snd] in *.
  erewrite st_step by (cbn; rewrite E; reflexivity). rewrite H2.
  destruct (decide (high_water (set a) o < h)) as [Hlt|Hge].
  - rewrite decide_True by done. unfold st_zoom, mbind, st_bind. cbn [inner set state_file].
    destruct (inner_apply raw (inner a)) as [[[]|e|] i]; cbn [st_modify mret st_ret inner set state_file fst snd];
      rewrite (decide_False (P := h ≤ high_water (set a) o)) by lia; done.
  - rewrite decide_False by done. cbn [mret st_ret inner set state_file].
    rewrite (decide_True (P := h ≤ high_water (set a) o)) by lia. done.
Qed.

Lemma seen_mono a raw a' r x :
  applied_wf (set a) → apply raw a = (r, a') → seen a x → seen a' x ∧ applied_wf (set a').
Proof.
  intros Hwf Hr (o & h & Hp & Hle). destruct (peek_range x o h Hp) as [Ho _].
  destruct (peek_origin_hlc raw) as [[o' h']|] eqn:E.
  - pose proof (apply_spec a raw o' h' Hwf E) as Hs. rewrite Hr in Hs. destruct Hs as (H1 & H2 & _).
    split; [|done]. exists o, h. split; [done|]. rewrite H2 by done. case_decide; [subst; lia|done].
  - unfold apply in Hr. rewrite E in Hr. injection Hr as <- <-. split; [|done]. by exists o, h.
Qed.

Lemma apply_seen a raw r a' :
  applied_wf (set a) → apply raw a = (r, a') → is_Some (peek_origin_hlc raw) →
  seen a' raw ∧ applied_wf (set a').
Proof.
  intros Hwf Hr [[o h] Hp]. destruct (peek_range raw o h Hp) as [Ho _].
  pose proof (apply_spec a raw o h Hwf Hp) as Hs. rewrite Hr in Hs. destruct Hs as (H1 & H2 & _).
  split; [|done]. exists o, h. split; [done|]. rewrite H2, decide_True by done. lia.
Qed.

Lemma apply_all_seen raws a :
  applied_wf (set a) → Forall (λ raw, is_Some (peek_origin_hlc raw)) raws →
  applied_wf (set (apply_all raws a).2) ∧
  (∀ x, seen a x ∨ x ∈ raws → seen (apply_all raws a).2 x).
Proof.
  revert a. induction raws as [|raw raws IH]; intros a Hwf Hp; cbn [apply_all].
  { split; [done|]. intros x [?|?%elem_of_nil]; done. }
  apply Forall_cons in Hp as [Hp Hps]. destruct (apply raw a) as [r a1] eqn:E.
  destruct (apply_seen a raw r a1 Hwf E Hp) as [Hseen Hwf1].
  destruct (IH a1 Hwf1 Hps) as [Hwf2 Hall]. destruct (apply_all raws a1) as [rs a2]. cbn [snd] in *.
  split; [done|]. intros x [Hx|[->|Hx]%elem_of_cons]; apply Hall; [left|by left|by right].
  by apply (seen_mono a raw a1 r x Hwf E).
Qed.

(** Once a batch of records has been through the applier, applying any of them
    again succeeds without calling the inner applier or touching the state file, in
    any order and any number of times. *)
Theorem applier_idempotent (raws again : list bytes) (a : IdempotentApplier I) :
  applied_wf (set a) → Forall (λ raw, is_Some (peek_origin_hlc raw)) raws →
  (∀ raw, raw ∈ again → raw ∈ raws) →
  let a1 := (apply_all raws a).2 in
  let '(rs, a2) := apply_all again a1 in
  Forall (λ r, r = Ok tt) rs ∧ inner a2 = inner a1 ∧ state_file a2 = state_file a1.
Proof.
  intros Hwf Hp Hsub a1. destruct (apply_all_seen raws a Hwf Hp) as [Hwf1 Hseen]. fold a1 in Hwf1, Hseen.
  assert (Hag : ∀ raw, raw ∈ again → seen a1 raw) by (intros; apply Hseen; auto).
  clear Hseen Hsub. clearbody a1. revert a1 Hwf1 Hag. induction again as [|raw again IH]; intros a1 Hwf1 Hag;
    cbn [apply_all]; [done|].
  destruct (apply raw a1) as [r a2] eqn:E.
  destruct (Hag raw ltac:(left)) as (o & h & Hpk & Hle).
  pose proof (apply_spec a1 raw o h Hwf1 Hpk) as Hs. rewrite E in Hs. destruct Hs as (Hwf2 & _ & Hs).
  rewrite decide_True in Hs by done. destruct Hs as (-> & Hi & Hf).
  specialize (IH a2 Hwf2). destruct (apply_all again a2) as [rs a3].
  destruct IH as (H1 & H2 & H3).
  { intros x Hx. apply (seen_mono a1 raw a2 (Ok tt) x Hwf1 E). apply Hag. by right. }
  split_and!; [by constructor|congruence|congruence].
Qed.

(** The watermark advances before the inner applier runs: a record whose inner
    application fails is answered with that error once, and a retry of it reports
    success without applying anything. *)
Theorem failed_apply_not_retried (a : IdempotentApplier I) (raw : bytes) (o h : Z) (e : ApplyError) (i' : I) :
  applied_wf (set a) → peek_origin_hlc raw = Some (o, h) → high_water (set a) o < h →
  inner_apply raw (inner a) = (Err e, i') →
  ∃ a1 a2, apply raw a = (Err e, a1) ∧ apply raw a1 = (Ok tt, a2) ∧ inner a2 = i'.
Proof.
  intros Hwf Hp Hlt Hin. pose proof (apply_spec a raw o h Hwf Hp) as Hs.
  destruct (apply raw a) as [r a1] eqn:E1. rewrite (decide_False (P := h ≤ _)) in Hs by lia.
  rewrite Hin in Hs. destruct Hs as (Hwf1 & Hhw & -> & Hi & _). cbn [fst snd] in *.
  pose proof (apply_spec a1 raw o h Hwf1 Hp) as Hs2. destruct (apply raw a1) as [r2 a2] eqn:E2.
  destruct (peek_range raw o h Hp) as [Ho _].
  rewrite Hhw, (decide_True (P := o = o)) in Hs2 by done. rewrite decide_True in Hs2 by lia.
  destruct Hs2 as (_ & _ & -> & Hi2 & _). exists a1, a2. split_and!; [done|done|congruence].
Qed.
End applier.

(** The two fields peeked at are where the record encoder puts them. *)
Lemma peek_record `{Crc32} r :
  record_wf r → peek_origin_hlc (to_bytes r) = Some (r_origin_node_id r, r_hlc r).
Proof.
  intros Hwf. unfold peek_origin_hlc, MIN_PEEK, HLC_OFFSET, ORIGIN_OFFSET.
  pose proof (length_to_bytes r) as Hl. pose proof (v2_len r) as Hv.
  rewrite decide_False by lia. destruct (buf_header r [] Hwf) as (_ & _ & _ & _ & H5 & H6).
  rewrite app_nil_r in H5, H6. by rewrite H5, H6.
Qed.
End applied.

(** ** Witnesses *)

Definition uuid_plain : UuidText.
Proof.
  refine {| uuid_text := λ z, to_le 16 z |}. intros a b Ha Hb E.
  apply (f_equal of_le) in E. rewrite !of_to_le_small in E; [done|apply Hb|apply Ha].
Defined.

(** A record from node 1 at HLC 5, cut after the peeked fields. *)
Definition demo_raw : bytes := replicate 21 x00 ++ to_le 16 1 ++ to_le 8 5.

Lemma applier_idempotent_witness :
  let U := uuid_plain in
  let count : bytes → ST nat ApplyError unit := λ _, st_modify S in
  let a1 := (apply_all count [demo_raw] (applier_new 0%nat None)).2 in
  let '(rs, a2) := apply_all count [demo_raw; demo_raw] a1 in
  Forall (λ r, r = Ok tt) rs ∧ inner a2 = inner a1 ∧ state_file a2 = state_file a1.
Proof.
  intros U count. apply applier_idempotent.
  - constructor.
  - constructor; [|constructor]. exists (1, 5). vm_compute. reflexivity.
  - set_solver.
Defined.

Lemma failed_apply_not_retried_witness :
  let U := uuid_plain in
  let broken : bytes → ST nat ApplyError unit := λ _, st_fail (Engine "disk full") in
  ∃ a1 a2, apply broken demo_raw (applier_new 0%nat None) = (Err (Engine "disk full"), a1) ∧
    apply broken demo_raw a1 = (Ok tt, a2) ∧ inner a2 = 0%nat.
Proof.
  intros U broken. apply (failed_apply_not_retried broken (applier_new 0%nat None) demo_raw 1 5).
  - constructor.
  - vm_compute. reflexivity.
  - vm_compute. reflexivity.
  - reflexivity.
Defined.
