(* ===== verification/Recovery.v ===== *)
(** * Crash recovery (src/src/wal/recovery.rs)

    Recovery runs on the two page managers of a collection; bit 31 of a record's
    page id selects the index file.  [page_content] is what a page id denotes in
    that pair of files. *)

From S2P Require Import Prelude RustStd Page PageManager Hlc VClock WalRecord AppliedSet.

Local Open Scope Z_scope.

Record RecoveryState := mkRS {
  data_pm : PageManager;
  index_pm : PageManager;
  applied : option AppliedSet;
}.

Abbreviation rec_m := (ST RecoveryState GrumpyError).

Record RecoveryResult := mkResult {
  redo_count : Z;
  undo_count : Z;
  committed_txs : Z;
  records_processed : Z;
  skipped_duplicate : Z;
}.

Definition INDEX_PAGE_FLAG : Z := 2147483648.

Section recovery.
Context `{C : Crc32} `{U : UuidText}.

Definition is_index (pid : Z) : bool := negb (Z.land pid INDEX_PAGE_FLAG =? 0).
Definition real_id (pid : Z) : Z := Z.land pid 2147483647.

(** [select_pm]: reads and updates the selected manager. *)
Definition select_pm (pid : Z) (s : RecoveryState) : PageManager :=
  if is_index pid then index_pm s else data_pm s.
Definition update_pm (pid : Z) (p : PageManager) (s : RecoveryState) : RecoveryState :=
  if is_index pid then mkRS (data_pm s) p (applied s) else mkRS p (index_pm s) (applied s).

(** The body shared by the two images: write [page_buf] if the page exists. *)
Definition write_image (pid : Z) (page_buf : bytes) : rec_m unit :=
  s ← st_get;
  if decide (real_id pid < num_pages (select_pm pid s)) then
    st_zoom (select_pm pid) (update_pm pid) (write_page (real_id pid) page_buf)
  else mret tt.

Definition apply_after_image (r : WalRecord) : rec_m unit :=
  if decide (length (r_data r) < PAGE_SIZE * 2)%nat then mret tt
  else write_image (r_page_id r) (take PAGE_SIZE (r_data r)).

Definition apply_before_image (r : WalRecord) : rec_m unit :=
  if decide (length (r_data r) < PAGE_SIZE * 2)%nat then mret tt
  else write_image (r_page_id r) (slice PAGE_SIZE PAGE_SIZE (r_data r)).

Definition checkpoint_lsn (records : list WalRecord) : Z :=
  foldr Z.max 0 (r_lsn <$> filter (λ r, r_op_type r = Checkpoint) records).

Definition active_records (records : list WalRecord) : list WalRecord :=
  filter (λ r, checkpoint_lsn records < r_lsn r) records.

Definition committed_set (active : list WalRecord) : list Z :=
  remove_dups (r_tx_id <$> filter (λ r, r_op_type r = Commit) active).

(** [if let Some(set) = applied && set.observe(..) == AlreadyApplied] *)
Definition observe_applied (r : WalRecord) : rec_m bool := λ s,
  match applied s with
  | None => (Ok false, s)
  | Some set =>
      let '(o, set) := observe (r_origin_node_id r) (r_hlc r) set in
      (Ok (bool_decide (o = AlreadyApplied)), mkRS (data_pm s) (index_pm s) (Some set))
  end.

Fixpoint redo (txs : list Z) (rs : list WalRecord) (redo_count skipped_dup : Z) : rec_m (Z * Z) :=
  match rs with
  | [] => mret (redo_count, skipped_dup)
  | r :: rs =>
      if decide (r_op_type r = PageWrite ∧ r_tx_id r ∈ txs) then
        dup ← observe_applied r;
        if dup : bool then redo txs rs redo_count (skipped_dup + 1)
        else
          _ ← apply_after_image r;
          redo txs rs (redo_count + 1) skipped_dup
      else redo txs rs redo_count skipped_dup
  end.

(** Called on the reversed list. *)
Fixpoint undo (txs : list Z) (rs : list WalRecord) (undo_count : Z) : rec_m Z :=
  match rs with
  | [] => mret undo_count
  | r :: rs =>
      if decide (r_op_type r = PageWrite ∧ r_tx_id r ∉ txs) then
        _ ← apply_before_image r;
        undo txs rs (undo_count + 1)
      else undo txs rs undo_count
  end.

Definition recover (records : list WalRecord) : rec_m RecoveryResult :=
  match records with
  | [] => mret (mkResult 0 0 0 0 0)
  | _ =>
      let active := active_records records in
      let txs := committed_set active in
      '(redone, skipped) ← redo txs active 0 0;
      undone ← undo txs (reverse active) 0;
      mret (mkResult redone undone (Z.of_nat (length txs)) (Z.of_nat (length active)) skipped)
  end.

(** ** Pages by record id *)

Definition page_content (pid : Z) (s : RecoveryState) : bytes := page_at (real_id pid) (select_pm pid s).

Definition page_exists (pid : Z) (s : RecoveryState) : Prop := real_id pid < num_pages (select_pm pid s).

Definition rs_wf (s : RecoveryState) : Prop := pm_sized (data_pm s) ∧ pm_sized (index_pm s).

Lemma real_id_range pid : 0 ≤ pid → 0 ≤ real_id pid.
Proof. intros. unfold real_id. apply Z.land_nonneg. lia. Qed.

(** A page id is determined by its file and its number in the file. *)
Lemma page_id_split p q :
  is_u32 p → is_u32 q → is_index p = is_index q → real_id p = real_id q → p = q.
Proof.
  intros Hp Hq Hi Hr. unfold is_u32 in *. apply Z.bits_inj'. intros k Hk.
  assert (Hflag : ∀ x, Z.testbit x 31 = is_index x).
  { intros x. unfold is_index. change INDEX_PAGE_FLAG with (2 ^ 31).
    destruct (Z.eqb_spec (Z.land x (2 ^ 31)) 0) as [E|E]; simpl.
    - apply (f_equal (λ z, Z.testbit z 31)) in E. rewrite Z.land_spec, Z.bits_0 in E.
      rewrite Z.pow2_bits_true, andb_true_r in E by lia. done.
    - destruct (Z.testbit x 31) eqn:Eb; [done|]. destruct E. apply Z.bits_inj'. intros j Hj.
      rewrite Z.land_spec, Z.bits_0, Z.pow2_bits_eqb by lia.
      destruct (Z.eqb_spec 31 j); [subst; by rewrite Eb|apply andb_false_r]. }
  assert (Hhi : ∀ x, 0 ≤ x < 4294967296 → 31 < k → Z.testbit x k = false).
  { intros x Hx Hlt. destruct (decide (x = 0)) as [->|]; [apply Z.bits_0|].
    apply Z.bits_above_log2; [lia|]. apply Z.lt_le_trans with 32; [|lia].
    apply Z.log2_lt_pow2; lia. }
  destruct (decide (k = 31)) as [->|]; [by rewrite !Hflag|].
  destruct (decide (31 < k)); [by rewrite !Hhi|].
  apply (f_equal (λ z, Z.testbit z k)) in Hr. unfold real_id in Hr.
  change 2147483647 with (Z.ones 31) in Hr. rewrite !Z.land_spec, Z.testbit_ones_nonneg in Hr by lia.
  destruct (Z.ltb_spec k 31); [|lia]. by rewrite !andb_true_r in Hr.
Qed.

Lemma write_image_ok pid d s :
  rs_wf s → is_u32 pid → length d = PAGE_SIZE →
  ∃ s', write_image pid d s = (Ok tt, s') ∧ rs_wf s' ∧ applied s' = applied s ∧
    (∀ q, page_exists q s' ↔ page_exists q s) ∧
    (∀ q, is_u32 q → page_exists q s → page_content q s' =
       if decide (q = pid) then stamp_checksum d else page_content q s).
Proof.
  intros [Hd Hi] Hp Hlen. pose proof (length_stamp d Hlen) as Hst.
  pose proof (real_id_range pid ltac:(unfold is_u32 in *; lia)) as Hr0.
  unfold write_image. rewrite st_get_bind. case_decide as Hex.
  - exists (update_pm pid (set_page (real_id pid) (stamp_checksum d) (select_pm pid s)) s).
    unfold st_zoom. rewrite write_page_run by done. split; [done|].
    assert (Hsel : pm_sized (select_pm pid s)) by (unfold select_pm; by destruct (is_index pid)).
    pose proof (set_page_sized (real_id pid) _ _ Hsel ltac:(lia) Hst) as Hsz.
    split; [|split; [|split]].
    + unfold update_pm, rs_wf. by destruct (is_index pid).
    + unfold update_pm. by destruct (is_index pid).
    + intros q. unfold page_exists, select_pm, update_pm.
      by destruct (is_index pid) eqn:E1, (is_index q) eqn:E2.
    + intros q Hq Hqe. pose proof (real_id_range q ltac:(unfold is_u32 in *; lia)) as Hq0.
      unfold page_content, page_exists in *.
      destruct (decide (is_index q = is_index pid)) as [Heq|Hne].
      * assert (Hsq : ∀ x, select_pm q (update_pm pid x s) = x).
        { intros x. unfold select_pm, update_pm. rewrite Heq. by destruct (is_index pid). }
        assert (Hss : select_pm q s = select_pm pid s) by (unfold select_pm; by rewrite Heq).
        rewrite Hsq. rewrite Hss in *. rewrite page_at_set by (done || lia).
        destruct (decide (q = pid)) as [->|Hqp]; [by rewrite decide_True|].
        rewrite decide_False; [done|]. intros Hreal. by apply Hqp, page_id_split.
      * rewrite decide_False by congruence. f_equal. unfold select_pm, update_pm.
        destruct (is_index q), (is_index pid); done.
  - exists s. split_and!; try done. intros q Hq Hqe. rewrite decide_False; [done|]. by intros ->.
Qed.

(** ** The two passes *)

(** [r] is a page write that recovery applies to page [q]. *)
Definition writes_to (q : Z) (r : WalRecord) : Prop :=
  r_op_type r = PageWrite ∧ r_page_id r = q ∧ (PAGE_SIZE * 2 ≤ length (r_data r))%nat.
#[local] Instance writes_to_dec q r : Decision (writes_to q r).
Proof. unfold writes_to. apply _. Defined.

Definition winners (txs : list Z) (q : Z) (rs : list WalRecord) : list WalRecord :=
  filter (λ r, writes_to q r ∧ r_tx_id r ∈ txs) rs.
Definition losers (txs : list Z) (q : Z) (rs : list WalRecord) : list WalRecord :=
  filter (λ r, writes_to q r ∧ r_tx_id r ∉ txs) rs.

Definition after_page (r : WalRecord) : bytes := stamp_checksum (take PAGE_SIZE (r_data r)).
Definition before_page (r : WalRecord) : bytes := stamp_checksum (slice PAGE_SIZE PAGE_SIZE (r_data r)).

(** The state after a pass that leaves [image] of the last record of [ws q] on each page. *)
Definition passed (image : WalRecord → bytes) (ws : Z → list WalRecord) (s s' : RecoveryState) : Prop :=
  rs_wf s' ∧ applied s' = applied s ∧ (∀ q, page_exists q s' ↔ page_exists q s) ∧
  ∀ q, is_u32 q → page_exists q s →
    page_content q s' = match last (ws q) with Some r => image r | None => page_content q s end.

Lemma passed_refl image ws s : rs_wf s → (∀ q, ws q = []) → passed image ws s s.
Proof. intros Hwf Hws. split_and!; [done|done|done|]. intros q _ _. by rewrite Hws. Qed.

(** One step of a pass followed by the rest of it. *)
Lemma passed_step image ws (r : WalRecord) d s s1 s2 :
  image r = stamp_checksum d →
  (∀ q, page_exists q s1 ↔ page_exists q s) → applied s1 = applied s →
  (∀ q, is_u32 q → page_exists q s → page_content q s1 =
     if decide (q = r_page_id r) then stamp_checksum d else page_content q s) →
  passed image ws s1 s2 →
  passed image (λ q, if decide (q = r_page_id r) then r :: ws q else ws q) s s2.
Proof.
  intros Him Hex Hap Hc (Hwf & Hap2 & Hex2 & Hc2). split_and!; [done|congruence| |].
  - intros q. by rewrite Hex2, Hex.
  - intros q Hq Hqe. rewrite Hc2 by (done || by apply Hex). rewrite Hc by done. case_decide as Hd.
    + rewrite last_cons. destruct (last (ws q)); [done|]. by rewrite Him.
    + done.
Qed.

Lemma passed_ext image ws ws' s s' : (∀ q, ws q = ws' q) → passed image ws s s' → passed image ws' s s'.
Proof.
  intros Hq (H1 & H2 & H3 & H4). split_and!; [done|done|done|]. intros q. rewrite <- Hq. apply H4.
Qed.

Lemma redo_ok txs rs s n k :
  rs_wf s → applied s = None → Forall (λ r, is_u32 (r_page_id r)) rs →
  ∃ s' m, redo txs rs n k s = (Ok (m, k), s') ∧ passed after_page (λ q, winners txs q rs) s s'.
Proof.
  revert s n. induction rs as [|r rs IH]; intros s n Hwf Hap Hpid.
  { exists s, n. split; [done|]. by apply passed_refl. }
  apply Forall_cons in Hpid as [Hp Hpid]. cbn [redo]. case_decide as Hsel.
  - unfold observe_applied. erewrite st_step by (cbn; rewrite Hap; reflexivity).
    unfold apply_after_image. destruct (decide (length (r_data r) < PAGE_SIZE * 2)%nat) as [Hs|Hs].
    + rewrite st_ret_bind. destruct (IH s (n + 1) Hwf Hap Hpid) as (s' & m & Hrun & Hps).
      exists s', m. split; [done|]. eapply passed_ext; [|exact Hps]. intros q. unfold winners.
      rewrite filter_cons_False; [done|]. unfold writes_to. lia.
    + destruct (write_image_ok (r_page_id r) (take PAGE_SIZE (r_data r)) s Hwf Hp) as
        (s1 & Hw & Hwf1 & Hap1 & Hex1 & Hc1); [rewrite length_take; lia|].
      erewrite st_step by exact Hw.
      destruct (IH s1 (n + 1) Hwf1 ltac:(congruence) Hpid) as (s' & m & Hrun & Hps).
      exists s', m. split; [done|].
      eapply passed_ext; [|eapply (passed_step _ _ r); [|exact Hex1|exact Hap1|exact Hc1|exact Hps]; done].
      intros q. unfold winners. cbn beta. case_decide as Hq.
      * rewrite filter_cons_True; [done|]. unfold writes_to. naive_solver lia.
      * rewrite filter_cons_False; [done|]. unfold writes_to. naive_solver.
  - destruct (IH s n Hwf Hap Hpid) as (s' & m & Hrun & Hps). exists s', m. split; [done|].
    eapply passed_ext; [|exact Hps]. intros q. unfold winners. rewrite filter_cons_False; [done|].
    unfold writes_to. tauto.
Qed.

Lemma undo_ok txs rs s n :
  rs_wf s → Forall (λ r, is_u32 (r_page_id r)) rs →
  ∃ s' m, undo txs rs n s = (Ok m, s') ∧ passed before_page (λ q, losers txs q rs) s s'.
Proof.
  revert s n. induction rs as [|r rs IH]; intros s n Hwf Hpid.
  { exists s, n. split; [done|]. by apply passed_refl. }
  apply Forall_cons in Hpid as [Hp Hpid]. cbn [undo]. case_decide as Hsel.
  - unfold apply_before_image. destruct (decide (length (r_data r) < PAGE_SIZE * 2)%nat) as [Hs|Hs].
    + rewrite st_ret_bind. destruct (IH s (n + 1) Hwf Hpid) as (s' & m & Hrun & Hps).
      exists s', m. split; [done|]. eapply passed_ext; [|exact Hps]. intros q. unfold losers.
      rewrite filter_cons_False; [done|]. unfold writes_to. lia.
    + destruct (write_image_ok (r_page_id r) (slice PAGE_SIZE PAGE_SIZE (r_data r)) s Hwf Hp) as
        (s1 & Hw & Hwf1 & Hap1 & Hex1 & Hc1); [rewrite length_slice; lia|].
      erewrite st_step by exact Hw.
      destruct (IH s1 (n + 1) Hwf1 Hpid) as (s' & m & Hrun & Hps).
      exists s', m. split; [done|].
      eapply passed_ext; [|eapply (passed_step _ _ r); [|exact Hex1|exact Hap1|exact Hc1|exact Hps]; done].
      intros q. unfold losers. cbn beta. case_decide as Hq.
      * rewrite filter_cons_True; [done|]. unfold writes_to. naive_solver lia.
      * rewrite filter_cons_False; [done|]. unfold writes_to. naive_solver.
  - destruct (IH s n Hwf Hpid) as (s' & m & Hrun & Hps). exists s', m. split; [done|].
    eapply passed_ext; [|exact Hps]. intros q. unfold losers. rewrite filter_cons_False; [done|].
    unfold writes_to. tauto.
Qed.

Lemma recover_run records s :
  records ≠ [] → rs_wf s → applied s = None → Forall (λ r, is_u32 (r_page_id r)) records →
  let active := active_records records in
  let txs := committed_set active in
  ∃ s1 s' n m, recover records s =
      (Ok (mkResult n m (Z.of_nat (length txs)) (Z.of_nat (length active)) 0), s') ∧
    passed after_page (λ q, winners txs q active) s s1 ∧
    passed before_page (λ q, losers txs q (reverse active)) s1 s'.
Proof.
  intros Hne Hwf Hap Hpid active txs.
  assert (Hact : Forall (λ r, is_u32 (r_page_id r)) active).
  { apply Forall_forall. intros r [_ Hr]%list_elem_of_filter. rewrite Forall_forall in Hpid. by apply Hpid. }
  destruct (redo_ok txs active s 0 0 Hwf Hap Hact) as (s1 & n & Hr & Hp1).
  destruct (undo_ok txs (reverse active) s1 0) as (s' & m & Hu & Hp2); [apply Hp1| |].
  { by apply Forall_reverse. }
  exists s1, s', n, m. split_and!; [|done|done]. unfold recover. destruct records as [|r rs]; [done|].
  fold active txs. erewrite st_step by exact Hr. cbn beta iota. by erewrite st_step by exact Hu.
Qed.

(** What recovery leaves on page [q]: the before-image of the earliest
    uncommitted write after the last checkpoint, or else the after-image of the
    latest committed one, or else what was there. *)
Definition recovered (records : list WalRecord) (q : Z) (old : bytes) : bytes :=
  let active := active_records records in
  let txs := committed_set active in
  match head (losers txs q active) with
  | Some r => before_page r
  | None => match last (winners txs q active) with Some r => after_page r | None => old end
  end.

Lemma recover_spec records s :
  rs_wf s → applied s = None → Forall (λ r, is_u32 (r_page_id r)) records →
  ∃ res s', recover records s = (Ok res, s') ∧ rs_wf s' ∧ applied s' = None ∧
    (∀ q, page_exists q s' ↔ page_exists q s) ∧
    ∀ q, is_u32 q → page_exists q s → page_content q s' = recovered records q (page_content q s).
Proof.
  intros Hwf Hap Hpid. destruct (decide (records = [])) as [->|Hne].
  { exists (mkResult 0 0 0 0 0), s. by split_and!. }
  destruct (recover_run records s Hne Hwf Hap Hpid) as (s1 & s' & n & m & Hrun & Hp1 & Hp2).
  destruct Hp1 as (Hwf1 & Hap1 & Hex1 & Hc1). destruct Hp2 as (Hwf2 & Hap2 & Hex2 & Hc2).
  eexists _, s'. split_and!; [exact Hrun|done|congruence| |].
  - intros q. by rewrite Hex2, Hex1.
  - intros q Hq Hqe. rewrite Hc2 by (done || by apply Hex1). rewrite Hc1 by done. unfold recovered, losers.
    rewrite filter_reverse, last_reverse. done.
Qed.

(** Recovery never fails on existing files, and leaves on every page exactly the
    before-image of its earliest uncommitted write since the last checkpoint, or else
    the after-image of its latest committed write, or else the page as it was. *)
Theorem recover_pages (records : list WalRecord) (s : RecoveryState) :
  rs_wf s → applied s = None → Forall (λ r, is_u32 (r_page_id r)) records →
  ∃ res s', recover records s = (Ok res, s') ∧ rs_wf s' ∧
    ∀ q, is_u32 q → page_exists q s → page_content q s' = recovered records q (page_content q s).
Proof.
  intros Hwf Hap Hpid. destruct (recover_spec records s Hwf Hap Hpid) as (r & s' & H1 & H2 & _ & _ & H3). eauto.
Qed.

(** ** A writer, its log and a crash

    One transaction at a time writes pages: each write logs the content of the page
    before it and after it.  Dirty pages reach the disk at any time, committed or
    not ([WFlush]); a checkpoint finds no transaction open, puts every page on disk
    and lets the log be truncated. *)
Record writer := mkWriter {
  w_log : list WalRecord;
  w_mem : Z → bytes;
  w_com : Z → bytes;
  w_disk : Z → bytes;
  w_tx : option Z;
}.

Definition writer_new (base : Z → bytes) : writer := mkWriter [] base base base None.

Definition put_page (q : Z) (d : bytes) (m : Z → bytes) : Z → bytes :=
  λ p, if decide (p = q) then d else m p.

Definition next_lsn (lsn : Z) (log : list WalRecord) : Prop :=
  0 < lsn ∧ Forall (λ r, r_lsn r < lsn) log.

(** [w_com] is the content of every page when the last transaction committed. *)
Inductive wstep (w : writer) : writer → Prop :=
  | WWrite lsn tx origin hlc vc pid before after :
      next_lsn lsn (w_log w) → is_u32 pid →
      w_tx w = Some tx ∨ w_tx w = None ∧ tx ∉ r_tx_id <$> w_log w →
      length before = PAGE_SIZE → length after = PAGE_SIZE → stamp_checksum before = w_mem w pid →
      wstep w (mkWriter (w_log w ++ [page_write lsn tx origin hlc vc pid before after])
                 (put_page pid (stamp_checksum after) (w_mem w)) (w_com w) (w_disk w) (Some tx))
  | WCommit lsn tx origin hlc vc :
      next_lsn lsn (w_log w) → w_tx w = Some tx →
      wstep w (mkWriter (w_log w ++ [commit lsn tx origin hlc vc]) (w_mem w) (w_mem w) (w_disk w) None)
  | WFlush q :
      wstep w (mkWriter (w_log w) (w_mem w) (w_com w) (put_page q (w_mem w q) (w_disk w)) (w_tx w))
  | WCheckpoint lsn origin hlc vc :
      next_lsn lsn (w_log w) → w_tx w = None →
      wstep w (mkWriter (w_log w ++ [checkpoint lsn origin hlc vc]) (w_mem w) (w_com w) (w_mem w) None)
  | WTruncate :
      active_records (w_log w) = [] →
      wstep w (mkWriter [] (w_mem w) (w_com w) (w_disk w) (w_tx w)).

(** The invariant: what the part of the log after the last checkpoint says about
    the content in memory, at the last commit and on disk. *)
Record writer_inv (w : writer) : Prop := {
  wi_pids : Forall (λ r, is_u32 (r_page_id r)) (w_log w);
  wi_owner : ∀ r, r ∈ active_records (w_log w) → r_op_type r = PageWrite →
    r_tx_id r ∈ committed_set (active_records (w_log w)) ∨ w_tx w = Some (r_tx_id r);
  wi_open : ∀ t, w_tx w = Some t → t ∉ committed_set (active_records (w_log w));
  wi_mem : ∀ q, match last (filter (writes_to q) (active_records (w_log w))) with
                | Some r => w_mem w q = after_page r | None => w_mem w q = w_disk w q end;
  wi_com : ∀ q, match head (losers (committed_set (active_records (w_log w))) q (active_records (w_log w))) with
                | Some l => w_com w q = before_page l | None => w_com w q = w_mem w q end;
}.

Lemma checkpoint_lsn_lt lsn log : next_lsn lsn log → checkpoint_lsn log < lsn.
Proof.
  intros [H0 Hf]. unfold checkpoint_lsn. induction Hf as [|r log Hr Hf IH]; [done|].
  rewrite filter_cons. case_decide; csimpl; lia.
Qed.

Lemma active_snoc r log :
  next_lsn (r_lsn r) log → r_op_type r ≠ Checkpoint → active_records (log ++ [r]) = active_records log ++ [r].
Proof.
  intros Hn Hop. pose proof (checkpoint_lsn_lt _ _ Hn) as Hlt. unfold active_records.
  assert (checkpoint_lsn (log ++ [r]) = checkpoint_lsn log) as ->.
  { unfold checkpoint_lsn. by rewrite filter_app, filter_cons_False, filter_nil, app_nil_r. }
  by rewrite filter_app, filter_cons_True, filter_nil.
Qed.

Lemma active_checkpoint r log :
  next_lsn (r_lsn r) log → r_op_type r = Checkpoint → active_records (log ++ [r]) = [].
Proof.
  intros [H0 Hf] Hop. unfold active_records.
  assert (r_lsn r ≤ checkpoint_lsn (log ++ [r])) as Hle.
  { unfold checkpoint_lsn. rewrite filter_app, filter_cons_True, filter_nil, fmap_app, foldr_app by done. csimpl.
    generalize (r_lsn <$> filter (λ r, r_op_type r = Checkpoint) log). intros l. induction l; csimpl; lia. }
  generalize dependent (checkpoint_lsn (log ++ [r])). intros c Hle.
  induction Hf as [|r' log Hr' Hf IH]; cbn [app]; rewrite filter_cons_False by lia; [done|exact IH].
Qed.

Lemma committed_snoc r rs t :
  t ∈ committed_set (rs ++ [r]) ↔ t ∈ committed_set rs ∨ r_op_type r = Commit ∧ t = r_tx_id r.
Proof.
  unfold committed_set. rewrite !elem_of_remove_dups, filter_app, fmap_app, elem_of_app, filter_cons, filter_nil.
  case_decide; csimpl; [rewrite list_elem_of_singleton|rewrite elem_of_nil]; tauto.
Qed.

Lemma losers_ext txs txs' q rs :
  (∀ r, r ∈ rs → r_tx_id r ∈ txs ↔ r_tx_id r ∈ txs') → losers txs q rs = losers txs' q rs.
Proof.
  intros H. unfold losers. induction rs as [|r rs IH]; [done|].
  specialize (IH ltac:(intros; apply H; set_solver)). specialize (H r ltac:(set_solver)).
  rewrite !filter_cons, IH. destruct (decide (r_tx_id r ∈ txs)); repeat case_decide; tauto.
Qed.

Lemma losers_none txs q rs :
  (∀ r, r ∈ rs → r_op_type r = PageWrite → r_tx_id r ∈ txs) →
  losers txs q rs = [] ∧ winners txs q rs = filter (writes_to q) rs.
Proof.
  intros H. induction rs as [|r rs IH]; [done|]. destruct IH as [IH1 IH2]; [intros; apply H; set_solver|].
  unfold losers, winners in *. rewrite !filter_cons, IH1, IH2. specialize (H r ltac:(set_solver)).
  destruct (decide (writes_to q r)) as [Hw|Hw]; [pose proof (H (proj1 Hw))|]; repeat case_decide; tauto.
Qed.

(** Without losers, every write of the page is a winner. *)
Lemma no_loser_winners txs q rs : losers txs q rs = [] → winners txs q rs = filter (writes_to q) rs.
Proof.
  induction rs as [|r rs IH]; [done|]. unfold losers, winners in *. rewrite !filter_cons. intros Hl.
  destruct (decide (writes_to q r)) as [Hw|Hw], (decide (r_tx_id r ∈ txs)) as [Ht|Ht];
    repeat case_decide; try tauto; try discriminate; [f_equal|..]; auto.
Qed.

Lemma writer_write_inv w lsn tx origin hlc vc pid before after :
  writer_inv w → next_lsn lsn (w_log w) → is_u32 pid →
  w_tx w = Some tx ∨ w_tx w = None ∧ tx ∉ r_tx_id <$> w_log w →
  length before = PAGE_SIZE → length after = PAGE_SIZE → stamp_checksum before = w_mem w pid →
  writer_inv (mkWriter (w_log w ++ [page_write lsn tx origin hlc vc pid before after])
                 (put_page pid (stamp_checksum after) (w_mem w)) (w_com w) (w_disk w) (Some tx)).
Proof.
  intros [Hpids Hown Hopen Hmem Hcom] Hlsn Hpid Htx Hb Ha Hbm.
  set (r := page_write lsn tx origin hlc vc pid before after).
  assert (Hact : active_records (w_log w ++ [r]) = active_records (w_log w) ++ [r]) by (by apply active_snoc).
  set (A := active_records (w_log w)) in *.
  assert (Hnt : tx ∉ committed_set A).
  { destruct Htx as [Htx|[_ Hf]]; [by apply Hopen|]. intros Hin. apply Hf. unfold committed_set in Hin.
    apply elem_of_remove_dups, list_elem_of_fmap in Hin as (r' & -> & [_ Hr']%list_elem_of_filter).
    apply list_elem_of_fmap. exists r'. split; [done|]. by apply list_elem_of_filter in Hr' as [_ ?]. }
  assert (Hset : ∀ t, t ∈ committed_set (A ++ [r]) ↔ t ∈ committed_set A).
  { intros t. rewrite committed_snoc. split; [intros [?|[[=] _]]; done|auto]. }
  assert (Hwr : ∀ q, writes_to q r ↔ q = pid).
  { intros q. unfold writes_to, r, page_write, seal. cbn [r_op_type r_page_id r_data].
    rewrite length_app. split; [intros (_ & ? & _); done|intros ->; split_and!; [done|done|lia]]. }
  assert (Hap : after_page r = stamp_checksum after).
  { unfold after_page, r, page_write, seal. cbn [r_data]. by rewrite take_app_length'. }
  assert (Hbp : before_page r = stamp_checksum before).
  { unfold before_page, slice, r, page_write, seal. cbn [r_data]. rewrite drop_app_length' by done. by rewrite take_ge by lia. }
  assert (Hlos : ∀ q, losers (committed_set (A ++ [r])) q (A ++ [r]) =
    losers (committed_set A) q A ++ (if decide (q = pid) then [r] else [])).
  { intros q. rewrite (losers_ext _ (committed_set A)) by (intros; apply Hset). unfold losers. rewrite filter_app. f_equal.
    rewrite filter_cons, filter_nil. change (r_tx_id r) with tx. specialize (Hwr q). repeat case_decide; tauto. }
  constructor; cbn [w_log w_mem w_com w_disk w_tx]; rewrite ?Hact.
  - apply Forall_app. split; [done|]. by apply Forall_singleton.
  - intros r' [Hr'| ->%list_elem_of_singleton]%elem_of_app Hop; [|by right]. rewrite Hset.
    destruct (Hown r' Hr' Hop) as [?|Ht]; [by left|]. right. destruct Htx as [?|[? _]]; congruence.
  - intros t [= <-]. by rewrite Hset.
  - intros q. rewrite filter_app, filter_cons, filter_nil. unfold put_page. specialize (Hwr q). specialize (Hmem q).
    destruct (decide (writes_to q r)) as [Hw|Hw].
    + rewrite last_snoc, decide_True by tauto. done.
    + rewrite app_nil_r, decide_False by tauto. done.
  - intros q. rewrite Hlos. specialize (Hcom q). unfold put_page.
    destruct (losers (committed_set A) q A) as [|l ls]; [|done]. cbn [head app] in *.
    destruct (decide (q = pid)) as [->|]; [|done]. cbn [head]. congruence.
Qed.

Lemma writer_commit_inv w lsn tx origin hlc vc :
  writer_inv w → next_lsn lsn (w_log w) → w_tx w = Some tx →
  writer_inv (mkWriter (w_log w ++ [commit lsn tx origin hlc vc]) (w_mem w) (w_mem w) (w_disk w) None).
Proof.
  intros [Hpids Hown Hopen Hmem Hcom] Hlsn Htx. set (r := commit lsn tx origin hlc vc).
  assert (Hact : active_records (w_log w ++ [r]) = active_records (w_log w) ++ [r]) by (by apply active_snoc).
  set (A := active_records (w_log w)) in *.
  assert (Hdone : ∀ r', r' ∈ A ++ [r] → r_op_type r' = PageWrite → r_tx_id r' ∈ committed_set (A ++ [r])).
  { intros r' [Hr'| ->%list_elem_of_singleton]%elem_of_app Hop; [|done]. rewrite committed_snoc.
    destruct (Hown r' Hr' Hop) as [?|Ht]; [by left|]. right. split; [done|]. change (r_tx_id r) with tx. congruence. }
  constructor; cbn [w_log w_mem w_com w_disk w_tx]; rewrite ?Hact.
  - apply Forall_app. split; [done|]. by apply Forall_singleton.
  - intros r' Hr' Hop. left. by apply Hdone.
  - done.
  - intros q. rewrite filter_app, filter_cons_False, filter_nil, app_nil_r by (intros [[=] _]). apply Hmem.
  - intros q. by rewrite (proj1 (losers_none _ q _ Hdone)).
Qed.

Lemma writer_empty_inv mem com disk tx log :
  Forall (λ r, is_u32 (r_page_id r)) log → active_records log = [] →
  (∀ q, mem q = disk q) → (∀ q, com q = mem q) → writer_inv (mkWriter log mem com disk tx).
Proof.
  intros Hp Ha Hm Hc. constructor; cbn [w_log w_mem w_com w_disk w_tx]; rewrite ?Ha; [done| | |done|done].
  - intros r Hr. by apply not_elem_of_nil in Hr.
  - intros t _. apply not_elem_of_nil.
Qed.

Lemma wstep_inv w w' : writer_inv w → wstep w w' → writer_inv w'.
Proof.
  intros Hi Hs. destruct Hs as [lsn tx origin hlc vc pid before after Hl Hp Ht Hb Ha Hm|lsn tx origin hlc vc Hl Ht|q|lsn origin hlc vc Hl Ht|Ha].
  - by apply writer_write_inv.
  - by apply writer_commit_inv.
  - destruct Hi as [Hpids Hown Hopen Hmem Hcom]. constructor; cbn [w_log w_mem w_com w_disk w_tx]; [done..| |done].
    intros p. specialize (Hmem p). unfold put_page. case_match; [done|]. case_decide; congruence.
  - pose proof Hi as [Hpids Hown Hopen Hmem Hcom]. apply writer_empty_inv; [|by apply active_checkpoint|done|].
    + apply Forall_app. split; [done|]. by apply Forall_singleton.
    + intros q. specialize (Hcom q). rewrite (proj1 (losers_none _ q _ ltac:(naive_solver congruence))) in Hcom. done.
  - destruct Hi as [Hpids Hown Hopen Hmem Hcom]. apply writer_empty_inv; [done|done| |];
      intros q; [specialize (Hmem q); by rewrite Ha in Hmem|specialize (Hcom q); by rewrite Ha in Hcom].
Qed.

Lemma writer_run_inv w w' : rtc wstep w w' → writer_inv w → writer_inv w'.
Proof. induction 1 as [|w w1 w' Hs _ IH]; [done|]. intros Hi. apply IH. by eapply wstep_inv. Qed.

Lemma writer_recovered w q : writer_inv w → recovered (w_log w) q (w_disk w q) = w_com w q.
Proof.
  intros Hi. pose proof (wi_mem _ Hi q) as Hm. pose proof (wi_com _ Hi q) as Hc. unfold recovered.
  destruct (losers _ q _) as [|l ls] eqn:El; cbn [head] in *; [|done].
  rewrite (no_loser_winners _ q _ El). rewrite Hc. case_match; done.
Qed.

(** C3: Crash recovery is atomic and durable. Whenever a writer that runs one
    transaction at a time stops, whatever of its pages had reached the disk (pages of
    the unfinished transaction too, pages of committed ones or not), recovery from the
    log leaves every page of the files with exactly its content when the last
    transaction committed: committed writes are redone, those of the unfinished
    transaction undone; running recovery again changes nothing.  This is [recover], which is
    given no applied set. *)
Theorem recover_atomic_durable (base : Z → bytes) (w : writer) (s : RecoveryState) :
  rtc wstep (writer_new base) w →
  rs_wf s → applied s = None →
  (∀ q, is_u32 q → page_exists q s → page_content q s = w_disk w q) →
  ∃ res s' res2 s2, recover (w_log w) s = (Ok res, s') ∧
    (∀ q, is_u32 q → page_exists q s → page_content q s' = w_com w q) ∧
    recover (w_log w) s' = (Ok res2, s2) ∧
    (∀ q, is_u32 q → page_exists q s → page_content q s2 = w_com w q).
Proof.
  intros Hrun Hwf Hap Hdisk.
  assert (writer_inv w) as Hi by (eapply writer_run_inv; [exact Hrun|by apply writer_empty_inv]).
  assert (Hcom : ∀ q, recovered (w_log w) q (w_com w q) = w_com w q).
  { intros q. rewrite <- (writer_recovered w q Hi). unfold recovered. by repeat case_match. }
  destruct (recover_spec (w_log w) s Hwf Hap (wi_pids _ Hi)) as (res & s' & Hr & Hwf' & Hap' & Hex & Hc).
  destruct (recover_spec (w_log w) s' Hwf' Hap' (wi_pids _ Hi)) as (res2 & s2 & Hr2 & _ & _ & _ & Hc2).
  assert (Hfirst : ∀ q, is_u32 q → page_exists q s → page_content q s' = w_com w q).
  { intros q Hq Hqe. rewrite Hc, Hdisk by done. by apply writer_recovered. }
  exists res, s', res2, s2. split_and!; [done|done|done|].
  intros q Hq Hqe. rewrite Hc2 by (done || by apply Hex). by rewrite Hfirst.
Qed.

(** When a later transaction commits on a page that an earlier, never committed
    transaction also wrote, recovery restores the earlier before-image: the
    committed write is gone. *)
Lemma undo_overwrites_commit records q old l ls w :
  let active := active_records records in
  let txs := committed_set active in
  losers txs q active = l :: ls → last (winners txs q active) = Some w →
  recovered records q old = before_page l.
Proof. intros active txs Hl Hw. unfold recovered. fold active txs. by rewrite Hl. Qed.
End recovery.

(** ** Witnesses: one committed and one unfinished write of page 1 *)

Definition demo_image (b : byte) : bytes := replicate PAGE_SIZE b.
Definition demo_log : list WalRecord :=
  let C := crc32_ieee in
  [page_write 1 1 7 1 [(7, 1)] 1 (demo_image x00) (demo_image x01); commit 2 1 7 2 [(7, 2)];
   page_write 3 2 7 3 [(7, 3)] 1 (demo_image x01) (demo_image x02)].
Definition demo_state : RecoveryState :=
  let C := crc32_ieee in
  mkRS (allocate_page (pm_new None)).2 (pm_new None) None.

Lemma demo_state_wf : rs_wf demo_state ∧ num_pages (data_pm demo_state) = 2.
Proof.
  pose proof (@pm_new_ok crc32_ieee) as ([Hinv _] & Hn & Hf).
  destruct (@allocate_extend crc32_ieee (pm_new None) Hinv Hf) as (p & Hal & Hinv1 & Hn1 & _).
  { rewrite Hn. unfold u32_max. lia. }
  assert (data_pm demo_state = p) as -> by exact (f_equal snd Hal).
  assert (rs_wf demo_state).
  { split; [replace (data_pm demo_state) with p by exact (eq_sym (f_equal snd Hal)); apply Hinv1|apply Hinv]. }
  split; [done|]. rewrite Hn1, Hn. done.
Qed.

Lemma demo_pids : Forall (λ r, is_u32 (r_page_id r)) demo_log.
Proof. repeat apply Forall_cons_2; try apply Forall_nil_2; unfold is_u32; cbn [r_page_id page_write commit seal]; lia. Qed.

Lemma recover_pages_witness :
  let C := crc32_ieee in let U := uuid_plain in
  ∃ res s', recover demo_log demo_state = (Ok res, s') ∧ rs_wf s' ∧
    ∀ q, is_u32 q → page_exists q demo_state →
      page_content q s' = recovered demo_log q (page_content q demo_state).
Proof.
  intros C U. apply (recover_pages demo_log demo_state); [apply demo_state_wf|reflexivity|apply demo_pids].
Defined.

(** The crash comes after the page of the unfinished transaction was flushed. *)
Definition demo_flushed : RecoveryState :=
  let C := crc32_ieee in
  mkRS (set_page 1 (stamp_checksum (demo_image x02)) (data_pm demo_state)) (index_pm demo_state) None.
Definition demo_base : Z → bytes :=
  let C := crc32_ieee in
  put_page 1 (stamp_checksum (demo_image x00)) (λ q, page_content q demo_flushed).
Definition demo_writer : writer :=
  let C := crc32_ieee in
  mkWriter demo_log
    (put_page 1 (stamp_checksum (demo_image x02)) (put_page 1 (stamp_checksum (demo_image x01)) demo_base))
    (put_page 1 (stamp_checksum (demo_image x01)) demo_base)
    (put_page 1 (stamp_checksum (demo_image x02)) demo_base) (Some 2).

Lemma demo_writer_run : let C := crc32_ieee in rtc wstep (writer_new demo_base) demo_writer.
Proof.
  intros C. eapply rtc_l.
  { apply (WWrite _ 1 1 7 1 [(7, 1)] 1 (demo_image x00) (demo_image x01));
      [by split; [lia|constructor]|unfold is_u32; lia|right; split; [done|apply not_elem_of_nil]|apply length_replicate..|done]. }
  eapply rtc_l.
  { apply (WCommit _ 2 1 7 2 [(7, 2)]); [split; [lia|by repeat constructor]|done]. }
  eapply rtc_l.
  { apply (WWrite _ 3 2 7 3 [(7, 3)] 1 (demo_image x01) (demo_image x02));
      [split; [lia|by repeat constructor]|unfold is_u32; lia|right; split; [done|]|apply length_replicate..|done].
    change (2 ∉ [1; 1]). set_solver. }
  eapply rtc_l; [apply (WFlush _ 1)|]. apply rtc_refl.
Qed.

Lemma set_page_same pid d pm :
  pm_sized pm → 0 ≤ pid < num_pages pm → length d = PAGE_SIZE → page_at pid (set_page pid d pm) = d.
Proof. intros. rewrite page_at_set by (done || lia). by rewrite decide_True. Qed.

Lemma demo_flushed_wf :
  let C := crc32_ieee in
  rs_wf demo_flushed ∧ page_exists 1 demo_flushed ∧
  page_content 1 demo_flushed = stamp_checksum (demo_image x02).
Proof.
  intros C. destruct demo_state_wf as [[Hd Hi] Hn].
  assert (length (stamp_checksum (demo_image x02)) = PAGE_SIZE) as Hl by (apply length_stamp, length_replicate).
  split_and!.
  - split; [|done]. apply set_page_sized; [done|lia|done].
  - unfold page_exists. change (1 < num_pages (data_pm demo_state)). lia.
  - change (page_at 1 (set_page 1 (stamp_checksum (demo_image x02)) (data_pm demo_state)) = stamp_checksum (demo_image x02)).
    apply set_page_same; [exact Hd|lia|exact Hl].
Qed.

Lemma recover_atomic_durable_witness :
  let C := crc32_ieee in let U := uuid_plain in
  page_content 1 demo_flushed = stamp_checksum (demo_image x02) ∧
  ∃ res s', recover demo_log demo_flushed = (Ok res, s') ∧
    page_content 1 s' = stamp_checksum (demo_image x01).
Proof.
  intros C U. destruct demo_flushed_wf as (Hwf & Hex & Hc). split; [exact Hc|].
  destruct (recover_atomic_durable demo_base demo_writer demo_flushed) as (res & s' & _ & _ & Hr & Hp & _).
  - exact demo_writer_run.
  - exact Hwf.
  - reflexivity.
  - intros q _ _. cbn [w_disk demo_writer]. unfold demo_base, put_page. case_decide as Hq; [|done].
    rewrite Hq. exact Hc.
  - exists res, s'. split; [exact Hr|]. rewrite Hp; [reflexivity|unfold is_u32; lia|exact Hex].
Defined.
