(* ===== verification/Crdt.v ===== *)
(** * CRDT merge (src/src/document/crdt.rs)

    [serde_json] is the class [JsonPayloads]: a printer and a parser for the three
    payload structs, the parser reading back what the printer wrote.  The
    [BTreeMap]s and [BTreeSet]s of the payloads are finite maps and sets; error
    messages carry the fixed text of their format string. *)

From stdpp Require Import gmap.
From S2P Require Import Prelude RustStd Value.

Local Open Scope Z_scope.

Abbreviation u64_map := (gmap bytes Z).
Abbreviation set_map := (gmap bytes (gset bytes)).

Record LwwSetPayload := mkLww { lww_adds : u64_map; lww_rems : u64_map }.
Record OrSetPayload := mkOr { or_adds : set_map; or_rems : set_map }.
Record MvrPayload := mkMvr { mvr_values : gset bytes }.

(** [serde_json::to_vec] and [serde_json::from_slice]. *)
Class Json (T : Type) := {
  to_json : T → bytes;
  from_json : bytes → option T;
  from_to_json : ∀ t, from_json (to_json t) = Some t;
}.
Class JsonPayloads := {
  json_lww :: Json LwwSetPayload;
  json_or :: Json OrSetPayload;
  json_mvr :: Json MvrPayload;
}.

Abbreviation cres := (outcome string).

Definition decode_u64 (b : bytes) : cres Z :=
  if decide (length b ≠ 8%nat) then Err "invalid payload length: expected 8"%string else Ok (of_le b).

Definition decode_pn (b : bytes) : cres (Z * Z) :=
  if decide (length b ≠ 16%nat) then Err "invalid PNCounter payload length: expected 16"%string
  else Ok (of_le (take 8 b), of_le (slice 8 8 b)).

(** [out.entry(k).and_modify(max).or_insert(rv)] for every entry of [right]. *)
Definition merge_max_u64_maps (left right : u64_map) : u64_map :=
  map_fold (λ k rv out, <[k := match out !! k with Some lv => Z.max lv rv | None => rv end]> out) left right.

Definition merge_set_maps (left right : set_map) : set_map :=
  map_fold (λ k rset out, <[k := match out !! k with Some lset => lset ∪ rset | None => rset end]> out) left right.

Section crdt.
Context `{J : JsonPayloads}.

Definition decode_payload {T} `{Json T} (b : bytes) : cres T := ok_or (from_json b) "invalid payload JSON"%string.
Definition encode_payload {T} `{Json T} (t : T) : cres bytes := Ok (to_json t).

Definition merge_lwwset (left right : bytes) : cres bytes :=
  l ← decode_payload (T := LwwSetPayload) left;
  r ← decode_payload (T := LwwSetPayload) right;
  encode_payload (mkLww (merge_max_u64_maps (lww_adds l) (lww_adds r))
                        (merge_max_u64_maps (lww_rems l) (lww_rems r))).

Definition merge_orset (left right : bytes) : cres bytes :=
  l ← decode_payload (T := OrSetPayload) left;
  r ← decode_payload (T := OrSetPayload) right;
  encode_payload (mkOr (merge_set_maps (or_adds l) (or_adds r)) (merge_set_maps (or_rems l) (or_rems r))).

Definition merge_mvr (left right : bytes) : cres bytes :=
  l ← decode_payload (T := MvrPayload) left;
  r ← decode_payload (T := MvrPayload) right;
  encode_payload (mkMvr (mvr_values l ∪ mvr_values r)).

Definition merge_payload (kind : CrdtKind) (left right : bytes) : cres bytes :=
  match kind with
  | GCounter =>
      l ← decode_u64 left; r ← decode_u64 right;
      Ok (to_le 8 (Z.max l r))
  | PNCounter =>
      '(lp, ln) ← decode_pn left; '(rp, rn) ← decode_pn right;
      Ok (to_le 8 (Z.max lp rp) ++ to_le 8 (Z.max ln rn))
  | LwwSet => merge_lwwset left right
  | OrSet => merge_orset left right
  | Mvr => merge_mvr left right
  end.

Definition merge_values (left right : Value) : cres Value :=
  '(left_kind, left_payload) ← ok_or (as_crdt left) "left value is not CRDT"%string;
  '(right_kind, right_payload) ← ok_or (as_crdt right) "right value is not CRDT"%string;
  if decide (left_kind ≠ right_kind) then Err "CRDT kind mismatch"%string
  else
    merged ← merge_payload left_kind left_payload right_payload;
    Ok (VCrdt left_kind merged).

(** ** State-based CRDTs *)

(** What makes a merge convergent: the states are ordered by what they know, the join is
    the least state above both, and states survive being stored. *)
Class StateCrdt (T : Type) := {
  sc_decode : bytes → option T;
  sc_encode : T → bytes;
  sc_join : T → T → T;
  sc_le : relation T;
  sc_good : T → Prop;
  sc_decode_good : ∀ b t, sc_decode b = Some t → sc_good t;
  sc_join_good : ∀ x y, sc_good x → sc_good y → sc_good (sc_join x y);
  sc_roundtrip : ∀ x, sc_good x → sc_decode (sc_encode x) = Some x;
  sc_order : PartialOrder sc_le;
  sc_above_l : ∀ x y, sc_le x (sc_join x y);
  sc_above_r : ∀ x y, sc_le y (sc_join x y);
  sc_least : ∀ x y u, sc_le x u → sc_le y u → sc_le (sc_join x y) u;
}.
#[local] Existing Instance sc_order.

(** [merge] implements the CRDT [H]. *)
Definition implements {T} (H : StateCrdt T) (merge : bytes → bytes → cres bytes) : Prop :=
  ∀ a b, match sc_decode a, sc_decode b with
    | Some x, Some y => merge a b = Ok (sc_encode (sc_join x y))
    | _, _ => ∃ e, merge a b = Err e
    end.

(** A replica that has [a] and merges the states it is sent, in the order they arrive. *)
Definition gather (merge : bytes → bytes → cres bytes) (a : bytes) (received : list bytes) : cres bytes :=
  foldl (λ acc b, acc ≫= λ a, merge a b) (Ok a) received.

(** [t] is the least state that knows what each of [xs] knows. *)
Definition least_above {T} (le : relation T) (xs : list T) (t : T) : Prop :=
  (∀ x, x ∈ xs → le x t) ∧ ∀ u, (∀ x, x ∈ xs → le x u) → le t u.

(** The laws a client of the merge relies on, for payloads read as states ordered by [le]. *)
Record merge_laws {T} (merge : bytes → bytes → cres bytes) (read : bytes → option T) (le : relation T) : Prop := {
  ml_order : PartialOrder le;
  ml_join : ∀ a b x y, read a = Some x → read b = Some y →
    ∃ ab t, merge a b = Ok ab ∧ read ab = Some t ∧ least_above le [x; y] t;
  ml_invalid : ∀ a b, read a = None ∨ read b = None → ∃ e, merge a b = Err e;
  ml_comm : ∀ a b, is_Some (read a) → is_Some (read b) → merge a b = merge b a;
  ml_assoc : ∀ a b c ab bc, merge a b = Ok ab → merge b c = Ok bc → merge ab c = merge a bc;
  ml_idem : ∀ a x, read a = Some x → ∃ aa, merge a a = Ok aa ∧ read aa = Some x;
  ml_converge : ∀ a received a' received', Forall (λ b, is_Some (read b)) (a :: received) →
    (∀ b, b ∈ a :: received ↔ b ∈ a' :: received') →
    ∃ r r' t, gather merge a received = Ok r ∧ gather merge a' received' = Ok r' ∧ read r = Some t ∧ read r' = Some t;
}.

Lemma least_above_unique {T} (le : relation T) `{!PartialOrder le} xs ys t u :
  (∀ x, x ∈ xs ↔ x ∈ ys) → least_above le xs t → least_above le ys u → t = u.
Proof.
  intros Hxy [Ht1 Ht2] [Hu1 Hu2]. apply (anti_symm le); [apply Ht2|apply Hu2]; intros x Hx; [apply Hu1|apply Ht1]; by apply Hxy.
Qed.

Section laws.
Context {T} (H : StateCrdt T) (merge : bytes → bytes → cres bytes) (Hi : implements H merge).

Lemma join_comm x y : sc_join x y = sc_join y x.
Proof. apply (anti_symm sc_le); apply sc_least; auto using sc_above_l, sc_above_r. Qed.

Lemma join_assoc x y z : sc_join (sc_join x y) z = sc_join x (sc_join y z).
Proof.
  apply (anti_symm sc_le); repeat apply sc_least; auto using sc_above_l, sc_above_r;
    (etrans; [|apply sc_above_l || apply sc_above_r]; (apply sc_above_l || apply sc_above_r)) ||
    (etrans; [|apply sc_above_r]; (apply sc_above_l || apply sc_above_r)).
Qed.

Lemma join_idem x : sc_join x x = x.
Proof. apply (anti_symm sc_le); [by apply sc_least|apply sc_above_l]. Qed.

Lemma merge_reads a b x y : sc_decode a = Some x → sc_decode b = Some y →
  merge a b = Ok (sc_encode (sc_join x y)) ∧ sc_decode (sc_encode (sc_join x y)) = Some (sc_join x y).
Proof.
  intros Ha Hb. specialize (Hi a b). rewrite Ha, Hb in Hi. split; [done|].
  apply sc_roundtrip, sc_join_good; by eapply sc_decode_good.
Qed.

Lemma merge_read_inv a b r : merge a b = Ok r → ∃ x y, sc_decode a = Some x ∧ sc_decode b = Some y ∧ sc_decode r = Some (sc_join x y).
Proof.
  intros Hr. pose proof (Hi a b) as Hab.
  destruct (sc_decode a) as [x|] eqn:Ha; [|destruct Hab; congruence].
  destruct (sc_decode b) as [y|] eqn:Hb; [|destruct Hab; congruence].
  destruct (merge_reads a b x y Ha Hb) as [Hm Hd]. exists x, y. split_and!; congruence.
Qed.

Lemma gather_reads a received x : sc_decode a = Some x → Forall (λ b, is_Some (sc_decode b)) received →
  ∃ r t, gather merge a received = Ok r ∧ sc_decode r = Some t ∧ least_above sc_le (x :: omap sc_decode received) t.
Proof.
  intros Ha Hall. revert a x Ha. induction Hall as [|b received [y Hb] _ IH]; intros a x Ha; cbn [gather foldl omap list_omap].
  - exists a, x. split_and!; [done..|split; [|set_solver]]. intros z Hz%list_elem_of_singleton. by subst z.
  - destruct (merge_reads a b x y Ha Hb) as [Hm Hd]. destruct (IH _ _ Hd) as (r & t & Hr & Ht & Habove & Hleast).
    exists r, t. cbn [mbind outcome_bind]. rewrite Hm, Hb. split_and!; [done..|]. split.
    + intros z [-> |[-> |Hz]%elem_of_cons]%elem_of_cons; [| |apply Habove; by right].
      1: etrans; [apply (sc_above_l x y)|apply Habove; by left].
      etrans; [apply (sc_above_r x y)|apply Habove; by left].
    + intros u Hu. apply Hleast. intros z [-> |Hz]%elem_of_cons; [|apply Hu; do 2 right; done].
      apply sc_least; apply Hu; [left|right; left].
Qed.

Lemma implements_laws : merge_laws merge sc_decode sc_le.
Proof.
  constructor.
  - apply _.
  - intros a b x y Ha Hb. destruct (merge_reads a b x y Ha Hb) as [Hm Hd]. do 2 eexists. split_and!; [done..|]. split.
    + intros z [-> |Hz%list_elem_of_singleton]%elem_of_cons; [|subst z]; [apply sc_above_l|apply sc_above_r].
    + intros u Hu. apply sc_least; apply Hu; set_solver.
  - intros a b Hn. specialize (Hi a b). destruct (sc_decode a), (sc_decode b), Hn; done.
  - intros a b [x Ha] [y Hb]. destruct (merge_reads a b x y Ha Hb) as [-> _], (merge_reads b a y x Hb Ha) as [-> _]. by rewrite join_comm.
  - intros a b c ab bc (x & y & Ha & Hb & Hab)%merge_read_inv (y' & z & Hb' & Hc & Hbc)%merge_read_inv. simplify_eq.
    destruct (merge_reads ab c _ _ Hab Hc) as [-> _], (merge_reads a bc _ _ Ha Hbc) as [-> _]. by rewrite join_assoc.
  - intros a x Ha. destruct (merge_reads a a x x Ha Ha) as [Hm Hd]. rewrite join_idem in Hm, Hd. eauto.
  - intros a l a' l' Hall Heq. assert (Hall' : Forall (λ b, is_Some (sc_decode b)) (a' :: l')).
    { rewrite Forall_forall in Hall |- *. intros b Hb. by apply Hall, Heq. }
    apply Forall_cons in Hall as [[x Ha] Hl], Hall' as [[x' Ha'] Hl'].
    destruct (gather_reads a l x Ha Hl) as (r & t & Hr & Ht & Habove), (gather_reads a' l' x' Ha' Hl') as (r' & t' & Hr' & Ht' & Habove').
    exists r, r', t. split_and!; [done..|]. rewrite Ht'. f_equal. symmetry. eapply (least_above_unique sc_le); [|exact Habove|exact Habove'].
    assert (Hcons : ∀ (b : bytes) (z : T) m, sc_decode b = Some z → z :: omap sc_decode m = omap sc_decode (b :: m)).
    { intros b z m Hb. cbn [omap list_omap]. by rewrite Hb. }
    intros z. rewrite (Hcons a x l Ha), (Hcons a' x' l' Ha'), !list_elem_of_omap. by setoid_rewrite Heq.
Qed.
End laws.

(** ** The five kinds *)

Lemma merge_max_lookup l r k :
  merge_max_u64_maps l r !! k = union_with (λ x y, Some (Z.max x y)) (l !! k) (r !! k).
Proof.
  unfold merge_max_u64_maps. revert k. eapply (map_fold_weak_ind
    (λ out m, ∀ k, out !! k = union_with (λ x y, Some (Z.max x y)) (l !! k) (m !! k))).
  - intros k. rewrite lookup_empty. by destruct (l !! k).
  - intros i x m out Hi IH k. destruct (decide (k = i)) as [->|Hne].
    + rewrite !lookup_insert_eq, IH, Hi. by destruct (l !! i).
    + by rewrite !lookup_insert_ne.
Qed.

Lemma merge_set_lookup l r k :
  merge_set_maps l r !! k = union_with (λ x y, Some (x ∪ y)) (l !! k) (r !! k).
Proof.
  unfold merge_set_maps. revert k. eapply (map_fold_weak_ind
    (λ out m, ∀ k, out !! k = union_with (λ x y, Some (x ∪ y)) (l !! k) (m !! k))).
  - intros k. rewrite lookup_empty. by destruct (l !! k).
  - intros i x m out Hi IH k. destruct (decide (k = i)) as [->|Hne].
    + rewrite !lookup_insert_eq, IH, Hi. by destruct (l !! i).
    + by rewrite !lookup_insert_ne.
Qed.

Ltac map_law lookup_lemma :=
  apply map_eq; intros k; rewrite ?lookup_lemma;
  repeat match goal with |- context [?m !! k] => is_var m; destruct (m !! k) end;
  simpl; try done; f_equal; (lia || set_solver).

(** *** What a payload says *)

(** The state of a payload of each kind. *)
Definition crdt_state (kind : CrdtKind) : Type :=
  match kind with GCounter => Z | PNCounter => Z * Z | LwwSet => LwwSetPayload | OrSet => OrSetPayload | Mvr => MvrPayload end.

Definition read_state (kind : CrdtKind) : bytes → option (crdt_state kind) :=
  match kind with
  | GCounter => λ b, if decide (length b = 8%nat) then Some (of_le b) else None
  | PNCounter => λ b, if decide (length b = 16%nat) then Some (of_le (take 8 b), of_le (drop 8 b)) else None
  | LwwSet => from_json | OrSet => from_json | Mvr => from_json
  end.

(** One state knows at least what another does: counters are not smaller, timestamps are
    not older, tags and values are not fewer. *)
Definition map_below {A} (le : relation A) (m m' : gmap bytes A) : Prop := ∀ k x, m !! k = Some x → ∃ y, m' !! k = Some y ∧ le x y.

Definition below (kind : CrdtKind) : relation (crdt_state kind) :=
  match kind with
  | GCounter => Z.le
  | PNCounter => λ x y, x.1 ≤ y.1 ∧ x.2 ≤ y.2
  | LwwSet => λ x y, map_below Z.le (lww_adds x) (lww_adds y) ∧ map_below Z.le (lww_rems x) (lww_rems y)
  | OrSet => λ x y, map_below (⊆) (or_adds x) (or_adds y) ∧ map_below (⊆) (or_rems x) (or_rems y)
  | Mvr => λ x y, mvr_values x ⊆ mvr_values y
  end.

#[local] Instance map_below_order {A} (le : relation A) : PartialOrder le → PartialOrder (map_below le).
Proof.
  intros Hle. split; [split|].
  - intros m k x Hx. by exists x.
  - intros m1 m2 m3 H12 H23 k x Hx. destruct (H12 k x Hx) as (y & Hy & Hxy), (H23 k y Hy) as (z & Hz & Hyz).
    exists z. split; [done|]. by trans y.
  - intros m1 m2 H12 H21. apply map_eq. intros k. destruct (m1 !! k) as [x|] eqn:Hx.
    + destruct (H12 k x Hx) as (y & Hy & Hxy), (H21 k y Hy) as (x' & Hx' & Hyx). rewrite Hy. f_equal. simplify_eq. by apply (anti_symm le).
    + destruct (m2 !! k) as [y|] eqn:Hy; [|done]. destruct (H21 k y Hy) as (x & Hx' & _). congruence.
Qed.

(** A merge that keeps the join of the two entries of a key is the join of the maps. *)
Lemma map_below_join {A} (le : relation A) (join : A → A → A) (merge : gmap bytes A → gmap bytes A → gmap bytes A) `{!PartialOrder le} :
  (∀ x y, le x (join x y)) → (∀ x y, le y (join x y)) → (∀ x y u, le x u → le y u → le (join x y) u) →
  (∀ l r k, merge l r !! k = union_with (λ x y, Some (join x y)) (l !! k) (r !! k)) →
  ∀ l r, map_below le l (merge l r) ∧ map_below le r (merge l r) ∧ ∀ u, map_below le l u → map_below le r u → map_below le (merge l r) u.
Proof.
  intros Hl Hr Hlub Hm l r. split_and!.
  - intros k x Hx. rewrite Hm, Hx. destruct (r !! k) as [y|]; [by exists (join x y)|by exists x].
  - intros k y Hy. rewrite Hm, Hy. destruct (l !! k) as [x|]; [by exists (join x y)|by exists y].
  - intros u Hlu Hru k x. rewrite Hm. destruct (l !! k) as [a|] eqn:Ha, (r !! k) as [b|] eqn:Hb; simpl; intros [= <-]; [|by apply Hlu|by apply Hru].
    destruct (Hlu k a Ha) as (y & Hy & ?), (Hru k b Hb) as (y' & Hy' & ?). simplify_eq. eauto.
Qed.

Lemma max_maps_join l r :
  map_below Z.le l (merge_max_u64_maps l r) ∧ map_below Z.le r (merge_max_u64_maps l r) ∧
  ∀ u, map_below Z.le l u → map_below Z.le r u → map_below Z.le (merge_max_u64_maps l r) u.
Proof. revert l r. apply (map_below_join Z.le Z.max merge_max_u64_maps); [intros; lia..|apply merge_max_lookup]. Qed.

Lemma set_maps_join l r :
  map_below (⊆) l (merge_set_maps l r) ∧ map_below (⊆) r (merge_set_maps l r) ∧
  ∀ u, map_below (⊆) l u → map_below (⊆) r u → map_below (⊆) (merge_set_maps l r) u.
Proof. revert l r. apply (map_below_join (⊆) (∪) merge_set_maps); [set_solver..|apply merge_set_lookup]. Qed.

(** *** The instances *)

#[local] Instance below_order kind : PartialOrder (below kind).
Proof.
  destruct kind; cbn [below crdt_state].
  - apply _.
  - split; [split|]; repeat intros []; try intros ?; cbn in *; first [lia|f_equal; lia].
  - split; [split|].
    + by intros [].
    + intros [] [] []; cbn. intros [] []. split; by etrans.
    + intros [] []; cbn. intros [] []. f_equal; by apply (anti_symm (map_below Z.le)).
  - split; [split|].
    + by intros [].
    + intros [] [] []; cbn. intros [] []. split; by etrans.
    + intros [] []; cbn. intros [] []. f_equal; by apply (anti_symm (map_below (⊆))).
  - split; [split|].
    + by intros [].
    + intros [] [] []; cbn. set_solver.
    + intros [] []; cbn. intros. f_equal. set_solver.
Qed.

Program Definition gcounter_crdt : StateCrdt (crdt_state GCounter) := {|
  sc_decode := read_state GCounter; sc_encode x := to_le 8 x; sc_join := Z.max; sc_le := below GCounter; sc_good := is_u64;
|}.
Next Obligation. intros b t. simpl. case_decide as Hl; [|done]. intros [= <-]. pose proof (of_le_range b) as Hr. rewrite Hl in Hr. exact Hr. Qed.
Next Obligation. simpl. unfold is_u64. lia. Qed.
Next Obligation. intros x Hx. cbv beta. unfold read_state. rewrite decide_True by (by rewrite length_to_le). by rewrite of_to_le_small. Qed.
Next Obligation. simpl. lia. Qed.
Next Obligation. simpl. lia. Qed.
Next Obligation. simpl. lia. Qed.

Program Definition pncounter_crdt : StateCrdt (crdt_state PNCounter) := {|
  sc_decode := read_state PNCounter; sc_encode (x : Z * Z) := to_le 8 x.1 ++ to_le 8 x.2;
  sc_join (x y : Z * Z) := (Z.max x.1 y.1, Z.max x.2 y.2); sc_le := below PNCounter; sc_good (x : Z * Z) := is_u64 x.1 ∧ is_u64 x.2;
|}.
Next Obligation.
  intros b t. simpl. case_decide as Hl; [|done]. intros [= <-]. cbn [fst snd].
  pose proof (of_le_range (take 8 b)) as Hr1. pose proof (of_le_range (drop 8 b)) as Hr2.
  rewrite length_take, Hl in Hr1. rewrite length_drop, Hl in Hr2. split; [exact Hr1|exact Hr2].
Qed.
Next Obligation. simpl. unfold is_u64. intros [] []. simpl. lia. Qed.
Next Obligation.
  intros [x y] [Hx Hy]. cbn [fst snd] in *. unfold read_state. rewrite decide_True by (by rewrite length_app, !length_to_le).
  rewrite take_app_length', drop_app_length' by (by rewrite length_to_le). by rewrite !of_to_le_small.
Qed.
Next Obligation. intros [] []. simpl. lia. Qed.
Next Obligation. intros [] []. simpl. lia. Qed.
Next Obligation. intros [] [] []. simpl. lia. Qed.

Program Definition lww_crdt : StateCrdt (crdt_state LwwSet) := {|
  sc_decode := read_state LwwSet; sc_encode (x : LwwSetPayload) := to_json x;
  sc_join x y := mkLww (merge_max_u64_maps (lww_adds x) (lww_adds y)) (merge_max_u64_maps (lww_rems x) (lww_rems y));
  sc_le := below LwwSet; sc_good _ := True;
|}.
Next Obligation. done. Qed.
Next Obligation. done. Qed.
Next Obligation. intros x _. apply (from_to_json (T := LwwSetPayload)). Qed.
Next Obligation. intros x y. split; apply max_maps_join. Qed.
Next Obligation. intros x y. split; apply max_maps_join. Qed.
Next Obligation. intros x y u [] []. split; by apply max_maps_join. Qed.

Program Definition or_crdt : StateCrdt (crdt_state OrSet) := {|
  sc_decode := read_state OrSet; sc_encode (x : OrSetPayload) := to_json x;
  sc_join x y := mkOr (merge_set_maps (or_adds x) (or_adds y)) (merge_set_maps (or_rems x) (or_rems y));
  sc_le := below OrSet; sc_good _ := True;
|}.
Next Obligation. done. Qed.
Next Obligation. done. Qed.
Next Obligation. intros x _. apply (from_to_json (T := OrSetPayload)). Qed.
Next Obligation. intros x y. split; apply set_maps_join. Qed.
Next Obligation. intros x y. split; apply set_maps_join. Qed.
Next Obligation. intros x y u [] []. split; by apply set_maps_join. Qed.

Program Definition mvr_crdt : StateCrdt (crdt_state Mvr) := {|
  sc_decode := read_state Mvr; sc_encode (x : MvrPayload) := to_json x;
  sc_join x y := mkMvr (mvr_values x ∪ mvr_values y); sc_le := below Mvr; sc_good _ := True;
|}.
Next Obligation. done. Qed.
Next Obligation. done. Qed.
Next Obligation. intros x _. apply (from_to_json (T := MvrPayload)). Qed.
Next Obligation. simpl. set_solver. Qed.
Next Obligation. simpl. set_solver. Qed.
Next Obligation. simpl. set_solver. Qed.

Lemma merge_no_panic kind a b : merge_payload kind a b ≠ Panic.
Proof.
  destruct kind; simpl; unfold decode_u64, decode_pn, merge_lwwset, merge_orset, merge_mvr, decode_payload;
    try (destruct (from_json a), (from_json b)); repeat case_decide; done.
Qed.

(** ** Theorems *)

(** C13: For every CRDT kind, merging two payloads gives the payload of the least state
    that knows what both know: nothing of either is lost (no count gets smaller, no
    timestamp older, no tag or value disappears) and nothing is made up.  Merge is
    commutative and associative on the bytes and gives a state back when merged with
    itself, so replicas that have been sent the same payloads, in any order and any number
    of times, hold the same state.  A payload that does not decode is an error. *)
Theorem crdt_merge_converges (kind : CrdtKind) :
  merge_laws (merge_payload kind) (read_state kind) (below kind).
Proof.
  destruct kind.
  - apply (implements_laws gcounter_crdt). intros a b. simpl. unfold decode_u64. repeat case_decide; simpl; naive_solver.
  - apply (implements_laws pncounter_crdt). intros a b. simpl. unfold decode_pn. repeat case_decide; simpl; try naive_solver.
    unfold slice. by rewrite !(take_ge (drop 8 _)) by (rewrite length_drop; lia).
  - apply (implements_laws lww_crdt). intros a b. simpl. unfold merge_lwwset, decode_payload.
    destruct (from_json a), (from_json b); simpl; eauto.
  - apply (implements_laws or_crdt). intros a b. simpl. unfold merge_orset, decode_payload.
    destruct (from_json a), (from_json b); simpl; eauto.
  - apply (implements_laws mvr_crdt). intros a b. simpl. unfold merge_mvr, decode_payload.
    destruct (from_json a), (from_json b); simpl; eauto.
Qed.

(** Two replicas of one counter that each counted an event keep only one of them:
    the payload is a single number merged by [max]. *)
Lemma gcounter_concurrent_increments n :
  is_u64 (n + 1) → merge_payload GCounter (to_le 8 (n + 1)) (to_le 8 (n + 1)) = Ok (to_le 8 (n + 1)).
Proof.
  intros Hn. unfold merge_payload, decode_u64.
  rewrite !decide_False by (rewrite length_to_le; auto). cbn [mbind outcome_bind].
  by rewrite Z.max_id, of_to_le_small.
Qed.
End crdt.

(** ** A concrete text form of the payloads *)

Fixpoint pos_bytes (p : positive) : bytes :=
  match p with xH => [] | xO p => x00 :: pos_bytes p | xI p => x01 :: pos_bytes p end.
Fixpoint bytes_pos (b : bytes) : positive :=
  match b with [] => xH | x00 :: b => xO (bytes_pos b) | _ :: b => xI (bytes_pos b) end.

Lemma bytes_pos_bytes p : bytes_pos (pos_bytes p) = p.
Proof. induction p; simpl; congruence. Qed.

Definition json_via {T A} `{Countable A} (f : T → A) (g : A → T) (Hgf : ∀ t, g (f t) = t) : Json T.
Proof.
  refine {| to_json := λ t, pos_bytes (encode (f t)); from_json := λ b, g <$> decode (bytes_pos b) |}.
  intros t. rewrite bytes_pos_bytes, decode_encode. simpl. by rewrite Hgf.
Defined.

Definition plain_json : JsonPayloads.
Proof.
  constructor.
  - refine (json_via (λ p, (lww_adds p, lww_rems p)) (λ a, mkLww a.1 a.2) _). by intros [].
  - refine (json_via (λ p, (or_adds p, or_rems p)) (λ a, mkOr a.1 a.2) _). by intros [].
  - refine (json_via mvr_values mkMvr _). by intros [].
Defined.

Lemma crdt_merge_converges_witness :
  let J := plain_json in
  let a := to_le 8 5 ++ to_le 8 1 in
  let b := to_le 8 3 ++ to_le 8 4 in
  gather (merge_payload PNCounter) a [b] = Ok (to_le 8 5 ++ to_le 8 4) ∧
  ∃ r r' t, gather (merge_payload PNCounter) a [b; b] = Ok r ∧ gather (merge_payload PNCounter) b [a] = Ok r' ∧
    read_state PNCounter r = Some t ∧ read_state PNCounter r' = Some t.
Proof.
  intros J a b. split; [reflexivity|]. apply (ml_converge _ _ _ (crdt_merge_converges PNCounter)).
  - by repeat constructor; eexists.
  - intros c. set_solver.
Defined.
