(* ===== verification/Ring.v ===== *)
(** * The consistent-hash ring (src/grumpydb-ring/src/ring.rs, hash.rs)

    Node ids are any ordered type with a text form ([display]).  The Murmur3 crate
    is the class [RingHash]: a function from bytes to [u64] positions. *)

From stdpp Require Import pretty.
From S2P Require Import Prelude RustStd.

Local Open Scope Z_scope.

(** ** Routing keys *)

Record RoutingKey := mkKey { database : bytes; collection : bytes; key_bytes : bytes }.

Definition canonical_bytes (k : RoutingKey) : bytes :=
  database k ++ [x00] ++ collection k ++ [x00] ++ key_bytes k.

(** [murmur3_x64_128(..) as u64] *)
Class RingHash := {
  murmur3_hash : bytes → Z;
  murmur3_u64 : ∀ b, is_u64 (murmur3_hash b);
}.

(** [Display] of a node id. *)
Class NodeDisplay (K : Type) := display : K → bytes.

Record Ring (K : Type) := mkRing {
  vnodes_per_node : nat;
  vnodes : list (Z * K);
  physical_nodes : list K;
}.
Arguments mkRing {K} _ _ _.
Arguments vnodes_per_node {K} _.
Arguments vnodes {K} _.
Arguments physical_nodes {K} _.

Record KeyRange := mkRange {
  start_inclusive : Z;
  end_exclusive : Z;
  from : option bytes;
  to : bytes;
}.

Section ring.
Context {K : Type} `{Ord K} `{NodeDisplay K} `{RingHash}.

Definition ring_new (vnodes_per_node : nat) : Ring K := mkRing vnodes_per_node [] [].

(** [format!("{node}#{i}")] *)
Definition vnode_tag (node : K) (i : nat) : bytes :=
  display node ++ str "#" ++ str (pretty (N.of_nat i)).

Definition compute_vnodes_for (per_node : nat) (node : K) : list (Z * K) :=
  (λ i, (murmur3_hash (vnode_tag node i), node)) <$> seq 0 per_node.

(** [probe.0.cmp(&vn.0).then_with(|| probe.1.cmp(&vn.1))] *)
Definition vnode_cmp (probe vn : Z * K) : comparison :=
  match Z.compare probe.1 vn.1 with Eq => cmp probe.2 vn.2 | c => c end.

Definition insert_vnode (vs : list (Z * K)) (vn : Z * K) : list (Z * K) :=
  vec_insert (unwrap_or_else_id (binary_search_by (λ probe, vnode_cmp probe vn) vs)) vn vs.

Definition pos_cmp (pos : Z) (vn : Z * K) : comparison := Z.compare vn.1 pos.

(** The closure [owners_at] of [diff_owners]. *)
Definition owners_at (snap : list (Z * K)) (pos : Z) : option K :=
  match snap with
  | [] => None
  | first :: _ =>
      match binary_search_by (pos_cmp pos) snap with
      | inl idx => snd <$> snap !! idx
      | inr idx => if decide (idx = length snap) then Some first.2 else snd <$> snap !! idx
      end
  end.

(** Appends a range, merging it with the last one when adjacent and alike. *)
Definition push_range (out : list KeyRange) (r : KeyRange) : list KeyRange :=
  match last out with
  | Some l =>
      if decide (end_exclusive l = start_inclusive r ∧ from l = from r ∧ to l = to r) then
        removelast out ++ [mkRange (start_inclusive l) (end_exclusive r) (from l) (to l)]
      else out ++ [r]
  | None => out ++ [r]
  end.

Fixpoint sweep (before after : list (Z * K)) (bounds : list Z) (out : list KeyRange) : list KeyRange :=
  match bounds with
  | s :: (e :: _) as rest =>
      if decide (s = e) then sweep before after rest out
      else
        let b := owners_at before s in
        let a := owners_at after s in
        match a with
        | Some to =>
            if decide (b ≠ a) then
              sweep before after rest (push_range out (mkRange s e (display <$> b) (display to)))
            else sweep before after rest out
        | None => sweep before after rest out
        end
  | _ => out
  end.

Definition diff_owners (before after : list (Z * K)) : list KeyRange :=
  match before, after with
  | [], [] => []
  | [], (_, owner) :: _ => [mkRange 0 u64_max None (display owner)]
  | _, [] => []
  | _, _ =>
      let boundaries := foldl (λ s p, bt_insert p tt s) [] (before.*1 ++ after.*1) in
      let boundaries := bt_insert u64_max tt (bt_insert 0 tt boundaries) in
      sweep before after boundaries.*1 []
  end.

Definition add_node (node : K) (r : Ring K) : list KeyRange * Ring K :=
  if decide (node ∈ physical_nodes r) then ([], r)
  else
    let before := vnodes r in
    let vs := foldl insert_vnode (vnodes r) (compute_vnodes_for (vnodes_per_node r) node) in
    let pos := unwrap_or_else_id (binary_search_by (λ n, cmp n node) (physical_nodes r)) in
    (diff_owners before vs, mkRing (vnodes_per_node r) vs (vec_insert pos node (physical_nodes r))).

Definition remove_node (node : K) (r : Ring K) : list KeyRange * Ring K :=
  if decide (node ∉ physical_nodes r) then ([], r)
  else
    let vs := filter (λ vn, vn.2 ≠ node) (vnodes r) in
    (diff_owners (vnodes r) vs,
     mkRing (vnodes_per_node r) vs (filter (λ n, n ≠ node) (physical_nodes r))).

(** The loop of [preference_list]; [seen] holds the elements of [out]. *)
Fixpoint walk (vs : list (Z * K)) (start n : nat) (steps : list nat) (out : list K) : list K :=
  match steps with
  | [] => out
  | step :: steps =>
      match vs !! ((start + step) `mod` length vs)%nat with
      | None => out
      | Some (_, owner) =>
          if decide (owner ∈ out) then walk vs start n steps out
          else
            let out := out ++ [owner] in
            if decide (length out = n) then out else walk vs start n steps out
      end
  end.

(** [preference_list] from the position of the key. *)
Definition preference_at (r : Ring K) (pos : Z) (n : nat) : list K :=
  if decide (physical_nodes r = [] ∨ n = 0%nat) then []
  else
    let n := (n `min` length (physical_nodes r))%nat in
    let start := unwrap_or_else_id (binary_search_by (pos_cmp pos) (vnodes r)) in
    walk (vnodes r) start n (seq 0 (length (vnodes r))) [].

Definition preference_list (r : Ring K) (key : RoutingKey) (n : nat) : list K :=
  preference_at r (murmur3_hash (canonical_bytes key)) n.

Definition owns (r : Ring K) (node : K) (key : RoutingKey) (n : nat) : bool :=
  bool_decide (node ∈ preference_list r key n).

(** ** The walk as distinct owners clockwise *)

(** First occurrences, in order, of the elements not in [seen]. *)
Fixpoint distinct (seen l : list K) : list K :=
  match l with
  | [] => []
  | x :: l => if decide (x ∈ seen) then distinct seen l else x :: distinct (seen ++ [x]) l
  end.

(** The owners met going once around from [start]. *)
Definition clockwise (vs : list (Z * K)) (start : nat) : list K := (drop start vs ++ take start vs).*2.

Lemma distinct_spec seen l :
  NoDup (distinct seen l) ∧ (∀ x, x ∈ distinct seen l ↔ x ∈ l ∧ x ∉ seen).
Proof.
  revert seen. induction l as [|y l IH]; intros seen; cbn [distinct].
  { split; [constructor|]. intros x. rewrite elem_of_nil. set_solver. }
  case_decide as Hy.
  - destruct (IH seen) as [Hnd Hin]. split; [done|]. intros x. rewrite Hin, elem_of_cons. naive_solver.
  - destruct (IH (seen ++ [y])) as [Hnd Hin]. split.
    + constructor; [|done]. rewrite Hin. set_solver.
    + intros x. rewrite !elem_of_cons, Hin, elem_of_app, list_elem_of_singleton.
      destruct (decide (x = y)) as [->|]; naive_solver.
Qed.

Lemma lookup_rotate (vs : list (Z * K)) start step :
  (start ≤ length vs)%nat → (step < length vs)%nat →
  vs !! ((start + step) `mod` length vs)%nat = (drop start vs ++ take start vs) !! step.
Proof.
  intros Hs Ht. destruct (decide (start + step < length vs)%nat).
  - rewrite Nat.mod_small by lia. rewrite lookup_app_l by (rewrite length_drop; lia).
    by rewrite lookup_drop.
  - rewrite lookup_app_r by (rewrite length_drop; lia). rewrite length_drop.
    replace ((start + step) `mod` length vs)%nat with (start + step - length vs)%nat.
    + rewrite lookup_take, decide_True by lia. f_equal. lia.
    + apply Nat.mod_unique with 1%nat; lia.
Qed.

Lemma walk_spec vs start n k out :
  (start ≤ length vs)%nat → (k ≤ length vs)%nat → (length out < n)%nat →
  walk vs start n (seq k (length vs - k)) out =
    take n (out ++ distinct out (drop k (clockwise vs start))).
Proof.
  intros Hs. remember (length vs - k)%nat as m eqn:Hm. revert k out Hm.
  induction m as [|m IH]; intros k out Hm Hk Hout; cbn [seq walk].
  { rewrite drop_ge; [simpl; rewrite app_nil_r, take_ge by lia; done|].
    unfold clockwise. rewrite length_fmap, length_app, length_drop, length_take. lia. }
  assert (∃ vn, (drop start vs ++ take start vs) !! k = Some vn) as [vn Hvn].
  { apply lookup_lt_is_Some_2. rewrite length_app, length_drop, length_take. lia. }
  rewrite lookup_rotate, Hvn by lia. destruct vn as [p owner].
  assert (Hdrop : drop k (clockwise vs start) = owner :: drop (S k) (clockwise vs start)).
  { apply drop_S. unfold clockwise. by rewrite list_lookup_fmap, Hvn. }
  rewrite Hdrop. cbn [distinct]. case_decide as Hin.
  - apply IH; lia.
  - change (owner :: distinct (out ++ [owner]) (drop (S k) (clockwise vs start)))
      with ([owner] ++ distinct (out ++ [owner]) (drop (S k) (clockwise vs start))).
    rewrite app_assoc. case_decide as Hn.
    + rewrite take_app_le by lia. rewrite take_ge by lia. done.
    + apply IH; [lia|lia|]. rewrite length_app in *. simpl in *. lia.
Qed.

(** ** The order of vnodes *)

#[export] Instance vnode_ord : Ord (Z * K).
Proof.
  refine {| cmp := vnode_cmp |}; unfold vnode_cmp.
  - intros [p x]. simpl. by rewrite Z.compare_refl, cmp_refl.
  - intros [p x] [q y]. simpl. destruct (Z.compare_spec p q); try done. intros Hc.
    apply cmp_eq in Hc. congruence.
  - intros [p x] [q y]. simpl. rewrite (Z.compare_antisym p q).
    destruct (p ?= q); simpl; try done. apply cmp_antisym.
  - intros [p x] [q y] [t z]. simpl.
    destruct (Z.compare_spec p q), (Z.compare_spec q t), (Z.compare_spec p t); try done; try lia.
    apply cmp_trans.
Defined.

(** ** The ring invariant *)

Record ring_wf (r : Ring K) : Prop := {
  rg_sorted : StronglySorted kle (vnodes r);
  rg_physical : StronglySorted kle (physical_nodes r);
  rg_nodup : NoDup (physical_nodes r);
  rg_cover : ∀ x, x ∈ physical_nodes r ↔ x ∈ (vnodes r).*2;
}.

Definition added (r : Ring K) (node : K) : list (Z * K) :=
  foldl insert_vnode (vnodes r) (compute_vnodes_for (vnodes_per_node r) node).

Lemma foldl_insert_vnode vs new :
  StronglySorted kle vs →
  StronglySorted kle (foldl insert_vnode vs new) ∧
  (∀ vn, vn ∈ foldl insert_vnode vs new ↔ vn ∈ vs ∨ vn ∈ new).
Proof.
  revert vs. induction new as [|x new IH]; intros vs Hs; cbn [foldl]; [set_solver|].
  destruct (IH (insert_vnode vs x)) as [Hs' Hin]; [exact (vec_insert_sorted x vs Hs)|].
  split; [done|]. intros vn. rewrite Hin. unfold insert_vnode.
  rewrite elem_of_vec_insert, elem_of_cons. tauto.
Qed.

Lemma elem_compute n node vn : vn ∈ compute_vnodes_for n node → vn.2 = node.
Proof. unfold compute_vnodes_for. intros (i & -> & _)%list_elem_of_fmap. done. Qed.

Lemma add_node_wf r node : ring_wf r → (0 < vnodes_per_node r)%nat → ring_wf (add_node node r).2.
Proof.
  intros [Hw1 Hw2 Hw3 Hw4] Hpos. unfold add_node. case_decide as Hin; [done|]. cbn [snd].
  destruct (foldl_insert_vnode (vnodes r) (compute_vnodes_for (vnodes_per_node r) node) Hw1) as [Hs Hel].
  constructor; cbn [vnodes physical_nodes].
  - done.
  - by apply (vec_insert_sorted node).
  - unfold vec_insert. rewrite <- (take_drop (unwrap_or_else_id
      (binary_search_by (λ n, cmp n node) (physical_nodes r))) (physical_nodes r)) in Hin, Hw3.
    set (i := unwrap_or_else_id _) in *.
    apply NoDup_app in Hw3 as (Ht & Hdis & Hd). rewrite elem_of_app in Hin. apply NoDup_app.
    split; [done|]. split; [|constructor; [tauto|done]].
    intros x Hx [->|Hx']%elem_of_cons; [tauto|by apply (Hdis x)].
  - intros x. rewrite elem_of_vec_insert, Hw4. rewrite !list_elem_of_fmap. split.
    + intros [->|(vn & -> & Hvn)].
      * exists (murmur3_hash (vnode_tag node 0), node). split; [done|]. apply Hel. right.
        unfold compute_vnodes_for. apply list_elem_of_fmap. exists 0%nat. split; [done|].
        apply elem_of_seq. lia.
      * exists vn. split; [done|]. apply Hel. by left.
    + intros (vn & -> & Hvn). apply Hel in Hvn as [Hvn|Hvn]; [right; eauto|left].
      by apply elem_compute in Hvn.
Qed.

Lemma remove_node_wf r node : ring_wf r → ring_wf (remove_node node r).2.
Proof.
  intros [Hw1 Hw2 Hw3 Hw4]. unfold remove_node. case_decide as Hin; [done|]. cbn [snd].
  constructor; cbn [vnodes physical_nodes]; [by apply StronglySorted_filter|by apply StronglySorted_filter|
    by apply NoDup_filter|].
  intros x. rewrite list_elem_of_filter, Hw4, !list_elem_of_fmap. split.
  - intros [Hne (vn & -> & Hvn)]. exists vn. split; [done|]. by apply list_elem_of_filter.
  - intros (vn & -> & [Hne Hvn]%list_elem_of_filter). eauto.
Qed.

(** ** Where the walk starts *)

Lemma filter_all {A} (P : A → Prop) `{∀ x, Decision (P x)} (l : list A) :
  (∀ x, x ∈ l → P x) → filter P l = l.
Proof.
  induction l as [|x l IH]; intros Hall; [done|].
  rewrite filter_cons_True by (apply Hall; left). f_equal. apply IH. intros y Hy. apply Hall. by right.
Qed.

(** The index [preference_list] bisects for. *)
Definition start_of (vs : list (Z * K)) (pos : Z) : nat :=
  unwrap_or_else_id (binary_search_by (pos_cmp pos) vs).

Lemma sorted_pos vs i j (a b : Z * K) :
  StronglySorted kle vs → (i < j)%nat → vs !! i = Some a → vs !! j = Some b → a.1 ≤ b.1.
Proof.
  intros Hs Hij Ha Hb. pose proof (sorted_kle vs i j a b Hs Hij Ha Hb) as Hab.
  unfold kle in Hab. cbn [cmp vnode_ord] in Hab. unfold vnode_cmp in Hab.
  destruct (Z.compare_spec a.1 b.1); [lia|lia|done].
Qed.

Lemma start_of_le vs pos : StronglySorted kle vs → (start_of vs pos ≤ length vs)%nat.
Proof.
  intros Hs. unfold start_of. destruct (binary_search_by _ vs) as [p|p] eqn:E; simpl.
  - apply binary_search_by_found in E as (y & Hy & _). apply lookup_lt_Some in Hy. lia.
  - apply binary_search_by_absent in E as (Hp & _); [done|].
    intros i j a b Hij Ha Hb. pose proof (sorted_pos vs i j a b Hs Hij Ha Hb).
    unfold pos_cmp. rewrite !Z.compare_lt_iff, !Z.compare_gt_iff. lia.
Qed.

Lemma start_of_spec vs pos :
  StronglySorted kle vs → NoDup (vs.*1) →
  (∀ i a, (i < start_of vs pos)%nat → vs !! i = Some a → a.1 < pos) ∧
  (∀ i a, (start_of vs pos ≤ i)%nat → vs !! i = Some a → pos ≤ a.1).
Proof.
  intros Hs Hnd. unfold start_of. destruct (binary_search_by _ vs) as [p|p] eqn:E; simpl.
  - apply binary_search_by_found in E as (y & Hy & Heq). unfold pos_cmp in Heq. apply Z.compare_eq in Heq.
    split; intros i a Hi Ha.
    + pose proof (sorted_pos vs i p a y Hs Hi Ha Hy). destruct (decide (a.1 = pos)) as [Hap|]; [|lia].
      assert (i = p); [|lia]. apply (NoDup_lookup (vs.*1) i p pos Hnd); rewrite list_lookup_fmap.
      * rewrite Ha. simpl. by rewrite Hap.
      * rewrite Hy. simpl. by rewrite Heq.
    + destruct (decide (i = p)) as [->|]; [assert (a = y) as -> by congruence; lia|].
      pose proof (sorted_pos vs p i y a Hs ltac:(lia) Hy Ha). lia.
  - apply binary_search_by_absent in E as (Hp & Hlt & Hgt).
    + unfold pos_cmp in *. split; intros i a Hi Ha.
      * apply Z.compare_lt_iff. by apply (Hlt i).
      * pose proof (Hgt i a Hi Ha) as Hc. apply Z.compare_gt_iff in Hc. lia.
    + intros i j a b Hij Ha Hb. pose proof (sorted_pos vs i j a b Hs Hij Ha Hb).
      unfold pos_cmp. rewrite !Z.compare_lt_iff, !Z.compare_gt_iff. lia.
Qed.

(** Clockwise from a position: the vnodes at or after it, then the others. *)
Definition around (vs : list (Z * K)) (pos : Z) : list K :=
  (filter (λ vn, pos ≤ vn.1) vs ++ filter (λ vn, vn.1 < pos) vs).*2.

Lemma clockwise_around vs pos :
  StronglySorted kle vs → NoDup (vs.*1) → clockwise vs (start_of vs pos) = around vs pos.
Proof.
  intros Hs Hnd. destruct (start_of_spec vs pos Hs Hnd) as [Hlt Hge]. set (s := start_of vs pos) in *.
  unfold clockwise, around.
  assert (Ht : ∀ a, a ∈ take s vs → a.1 < pos).
  { intros a (i & Hi & Hlt')%elem_of_take. by apply (Hlt i). }
  assert (Hd : ∀ a, a ∈ drop s vs → pos ≤ a.1).
  { intros a [i Hi]%list_elem_of_lookup. rewrite lookup_drop in Hi. apply (Hge (s + i)%nat); [lia|done]. }
  rewrite <- (take_drop s vs) at 3 4. rewrite !filter_app.
  rewrite (filter_none _ (take s vs)) by (intros a Ha%Ht; lia).
  rewrite (filter_all _ (drop s vs)) by (intros a Ha%Hd; lia).
  rewrite (filter_all _ (take s vs)) by (intros a Ha%Ht; lia).
  rewrite (filter_none _ (drop s vs)) by (intros a Ha%Hd; lia).
  by rewrite app_nil_r.
Qed.

(** ** The preference list of a well-formed ring *)

Lemma distinct_length vs start nodes :
  NoDup nodes → (∀ x, x ∈ nodes ↔ x ∈ vs.*2) → length (distinct [] (clockwise vs start)) = length nodes.
Proof.
  intros Hnd Hc. destruct (distinct_spec [] (clockwise vs start)) as [Hd Hin].
  apply Permutation_length, NoDup_Permutation; [done..|]. intros x. rewrite Hin, Hc. unfold clockwise.
  rewrite fmap_app, elem_of_app. rewrite <- (take_drop start vs) at 3. rewrite fmap_app, elem_of_app.
  set_solver.
Qed.

Lemma preference_at_eq r pos n :
  ring_wf r →
  preference_at r pos n = take n (distinct [] (clockwise (vnodes r) (start_of (vnodes r) pos))).
Proof.
  intros [Hs _ Hnd Hc].
  pose proof (distinct_length (vnodes r) (start_of (vnodes r) pos) (physical_nodes r) Hnd Hc) as Hlen.
  unfold preference_at. case_decide as Hdec.
  - destruct Hdec as [Hnil| ->]; [|done]. rewrite Hnil in Hlen.
    destruct (distinct _ _); [|done]. by destruct n.
  - fold (start_of (vnodes r) pos). rewrite <- (Nat.sub_0_r (length (vnodes r))).
    rewrite walk_spec; [|by apply start_of_le|lia|].
    + rewrite drop_0. simpl. destruct (decide (n ≤ length (physical_nodes r))%nat).
      * by rewrite Nat.min_l by lia.
      * rewrite Nat.min_r by lia. rewrite !take_ge; [done|lia|lia].
    + destruct (physical_nodes r) eqn:E; [naive_solver|]. simpl. destruct n; [naive_solver|]. lia.
Qed.

Inductive reachable (per_node : nat) : Ring K → Prop :=
  | reach_new : reachable per_node (ring_new per_node)
  | reach_add r node : reachable per_node r → reachable per_node (add_node node r).2
  | reach_remove r node : reachable per_node r → reachable per_node (remove_node node r).2.

Lemma reachable_wf per_node r :
  (0 < per_node)%nat → reachable per_node r → ring_wf r ∧ vnodes_per_node r = per_node.
Proof.
  intros Hpos. induction 1 as [|r node _ [Hwf Hn]|r node _ [Hwf Hn]].
  - split; [|done]. constructor; simpl; try constructor; set_solver.
  - split; [apply add_node_wf; [done|lia]|]. unfold add_node. by case_decide.
  - split; [by apply remove_node_wf|]. unfold remove_node. by case_decide.
Qed.

Lemma vec_insert_perm {A} i (x : A) l : vec_insert i x l ≡ₚ x :: l.
Proof. unfold vec_insert. rewrite <- (take_drop i l) at 3. by rewrite Permutation_middle. Qed.

Lemma foldl_insert_perm vs new : foldl insert_vnode vs new ≡ₚ new ++ vs.
Proof.
  revert vs. induction new as [|x new IH]; intros vs; [done|]. cbn [foldl]. rewrite IH. unfold insert_vnode.
  rewrite vec_insert_perm. by rewrite <- Permutation_middle.
Qed.

Lemma filter_compute per_node node l :
  filter (λ vn, vn.2 ≠ node) (l ≫= compute_vnodes_for per_node) = filter (λ x, x ≠ node) l ≫= compute_vnodes_for per_node.
Proof.
  induction l as [|x l IH]; [done|]. cbn [mbind list_bind]. rewrite filter_app, IH. destruct (decide (x = node)) as [->|Hx].
  - rewrite filter_cons_False by (intros Hx; by apply Hx). rewrite (elem_of_nil_inv (filter _ (compute_vnodes_for per_node node))); [done|].
    intros vn [Hne Hvn%elem_compute]%list_elem_of_filter. by apply Hne.
  - rewrite filter_cons_True by done. cbn [mbind list_bind]. f_equal. apply filter_all. intros vn Hvn%elem_compute. by rewrite Hvn.
Qed.

Lemma reachable_vnodes per_node r :
  (0 < per_node)%nat → reachable per_node r → vnodes r ≡ₚ physical_nodes r ≫= compute_vnodes_for per_node.
Proof.
  intros Hpos. induction 1 as [|r node Hr IH|r node Hr IH]; [done|..].
  - destruct (reachable_wf per_node r Hpos Hr) as [_ Hn]. unfold add_node. case_decide; [done|]. cbn [snd vnodes physical_nodes].
    rewrite foldl_insert_perm, Hn, IH, vec_insert_perm. done.
  - unfold remove_node. case_decide; [done|]. cbn [snd vnodes physical_nodes]. rewrite <- filter_compute. by rewrite IH.
Qed.

(** The ring is determined by its members: the order in which nodes joined and left
    does not matter. *)
Lemma ring_canonical per_node r r' :
  (0 < per_node)%nat → reachable per_node r → reachable per_node r' →
  (∀ x, x ∈ physical_nodes r ↔ x ∈ physical_nodes r') → r = r'.
Proof.
  intros Hpos Hr Hr' Hin. pose proof (reachable_vnodes _ _ Hpos Hr) as Hv. pose proof (reachable_vnodes _ _ Hpos Hr') as Hv'.
  destruct (reachable_wf _ _ Hpos Hr) as [[Hs Hp Hd Hc] Hn], (reachable_wf _ _ Hpos Hr') as [[Hs' Hp' Hd' Hc'] Hn'].
  assert (Hanti : ∀ A (O : Ord A) (x y : A), kle x y → kle y x → x = y).
  { intros A O x y Hxy Hyx. unfold kle in *. apply cmp_eq. destruct (cmp x y) eqn:E; [done| |done].
    rewrite (cmp_antisym x y), E in Hyx. done. }
  assert (Hphys : physical_nodes r = physical_nodes r').
  { eapply StronglySorted_unique_strong; [|exact Hp|exact Hp'|by apply NoDup_Permutation]. eauto. }
  destruct r as [p vs ph], r' as [p' vs' ph']. cbn in *. subst. f_equal.
  eapply StronglySorted_unique_strong; [|exact Hs|exact Hs'|by rewrite Hv, Hv']. intros. by eapply Hanti.
Qed.

(** Whatever nodes joined and left, [preference_list] returns pairwise
    distinct members of the ring, exactly [min n (number of nodes)] of them; and
    two lengths agree: asking for fewer replicas gives a prefix. *)
Theorem preference_list_spec per_node r key (m n : nat) :
  (0 < per_node)%nat → reachable per_node r →
  let l := preference_list r key n in
  NoDup l ∧ (∀ x, x ∈ l → x ∈ physical_nodes r) ∧
  length l = (n `min` length (physical_nodes r))%nat ∧
  (length (physical_nodes r) ≤ n → ∀ x, x ∈ physical_nodes r → owns r x key n = true)%nat ∧
  preference_list r key (m `min` n)%nat = take m l.
Proof.
  intros Hpos Hr. destruct (reachable_wf per_node r Hpos Hr) as [Hwf _].
  unfold owns, preference_list. rewrite !preference_at_eq by done. destruct Hwf as [Hs _ Hnd Hc].
  set (st := start_of _ _). pose proof (distinct_length (vnodes r) st (physical_nodes r) Hnd Hc) as Hlen.
  destruct (distinct_spec [] (clockwise (vnodes r) st)) as [Hd Hin]. cbn zeta.
  assert (Hmem : ∀ x, x ∈ distinct [] (clockwise (vnodes r) st) ↔ x ∈ physical_nodes r).
  { intros x. rewrite Hin, Hc. unfold clockwise. rewrite <- (take_drop st (vnodes r)) at 3.
    rewrite !fmap_app, !elem_of_app. set_solver. }
  split; [by eapply sublist_NoDup, sublist_take|]. split; [intros x Hx%elem_of_take; apply Hmem|].
  - destruct Hx as (i & Hi & _). by eapply list_elem_of_lookup_2.
  - split; [by rewrite length_take, Hlen|]. split; [|by rewrite take_take].
    intros Hle x Hx. apply bool_decide_eq_true_2. rewrite take_ge by lia. by apply Hmem.
Qed.

(** ** Minimal disruption *)

Lemma distinct_filter (P : K → Prop) `{∀ x, Decision (P x)} seen l :
  distinct (filter P seen) (filter P l) = filter P (distinct seen l).
Proof.
  revert seen. induction l as [|x l IH]; intros seen; [done|]. cbn [distinct].
  destruct (decide (P x)) as [HP|HP].
  - rewrite filter_cons_True by done. cbn [distinct]. case_decide as Hx; case_decide as Hx'.
    + apply IH.
    + apply list_elem_of_filter in Hx. tauto.
    + exfalso. apply Hx, list_elem_of_filter. done.
    + rewrite filter_cons_True by done. f_equal. rewrite <- IH, filter_app, filter_cons_True, filter_nil by done. done.
  - rewrite filter_cons_False by done. case_decide as Hx; [apply IH|].
    rewrite filter_cons_False by done. rewrite <- IH, filter_app, filter_cons_False, filter_nil by done.
    by rewrite app_nil_r.
Qed.

Lemma filter_fmap_snd (P : K → Prop) `{∀ x, Decision (P x)} (l : list (Z * K)) :
  filter P l.*2 = (filter (λ vn, P vn.2) l).*2.
Proof.
  induction l as [|[p x] l IH]; [done|]. cbn [fmap list_fmap snd]. destruct (decide (P x)).
  - rewrite !filter_cons_True by done. cbn [fmap list_fmap snd]. by rewrite <- IH.
  - rewrite !filter_cons_False by done. done.
Qed.

Lemma around_filter (P : K → Prop) `{∀ x, Decision (P x)} vs pos :
  around (filter (λ vn, P vn.2) vs) pos = filter P (around vs pos).
Proof.
  unfold around. rewrite filter_fmap_snd, filter_app. rewrite !list_filter_filter.
  f_equal; f_equal; apply list_filter_iff; intros x; tauto.
Qed.

Lemma filter_added vs new node :
  (∀ vn, vn ∈ new → vn.2 = node) →
  filter (λ vn, vn.2 ≠ node) (foldl insert_vnode vs new) = filter (λ vn, vn.2 ≠ node) vs.
Proof.
  revert vs. induction new as [|x new IH]; intros vs Hnew; [done|]. cbn [foldl].
  rewrite IH by (intros vn Hvn; apply Hnew; by right). unfold insert_vnode.
  apply filter_vec_insert. intros Hx. apply Hx, Hnew. left.
Qed.

Lemma added_vnodes r node :
  node ∉ physical_nodes r →
  vnodes (add_node node r).2 = foldl insert_vnode (vnodes r) (compute_vnodes_for (vnodes_per_node r) node).
Proof. intros Hn. unfold add_node. by rewrite decide_False. Qed.

Lemma vnodes_removed r node :
  ring_wf r → node ∉ physical_nodes r → filter (λ vn, vn.2 ≠ node) (vnodes (add_node node r).2) = vnodes r.
Proof.
  intros Hwf Hn. rewrite added_vnodes by done.
  rewrite filter_added by (intros vn Hvn; exact (elem_compute _ node vn Hvn)).
  apply filter_all. intros vn Hvn Heq. apply Hn. apply (rg_cover r Hwf). apply list_elem_of_fmap. eauto.
Qed.

Lemma filter_take_prefix (P : K → Prop) `{∀ x, Decision (P x)} n (l : list K) :
  filter P (take n l) `prefix_of` take n (filter P l).
Proof.
  revert n. induction l as [|x l IH]; intros n; [rewrite take_nil, filter_nil, take_nil; done|].
  destruct n as [|n]; [exact (prefix_nil _)|]. cbn [take]. destruct (decide (P x)).
  - rewrite !filter_cons_True by done. cbn [take]. by apply prefix_cons.
  - rewrite !filter_cons_False by done. etrans; [apply IH|]. exists (take 1 (drop n (filter P l))).
    by rewrite take_take_drop, Nat.add_1_r.
Qed.

(** C30: Consistent hashing.  When a node joins a ring it is not in, and no two
    vnodes share a position, then for every key the nodes of the new preference list
    other than the newcomer are, in the same order, the first nodes of the old one;
    a key whose new list does not name the newcomer keeps its list; and when the
    node leaves again the ring is the one it was. *)
Theorem add_node_minimal per_node r node key n :
  (0 < per_node)%nat → reachable per_node r → node ∉ physical_nodes r →
  let r' := (add_node node r).2 in
  NoDup (vnodes r').*1 →
  filter (λ x, x ≠ node) (preference_list r' key n) `prefix_of` preference_list r key n ∧
  (owns r' node key n = false → preference_list r' key n = preference_list r key n) ∧
  (remove_node node r').2 = r.
Proof.
  intros Hpos Hr Hn r' Hnd. destruct (reachable_wf per_node r Hpos Hr) as [Hwf Hpn].
  assert (Hwf' : ring_wf r') by (apply add_node_wf; [done|lia]).
  pose proof (vnodes_removed r node Hwf Hn) as Hrem. fold r' in Hrem.
  assert (Hnd0 : NoDup (vnodes r).*1).
  { rewrite <- Hrem. eapply sublist_NoDup; [exact Hnd|]. apply fmap_sublist, sublist_filter. }
  unfold owns, preference_list. set (pos := murmur3_hash _).
  rewrite !preference_at_eq by done.
  rewrite !clockwise_around by (done || apply rg_sorted; done).
  assert (Har : around (vnodes r) pos = filter (λ x, x ≠ node) (around (vnodes r') pos)).
  { rewrite <- Hrem. exact (around_filter (λ x, x ≠ node) (vnodes r') pos). }
  rewrite Har.
  pose proof (distinct_filter (λ x, x ≠ node) [] (around (vnodes r') pos)) as Hdf.
  rewrite filter_nil in Hdf. rewrite Hdf. clear Hdf. set (D := distinct [] (around (vnodes r') pos)).
  pose proof (filter_take_prefix (λ x, x ≠ node) n D) as Hpre. split; [done|]. split.
  - intros Hown. apply bool_decide_eq_false_1 in Hown.
    rewrite (filter_all _ (take n D)) in Hpre by (intros x Hx ->; done).
    apply prefix_length_eq; [done|]. rewrite !length_take.
    pose proof (length_filter (λ x, x ≠ node) D). lia.
  - subst r'. unfold remove_node. rewrite decide_False.
    + cbn [snd]. rewrite Hrem. unfold add_node. rewrite decide_False by done. cbn [snd vnodes_per_node physical_nodes].
      rewrite filter_vec_insert by (intros Hx; by apply Hx).
      rewrite filter_all by (intros x Hx ->; done). by destruct r.
    + intros Hx. apply Hx. unfold add_node. rewrite decide_False by done. cbn [snd physical_nodes].
      apply elem_of_vec_insert. by left.
Qed.
End ring.

(** ** A concrete ring *)

(** A hash that spreads nodes by the first byte of their tag. *)
Definition demo_hash (b : bytes) : Z := match b with [] => 0 | x :: _ => 10 * b2z x end.

Lemma demo_hash_u64 b : is_u64 (demo_hash b).
Proof.
  destruct b as [|x b]; unfold demo_hash, is_u64; [lia|].
  pose proof (b2z_range x). lia.
Qed.

Definition demo : RingHash := {| murmur3_hash := demo_hash; murmur3_u64 := demo_hash_u64 |}.
Definition demo_display : NodeDisplay bytes := λ b, b.

Definition ring_A : Ring bytes :=
  (add_node (H0:=demo_display) (H1:=demo) (str "A") (ring_new 1)).2.

Lemma reachable_ring_A : reachable (H0:=demo_display) (H1:=demo) 1 ring_A.
Proof. apply reach_add, reach_new. Qed.

Lemma preference_list_spec_witness :
  length (preference_list (H1:=demo) ring_A (mkKey (str "db") (str "c") (str "k")) 3) = 1%nat.
Proof.
  exact (proj1 (proj2 (proj2 (preference_list_spec (H0:=demo_display) (H1:=demo) 1 ring_A
    (mkKey (str "db") (str "c") (str "k")) 0 3 ltac:(lia) reachable_ring_A)))).
Defined.

Lemma add_node_minimal_witness :
  (remove_node (H0:=demo_display) (str "B")
    (add_node (H0:=demo_display) (H1:=demo) (str "B") ring_A).2).2 = ring_A.
Proof.
  refine (proj2 (proj2 (add_node_minimal (H0:=demo_display) (H1:=demo) 1 ring_A (str "B")
    (mkKey (str "db") (str "c") (str "k")) 2 ltac:(lia) reachable_ring_A _ _))).
  - apply (bool_decide_unpack _). vm_compute. exact I.
  - apply (bool_decide_unpack _). vm_compute. exact I.
Defined.

(** The ranges [add_node] reports are sampled at segment starts: with A at 650,
    B joining at 660 takes the positions 651 to 660, and [660, MAX) is reported,
    where 661 still belongs to A. *)
Lemma diff_owners_start_sampled :
  let '(ranges, r') := add_node (H0:=demo_display) (H1:=demo) (str "B") ring_A in
  ranges = [mkRange 660 u64_max (Some (str "A")) (str "B")] ∧
  preference_at r' 651 1 = [str "B"] ∧ preference_at r' 661 1 = [str "A"].
Proof. vm_compute. done. Qed.
