(* ===== verification/BTreeNode.v ===== *)
(** * B+Tree keys and nodes (src/btree/key.rs, node.rs)

    The [Key] trait is the class [Key]; its two implementations are [uuid_key] and
    [var_key], both on byte strings.  Nodes are records with their entries in a list;
    [from_bytes] and [to_bytes] panic where the source's slices are out of range. *)

From S2P Require Import Prelude RustStd Page.

Local Open Scope Z_scope.

Definition VAR_KEY_MAX_SIZE : Z := 256.
Definition VAR_LEN_PREFIX : nat := 2.
Definition UUID_KEY_SIZE : nat := 16.

(** [read_key] and [write_key] work on the slot's bytes. *)
Class Key (K : Type) := {
  #[global] key_ord :: Ord K;
  Config : Type;
  TREE_META_BYTES : nat;
  NODE_META_BYTES : nat;
  read_tree_config : bytes → Config;
  write_tree_config : Config → bytes → bytes;
  read_node_config : bytes → nat → Config;
  write_node_config : Config → bytes → nat → bytes;
  slot_key_size : Config → nat;
  read_key : bytes → Config → res K;
  write_key : K → bytes → Config → res bytes;
  duplicate_key_error : K → GrumpyError;
  key_not_found_error : K → GrumpyError;
}.
Arguments Config K {_}.
Arguments TREE_META_BYTES K {_}.
Arguments NODE_META_BYTES K {_}.

Definition uuid_key : Key bytes := {|
  key_ord := bytes_ord;
  Config := unit;
  TREE_META_BYTES := 0;
  NODE_META_BYTES := 0;
  read_tree_config := λ _, tt;
  write_tree_config := λ _ buf, buf;
  read_node_config := λ _ _, tt;
  write_node_config := λ _ buf _, buf;
  slot_key_size := λ _, UUID_KEY_SIZE;
  read_key := λ buf _,
    if decide (UUID_KEY_SIZE ≤ length buf)%nat then Ok (take UUID_KEY_SIZE buf) else Panic;
  write_key := λ k buf _,
    if decide (length k = UUID_KEY_SIZE ∧ UUID_KEY_SIZE ≤ length buf)%nat
    then Ok (copy_at 0 k buf) else Panic;
  duplicate_key_error := DuplicateKey;
  key_not_found_error := KeyNotFound;
|}.

Definition var_key : Key bytes := {|
  key_ord := bytes_ord;
  Config := Z;
  TREE_META_BYTES := 2;
  NODE_META_BYTES := 2;
  read_tree_config := λ buf, le_at 48 2 buf;
  write_tree_config := λ cfg buf, copy_at 48 (to_le 2 cfg) buf;
  read_node_config := λ buf offset, le_at offset 2 buf;
  write_node_config := λ cfg buf offset, copy_at offset (to_le 2 cfg) buf;
  slot_key_size := λ cfg, (VAR_LEN_PREFIX + Z.to_nat cfg)%nat;
  read_key := λ buf _,
    if decide (2 ≤ length buf)%nat then
      let key_len := Z.to_nat (le_at 0 2 buf) in
      if decide (VAR_LEN_PREFIX + key_len ≤ length buf)%nat
      then Ok (slice VAR_LEN_PREFIX key_len buf) else Panic
    else Panic;
  write_key := λ k buf cfg,
    if decide (VAR_LEN_PREFIX + length k ≤ length buf)%nat then
      Ok (copy_at VAR_LEN_PREFIX k (copy_at 0 (to_le 2 (Z.of_nat (length k))) buf))
    else Panic;
  duplicate_key_error := λ _, Codec "duplicate key in VarBTree";
  key_not_found_error := λ _, Codec "key not found in VarBTree";
|}.

(** ** Nodes *)

Definition INTERNAL_FIXED_HEADER : nat := 6.
Definition LEAF_FIXED_HEADER : nat := 10.
Definition CHILD_PTR_SIZE : nat := 4.
Definition DATA_PTR_SIZE : nat := 6.
Definition USABLE_SPACE : nat := PAGE_SIZE - PAGE_HEADER_SIZE.
Definition MIN_OCCUPANCY_PERCENT : nat := 40.

(** [u16] counters: [+= 1] and [-= 1]. *)
Definition u16_inc (n : Z) : res Z := if decide (n < u16_max) then Ok (n + 1) else Panic.
Definition u16_dec (n : Z) : res Z := if decide (0 < n) then Ok (n - 1) else Panic.

(** [v.len() as u16] *)
Definition len_u16 {A} (l : list A) : Z := Z.of_nat (length l) `mod` 65536.

Section nodes.
Context {K : Type} `{Key K}.

Definition internal_entries_start : nat := PAGE_HEADER_SIZE + INTERNAL_FIXED_HEADER + NODE_META_BYTES K.
Definition leaf_entries_start : nat := PAGE_HEADER_SIZE + LEAF_FIXED_HEADER + NODE_META_BYTES K.

Definition internal_max_keys (cfg : Config K) : nat :=
  ((USABLE_SPACE - (INTERNAL_FIXED_HEADER + NODE_META_BYTES K)) / (slot_key_size cfg + CHILD_PTR_SIZE))%nat.
Definition leaf_max_entries (cfg : Config K) : nat :=
  ((USABLE_SPACE - (LEAF_FIXED_HEADER + NODE_META_BYTES K)) / (slot_key_size cfg + DATA_PTR_SIZE))%nat.
Definition internal_min_keys (cfg : Config K) : nat :=
  (internal_max_keys cfg * MIN_OCCUPANCY_PERCENT / 100)%nat.
Definition leaf_min_entries (cfg : Config K) : nat :=
  (leaf_max_entries cfg * MIN_OCCUPANCY_PERCENT / 100)%nat.

(** [InternalEntry] is [(key, child_page_id)], [LeafEntry] is [(key, (page_id, slot_id))]. *)
Record InternalNode := mkInternal {
  in_page_id : Z;
  num_keys : Z;
  right_child : Z;
  in_config : Config K;
  in_entries : list (K * Z);
}.

Record LeafNode := mkLeaf {
  lf_page_id : Z;
  num_entries : Z;
  next_leaf : Z;
  prev_leaf : Z;
  lf_config : Config K;
  lf_entries : list (K * (Z * Z));
}.

Definition internal_new (pid : Z) (cfg : Config K) : InternalNode := mkInternal pid 0 0 cfg [].
Definition leaf_new (pid : Z) (cfg : Config K) : LeafNode := mkLeaf pid 0 0 0 cfg [].

(** *** The slots: a key, then the bytes of its pointer *)

Fixpoint put_slots (cfg : Config K) (base : nat) (es : list (K * bytes)) (buf : bytes) : res bytes :=
  match es with
  | [] => Ok buf
  | (key, ptr) :: es =>
      let slot_key := slot_key_size cfg in
      let p := (base + slot_key)%nat in
      if decide (p + length ptr ≤ length buf)%nat then
        slot ← write_key key (slice base slot_key buf) cfg;
        put_slots cfg (p + length ptr) es (copy_at p ptr (copy_at base slot buf))
      else Panic
  end.

Fixpoint get_slots (cfg : Config K) (ptr_size base n : nat) (buf : bytes) : res (list (K * bytes)) :=
  match n with
  | O => Ok []
  | S n =>
      let slot_key := slot_key_size cfg in
      let p := (base + slot_key)%nat in
      if decide (p + ptr_size ≤ length buf)%nat then
        key ← read_key (slice base slot_key buf) cfg;
        rest ← get_slots cfg ptr_size (p + ptr_size) n buf;
        mret ((key, slice p ptr_size buf) :: rest)
      else Panic
  end.

Definition internal_from_bytes (buf : bytes) : res InternalNode :=
  let header := read_from buf in
  let num_keys := le_at 32 2 buf in
  let right_child := le_at 34 4 buf in
  let config := read_node_config buf (PAGE_HEADER_SIZE + INTERNAL_FIXED_HEADER) in
  slots ← get_slots config CHILD_PTR_SIZE internal_entries_start (Z.to_nat num_keys) buf;
  mret (mkInternal (page_id header) num_keys right_child config (prod_map id of_le <$> slots)).

Definition internal_to_bytes (n : InternalNode) : res bytes :=
  let buf := write_to (header_new (in_page_id n) BTreeInternal) zero_page in
  let buf := copy_at 32 (to_le 2 (num_keys n)) buf in
  let buf := copy_at 34 (to_le 4 (right_child n)) buf in
  let buf := write_node_config (in_config n) buf (PAGE_HEADER_SIZE + INTERNAL_FIXED_HEADER) in
  put_slots (in_config n) internal_entries_start (prod_map id (to_le CHILD_PTR_SIZE) <$> in_entries n) buf.

Definition ptr_bytes (ptr : Z * Z) : bytes := to_le 4 ptr.1 ++ to_le 2 ptr.2.
Definition bytes_ptr (b : bytes) : Z * Z := (le_at 0 4 b, le_at 4 2 b).

Definition leaf_from_bytes (buf : bytes) : res LeafNode :=
  let header := read_from buf in
  let num_entries := le_at 32 2 buf in
  let next_leaf := le_at 34 4 buf in
  let prev_leaf := le_at 38 4 buf in
  let config := read_node_config buf (PAGE_HEADER_SIZE + LEAF_FIXED_HEADER) in
  slots ← get_slots config DATA_PTR_SIZE leaf_entries_start (Z.to_nat num_entries) buf;
  mret (mkLeaf (page_id header) num_entries next_leaf prev_leaf config (prod_map id bytes_ptr <$> slots)).

Definition leaf_to_bytes (n : LeafNode) : res bytes :=
  let buf := write_to (header_new (lf_page_id n) BTreeLeaf) zero_page in
  let buf := copy_at 32 (to_le 2 (num_entries n)) buf in
  let buf := copy_at 34 (to_le 4 (next_leaf n)) buf in
  let buf := copy_at 38 (to_le 4 (prev_leaf n)) buf in
  let buf := write_node_config (lf_config n) buf (PAGE_HEADER_SIZE + LEAF_FIXED_HEADER) in
  put_slots (lf_config n) leaf_entries_start (prod_map id ptr_bytes <$> lf_entries n) buf.

(** *** Operations on one node *)

Definition find_child (n : InternalNode) (key : K) : Z :=
  match in_entries n !! partition_point (λ e, kleb e.1 key) (in_entries n) with
  | Some e => e.2
  | None => right_child n
  end.

Definition internal_insert_entry (key : K) (right_child_page_id : Z) (n : InternalNode) : res InternalNode :=
  let pos := unwrap_or_else_id (binary_search_by (λ e, cmp e.1 key) (in_entries n)) in
  nk ← u16_inc (num_keys n);
  match in_entries n !! pos with
  | Some (k, old_child) =>
      mret (mkInternal (in_page_id n) nk (right_child n) (in_config n)
        (<[(pos + 1)%nat := (k, right_child_page_id)]> (vec_insert pos (key, old_child) (in_entries n))))
  | None =>
      mret (mkInternal (in_page_id n) nk right_child_page_id (in_config n)
        (in_entries n ++ [(key, right_child n)]))
  end.

Definition internal_is_overfull (n : InternalNode) : bool :=
  bool_decide (Z.of_nat (internal_max_keys (in_config n)) < num_keys n).
Definition internal_is_underfull (n : InternalNode) : bool :=
  bool_decide (num_keys n < Z.of_nat (internal_min_keys (in_config n))).

Definition leaf_search (n : LeafNode) (key : K) : option nat :=
  match binary_search_by (λ e, cmp e.1 key) (lf_entries n) with
  | inl i => Some i
  | inr _ => None
  end.

Definition leaf_insert_entry (entry : K * (Z * Z)) (n : LeafNode) : res LeafNode :=
  let pos := unwrap_or_else_id (binary_search_by (λ e, cmp e.1 entry.1) (lf_entries n)) in
  ne ← u16_inc (num_entries n);
  mret (mkLeaf (lf_page_id n) ne (next_leaf n) (prev_leaf n) (lf_config n)
    (vec_insert pos entry (lf_entries n))).

(** The removed entry and the node without it; [None] when the key is absent. *)
Definition leaf_remove_entry (key : K) (n : LeafNode) : res (option ((K * (Z * Z)) * LeafNode)) :=
  match binary_search_by (λ e, cmp e.1 key) (lf_entries n) with
  | inl idx =>
      ne ← u16_dec (num_entries n);
      match lf_entries n !! idx with
      | Some e => mret (Some (e, mkLeaf (lf_page_id n) ne (next_leaf n) (prev_leaf n) (lf_config n)
                                   (delete idx (lf_entries n))))
      | None => Panic
      end
  | inr _ => mret None
  end.

Definition leaf_is_overfull (n : LeafNode) : bool :=
  bool_decide (Z.of_nat (leaf_max_entries (lf_config n)) < num_entries n).
Definition leaf_is_underfull (n : LeafNode) : bool :=
  bool_decide (num_entries n < Z.of_nat (leaf_min_entries (lf_config n))).
End nodes.

Arguments InternalNode K {_}.
Arguments LeafNode K {_}.

(** ** What the node code relies on from a key type *)

(** [key_fits cfg k]: the key can be stored under the configuration.  The tree's
    code needs room for four entries per page. *)
Class KeyLaws (K : Type) `{Key K} := {
  key_fits : Config K → K → Prop;
  config_ok : Config K → Prop;
  config_bytes : Config K → bytes;
  config_of : bytes → Config K;
  key_roundtrip : ∀ cfg k, config_ok cfg → key_fits cfg k →
    ∃ slot, write_key k (replicate (slot_key_size cfg) x00) cfg = Ok slot ∧
      length slot = slot_key_size cfg ∧ read_key slot cfg = Ok k;
  config_bytes_length : ∀ cfg, length (config_bytes cfg) = NODE_META_BYTES K;
  config_roundtrip : ∀ cfg, config_ok cfg → config_of (config_bytes cfg) = cfg;
  write_node_config_eq : ∀ cfg buf off, (off + NODE_META_BYTES K ≤ length buf)%nat →
    write_node_config cfg buf off = copy_at off (config_bytes cfg) buf;
  read_node_config_eq : ∀ buf off, read_node_config buf off = config_of (slice off (NODE_META_BYTES K) buf);
  tree_meta_bytes_eq : TREE_META_BYTES K = NODE_META_BYTES K;
  write_tree_config_eq : ∀ cfg buf, (48 + NODE_META_BYTES K ≤ length buf)%nat →
    write_tree_config cfg buf = copy_at 48 (config_bytes cfg) buf;
  read_tree_config_eq : ∀ buf, read_tree_config buf = config_of (slice 48 (NODE_META_BYTES K) buf);
  fanout_ok : ∀ cfg, config_ok cfg →
    (NODE_META_BYTES K ≤ 2 ∧ 10 ≤ slot_key_size cfg + DATA_PTR_SIZE ∧ slot_key_size cfg ≤ 1024)%nat;
}.

Section laws.
Context {K : Type} `{HK : Key K} `{HL : !KeyLaws K}.
Implicit Types (cfg : Config K) (buf : bytes).

Lemma leaf_max_4 cfg : config_ok cfg → (4 ≤ leaf_max_entries cfg ≤ 1000)%nat.
Proof.
  intros (Hm & H1 & H2)%fanout_ok. unfold leaf_max_entries, USABLE_SPACE, LEAF_FIXED_HEADER, DATA_PTR_SIZE in *.
  pose proof PAGE_SIZE_Z as HP. unfold PAGE_HEADER_SIZE. split.
  - apply Nat.div_le_lower_bound; lia.
  - apply Nat.Div0.div_le_upper_bound; lia.
Qed.

Lemma internal_max_4 cfg : config_ok cfg → (4 ≤ internal_max_keys cfg ≤ 1100)%nat.
Proof.
  intros (Hm & H1 & H2)%fanout_ok. unfold internal_max_keys, USABLE_SPACE, INTERNAL_FIXED_HEADER, CHILD_PTR_SIZE, DATA_PTR_SIZE in *.
  pose proof PAGE_SIZE_Z as HP. unfold PAGE_HEADER_SIZE. split.
  - apply Nat.div_le_lower_bound; lia.
  - apply Nat.Div0.div_le_upper_bound; lia.
Qed.

(** *** The slots read back *)

Definition zero_from (base : nat) (buf : bytes) : Prop :=
  ∀ i, (base ≤ i < length buf)%nat → buf !! i = Some x00.

Lemma zero_from_slice base n buf :
  zero_from base buf → (base + n ≤ length buf)%nat → slice base n buf = replicate n x00.
Proof.
  intros Hz Hn. apply list_eq. intros i. rewrite lookup_slice. destruct (decide (i < n)%nat) as [Hi|Hi].
  - rewrite lookup_replicate_2 by done. apply Hz. lia.
  - symmetry. apply lookup_replicate_None. lia.
Qed.

Lemma zero_from_copy base off src buf :
  zero_from base buf → (off + length src ≤ length buf)%nat → (off + length src ≤ base)%nat →
  zero_from base (copy_at off src buf).
Proof.
  intros Hz Hl Hb i Hi. rewrite length_copy_at in Hi by done. rewrite lookup_copy_at by lia.
  rewrite decide_False by lia. by apply Hz.
Qed.

Lemma zero_from_mono base base' buf : (base ≤ base')%nat → zero_from base buf → zero_from base' buf.
Proof. intros Hb Hz i Hi. apply Hz. lia. Qed.

Lemma get_slots_ext cfg ptr_size base n buf buf' :
  length buf = length buf' → (∀ o k, (base ≤ o)%nat → slice o k buf = slice o k buf') →
  get_slots cfg ptr_size base n buf = get_slots cfg ptr_size base n buf'.
Proof.
  intros Hlen. revert base. induction n as [|n IH]; intros base Hsl; [done|]. cbn [get_slots].
  rewrite Hlen. case_decide; [|done]. rewrite (Hsl base) by lia. rewrite (Hsl (base + slot_key_size cfg)%nat) by lia.
  rewrite IH; [done|]. intros o k Ho. apply Hsl. lia.
Qed.

Lemma put_slots_ok cfg ptr_size base (es : list (K * bytes)) buf :
  config_ok cfg → Forall (λ e, key_fits cfg e.1 ∧ length e.2 = ptr_size) es → zero_from base buf →
  (base + length es * (slot_key_size cfg + ptr_size) ≤ length buf)%nat →
  ∃ buf', put_slots cfg base es buf = Ok buf' ∧ length buf' = length buf ∧
    (∀ o k, (o + k ≤ base)%nat → slice o k buf' = slice o k buf) ∧
    get_slots cfg ptr_size base (length es) buf' = Ok es.
Proof.
  intros Hc Hes. revert base buf. induction Hes as [|[k ptr] es [Hfit Hptr] Hes IH]; intros base buf Hz Hlen.
  { exists buf. done. }
  cbn [length fst snd] in *. destruct (key_roundtrip cfg k Hc Hfit) as (slot & Hw & Hsl & Hr).
  set (sk := slot_key_size cfg) in *. cbn [put_slots]. fold sk. rewrite Nat.mul_succ_l in Hlen.
  rewrite decide_True by lia. rewrite zero_from_slice by (done || lia). rewrite Hw. cbn [mbind outcome_bind].
  set (b1 := copy_at (base + sk) ptr (copy_at base slot buf)).
  assert (Hb0 : length (copy_at base slot buf) = length buf) by (apply length_copy_at; lia).
  assert (Hb1 : length b1 = length buf) by (unfold b1; rewrite length_copy_at; lia).
  destruct (IH (base + sk + length ptr)%nat b1) as (buf' & Hput & Hl' & Hkeep & Hget).
  - unfold b1. apply zero_from_copy; [apply zero_from_copy|lia|lia]; [|lia|lia].
    eapply zero_from_mono; [|exact Hz]. lia.
  - lia.
  - exists buf'. split; [exact Hput|]. split; [lia|]. split.
    + intros o n Ho. rewrite Hkeep by lia. unfold b1. rewrite slice_copy_at_ne by lia.
      by rewrite slice_copy_at_ne by lia.
    + cbn [get_slots]. fold sk. rewrite decide_True by lia.
      rewrite (Hkeep base sk) by lia. unfold b1 at 1. rewrite slice_copy_at_ne by lia.
      rewrite slice_copy_at_eq' by lia. rewrite Hr. cbn [mbind outcome_bind].
      rewrite <- Hptr. rewrite <- Hptr in Hget. rewrite Hget. cbn [mbind outcome_bind].
      rewrite (Hkeep (base + sk)%nat) by lia. unfold b1. rewrite slice_copy_at_eq' by lia. done.
Qed.

(** *** Nodes read back, stamped or not *)

Record internal_ok (n : InternalNode K) : Prop := {
  io_pid : is_u32 (in_page_id n);
  io_count : num_keys n = Z.of_nat (length (in_entries n));
  io_right : is_u32 (right_child n);
  io_config : config_ok (in_config n);
  io_entries : Forall (λ e, key_fits (in_config n) e.1 ∧ is_u32 e.2) (in_entries n);
  io_fit : (length (in_entries n) ≤ internal_max_keys (in_config n))%nat;
}.

Record leaf_ok (n : LeafNode K) : Prop := {
  lo_pid : is_u32 (lf_page_id n);
  lo_count : num_entries n = Z.of_nat (length (lf_entries n));
  lo_next : is_u32 (next_leaf n);
  lo_prev : is_u32 (prev_leaf n);
  lo_config : config_ok (lf_config n);
  lo_entries : Forall (λ e, key_fits (lf_config n) e.1 ∧ is_u32 e.2.1 ∧ is_u16 e.2.2) (lf_entries n);
  lo_fit : (length (lf_entries n) ≤ leaf_max_entries (lf_config n))%nat;
}.

(** Equal but for the checksum field. *)
Definition same_page (d d' : bytes) : Prop :=
  length d' = length d ∧ ∀ o n, (o + n ≤ 28 ∨ 32 ≤ o)%nat → slice o n d' = slice o n d.

Lemma same_page_refl d : same_page d d.
Proof. done. Qed.

Lemma same_page_stamp `{Crc32} d : length d = PAGE_SIZE → same_page d (stamp_checksum d).
Proof. intros Hl. split; [rewrite length_stamp; done|]. intros o n Ho. by apply slice_stamp. Qed.

Lemma bytes_ptr_bytes p : is_u32 p.1 → is_u16 p.2 → bytes_ptr (ptr_bytes p) = p.
Proof.
  intros H1 H2. unfold bytes_ptr, ptr_bytes. rewrite le_at_to_le by done.
  rewrite le_at_app_r by (rewrite length_to_le; lia). rewrite length_to_le. change (4 - 4)%nat with 0%nat.
  rewrite <- (app_nil_r (to_le 2 p.2)), le_at_to_le by done. by destruct p.
Qed.

(** The frame both node kinds share: a header, [fields] written at 32, the
    configuration at [off], then the slots. *)
Definition node_frame (pid : Z) (t : PageType) (fields : bytes) (cfg : Config K) : bytes :=
  copy_at (32 + length fields) (config_bytes cfg) (copy_at 32 fields (write_to (header_new pid t) zero_page)).

Lemma zero_page_zero i : (i < length zero_page)%nat → zero_page !! i = Some x00.
Proof. unfold zero_page. rewrite length_replicate. apply lookup_replicate_2. Qed.

Lemma drop_zero_from base buf : length buf = PAGE_SIZE → drop base buf = drop base zero_page → zero_from base buf.
Proof.
  intros Hl Hd i Hi. assert (Hx : drop base buf !! (i - base)%nat = drop base zero_page !! (i - base)%nat)
    by (by rewrite Hd). rewrite !lookup_drop in Hx. replace (base + (i - base))%nat with i in Hx by lia.
  rewrite Hx. apply zero_page_zero. rewrite length_zero_page. lia.
Qed.

Lemma node_frame_spec pid t fields cfg es ptr_size :
  is_u32 pid → config_ok cfg → (length fields ≤ 10)%nat →
  Forall (λ e, key_fits cfg e.1 ∧ length e.2 = ptr_size) es →
  let start := (32 + length fields + NODE_META_BYTES K)%nat in
  (start + length es * (slot_key_size cfg + ptr_size) ≤ PAGE_SIZE)%nat →
  ∃ d, put_slots cfg start es (node_frame pid t fields cfg) = Ok d ∧ length d = PAGE_SIZE ∧
    ∀ d', same_page d d' →
      page_id (read_from d') = pid ∧ page_type (read_from d') = t ∧
      slice 32 (length fields) d' = fields ∧
      read_node_config d' (32 + length fields) = cfg ∧
      get_slots cfg ptr_size start (length es) d' = Ok es.
Proof.
  intros Hpid Hc Hf Hes start Hfit. destruct (fanout_ok cfg Hc) as (Hm & _).
  pose proof (config_bytes_length cfg) as Hcb. pose proof PAGE_SIZE_Z as HP.
  set (h := write_to (header_new pid t) zero_page).
  assert (Hh : length h = PAGE_SIZE) by apply length_write_to, length_zero_page.
  set (b1 := copy_at 32 fields h). assert (Hb1 : length b1 = PAGE_SIZE) by (unfold b1; rewrite length_copy_at; lia).
  assert (Hfl : length (node_frame pid t fields cfg) = PAGE_SIZE).
  { unfold node_frame. fold h. fold b1. rewrite length_copy_at; lia. }
  assert (Hz : zero_from start (node_frame pid t fields cfg)).
  { apply drop_zero_from; [done|]. unfold node_frame. fold h. rewrite drop_copy_at by (fold b1; unfold start; lia).
    rewrite drop_copy_at by (unfold start; lia). unfold h.
    destruct (header_roundtrip (header_new pid t) zero_page length_zero_page (header_new_ok pid t Hpid)) as (_ & _ & Hd).
    replace start with (32 + (start - 32))%nat by (unfold start; lia). by rewrite <- !drop_drop, Hd. }
  destruct (put_slots_ok cfg ptr_size start es _ Hc Hes Hz ltac:(lia)) as (d & Hput & Hld & Hkeep & Hget).
  exists d. split; [done|]. split; [lia|]. intros d' [Hl' Hs'].
  assert (Hsl : ∀ o n, (o + n ≤ 28 ∨ 32 ≤ o ∧ o + n ≤ start)%nat → slice o n d' = slice o n (node_frame pid t fields cfg)).
  { intros o n Ho. rewrite Hs' by lia. apply Hkeep. unfold start in *. lia. }
  assert (Hhd : ∀ o n, (o + n ≤ 28)%nat → le_at o n d' = le_at o n h).
  { intros o n Ho. unfold le_at. rewrite Hsl by lia. unfold node_frame. fold h. fold b1.
    rewrite slice_copy_at_ne by lia. unfold b1. by rewrite slice_copy_at_ne by lia. }
  pose proof (read_write_header (header_new pid t) zero_page length_zero_page (header_new_ok pid t Hpid)) as Hrw.
  fold h in Hrw. split_and!.
  - cbn [read_from page_id]. rewrite Hhd by lia. exact (f_equal page_id Hrw).
  - cbn [read_from page_type]. rewrite Hhd by lia. exact (f_equal page_type Hrw).
  - rewrite Hsl by (unfold start; lia). unfold node_frame. fold h. fold b1. rewrite slice_copy_at_ne by lia.
    unfold b1. apply slice_copy_at_eq. lia.
  - rewrite read_node_config_eq, Hsl by (unfold start; lia). unfold node_frame. fold h. fold b1.
    rewrite slice_copy_at_eq' by lia. by apply config_roundtrip.
  - rewrite <- Hget. apply get_slots_ext; [lia|]. intros o k Ho. apply Hs'. unfold start in *. lia.
Qed.

Lemma copy_at_app {A} off (a b dst : list A) :
  (off + length a + length b ≤ length dst)%nat →
  copy_at (off + length a) b (copy_at off a dst) = copy_at off (a ++ b) dst.
Proof.
  intros Hl. assert (Ha : length (copy_at off a dst) = length dst) by (apply length_copy_at; lia).
  apply list_eq. intros i. rewrite !lookup_copy_at by lia. rewrite length_app.
  destruct (decide (off ≤ i < off + length a)%nat) as [Hi|Hi].
  - rewrite (decide_False (P := (off + length a ≤ i < _)%nat)) by lia. rewrite decide_True by lia.
    by rewrite lookup_app_l by lia.
  - destruct (decide (off + length a ≤ i < off + length a + length b)%nat) as [Hj|Hj].
    + rewrite decide_True by lia. rewrite lookup_app_r by lia. f_equal. lia.
    + by rewrite decide_False by lia.
Qed.

Lemma le_at_field (d fields : bytes) base o n z :
  slice base (length fields) d = fields → (o + n ≤ length fields)%nat → le_at o n fields = z →
  le_at (base + o) n d = z.
Proof. intros Hs Ho <-. unfold le_at. rewrite <- Hs. by rewrite slice_slice by done. Qed.

Lemma fmap_prod_map_id {A B C} (f : A → B) (g : B → C) (P : K * A → Prop) (l : list (K * A)) h :
  (∀ e, P e → h (g (f e.2)) = e.2) → Forall P l →
  (prod_map id h <$> (prod_map id (λ a, g (f a)) <$> l)) = l.
Proof.
  intros Hh. induction 1 as [|[k a] l HP _ IH]; [done|]. cbn. rewrite IH. f_equal. f_equal. by apply (Hh (k, a)).
Qed.

Lemma slots_fit entries max size base :
  (entries ≤ max)%nat → max = ((USABLE_SPACE - base) / size)%nat → (base ≤ USABLE_SPACE)%nat →
  (32 + base + entries * size ≤ PAGE_SIZE)%nat.
Proof.
  intros He -> Hb. pose proof (Nat.Div0.mul_div_le (USABLE_SPACE - base) size) as Hd.
  assert (entries * size ≤ USABLE_SPACE - base)%nat by nia. unfold USABLE_SPACE in *. plia.
Qed.

(** A stored internal node reads back, with the kind that [load_node] dispatches on. *)
Lemma internal_roundtrip n :
  internal_ok n →
  ∃ d, internal_to_bytes n = Ok d ∧ length d = PAGE_SIZE ∧
    ∀ d', same_page d d' → page_type (read_from d') = BTreeInternal ∧ internal_from_bytes d' = Ok n.
Proof.
  intros [Hp Hn Hr Hc He Hf]. destruct n as [pid nk rc cfg es]. cbn [in_page_id num_keys right_child in_config in_entries] in *.
  pose proof PAGE_SIZE_Z as HP. destruct (fanout_ok cfg Hc) as (Hm & Hs1 & Hs2).
  pose proof (internal_max_4 cfg Hc) as Hmax. set (fields := to_le 2 nk ++ to_le 4 rc).
  assert (Hfl : length fields = 6%nat) by (unfold fields; len).
  set (slots := prod_map id (to_le CHILD_PTR_SIZE) <$> es).
  destruct (node_frame_spec pid BTreeInternal fields cfg slots 4) as (d & Hput & Hld & Hrd); [done|done|lia| | |].
  - unfold slots. apply Forall_fmap. eapply Forall_impl; [exact He|]. intros [k c] [Hk _]. cbn.
    rewrite length_to_le. done.
  - unfold slots. rewrite length_fmap, Hfl.
    pose proof (slots_fit _ _ (slot_key_size cfg + 4) (6 + NODE_META_BYTES K) Hf eq_refl
      ltac:(unfold USABLE_SPACE; plia)). lia.
  - exists d. split; [|split; [done|]].
    + unfold internal_to_bytes. cbn [in_page_id num_keys right_child in_config in_entries]. fold slots.
      rewrite <- Hput. unfold node_frame. rewrite Hfl. unfold fields.
      assert (Hw : length (write_to (header_new pid BTreeInternal) zero_page) = PAGE_SIZE)
        by (apply length_write_to, length_zero_page).
      pose proof (copy_at_app 32 (to_le 2 nk) (to_le 4 rc) (write_to (header_new pid BTreeInternal) zero_page)) as Hcp.
      rewrite !length_to_le in Hcp. change (32 + 2)%nat with 34%nat in Hcp. rewrite Hcp by lia.
      rewrite write_node_config_eq; [done|]. rewrite length_copy_at by (len; lia).
      unfold PAGE_HEADER_SIZE, INTERNAL_FIXED_HEADER. lia.
    + intros d' Hd'. destruct (Hrd d' Hd') as (H1 & H2 & H3 & H4 & H5). split; [done|].
      rewrite Hfl in H4, H5. unfold internal_from_bytes, internal_entries_start, PAGE_HEADER_SIZE, INTERNAL_FIXED_HEADER.
      assert (Hnk : le_at 32 2 d' = nk).
      { apply (le_at_field d' fields 32 0 2); [done|lia|]. unfold fields. apply le_at_to_le. lia. }
      assert (Hrc : le_at 34 4 d' = rc).
      { apply (le_at_field d' fields 32 2 4); [done|lia|]. unfold fields.
        rewrite le_at_app_r by (rewrite length_to_le; lia). rewrite length_to_le. change (2 - 2)%nat with 0%nat.
        rewrite <- (app_nil_r (to_le 4 rc)). apply le_at_to_le. exact Hr. }
      change (32 + 6)%nat with 38%nat in *. rewrite H4, H1, Hnk, Hrc, Hn, Nat2Z.id.
      unfold slots in H5. rewrite length_fmap in H5. unfold CHILD_PTR_SIZE in *. rewrite H5. cbn [mbind outcome_bind].
      unfold mret, outcome_ret. f_equal. f_equal.
      apply (fmap_prod_map_id id (to_le 4) (λ e, is_u32 e.2)).
      * intros e He'. by apply of_to_le_small.
      * eapply Forall_impl; [exact He|]. intros e [_ ?]. done.
Qed.

(** A stored leaf reads back, with its kind. *)
Lemma leaf_roundtrip n :
  leaf_ok n →
  ∃ d, leaf_to_bytes n = Ok d ∧ length d = PAGE_SIZE ∧
    ∀ d', same_page d d' → page_type (read_from d') = BTreeLeaf ∧ leaf_from_bytes d' = Ok n.
Proof.
  intros [Hp Hn Hnx Hpv Hc He Hf]. destruct n as [pid ne nx pv cfg es].
  cbn [lf_page_id num_entries next_leaf prev_leaf lf_config lf_entries] in *.
  pose proof PAGE_SIZE_Z as HP. destruct (fanout_ok cfg Hc) as (Hm & Hs1 & Hs2).
  pose proof (leaf_max_4 cfg Hc) as Hmax. set (fields := to_le 2 ne ++ (to_le 4 nx ++ to_le 4 pv)).
  assert (Hfl : length fields = 10%nat) by (unfold fields; len).
  set (slots := prod_map id ptr_bytes <$> es).
  destruct (node_frame_spec pid BTreeLeaf fields cfg slots 6) as (d & Hput & Hld & Hrd); [done|done|lia| | |].
  - unfold slots. apply Forall_fmap. eapply Forall_impl; [exact He|]. intros [k c] [Hk _]. cbn.
    unfold ptr_bytes. split; [done|]. len.
  - unfold slots. rewrite length_fmap, Hfl.
    pose proof (slots_fit _ _ (slot_key_size cfg + 6) (10 + NODE_META_BYTES K) Hf eq_refl
      ltac:(unfold USABLE_SPACE; plia)). lia.
  - exists d. split; [|split; [done|]].
    + unfold leaf_to_bytes. cbn [lf_page_id num_entries next_leaf prev_leaf lf_config lf_entries]. fold slots.
      rewrite <- Hput. unfold node_frame. rewrite Hfl. unfold fields.
      assert (Hw : length (write_to (header_new pid BTreeLeaf) zero_page) = PAGE_SIZE)
        by (apply length_write_to, length_zero_page).
      set (h := write_to (header_new pid BTreeLeaf) zero_page) in *.
      pose proof (copy_at_app 32 (to_le 2 ne) (to_le 4 nx ++ to_le 4 pv) h) as Hcp.
      pose proof (copy_at_app 34 (to_le 4 nx) (to_le 4 pv) (copy_at 32 (to_le 2 ne) h)) as Hcp2.
      rewrite !length_app, !length_to_le in *. change (32 + 2)%nat with 34%nat in Hcp.
      change (34 + 4)%nat with 38%nat in Hcp2.
      rewrite Hcp2, Hcp by (rewrite ?length_copy_at; rewrite ?length_to_le; lia).
      rewrite write_node_config_eq; [done|]. rewrite length_copy_at by (len; lia).
      unfold PAGE_HEADER_SIZE, LEAF_FIXED_HEADER. lia.
    + intros d' Hd'. destruct (Hrd d' Hd') as (H1 & H2 & H3 & H4 & H5). split; [done|].
      rewrite Hfl in H4, H5. unfold leaf_from_bytes, leaf_entries_start, PAGE_HEADER_SIZE, LEAF_FIXED_HEADER.
      assert (Hne : le_at 32 2 d' = ne).
      { apply (le_at_field d' fields 32 0 2); [done|lia|]. unfold fields. apply le_at_to_le. lia. }
      assert (Hnx' : le_at 34 4 d' = nx).
      { apply (le_at_field d' fields 32 2 4); [done|lia|]. unfold fields.
        rewrite le_at_app_r by (rewrite length_to_le; lia). rewrite length_to_le. change (2 - 2)%nat with 0%nat.
        apply le_at_to_le. exact Hnx. }
      assert (Hpv' : le_at 38 4 d' = pv).
      { apply (le_at_field d' fields 32 6 4); [done|lia|]. unfold fields.
        rewrite le_at_app_r by (rewrite length_to_le; lia). rewrite length_to_le.
        rewrite le_at_app_r by (rewrite length_to_le; lia). rewrite length_to_le. change (6 - 2 - 4)%nat with 0%nat.
        rewrite <- (app_nil_r (to_le 4 pv)). apply le_at_to_le. exact Hpv. }
      change (32 + 10)%nat with 42%nat in *. rewrite H4, H1, Hne, Hnx', Hpv', Hn, Nat2Z.id.
      unfold slots in H5. rewrite length_fmap in H5. unfold DATA_PTR_SIZE in *. rewrite H5. cbn [mbind outcome_bind].
      unfold mret, outcome_ret. f_equal. f_equal.
      apply (fmap_prod_map_id id ptr_bytes (λ e, is_u32 e.2.1 ∧ is_u16 e.2.2)).
      * intros e [He1 He2]. by apply bytes_ptr_bytes.
      * eapply Forall_impl; [exact He|]. intros e [_ ?]. done.
Qed.

(** B+Tree nodes survive storage for every key type: a node within its capacity
    serialises to one page, and whatever checksum is stamped on that page, its header
    announces the right kind and [from_bytes] gives the same node. *)
Theorem btree_node_roundtrip `{Crc32} (i : InternalNode K) (l : LeafNode K) :
  internal_ok i → leaf_ok l →
  (∃ d, internal_to_bytes i = Ok d ∧ length d = PAGE_SIZE ∧
     page_type (read_from (stamp_checksum d)) = BTreeInternal ∧
     internal_from_bytes (stamp_checksum d) = Ok i) ∧
  (∃ d, leaf_to_bytes l = Ok d ∧ length d = PAGE_SIZE ∧
     page_type (read_from (stamp_checksum d)) = BTreeLeaf ∧
     leaf_from_bytes (stamp_checksum d) = Ok l).
Proof.
  intros Hi Hl. split.
  - destruct (internal_roundtrip i Hi) as (d & Hd & Hlen & Hr). exists d.
    destruct (Hr _ (same_page_stamp d Hlen)). done.
  - destruct (leaf_roundtrip l Hl) as (d & Hd & Hlen & Hr). exists d.
    destruct (Hr _ (same_page_stamp d Hlen)). done.
Qed.
End laws.

(** ** The two key types *)

Definition uuid_laws : @KeyLaws bytes uuid_key.
Proof.
  refine (@Build_KeyLaws bytes uuid_key (λ _ k, length k = 16%nat) (λ _, True) (λ _, []) (λ _, tt) _ _ _ _ _ _ _ _ _).
  - intros cfg k _ Hk. change (slot_key_size cfg) with 16%nat. cbn [write_key read_key uuid_key].
    unfold UUID_KEY_SIZE. rewrite decide_True by (rewrite length_replicate; lia).
    assert (Hl : length (copy_at 0 k (replicate 16 x00)) = 16%nat)
      by (rewrite length_copy_at; rewrite length_replicate; lia).
    eexists. split; [reflexivity|]. split; [done|]. rewrite decide_True by lia. f_equal.
    rewrite take_slice_drop. apply slice_copy_at_eq'; [done|]. rewrite length_replicate. lia.
  - done.
  - by intros [].
  - intros cfg buf off Hl. cbn [write_node_config uuid_key]. by rewrite copy_at_nil by lia.
  - done.
  - done.
  - intros cfg buf Hl. cbn [write_tree_config uuid_key]. by rewrite copy_at_nil by lia.
  - done.
  - intros cfg _. cbn. unfold UUID_KEY_SIZE, DATA_PTR_SIZE. lia.
Defined.

(** Keys of at most the configured size, itself at most [VAR_KEY_MAX_SIZE]. *)
Definition var_laws : @KeyLaws bytes var_key.
Proof.
  refine (@Build_KeyLaws bytes var_key (λ cfg k, Z.of_nat (length k) ≤ cfg)
    (λ cfg, 2 ≤ cfg ≤ VAR_KEY_MAX_SIZE) (to_le 2) of_le _ _ _ _ _ _ _ _ _).
  - intros cfg k Hc Hk. unfold VAR_KEY_MAX_SIZE in Hc. cbn [write_key read_key slot_key_size var_key].
    unfold VAR_LEN_PREFIX. set (z := replicate (2 + Z.to_nat cfg) x00).
    assert (Hz : length z = (2 + Z.to_nat cfg)%nat) by apply length_replicate.
    rewrite decide_True by lia. set (s := copy_at 2 k _).
    assert (Hz0 : length (copy_at 0 (to_le 2 (Z.of_nat (length k))) z) = length z)
      by (apply length_copy_at; rewrite length_to_le; lia).
    assert (Hs : length s = (2 + Z.to_nat cfg)%nat) by (unfold s; rewrite length_copy_at; lia).
    exists s. split; [done|]. split; [done|]. rewrite decide_True by lia.
    assert (Hlen : le_at 0 2 s = Z.of_nat (length k)).
    { unfold s. rewrite le_at_copy_ne by lia. apply le_at_copy_eq; lia. }
    rewrite Hlen, Nat2Z.id. rewrite decide_True by lia. f_equal.
    unfold s. apply slice_copy_at_eq. lia.
  - intros cfg. apply length_to_le.
  - intros cfg Hc. unfold VAR_KEY_MAX_SIZE in Hc. apply of_to_le_small. lia.
  - done.
  - done.
  - done.
  - done.
  - done.
  - intros cfg Hc. unfold VAR_KEY_MAX_SIZE in Hc. cbn. unfold VAR_LEN_PREFIX, DATA_PTR_SIZE. lia.
Defined.

(** A 16-byte key made of one repeated byte. *)
Definition demo_key (b : byte) : bytes := replicate 16 b.

Lemma btree_node_roundtrip_witness :
  ∃ d, leaf_to_bytes (H:=uuid_key) (mkLeaf (H:=uuid_key) 2 1 0 0 tt [(demo_key x01, (7, 3))]) = Ok d ∧
    length d = PAGE_SIZE ∧ page_type (read_from (@stamp_checksum crc32_ieee d)) = BTreeLeaf ∧
    leaf_from_bytes (H:=uuid_key) (@stamp_checksum crc32_ieee d) =
      Ok (mkLeaf (H:=uuid_key) 2 1 0 0 tt [(demo_key x01, (7, 3))]).
Proof.
  refine (proj2 (btree_node_roundtrip (HL:=uuid_laws) (H:=crc32_ieee)
    (mkInternal (H:=uuid_key) 4 1 3 tt [(demo_key x01, 2)]) _ _ _)).
  - constructor; cbn [in_page_id num_keys right_child in_config in_entries];
      [unfold is_u32; lia|done|unfold is_u32; lia|exact I| |].
    + constructor; [|constructor]. split; [done|unfold is_u32; simpl; lia].
    + pose proof (internal_max_4 (HL:=uuid_laws) tt I). simpl. lia.
  - constructor; cbn [lf_page_id num_entries next_leaf prev_leaf lf_config lf_entries];
      [unfold is_u32; lia|done|unfold is_u32; lia|unfold is_u32; lia|exact I| |].
    + constructor; [|constructor]. split; [done|unfold is_u32, is_u16; simpl; lia].
    + pose proof (leaf_max_4 (HL:=uuid_laws) tt I). simpl. lia.
Defined.
