(* ===== verification/BTree.v ===== *)
(** * The B+Tree (src/btree/mod.rs, ops.rs)

    The tree lives in a page store of its own, met through the [PageStore] contract.
    A descent path is kept nearest parent first, so that [Vec::push] and [Vec::pop]
    are the head of a list.  Descents take fuel; everything else recurses on the path. *)

From S2P Require Import Prelude RustStd Page PageManager BTreeNode.

Local Open Scope Z_scope.

Record BTreeMeta (K : Type) `{Key K} := mkMeta {
  root_page_id : Z;
  height : Z;
  meta_entries : Z;
  config : Config K;
}.
Arguments mkMeta {K _} _ _ _ _.
Arguments root_page_id {K _} _.
Arguments height {K _} _.
Arguments meta_entries {K _} _.
Arguments config {K _} _.

Record BTree (K S : Type) `{Key K} := mkTree {
  meta_page_id : Z;
  bt_pm : S;
  bt_meta : BTreeMeta K;
}.
Arguments mkTree {K S _} _ _ _.
Arguments meta_page_id {K S _} _.
Arguments bt_pm {K S _} _.
Arguments bt_meta {K S _} _.

Definition META_PAGE_ID : Z := 1.

Section btree.
Context {K : Type} {HK : Key K} {C : Crc32} {S : Type} {PS : PageStore C S}.

Abbreviation tree_m := (ST (BTree K S) GrumpyError).

Definition with_store (s : S) (t : BTree K S) : BTree K S := mkTree (meta_page_id t) s (bt_meta t).
Definition with_meta (m : BTreeMeta K) (t : BTree K S) : BTree K S := mkTree (meta_page_id t) (bt_pm t) m.

(** A call on [self.pm]. *)
Definition pm_call {A} (c : ST S GrumpyError A) : tree_m A := st_zoom bt_pm with_store c.

(** ** The meta page *)

Definition write_meta_to_buf (buf : bytes) (m : BTreeMeta K) : bytes :=
  let buf := copy_at 32 (to_le 4 (root_page_id m)) buf in
  let buf := copy_at 36 (to_le 4 (height m)) buf in
  let buf := copy_at 40 (to_le 8 (meta_entries m)) buf in
  write_tree_config (config m) buf.

Definition read_meta_from_buf (buf : bytes) : BTreeMeta K :=
  mkMeta (le_at 32 4 buf) (le_at 36 4 buf) (le_at 40 8 buf) (read_tree_config buf).

Definition meta_page (pid : Z) (m : BTreeMeta K) : bytes :=
  write_meta_to_buf (write_to (header_new pid BTreeInternal) zero_page) m.

Definition create_with (cfg : Config K) : ST S GrumpyError (BTreeMeta K * Z) :=
  meta_page_id ← ps_alloc;
  root_page_id ← ps_alloc;
  root ← st_lift (leaf_to_bytes (leaf_new root_page_id cfg));
  _ ← ps_write root_page_id root;
  let meta := mkMeta root_page_id 1 0 cfg in
  _ ← ps_write meta_page_id (meta_page meta_page_id meta);
  mret (meta, meta_page_id).

Definition create (cfg : Config K) (s : S) : res (BTree K S) :=
  match create_with cfg s with
  | (Ok (meta, mid), s) => Ok (mkTree mid s meta)
  | (Err e, _) => Err e
  | (Panic, _) => Panic
  end.

Definition open_tree (s : S) : res (BTree K S) :=
  match ps_read META_PAGE_ID s with
  | (Ok buf, s) => Ok (mkTree META_PAGE_ID s (read_meta_from_buf buf))
  | (Err e, _) => Err e
  | (Panic, _) => Panic
  end.

Definition flush_meta : tree_m unit :=
  t ← st_get;
  pm_call (ps_write (meta_page_id t) (meta_page (meta_page_id t) (bt_meta t))).

(** [self.meta.num_entries += 1] and [-= 1] on a [u64]. *)
Definition inc_entries : tree_m unit :=
  t ← st_get;
  if decide (meta_entries (bt_meta t) < u64_max) then
    st_put (with_meta (mkMeta (root_page_id (bt_meta t)) (height (bt_meta t))
      (meta_entries (bt_meta t) + 1) (config (bt_meta t))) t)
  else st_lift Panic.
Definition dec_entries : tree_m unit :=
  t ← st_get;
  if decide (0 < meta_entries (bt_meta t)) then
    st_put (with_meta (mkMeta (root_page_id (bt_meta t)) (height (bt_meta t))
      (meta_entries (bt_meta t) - 1) (config (bt_meta t))) t)
  else st_lift Panic.

(** ** Helpers *)

Inductive NodeRef :=
| Internal (n : InternalNode K)
| Leaf (n : LeafNode K).

Definition load_node (pid : Z) : tree_m NodeRef :=
  buf ← pm_call (ps_read pid);
  match page_type (read_from buf) with
  | BTreeInternal => n ← st_lift (internal_from_bytes buf); mret (Internal n)
  | BTreeLeaf => n ← st_lift (leaf_from_bytes buf); mret (Leaf n)
  | _ => st_fail (PageNotFound pid)
  end.

Definition load_internal (pid : Z) : tree_m (InternalNode K) :=
  buf ← pm_call (ps_read pid); st_lift (internal_from_bytes buf).
Definition load_leaf (pid : Z) : tree_m (LeafNode K) :=
  buf ← pm_call (ps_read pid); st_lift (leaf_from_bytes buf).

Definition save_internal (n : InternalNode K) : tree_m unit :=
  d ← st_lift (internal_to_bytes n); pm_call (ps_write (in_page_id n) d).
Definition save_leaf (n : LeafNode K) : tree_m unit :=
  d ← st_lift (leaf_to_bytes n); pm_call (ps_write (lf_page_id n) d).
Definition alloc_page : tree_m Z := pm_call ps_alloc.

Definition find_child_index (n : InternalNode K) (key : K) : nat :=
  partition_point (λ e, kleb e.1 key) (in_entries n).

Definition get_child_at (n : InternalNode K) (child_idx : nat) : Z :=
  match in_entries n !! child_idx with
  | Some e => e.2
  | None => right_child n
  end.

(** ** Search *)

Abbreviation tree_f := (FT (BTree K S) GrumpyError).

Fixpoint find_leaf_from (fuel : nat) (key : K) (current : Z) : tree_f (LeafNode K) :=
  match fuel with
  | O => ft_stop
  | Datatypes.S fuel =>
      n ← ft_lift (load_node current);
      match n with
      | Leaf leaf => mret leaf
      | Internal internal => find_leaf_from fuel key (find_child internal key)
      end
  end.

Definition find_leaf (fuel : nat) (key : K) : tree_f (LeafNode K) :=
  t ← ft_lift st_get; find_leaf_from fuel key (root_page_id (bt_meta t)).

Definition search (fuel : nat) (key : K) : tree_f (option (Z * Z)) :=
  leaf ← find_leaf fuel key;
  match leaf_search leaf key with
  | Some idx =>
      match lf_entries leaf !! idx with
      | Some e => mret (Some e.2)
      | None => ft_lift (st_lift Panic)
      end
  | None => mret None
  end.

Fixpoint find_leaf_with_path_from (fuel : nat) (key : K) (current : Z) (path : list (Z * nat)) :
    tree_f (LeafNode K * list (Z * nat)) :=
  match fuel with
  | O => ft_stop
  | Datatypes.S fuel =>
      n ← ft_lift (load_node current);
      match n with
      | Leaf leaf => mret (leaf, path)
      | Internal internal =>
          let child_idx := find_child_index internal key in
          let child_page := get_child_at internal child_idx in
          find_leaf_with_path_from fuel key child_page ((current, child_idx) :: path)
      end
  end.

Definition find_leaf_with_path (fuel : nat) (key : K) : tree_f (LeafNode K * list (Z * nat)) :=
  t ← ft_lift st_get; find_leaf_with_path_from fuel key (root_page_id (bt_meta t)) [].

(** ** Insert *)

Definition split_leaf (full : LeafNode K) : tree_m (LeafNode K * LeafNode K * K) :=
  let mid := (length (lf_entries full) / 2)%nat in
  let right_entries := drop mid (lf_entries full) in
  let left_entries := take mid (lf_entries full) in
  right_page_id ← alloc_page;
  let right := mkLeaf right_page_id (len_u16 right_entries) (next_leaf full) (lf_page_id full)
                 (lf_config full) right_entries in
  let left := mkLeaf (lf_page_id full) (len_u16 left_entries) right_page_id (prev_leaf full)
                (lf_config full) left_entries in
  match right_entries with
  | (k, _) :: _ => mret (left, right, k)
  | [] => st_lift Panic
  end.

Definition split_internal (full : InternalNode K) : tree_m (InternalNode K * InternalNode K * K) :=
  let mid := (length (in_entries full) / 2)%nat in
  match in_entries full !! mid with
  | None => st_lift Panic
  | Some (promoted_key, mid_child) =>
      let right_entries := drop (mid + 1) (in_entries full) in
      let left_entries := take mid (in_entries full) in
      right_page_id ← alloc_page;
      mret (mkInternal (in_page_id full) (len_u16 left_entries) mid_child (in_config full) left_entries,
            mkInternal right_page_id (len_u16 right_entries) (right_child full) (in_config full) right_entries,
            promoted_key)
  end.

Fixpoint propagate_split (path : list (Z * nat)) (promoted_key : K) (right_page_id : Z) : tree_m unit :=
  match path with
  | (parent_page_id, _) :: path =>
      parent ← load_internal parent_page_id;
      parent ← st_lift (internal_insert_entry promoted_key right_page_id parent);
      if negb (internal_is_overfull parent) then save_internal parent
      else
        '(left_int, right_int, new_promoted) ← split_internal parent;
        _ ← save_internal left_int;
        _ ← save_internal right_int;
        propagate_split path new_promoted (in_page_id right_int)
  | [] =>
      new_root_page_id ← alloc_page;
      t ← st_get;
      let m := bt_meta t in
      _ ← save_internal (mkInternal new_root_page_id 1 right_page_id (config m)
             [(promoted_key, root_page_id m)]);
      if decide (height m < u32_max) then
        st_modify (with_meta (mkMeta new_root_page_id (height m + 1) (meta_entries m) (config m)))
      else st_lift Panic
  end.

(** [next.prev_leaf = ..] on the neighbour, when there is one. *)
Definition relink (next_id prev : Z) : tree_m unit :=
  if decide (next_id = 0) then mret tt
  else
    next ← load_leaf next_id;
    save_leaf (mkLeaf (lf_page_id next) (num_entries next) (next_leaf next) prev (lf_config next)
      (lf_entries next)).

(** What [insert] does once it has the leaf and the path. *)
Definition insert_at (leaf : LeafNode K) (path : list (Z * nat)) (key : K) (ptr : Z * Z) : tree_m unit :=
  if decide (is_Some (leaf_search leaf key)) then st_fail (duplicate_key_error key)
  else
    leaf ← st_lift (leaf_insert_entry (key, ptr) leaf);
    if negb (leaf_is_overfull leaf) then
      _ ← save_leaf leaf;
      _ ← inc_entries;
      flush_meta
    else
      '(lnod, rnod, promoted_key) ← split_leaf leaf;
      _ ← save_leaf lnod;
      _ ← save_leaf rnod;
      _ ← relink (next_leaf rnod) (lf_page_id rnod);
      _ ← propagate_split path promoted_key (lf_page_id rnod);
      _ ← inc_entries;
      flush_meta.

Definition insert (fuel : nat) (key : K) (page_id slot_id : Z) : tree_f unit :=
  '(leaf, path) ← find_leaf_with_path fuel key;
  ft_lift (insert_at leaf path key (page_id, slot_id)).

(** ** Delete *)

(** [remove_from_internal] before its tail: the parent without the merged child. *)
Definition drop_child (merged_child_idx : nat) (parent : InternalNode K) : res (InternalNode K) :=
  let children := (in_entries parent).*2 ++ [right_child parent] in
  let keys := (in_entries parent).*1 in
  if decide (merged_child_idx < length children)%nat then
    let children := delete merged_child_idx children in
    let sep_idx := (if decide (0 < merged_child_idx)%nat then merged_child_idx - 1 else 0)%nat in
    let keys := if decide (keys = []) then keys else delete sep_idx keys in
    if decide (length keys ≤ length children)%nat then
      mret (mkInternal (in_page_id parent) (len_u16 keys) (default 0 (last children)) (in_config parent)
        (zip keys children))
    else Panic
  else Panic.

(** [left] takes the separator and everything of [right]. *)
Definition join_internal (sep : K) (lnod rnod : InternalNode K) : res (InternalNode K) :=
  let es := in_entries lnod ++ [(sep, right_child lnod)] ++ in_entries rnod in
  let nk := num_keys lnod + 1 + Z.of_nat (length (in_entries rnod)) in
  if decide (nk ≤ u16_max) then
    mret (mkInternal (in_page_id lnod) nk (right_child rnod) (in_config lnod) es)
  else Panic.

Definition set_key (i : nat) (k : K) (n : InternalNode K) : res (InternalNode K) :=
  match in_entries n !! i with
  | Some e => mret (mkInternal (in_page_id n) (num_keys n) (right_child n) (in_config n)
                      (<[i := (k, e.2)]> (in_entries n)))
  | None => Panic
  end.

Definition redistribute_internal_from_left (lnod node gp : InternalNode K) (child_idx : nat) : tree_m unit :=
  let sep_idx := (child_idx - 1)%nat in
  match in_entries gp !! sep_idx with
  | None => st_lift Panic
  | Some (separator_key, _) =>
      nk ← st_lift (u16_inc (num_keys node));
      let node := mkInternal (in_page_id node) nk (right_child node) (in_config node)
                    ((separator_key, right_child lnod) :: in_entries node) in
      match last (in_entries lnod) with
      | None => st_fail (Corruption "redistribute_internal_from_left: empty left sibling")
      | Some moved_up =>
          lk ← st_lift (u16_dec (num_keys lnod));
          let lnod := mkInternal (in_page_id lnod) lk moved_up.2 (in_config lnod)
                         (removelast (in_entries lnod)) in
          gp ← st_lift (set_key sep_idx moved_up.1 gp);
          _ ← save_internal lnod;
          _ ← save_internal node;
          save_internal gp
      end
  end.

Definition redistribute_internal_from_right (node rnod gp : InternalNode K) (child_idx : nat) : tree_m unit :=
  match in_entries gp !! child_idx with
  | None => mret tt
  | Some (separator_key, _) =>
      nk ← st_lift (u16_inc (num_keys node));
      match in_entries rnod with
      | [] => st_lift Panic
      | moved_up :: rest =>
          rk ← st_lift (u16_dec (num_keys rnod));
          let node := mkInternal (in_page_id node) nk moved_up.2 (in_config node)
                        (in_entries node ++ [(separator_key, right_child node)]) in
          let rnod := mkInternal (in_page_id rnod) rk (right_child rnod) (in_config rnod) rest in
          gp ← st_lift (set_key child_idx moved_up.1 gp);
          _ ← save_internal node;
          _ ← save_internal rnod;
          save_internal gp
      end
  end.

(** [merge_internal] and [rebalance_internal] call back [remove_from_internal] on the
    grandparent, with the rest of the path; [rec] stands for that call. *)
Definition merge_internal (rec : InternalNode K → nat → tree_m unit) (lnod rnod gp : InternalNode K)
    (right_child_idx : nat) : tree_m unit :=
  let sep_idx := (if decide (0 < right_child_idx)%nat then right_child_idx - 1 else 0)%nat in
  match in_entries gp !! sep_idx with
  | None => st_lift Panic
  | Some (separator_key, _) =>
      merged ← st_lift (join_internal separator_key lnod rnod);
      _ ← pm_call (ps_free (in_page_id rnod));
      _ ← save_internal merged;
      rec gp right_child_idx
  end.

Definition rebalance_internal (rec : InternalNode K → nat → tree_m unit) (node : InternalNode K)
    (gp_page_id : Z) (child_idx : nat) : tree_m unit :=
  gp ← load_internal gp_page_id;
  let num_children := num_keys gp + 1 in
  t ← st_get;
  let min := internal_min_keys (config (bt_meta t)) in
  if decide (0 < child_idx)%nat then
    lnod ← load_internal (get_child_at gp (child_idx - 1));
    if decide (min < length (in_entries lnod))%nat then
      redistribute_internal_from_left lnod node gp child_idx
    else merge_internal rec lnod node gp child_idx
  else if decide (Z.of_nat (child_idx + 1) < num_children) then
    rnod ← load_internal (get_child_at gp (child_idx + 1));
    if decide (min < length (in_entries rnod))%nat then
      redistribute_internal_from_right node rnod gp child_idx
    else merge_internal rec node rnod gp (child_idx + 1)
  else mret tt.

Fixpoint remove_from_internal (parent : InternalNode K) (merged_child_idx : nat) (path : list (Z * nat)) :
    tree_m unit :=
  parent ← st_lift (drop_child merged_child_idx parent);
  match path with
  | [] =>
      if decide (num_keys parent = 0) then
        let new_root_id := match in_entries parent with e :: _ => e.2 | [] => right_child parent end in
        _ ← pm_call (ps_free (in_page_id parent));
        st_modify (λ t, with_meta (mkMeta new_root_id
          (if decide (1 < height (bt_meta t)) then height (bt_meta t) - 1 else height (bt_meta t))
          (meta_entries (bt_meta t)) (config (bt_meta t))) t)
      else save_internal parent
  | (gp_page_id, child_idx) :: path =>
      _ ← save_internal parent;
      if internal_is_underfull parent then
        rebalance_internal (λ gp idx, remove_from_internal gp idx path) parent gp_page_id child_idx
      else mret tt
  end.

Definition redistribute_leaf_from_left (lnod leaf : LeafNode K) (parent : InternalNode K) (child_idx : nat) :
    tree_m unit :=
  match last (lf_entries lnod) with
  | None => st_fail (Corruption "redistribute_leaf_from_left: empty left sibling")
  | Some moved =>
      lk ← st_lift (u16_dec (num_entries lnod));
      let lnod := mkLeaf (lf_page_id lnod) lk (next_leaf lnod) (prev_leaf lnod) (lf_config lnod)
                     (removelast (lf_entries lnod)) in
      leaf ← st_lift (leaf_insert_entry moved leaf);
      match lf_entries leaf with
      | [] => st_lift Panic
      | first :: _ =>
          parent ← st_lift (set_key (child_idx - 1) first.1 parent);
          _ ← save_leaf lnod;
          _ ← save_leaf leaf;
          save_internal parent
      end
  end.

Definition redistribute_leaf_from_right (leaf rnod : LeafNode K) (parent : InternalNode K) (child_idx : nat) :
    tree_m unit :=
  match lf_entries rnod with
  | [] => st_lift Panic
  | moved :: rest =>
      rk ← st_lift (u16_dec (num_entries rnod));
      let rnod := mkLeaf (lf_page_id rnod) rk (next_leaf rnod) (prev_leaf rnod) (lf_config rnod) rest in
      leaf ← st_lift (leaf_insert_entry moved leaf);
      parent ← (if decide (child_idx < length (in_entries parent))%nat then
                  match rest with
                  | [] => st_lift Panic
                  | first :: _ => st_lift (set_key child_idx first.1 parent)
                  end
                else mret parent);
      _ ← save_leaf leaf;
      _ ← save_leaf rnod;
      save_internal parent
  end.

Fixpoint insert_entries (es : list (K * (Z * Z))) (n : LeafNode K) : res (LeafNode K) :=
  match es with
  | [] => mret n
  | e :: es => n ← leaf_insert_entry e n; insert_entries es n
  end.

Definition merge_leaves (lnod rnod : LeafNode K) (parent : InternalNode K) (right_child_idx : nat)
    (path : list (Z * nat)) : tree_m unit :=
  lnod ← st_lift (insert_entries (lf_entries rnod) lnod);
  let lnod := mkLeaf (lf_page_id lnod) (num_entries lnod) (next_leaf rnod) (prev_leaf lnod)
                 (lf_config lnod) (lf_entries lnod) in
  _ ← relink (next_leaf rnod) (lf_page_id lnod);
  _ ← pm_call (ps_free (lf_page_id rnod));
  _ ← save_leaf lnod;
  remove_from_internal parent right_child_idx path.

Definition rebalance_leaf (leaf : LeafNode K) (path : list (Z * nat)) : tree_m unit :=
  match path with
  | [] => st_fail (Corruption "rebalance_leaf: empty path")
  | (parent_page_id, child_idx) :: path =>
      parent ← load_internal parent_page_id;
      let num_children := num_keys parent + 1 in
      t ← st_get;
      let min := leaf_min_entries (config (bt_meta t)) in
      if decide (0 < child_idx)%nat then
        left_sib ← load_leaf (get_child_at parent (child_idx - 1));
        if decide (min < length (lf_entries left_sib))%nat then
          redistribute_leaf_from_left left_sib leaf parent child_idx
        else merge_leaves left_sib leaf parent child_idx path
      else if decide (Z.of_nat (child_idx + 1) < num_children) then
        right_sib ← load_leaf (get_child_at parent (child_idx + 1));
        if decide (min < length (lf_entries right_sib))%nat then
          redistribute_leaf_from_right leaf right_sib parent child_idx
        else merge_leaves leaf right_sib parent (child_idx + 1) path
      else mret tt
  end.

(** What [delete] does once it has the leaf and the path. *)
Definition delete_at (leaf : LeafNode K) (path : list (Z * nat)) (key : K) : tree_m unit :=
  r ← st_lift (leaf_remove_entry key leaf);
  match r with
  | None => st_fail (key_not_found_error key)
  | Some (_, leaf) =>
      _ ← save_leaf leaf;
      _ ← dec_entries;
      if decide (path = [] ∨ leaf_is_underfull leaf = false) then flush_meta
      else
        _ ← rebalance_leaf leaf path;
        flush_meta
  end.

Definition delete_key (fuel : nat) (key : K) : tree_f unit :=
  '(leaf, path) ← find_leaf_with_path fuel key;
  ft_lift (delete_at leaf path key).
End btree.
