(* ===== verification/BTreeShape.v ===== *)
(** * The shape of a stored B+Tree

    A ghost tree gives the structure that the pages of an index file spell out: which
    page is the child of which, which keys separate them, which leaf follows which.
    [tree_ok] states that a page map holds a tree in key order, balanced and with its
    leaf chain; zippers ([frame], [zip_ok]) are the same for a tree with a hole, which
    is what a descent path describes. *)

From S2P Require Import Prelude RustStd Page PageManager BTreeNode BTree.

Local Open Scope Z_scope.


Section shape.
Context {K : Type} {HK : Key K} {HL : KeyLaws K}.
Context (cfg : Config K).
Implicit Types (m : gmap Z bytes) (es : list (K * (Z * Z))) (ks : list K).

Definition node_of (pid : Z) ks (cids : list Z) : InternalNode K :=
  mkInternal pid (Z.of_nat (length ks)) (default 0 (last cids)) cfg (zip ks cids).

(** Page [pid] holds a leaf with these entries and successor. *)
Definition leaf_page m (pid nxt : Z) es : Prop :=
  ∃ d prev, let n := mkLeaf pid (Z.of_nat (length es)) nxt prev cfg es in
    m !! pid = Some d ∧ page_type (read_from d) = BTreeLeaf ∧ leaf_from_bytes d = Ok n ∧ leaf_ok n.

(** Page [pid] holds an internal node with these keys and children. *)
Definition node_page m (pid : Z) ks (cids : list Z) : Prop :=
  ∃ d, m !! pid = Some d ∧ page_type (read_from d) = BTreeInternal ∧
    internal_from_bytes d = Ok (node_of pid ks cids) ∧ internal_ok (node_of pid ks cids).

Inductive tree :=
| TLeaf (pid : Z) (es : list (K * (Z * Z)))
| TNode (pid : Z) (ks : list K) (cs : list tree).

Definition tpid (t : tree) : Z := match t with TLeaf pid _ | TNode pid _ _ => pid end.

Fixpoint kvs (t : tree) : list (K * (Z * Z)) :=
  match t with
  | TLeaf _ es => es
  | TNode _ _ cs => mjoin (kvs <$> cs)
  end.

Fixpoint pids (t : tree) : list Z :=
  match t with
  | TLeaf pid _ => [pid]
  | TNode pid _ cs => pid :: mjoin (pids <$> cs)
  end.

(** The leftmost leaf. *)
Fixpoint first_pid (t : tree) : Z :=
  match t with
  | TLeaf pid _ => pid
  | TNode _ _ [] => 0
  | TNode _ _ (c :: _) => first_pid c
  end.

(** The leftmost leaf of a list of trees, or [nxt]. *)
Definition first_of (cs : list tree) (nxt : Z) : Z :=
  match cs with [] => nxt | c :: _ => first_pid c end.

(** Bounds: keys at least [lo] and below [hi]; [None] is unbounded. *)
Definition above (lo : option K) (k : K) : Prop := match lo with Some l => kle l k | None => True end.
Definition strictly_above (lo : option K) (k : K) : Prop := match lo with Some l => klt l k | None => True end.
Definition below (hi : option K) (k : K) : Prop := match hi with Some h => klt k h | None => True end.
Definition between (lo hi : option K) (k : K) : Prop := strictly_above lo k ∧ below hi k.
Definition bounds_lt (lo hi : option K) : Prop := match lo, hi with Some l, Some h => klt l h | _, _ => True end.

(** Children [cs] separated by [ks] within [lo, hi), the last followed by [nxt]. *)
Fixpoint forest (P : option K → option K → Z → tree → Prop) (lo hi : option K) (nxt : Z) ks (cs : list tree) : Prop :=
  match ks, cs with
  | [], [c] => P lo hi nxt c
  | k :: ks, c :: cs =>
      between lo hi k ∧ P lo (Some k) (first_of cs nxt) c ∧ forest P (Some k) hi nxt ks cs
  | _, _ => False
  end.

(** A tree of height [h] (0 for a leaf) stored in the pages of [m]. *)
Fixpoint tree_ok m (h : nat) (lo hi : option K) (nxt : Z) (t : tree) : Prop :=
  match h, t with
  | O, TLeaf pid es =>
      leaf_page m pid nxt es ∧ bt_sorted es ∧ Forall (λ e, above lo e.1 ∧ below hi e.1) es
  | S h, TNode pid ks cs =>
      node_page m pid ks (tpid <$> cs) ∧ forest (tree_ok m h) lo hi nxt ks cs
  | _, _ => False
  end.

(** ** Separators *)

Lemma between_weaken_hi lo hi k k' : between lo (Some k) k' → between lo hi k → between lo hi k'.
Proof. intros [H1 H2] [_ H3]. split; [done|]. destruct hi; [|done]. simpl in *. by transitivity k. Qed.

Lemma forest_app (P : option K → option K → Z → tree → Prop) lo hi nxt ks1 k ks2 cs1 cs2 :
  length cs1 = S (length ks1) →
  forest P lo hi nxt (ks1 ++ k :: ks2) (cs1 ++ cs2) ↔
  forest P lo (Some k) (first_of cs2 nxt) ks1 cs1 ∧ between lo hi k ∧ forest P (Some k) hi nxt ks2 cs2.
Proof.
  revert lo cs1. induction ks1 as [|k1 ks1 IH]; intros lo cs1 Hl.
  { destruct cs1 as [|c [|c' cs1]]; try (simpl in Hl; lia). simpl. tauto. }
  destruct cs1 as [|c1 cs1]; [simpl in Hl; lia|]. simpl in Hl. injection Hl as Hl.
  cbn [app forest]. rewrite IH by done.
  assert (Hf : first_of (cs1 ++ cs2) nxt = first_of cs1 (first_of cs2 nxt)) by (by destruct cs1).
  rewrite Hf. split.
  - intros (Hb & HP & Hf1 & Hk & Hf2). split_and!; try done.
    + destruct Hb as [Hb1 Hb2]. split; [done|]. apply Hk.
    + destruct Hb as [Hb1 _], Hk as [Hk1 Hk2]. split; [|done]. destruct lo; [|done].
      simpl in *. by transitivity k1.
  - intros ((Hb & HP & Hf1) & Hk & Hf2). split_and!; try done.
    + by eapply between_weaken_hi.
    + split; [|apply Hk]. destruct Hb as [_ Hb]. done.
Qed.

(** The children left of a hole: bounds start at [lo] and end at [lo'], the last is
    followed by the leaf [fp]. *)
Fixpoint lctx (P : option K → option K → Z → tree → Prop) (lo : option K) ks (cs : list tree) (fp : Z)
    (lo' : option K) : Prop :=
  match ks, cs with
  | [], [] => lo' = lo
  | k :: ks, c :: cs => strictly_above lo k ∧ P lo (Some k) (first_of cs fp) c ∧ lctx P (Some k) ks cs fp lo'
  | _, _ => False
  end.

(** The children right of a hole, whose upper bound is [hi'] and successor [nxt']. *)
Definition rctx (P : option K → option K → Z → tree → Prop) (hi : option K) (nxt : Z) ks (cs : list tree)
    (hi' : option K) (nxt' : Z) : Prop :=
  match ks, cs with
  | [], [] => hi' = hi ∧ nxt' = nxt
  | k :: ks, c :: cs => hi' = Some k ∧ nxt' = first_pid c ∧ below hi k ∧ forest P (Some k) hi nxt ks (c :: cs)
  | _, _ => False
  end.

Definition bounds_le (lo lo' : option K) : Prop :=
  match lo, lo' with None, _ => True | Some l, Some l' => kle l l' | Some _, None => False end.

Lemma lctx_le P lo ks cs fp lo' : lctx P lo ks cs fp lo' → bounds_le lo lo' ∧ Forall (λ k, above (Some k) (default k lo')) ks.
Proof.
  revert lo cs. induction ks as [|k ks IH]; intros lo [|c cs]; cbn [lctx]; try done.
  - intros ->. split; [|constructor]. destruct lo; [|done]. apply kle_refl.
  - intros (Ha & _ & Hl). destruct (IH (Some k) cs Hl) as [Hle Hall]. split.
    + destruct lo as [l|]; [|done]. destruct lo' as [l'|]; [|done]. simpl in *.
      eapply kle_trans; [|exact Hle]. by apply klt_le.
    + constructor; [|done]. destruct lo'; [done|]. apply kle_refl.
Qed.

Lemma bounds_lt_left lo lo' hi : bounds_le lo lo' → bounds_lt lo' hi → bounds_lt lo hi.
Proof.
  destruct lo, lo', hi; simpl; try done. intros. by eapply kle_lt_trans.
Qed.

Lemma rctx_le P hi nxt ks cs hi' nxt' lo :
  rctx P hi nxt ks cs hi' nxt' → bounds_lt lo hi' → bounds_lt lo hi.
Proof.
  destruct ks as [|k ks], cs as [|c cs]; cbn [rctx]; try done.
  - by intros [-> _].
  - intros (-> & _ & Hb & _). destruct lo, hi; simpl in *; try done. intros. by transitivity k.
Qed.

(** A forest around one of its children. *)
Lemma forest_hole P lo hi nxt ksL ksR csL csR c :
  length csL = length ksL → length csR = length ksR →
  (forest P lo hi nxt (ksL ++ ksR) (csL ++ c :: csR) ∧ bounds_lt lo hi ↔
   ∃ lo' hi' nxt', lctx P lo ksL csL (first_pid c) lo' ∧ rctx P hi nxt ksR csR hi' nxt' ∧
     bounds_lt lo' hi' ∧ P lo' hi' nxt' c).
Proof.
  intros HlL HlR. revert lo csL HlL. induction ksL as [|k ksL IH]; intros lo csL HlL.
  - destruct csL; [|done]. cbn [app lctx]. destruct ksR as [|k ksR], csR as [|c' csR]; try done; cbn [forest rctx].
    + split; [intros [HP Hlt]; exists lo, hi, nxt; done|].
      intros (? & ? & ? & -> & [-> ->] & ? & ?). done.
    + split.
      * intros [(Hb & HP & Hf) Hlt]. exists lo, (Some k), (first_pid c'). split_and!; try done; [apply Hb|].
        destruct lo; [apply Hb|done].
      * intros (? & ? & ? & -> & (-> & -> & Hb & Hf) & Hlt & HP). split_and!; try done.
        destruct lo, hi; simpl in *; try done. by transitivity k.
  - destruct csL as [|c0 csL]; [done|]. injection HlL as HlL. cbn [app forest lctx].
    assert (Hfo : ∀ n, first_of (csL ++ c :: csR) n = first_of csL (first_pid c)) by (by destruct csL).
    rewrite Hfo. split.
    + intros [(Hb & HP & Hf) Hlt]. destruct (proj1 (IH (Some k) csL HlL)) as (lo' & hi' & nxt' & H1 & H2 & H3 & H4).
      { split; [done|]. destruct Hb as [_ Hb]. by destruct hi. }
      exists lo', hi', nxt'. split_and!; try done. apply Hb.
    + intros (lo' & hi' & nxt' & (Ha & HP & H1) & H2 & H3 & H4).
      destruct (proj2 (IH (Some k) csL HlL)) as [Hf Hlt]; [by exists lo', hi', nxt'|].
      split_and!; try done.
      destruct lo, hi; simpl in *; try done. by transitivity k.
Qed.

Lemma lctx_snoc P lo ks cs k c fp lo' :
  length cs = length ks →
  lctx P lo ks cs (first_pid c) lo' → strictly_above lo' k → P lo' (Some k) fp c →
  lctx P lo (ks ++ [k]) (cs ++ [c]) fp (Some k).
Proof.
  revert lo cs. induction ks as [|k0 ks IH]; intros lo [|c0 cs] Hlen; try done; cbn [lctx app].
  - intros -> Ha HP. done.
  - intros (Ha & HP & Hl) Hk HPc. split_and!; [done| |by apply IH; [injection Hlen|..]].
    assert (first_of (cs ++ [c]) fp = first_of cs (first_pid c)) as -> by (by destruct cs). done.
Qed.

(** ** Forests, in general *)

Lemma forest_mono (P Q : option K → option K → Z → tree → Prop) lo hi nxt ks cs :
  (∀ lo hi nxt c, c ∈ cs → P lo hi nxt c → Q lo hi nxt c) →
  forest P lo hi nxt ks cs → forest Q lo hi nxt ks cs.
Proof.
  revert lo cs. induction ks as [|k ks IH]; intros lo cs Hm.
  - destruct cs as [|c [|? ?]]; simpl; try done. apply Hm. set_solver.
  - destruct cs as [|c cs]; simpl; [done|]. intros (Hb & HP & Hf). split; [done|]. split; [apply Hm; [set_solver|done]|].
    apply IH; [|done]. intros. apply Hm; [set_solver|done].
Qed.

Lemma lctx_mono (P Q : option K → option K → Z → tree → Prop) lo ks cs fp lo' :
  (∀ lo hi nxt c, c ∈ cs → P lo hi nxt c → Q lo hi nxt c) →
  lctx P lo ks cs fp lo' → lctx Q lo ks cs fp lo'.
Proof.
  revert lo cs. induction ks as [|k ks IH]; intros lo [|c cs] Hm; simpl; try done.
  intros (Hb & HP & Hf). split_and!; [done|apply Hm; [set_solver|done]|].
  apply IH; [|done]. intros. apply Hm; [set_solver|done].
Qed.

Lemma rctx_mono (P Q : option K → option K → Z → tree → Prop) hi nxt ks cs hi' nxt' :
  (∀ lo hi nxt c, c ∈ cs → P lo hi nxt c → Q lo hi nxt c) →
  rctx P hi nxt ks cs hi' nxt' → rctx Q hi nxt ks cs hi' nxt'.
Proof.
  destruct ks as [|k ks], cs as [|c cs]; simpl; try done. intros Hm (-> & -> & Hb & Hf).
  split_and!; try done. by eapply forest_mono.
Qed.

Lemma forest_length P lo hi nxt ks cs : forest P lo hi nxt ks cs → length cs = S (length ks).
Proof.
  revert lo cs. induction ks as [|k ks IH]; intros lo cs.
  - destruct cs as [|c [|? ?]]; simpl; done.
  - destruct cs as [|c cs]; simpl; [done|]. intros (_ & _ & Hf). f_equal. by eapply IH.
Qed.

Lemma forest_keys P lo hi nxt ks cs :
  forest P lo hi nxt ks cs → StronglySorted klt ks ∧ Forall (between lo hi) ks.
Proof.
  revert lo cs. induction ks as [|k ks IH]; intros lo cs; [intros _; split; constructor|].
  destruct cs as [|c cs]; simpl; [done|]. intros (Hb & _ & Hf). destruct (IH _ _ Hf) as [Hs Hall].
  split; constructor; try done.
  - eapply Forall_impl; [exact Hall|]. intros k' [Hk _]. done.
  - eapply Forall_impl; [exact Hall|]. intros k' [Hk1 Hk2]. destruct Hb as [Hb1 _]. split; [|done].
    destruct lo; [|done]. simpl in *. by transitivity k.
Qed.

Definition within (lo hi : option K) (e : K * (Z * Z)) : Prop := above lo e.1 ∧ below hi e.1.

Lemma bt_sorted_app (l1 l2 : list (K * (Z * Z))) :
  bt_sorted l1 → bt_sorted l2 → (∀ a b, a ∈ l1 → b ∈ l2 → klt a.1 b.1) → bt_sorted (l1 ++ l2).
Proof. intros H1 H2 H12. apply StronglySorted_app. done. Qed.

Lemma forest_kvs (P : option K → option K → Z → tree → Prop) lo hi nxt ks cs :
  (∀ lo hi nxt c, P lo hi nxt c → bt_sorted (kvs c) ∧ Forall (within lo hi) (kvs c)) →
  forest P lo hi nxt ks cs → bt_sorted (mjoin (kvs <$> cs)) ∧ Forall (within lo hi) (mjoin (kvs <$> cs)).
Proof.
  intros HP. revert lo cs. induction ks as [|k ks IH]; intros lo cs.
  - destruct cs as [|c [|? ?]]; simpl; try done. rewrite app_nil_r. apply HP.
  - destruct cs as [|c cs]; simpl; [done|]. intros (Hb & Hc & Hf).
    destruct (IH _ _ Hf) as [Hs Hall]. destruct (HP _ _ _ _ Hc) as [Hs1 Hall1].
    rewrite Forall_forall in Hall, Hall1. split.
    + apply bt_sorted_app; [done..|]. intros a b Ha Hb'. apply Hall1 in Ha as [_ Ha]. apply Hall in Hb' as [Hb' _].
      simpl in *. by eapply klt_le_trans.
    + apply Forall_app. split; apply Forall_forall; intros e He.
      * apply Hall1 in He as [He1 He2]. split; [done|]. destruct Hb as [_ Hb]. destruct hi; [|done].
        simpl in *. by transitivity k.
      * apply Hall in He as [He1 He2]. split; [|done]. destruct Hb as [Hb _]. destruct lo; [|done].
        simpl in *. apply klt_le. by eapply klt_le_trans.
Qed.

Lemma tree_kvs m h lo hi nxt t :
  tree_ok m h lo hi nxt t → bt_sorted (kvs t) ∧ Forall (within lo hi) (kvs t).
Proof.
  revert lo hi nxt t. induction h as [|h IH]; intros lo hi nxt [pid es|pid ks cs]; cbn [tree_ok]; try done.
  - by intros (_ & ? & ?).
  - intros [_ Hf]. cbn [kvs]. by eapply forest_kvs.
Qed.

Lemma lctx_kvs m h lo ks cs fp lo' :
  lctx (tree_ok m h) lo ks cs fp lo' →
  Forall (λ e, ∃ l, lo' = Some l ∧ klt e.1 l) (mjoin (kvs <$> cs)).
Proof.
  revert lo cs. induction ks as [|k ks IH]; intros lo [|c cs]; cbn [lctx]; try done.
  intros (Ha & HP & Hl). cbn [fmap list_fmap mjoin list_join]. apply Forall_app. split; [|by eapply IH].
  destruct (lctx_le _ _ _ _ _ _ Hl) as [Hle _]. destruct lo' as [l'|]; [|done]. simpl in Hle.
  destruct (tree_kvs _ _ _ _ _ _ HP) as [_ Hall]. eapply Forall_impl; [exact Hall|].
  intros e [_ He]. exists l'. split; [done|]. simpl in He. by eapply klt_le_trans.
Qed.

Lemma rctx_kvs m h hi nxt ks cs hi' nxt' :
  rctx (tree_ok m h) hi nxt ks cs hi' nxt' →
  Forall (λ e, ∃ l, hi' = Some l ∧ kle l e.1) (mjoin (kvs <$> cs)).
Proof.
  destruct ks as [|k ks], cs as [|c cs]; cbn [rctx]; try done.
  intros (-> & -> & _ & Hf).
  destruct (forest_kvs (tree_ok m h) _ _ _ _ _ ltac:(intros; by eapply tree_kvs) Hf) as [_ Hall].
  eapply Forall_impl; [exact Hall|]. intros e [He _]. eauto.
Qed.

(** ** Pages *)

Lemma leaf_page_first m h lo hi nxt t :
  tree_ok m h lo hi nxt t → first_pid t ∈ pids t ∧ ∃ nxt' es, leaf_page m (first_pid t) nxt' es.
Proof.
  revert lo hi nxt t. induction h as [|h IH]; intros lo hi nxt [pid es|pid ks cs]; cbn [tree_ok]; try done.
  - intros (Hp & _). cbn [pids first_pid]. split; [set_solver|eauto].
  - intros [_ Hf]. cbn [pids first_pid]. destruct cs as [|c cs]; [by destruct ks|].
    assert (Hc : ∃ hi' nxt', tree_ok m h lo hi' nxt' c).
    { destruct ks as [|k ks]; cbn [forest] in Hf; [destruct cs; [eauto|done]|]. destruct Hf as (_ & ? & _). eauto. }
    destruct Hc as (hi' & nxt' & Hc). destruct (IH _ _ _ _ Hc) as [Hin Hpage]. split; [|done].
    right. cbn. apply elem_of_app. by left.
Qed.

(** Two page maps agree on a page, but perhaps for the back link of a leaf, which no
    operation reads. *)
Definition page_eq m m' (p : Z) : Prop :=
  m' !! p = m !! p ∨ ∃ nxt es, leaf_page m p nxt es ∧ leaf_page m' p nxt es.

Lemma page_eq_refl m p : page_eq m m p.
Proof. by left. Qed.

Lemma leaf_page_eq m m' p nxt es : page_eq m m' p → leaf_page m p nxt es → leaf_page m' p nxt es.
Proof.
  intros [He|(nxt' & es' & (d1 & q1 & Hd1 & _ & Hr1 & _) & H2)] (d & q & Hd & Ht & Hr & Hok).
  - exists d, q. by rewrite He.
  - assert (d1 = d) as -> by congruence. rewrite Hr in Hr1. injection Hr1 as H0 H1 H3 H4. by subst.
Qed.

Lemma node_page_eq m m' p ks cids : page_eq m m' p → node_page m p ks cids → node_page m' p ks cids.
Proof.
  intros [He|(nxt' & es' & (d1 & q1 & Hd1 & Ht1 & _) & _)] (d & Hd & Ht & Hr & Hok).
  - exists d. by rewrite He.
  - congruence.
Qed.

Lemma elem_pids_child c cs : c ∈ cs → ∀ p, p ∈ pids c → p ∈ mjoin (pids <$> cs).
Proof. intros Hc p Hp. apply list_elem_of_join. exists (pids c). split; [done|]. apply list_elem_of_fmap. eauto. Qed.

Lemma tree_frame m m' h lo hi nxt t :
  (∀ p, p ∈ pids t → page_eq m m' p) → tree_ok m h lo hi nxt t → tree_ok m' h lo hi nxt t.
Proof.
  revert lo hi nxt t. induction h as [|h IH]; intros lo hi nxt [pid es|pid ks cs] Hp; cbn [tree_ok pids] in *; try done.
  - intros (Hl & ? & ?). split_and!; try done. eapply leaf_page_eq; [|done]. apply Hp. set_solver.
  - intros [Hn Hf]. split; [eapply node_page_eq; [|done]; apply Hp; by left|].
    eapply forest_mono; [|exact Hf]. intros lo1 hi1 nxt1 c Hc. apply IH. intros p Hpc. apply Hp. right.
    by eapply elem_pids_child.
Qed.

Lemma tree_pid m h lo hi nxt t : tree_ok m h lo hi nxt t → tpid t ∈ pids t ∧ is_Some (m !! tpid t).
Proof.
  destruct h, t as [pid es|pid ks cs]; cbn [tree_ok pids tpid]; try done.
  - intros ((d & _ & Hd & _) & _). split; [set_solver|eauto].
  - intros [(d & Hd & _) _]. split; [set_solver|eauto].
Qed.

Lemma forest_elem P lo hi nxt ks cs c :
  forest P lo hi nxt ks cs → c ∈ cs → ∃ lo' hi' nxt', P lo' hi' nxt' c.
Proof.
  revert lo cs. induction ks as [|k ks IH]; intros lo cs.
  - destruct cs as [|c0 [|? ?]]; simpl; try done. intros HP ->%list_elem_of_singleton. eauto.
  - destruct cs as [|c0 cs]; simpl; [done|]. intros (_ & HP & Hf) [->|Hc]%elem_of_cons; eauto.
Qed.

Lemma tree_pids m h lo hi nxt t p : tree_ok m h lo hi nxt t → p ∈ pids t → is_Some (m !! p).
Proof.
  revert lo hi nxt t. induction h as [|h IH]; intros lo hi nxt [pid es|pid ks cs] Hok; cbn [tree_ok pids] in *; try done.
  - intros ->%list_elem_of_singleton. by apply (tree_pid m 0 lo hi nxt (TLeaf pid es)).
  - intros [->|Hp]%elem_of_cons.
    + by apply (tree_pid m (S h) lo hi nxt (TNode pid ks cs)).
    + apply list_elem_of_join in Hp as (l & Hp & (c & -> & Hc)%list_elem_of_fmap).
      destruct Hok as [_ Hf]. destruct (forest_elem _ _ _ _ _ _ c Hf Hc) as (? & ? & ? & HP). by eapply IH.
Qed.

(** ** Zippers *)

Record frame := mkFrame {
  f_pid : Z; f_ksL : list K; f_csL : list tree; f_ksR : list K; f_csR : list tree;
}.

Definition fill (f : frame) (t : tree) : tree := TNode (f_pid f) (f_ksL f ++ f_ksR f) (f_csL f ++ t :: f_csR f).
Definition plug (fs : list frame) (t : tree) : tree := foldl (λ t f, fill f t) t fs.
Definition path_of (fs : list frame) : list (Z * nat) := (λ f, (f_pid f, length (f_csL f))) <$> fs.

Fixpoint zpre (fs : list frame) : list (K * (Z * Z)) :=
  match fs with [] => [] | f :: fs => zpre fs ++ mjoin (kvs <$> f_csL f) end.
Fixpoint zpost (fs : list frame) : list (K * (Z * Z)) :=
  match fs with [] => [] | f :: fs => mjoin (kvs <$> f_csR f) ++ zpost fs end.
Definition frame_pids (f : frame) : list Z :=
  f_pid f :: mjoin (pids <$> f_csL f) ++ mjoin (pids <$> f_csR f).
Definition zpids (fs : list frame) : list Z := mjoin (frame_pids <$> fs).

(** The frames [fs] surround a hole of height [h], whose page is [hp] and leftmost leaf
    [fp], and which is bounded by [lo], [hi] and followed by [nxt]. *)
Fixpoint zip_ok m (h : nat) (fs : list frame) (hp fp : Z) (lo hi : option K) (nxt : Z) : Prop :=
  match fs with
  | [] => lo = None ∧ hi = None ∧ nxt = 0
  | f :: fs =>
      ∃ lo0 hi0 nxt0,
        length (f_csL f) = length (f_ksL f) ∧ length (f_csR f) = length (f_ksR f) ∧
        node_page m (f_pid f) (f_ksL f ++ f_ksR f) ((tpid <$> f_csL f) ++ hp :: (tpid <$> f_csR f)) ∧
        lctx (tree_ok m h) lo0 (f_ksL f) (f_csL f) fp lo ∧
        rctx (tree_ok m h) hi0 nxt0 (f_ksR f) (f_csR f) hi nxt ∧
        bounds_lt lo hi ∧
        zip_ok m (S h) fs (f_pid f) (first_of (f_csL f) fp) lo0 hi0 nxt0
  end.

Lemma first_pid_fill f t : first_pid (fill f t) = first_of (f_csL f) (first_pid t).
Proof. unfold fill. cbn [first_pid]. by destruct (f_csL f). Qed.

Lemma zip_bounds m h fs hp fp lo hi nxt : zip_ok m h fs hp fp lo hi nxt → bounds_lt lo hi.
Proof. destruct fs; cbn [zip_ok]; [by intros (-> & _)|]. by intros (? & ? & ? & ? & ? & ? & ? & ? & ? & _). Qed.

(** Filling the nearest frame. *)
Lemma zip_fill m h f fs lo hi nxt t :
  zip_ok m h (f :: fs) (tpid t) (first_pid t) lo hi nxt → tree_ok m h lo hi nxt t →
  ∃ lo0 hi0 nxt0, tree_ok m (S h) lo0 hi0 nxt0 (fill f t) ∧
    zip_ok m (S h) fs (tpid (fill f t)) (first_pid (fill f t)) lo0 hi0 nxt0.
Proof.
  cbn [zip_ok]. intros (lo0 & hi0 & nxt0 & HlL & HlR & Hn & Hl & Hr & Hb & Hz) Ht. exists lo0, hi0, nxt0.
  rewrite first_pid_fill. split; [|done]. cbn [tree_ok fill]. split.
  - rewrite fmap_app, fmap_cons. done.
  - apply (proj2 (forest_hole (tree_ok m h) lo0 hi0 nxt0 _ _ _ _ t HlL HlR)). by exists lo, hi, nxt.
Qed.

Lemma zip_plug m h fs lo hi nxt t :
  zip_ok m h fs (tpid t) (first_pid t) lo hi nxt → tree_ok m h lo hi nxt t →
  tree_ok m (length fs + h) None None 0 (plug fs t).
Proof.
  revert h lo hi nxt t. induction fs as [|f fs IH]; intros h lo hi nxt t Hz Ht.
  - destruct Hz as (-> & -> & ->). done.
  - destruct (zip_fill _ _ _ _ _ _ _ _ Hz Ht) as (lo0 & hi0 & nxt0 & Ht' & Hz').
    specialize (IH _ _ _ _ _ Hz' Ht'). cbn [length plug foldl]. replace (S (length fs) + h)%nat with (length fs + S h)%nat by lia.
    exact IH.
Qed.

Lemma kvs_fill f t : kvs (fill f t) = mjoin (kvs <$> f_csL f) ++ kvs t ++ mjoin (kvs <$> f_csR f).
Proof. unfold fill. cbn [kvs]. rewrite fmap_app, fmap_cons, join_app. done. Qed.

Lemma kvs_plug fs t : kvs (plug fs t) = zpre fs ++ kvs t ++ zpost fs.
Proof.
  revert t. induction fs as [|f fs IH]; intros t; cbn [zpre zpost]; [simpl; by rewrite app_nil_r|].
  change (plug (f :: fs) t) with (plug fs (fill f t)). rewrite IH, kvs_fill. by rewrite <- !app_assoc.
Qed.

Lemma pids_fill f t : pids (fill f t) ≡ₚ frame_pids f ++ pids t.
Proof.
  unfold fill, frame_pids. cbn [pids app]. rewrite fmap_app, fmap_cons, join_app. cbn [mjoin list_join].
  constructor. rewrite <- app_assoc. apply Permutation_app_head, Permutation_app_comm.
Qed.

Lemma pids_plug fs t : pids (plug fs t) ≡ₚ zpids fs ++ pids t.
Proof.
  revert t. induction fs as [|f fs IH]; intros t; [done|].
  change (plug (f :: fs) t) with (plug fs (fill f t)). rewrite IH, pids_fill.
  change (zpids (f :: fs)) with (frame_pids f ++ zpids fs). rewrite !app_assoc. apply Permutation_app_tail, Permutation_app_comm.
Qed.

(** Everything before the hole is below its lower bound, everything after it at or
    above its upper bound. *)
Lemma zip_kvs m h fs hp fp lo hi nxt :
  zip_ok m h fs hp fp lo hi nxt →
  Forall (λ e, ∃ l, lo = Some l ∧ klt e.1 l) (zpre fs) ∧ Forall (λ e, ∃ l, hi = Some l ∧ kle l e.1) (zpost fs).
Proof.
  revert h hp fp lo hi nxt. induction fs as [|f fs IH]; intros h hp fp lo hi nxt; cbn [zip_ok zpre zpost].
  { split; constructor. }
  intros (lo0 & hi0 & nxt0 & HlL & HlR & _ & Hl & Hr & Hb & Hz). destruct (IH _ _ _ _ _ _ Hz) as [H1 H2].
  destruct (lctx_le _ _ _ _ _ _ Hl) as [Hle _].
  split; apply Forall_app; split; [|by eapply lctx_kvs|by eapply rctx_kvs|].
  - eapply Forall_impl; [exact H1|]. intros e (l & -> & He). destruct lo as [l'|]; [|done]. exists l'.
    split; [done|]. simpl in Hle. by eapply klt_le_trans.
  - eapply Forall_impl; [exact H2|]. intros e (l & -> & He).
    destruct (f_ksR f) as [|k ksR], (f_csR f) as [|c csR]; cbn [rctx] in Hr; try done.
    + destruct Hr as [-> _]. eauto.
    + destruct Hr as (-> & _ & Hk & _). exists k. split; [done|]. simpl in Hk. apply klt_le.
      by eapply klt_le_trans.
Qed.

Lemma zip_frame m m' h fs hp fp lo hi nxt :
  (∀ p, p ∈ zpids fs → page_eq m m' p) → zip_ok m h fs hp fp lo hi nxt → zip_ok m' h fs hp fp lo hi nxt.
Proof.
  revert h hp fp lo hi nxt. induction fs as [|f fs IH]; intros h hp fp lo hi nxt Hp; [done|].
  assert (Hf : ∀ p, p ∈ frame_pids f → page_eq m m' p).
  { intros p Hpf. apply Hp. change (zpids (f :: fs)) with (frame_pids f ++ zpids fs). apply elem_of_app. by left. }
  cbn [zip_ok]. intros (lo0 & hi0 & nxt0 & HlL & HlR & Hn & Hl & Hr & Hb & Hz). exists lo0, hi0, nxt0.
  split_and!; try done.
  - eapply node_page_eq; [|done]. apply Hf. by left.
  - eapply lctx_mono; [|exact Hl]. intros lo1 hi1 nxt1 c Hc. apply tree_frame. intros p Hpc. apply Hf. right.
    apply elem_of_app. left. by eapply elem_pids_child.
  - eapply rctx_mono; [|exact Hr]. intros lo1 hi1 nxt1 c Hc. apply tree_frame. intros p Hpc. apply Hf. right.
    apply elem_of_app. right. by eapply elem_pids_child.
  - apply IH; [|done]. intros p Hpz. apply Hp. change (zpids (f :: fs)) with (frame_pids f ++ zpids fs). apply elem_of_app. by right.
Qed.

(** Moving the hole from a node to its child number [i]. *)
Lemma zip_down m h fs lo hi nxt pid ks cs i :
  zip_ok m (S h) fs pid (first_pid (TNode pid ks cs)) lo hi nxt → tree_ok m (S h) lo hi nxt (TNode pid ks cs) →
  (i ≤ length ks)%nat →
  ∃ f c lo' hi' nxt', fill f c = TNode pid ks cs ∧ length (f_csL f) = i ∧ f_ksL f = take i ks ∧ f_ksR f = drop i ks ∧
    cs !! i = Some c ∧ tree_ok m h lo' hi' nxt' c ∧ zip_ok m h (f :: fs) (tpid c) (first_pid c) lo' hi' nxt' ∧
    (∀ key, above lo key → below hi key → Forall (λ k, kle k key) (take i ks) → Forall (λ k, klt key k) (drop i ks) →
       above lo' key ∧ below hi' key).
Proof.
  intros Hz [Hn Hf] Hi. pose proof (forest_length _ _ _ _ _ _ Hf) as Hlen.
  destruct (lookup_lt_is_Some_2 cs i ltac:(lia)) as [c Hc].
  set (f := mkFrame pid (take i ks) (take i cs) (drop i ks) (drop (S i) cs)).
  assert (Hcs : cs = f_csL f ++ c :: f_csR f) by (symmetry; by apply take_drop_middle).
  assert (Hks : ks = f_ksL f ++ f_ksR f) by (symmetry; apply take_drop).
  assert (HlL : length (f_csL f) = length (f_ksL f)) by (simpl; rewrite !length_take; lia).
  assert (HlR : length (f_csR f) = length (f_ksR f)) by (simpl; rewrite !length_drop; lia).
  rewrite Hks, Hcs in Hf. pose proof (zip_bounds _ _ _ _ _ _ _ _ Hz) as Hlt.
  destruct (proj1 (forest_hole (tree_ok m h) lo hi nxt _ _ _ _ c HlL HlR) (conj Hf Hlt))
    as (lo' & hi' & nxt' & Hl & Hr & Hb & Ht).
  exists f, c, lo', hi', nxt'. split_and!; try done.
  - unfold fill. by rewrite <- Hks, <- Hcs.
  - simpl. rewrite length_take. lia.
  - cbn [zip_ok]. exists lo, hi, nxt. split_and!; try done.
    + rewrite <- Hks. rewrite Hcs, fmap_app, fmap_cons in Hn. exact Hn.
    + cbn [first_pid] in Hz. assert (first_of (f_csL f) (first_pid c) = match cs with [] => 0 | c0 :: _ => first_pid c0 end)
        as -> by (rewrite Hcs; by destruct (f_csL f)). exact Hz.
  - change (take i ks) with (f_ksL f). change (drop i ks) with (f_ksR f).
    intros key Ha Hbk Hk1 Hk2. split.
    + clear -Hl Ha Hk1. revert lo Ha Hl. generalize (f_csL f). induction (f_ksL f) as [|k l IH]; intros cl lo Ha Hl;
        destruct cl; cbn [lctx] in Hl; try done; [by subst|]. destruct Hl as (_ & _ & Hl).
      apply Forall_cons in Hk1 as [Hk Hk1]. by eapply (IH Hk1 _ (Some k)).
    + destruct (f_ksR f) as [|k l], (f_csR f); cbn [rctx] in Hr; try done.
      * by destruct Hr as [-> _].
      * destruct Hr as (-> & _). by apply Forall_cons in Hk2 as [? _].
Qed.
End shape.

Arguments tree K : clear implicits.
Arguments frame K : clear implicits.
