(* ===== verification/BTreeInsert.v ===== *)
(** * Search and insertion in the B+Tree

    [bt_rep t kv]: the index file of [t] stores a well-formed tree whose entries, in
    key order, are [kv].  [search] answers from [kv] and [insert] adds to it, through
    leaf splits, internal splits and growth of the root. *)

From S2P Require Import Prelude RustStd Page PageManager BTreeNode BTree BTreeShape.

Local Open Scope Z_scope.

Section nodes.
Context {K : Type} {HK : Key K} {HL : KeyLaws K}.
Context (cfg : Config K).

Lemma zip_fst {A} (ks : list K) (cids : list A) : (length ks ≤ length cids)%nat → (zip ks cids).*1 = ks.
Proof. apply fst_zip. Qed.

Lemma sorted_zip {A} (ks : list K) (cids : list A) :
  StronglySorted klt ks → (length ks ≤ length cids)%nat → bt_sorted (zip ks cids).
Proof.
  intros Hs. revert cids. induction Hs as [|k ks Hs IH Hall]; intros cids Hl; [constructor|].
  destruct cids as [|c cids]; simpl in *; [lia|].
  constructor; [apply IH; lia|]. rewrite <- (zip_fst ks cids) in Hall by lia. rewrite Forall_fmap in Hall. exact Hall.
Qed.

Lemma get_child_at_node pid (ks : list K) cids i c :
  length cids = S (length ks) → cids !! i = Some c → get_child_at (node_of cfg pid ks cids) i = c.
Proof.
  intros Hl Hc. unfold get_child_at, node_of. cbn [in_entries right_child].
  destruct (zip ks cids !! i) as [[k c']|] eqn:E.
  - apply lookup_zip_Some in E as [_ E]. simpl. congruence.
  - assert (i = length ks) as ->.
    { apply lookup_ge_None in E. rewrite length_zip in E. apply lookup_lt_Some in Hc. lia. }
    rewrite last_lookup, Hl. simpl. by rewrite Hc.
Qed.

Lemma find_child_index_node pid (ks : list K) cids key :
  StronglySorted klt ks → length cids = S (length ks) →
  let i := find_child_index (node_of cfg pid ks cids) key in
  (i ≤ length ks)%nat ∧ Forall (λ k, kle k key) (take i ks) ∧ Forall (λ k, klt key k) (drop i ks).
Proof.
  intros Hs Hl i. destruct (key_partition_spec key (zip ks cids)) as (Hp & H1 & H2); [apply sorted_zip; [done|lia]|].
  unfold i, find_child_index. cbn [in_entries node_of]. set (p := partition_point _ _) in *.
  rewrite length_zip in Hp. split; [lia|]. assert (Hz : (zip ks cids).*1 = ks) by (apply zip_fst; lia).
  rewrite <- (f_equal (take p) Hz), <- (f_equal (drop p) Hz), <- fmap_take, <- fmap_drop, !Forall_fmap. done.
Qed.

(** [insert_entry] puts the new child right of the one that was split. *)
Lemma insert_entry_node pid ksL ksR cidsL hp cidsR k c :
  length cidsL = length ksL → length cidsR = length ksR → StronglySorted klt (ksL ++ ksR) →
  Forall (λ k', klt k' k) ksL → Forall (λ k', klt k k') ksR →
  Z.of_nat (length (ksL ++ ksR)) < u16_max →
  internal_insert_entry k c (node_of cfg pid (ksL ++ ksR) (cidsL ++ hp :: cidsR)) =
    Ok (node_of cfg pid (ksL ++ k :: ksR) (cidsL ++ hp :: c :: cidsR)).
Proof.
  intros HlL HlR Hs HltL HltR Hlen. set (es := zip (ksL ++ ksR) (cidsL ++ hp :: cidsR)).
  assert (Hes : es = zip ksL cidsL ++ zip ksR (hp :: cidsR)) by (apply zip_with_app; lia).
  assert (Hsorted : bt_sorted es) by (apply sorted_zip; [done|rewrite !length_app; simpl; lia]).
  assert (Hpos : unwrap_or_else_id (binary_search_by (λ e, cmp e.1 k) es) = length ksL).
  { pose proof (key_search_spec k es Hsorted) as Hk. destruct (binary_search_by _ es) as [i|p].
    - destruct Hk as (v & Hi & _). exfalso. apply (f_equal (fmap fst)) in Hi. rewrite <- list_lookup_fmap in Hi.
      unfold es in Hi. rewrite zip_fst in Hi by (rewrite !length_app; simpl; lia). simpl in Hi.
      apply list_elem_of_lookup_2 in Hi. rewrite Forall_forall in HltL. rewrite Forall_forall in HltR.
      apply elem_of_app in Hi as [Hi|Hi]; [apply HltL in Hi|apply HltR in Hi]; by apply klt_irrefl in Hi.
    - destruct Hk as (Hp & _ & Ht & Hd & _). simpl. apply Nat.le_antisymm; apply Nat.nlt_ge; intros Hlt.
      + (* an entry of [take p] from [ksR] *)
        destruct (lookup_lt_is_Some_2 (ksL ++ ksR) (length ksL)) as [k' Hk'].
        { unfold es in Hp. rewrite length_zip in Hp. lia. }
        rewrite Forall_forall in Ht. rewrite Forall_forall in HltR.
        assert (Hx : (take p es).*1 !! length ksL = Some k').
        { rewrite fmap_take. rewrite lookup_take_lt by done. unfold es.
          by rewrite zip_fst by (rewrite !length_app; simpl; lia). }
        rewrite list_lookup_fmap in Hx. apply fmap_Some in Hx as (e & He & ->).
        apply list_elem_of_lookup_2 in He. apply Ht in He.
        rewrite lookup_app_r in Hk' by lia. apply list_elem_of_lookup_2 in Hk'. apply HltR in Hk'.
        apply (klt_irrefl k). by transitivity e.1.
      + destruct (lookup_lt_is_Some_2 ksL p Hlt) as [k' Hk']. rewrite Forall_forall in Hd. rewrite Forall_forall in HltL.
        assert (Hx : (drop p es).*1 !! 0%nat = Some k').
        { rewrite fmap_drop, lookup_drop, Nat.add_0_r. unfold es.
          rewrite zip_fst by (rewrite !length_app; simpl; lia). by rewrite lookup_app_l by done. }
        rewrite list_lookup_fmap in Hx. apply fmap_Some in Hx as (e & He & ->).
        apply list_elem_of_lookup_2 in He. apply Hd in He. apply list_elem_of_lookup_2 in Hk'. apply HltL in Hk'.
        apply (klt_irrefl k). by transitivity e.1. }
  unfold internal_insert_entry, u16_inc. cbn [node_of in_entries num_keys in_page_id right_child in_config].
  fold es. rewrite Hpos. rewrite decide_True by done. cbn [mbind outcome_bind].
  assert (Hz : length (zip ksL cidsL) = length ksL) by (rewrite length_zip; lia).
  unfold node_of. replace (Z.of_nat (length (ksL ++ k :: ksR))) with (Z.of_nat (length (ksL ++ ksR)) + 1)
    by (rewrite !length_app; simpl; lia).
  rewrite Hes. rewrite lookup_app_r by lia. rewrite Hz, Nat.sub_diag.
  rewrite (zip_with_app pair ksL (k :: ksR) cidsL (hp :: c :: cidsR)) by lia.
  destruct ksR as [|k' ksR], cidsR as [|c' cidsR]; try done; cbn [zip_with lookup list_lookup].
  - rewrite !last_app. cbn. rewrite !app_nil_r. done.
  - unfold vec_insert. rewrite take_app_length' by done. rewrite drop_app_length' by done.
    rewrite insert_app_r_alt by lia. rewrite Hz. replace (length ksL + 1 - length ksL)%nat with 1%nat by lia.
    cbn. rewrite !last_app. cbn. done.
Qed.
End nodes.

(** ** Pages read and written *)

Section pages.
Context {K : Type} {HK : Key K} {HL : KeyLaws K} {C : Crc32} {S : Type} {PS : PageStore C S}.
Context (cfg : Config K).
Implicit Types (bt : BTree K S) (m : gmap Z bytes).

Lemma with_store_id bt : with_store (bt_pm bt) bt = bt.
Proof. by destruct bt. Qed.

Lemma pm_call_ok {A} (c : ST S GrumpyError A) bt r s :
  c (bt_pm bt) = (r, s) → pm_call c bt = (r, with_store s bt).
Proof. intros Hc. unfold pm_call, st_zoom. by rewrite Hc. Qed.

Lemma load_leaf_ok bt m pid nxt es :
  ps_rep (bt_pm bt) m → leaf_page cfg m pid nxt es →
  ∃ prev, let n := mkLeaf pid (Z.of_nat (length es)) nxt prev cfg es in
    load_node pid bt = (Ok (Leaf n), bt) ∧ load_leaf pid bt = (Ok n, bt) ∧ leaf_ok n.
Proof.
  intros Hrep (d & prev & Hd & Ht & Hr & Hok). exists prev.
  pose proof (pm_call_ok (ps_read pid) bt _ _ (ps_read_ok _ _ _ _ Hrep Hd)) as Hrd. rewrite with_store_id in Hrd.
  split_and!; [| |done].
  - unfold load_node. erewrite st_step by exact Hrd. rewrite Ht. unfold mbind, st_bind, st_lift. by rewrite Hr.
  - unfold load_leaf. erewrite st_step by exact Hrd. unfold st_lift. by rewrite Hr.
Qed.

Lemma load_internal_ok bt m pid ks cids :
  ps_rep (bt_pm bt) m → node_page cfg m pid ks cids →
  load_node pid bt = (Ok (Internal (node_of cfg pid ks cids)), bt) ∧
  load_internal pid bt = (Ok (node_of cfg pid ks cids), bt) ∧ internal_ok (node_of cfg pid ks cids).
Proof.
  intros Hrep (d & Hd & Ht & Hr & Hok).
  pose proof (pm_call_ok (ps_read pid) bt _ _ (ps_read_ok _ _ _ _ Hrep Hd)) as Hrd. rewrite with_store_id in Hrd.
  split_and!; [| |done].
  - unfold load_node. erewrite st_step by exact Hrd. rewrite Ht. unfold mbind, st_bind, st_lift. by rewrite Hr.
  - unfold load_internal. erewrite st_step by exact Hrd. unfold st_lift. by rewrite Hr.
Qed.

Lemma save_leaf_ok bt m n d0 :
  ps_rep (bt_pm bt) m → leaf_ok n → m !! lf_page_id n = Some d0 →
  ∃ s d, save_leaf n bt = (Ok tt, with_store s bt) ∧ ps_rep s (<[lf_page_id n := d]> m) ∧
    ps_room s = ps_room (bt_pm bt) ∧
    ∀ m', m' !! lf_page_id n = Some d → leaf_page (lf_config n) m' (lf_page_id n) (next_leaf n) (lf_entries n).
Proof.
  intros Hrep Hok Hd0. destruct (leaf_roundtrip n Hok) as (d & Hto & Hlen & Hrd).
  destruct (ps_write_ok _ m (lf_page_id n) d0 d Hrep Hd0 Hlen) as (s & Hw & Hrep' & Hroom).
  exists s, (stamp_checksum d). split_and!; [|done|done|].
  - unfold save_leaf. erewrite st_step by (unfold st_lift; rewrite Hto; reflexivity). by apply pm_call_ok.
  - intros m' Hm'. destruct (Hrd _ (same_page_stamp d Hlen)) as [Ht Hf].
    destruct n as [pid ne nx pv c es]. cbn [lf_page_id lf_config next_leaf lf_entries] in *.
    pose proof (lo_count _ Hok) as Hc. cbn [num_entries lf_entries] in Hc. subst ne.
    exists (stamp_checksum d), pv. done.
Qed.

Lemma save_internal_ok bt m n d0 :
  ps_rep (bt_pm bt) m → internal_ok n → m !! in_page_id n = Some d0 →
  ∃ s d, save_internal n bt = (Ok tt, with_store s bt) ∧ ps_rep s (<[in_page_id n := d]> m) ∧
    ps_room s = ps_room (bt_pm bt) ∧
    ∀ m' ks cids, m' !! in_page_id n = Some d → n = node_of cfg (in_page_id n) ks cids →
      node_page cfg m' (in_page_id n) ks cids.
Proof.
  intros Hrep Hok Hd0. destruct (internal_roundtrip n Hok) as (d & Hto & Hlen & Hrd).
  destruct (ps_write_ok _ m (in_page_id n) d0 d Hrep Hd0 Hlen) as (s & Hw & Hrep' & Hroom).
  exists s, (stamp_checksum d). split_and!; [|done|done|].
  - unfold save_internal. erewrite st_step by (unfold st_lift; rewrite Hto; reflexivity). by apply pm_call_ok.
  - intros m' ks cids Hm' Hn. destruct (Hrd _ (same_page_stamp d Hlen)) as [Ht Hf].
    exists (stamp_checksum d). rewrite <- Hn. done.
Qed.

Lemma alloc_page_ok bt m :
  ps_rep (bt_pm bt) m → 0 < ps_room (bt_pm bt) →
  ∃ pid s d, alloc_page bt = (Ok pid, with_store s bt) ∧ m !! pid = None ∧ is_u32 pid ∧ pid ≠ 0 ∧
    ps_rep s (<[pid := d]> m) ∧ ps_room s = ps_room (bt_pm bt) - 1.
Proof.
  intros Hrep Hroom. destruct (ps_alloc_ok _ m Hrep Hroom) as (pid & s & d & Ha & Hne & Hm & Hrep' & Hr).
  destruct (ps_owned s _ pid d Hrep' (lookup_insert_eq _ _ _)) as [Hp _].
  assert (is_u32 pid) by (unfold is_u32; lia).
  exists pid, s, d. split; [by apply pm_call_ok|]. done.
Qed.

(** A leaf written back with another back link is the same leaf for every reader. *)
Lemma relink_ok bt m nxt prev nxt' es :
  ps_rep (bt_pm bt) m → (nxt ≠ 0 → leaf_page cfg m nxt nxt' es) → is_u32 prev →
  ∃ s m', relink nxt prev bt = (Ok tt, with_store s bt) ∧ ps_rep s m' ∧ ps_room s = ps_room (bt_pm bt) ∧
    (∀ p, page_eq cfg m m' p) ∧ (∀ p, p ≠ nxt → m' !! p = m !! p).
Proof.
  intros Hrep Hl Hprev. unfold relink. case_decide as H0.
  { exists (bt_pm bt), m. rewrite with_store_id. split_and!; try done. intros p. apply page_eq_refl. }
  destruct (load_leaf_ok bt m nxt nxt' es Hrep (Hl H0)) as (pv & _ & Hload & Hok).
  destruct (Hl H0) as (d0 & _ & Hd0 & _).
  erewrite st_step by exact Hload. cbn [lf_page_id num_entries next_leaf lf_config lf_entries].
  destruct (save_leaf_ok bt m (mkLeaf nxt (Z.of_nat (length es)) nxt' prev cfg es) d0 Hrep) as (s & d & Hs & Hrep' & Hroom & Hpg).
  { destruct Hok. by constructor. } { done. }
  exists s, (<[nxt := d]> m). split_and!; try done.
  - intros p. destruct (decide (p = nxt)) as [->|Hne].
    + right. exists nxt', es. split; [auto|]. apply Hpg. apply lookup_insert_eq.
    + left. by apply lookup_insert_ne.
  - intros p Hp. by apply lookup_insert_ne.
Qed.

(** ** Descending to a leaf *)

Lemma tree_node_keys m h lo hi nxt pid ks cs :
  tree_ok cfg m (Datatypes.S h) lo hi nxt (TNode pid ks cs) →
  StronglySorted klt ks ∧ length (tpid <$> cs) = Datatypes.S (length ks).
Proof.
  intros [_ Hf]. rewrite length_fmap. split; [by eapply forest_keys|by eapply forest_length].
Qed.

Lemma descend bt m h fs lo hi nxt t key fuel :
  ps_rep (bt_pm bt) m → zip_ok cfg m h fs (tpid t) (first_pid t) lo hi nxt → tree_ok cfg m h lo hi nxt t →
  above lo key → below hi key → (h < fuel)%nat →
  ∃ fs' pid es prev nxt' lo' hi', let n := mkLeaf pid (Z.of_nat (length es)) nxt' prev cfg es in
    find_leaf_with_path_from fuel key (tpid t) (path_of fs) bt = Some (Ok (n, path_of fs'), bt) ∧
    find_leaf_from fuel key (tpid t) bt = Some (Ok n, bt) ∧ leaf_ok n ∧
    zip_ok cfg m 0 fs' pid pid lo' hi' nxt' ∧ tree_ok cfg m 0 lo' hi' nxt' (TLeaf pid es) ∧
    plug fs' (TLeaf pid es) = plug fs t ∧ above lo' key ∧ below hi' key ∧ length fs' = (length fs + h)%nat.
Proof.
  intros Hrep. revert fs lo hi nxt t fuel.
  induction h as [|h IH]; intros fs lo hi nxt t fuel Hz Ht Ha Hb Hf; (destruct fuel as [|fuel]; [lia|]).
  - destruct t as [pid es|]; [|done]. destruct (proj1 Ht) as (d & pv & _).
    destruct (load_leaf_ok bt m pid nxt es Hrep (proj1 Ht)) as (prev & Hload & _ & Hok).
    exists fs, pid, es, prev, nxt, lo, hi. cbn [tpid first_pid find_leaf_with_path_from find_leaf_from] in *.
    split_and!; try done; try lia; by erewrite ft_lift_step by exact Hload.
  - destruct t as [|pid ks cs]; [done|]. destruct (tree_node_keys _ _ _ _ _ _ _ _ Ht) as [Hs Hlen].
    destruct (load_internal_ok bt m pid ks _ Hrep (proj1 Ht)) as (Hload & _ & _).
    destruct (find_child_index_node cfg pid ks (tpid <$> cs) key Hs Hlen) as (Hi & Hk1 & Hk2).
    set (i := find_child_index _ key) in *.
    destruct (zip_down cfg m h fs lo hi nxt pid ks cs i Hz Ht Hi) as
      (f & c & lo' & hi' & nxt' & Hfill & Hfl & _ & _ & Hc & Htc & Hzc & Hbnd).
    destruct (Hbnd key Ha Hb Hk1 Hk2) as [Ha' Hb'].
    assert (Hchild : get_child_at (node_of cfg pid ks (tpid <$> cs)) i = tpid c).
    { apply get_child_at_node; [done|]. by rewrite list_lookup_fmap, Hc. }
    destruct (IH (f :: fs) lo' hi' nxt' c fuel Hzc Htc Ha' Hb' ltac:(lia)) as
      (fs' & lp & es & prev & nxt1 & lo1 & hi1 & H1 & H2 & H3 & H4 & H5 & H6 & H7 & H8 & H9).
    exists fs', lp, es, prev, nxt1, lo1, hi1. cbn [tpid].
    split; [|split; [|split_and!; try done]].
    + cbn [find_leaf_with_path_from]. erewrite ft_lift_step by exact Hload. cbv zeta beta iota.
      change (find_child_index (node_of cfg pid ks (tpid <$> cs)) key) with i. rewrite Hchild.
      assert (Hpid : f_pid f = pid) by (by injection Hfill).
      replace ((pid, i) :: path_of fs) with (path_of (f :: fs)) by (cbn; by rewrite Hpid, Hfl). exact H1.
    + cbn [find_leaf_from]. erewrite ft_lift_step by exact Hload. cbv beta iota.
      change (find_child (node_of cfg pid ks (tpid <$> cs)) key)
        with (get_child_at (node_of cfg pid ks (tpid <$> cs)) i). rewrite Hchild. exact H2.
    + rewrite H6. cbn. by rewrite Hfill.
    + rewrite H9. cbn. lia.
Qed.

(** ** The entries around a leaf *)

Lemma zip_split m fs hp fp lo hi nxt h key :
  zip_ok cfg m h fs hp fp lo hi nxt → above lo key → below hi key →
  Forall (λ e, klt e.1 key) (zpre fs) ∧ Forall (λ e, klt key e.1) (zpost fs).
Proof.
  intros Hz Ha Hb. destruct (zip_kvs _ _ _ _ _ _ _ _ _ Hz) as [H1 H2]. split.
  - eapply Forall_impl; [exact H1|]. intros e (l & -> & He). by eapply klt_le_trans.
  - eapply Forall_impl; [exact H2|]. intros e (l & -> & He). by eapply klt_le_trans.
Qed.
End pages.

Section assoc.
Context {K V : Type} `{Ord K}.
Implicit Types (pre mid post : list (K * V)).

Lemma bt_get_mid k pre mid post :
  Forall (λ e, klt e.1 k) pre → Forall (λ e, klt k e.1) post → bt_get k (pre ++ mid ++ post) = bt_get k mid.
Proof.
  intros Hpre Hpost. induction Hpre as [|[k' v'] pre Hk' _ IH]; simpl.
  - induction mid as [|[k' v'] mid IH]; simpl; [by apply bt_get_below|]. by destruct (cmp k k').
  - simpl in Hk'. apply cmp_Lt_Gt in Hk'. by rewrite Hk'.
Qed.

Lemma bt_insert_mid k v pre mid post :
  Forall (λ e, klt e.1 k) pre → Forall (λ e, klt k e.1) post →
  bt_insert k v (pre ++ mid ++ post) = pre ++ bt_insert k v mid ++ post.
Proof.
  intros Hpre Hpost. induction Hpre as [|[k' v'] pre Hk' _ IH]; simpl.
  - induction mid as [|[k' v'] mid IH]; simpl.
    + pose proof (bt_insert_between k v [] post) as Hi. apply Hi; [constructor|done].
    + destruct (cmp k k'); [done|done|]. simpl. by rewrite IH.
  - simpl in Hk'. apply cmp_Lt_Gt in Hk'. by rewrite Hk', IH.
Qed.

Lemma bt_remove_mid k pre mid post :
  Forall (λ e, klt e.1 k) pre → Forall (λ e, klt k e.1) post →
  bt_remove k (pre ++ mid ++ post) = pre ++ bt_remove k mid ++ post.
Proof.
  intros Hpre Hpost. induction Hpre as [|[k' v'] pre Hk' _ IH]; simpl.
  - induction mid as [|[k' v'] mid IH]; simpl.
    + destruct Hpost as [|[k2 v2] post Hk2 _]; [done|]. simpl in *. unfold klt in Hk2. by rewrite Hk2.
    + destruct (cmp k k'); [done|done|]. simpl. by rewrite IH.
  - simpl in Hk'. apply cmp_Lt_Gt in Hk'. by rewrite Hk', IH.
Qed.
End assoc.

(** ** Splitting *)

Section split.
Context {K : Type} {HK : Key K} {HL : KeyLaws K} {C : Crc32} {S : Type} {PS : PageStore C S}.
Context (cfg : Config K).
Implicit Types (bt : BTree K S) (m : gmap Z bytes) (ks : list K).

Lemma internal_ok_node pid ks cids :
  is_u32 pid → config_ok cfg → Forall (key_fits cfg) ks → Forall is_u32 cids →
  (length ks ≤ internal_max_keys cfg)%nat → length cids = Datatypes.S (length ks) → internal_ok (node_of cfg pid ks cids).
Proof.
  intros Hp Hc Hk Hcid Hmax Hlen.
  assert (Hz : length (zip ks cids) = length ks) by (rewrite length_zip; lia).
  constructor; cbn [node_of in_page_id num_keys right_child in_config in_entries]; try done.
  - by rewrite Hz.
  - destruct (last cids) as [c|] eqn:E; [|unfold is_u32; simpl; lia].
    rewrite Forall_forall in Hcid. apply Hcid. apply last_Some in E as [l ->]. set_solver.
  - apply Forall_lookup. intros i [k c] [H1 H2]%lookup_zip_Some. split.
    + rewrite Forall_lookup in Hk. by eapply Hk.
    + rewrite Forall_lookup in Hcid. by eapply Hcid.
  - lia.
Qed.

Lemma node_page_fits m pid ks cids :
  node_page cfg m pid ks cids → length cids = Datatypes.S (length ks) →
  Forall (key_fits cfg) ks ∧ (length ks ≤ internal_max_keys cfg)%nat ∧ config_ok cfg ∧ is_u32 pid.
Proof.
  intros (d & _ & _ & _ & [Hp _ _ Hc He Hf]) Hlen.
  cbn [node_of in_page_id in_config in_entries] in *. rewrite length_zip in Hf. split_and!; try done; [|lia].
  rewrite <- (zip_fst ks cids) by lia. rewrite Forall_fmap. eapply Forall_impl; [exact He|]. by intros e [? _].
Qed.

Lemma take_zip {A B} n (l : list A) (k : list B) : take n (zip l k) = zip (take n l) (take n k).
Proof. revert l k. induction n as [|n IH]; intros [|x l] [|y k]; simpl; try done. by rewrite IH. Qed.

Lemma drop_zip {A B} n (l : list A) (k : list B) : drop n (zip l k) = zip (drop n l) (drop n k).
Proof.
  revert l k. induction n as [|n IH]; intros [|x l] [|y k]; simpl; try done.
  by rewrite zip_with_nil_r.
Qed.

Lemma zip_take_extra {A B} (l : list A) (k : list B) n :
  (length l ≤ n)%nat → zip l (take n k) = zip l k.
Proof. revert l k. induction n as [|n IH]; intros [|x l] [|y k] Hl; simpl in *; try done; [lia|]. by rewrite IH by lia. Qed.

Lemma last_take_S {A} (l : list A) n x : l !! n = Some x → last (take (Datatypes.S n) l) = Some x.
Proof. intros Hx. rewrite (take_S_r _ _ _ Hx). apply last_snoc. Qed.

Lemma last_drop {A} (l : list A) n : (n < length l)%nat → last (drop n l) = last l.
Proof.
  intros Hn. rewrite <- (take_drop n l) at 2. rewrite last_app.
  destruct (last (drop n l)) eqn:E; [done|]. apply last_None in E. apply (f_equal length) in E.
  rewrite length_drop in E. simpl in E. lia.
Qed.

Lemma len_u16_small {A} (l : list A) : (length l ≤ 2000)%nat → len_u16 l = Z.of_nat (length l).
Proof. intros Hl. unfold len_u16. apply Z.mod_small. lia. Qed.

(** [split_internal] in terms of keys and children. *)
Lemma split_internal_ok bt m pid ks cids :
  ps_rep (bt_pm bt) m → 0 < ps_room (bt_pm bt) → length cids = Datatypes.S (length ks) → (0 < length ks ≤ 2000)%nat →
  let mid := (length ks / 2)%nat in
  ∃ k rid s d, ks !! mid = Some k ∧
    split_internal (node_of cfg pid ks cids) bt =
      (Ok (node_of cfg pid (take mid ks) (take (Datatypes.S mid) cids),
           node_of cfg rid (drop (Datatypes.S mid) ks) (drop (Datatypes.S mid) cids), k), with_store s bt) ∧
    m !! rid = None ∧ is_u32 rid ∧ rid ≠ 0 ∧ ps_rep s (<[rid := d]> m) ∧ ps_room s = ps_room (bt_pm bt) - 1.
Proof.
  intros Hrep Hroom Hlen Hks mid. assert (Hz : length (zip ks cids) = length ks) by (rewrite length_zip; lia).
  assert (Hmid : (mid < length ks)%nat) by (apply Nat.div_lt; lia).
  destruct (lookup_lt_is_Some_2 ks mid Hmid) as [k Hk].
  destruct (lookup_lt_is_Some_2 cids mid ltac:(lia)) as [c Hc].
  destruct (alloc_page_ok bt m Hrep Hroom) as (rid & s & d & Ha & Hm & Hu & Hne & Hrep' & Hr).
  exists k, rid, s, d. split; [done|]. split; [|done].
  unfold split_internal. cbn [node_of in_entries in_page_id right_child in_config]. rewrite Hz. fold mid.
  assert ((zip ks cids) !! mid = Some (k, c)) as -> by (by apply lookup_zip_Some).
  erewrite st_step by exact Ha. rewrite take_zip, drop_zip. unfold mret, st_ret. do 2 f_equal.
  replace (mid + 1)%nat with (Datatypes.S mid) by lia.
  assert (Ht : length (zip (take mid ks) (take mid cids)) = length (take mid ks)).
  { rewrite length_zip, !length_take. lia. }
  assert (Hd : length (zip (drop (Datatypes.S mid) ks) (drop (Datatypes.S mid) cids)) = length (drop (Datatypes.S mid) ks)).
  { rewrite length_zip, !length_drop. lia. }
  unfold node_of. rewrite (last_take_S _ _ _ Hc), last_drop by lia. cbn [default].
  rewrite !len_u16_small, Ht, Hd by (rewrite ?Ht, ?Hd, ?length_take, ?length_drop; lia).
  assert (zip (take mid ks) (take mid cids) = zip (take mid ks) (take (Datatypes.S mid) cids)) as ->.
  { rewrite (zip_take_extra (take mid ks) cids (Datatypes.S mid)) by (rewrite length_take; lia).
    apply zip_take_extra. rewrite length_take. lia. }
  done.
Qed.

(** A child replaced by two, with the key that separates them. *)
Lemma forest_split_child (P : option K → option K → Z → tree K → Prop) lo0 hi0 nxt0 ksL csL ksR csR lo hi nxt k c1 c2 :
  length csL = length ksL → length csR = length ksR →
  lctx P lo0 ksL csL (first_pid c1) lo → rctx P hi0 nxt0 ksR csR hi nxt →
  P lo (Some k) (first_pid c2) c1 → P (Some k) hi nxt c2 → between lo hi k →
  forest P lo0 hi0 nxt0 (ksL ++ k :: ksR) (csL ++ c1 :: c2 :: csR).
Proof.
  intros HlL HlR Hl Hr H1 H2 [Hk1 Hk2].
  assert (Hl' : lctx P lo0 (ksL ++ [k]) (csL ++ [c1]) (first_pid c2) (Some k)) by (by eapply lctx_snoc).
  pose proof (proj2 (forest_hole P lo0 hi0 nxt0 (ksL ++ [k]) ksR (csL ++ [c1]) csR c2
    ltac:(rewrite !length_app; simpl; lia) HlR)) as Hf.
  rewrite <- !app_assoc in Hf. apply Hf. exists (Some k), hi, nxt. split_and!; try done.
Qed.

Lemma tpid_plug fs (a b : tree K) : tpid a = tpid b → tpid (plug fs a) = tpid (plug fs b).
Proof.
  revert a b. induction fs as [|f fs IH]; intros a b Hab; [done|]. exact (IH (fill f a) (fill f b) eq_refl).
Qed.

(** The file holds exactly the pages of tree [t] and the meta page, and the metadata in
    memory describes [t], with entry count [n]. *)
Record bt_holds bt m (h : nat) (t : tree K) (n : Z) : Prop := {
  bh_store : ps_rep (bt_pm bt) m;
  bh_tree : tree_ok cfg m h None None 0 t;
  bh_nodup : NoDup (meta_page_id bt :: pids t);
  bh_owned : ∀ p, is_Some (m !! p) ↔ p ∈ meta_page_id bt :: pids t;
  bh_meta : bt_meta bt = mkMeta (tpid t) (Z.of_nat h + 1) n cfg;
}.

(** The same with a hole in the tree, filled by the trees [ts]. *)
Record zip_holds bt m (fs : list (frame K)) (ts : list (tree K)) : Prop := {
  zh_store : ps_rep (bt_pm bt) m;
  zh_nodup : NoDup (meta_page_id bt :: zpids fs ++ mjoin (pids <$> ts));
  zh_owned : ∀ p, is_Some (m !! p) ↔ p ∈ meta_page_id bt :: zpids fs ++ mjoin (pids <$> ts);
}.

Lemma zip_holds_plug bt m h fs lo hi nxt t n :
  zip_holds bt m fs [t] → zip_ok cfg m h fs (tpid t) (first_pid t) lo hi nxt → tree_ok cfg m h lo hi nxt t →
  bt_meta bt = mkMeta (tpid (plug fs t)) (Z.of_nat (length fs + h) + 1) n cfg →
  bt_holds bt m (length fs + h) (plug fs t) n.
Proof.
  intros [Hs Hnd Ho] Hz Ht Hm. pose proof (pids_plug fs t) as Hp.
  assert (Hj : mjoin (pids <$> [t]) = pids t) by (cbn; apply app_nil_r). rewrite Hj in *.
  constructor; try done.
  - by eapply zip_plug.
  - by rewrite Hp.
  - intros p. rewrite Ho. by rewrite Hp.
Qed.

Lemma owned_u32 bt m p : ps_rep (bt_pm bt) m → is_Some (m !! p) → is_u32 p.
Proof. intros Hr [d Hd]. destruct (ps_owned _ _ _ _ Hr Hd). unfold is_u32. lia. Qed.

Lemma mjoin_pids_app (l k : list (tree K)) : mjoin (pids <$> (l ++ k)) = mjoin (pids <$> l) ++ mjoin (pids <$> k).
Proof. by rewrite fmap_app, join_app. Qed.

(** The pages of the node that results from putting [ts] in the hole of frame [f]. *)
Lemma pids_frame_fill (f : frame K) fs ts :
  zpids (f :: fs) ++ mjoin (pids <$> ts) ≡ₚ
  zpids fs ++ f_pid f :: mjoin (pids <$> (f_csL f ++ ts ++ f_csR f)).
Proof.
  change (zpids (f :: fs)) with (frame_pids f ++ zpids fs). unfold frame_pids.
  rewrite !mjoin_pids_app. rewrite (Permutation_app_comm (_ ++ zpids fs)). solve_Permutation.
Qed.

(** Growing a new root over two trees. *)
Lemma grow_root_ok bt m h k (c1 c2 : tree K) n :
  zip_holds bt m [] [c1; c2] → tree_ok cfg m h None (Some k) (first_pid c2) c1 → tree_ok cfg m h (Some k) None 0 c2 →
  key_fits cfg k → config_ok cfg → 0 < ps_room (bt_pm bt) →
  bt_meta bt = mkMeta (tpid c1) (Z.of_nat h + 1) n cfg → Z.of_nat h + 1 < u32_max →
  ∃ bt' m' t, propagate_split [] k (tpid c2) bt = (Ok tt, bt') ∧ bt_holds bt' m' (Datatypes.S h) t n ∧
    kvs t = kvs c1 ++ kvs c2 ∧ meta_page_id bt' = meta_page_id bt ∧ m' !! meta_page_id bt = m !! meta_page_id bt.
Proof.
  intros [Hs Hnd Ho] H1 H2 Hk Hc Hroom Hm Hh.
  destruct (alloc_page_ok bt m Hs Hroom) as (rid & s & d & Ha & Hfresh & Hu & Hne & Hs1 & _).
  set (t := TNode rid [k] [c1; c2]).
  assert (Hrid : rid ∉ meta_page_id bt :: zpids (K:=K) [] ++ mjoin (pids <$> [c1; c2])).
  { intros Hin%Ho. rewrite Hfresh in Hin. by destruct Hin. }
  destruct (tree_pid _ _ _ _ _ _ _ H1) as [Hp1 Ho1]. destruct (tree_pid _ _ _ _ _ _ _ H2) as [Hp2 Ho2].
  pose proof (owned_u32 bt m _ Hs Ho1). pose proof (owned_u32 bt m _ Hs Ho2).
  assert (Hn : internal_ok (node_of cfg rid [k] [tpid c1; tpid c2])).
  { apply internal_ok_node; [done|done|by constructor| | |done].
    - constructor; [done|]. constructor; [done|constructor].
    - pose proof (internal_max_4 cfg Hc). simpl. lia. }
  destruct (save_internal_ok cfg (with_store s bt) (<[rid:=d]> m) (node_of cfg rid [k] [tpid c1; tpid c2]) d Hs1 Hn
    (lookup_insert_eq m rid d)) as (s2 & d2 & Hsave & Hs2 & _ & Hpage).
  cbn [in_page_id node_of] in Hs2, Hpage. rewrite insert_insert_eq in Hs2. set (m' := <[rid:=d2]> m) in *.
  exists (mkTree (meta_page_id bt) s2 (mkMeta rid (Z.of_nat h + 1 + 1) n cfg)), m', t.
  assert (Hkeep : ∀ p, p ≠ rid → page_eq cfg m m' p) by (intros p Hp; left; by apply lookup_insert_ne).
  split_and!; [| |by cbn; rewrite app_nil_r|done|].
  - cbn [propagate_split]. erewrite st_step by exact Ha. rewrite st_get_bind.
    cbn [bt_meta with_store]. rewrite Hm. cbn [config root_page_id height meta_entries].
    erewrite st_step by exact Hsave. rewrite decide_True by done. done.
  - constructor; cbn [bt_pm meta_page_id bt_meta]; try done.
    + cbn [tree_ok t]. split; [apply Hpage; [apply lookup_insert_eq|done]|].
      split_and!; try done; (eapply tree_frame; [|done]); intros p Hp; apply Hkeep; intros ->; apply Hrid; cbn; set_solver.
    + cbn [pids t]. apply NoDup_cons in Hnd as [Hx Hnd]. apply NoDup_cons. split.
      * cbn in *. set_solver.
      * constructor; [|done]. cbn in *. set_solver.
    + intros p. unfold m'. destruct (decide (p = rid)) as [->|Hpne].
      * rewrite lookup_insert_eq. cbn. split; [set_solver|eauto].
      * rewrite lookup_insert_ne by done. rewrite Ho. cbn [pids t]. cbn. set_solver.
    + f_equal. lia.
  - unfold m'. apply lookup_insert_ne. intros ->. apply Hrid. by left.
Qed.

Lemma forest_owned bt m h lo hi nxt ks cs :
  ps_rep (bt_pm bt) m → forest (tree_ok cfg m h) lo hi nxt ks cs → Forall is_u32 (tpid <$> cs).
Proof.
  intros Hs Hf. rewrite Forall_fmap. apply Forall_forall. intros c Hc. cbn.
  destruct (forest_elem _ _ _ _ _ _ c Hf Hc) as (lo' & hi' & nxt' & Ht).
  destruct (tree_pid _ _ _ _ _ _ _ Ht). by eapply owned_u32.
Qed.

(** Writing pages that belong to no child keeps the children. *)
Lemma forest_frame m m' h lo hi nxt ks cs :
  (∀ p, p ∈ mjoin (pids <$> cs) → page_eq cfg m m' p) →
  forest (tree_ok cfg m h) lo hi nxt ks cs → forest (tree_ok cfg m' h) lo hi nxt ks cs.
Proof.
  intros Hp. apply forest_mono. intros lo' hi' nxt' c Hc. apply tree_frame. intros p Hpc. apply Hp.
  by eapply elem_pids_child.
Qed.

(** The keys left and right of the hole, compared with a key inside its bounds. *)
Lemma frame_keys m h lo0 hi0 nxt0 ksL csL ksR csR fp lo hi nxt k :
  lctx (tree_ok cfg m h) lo0 ksL csL fp lo → rctx (tree_ok cfg m h) hi0 nxt0 ksR csR hi nxt → between lo hi k →
  Forall (λ k', klt k' k) ksL ∧ Forall (λ k', klt k k') ksR.
Proof.
  intros Hl Hr [Hk1 Hk2]. split.
  - destruct (lctx_le _ _ _ _ _ _ Hl) as [_ Hall]. destruct ksL as [|k0 ksL]; [constructor|].
    destruct lo as [l|].
    + eapply Forall_impl; [exact Hall|]. intros k' Hk'. simpl in *. by eapply kle_lt_trans.
    + exfalso. clear -Hl. destruct csL as [|c csL]; [done|]. destruct Hl as (_ & _ & Hl).
      destruct (lctx_le _ _ _ _ _ _ Hl) as [Hle _]. done.
  - destruct ksR as [|k0 ksR], csR as [|c csR]; cbn [rctx] in Hr; try done.
    destruct Hr as (-> & _ & _ & Hf). simpl in Hk2. constructor; [done|].
    destruct (forest_keys _ _ _ _ _ _ Hf) as [_ Hall]. eapply Forall_impl; [exact Hall|].
    intros k' [Hk' _]. simpl in Hk'. by transitivity k0.
Qed.

(** A node about to be written: its page is owned, its children are stored. *)
Record node_ready bt m (h : nat) (fs : list (frame K)) (pid : Z) ks (cs : list (tree K)) (lo hi : option K) (nxt : Z) : Prop := {
  nr_holds : zip_holds bt m fs [TNode pid ks cs];
  nr_zip : zip_ok cfg m (Datatypes.S h) fs pid (first_pid (TNode pid ks cs)) lo hi nxt;
  nr_forest : forest (tree_ok cfg m h) lo hi nxt ks cs;
  nr_fits : Forall (key_fits cfg) ks;
  nr_config : config_ok cfg;
}.

Lemma pids_node pid ks cs : mjoin (pids <$> [TNode (K:=K) pid ks cs]) = pid :: mjoin (pids <$> cs).
Proof. cbn. by rewrite app_nil_r. Qed.

Lemma node_ready_facts bt m h fs pid ks cs lo hi nxt :
  node_ready bt m h fs pid ks cs lo hi nxt →
  meta_page_id bt ≠ pid ∧ pid ∉ zpids fs ∧ pid ∉ mjoin (pids <$> cs) ∧ is_Some (m !! pid) ∧ is_u32 pid ∧
  Forall is_u32 (tpid <$> cs) ∧ length cs = Datatypes.S (length ks) ∧ NoDup (mjoin (pids <$> cs)) ∧
  (∀ p, p ∈ zpids fs → p ∉ mjoin (pids <$> cs)) ∧ meta_page_id bt ∉ zpids fs ++ mjoin (pids <$> cs) ∧ NoDup (zpids fs).
Proof.
  intros [[Hs Hnd Ho] _ Hf _ _]. rewrite pids_node in Hnd, Ho. assert (Hpid : is_Some (m !! pid)) by (apply Ho; set_solver).
  apply NoDup_cons in Hnd as [Hm Hnd]. apply NoDup_app in Hnd as (Hz & Hdis & Hc). apply NoDup_cons in Hc as [Hp Hc].
  split_and!; try done.
  - intros <-. set_solver.
  - intros Hin. apply (Hdis _ Hin). by left.
  - by eapply owned_u32.
  - by eapply forest_owned.
  - by eapply forest_length.
  - intros p Hpz Hpc. apply (Hdis _ Hpz). by right.
  - set_solver.
Qed.

(** Writing a node within its capacity. *)
Lemma save_node_ok bt m h fs pid ks cs lo hi nxt :
  node_ready bt m h fs pid ks cs lo hi nxt → (length ks ≤ internal_max_keys cfg)%nat →
  ∃ s m', save_internal (node_of cfg pid ks (tpid <$> cs)) bt = (Ok tt, with_store s bt) ∧
    ps_room s = ps_room (bt_pm bt) ∧ (∀ p, p ≠ pid → m' !! p = m !! p) ∧
    zip_holds (with_store s bt) m' fs [TNode pid ks cs] ∧
    zip_ok cfg m' (Datatypes.S h) fs pid (first_pid (TNode pid ks cs)) lo hi nxt ∧
    tree_ok cfg m' (Datatypes.S h) lo hi nxt (TNode pid ks cs).
Proof.
  intros Hr Hmax. destruct (node_ready_facts _ _ _ _ _ _ _ _ _ _ Hr) as
    (Hmp & Hpz & Hpc & [d0 Hd0] & Hu & Hcu & Hlen & _).
  destruct Hr as [[Hs Hnd Ho] Hz Hf Hfit Hc].
  destruct (save_internal_ok cfg bt m (node_of cfg pid ks (tpid <$> cs)) d0 Hs) as (s & d & Hsave & Hs1 & Hroom & Hpage); [|done|].
  { apply internal_ok_node; try done. by rewrite length_fmap. }
  cbn [in_page_id node_of] in *. set (m' := <[pid:=d]> m) in *. exists s, m'.
  assert (Hkeep : ∀ p, p ≠ pid → m' !! p = m !! p) by (intros p Hp; by apply lookup_insert_ne).
  split_and!; try done.
  - constructor; cbn [bt_pm meta_page_id with_store]; try done. intros p. rewrite <- Ho.
    unfold m'. rewrite lookup_insert_is_Some. split; [intros [->|[_ ?]]; [eauto|done]|].
    intros Hp. destruct (decide (pid = p)); [by left|by right].
  - eapply zip_frame; [|exact Hz]. intros p Hp. left. apply Hkeep. by intros ->.
  - split; [apply Hpage; [apply lookup_insert_eq|done]|].
    eapply forest_frame; [|exact Hf]. intros p Hp. left. apply Hkeep. by intros ->.
Qed.

(** A tree in the hole replaced by two, one of them on the fresh page [rid]. *)
Lemma zip_holds_split bt m m' s fs (X A B : tree K) rid :
  zip_holds bt m fs [X] → m !! rid = None → pids A ++ pids B ≡ₚ rid :: pids X → ps_rep s m' →
  (∀ p, is_Some (m' !! p) ↔ p = rid ∨ is_Some (m !! p)) →
  zip_holds (with_store s bt) m' fs [A; B].
Proof.
  intros [_ Hnd Ho] Hfresh Hp Hs' Ho'.
  assert (Hperm : meta_page_id bt :: zpids fs ++ mjoin (pids <$> [A; B]) ≡ₚ
      rid :: meta_page_id bt :: zpids fs ++ mjoin (pids <$> [X])).
  { cbn. rewrite !app_nil_r, Hp. solve_Permutation. }
  assert (Hrid : rid ∉ meta_page_id bt :: zpids fs ++ mjoin (pids <$> [X])).
  { intros Hin%Ho. rewrite Hfresh in Hin. by destruct Hin. }
  constructor; cbn [bt_pm meta_page_id with_store]; [done| |].
  - rewrite Hperm. by constructor.
  - intros p. rewrite Ho', Ho, Hperm, (elem_of_cons _ p rid). done.
Qed.

(** The body of [propagate_split] when the parent is overfull. *)
Definition split_and_save (full : InternalNode K) : ST (BTree K S) GrumpyError (Z * K) :=
  '(left_int, right_int, new_promoted) ← split_internal full;
  _ ← save_internal left_int;
  _ ← save_internal right_int;
  mret (in_page_id right_int, new_promoted).

Lemma split_node_ok bt m h fs pid ks cs lo hi nxt :
  node_ready bt m h fs pid ks cs lo hi nxt →
  (1 < length ks ≤ internal_max_keys cfg + 1)%nat → 0 < ps_room (bt_pm bt) →
  ∃ s m' k A B, split_and_save (node_of cfg pid ks (tpid <$> cs)) bt = (Ok (tpid B, k), with_store s bt) ∧
    ps_room s = ps_room (bt_pm bt) - 1 ∧ m' !! meta_page_id bt = m !! meta_page_id bt ∧
    tpid A = pid ∧ first_pid A = first_pid (TNode pid ks cs) ∧ kvs A ++ kvs B = kvs (TNode pid ks cs) ∧
    zip_holds (with_store s bt) m' fs [A; B] ∧ zip_ok cfg m' (Datatypes.S h) fs pid (first_pid A) lo hi nxt ∧
    tree_ok cfg m' (Datatypes.S h) lo (Some k) (first_pid B) A ∧ tree_ok cfg m' (Datatypes.S h) (Some k) hi nxt B ∧
    between lo hi k ∧ key_fits cfg k.
Proof.
  intros Hr Hks Hroom. destruct (node_ready_facts _ _ _ _ _ _ _ _ _ _ Hr) as
    (Hmp & Hpz & Hpc & [d0 Hd0] & Hu & Hcu & Hlen & Hndc & Hzc & Hmz & Hndz).
  destruct Hr as [Hzh Hz Hf Hfit Hc]. pose proof Hzh as [Hs _ Ho]. rewrite pids_node in Ho.
  pose proof (internal_max_4 cfg Hc) as Hmax.
  destruct (split_internal_ok bt m pid ks (tpid <$> cs) Hs Hroom ltac:(by rewrite length_fmap) ltac:(lia))
    as (k & rid & s1 & d1 & Hk & Hsplit & Hfresh & Hru & Hrne & Hs1 & Hr1).
  set (mid := (length ks / 2)%nat) in *. assert (Hmid : (0 < mid < length ks)%nat).
  { split; [apply Nat.div_str_pos; lia|apply Nat.div_lt; lia]. }
  assert (Hrid : rid ∉ meta_page_id bt :: zpids fs ++ pid :: mjoin (pids <$> cs)).
  { intros Hin%Ho. rewrite Hfresh in Hin. by destruct Hin. }
  rewrite <- fmap_take, <- fmap_drop in Hsplit.
  set (csA := take (Datatypes.S mid) cs) in *. set (csB := drop (Datatypes.S mid) cs) in *.
  set (ksA := take mid ks) in *. set (ksB := drop (Datatypes.S mid) ks) in *.
  assert (Eks : ks = ksA ++ k :: ksB) by (symmetry; by apply take_drop_middle).
  assert (Ecs : cs = csA ++ csB) by (symmetry; apply take_drop).
  assert (HlA : length csA = Datatypes.S (length ksA)) by (unfold csA, ksA; rewrite !length_take; lia).
  assert (HlB : length csB = Datatypes.S (length ksB)) by (unfold csB, ksB; rewrite !length_drop; lia).
  rewrite Ecs, fmap_app in Hcu. apply Forall_app in Hcu as [HuA HuB].
  pose proof Hfit as Hfit'. rewrite Eks in Hfit'. apply Forall_app in Hfit' as [HfA [Hfk HfB]%Forall_cons].
  assert (HokA : internal_ok (node_of cfg pid ksA (tpid <$> csA))).
  { apply internal_ok_node; try done; [|by rewrite length_fmap]. unfold ksA. rewrite length_take. lia. }
  assert (HokB : internal_ok (node_of cfg rid ksB (tpid <$> csB))).
  { apply internal_ok_node; try done; [|by rewrite length_fmap]. unfold ksB. rewrite length_drop. lia. }
  assert (Hpr : pid ≠ rid) by (intros ->; apply Hrid; set_solver).
  destruct (save_internal_ok cfg (with_store s1 bt) _ _ d0 Hs1 HokA) as (s2 & d2 & Hsave2 & Hs2 & Hr2 & HpA).
  { cbn [in_page_id node_of]. by rewrite lookup_insert_ne. }
  destruct (save_internal_ok cfg (with_store s2 (with_store s1 bt)) _ _ d1 Hs2 HokB) as (s3 & d3 & Hsave3 & Hs3 & Hr3 & HpB).
  { cbn [in_page_id node_of]. rewrite lookup_insert_ne by done. apply lookup_insert_eq. }
  cbn [in_page_id node_of bt_pm with_store] in *. set (m' := <[rid:=d3]> (<[pid:=d2]> (<[rid:=d1]> m))) in *.
  assert (Hkeep : ∀ p, p ≠ pid → p ≠ rid → m' !! p = m !! p).
  { intros p H1 H2. unfold m'. by rewrite !lookup_insert_ne by done. }
  assert (Hf' : forest (tree_ok cfg m' h) lo hi nxt (ksA ++ k :: ksB) (csA ++ csB)).
  { rewrite <- Eks, <- Ecs. eapply forest_frame; [|exact Hf]. intros p Hp. left. apply Hkeep; intros ->; [done|].
    apply Hrid. set_solver. }
  apply forest_app in Hf' as (HfA' & Hkb & HfB'); [|done].
  exists s3, m', k, (TNode pid ksA csA), (TNode rid ksB csB).
  assert (HneB : csB ≠ []) by (intros E; by rewrite E in HlB).
  split; [|split; [|split_and!; try done]].
  - unfold split_and_save. erewrite st_step by exact Hsplit. cbv beta iota. erewrite st_step by exact Hsave2.
    erewrite st_step by exact Hsave3. done.
  - lia.
  - apply Hkeep; [done|]. intros E. apply Hrid. rewrite <- E. by left.
  - rewrite Ecs. cbn [first_pid]. by destruct csA.
  - cbn [kvs]. by rewrite Ecs, fmap_app, join_app.
  - eapply zip_holds_split; [exact Hzh|exact Hfresh| |done|].
    + cbn [pids]. rewrite Ecs, mjoin_pids_app. solve_Permutation.
    + intros p. unfold m'. rewrite !lookup_insert_is_Some'. destruct (decide (p = pid)) as [->|]; [|naive_solver].
      rewrite Hd0. naive_solver.
  - assert (first_pid (TNode pid ksA csA) = first_pid (TNode pid ks cs)) as -> by (rewrite Ecs; cbn [first_pid]; by destruct csA).
    eapply zip_frame; [|exact Hz]. intros p Hp. left. apply Hkeep; intros ->; [done|]. apply Hrid. set_solver.
  - split; [apply HpA; [|done]|].
    + unfold m'. rewrite lookup_insert_ne by done. apply lookup_insert_eq.
    + destruct csB; [done|]. exact HfA'.
  - split; [apply HpB; [apply lookup_insert_eq|done]|done].
Qed.

(** What the parent of a split child becomes, before it is written. *)
Lemma parent_ready bt m h f fs lo hi nxt k c1 c2 :
  zip_holds bt m (f :: fs) [c1; c2] → zip_ok cfg m h (f :: fs) (tpid c1) (first_pid c1) lo hi nxt →
  tree_ok cfg m h lo (Some k) (first_pid c2) c1 → tree_ok cfg m h (Some k) hi nxt c2 → between lo hi k →
  key_fits cfg k → config_ok cfg →
  let ks := f_ksL f ++ k :: f_ksR f in
  let cs := f_csL f ++ c1 :: c2 :: f_csR f in
  ∃ lo0 hi0 nxt0, node_ready bt m h fs (f_pid f) ks cs lo0 hi0 nxt0 ∧ (length ks ≤ internal_max_keys cfg + 1)%nat ∧
    (parent ← load_internal (f_pid f); st_lift (internal_insert_entry k (tpid c2) parent)) bt =
      (Ok (node_of cfg (f_pid f) ks (tpid <$> cs)), bt).
Proof.
  intros [Hs Hnd Ho] (lo0 & hi0 & nxt0 & HlL & HlR & Hn & Hl & Hr & Hb & Hz) H1 H2 Hk Hfit Hc ks cs.
  assert (Hf : forest (tree_ok cfg m h) lo0 hi0 nxt0 ks cs) by (by eapply forest_split_child).
  destruct (forest_keys _ _ _ _ _ _ Hf) as [Hsorted _].
  destruct (load_internal_ok cfg bt m _ _ _ Hs Hn) as (_ & Hload & Hok).
  destruct (node_page_fits m _ _ _ Hn) as (Hkf & Hkl & _ & Hpu).
  { rewrite !length_app. simpl. rewrite !length_fmap. lia. }
  destruct (frame_keys m h _ _ _ _ _ _ _ _ _ _ _ k Hl Hr Hk) as [HltL HltR].
  pose proof (internal_max_4 cfg Hc) as Hmax. exists lo0, hi0, nxt0. split_and!.
  - assert (Hperm : meta_page_id bt :: zpids (f :: fs) ++ mjoin (pids <$> [c1; c2]) ≡ₚ
        meta_page_id bt :: zpids fs ++ mjoin (pids <$> [TNode (f_pid f) ks cs])).
    { constructor. rewrite pids_frame_fill, pids_node. done. }
    constructor; [|replace (first_pid _) with (first_of (f_csL f) (first_pid c1)); [done|]|done| |done].
    + constructor; [done|by rewrite <- Hperm|]. intros p. rewrite <- Hperm. apply Ho.
    + unfold cs. cbn [first_pid]. by destruct (f_csL f).
    + apply Forall_app in Hkf as [? ?]. apply Forall_app. split; [done|]. by constructor.
  - unfold ks. rewrite length_app in *. simpl. lia.
  - erewrite st_step by exact Hload. unfold st_lift. f_equal. unfold ks, cs. rewrite fmap_app, !fmap_cons.
    apply insert_entry_node; rewrite ?length_fmap; try done.
    + unfold ks in Hsorted. apply StronglySorted_app in Hsorted as (Hs12 & HsL & HsR).
      apply StronglySorted_inv in HsR as [HsR _]. apply StronglySorted_app. split; [|done].
      intros a b Ha Hb'. apply Hs12; [done|by right].
    + unfold u16_max. lia.
Qed.

Lemma propagate_split_ok bt m h fs lo hi nxt k c1 c2 n :
  zip_holds bt m fs [c1; c2] → zip_ok cfg m h fs (tpid c1) (first_pid c1) lo hi nxt →
  tree_ok cfg m h lo (Some k) (first_pid c2) c1 → tree_ok cfg m h (Some k) hi nxt c2 → between lo hi k →
  key_fits cfg k → config_ok cfg → Z.of_nat (length fs) < ps_room (bt_pm bt) →
  bt_meta bt = mkMeta (tpid (plug fs c1)) (Z.of_nat (length fs + h) + 1) n cfg →
  Z.of_nat (length fs + h) + 1 < u32_max →
  ∃ bt' m' h' t, propagate_split (path_of fs) k (tpid c2) bt = (Ok tt, bt') ∧ bt_holds bt' m' h' t n ∧
    kvs t = zpre fs ++ (kvs c1 ++ kvs c2) ++ zpost fs ∧ meta_page_id bt' = meta_page_id bt ∧
    m' !! meta_page_id bt = m !! meta_page_id bt ∧ (h' ≤ length fs + h + 1)%nat.
Proof.
  revert bt m h lo hi nxt k c1 c2.
  induction fs as [|f fs IH]; intros bt m h lo hi nxt k c1 c2 Hzh Hz H1 H2 Hk Hfit Hc Hroom Hm Hh.
  { destruct Hz as (-> & -> & ->). destruct (grow_root_ok bt m h k c1 c2 n) as (bt' & m' & t & Hrun & Hb & Hkv & Hmp & Hmm);
      try done. exists bt', m', (Datatypes.S h), t. cbn [zpre zpost]. rewrite app_nil_r. split_and!; try done. simpl. lia. }
  destruct (parent_ready bt m h f fs lo hi nxt k c1 c2) as (lo0 & hi0 & nxt0 & Hready & Hlen & Hload); try done.
  set (ks := f_ksL f ++ k :: f_ksR f) in *. set (cs := f_csL f ++ c1 :: c2 :: f_csR f) in *.
  assert (Hroot : tpid (plug (f :: fs) c1) = tpid (plug fs (TNode (f_pid f) ks cs)))
    by exact (tpid_plug fs (fill f c1) (TNode (f_pid f) ks cs) eq_refl).
  assert (Hkvs : zpre (f :: fs) ++ (kvs c1 ++ kvs c2) ++ zpost (f :: fs) =
    zpre fs ++ kvs (TNode (f_pid f) ks cs) ++ zpost fs).
  { cbn [zpre zpost kvs]. unfold cs. rewrite fmap_app, join_app, !fmap_cons. cbn [mjoin list_join]. by rewrite <- !app_assoc. }
  assert (Hstep : propagate_split (path_of (f :: fs)) k (tpid c2) bt =
    (if negb (internal_is_overfull (node_of cfg (f_pid f) ks (tpid <$> cs)))
     then save_internal (node_of cfg (f_pid f) ks (tpid <$> cs)) bt
     else (p ← split_and_save (node_of cfg (f_pid f) ks (tpid <$> cs)); propagate_split (path_of fs) p.2 p.1) bt)).
  { cbn [path_of fmap list_fmap propagate_split]. apply st_bind_Ok in Hload as (n0 & bt0 & Hl & Hi).
    unfold st_lift in Hi. injection Hi as Hi ->. erewrite st_step by exact Hl.
    erewrite st_step by (unfold st_lift; rewrite Hi; reflexivity). destruct (negb _); [done|].
    unfold split_and_save, mbind, st_bind. destruct (split_internal _ bt) as [[[[a b] q]|e|] bt1]; [|done|done].
    destruct (save_internal a bt1) as [[]bt2]; try done. by destruct (save_internal b bt2) as [[]bt3]. }
  rewrite Hstep. cbn [length] in Hroom, Hm, Hh. rewrite Hroot in Hm.
  destruct (internal_is_overfull _) eqn:Hover; cbn [negb]; unfold internal_is_overfull in Hover;
    cbn [in_config num_keys node_of] in Hover.
  - apply bool_decide_eq_true_1 in Hover. pose proof (internal_max_4 cfg Hc).
    destruct (split_node_ok bt m h fs _ ks cs lo0 hi0 nxt0 Hready ltac:(lia) ltac:(lia)) as
      (s & m' & k' & A & B & Hrun & Hroom' & Hmeta & HA & HfA & HkAB & Hzh' & Hz' & HtA & HtB & Hk' & Hfit').
    rewrite <- HA in Hz'.
    destruct (IH (with_store s bt) m' (Datatypes.S h) lo0 hi0 nxt0 k' A B) as (bt' & m2 & h' & t & Hrun' & Hb & Hkv & Hmp & Hmm & Hh');
      try done; [cbn; lia| |cbn; lia|].
    { cbn [bt_meta with_store]. rewrite Hm. f_equal; [by apply tpid_plug|lia]. }
    exists bt', m2, h', t. erewrite st_step by exact Hrun. split_and!; try done.
    + by rewrite Hkv, HkAB, Hkvs.
    + cbn [meta_page_id with_store] in Hmm. by rewrite Hmm.
    + cbn [length]. lia.
  - apply bool_decide_eq_false_1 in Hover.
    destruct (save_node_ok bt m h fs _ ks cs lo0 hi0 nxt0 Hready ltac:(lia)) as (s & m' & Hrun & _ & Hkeep & Hzh' & Hz' & Ht').
    exists (with_store s bt), m', (length fs + Datatypes.S h)%nat, (plug fs (TNode (f_pid f) ks cs)). split_and!; try done.
    + eapply zip_holds_plug; try done. cbn [bt_meta with_store]. rewrite Hm. f_equal. lia.
    + by rewrite kvs_plug, Hkvs.
    + apply Hkeep. by destruct (node_ready_facts _ _ _ _ _ _ _ _ _ _ Hready).
    + cbn [length]. lia.
Qed.
End split.
