(* ===== verification/BTreeSpec.v ===== *)
(** * The B+Tree implements an ordered map

    [bt_rep t kv]: the index file of [t] holds a well-formed tree whose entries in key
    order are [kv], owns no other page, and its meta page describes it. *)

From S2P Require Import Prelude RustStd Page PageManager BTreeNode BTree BTreeShape BTreeInsert.

Local Open Scope Z_scope.

Section spec.
Context {K : Type} {HK : Key K} {HL : KeyLaws K} {C : Crc32} {S : Type} {PS : PageStore C S}.
Implicit Types (bt : BTree K S) (m : gmap Z bytes) (cfg : Config K).

Definition entry_fits cfg (key : K) (ptr : Z * Z) : Prop :=
  key_fits cfg key ∧ is_u32 ptr.1 ∧ is_u16 ptr.2.

(** ** The meta page *)

Lemma meta_page_ok pid (md : BTreeMeta K) :
  is_u32 pid → is_u32 (root_page_id md) → is_u32 (height md) → is_u64 (meta_entries md) → config_ok (config md) →
  length (meta_page pid md) = PAGE_SIZE ∧ read_meta_from_buf (stamp_checksum (meta_page pid md)) = md.
Proof.
  intros Hp Hr Hh Hn Hc. destruct md as [r h n cfg]. cbn [root_page_id height meta_entries config] in *.
  pose proof PAGE_SIZE_Z as HP. destruct (fanout_ok cfg Hc) as (Hm & _). pose proof (config_bytes_length cfg) as Hcb.
  assert (Hw : length (write_to (header_new pid BTreeInternal) zero_page) = PAGE_SIZE)
    by apply length_write_to, length_zero_page.
  set (b0 := write_to (header_new pid BTreeInternal) zero_page) in *.
  set (b1 := copy_at 32 (to_le 4 r) b0). assert (H1 : length b1 = PAGE_SIZE) by (unfold b1; rewrite length_copy_at; rewrite ?length_to_le; lia).
  set (b2 := copy_at 36 (to_le 4 h) b1). assert (H2 : length b2 = PAGE_SIZE) by (unfold b2; rewrite length_copy_at; rewrite ?length_to_le; lia).
  set (b3 := copy_at 40 (to_le 8 n) b2). assert (H3 : length b3 = PAGE_SIZE) by (unfold b3; rewrite length_copy_at; rewrite ?length_to_le; lia).
  assert (Hpage : meta_page pid (mkMeta r h n cfg) = copy_at 48 (config_bytes cfg) b3).
  { unfold meta_page, write_meta_to_buf. cbn [root_page_id height meta_entries config]. fold b0 b1 b2 b3.
    apply write_tree_config_eq. lia. }
  rewrite Hpage. set (b4 := copy_at 48 (config_bytes cfg) b3).
  assert (H4 : length b4 = PAGE_SIZE) by (unfold b4; rewrite length_copy_at; lia).
  split; [done|]. unfold read_meta_from_buf. rewrite read_tree_config_eq.
  rewrite !le_at_stamp, slice_stamp by (exact H4 || lia). f_equal.
  - unfold b4. rewrite le_at_copy_ne by (rewrite ?length_to_le; lia). unfold b3. rewrite le_at_copy_ne by (rewrite ?length_to_le; lia).
    unfold b2. rewrite le_at_copy_ne by (rewrite ?length_to_le; lia). apply le_at_copy_eq; [lia|done].
  - unfold b4. rewrite le_at_copy_ne by (rewrite ?length_to_le; lia). unfold b3. rewrite le_at_copy_ne by (rewrite ?length_to_le; lia).
    apply le_at_copy_eq; [lia|done].
  - unfold b4. rewrite le_at_copy_ne by (rewrite ?length_to_le; lia). apply le_at_copy_eq; [lia|done].
  - unfold b4. rewrite slice_copy_at_eq' by lia. by apply config_roundtrip.
Qed.

(** The in-memory metadata is what the meta page says. *)
Definition meta_stored bt m : Prop :=
  ∃ d, m !! meta_page_id bt = Some d ∧ read_meta_from_buf d = bt_meta bt.

Definition bt_rep bt (kv : list (K * (Z * Z))) : Prop :=
  ∃ m h t, let cfg := config (bt_meta bt) in
    bt_holds cfg bt m h t (Z.of_nat (length kv)) ∧ kv = kvs t ∧ meta_stored bt m ∧ config_ok cfg ∧
    Z.of_nat (length kv) ≤ u64_max.

(** Fuel that always suffices: one more than the height. *)
Definition enough (bt : BTree K S) (fuel : nat) : Prop := height (bt_meta bt) ≤ Z.of_nat fuel.

Lemma flush_meta_ok cfg bt m h t n :
  bt_holds cfg bt m h t n → config_ok cfg → Z.of_nat h + 1 ≤ u32_max → 0 ≤ n ≤ u64_max →
  ∃ s m', flush_meta bt = (Ok tt, with_store s bt) ∧ bt_holds cfg (with_store s bt) m' h t n ∧
    meta_stored (with_store s bt) m' ∧ ps_room s = ps_room (bt_pm bt).
Proof.
  intros [Hs Ht Hnd Ho Hm] Hc Hh Hn. destruct (proj2 (Ho (meta_page_id bt)) ltac:(by left)) as [d0 Hd0].
  assert (Hmu : is_u32 (meta_page_id bt)) by (eapply owned_u32; [exact Hs|eauto]).
  destruct (tree_pid _ _ _ _ _ _ _ Ht) as [_ Hto]. pose proof (owned_u32 bt m _ Hs Hto) as Htu.
  destruct (meta_page_ok (meta_page_id bt) (bt_meta bt)) as [Hlen Hread];
    [done|rewrite Hm; cbn [root_page_id height meta_entries config]; unfold is_u32, is_u64, u32_max, u64_max in *; try done; lia..|].
  destruct (ps_write_ok _ m (meta_page_id bt) d0 _ Hs Hd0 Hlen) as (s & Hw & Hs' & Hroom).
  exists s, (<[meta_page_id bt := stamp_checksum (meta_page (meta_page_id bt) (bt_meta bt))]> m).
  apply NoDup_cons in Hnd as [Hni Hnd]. split_and!; [| | |done].
  - unfold flush_meta. rewrite st_get_bind. by apply pm_call_ok.
  - constructor; cbn [bt_pm meta_page_id bt_meta with_store]; try done.
    + eapply tree_frame; [|exact Ht]. intros p Hp. left. apply lookup_insert_ne. by intros <-.
    + by constructor.
    + intros p. rewrite <- Ho, lookup_insert_is_Some. destruct (decide (meta_page_id bt = p)) as [<-|Hne].
      * split; [eauto|by left].
      * split; [intros [?|[_ ?]]; done|by right].
  - eexists. cbn [meta_page_id bt_meta with_store]. rewrite lookup_insert_eq. done.
Qed.

Lemma inc_entries_ok cfg bt m h t n :
  bt_holds cfg bt m h t n → n < u64_max →
  ∃ bt', inc_entries bt = (Ok tt, bt') ∧ bt_holds cfg bt' m h t (n + 1) ∧ meta_page_id bt' = meta_page_id bt ∧
    bt_pm bt' = bt_pm bt.
Proof.
  intros [Hs Ht Hnd Ho Hm] Hn. unfold inc_entries. rewrite st_get_bind, Hm. cbn [meta_entries root_page_id height config].
  rewrite decide_True by done. eexists. split; [reflexivity|]. split; [|done]. constructor; try done.
Qed.

(** ** Search *)

Lemma leaf_search_ok cfg pid nxt prev (es : list (K * (Z * Z))) key :
  bt_sorted es →
  let n := mkLeaf pid (Z.of_nat (length es)) nxt prev cfg es in
  match leaf_search n key with
  | Some i => ∃ v, es !! i = Some (key, v) ∧ bt_get key es = Some v
  | None => bt_get key es = None
  end.
Proof.
  intros Hs n. unfold leaf_search. cbn [lf_entries n]. pose proof (key_search_spec key es Hs) as Hk.
  destruct (binary_search_by _ es); [done|]. by destruct Hk as (_ & ? & _).
Qed.

(** What a descent from the root finds. *)
Lemma descend_root bt m h t n cfg key fuel :
  bt_holds cfg bt m h t n → enough bt fuel →
  ∃ fs pid es prev nxt lo hi, let l := mkLeaf pid (Z.of_nat (length es)) nxt prev cfg es in
    find_leaf_with_path fuel key bt = Some (Ok (l, path_of fs), bt) ∧ find_leaf fuel key bt = Some (Ok l, bt) ∧
    leaf_ok l ∧ zip_ok cfg m 0 fs pid pid lo hi nxt ∧ tree_ok cfg m 0 lo hi nxt (TLeaf pid es) ∧
    plug fs (TLeaf pid es) = t ∧ above lo key ∧ below hi key ∧ length fs = h ∧
    Forall (λ e, klt e.1 key) (zpre fs) ∧ Forall (λ e, klt key e.1) (zpost fs).
Proof.
  intros [Hs Ht Hnd Ho Hm] Hf. unfold enough in Hf. rewrite Hm in Hf. cbn [height] in Hf.
  destruct (descend cfg bt m h [] None None 0 t key fuel Hs) as
    (fs & pid & es & prev & nxt & lo & hi & H1 & H2 & H3 & H4 & H5 & H6 & H7 & H8 & H9); [done|done|done|done|lia|].
  destruct (zip_split cfg m fs pid pid lo hi nxt 0 key H4 H7 H8) as [Hpre Hpost].
  exists fs, pid, es, prev, nxt, lo, hi. split; [|split; [|split_and!; try done]].
  - unfold find_leaf_with_path. erewrite ft_lift_step by reflexivity. rewrite Hm. exact H1.
  - unfold find_leaf. erewrite ft_lift_step by reflexivity. rewrite Hm. exact H2.
Qed.

Lemma search_ok cfg bt m h t n key fuel :
  bt_holds cfg bt m h t n → enough bt fuel → search fuel key bt = Some (Ok (bt_get key (kvs t)), bt).
Proof.
  intros Hb Hf. destruct (descend_root bt m h t n cfg key fuel Hb Hf) as
    (fs & pid & es & prev & nxt & lo & hi & _ & H2 & _ & _ & (_ & Hsorted & _) & <- & _ & _ & _ & Hpre & Hpost).
  rewrite kvs_plug, bt_get_mid by done. cbn [kvs]. unfold search. erewrite ft_step by exact H2.
  pose proof (leaf_search_ok cfg pid nxt prev es key Hsorted) as Hl. cbv zeta in Hl.
  destruct (leaf_search _ key) as [i|]; [|by rewrite Hl]. destruct Hl as (v & Hi & ->). cbn [lf_entries]. by rewrite Hi.
Qed.

(** ** Insertion into a leaf *)

Lemma leaf_insert_ok cfg pid nxt prev (es : list (K * (Z * Z))) key ptr :
  bt_sorted es → bt_get key es = None → (length es ≤ 2000)%nat →
  leaf_insert_entry (key, ptr) (mkLeaf pid (Z.of_nat (length es)) nxt prev cfg es) =
    Ok (mkLeaf pid (Z.of_nat (length (bt_insert key ptr es))) nxt prev cfg (bt_insert key ptr es)) ∧
  length (bt_insert key ptr es) = Datatypes.S (length es).
Proof.
  intros Hs Hk Hl. pose proof (key_search_spec key es Hs) as Hsp. unfold leaf_insert_entry.
  cbn [lf_entries num_entries lf_page_id next_leaf prev_leaf lf_config fst].
  destruct (binary_search_by _ es) as [i|p]; [destruct Hsp as (v & _ & Hv); congruence|].
  destruct Hsp as (Hp & _ & _ & _ & Hins). cbn [unwrap_or_else_id]. rewrite Hins.
  assert (Hlen : length (bt_insert key ptr es) = Datatypes.S (length es)).
  { rewrite <- Hins. unfold vec_insert. rewrite length_app. cbn. rewrite length_take, length_drop. lia. }
  split; [|done]. rewrite Hlen. unfold u16_inc. rewrite decide_True by (unfold u16_max; lia). cbn. do 2 f_equal. lia.
Qed.

Lemma zip_next cfg m h fs hp fp lo hi nxt :
  zip_ok cfg m h fs hp fp lo hi nxt → nxt = 0 ∨ (nxt ∈ zpids fs ∧ ∃ nxt' es, leaf_page cfg m nxt nxt' es).
Proof.
  revert h hp fp lo hi nxt. induction fs as [|f fs IH]; intros h hp fp lo hi nxt.
  { intros (_ & _ & ->). by left. }
  intros (lo0 & hi0 & nxt0 & HlL & HlR & _ & _ & Hr & _ & Hz).
  change (zpids (f :: fs)) with (frame_pids f ++ zpids fs).
  destruct (f_ksR f) as [|k ksR] eqn:E1, (f_csR f) as [|c csR] eqn:E2; cbn [rctx] in Hr; try done.
  - destruct Hr as [_ ->]. destruct (IH _ _ _ _ _ _ Hz) as [?|[Hin ?]]; [by left|right].
    split; [|done]. apply elem_of_app. by right.
  - destruct Hr as (_ & -> & _ & Hf). right.
    destruct (forest_elem _ _ _ _ _ _ c Hf ltac:(by left)) as (lo' & hi' & nxt' & Ht).
    destruct (leaf_page_first _ _ _ _ _ _ _ Ht) as [Hin Hpage]. split; [|done].
    apply elem_of_app. left. unfold frame_pids. rewrite E2. right. apply elem_of_app. right. cbn. apply elem_of_app. by left.
Qed.

Lemma page_eq_owned cfg m m' p : page_eq cfg m m' p → is_Some (m' !! p) ↔ is_Some (m !! p).
Proof.
  intros [->|(nxt & es & (d & _ & Hd & _) & (d' & _ & Hd' & _))]; [done|]. rewrite Hd, Hd'. naive_solver.
Qed.

Lemma entries_within lo hi key ptr es :
  above lo key → below hi key → Forall (within lo hi) es → Forall (within lo hi) (bt_insert key ptr es).
Proof. intros Ha Hb Hes. by apply bt_insert_Forall. Qed.

Lemma leaf_ok_with cfg pid nxt prev (es : list (K * (Z * Z))) :
  is_u32 pid → is_u32 nxt → is_u32 prev → config_ok cfg → Forall (λ e, entry_fits cfg e.1 e.2) es →
  (length es ≤ leaf_max_entries cfg)%nat → leaf_ok (mkLeaf pid (Z.of_nat (length es)) nxt prev cfg es).
Proof. intros. by constructor. Qed.

(** A page holds one leaf. *)
Lemma leaf_page_unique cfg m pid nxt nxt' (es es' : list (K * (Z * Z))) :
  leaf_page cfg m pid nxt es → leaf_page cfg m pid nxt' es' → nxt = nxt' ∧ es = es'.
Proof.
  intros (d & q & Hd & _ & Hr & _) (d' & q' & Hd' & _ & Hr' & _). rewrite Hd in Hd'. injection Hd' as ->.
  rewrite Hr in Hr'. by injection Hr'.
Qed.

(** ** Leaves written back *)

Lemma bt_holds_zip cfg bt m h fs t n : bt_holds cfg bt m h (plug fs t) n → zip_holds bt m fs [t].
Proof.
  intros [Hs _ Hnd Ho _]. assert (Hj : mjoin (pids <$> [t]) = pids t) by (cbn; apply app_nil_r).
  constructor; rewrite ?Hj; [done| |].
  - by rewrite <- pids_plug.
  - intros p. by rewrite <- pids_plug.
Qed.

Lemma zip_holds_leaf bt m fs pid es :
  zip_holds bt m fs [TLeaf pid es] → is_Some (m !! pid) ∧ pid ∉ zpids fs ∧ meta_page_id bt ≠ pid ∧ is_u32 pid.
Proof.
  intros [Hs Hnd Ho]. cbn [fmap list_fmap mjoin list_join pids app] in *.
  assert (Hp : is_Some (m !! pid)) by (apply Ho; set_solver).
  apply NoDup_cons in Hnd as [Hm Hnd]. apply NoDup_app in Hnd as (_ & Hd & _). split_and!; [done|set_solver|set_solver|].
  by eapply owned_u32.
Qed.

(** Overwriting an owned page changes no ownership. *)
Lemma owned_insert m pid (d : bytes) p : is_Some (m !! pid) → is_Some (<[pid := d]> m !! p) ↔ is_Some (m !! p).
Proof.
  intros Hp. rewrite lookup_insert_is_Some'. split; [|by right]. by intros [->|].
Qed.

Lemma put_leaf_ok cfg bt m fs pid es0 es nxt prev lo hi :
  zip_holds bt m fs [TLeaf pid es0] → zip_ok cfg m 0 fs pid pid lo hi nxt →
  leaf_ok (mkLeaf pid (Z.of_nat (length es)) nxt prev cfg es) → bt_sorted es → Forall (within lo hi) es →
  ∃ s m', save_leaf (mkLeaf pid (Z.of_nat (length es)) nxt prev cfg es) bt = (Ok tt, with_store s bt) ∧
    ps_room s = ps_room (bt_pm bt) ∧ zip_holds (with_store s bt) m' fs [TLeaf pid es] ∧
    zip_ok cfg m' 0 fs pid pid lo hi nxt ∧ tree_ok cfg m' 0 lo hi nxt (TLeaf pid es).
Proof.
  intros Hzh Hz Hok Hsorted Hes. destruct (zip_holds_leaf _ _ _ _ _ Hzh) as ([d0 Hd0] & Hpz & _). destruct Hzh as [Hs Hnd Ho].
  destruct (save_leaf_ok bt m _ d0 Hs Hok Hd0) as (s & d & Hsave & Hs' & Hroom & Hpage).
  cbn [lf_page_id lf_config next_leaf lf_entries] in *. exists s, (<[pid := d]> m). split_and!; try done.
  - constructor; cbn [bt_pm meta_page_id with_store]; try done. intros p. rewrite <- Ho. apply owned_insert. eauto.
  - eapply zip_frame; [|exact Hz]. intros p Hp. left. apply lookup_insert_ne. by intros <-.
  - split_and!; try done. apply Hpage, lookup_insert_eq.
Qed.

(** The leaf split of [insert]: both halves written, the successor linked back. *)
Definition split_leaf_and_save (full : LeafNode K) : ST (BTree K S) GrumpyError (Z * K) :=
  '(lnod, rnod, promoted_key) ← split_leaf full;
  _ ← save_leaf lnod;
  _ ← save_leaf rnod;
  _ ← relink (next_leaf rnod) (lf_page_id rnod);
  mret (lf_page_id rnod, promoted_key).

(** Halves of a sorted list, bounded by the first key of the second half. *)
Lemma halves_ok lo hi (es : list (K * (Z * Z))) mid k v esB :
  bt_sorted es → Forall (within lo hi) es → (0 < mid)%nat → drop mid es = (k, v) :: esB →
  bt_sorted (take mid es) ∧ bt_sorted (drop mid es) ∧ Forall (within lo (Some k)) (take mid es) ∧
  Forall (within (Some k) hi) (drop mid es) ∧ between lo hi k.
Proof.
  intros Hs Hes Hmid Hd. pose proof (take_drop mid es) as Htd. rewrite <- Htd in Hs, Hes.
  apply StronglySorted_app in Hs as (Hlt & HsA & HsB). apply Forall_app in Hes as [HeA HeB].
  assert (HA : Forall (λ e, klt e.1 k) (take mid es)).
  { apply Forall_forall. intros e He. apply (Hlt e (k, v) He). rewrite Hd. by left. }
  rewrite Hd in HsB, HeB |- *. pose proof HsB as [HB _]%bt_sorted_cons.
  apply Forall_cons in HeB as [[Ha Hb] HeB]. split; [done|]. split; [done|]. split; [|split].
  - apply Forall_forall. intros e He. rewrite Forall_forall in HA. rewrite Forall_forall in HeA. split; [by apply HeA|by apply HA].
  - constructor; [split; [apply kle_refl|done]|]. apply Forall_forall. intros e He. rewrite Forall_forall in HB. rewrite Forall_forall in HeB.
    split; [apply klt_le; by apply HB|by apply HeB].
  - split; [|done]. destruct lo as [l|]; [|done]. destruct (take mid es) as [|e esA] eqn:E.
    { apply (f_equal length) in E. apply (f_equal length) in Hd. rewrite length_take in E. rewrite length_drop in Hd. simpl in *. lia. }
    apply Forall_cons in HA as [HA _]. apply Forall_cons in HeA as [[HeA _] _]. simpl in HeA, HA |- *. exact (kle_lt_trans _ _ _ HeA HA).
Qed.

Lemma split_leaf_and_save_ok cfg bt m fs pid es0 es nxt prev lo hi :
  zip_holds bt m fs [TLeaf pid es0] → zip_ok cfg m 0 fs pid pid lo hi nxt →
  bt_sorted es → Forall (within lo hi) es → Forall (λ e, entry_fits cfg e.1 e.2) es → config_ok cfg →
  is_u32 nxt → is_u32 prev → (1 < length es ≤ leaf_max_entries cfg + 1)%nat → 0 < ps_room (bt_pm bt) →
  ∃ s m' k A B, split_leaf_and_save (mkLeaf pid (Z.of_nat (length es)) nxt prev cfg es) bt = (Ok (tpid B, k), with_store s bt) ∧
    ps_room s = ps_room (bt_pm bt) - 1 ∧ tpid A = pid ∧ first_pid A = pid ∧ kvs A ++ kvs B = es ∧
    zip_holds (with_store s bt) m' fs [A; B] ∧ zip_ok cfg m' 0 fs pid pid lo hi nxt ∧
    tree_ok cfg m' 0 lo (Some k) (first_pid B) A ∧ tree_ok cfg m' 0 (Some k) hi nxt B ∧ between lo hi k ∧ key_fits cfg k.
Proof.
  intros Hzh Hz Hsorted Hes Hfit Hc Hnu Hpu Hlen Hroom.
  destruct (zip_holds_leaf _ _ _ _ _ Hzh) as ([d0 Hd0] & Hpz & Hmp & Hu). pose proof Hzh as [Hs _ Ho].
  pose proof (leaf_max_4 cfg Hc) as Hmax.
  destruct (alloc_page_ok bt m Hs Hroom) as (rid & s1 & d1 & Ha & Hfresh & Hru & Hrne & Hs1 & Hr1).
  set (mid := (length es / 2)%nat). assert (Hmid : (0 < mid < length es)%nat).
  { split; [apply Nat.div_str_pos; lia|apply Nat.div_lt; lia]. }
  destruct (drop mid es) as [|[k v] esB'] eqn:Ed.
  { apply (f_equal length) in Ed. rewrite length_drop in Ed. simpl in Ed. lia. }
  destruct (halves_ok lo hi es mid k v esB' Hsorted Hes ltac:(lia) Ed) as (HsA & HsB & HeA & HeB & Hk).
  set (esA := take mid es) in *. rewrite Ed in HsB, HeB. set (esB := (k, v) :: esB') in *.
  assert (Hsplit : es = esA ++ esB) by (unfold esA; rewrite <- Ed; symmetry; apply take_drop).
  pose proof Hfit as Hfit'. rewrite Hsplit in Hfit'. apply Forall_app in Hfit' as [HfA HfB].
  assert (HlA : (length esA ≤ leaf_max_entries cfg)%nat) by (unfold esA; rewrite length_take; lia).
  assert (HlB : (length esB ≤ leaf_max_entries cfg)%nat) by (rewrite <- Ed, length_drop; lia).
  pose proof (leaf_ok_with cfg pid rid prev esA Hu Hru Hpu Hc HfA HlA) as HokA.
  pose proof (leaf_ok_with cfg rid nxt pid esB Hru Hnu Hu Hc HfB HlB) as HokB.
  assert (Hrz : rid ∉ zpids fs).
  { intros Hin. assert (is_Some (m !! rid)) as [? ?] by (apply Ho; set_solver). congruence. }
  assert (Hpr : pid ≠ rid) by congruence.
  destruct (save_leaf_ok (with_store s1 bt) _ _ d0 Hs1 HokA) as (s2 & d2 & Hsave2 & Hs2 & Hr2 & HpA).
  { cbn [lf_page_id]. by rewrite lookup_insert_ne. }
  destruct (save_leaf_ok (with_store s2 (with_store s1 bt)) _ _ d1 Hs2 HokB) as (s3 & d3 & Hsave3 & Hs3 & Hr3 & HpB).
  { cbn [lf_page_id]. rewrite lookup_insert_ne by done. apply lookup_insert_eq. }
  cbn [lf_page_id lf_config next_leaf lf_entries bt_pm with_store] in *.
  set (m3 := <[rid:=d3]> (<[pid:=d2]> (<[rid:=d1]> m))) in *.
  assert (Hz3 : zip_ok cfg m3 0 fs pid pid lo hi nxt).
  { eapply zip_frame; [|exact Hz]. intros p Hp. left. unfold m3. rewrite !lookup_insert_ne; [done|by intros <-..]. }
  assert (Hnx : ∃ nxt' es', nxt ≠ 0 → leaf_page cfg m3 nxt nxt' es').
  { destruct (zip_next _ _ _ _ _ _ _ _ _ Hz3) as [->|(_ & nxt' & es' & Hl)]; [by exists 0, []|by exists nxt', es']. }
  destruct Hnx as (nxt' & es' & Hnx).
  destruct (relink_ok cfg (with_store s3 (with_store s2 (with_store s1 bt))) m3 nxt rid nxt' es' Hs3 Hnx Hru)
    as (s4 & m4 & Hrel & Hs4 & Hr4 & Heq & _). cbn [bt_pm with_store] in *.
  exists s4, m4, k, (TLeaf pid esA), (TLeaf rid esB). cbn [tpid first_pid kvs].
  split; [|split; [lia|split; [done|split; [done|split; [done|split; [|split; [|split; [|split; [|split; [done|]]]]]]]]]].
  - assert (Hsl : split_leaf (mkLeaf pid (Z.of_nat (length es)) nxt prev cfg es) bt =
      (Ok (mkLeaf pid (Z.of_nat (length esA)) rid prev cfg esA, mkLeaf rid (Z.of_nat (length esB)) nxt pid cfg esB, k), with_store s1 bt)).
    { unfold split_leaf. cbn [lf_entries next_leaf lf_page_id lf_config prev_leaf]. fold mid. rewrite Ed. fold esA esB.
      rewrite !len_u16_small by lia. by erewrite st_step by exact Ha. }
    unfold split_leaf_and_save. erewrite st_step by exact Hsl. cbv beta iota. erewrite st_step by exact Hsave2.
    erewrite st_step by exact Hsave3. cbn [next_leaf lf_page_id]. by erewrite st_step by exact Hrel.
  - eapply zip_holds_split; [exact Hzh|exact Hfresh|cbn; apply Permutation_swap|done|].
    intros p. rewrite (page_eq_owned cfg m3 m4 p (Heq p)). unfold m3. rewrite !lookup_insert_is_Some'.
    destruct (decide (p = pid)) as [->|]; [|naive_solver]. rewrite Hd0. naive_solver.
  - eapply zip_frame; [|exact Hz3]. auto.
  - split_and!; try done. eapply leaf_page_eq; [apply Heq|]. apply HpA. unfold m3. rewrite lookup_insert_ne by done. apply lookup_insert_eq.
  - split_and!; try done. eapply leaf_page_eq; [apply Heq|]. apply HpB, lookup_insert_eq.
  - rewrite Forall_forall in HfB. apply (HfB (k, v)). by left.
Qed.

(** ** Insertion *)

(** An insertion may take a page per level and one for a new root; the counters of the
    meta page stay within their width. *)
Record can_grow bt : Prop := {
  cg_room : height (bt_meta bt) < ps_room (bt_pm bt);
  cg_height : height (bt_meta bt) < u32_max;
  cg_count : meta_entries (bt_meta bt) < u64_max;
}.

Lemma finish_insert cfg bt m h t n :
  bt_holds cfg bt m h t n → config_ok cfg → Z.of_nat h + 1 ≤ u32_max → 0 ≤ n < u64_max →
  ∃ bt' m', (_ ← inc_entries; flush_meta) bt = (Ok tt, bt') ∧ bt_holds cfg bt' m' h t (n + 1) ∧ meta_stored bt' m' ∧
    meta_page_id bt' = meta_page_id bt.
Proof.
  intros Hb Hc Hh Hn. destruct (inc_entries_ok cfg bt m h t n Hb ltac:(lia)) as (bt1 & H1 & Hb1 & Hid & _).
  destruct (flush_meta_ok cfg bt1 m h t (n + 1) Hb1 Hc Hh ltac:(lia)) as (s & m' & H2 & Hb2 & Hst & _).
  exists (with_store s bt1), m'. erewrite st_step by exact H1. done.
Qed.

Lemma bt_insert_new_length (key : K) (ptr : Z * Z) (es : list (K * (Z * Z))) :
  bt_sorted es → bt_get key es = None → length (bt_insert key ptr es) = Datatypes.S (length es).
Proof.
  intros Hs Hk. pose proof (key_search_spec key es Hs) as Hsp.
  destruct (binary_search_by _ es) as [i|p]; [destruct Hsp as (v & _ & Hv); congruence|].
  destruct Hsp as (Hp & _ & _ & _ & Hins). rewrite <- Hins. unfold vec_insert. rewrite length_app. cbn.
  rewrite length_take, length_drop. lia.
Qed.

(** [insert_at] on a key that the leaf does not hold, with the split named. *)
Lemma insert_at_eq leaf path key ptr bt :
  leaf_search leaf key = None →
  insert_at leaf path key ptr bt =
  (leaf ← st_lift (leaf_insert_entry (key, ptr) leaf);
   if negb (leaf_is_overfull leaf) then _ ← save_leaf leaf; (_ ← inc_entries; flush_meta)
   else p ← split_leaf_and_save leaf; _ ← propagate_split path p.2 p.1; (_ ← inc_entries; flush_meta)) bt.
Proof.
  intros Hn. unfold insert_at. rewrite decide_False by (rewrite Hn; by intros []).
  unfold split_leaf_and_save, st_lift, mbind, st_bind. destruct (leaf_insert_entry _ leaf) as [l|e|]; [|done..].
  destruct (negb _); [done|]. destruct (split_leaf l bt) as [[[[a b] q]|e|] bt1]; [|done|done].
  destruct (save_leaf a bt1) as [[]bt2]; try done. destruct (save_leaf b bt2) as [[]bt3]; try done.
  by destruct (relink _ _ bt3) as [[]bt4].
Qed.

Lemma insert_at_ok cfg bt m fs pid es prev nxt lo hi n key ptr :
  zip_holds bt m fs [TLeaf pid es] → zip_ok cfg m 0 fs pid pid lo hi nxt → tree_ok cfg m 0 lo hi nxt (TLeaf pid es) →
  leaf_ok (mkLeaf pid (Z.of_nat (length es)) nxt prev cfg es) → above lo key → below hi key →
  bt_meta bt = mkMeta (tpid (plug fs (TLeaf pid es))) (Z.of_nat (length fs) + 1) n cfg → can_grow bt → 0 ≤ n →
  entry_fits cfg key ptr → bt_get key es = None →
  ∃ bt' m' h t, insert_at (mkLeaf pid (Z.of_nat (length es)) nxt prev cfg es) (path_of fs) key ptr bt = (Ok tt, bt') ∧
    bt_holds cfg bt' m' h t (n + 1) ∧ meta_stored bt' m' ∧ kvs t = zpre fs ++ bt_insert key ptr es ++ zpost fs ∧
    meta_page_id bt' = meta_page_id bt.
Proof.
  intros Hzh Hz (Hpage & Hsorted & Hes) Hok Ha Hb Hm Hg Hn Hfit Hk. destruct Hg as [Hroom Hht Hcnt].
  rewrite Hm in Hroom, Hht, Hcnt. cbn [height meta_entries] in *. pose proof Hok as [Hpu _ Hnu Hvu Hc Hef Hlen].
  cbn [lf_page_id next_leaf prev_leaf lf_config lf_entries] in *. pose proof (leaf_max_4 cfg Hc) as Hmax.
  destruct (leaf_insert_ok cfg pid nxt prev es key ptr Hsorted Hk ltac:(lia)) as [Hins Hlen'].
  set (es' := bt_insert key ptr es) in *.
  assert (Hsorted' : bt_sorted es') by (by apply bt_sorted_insert).
  assert (Hes' : Forall (within lo hi) es') by (by apply entries_within).
  assert (Hef' : Forall (λ e, entry_fits cfg e.1 e.2) es') by (by apply bt_insert_Forall).
  pose proof (leaf_search_ok cfg pid nxt prev es key Hsorted) as Hsr. cbv zeta in Hsr.
  rewrite insert_at_eq by (destruct (leaf_search _ key); [destruct Hsr as (? & _ & ?); congruence|done]).
  erewrite st_step by (unfold st_lift; rewrite Hins; reflexivity).
  destruct (leaf_is_overfull _) eqn:Hov; cbn [negb]; unfold leaf_is_overfull in Hov; cbn [lf_config num_entries] in Hov.
  - apply bool_decide_eq_true_1 in Hov.
    destruct (split_leaf_and_save_ok cfg bt m fs pid es es' nxt prev lo hi) as
      (s & m1 & k & A & B & Hrun & Hr1 & HA & HfA & HkAB & Hzh1 & Hz1 & HtA & HtB & Hk1 & Hkf); try done; [lia|lia|].
    rewrite <- HA in Hz1 at 1. rewrite <- HfA in Hz1.
    destruct (propagate_split_ok cfg (with_store s bt) m1 0 fs lo hi nxt k A B n) as
      (bt2 & m2 & h2 & t & Hrun2 & Hb2 & Hkv & Hid & _ & Hh2); try done; cbn [bt_pm bt_meta with_store]; [lia| |lia|].
    { rewrite Hm. f_equal; [by apply tpid_plug|lia]. }
    destruct (finish_insert cfg bt2 m2 h2 t n Hb2 Hc ltac:(lia) ltac:(lia)) as (bt3 & m3 & Hrun3 & Hb3 & Hst & Hid3).
    exists bt3, m3, h2, t. erewrite st_step by exact Hrun. erewrite st_step by exact Hrun2. split_and!; try done.
    + by rewrite Hkv, HkAB.
    + by rewrite Hid3, Hid.
  - apply bool_decide_eq_false_1 in Hov.
    destruct (put_leaf_ok cfg bt m fs pid es es' nxt prev lo hi Hzh Hz) as (s & m1 & Hrun & Hr1 & Hzh1 & Hz1 & Ht1); try done.
    { apply leaf_ok_with; try done. lia. }
    assert (Hb1 : bt_holds cfg (with_store s bt) m1 (length fs + 0) (plug fs (TLeaf pid es')) n).
    { eapply zip_holds_plug; try done. cbn [bt_meta with_store]. rewrite Hm. f_equal; [by apply tpid_plug|lia]. }
    destruct (finish_insert cfg _ m1 _ _ n Hb1 Hc ltac:(lia) ltac:(lia)) as (bt3 & m3 & Hrun3 & Hb3 & Hst & Hid3).
    exists bt3, m3, (length fs + 0)%nat, (plug fs (TLeaf pid es')). erewrite st_step by exact Hrun. split_and!; try done.
    by rewrite kvs_plug.
Qed.

Lemma bt_insert_ok bt kv key page_id slot_id fuel :
  bt_rep bt kv → enough bt fuel → can_grow bt → entry_fits (config (bt_meta bt)) key (page_id, slot_id) →
  match bt_get key kv with
  | Some _ => insert fuel key page_id slot_id bt = Some (Err (duplicate_key_error key), bt)
  | None => ∃ bt', insert fuel key page_id slot_id bt = Some (Ok tt, bt') ∧ bt_rep bt' (bt_insert key (page_id, slot_id) kv) ∧
      config (bt_meta bt') = config (bt_meta bt) ∧ meta_page_id bt' = meta_page_id bt
  end.
Proof.
  intros (m & h & t & Hb & -> & Hst & Hc & Hu) Hf Hg Hfit. set (cfg := config (bt_meta bt)) in *.
  destruct (descend_root bt m h t _ cfg key fuel Hb Hf) as
    (fs & pid & es & prev & nxt & lo & hi & Hd & _ & Hok & Hz & Ht & <- & Ha & Hbl & Hh & Hpre & Hpost).
  unfold insert. erewrite ft_step by exact Hd. cbv beta iota. pose proof Ht as (_ & Hsorted & _).
  rewrite kvs_plug in *. rewrite bt_get_mid by done. cbn [kvs] in *.
  pose proof (leaf_search_ok cfg pid nxt prev es key Hsorted) as Hsr. cbv zeta in Hsr.
  destruct (bt_get key es) as [v|] eqn:Hk.
  - unfold ft_lift, insert_at. by rewrite decide_True by (destruct (leaf_search _ key); [eauto|congruence]).
  - destruct (insert_at_ok cfg bt m fs pid es prev nxt lo hi (Z.of_nat (length (zpre fs ++ es ++ zpost fs))) key (page_id, slot_id))
      as (bt' & m' & h' & t & Hrun & Hb' & Hst' & Hkv & Hid); try done; [by eapply bt_holds_zip| |lia|].
    { rewrite (bh_meta _ _ _ _ _ _ Hb), Hh. done. }
    pose proof (bh_meta _ _ _ _ _ _ Hb') as Hm'. exists bt'. unfold ft_lift. rewrite Hrun. split; [done|].
    rewrite Hm'. cbn [config]. split; [|done]. exists m', h', t. rewrite Hm'. cbn [config].
    assert (Hlen : Z.of_nat (length (bt_insert key (page_id, slot_id) (zpre fs ++ es ++ zpost fs))) =
      Z.of_nat (length (zpre fs ++ es ++ zpost fs)) + 1).
    { rewrite bt_insert_new_length; [lia| |by rewrite bt_get_mid].
      pose proof (tree_kvs _ _ _ _ _ _ _ (bh_tree _ _ _ _ _ _ Hb)) as [Hs _]. by rewrite kvs_plug in Hs. }
    rewrite Hlen. split_and!; try done.
    + by rewrite bt_insert_mid.
    + destruct Hg as [_ _ Hcnt]. rewrite (bh_meta _ _ _ _ _ _ Hb) in Hcnt. cbn [meta_entries] in Hcnt. lia.
Qed.

(** C34: Inserting into an index that stores the ordered map [kv]: a present key is
    refused with the duplicate-key error and nothing changes; otherwise the call
    succeeds and the index stores [kv] with the new entry, through leaf splits,
    internal splits and growth of the root.  Fuel equal to the height suffices. *)
Theorem btree_insert bt kv key page_id slot_id fuel :
  bt_rep bt kv → enough bt fuel → can_grow bt → entry_fits (config (bt_meta bt)) key (page_id, slot_id) →
  match bt_get key kv with
  | Some _ => insert fuel key page_id slot_id bt = Some (Err (duplicate_key_error key), bt)
  | None => ∃ bt', insert fuel key page_id slot_id bt = Some (Ok tt, bt') ∧ bt_rep bt' (bt_insert key (page_id, slot_id) kv) ∧
      config (bt_meta bt') = config (bt_meta bt) ∧ meta_page_id bt' = meta_page_id bt
  end.
Proof. apply bt_insert_ok. Qed.

Lemma bt_search_ok bt kv key fuel :
  bt_rep bt kv → enough bt fuel → search fuel key bt = Some (Ok (bt_get key kv), bt).
Proof. intros (m & h & t & Hb & -> & _) Hf. by eapply search_ok. Qed.

(** Searching an index that stores [kv] returns what [kv] maps the key to and
    changes nothing, with fuel equal to the height. *)
Theorem btree_search bt kv key fuel :
  bt_rep bt kv → enough bt fuel → search fuel key bt = Some (Ok (bt_get key kv), bt).
Proof. apply bt_search_ok. Qed.

(** ** Creation and opening *)

Lemma create_ok cfg (s : S) :
  ps_rep s ∅ → 2 ≤ ps_room s → config_ok cfg →
  ∃ bt, create cfg s = Ok bt ∧ bt_rep bt [] ∧ height (bt_meta bt) = 1 ∧ config (bt_meta bt) = cfg ∧
    ps_room (bt_pm bt) = ps_room s - 2.
Proof.
  intros Hs Hroom Hc. destruct (ps_alloc_ok s ∅ Hs ltac:(lia)) as (mid & s1 & d1 & Ha1 & _ & _ & Hs1 & Hr1).
  destruct (ps_alloc_ok s1 _ Hs1 ltac:(lia)) as (rid & s2 & d2 & Ha2 & _ & Hfresh & Hs2 & Hr2).
  assert (Hne : mid ≠ rid) by (intros ->; by rewrite lookup_insert_eq in Hfresh).
  destruct (ps_owned s1 _ mid d1 Hs1 (lookup_insert_eq _ _ _)) as [Hmu _].
  destruct (ps_owned s2 _ rid d2 Hs2 (lookup_insert_eq _ _ _)) as [Hru _].
  pose proof (leaf_max_4 cfg Hc) as Hmax.
  assert (Hok : leaf_ok (mkLeaf rid (Z.of_nat (length (@nil (K * (Z * Z))))) 0 0 cfg [])).
  { apply leaf_ok_with; unfold is_u32; try done; simpl; lia. }
  destruct (leaf_roundtrip _ Hok) as (dl & Hto & Hll & Hrd).
  destruct (ps_write_ok s2 _ rid d2 dl Hs2 (lookup_insert_eq _ _ _) Hll) as (s3 & Hw3 & Hs3 & Hr3).
  set (meta := mkMeta rid 1 0 cfg).
  destruct (meta_page_ok mid meta) as [Hml Hmr]; cbn [root_page_id height meta_entries config meta]; unfold is_u32, is_u64, u64_max in *; try done; try lia.
  destruct (ps_write_ok s3 _ mid d1 (meta_page mid meta) Hs3) as (s4 & Hw4 & Hs4 & Hr4); [|done|].
  { rewrite !lookup_insert_ne by done. apply lookup_insert_eq. }
  exists (mkTree mid s4 meta). split; [|split; [|split; [done|split; [done|cbn [bt_pm]; lia]]]].
  - unfold create, create_with. erewrite st_step by exact Ha1. erewrite st_step by exact Ha2.
    change (leaf_to_bytes (leaf_new rid cfg) = Ok dl) in Hto.
    erewrite st_step by (unfold st_lift; rewrite Hto; reflexivity). erewrite st_step by exact Hw3.
    by erewrite st_step by exact Hw4.
  - eexists _, 0%nat, (TLeaf rid []). cbn [bt_meta config meta length]. split; [|split; [done|split; [|split; [done|unfold u64_max; lia]]]].
    + constructor; cbn [bt_pm meta_page_id bt_meta]; [exact Hs4| |cbn [pids]| |done].
      * cbn [tree_ok]. split; [|split; constructor]. destruct (Hrd _ (same_page_stamp dl Hll)) as [Ht Hf].
        exists (stamp_checksum dl), 0. rewrite lookup_insert_ne, lookup_insert_eq by done. done.
      * constructor; [by intros ->%list_elem_of_singleton|]. constructor; [apply not_elem_of_nil|constructor].
      * intros p. cbn [pids]. rewrite !lookup_insert_is_Some', lookup_empty, !elem_of_cons, elem_of_nil.
        split; [intros [->|[->|[->|[->|[? ?]]]]]; naive_solver|naive_solver].
    + eexists. cbn [meta_page_id bt_meta]. rewrite lookup_insert_eq. done.
Qed.

(** An index created on an empty file stores the empty map; opening the file of any
    stored index whose meta page is page 1 gives back the same index. *)
Theorem btree_create_open cfg (s : S) :
  ps_rep s ∅ → 2 ≤ ps_room s → config_ok cfg →
  (∃ bt, create cfg s = Ok bt ∧ bt_rep bt [] ∧ config (bt_meta bt) = cfg) ∧
  ∀ bt kv, bt_rep bt kv → meta_page_id bt = META_PAGE_ID → open_tree (bt_pm bt) = Ok bt.
Proof.
  intros Hs Hroom Hc. split.
  - destruct (create_ok cfg s Hs Hroom Hc) as (bt & ? & ? & _ & ? & _). eauto.
  - intros bt kv (m & h & t & [Hs' _ _ _ _] & _ & (d & Hd & Hrd) & _) Hid. unfold open_tree.
    rewrite Hid in Hd. rewrite (ps_read_ok _ _ _ _ Hs' Hd), Hrd. destruct bt; simpl in *. by subst.
Qed.
End spec.

(** ** An index over a fresh file *)

(** A new index of 16-byte keys on a fresh page file. *)
Lemma demo_index :
  let C := crc32_ieee in let HK := uuid_key in let HL := uuid_laws in
  ∃ bt : BTree bytes PageManager, create tt (pm_new None) = Ok bt ∧ bt_rep bt [] ∧ enough bt 1 ∧ can_grow bt.
Proof.
  intros C HK HL. destruct pm_new_ok as (Hrep & Hn & Hf).
  assert (Hroom : ps_room (pm_new None) = 4294967294).
  { cbn [ps_room PageManager_store]. unfold pm_room. rewrite Hn, Hf. reflexivity. }
  destruct (create_ok (HL:=uuid_laws) (PS:=PageManager_store) tt (pm_new None) Hrep ltac:(rewrite Hroom; lia) I) as (bt & Hc & Hbt & Hh & Hcfg & Hr).
  subst C HK HL. exists bt. split; [exact Hc|]. split; [exact Hbt|]. split; [unfold enough; lia|].
  constructor; rewrite ?Hh, ?Hr, ?Hroom; [lia|unfold u32_max; lia|].
  destruct Hbt as (m & h & t & Hb & _). rewrite (bh_meta _ _ _ _ _ _ Hb). done.
Qed.

Lemma demo_fits (b : byte) :
  let HK := uuid_key in let HL := uuid_laws in entry_fits (K:=bytes) (HL:=uuid_laws) tt (demo_key b) (7, 3).
Proof. split; [reflexivity|]. split; unfold is_u32, is_u16; cbn [fst snd]; lia. Qed.

Lemma btree_insert_witness :
  let C := crc32_ieee in let HK := uuid_key in let HL := uuid_laws in
  ∃ bt bt' : BTree bytes PageManager, create tt (pm_new None) = Ok bt ∧ insert 1 (demo_key x01) 7 3 bt = Some (Ok tt, bt') ∧
    bt_rep bt' [(demo_key x01, (7, 3))].
Proof.
  intros C HK HL. destruct demo_index as (bt & Hc & Hrep & Hf & Hg).
  assert (Hfit : entry_fits (HL:=uuid_laws) (config (bt_meta bt)) (demo_key x01) (7, 3)).
  { destruct (config (bt_meta bt)). apply demo_fits. }
  destruct (btree_insert (HL:=uuid_laws) bt [] (demo_key x01) 7 3 1 Hrep Hf Hg Hfit) as (bt' & Hrun & Hrep' & _).
  exists bt, bt'. exact (conj Hc (conj Hrun Hrep')).
Defined.

Lemma btree_search_witness :
  let C := crc32_ieee in let HK := uuid_key in let HL := uuid_laws in
  ∃ bt : BTree bytes PageManager, create tt (pm_new None) = Ok bt ∧ search 1 (demo_key x01) bt = Some (Ok None, bt).
Proof.
  intros C HK HL. destruct demo_index as (bt & Hc & Hrep & Hf & _). exists bt. split; [exact Hc|].
  exact (btree_search (HL:=uuid_laws) bt [] (demo_key x01) 1 Hrep Hf).
Defined.

Lemma btree_create_open_witness :
  let C := crc32_ieee in let HK := uuid_key in let HL := uuid_laws in
  ∃ bt : BTree bytes PageManager, create tt (pm_new None) = Ok bt ∧ bt_rep bt [].
Proof.
  intros C HK HL. destruct pm_new_ok as (Hrep & Hn & Hf).
  assert (Hroom : 2 ≤ ps_room (pm_new None)).
  { cbn [ps_room PageManager_store]. unfold pm_room. rewrite Hn, Hf. vm_compute. discriminate. }
  destruct (btree_create_open (HL:=uuid_laws) (PS:=PageManager_store) tt (pm_new None) Hrep Hroom I) as [(bt & Hc & Hbt & _) _]. exists bt. exact (conj Hc Hbt).
Defined.
