(* ===== verification/BTreeDelete.v ===== *)
(** * Deletion from the B+Tree

    An underfull node borrows from a sibling or merges with it; a merge removes a child
    of the parent, which may be underfull in turn, up to the root.  [pair_at] is the
    situation in which two adjacent children are rearranged: the pages, the separator
    and the bounds around them. *)

From S2P Require Import Prelude RustStd Page PageManager BTreeNode BTree BTreeShape BTreeInsert BTreeSpec.

Local Open Scope Z_scope.

Section pairs.
Context {K : Type} {HK : Key K} {HL : KeyLaws K} {C : Crc32} {S : Type} {PS : PageStore C S}.
Context (cfg : Config K).
Implicit Types (bt : BTree K S) (m : gmap Z bytes) (f : frame K) (fs : list (frame K)) (a b c : tree K) (ks : list K).

Definition fill2 f (sep : K) a b : tree K :=
  TNode (f_pid f) (f_ksL f ++ sep :: f_ksR f) (f_csL f ++ a :: b :: f_csR f).

(** The adjacent children [a] and [b] of the node that [f] describes, separated by
    [sep], between the bounds [lo] and [hi] and followed by the leaf [nxt]. *)
Record pair_at bt m (h : nat) f fs (sep : K) a b (lo hi : option K) (nxt : Z) (lo0 hi0 : option K) (nxt0 : Z) : Prop := {
  pa_holds : zip_holds bt m (f :: fs) [a; b];
  pa_lenL : length (f_csL f) = length (f_ksL f);
  pa_lenR : length (f_csR f) = length (f_ksR f);
  pa_node : node_page cfg m (f_pid f) (f_ksL f ++ sep :: f_ksR f)
              ((tpid <$> f_csL f) ++ tpid a :: tpid b :: (tpid <$> f_csR f));
  pa_left : lctx (tree_ok cfg m h) lo0 (f_ksL f) (f_csL f) (first_pid a) lo;
  pa_right : rctx (tree_ok cfg m h) hi0 nxt0 (f_ksR f) (f_csR f) hi nxt;
  pa_sep : between lo hi sep;
  pa_a : tree_ok cfg m h lo (Some sep) (first_pid b) a;
  pa_b : tree_ok cfg m h (Some sep) hi nxt b;
  pa_zip : zip_ok cfg m (Datatypes.S h) fs (f_pid f) (first_of (f_csL f) (first_pid a)) lo0 hi0 nxt0;
}.

Lemma forest_pair (P : option K → option K → Z → tree K → Prop) lo0 hi0 nxt0 ksL sep ksR csL a b csR :
  length csL = length ksL → length csR = length ksR →
  forest P lo0 hi0 nxt0 (ksL ++ sep :: ksR) (csL ++ a :: b :: csR) →
  ∃ lo hi nxt, lctx P lo0 ksL csL (first_pid a) lo ∧ rctx P hi0 nxt0 ksR csR hi nxt ∧ between lo hi sep ∧
    P lo (Some sep) (first_pid b) a ∧ P (Some sep) hi nxt b.
Proof.
  intros HlL HlR Hf. change (a :: b :: csR) with ([a] ++ (b :: csR)) in Hf. rewrite app_assoc in Hf.
  apply forest_app in Hf as (H1 & [Hs1 Hs2] & H2); [|rewrite length_app; simpl; lia].
  pose proof (proj1 (forest_hole P lo0 (Some sep) (first_pid b) ksL [] csL [] a HlL eq_refl)) as Ha.
  rewrite app_nil_r in Ha. destruct Ha as (lo & hi' & nxt' & Hl & [-> ->] & Hlt & Ha); [split; [exact H1|]; by destruct lo0|].
  destruct (proj1 (forest_hole P (Some sep) hi0 nxt0 [] ksR [] csR b eq_refl HlR)) as (lo' & hi & nxt & Hl' & Hr & Hlt' & Hb).
  { split; [exact H2|]. by destruct hi0. }
  cbn [lctx] in Hl'. subst lo'. exists lo, hi, nxt. split; [done|]. split; [done|]. split; [|done].
  split; [by destruct lo|by destruct hi].
Qed.

(** The children number [i] and [i + 1] of a stored node. *)
Lemma node_pair bt m h fs pid ks cs lo0 hi0 nxt0 i :
  zip_holds bt m fs [TNode pid ks cs] →
  zip_ok cfg m (Datatypes.S h) fs pid (first_pid (TNode pid ks cs)) lo0 hi0 nxt0 →
  tree_ok cfg m (Datatypes.S h) lo0 hi0 nxt0 (TNode pid ks cs) → (i < length ks)%nat →
  ∃ f sep a b lo hi nxt, f_pid f = pid ∧ length (f_csL f) = i ∧ TNode pid ks cs = fill2 f sep a b ∧
    pair_at bt m h f fs sep a b lo hi nxt lo0 hi0 nxt0.
Proof.
  intros Hzh Hz [Hn Hf] Hi. pose proof (forest_length _ _ _ _ _ _ Hf) as Hlen.
  destruct (lookup_lt_is_Some_2 ks i Hi) as [sep Hsep]. destruct (lookup_lt_is_Some_2 cs i ltac:(lia)) as [a Ha].
  destruct (lookup_lt_is_Some_2 cs (Datatypes.S i) ltac:(lia)) as [b Hb].
  set (f := mkFrame pid (take i ks) (take i cs) (drop (Datatypes.S i) ks) (drop (Datatypes.S (Datatypes.S i)) cs)).
  assert (Eks : ks = f_ksL f ++ sep :: f_ksR f) by (symmetry; by apply take_drop_middle).
  assert (Ecs : cs = f_csL f ++ a :: b :: f_csR f).
  { cbn [f_csL f_csR f]. rewrite <- (drop_S _ _ _ Hb). symmetry. by apply take_drop_middle. }
  assert (HlL : length (f_csL f) = length (f_ksL f)) by (simpl; rewrite !length_take; lia).
  assert (HlR : length (f_csR f) = length (f_ksR f)) by (simpl; rewrite !length_drop; lia).
  rewrite Eks, Ecs in Hf. destruct (forest_pair _ _ _ _ _ _ _ _ _ _ _ HlL HlR Hf) as (lo & hi & nxt & H1 & H2 & H3 & H4 & H5).
  exists f, sep, a, b, lo, hi, nxt. split; [done|]. split; [simpl; rewrite length_take; lia|].
  split; [unfold fill2; by rewrite <- Eks, <- Ecs|]. constructor; try done.
  - destruct Hzh as [Hs Hnd Ho]. pose proof (pids_frame_fill f fs [a; b]) as Hp. cbn [app] in Hp. rewrite <- Ecs in Hp.
    rewrite pids_node in Hnd, Ho. cbn [f_pid f] in Hp. constructor; [done|by rewrite Hp|]. intros p. rewrite Hp. apply Ho.
  - rewrite <- Eks. rewrite Ecs, fmap_app, !fmap_cons in Hn. exact Hn.
  - replace (first_of (f_csL f) (first_pid a)) with (first_pid (TNode pid ks cs)); [done|].
    rewrite Ecs. cbn [first_pid]. by destruct (f_csL f).
Qed.

(** [b] seen from its own hole. *)
Lemma pair_zip_right bt m h f fs sep a b lo hi nxt lo0 hi0 nxt0 :
  pair_at bt m h f fs sep a b lo hi nxt lo0 hi0 nxt0 →
  zip_ok cfg m h (mkFrame (f_pid f) (f_ksL f ++ [sep]) (f_csL f ++ [a]) (f_ksR f) (f_csR f) :: fs)
    (tpid b) (first_pid b) (Some sep) hi nxt.
Proof.
  intros [_ HlL HlR Hn Hl Hr [Hs1 Hs2] Ha _ Hz]. exists lo0, hi0, nxt0. cbn [f_pid f_ksL f_csL f_ksR f_csR].
  split; [rewrite !length_app; simpl; lia|]. split; [done|]. split; [|split; [|split; [done|split; [by destruct hi|]]]].
  - rewrite fmap_app, <- !app_assoc. exact Hn.
  - by eapply lctx_snoc.
  - replace (first_of (f_csL f ++ [a]) (first_pid b)) with (first_of (f_csL f) (first_pid a)); [done|]. by destruct (f_csL f).
Qed.

Lemma pair_facts bt m h f fs sep a b lo hi nxt lo0 hi0 nxt0 :
  pair_at bt m h f fs sep a b lo hi nxt lo0 hi0 nxt0 →
  let others := zpids fs ++ mjoin (pids <$> f_csL f) ++ mjoin (pids <$> f_csR f) in
  meta_page_id bt ∉ f_pid f :: pids a ++ pids b ∧ f_pid f ∉ pids a ++ pids b ∧ NoDup (pids a ++ pids b) ∧
  is_Some (m !! f_pid f) ∧ is_u32 (f_pid f) ∧
  (∀ p, p ∈ others → p ∉ f_pid f :: pids a ++ pids b) ∧
  (∀ p, p ∈ pids a ++ pids b → is_Some (m !! p) ∧ is_u32 p) ∧
  Forall (key_fits cfg) (f_ksL f ++ sep :: f_ksR f) ∧ (length (f_ksL f ++ sep :: f_ksR f) ≤ internal_max_keys cfg)%nat ∧
  config_ok cfg ∧ Forall is_u32 (tpid <$> f_csL f) ∧ Forall is_u32 (tpid <$> f_csR f) ∧
  is_u32 (tpid a) ∧ is_u32 (tpid b) ∧ tpid a ≠ tpid b.
Proof.
  intros [[Hs Hnd Ho] HlL HlR Hn Hl Hr _ Ha Hb Hz] others.
  destruct (node_page_fits cfg m _ _ _ Hn) as (Hkf & Hkl & Hc & Hpu).
  { rewrite !length_app. simpl. rewrite !length_fmap. lia. }
  assert (Hp : meta_page_id bt :: zpids (f :: fs) ++ mjoin (pids <$> [a; b]) ≡ₚ
    meta_page_id bt :: others ++ f_pid f :: pids a ++ pids b).
  { change (zpids (f :: fs)) with (frame_pids f ++ zpids fs). unfold frame_pids, others. cbn. rewrite app_nil_r. solve_Permutation. }
  rewrite Hp in Hnd. apply NoDup_cons in Hnd as [Hm Hnd]. apply NoDup_app in Hnd as (_ & Hd & Hnd).
  pose proof Hnd as [Hf Hab]%NoDup_cons.
  assert (Hown : ∀ p, p ∈ f_pid f :: others ++ pids a ++ pids b → is_Some (m !! p) ∧ is_u32 p).
  { intros p Hin. assert (is_Some (m !! p)) by (apply Ho; rewrite Hp; set_solver). split; [done|by eapply owned_u32]. }
  destruct (tree_pid _ _ _ _ _ _ _ Ha) as [Hpa _]. destruct (tree_pid _ _ _ _ _ _ _ Hb) as [Hpb _].
  assert (Hcs : ∀ cs, (∀ p, p ∈ mjoin (pids <$> cs) → is_u32 p) → (∀ c, c ∈ cs → tpid c ∈ pids c) → Forall is_u32 (tpid <$> cs)).
  { intros cs Hcs Hc'. rewrite Forall_fmap. apply Forall_forall. intros c Hc1. apply Hcs. eapply elem_pids_child; [done|]. by apply Hc'. }
  assert (Htp : ∀ c, tpid c ∈ pids c) by (intros []; by left).
  split_and!; try done.
  - set_solver.
  - apply Hown. set_solver.
  - intros p Hin. apply Hown. set_solver.
  - apply Hcs; [|done]. intros p Hin. apply Hown. unfold others. set_solver.
  - apply Hcs; [|done]. intros p Hin. apply Hown. unfold others. set_solver.
  - apply Hown. set_solver.
  - apply Hown. set_solver.
  - intros E. apply NoDup_app in Hab as (_ & Hab & _). apply (Hab (tpid a)); [done|]. by rewrite E.
Qed.

(** The surroundings of a pair survive writes to its own pages. *)
Lemma pair_frame bt m m' h f fs sep a b lo hi nxt lo0 hi0 nxt0 :
  pair_at bt m h f fs sep a b lo hi nxt lo0 hi0 nxt0 →
  (∀ p, p ∉ f_pid f :: pids a ++ pids b → page_eq cfg m m' p) →
  lctx (tree_ok cfg m' h) lo0 (f_ksL f) (f_csL f) (first_pid a) lo ∧
  rctx (tree_ok cfg m' h) hi0 nxt0 (f_ksR f) (f_csR f) hi nxt ∧
  zip_ok cfg m' (Datatypes.S h) fs (f_pid f) (first_of (f_csL f) (first_pid a)) lo0 hi0 nxt0.
Proof.
  intros Hp Heq. destruct (pair_facts _ _ _ _ _ _ _ _ _ _ _ _ _ _ Hp) as (_ & _ & _ & _ & _ & Hoth & _).
  destruct Hp as [_ _ _ _ Hl Hr _ _ _ Hz]. split_and!.
  - eapply lctx_mono; [|exact Hl]. intros lo1 hi1 nxt1 c Hc. apply tree_frame. intros p Hpc. apply Heq, Hoth.
    apply elem_of_app. right. apply elem_of_app. left. by eapply elem_pids_child.
  - eapply rctx_mono; [|exact Hr]. intros lo1 hi1 nxt1 c Hc. apply tree_frame. intros p Hpc. apply Heq, Hoth.
    apply elem_of_app. right. apply elem_of_app. right. by eapply elem_pids_child.
  - eapply zip_frame; [|exact Hz]. intros p Hpz. apply Heq, Hoth. apply elem_of_app. by left.
Qed.

(** The pair rearranged: same pages, same entries, another separator. *)
Lemma pair_done bt m h f fs sep a b lo hi nxt lo0 hi0 nxt0 s' m' k' a' b' :
  pair_at bt m h f fs sep a b lo hi nxt lo0 hi0 nxt0 →
  ps_rep s' m' → (∀ p, p ∉ f_pid f :: pids a ++ pids b → page_eq cfg m m' p) →
  (∀ p, is_Some (m' !! p) ↔ is_Some (m !! p)) → pids a' ++ pids b' ≡ₚ pids a ++ pids b → first_pid a' = first_pid a →
  node_page cfg m' (f_pid f) (f_ksL f ++ k' :: f_ksR f) (tpid <$> f_csL f ++ a' :: b' :: f_csR f) →
  tree_ok cfg m' h lo (Some k') (first_pid b') a' → tree_ok cfg m' h (Some k') hi nxt b' → between lo hi k' →
  let t := fill2 f k' a' b' in
  zip_holds (with_store s' bt) m' fs [t] ∧ zip_ok cfg m' (Datatypes.S h) fs (tpid t) (first_pid t) lo0 hi0 nxt0 ∧
  tree_ok cfg m' (Datatypes.S h) lo0 hi0 nxt0 t.
Proof.
  intros Hp Hs' Heq Ho' Hpids Hfirst Hn Ha' Hb' Hk t.
  destruct (pair_frame _ _ _ _ _ _ _ _ _ _ _ _ _ _ _ Hp Heq) as (Hl & Hr & Hz).
  destruct Hp as [[_ Hnd Ho] HlL HlR _ _ _ _ _ _ _]. rewrite <- Hfirst in Hl, Hz.
  assert (Hperm : meta_page_id bt :: zpids (f :: fs) ++ mjoin (pids <$> [a; b]) ≡ₚ meta_page_id bt :: zpids fs ++ mjoin (pids <$> [t])).
  { constructor. unfold t, fill2. rewrite pids_frame_fill, pids_node, !mjoin_pids_app. cbn. rewrite !app_nil_r.
    apply Permutation_app_head. constructor. apply Permutation_app_head. rewrite !app_assoc. apply Permutation_app_tail. by rewrite Hpids. }
  split_and!.
  - constructor; cbn [bt_pm meta_page_id with_store]; [done|by rewrite <- Hperm|]. intros p. by rewrite <- Hperm, Ho', Ho.
  - cbn [t fill2 tpid first_pid]. unfold t, fill2. cbn [first_pid]. destruct (f_csL f); exact Hz.
  - split; [exact Hn|]. by eapply forest_split_child.
Qed.

(** The pair merged into [c], the page of [b] given back. *)
Lemma pair_merged bt m h f fs sep a b lo hi nxt lo0 hi0 nxt0 s' m' c :
  pair_at bt m h f fs sep a b lo hi nxt lo0 hi0 nxt0 →
  ps_rep s' m' → (∀ p, p ∉ f_pid f :: pids a ++ pids b → page_eq cfg m m' p) →
  (∀ p, is_Some (m' !! p) ↔ is_Some (m !! p) ∧ p ≠ tpid b) → pids a ++ pids b ≡ₚ tpid b :: pids c → first_pid c = first_pid a →
  tree_ok cfg m' h lo hi nxt c →
  node_ready cfg (with_store s' bt) m' h fs (f_pid f) (f_ksL f ++ f_ksR f) (f_csL f ++ c :: f_csR f) lo0 hi0 nxt0.
Proof.
  intros Hp Hs' Heq Ho' Hpids Hfirst Hc.
  destruct (pair_frame _ _ _ _ _ _ _ _ _ _ _ _ _ _ _ Hp Heq) as (Hl & Hr & Hz).
  destruct (pair_facts _ _ _ _ _ _ _ _ _ _ _ _ _ _ Hp) as (_ & _ & _ & _ & _ & _ & _ & Hkf & _ & Hcfg & _).
  destruct Hp as [[_ Hnd Ho] HlL HlR _ _ _ [Hs1 Hs2] _ _ _]. rewrite <- Hfirst in Hl, Hz.
  assert (Hperm : meta_page_id bt :: zpids (f :: fs) ++ mjoin (pids <$> [a; b]) ≡ₚ
    tpid b :: meta_page_id bt :: zpids fs ++ mjoin (pids <$> [TNode (f_pid f) (f_ksL f ++ f_ksR f) (f_csL f ++ c :: f_csR f)])).
  { rewrite pids_frame_fill, pids_node, !mjoin_pids_app. cbn. rewrite !app_nil_r, Hpids. solve_Permutation. }
  rewrite Hperm in Hnd. apply NoDup_cons in Hnd as [Hb Hnd]. constructor; [| | | |done].
  - constructor; cbn [bt_pm meta_page_id with_store]; [done|done|]. intros p. rewrite Ho', Ho, Hperm, elem_of_cons. split.
    + by intros [[?|?] ?].
    + intros Hin. split; [by right|]. by intros ->.
  - cbn [first_pid]. destruct (f_csL f); exact Hz.
  - apply (proj2 (forest_hole (tree_ok cfg m' h) lo0 hi0 nxt0 _ _ _ _ c HlL HlR)). exists lo, hi, nxt. split_and!; try done.
    destruct lo, hi; simpl in *; try done. by transitivity sep.
  - apply Forall_app in Hkf as [? [? ?]%Forall_cons]. by apply Forall_app.
Qed.

(** ** The parent, in memory *)

Lemma set_key_node pid ksL sep ksR cids k :
  (length ksL + length ksR < length cids)%nat → (length (ksL ++ sep :: ksR) ≤ length cids)%nat →
  set_key (length ksL) k (node_of cfg pid (ksL ++ sep :: ksR) cids) = Ok (node_of cfg pid (ksL ++ k :: ksR) cids).
Proof.
  intros Hl Hl2. unfold set_key, node_of. cbn [in_entries in_page_id num_keys right_child in_config].
  destruct (lookup_lt_is_Some_2 cids (length ksL) ltac:(lia)) as [x Hx].
  assert (Hz : zip (ksL ++ sep :: ksR) cids !! length ksL = Some (sep, x)).
  { apply lookup_zip_Some. split; [|done]. by rewrite lookup_app_r, Nat.sub_diag by lia. }
  rewrite Hz. cbn [mret outcome_ret snd]. unfold mret, outcome_ret. do 2 f_equal; [rewrite !length_app; simpl; lia|].
  apply list_eq. intros i. destruct (decide (i = length ksL)) as [->|Hne].
  - rewrite list_lookup_insert_eq by (by apply lookup_lt_Some in Hz). symmetry. apply lookup_zip_Some. split; [|done].
    by rewrite lookup_app_r, Nat.sub_diag by lia.
  - rewrite list_lookup_insert_ne by done. rewrite !lookup_zip_with.
    assert ((ksL ++ sep :: ksR) !! i = (ksL ++ k :: ksR) !! i) as ->; [|done].
    destruct (decide (i < length ksL)%nat); [by rewrite !lookup_app_l by lia|]. rewrite !lookup_app_r by lia.
    destruct (i - length ksL)%nat eqn:E; [lia|done].
Qed.

Lemma drop_child_node pid ksL sep ksR cidsL x y cidsR :
  length cidsL = length ksL → length cidsR = length ksR → (length (ksL ++ sep :: ksR) ≤ 2000)%nat →
  drop_child (length cidsL + 1) (node_of cfg pid (ksL ++ sep :: ksR) (cidsL ++ x :: y :: cidsR)) =
    Ok (node_of cfg pid (ksL ++ ksR) (cidsL ++ x :: cidsR)).
Proof.
  intros HlL HlR Hlen. unfold drop_child. cbn [node_of in_entries right_child in_page_id in_config].
  assert (Hl : length (ksL ++ sep :: ksR) = (length ksL + length ksR + 1)%nat) by (rewrite length_app; simpl; lia).
  assert (Hlc : length (cidsL ++ x :: y :: cidsR) = (length ksL + length ksR + 2)%nat) by (rewrite length_app; simpl; lia).
  rewrite zip_fst by lia. assert (Hch : (zip (ksL ++ sep :: ksR) (cidsL ++ x :: y :: cidsR)).*2 ++
    [default 0 (last (cidsL ++ x :: y :: cidsR))] = cidsL ++ x :: y :: cidsR).
  { destruct (last (cidsL ++ x :: y :: cidsR)) as [z|] eqn:E; [|apply last_None in E; by destruct cidsL].
    apply last_Some in E as [l E]. rewrite E in Hlc |- *. rewrite length_app in Hlc. simpl in Hlc. cbn [default]. f_equal.
    assert (Hz : zip (ksL ++ sep :: ksR) (l ++ [z]) = zip (ksL ++ sep :: ksR) l).
    { rewrite <- (zip_take_extra _ (l ++ [z]) (length l)) by lia. by rewrite take_app_length. }
    rewrite Hz. apply snd_zip. lia. }
  rewrite Hch. rewrite decide_True by lia. rewrite (decide_True (P:=(0 < length cidsL + 1)%nat)) by lia.
  rewrite (decide_False (P:=ksL ++ sep :: ksR = [])) by (by destruct ksL).
  assert (Hd1 : delete (length cidsL + 1)%nat (cidsL ++ x :: y :: cidsR) = cidsL ++ x :: cidsR).
  { pose proof (delete_middle (cidsL ++ [x]) cidsR y) as Hd. rewrite length_app, <- !app_assoc in Hd. exact Hd. }
  assert (Hd2 : delete (length cidsL + 1 - 1)%nat (ksL ++ sep :: ksR) = ksL ++ ksR).
  { replace (length cidsL + 1 - 1)%nat with (length ksL) by lia. apply delete_middle. }
  rewrite Hd1, Hd2. rewrite decide_True by (rewrite !length_app; simpl; lia). unfold node_of, mret, outcome_ret.
  rewrite len_u16_small by (rewrite length_app; lia). done.
Qed.

(** ** The outcome of a rebalancing *)

(** The tree still holds [n] as its count, and the entries [kv]. *)
Definition rebalanced bt bt' (n : Z) (kv : list (K * (Z * Z))) : Prop :=
  (∃ m' h' t, bt_holds cfg bt' m' h' t n ∧ kvs t = kv) ∧
  meta_page_id bt' = meta_page_id bt ∧ height (bt_meta bt') ≤ height (bt_meta bt).

Lemma store_rebalanced bt m' h fs lo hi nxt s t t0 n :
  zip_holds (with_store s bt) m' fs [t] → zip_ok cfg m' h fs (tpid t) (first_pid t) lo hi nxt → tree_ok cfg m' h lo hi nxt t →
  bt_meta bt = mkMeta (tpid (plug fs t0)) (Z.of_nat (length fs + h) + 1) n cfg → tpid t0 = tpid t →
  rebalanced bt (with_store s bt) n (zpre fs ++ kvs t ++ zpost fs).
Proof.
  intros Hzh Hz Ht Hm Hid. split; [|split; [done|cbn; lia]]. exists m', (length fs + h)%nat, (plug fs t). split; [|apply kvs_plug].
  eapply zip_holds_plug; [done|done|done|]. cbn [bt_meta with_store]. rewrite Hm. f_equal. by apply tpid_plug.
Qed.

(** The parent of a pair, written with another separator. *)
Lemma save_parent_ok bt m1 f k' (cids : list Z) :
  ps_rep (bt_pm bt) m1 → is_Some (m1 !! f_pid f) → config_ok cfg → is_u32 (f_pid f) →
  Forall (key_fits cfg) (f_ksL f ++ k' :: f_ksR f) → (length (f_ksL f ++ k' :: f_ksR f) ≤ internal_max_keys cfg)%nat →
  Forall is_u32 cids → length cids = Datatypes.S (length (f_ksL f ++ k' :: f_ksR f)) →
  ∃ s d, save_internal (node_of cfg (f_pid f) (f_ksL f ++ k' :: f_ksR f) cids) bt = (Ok tt, with_store s bt) ∧
    ps_rep s (<[f_pid f := d]> m1) ∧ ps_room s = ps_room (bt_pm bt) ∧
    node_page cfg (<[f_pid f := d]> m1) (f_pid f) (f_ksL f ++ k' :: f_ksR f) cids.
Proof.
  intros Hs [d0 Hd0] Hc Hu Hk Hl Hcu Hcl.
  destruct (save_internal_ok cfg bt m1 (node_of cfg (f_pid f) (f_ksL f ++ k' :: f_ksR f) cids) d0 Hs) as (s & d & Hsave & Hs' & Hr & Hpage); [|done|].
  { by apply internal_ok_node. }
  exists s, d. split_and!; try done. apply Hpage; [apply lookup_insert_eq|done].
Qed.

(** What the parent needs, from the pair. *)
Lemma pair_parent bt m h f fs sep a b lo hi nxt lo0 hi0 nxt0 k' a' b' :
  pair_at bt m h f fs sep a b lo hi nxt lo0 hi0 nxt0 → key_fits cfg k' → tpid a' = tpid a → tpid b' = tpid b →
  let cids := tpid <$> f_csL f ++ a' :: b' :: f_csR f in
  Forall (key_fits cfg) (f_ksL f ++ k' :: f_ksR f) ∧ (length (f_ksL f ++ k' :: f_ksR f) ≤ internal_max_keys cfg)%nat ∧
  Forall is_u32 cids ∧ length cids = Datatypes.S (length (f_ksL f ++ k' :: f_ksR f)).
Proof.
  intros Hp Hk Ea Eb cids. destruct (pair_facts _ _ _ _ _ _ _ _ _ _ _ _ _ _ Hp) as
    (_ & _ & _ & _ & _ & _ & _ & Hkf & Hkl & _ & HuL & HuR & Hua & Hub & _). destruct Hp as [_ HlL HlR _ _ _ _ _ _ _].
  apply Forall_app in Hkf as [? [? ?]%Forall_cons]. rewrite length_app in Hkl. simpl in Hkl. split_and!.
  - apply Forall_app. split; [done|]. by constructor.
  - rewrite length_app. simpl. lia.
  - unfold cids. rewrite fmap_app, !fmap_cons, Ea, Eb. apply Forall_app. split; [done|]. by do 2 (constructor; [done|]).
  - unfold cids. rewrite length_fmap, !length_app. simpl. lia.
Qed.

(** ** Leaves *)

Lemma leaf_page_entries m pid nxt es :
  leaf_page cfg m pid nxt es → Forall (λ e, entry_fits cfg e.1 e.2) es ∧ (length es ≤ leaf_max_entries cfg)%nat ∧ is_u32 nxt.
Proof. intros (d & prev & _ & _ & _ & [_ _ Hn _ _ He Hl]). done. Qed.

(** The two leaves of a pair hold one sorted run of entries. *)
Lemma leaf_pair_run bt m f fs sep pa ea pb eb lo hi nxt lo0 hi0 nxt0 :
  pair_at bt m 0 f fs sep (TLeaf pa ea) (TLeaf pb eb) lo hi nxt lo0 hi0 nxt0 →
  bt_sorted (ea ++ eb) ∧ Forall (within lo hi) (ea ++ eb) ∧ Forall (λ e, entry_fits cfg e.1 e.2) (ea ++ eb) ∧
  (length ea ≤ leaf_max_entries cfg)%nat ∧ (length eb ≤ leaf_max_entries cfg)%nat ∧ is_u32 nxt.
Proof.
  intros [_ _ _ _ _ _ [Hk1 Hk2] (Hpa & Hsa & Hwa) (Hpb & Hsb & Hwb) _].
  destruct (leaf_page_entries _ _ _ _ Hpa) as (Hfa & Hla & _). destruct (leaf_page_entries _ _ _ _ Hpb) as (Hfb & Hlb & Hn).
  rewrite Forall_forall in Hwa. rewrite Forall_forall in Hwb. split_and!; try done.
  - apply bt_sorted_app; [done..|]. intros x y Hx Hy. eapply klt_le_trans; [by apply Hwa|by apply Hwb].
  - apply Forall_app. split; apply Forall_forall.
    + intros e He. destruct (Hwa e He) as [H1 H2]. split; [done|]. destruct hi; [|done]. simpl in *. by transitivity sep.
    + intros e He. destruct (Hwb e He) as [H1 H2]. split; [|done]. destruct lo; [|done]. simpl in *.
      apply klt_le. by eapply klt_le_trans.
  - by apply Forall_app.
Qed.

Lemma put_leaves_ok bt m f fs sep pa ea pb eb lo hi nxt lo0 hi0 nxt0 prevA prevB ea' k v eb' :
  pair_at bt m 0 f fs sep (TLeaf pa ea) (TLeaf pb eb) lo hi nxt lo0 hi0 nxt0 →
  ea' ++ (k, v) :: eb' = ea ++ eb → ea' ≠ [] → is_u32 prevA → is_u32 prevB →
  (length ea' ≤ leaf_max_entries cfg)%nat → (length ((k, v) :: eb') ≤ leaf_max_entries cfg)%nat →
  ∃ s m', let t := fill2 f k (TLeaf pa ea') (TLeaf pb ((k, v) :: eb')) in
    (_ ← save_leaf (mkLeaf pa (Z.of_nat (length ea')) pb prevA cfg ea');
     _ ← save_leaf (mkLeaf pb (Z.of_nat (length ((k, v) :: eb'))) nxt prevB cfg ((k, v) :: eb'));
     save_internal (node_of cfg (f_pid f) (f_ksL f ++ k :: f_ksR f) ((tpid <$> f_csL f) ++ pa :: pb :: (tpid <$> f_csR f)))) bt
      = (Ok tt, with_store s bt) ∧
    zip_holds (with_store s bt) m' fs [t] ∧ zip_ok cfg m' 1 fs (tpid t) (first_pid t) lo0 hi0 nxt0 ∧ tree_ok cfg m' 1 lo0 hi0 nxt0 t.
Proof.
  intros Hp Hrun Hne HuA HuB HlA HlB. destruct (leaf_pair_run _ _ _ _ _ _ _ _ _ _ _ _ _ _ _ Hp) as (Hsort & Hwith & Hfit & _ & _ & Hnu).
  destruct (pair_facts _ _ _ _ _ _ _ _ _ _ _ _ _ _ Hp) as (_ & Hfp & _ & [dP HdP] & HuP & _ & Hown & _ & _ & Hc & _ & _ & Hpa & Hpb & Hab).
  cbn [tpid pids app] in *. rewrite <- Hrun in Hsort, Hwith, Hfit.
  destruct (halves_ok lo hi (ea' ++ (k, v) :: eb') (length ea') k v eb' Hsort Hwith) as (HsA & HsB & HwA & HwB & Hk).
  { destruct ea'; [done|]. simpl. lia. } { by rewrite drop_app_length. }
  rewrite take_app_length, drop_app_length in *. apply Forall_app in Hfit as [HfA HfB].
  set (eB := (k, v) :: eb') in *.
  pose proof (leaf_ok_with cfg pa pb prevA ea' Hpa Hpb HuA Hc HfA HlA) as HokA.
  pose proof (leaf_ok_with cfg pb nxt prevB eB Hpb Hnu HuB Hc HfB HlB) as HokB.
  destruct (Hown pa ltac:(by left)) as [[dA HdA] _]. destruct (Hown pb ltac:(right; by left)) as [[dB HdB] _].
  pose proof (zh_store _ _ _ _ (pa_holds _ _ _ _ _ _ _ _ _ _ _ _ _ _ Hp)) as Hs.
  destruct (save_leaf_ok bt m _ dA Hs HokA HdA) as (s1 & d1 & Hsave1 & Hs1 & _ & HpA).
  destruct (save_leaf_ok (with_store s1 bt) _ _ dB Hs1 HokB) as (s2 & d2 & Hsave2 & Hs2 & _ & HpB).
  { cbn [lf_page_id]. by rewrite lookup_insert_ne. }
  cbn [lf_page_id lf_config next_leaf lf_entries] in *. set (m2 := <[pb:=d2]> (<[pa:=d1]> m)) in *.
  destruct (pair_parent _ _ _ _ _ _ _ _ _ _ _ _ _ _ k (TLeaf pa ea') (TLeaf pb eB) Hp) as (Hkf & Hkl & Hcu & Hcl); [|done|done|].
  { apply Forall_cons in HfB as [[HfB _] _]. exact HfB. }
  assert (Hfa : f_pid f ≠ pa) by (intros E; apply Hfp; rewrite E; by left).
  assert (Hfb : f_pid f ≠ pb) by (intros E; apply Hfp; rewrite E; right; by left).
  destruct (save_parent_ok (with_store s2 (with_store s1 bt)) m2 f k (tpid <$> f_csL f ++ TLeaf pa ea' :: TLeaf pb eB :: f_csR f) Hs2)
    as (s3 & d3 & Hsave3 & Hs3 & _ & HpP); try done.
  { unfold m2. rewrite !lookup_insert_ne by done. eauto. }
  set (m3 := <[f_pid f:=d3]> m2) in *. exists s3, m3. cbv zeta.
  assert (Hpd := pair_done bt m 0 f fs sep (TLeaf pa ea) (TLeaf pb eb) lo hi nxt lo0 hi0 nxt0 s3 m3 k (TLeaf pa ea') (TLeaf pb eB) Hp Hs3).
  split; [|apply Hpd; try done].
  - erewrite st_step by exact Hsave1. erewrite st_step by exact Hsave2. rewrite fmap_app, !fmap_cons in Hsave3. exact Hsave3.
  - intros p [Hp1 [Hp2 Hp3]%not_elem_of_cons]%not_elem_of_cons. apply not_elem_of_cons in Hp3 as [Hp3 _].
    left. unfold m3, m2. by rewrite !lookup_insert_ne by done.
  - intros p. unfold m3, m2. rewrite !owned_insert; [done|by exists dA|rewrite owned_insert; [by exists dB|by exists dA]|].
    rewrite !owned_insert; [by exists dP|by exists dA|rewrite owned_insert; [by exists dB|by exists dA]].
  - cbn [tree_ok]. split_and!; try done. apply HpA. unfold m3, m2. rewrite !lookup_insert_ne by done. apply lookup_insert_eq.
  - cbn [tree_ok]. split_and!; try done. apply HpB. unfold m3, m2. rewrite lookup_insert_ne by done. apply lookup_insert_eq.
Qed.

(** An operation on the pair that leaves a stored tree with the same entries. *)
Definition pair_result (c : ST (BTree K S) GrumpyError unit) bt (h : nat) f fs sep a b (lo0 hi0 : option K) (nxt0 : Z) : Prop :=
  ∃ s m' t, c bt = (Ok tt, with_store s bt) ∧ zip_holds (with_store s bt) m' fs [t] ∧
    zip_ok cfg m' (Datatypes.S h) fs (tpid t) (first_pid t) lo0 hi0 nxt0 ∧ tree_ok cfg m' (Datatypes.S h) lo0 hi0 nxt0 t ∧
    tpid t = f_pid f ∧ kvs t = kvs (fill2 f sep a b).

Lemma kvs_fill2 f sep a b : kvs (fill2 f sep a b) = mjoin (kvs <$> f_csL f) ++ (kvs a ++ kvs b) ++ mjoin (kvs <$> f_csR f).
Proof. unfold fill2. cbn [kvs]. rewrite fmap_app, join_app, !fmap_cons. cbn [mjoin list_join]. by rewrite <- !app_assoc. Qed.

Lemma pair_node_lengths bt m h f fs sep a b lo hi nxt lo0 hi0 nxt0 :
  pair_at bt m h f fs sep a b lo hi nxt lo0 hi0 nxt0 →
  let cids := (tpid <$> f_csL f) ++ tpid a :: tpid b :: (tpid <$> f_csR f) in
  length cids = (length (f_ksL f) + length (f_ksR f) + 2)%nat ∧
  length (f_ksL f ++ sep :: f_ksR f) = (length (f_ksL f) + length (f_ksR f) + 1)%nat ∧ length (f_csL f) = length (f_ksL f).
Proof.
  intros [_ HlL HlR _ _ _ _ _ _ _] cids. unfold cids. rewrite !length_app. simpl. rewrite !length_fmap. lia.
Qed.

Lemma leaf_from_left_ok bt m f fs sep pa ea pb eb lo hi nxt lo0 hi0 nxt0 prevA prevB :
  pair_at bt m 0 f fs sep (TLeaf pa ea) (TLeaf pb eb) lo hi nxt lo0 hi0 nxt0 →
  (2 ≤ length ea)%nat → (length eb < leaf_max_entries cfg)%nat → is_u32 prevA → is_u32 prevB →
  pair_result (redistribute_leaf_from_left (mkLeaf pa (Z.of_nat (length ea)) pb prevA cfg ea)
      (mkLeaf pb (Z.of_nat (length eb)) nxt prevB cfg eb)
      (node_of cfg (f_pid f) (f_ksL f ++ sep :: f_ksR f) ((tpid <$> f_csL f) ++ pa :: pb :: (tpid <$> f_csR f)))
      (length (f_csL f) + 1)) bt 0 f fs sep (TLeaf pa ea) (TLeaf pb eb) lo0 hi0 nxt0.
Proof.
  intros Hp Hla Hlb HuA HuB. destruct (leaf_pair_run _ _ _ _ _ _ _ _ _ _ _ _ _ _ _ Hp) as (Hsort & _ & _ & HlA & HlB & _).
  destruct (pair_facts _ _ _ _ _ _ _ _ _ _ _ _ _ _ Hp) as (_ & _ & _ & _ & _ & _ & _ & _ & _ & Hc & _).
  pose proof (leaf_max_4 cfg Hc). destruct (pair_node_lengths _ _ _ _ _ _ _ _ _ _ _ _ _ _ Hp) as (Hcl & Hkl & HlL). cbn [tpid] in Hcl.
  destruct ea as [|[k v] ea'] using rev_ind; [simpl in Hla; lia|]. clear IHea'. rewrite length_app in Hla, HlA. simpl in Hla, HlA.
  rewrite <- app_assoc in Hsort. cbn [app] in Hsort. pose proof Hsort as (_ & _ & Hsb)%StronglySorted_app.
  apply bt_sorted_cons in Hsb as [Hall Hsb].
  destruct (leaf_insert_ok cfg pb nxt prevB eb k v Hsb (bt_get_below _ _ Hall) ltac:(lia)) as [Hins _].
  pose proof (bt_insert_between k v [] eb ltac:(constructor) Hall) as Hb. cbn [app] in Hb. rewrite Hb in Hins.
  destruct (put_leaves_ok bt m f fs sep pa (ea' ++ [(k, v)]) pb eb lo hi nxt lo0 hi0 nxt0 prevA prevB ea' k v eb Hp) as
    (s & m' & Hrun & Hzh & Hz & Ht); [by rewrite <- app_assoc|intros ->; simpl in Hla; lia|done|done|lia|simpl; lia|].
  eexists s, m', _. split; [|split; [exact Hzh|split; [exact Hz|split; [exact Ht|split; [done|]]]]].
  - unfold redistribute_leaf_from_left. cbn [lf_entries]. rewrite last_snoc. cbn [num_entries].
    erewrite st_step by (unfold st_lift, u16_dec; rewrite decide_True by (rewrite length_app; simpl; lia); reflexivity).
    cbn [lf_page_id next_leaf prev_leaf lf_config]. rewrite removelast_last.
    erewrite st_step by (unfold st_lift; rewrite Hins; reflexivity). cbn [lf_entries fst].
    replace (length (f_csL f) + 1 - 1)%nat with (length (f_ksL f)) by lia.
    erewrite st_step by (unfold st_lift; rewrite set_key_node by lia; reflexivity).
    replace (Z.of_nat (length (ea' ++ [(k, v)])) - 1) with (Z.of_nat (length ea')) by (rewrite length_app; simpl; lia).
    exact Hrun.
  - rewrite !kvs_fill2. cbn [kvs]. by rewrite <- (app_assoc ea' [(k, v)] eb).
Qed.

Lemma leaf_from_right_ok bt m f fs sep pa ea pb eb lo hi nxt lo0 hi0 nxt0 prevA prevB :
  pair_at bt m 0 f fs sep (TLeaf pa ea) (TLeaf pb eb) lo hi nxt lo0 hi0 nxt0 →
  (2 ≤ length eb)%nat → (length ea < leaf_max_entries cfg)%nat → is_u32 prevA → is_u32 prevB →
  pair_result (redistribute_leaf_from_right (mkLeaf pa (Z.of_nat (length ea)) pb prevA cfg ea)
      (mkLeaf pb (Z.of_nat (length eb)) nxt prevB cfg eb)
      (node_of cfg (f_pid f) (f_ksL f ++ sep :: f_ksR f) ((tpid <$> f_csL f) ++ pa :: pb :: (tpid <$> f_csR f)))
      (length (f_csL f))) bt 0 f fs sep (TLeaf pa ea) (TLeaf pb eb) lo0 hi0 nxt0.
Proof.
  intros Hp Hlb Hla HuA HuB. destruct (leaf_pair_run _ _ _ _ _ _ _ _ _ _ _ _ _ _ _ Hp) as (Hsort & _ & _ & HlA & HlB & _).
  destruct (pair_facts _ _ _ _ _ _ _ _ _ _ _ _ _ _ Hp) as (_ & _ & _ & _ & _ & _ & _ & _ & _ & Hc & _).
  pose proof (leaf_max_4 cfg Hc). destruct (pair_node_lengths _ _ _ _ _ _ _ _ _ _ _ _ _ _ Hp) as (Hcl & Hkl & HlL). cbn [tpid] in Hcl.
  destruct eb as [|[k v] [|[k2 v2] eb']]; [simpl in Hlb; lia..|]. cbn [length] in HlB.
  apply StronglySorted_app in Hsort as (Hlt & Hsa & Hsb).
  assert (Hall : Forall (λ e, klt e.1 k) ea) by (apply Forall_forall; intros e He; apply (Hlt e (k, v) He); by left).
  destruct (leaf_insert_ok cfg pa pb prevA ea k v Hsa) as [Hins _]; [|lia|].
  { rewrite <- (app_nil_r ea). apply bt_get_between; [done|constructor]. }
  rewrite (bt_insert_last k v ea Hall) in Hins.
  destruct (put_leaves_ok bt m f fs sep pa ea pb ((k, v) :: (k2, v2) :: eb') lo hi nxt lo0 hi0 nxt0 prevA prevB (ea ++ [(k, v)]) k2 v2 eb' Hp) as
    (s & m' & Hrun & Hzh & Hz & Ht); [by rewrite <- app_assoc|by destruct ea|done|done|rewrite length_app; simpl; lia|simpl; lia|].
  eexists s, m', _. split; [|split; [exact Hzh|split; [exact Hz|split; [exact Ht|split; [done|]]]]].
  - unfold redistribute_leaf_from_right. cbn [lf_entries num_entries].
    erewrite st_step by (unfold st_lift, u16_dec; rewrite decide_True by (simpl; lia); reflexivity).
    cbn [lf_page_id next_leaf prev_leaf lf_config].
    erewrite st_step by (unfold st_lift; rewrite Hins; reflexivity). cbn [in_entries node_of].
    rewrite decide_True by (rewrite length_zip; lia). cbn [fst]. rewrite HlL.
    fold (node_of cfg (f_pid f) (f_ksL f ++ sep :: f_ksR f) ((tpid <$> f_csL f) ++ pa :: pb :: (tpid <$> f_csR f))).
    erewrite st_step by (unfold st_lift; rewrite set_key_node by lia; reflexivity).
    replace (Z.of_nat (length ((k, v) :: (k2, v2) :: eb')) - 1) with (Z.of_nat (length ((k2, v2) :: eb'))) by (simpl; lia).
    exact Hrun.
  - rewrite !kvs_fill2. cbn [kvs]. by rewrite <- (app_assoc ea [(k, v)] ((k2, v2) :: eb')).
Qed.

Lemma insert_entries_ok pid nxt prev ea eb :
  bt_sorted (ea ++ eb) → (length (ea ++ eb) ≤ 2000)%nat →
  insert_entries eb (mkLeaf pid (Z.of_nat (length ea)) nxt prev cfg ea) =
    Ok (mkLeaf pid (Z.of_nat (length (ea ++ eb))) nxt prev cfg (ea ++ eb)).
Proof.
  revert ea. induction eb as [|[k v] eb IH]; intros ea Hs Hl; cbn [insert_entries].
  { by rewrite app_nil_r. }
  pose proof Hs as (Hlt & Hsa & _)%StronglySorted_app.
  assert (Hall : Forall (λ e, klt e.1 k) ea) by (apply Forall_forall; intros e He; apply (Hlt e (k, v) He); by left).
  destruct (leaf_insert_ok cfg pid nxt prev ea k v Hsa) as [Hins _]; [|rewrite length_app in Hl; lia|].
  { rewrite <- (app_nil_r ea). apply bt_get_between; [done|constructor]. }
  rewrite (bt_insert_last k v ea Hall) in Hins. rewrite Hins. cbn [mbind outcome_bind].
  rewrite IH; rewrite <- (app_assoc ea [(k, v)] eb); done.
Qed.

Lemma page_eq_trans m m1 m2 p : page_eq cfg m m1 p → m2 !! p = m1 !! p → page_eq cfg m m2 p.
Proof.
  intros [He|(nxt & es & H1 & d & q & H2)] Hl; [left; congruence|]. right. exists nxt, es. split; [done|]. exists d, q. by rewrite Hl.
Qed.

Lemma merge_leaves_ok bt m f fs sep pa ea pb eb lo hi nxt lo0 hi0 nxt0 prevA prevB idx path :
  pair_at bt m 0 f fs sep (TLeaf pa ea) (TLeaf pb eb) lo hi nxt lo0 hi0 nxt0 →
  (length ea + length eb ≤ leaf_max_entries cfg)%nat → is_u32 prevA → is_u32 prevB →
  let parent := node_of cfg (f_pid f) (f_ksL f ++ sep :: f_ksR f) ((tpid <$> f_csL f) ++ pa :: pb :: (tpid <$> f_csR f)) in
  ∃ s m', merge_leaves (mkLeaf pa (Z.of_nat (length ea)) pb prevA cfg ea) (mkLeaf pb (Z.of_nat (length eb)) nxt prevB cfg eb)
      parent idx path bt = remove_from_internal parent idx path (with_store s bt) ∧
    node_ready cfg (with_store s bt) m' 0 fs (f_pid f) (f_ksL f ++ f_ksR f) (f_csL f ++ TLeaf pa (ea ++ eb) :: f_csR f) lo0 hi0 nxt0.
Proof.
  intros Hp Hlen HuA HuB parent. destruct (leaf_pair_run _ _ _ _ _ _ _ _ _ _ _ _ _ _ _ Hp) as (Hsort & Hwith & Hfit & _ & _ & Hnu).
  destruct (pair_facts _ _ _ _ _ _ _ _ _ _ _ _ _ _ Hp) as (_ & Hfp & _ & _ & _ & Hoth & Hown & _ & _ & Hc & _ & _ & Hpa & Hpb & Hab).
  cbn [tpid pids app] in *. pose proof (leaf_max_4 cfg Hc) as Hmax.
  pose proof (insert_entries_ok pa pb prevA ea eb Hsort ltac:(rewrite length_app; lia)) as Hins.
  assert (Hnx : ∃ nxt' es', nxt ≠ 0 → leaf_page cfg m nxt nxt' es').
  { pose proof (pair_zip_right _ _ _ _ _ _ _ _ _ _ _ _ _ _ Hp) as Hz.
    destruct (zip_next _ _ _ _ _ _ _ _ _ Hz) as [->|(_ & nxt' & es' & Hl)]; [by exists 0, []|by exists nxt', es']. }
  destruct Hnx as (nxt' & es' & Hnx).
  pose proof (zh_store _ _ _ _ (pa_holds _ _ _ _ _ _ _ _ _ _ _ _ _ _ Hp)) as Hs.
  destruct (relink_ok cfg bt m nxt pa nxt' es' Hs Hnx Hpa) as (s1 & m1 & Hrel & Hs1 & _ & Heq & _).
  destruct (proj2 (page_eq_owned cfg m m1 pb (Heq pb))) as [dB HdB]; [by apply Hown; right; left|].
  destruct (proj2 (page_eq_owned cfg m m1 pa (Heq pa))) as [dA HdA]; [by apply Hown; left|].
  destruct (ps_free_ok s1 m1 pb dB Hs1 HdB) as (s2 & Hfree & Hs2 & _).
  pose proof (leaf_ok_with cfg pa nxt prevA (ea ++ eb) Hpa Hnu HuA Hc Hfit ltac:(rewrite length_app; lia)) as Hok.
  destruct (save_leaf_ok (with_store s2 (with_store s1 bt)) (delete pb m1) _ dA Hs2 Hok) as (s3 & d3 & Hsave & Hs3 & _ & Hpage).
  { cbn [lf_page_id]. by rewrite lookup_delete_ne. }
  cbn [lf_page_id lf_config next_leaf lf_entries] in *. exists s3, (<[pa:=d3]> (delete pb m1)). split.
  - unfold merge_leaves. cbn [lf_entries]. erewrite st_step by (unfold st_lift; rewrite Hins; reflexivity).
    cbn [lf_page_id num_entries next_leaf prev_leaf lf_config lf_entries]. erewrite st_step by exact Hrel.
    erewrite st_step by (by apply pm_call_ok). by erewrite st_step by exact Hsave.
  - eapply (pair_merged bt m 0 f fs sep _ _ _ _ _ _ _ _ s3 _ (TLeaf pa (ea ++ eb))); [exact Hp|done| | |cbn; apply Permutation_swap|done|].
    + intros p [_ [Hp2 Hp3]%not_elem_of_cons]%not_elem_of_cons. apply not_elem_of_cons in Hp3 as [Hp3 _].
      eapply page_eq_trans; [apply Heq|]. by rewrite lookup_insert_ne, lookup_delete_ne by done.
    + intros p. cbn [tpid]. rewrite lookup_insert_is_Some', lookup_delete_is_Some, (page_eq_owned cfg m m1 p (Heq p)).
      split; [intros [->|[? ?]]; [|done]|].
      * split; [by apply Hown; left|done].
      * intros [? ?]. right. done.
    + split_and!; try done. apply Hpage, lookup_insert_eq.
Qed.

(** ** Internal nodes *)

Lemma put_nodes_ok bt m h f fs sep pa ka ca pb kb cb lo hi nxt lo0 hi0 nxt0 k' ka' ca' kb' cb' :
  pair_at bt m (Datatypes.S h) f fs sep (TNode pa ka ca) (TNode pb kb cb) lo hi nxt lo0 hi0 nxt0 →
  ca' ++ cb' = ca ++ cb → cb' ≠ [] → first_pid (TNode pa ka' ca') = first_pid (TNode pa ka ca) →
  forest (tree_ok cfg m h) lo (Some k') (first_of cb' nxt) ka' ca' → forest (tree_ok cfg m h) (Some k') hi nxt kb' cb' →
  between lo hi k' → key_fits cfg k' → Forall (key_fits cfg) ka' → Forall (key_fits cfg) kb' →
  (length ka' ≤ internal_max_keys cfg)%nat → (length kb' ≤ internal_max_keys cfg)%nat →
  ∃ s m', let t := fill2 f k' (TNode pa ka' ca') (TNode pb kb' cb') in
    (_ ← save_internal (node_of cfg pa ka' (tpid <$> ca')); _ ← save_internal (node_of cfg pb kb' (tpid <$> cb'));
     save_internal (node_of cfg (f_pid f) (f_ksL f ++ k' :: f_ksR f) ((tpid <$> f_csL f) ++ pa :: pb :: (tpid <$> f_csR f)))) bt
      = (Ok tt, with_store s bt) ∧
    zip_holds (with_store s bt) m' fs [t] ∧ zip_ok cfg m' (Datatypes.S (Datatypes.S h)) fs (tpid t) (first_pid t) lo0 hi0 nxt0 ∧
    tree_ok cfg m' (Datatypes.S (Datatypes.S h)) lo0 hi0 nxt0 t.
Proof.
  intros Hp Hcs Hne Hfirst HfA HfB Hk Hkf HkA HkB HlA HlB.
  destruct (pair_facts _ _ _ _ _ _ _ _ _ _ _ _ _ _ Hp) as (_ & Hfp & Hnd & [dP HdP] & HuP & _ & Hown & _ & _ & Hc & _ & _ & Hpa & Hpb & Hab).
  cbn [tpid] in *.
  assert (Hpids : pa :: pb :: mjoin (pids <$> ca' ++ cb') ≡ₚ pids (TNode pa ka ca) ++ pids (TNode pb kb cb)).
  { rewrite Hcs, mjoin_pids_app. cbn [pids]. solve_Permutation. }
  rewrite <- Hpids in Hfp, Hnd. apply NoDup_cons in Hnd as [Hna Hnd]. apply NoDup_cons in Hnd as [Hnb Hnd].
  destruct (Hown pa) as [[dA HdA] _]; [rewrite <- Hpids; by left|]. destruct (Hown pb) as [[dB HdB] _]; [rewrite <- Hpids; right; by left|].
  pose proof (zh_store _ _ _ _ (pa_holds _ _ _ _ _ _ _ _ _ _ _ _ _ _ Hp)) as Hs.
  assert (HokA : internal_ok (node_of cfg pa ka' (tpid <$> ca'))).
  { apply internal_ok_node; try done; [by eapply forest_owned|]. rewrite length_fmap. by eapply forest_length. }
  assert (HokB : internal_ok (node_of cfg pb kb' (tpid <$> cb'))).
  { apply internal_ok_node; try done; [by eapply forest_owned|]. rewrite length_fmap. by eapply forest_length. }
  destruct (save_internal_ok cfg bt m _ dA Hs HokA HdA) as (s1 & d1 & Hsave1 & Hs1 & _ & HpA).
  destruct (save_internal_ok cfg (with_store s1 bt) _ _ dB Hs1 HokB) as (s2 & d2 & Hsave2 & Hs2 & _ & HpB).
  { cbn [in_page_id node_of]. by rewrite lookup_insert_ne. }
  cbn [in_page_id node_of] in Hs1, Hs2, HpA, HpB. set (m2 := <[pb:=d2]> (<[pa:=d1]> m)) in *.
  destruct (pair_parent _ _ _ _ _ _ _ _ _ _ _ _ _ _ k' (TNode pa ka' ca') (TNode pb kb' cb') Hp Hkf) as (Hkf' & Hkl & Hcu & Hcl); [done|done|].
  assert (Hfa : f_pid f ≠ pa) by (intros E; apply Hfp; rewrite E; by left).
  assert (Hfb : f_pid f ≠ pb) by (intros E; apply Hfp; rewrite E; right; by left).
  destruct (save_parent_ok (with_store s2 (with_store s1 bt)) m2 f k' (tpid <$> f_csL f ++ TNode pa ka' ca' :: TNode pb kb' cb' :: f_csR f) Hs2)
    as (s3 & d3 & Hsave3 & Hs3 & _ & HpP); try done.
  { unfold m2. rewrite !lookup_insert_ne by done. eauto. }
  set (m3 := <[f_pid f:=d3]> m2) in *. exists s3, m3. cbv zeta.
  assert (Hkeep : ∀ p, p ≠ f_pid f → p ≠ pa → p ≠ pb → page_eq cfg m m3 p).
  { intros p H1 H2 H3. left. unfold m3, m2. by rewrite !lookup_insert_ne by done. }
  assert (Hch : ∀ p, p ∈ mjoin (pids <$> ca' ++ cb') → page_eq cfg m m3 p).
  { intros p Hp'. apply Hkeep; intros ->; [apply Hfp; right; by right|apply Hna; by right|done]. }
  assert (Hpd := pair_done bt m _ f fs sep (TNode pa ka ca) (TNode pb kb cb) lo hi nxt lo0 hi0 nxt0 s3 m3 k' (TNode pa ka' ca') (TNode pb kb' cb') Hp Hs3).
  split; [|apply Hpd; try done].
  - erewrite st_step by exact Hsave1. erewrite st_step by exact Hsave2. rewrite fmap_app, !fmap_cons in Hsave3. exact Hsave3.
  - intros p Hp'. rewrite <- Hpids in Hp'. revert Hp'. intros [Hp1 [Hp2 Hp3]%not_elem_of_cons]%not_elem_of_cons. apply not_elem_of_cons in Hp3 as [Hp3 _]. by apply Hkeep.
  - intros p. unfold m3, m2. rewrite !owned_insert; [done|by exists dA|rewrite owned_insert; [by exists dB|by exists dA]|].
    rewrite !owned_insert; [by exists dP|by exists dA|rewrite owned_insert; [by exists dB|by exists dA]].
  - rewrite <- Hpids, mjoin_pids_app. cbn [pids]. solve_Permutation.
  - split; [apply HpA; [|done]|].
    + unfold m3, m2. rewrite !lookup_insert_ne by done. apply lookup_insert_eq.
    + destruct cb' as [|c0 cb']; [done|]. eapply forest_frame; [|exact HfA]. intros p Hp'. apply Hch. rewrite mjoin_pids_app. apply elem_of_app. by left.
  - split; [apply HpB; [|done]|].
    + unfold m3, m2. rewrite lookup_insert_ne by done. apply lookup_insert_eq.
    + eapply forest_frame; [|exact HfB]. intros p Hp'. apply Hch. rewrite mjoin_pids_app. apply elem_of_app. by right.
Qed.

(** What the two nodes of a pair are made of. *)
Lemma node_pair_facts bt m h f fs sep pa ka ca pb kb cb lo hi nxt lo0 hi0 nxt0 :
  pair_at bt m (Datatypes.S h) f fs sep (TNode pa ka ca) (TNode pb kb cb) lo hi nxt lo0 hi0 nxt0 →
  forest (tree_ok cfg m h) lo (Some sep) (first_of cb nxt) ka ca ∧ forest (tree_ok cfg m h) (Some sep) hi nxt kb cb ∧
  length ca = Datatypes.S (length ka) ∧ length cb = Datatypes.S (length kb) ∧ Forall (key_fits cfg) ka ∧ Forall (key_fits cfg) kb ∧
  key_fits cfg sep ∧ (length ka ≤ internal_max_keys cfg)%nat ∧ (length kb ≤ internal_max_keys cfg)%nat ∧ between lo hi sep ∧ config_ok cfg.
Proof.
  intros Hp. destruct (pair_facts _ _ _ _ _ _ _ _ _ _ _ _ _ _ Hp) as (_ & _ & _ & _ & _ & _ & _ & Hkf & _ & Hc & _).
  apply Forall_app in Hkf as [_ [Hsep _]%Forall_cons]. destruct Hp as [_ _ _ _ _ _ Hs [Hna Hfa] [Hnb Hfb] _].
  pose proof (forest_length _ _ _ _ _ _ Hfa). pose proof (forest_length _ _ _ _ _ _ Hfb).
  destruct (node_page_fits cfg m _ _ _ Hna) as (? & ? & _); [by rewrite length_fmap|].
  destruct (node_page_fits cfg m _ _ _ Hnb) as (? & ? & _); [by rewrite length_fmap|].
  split; [by destruct cb|]. do 8 (split; [done|]). done.
Qed.

Lemma node_entry_at pid ksL sep ksR (cids : list Z) :
  (length ksL < length cids)%nat → ∃ x, in_entries (node_of cfg pid (ksL ++ sep :: ksR) cids) !! length ksL = Some (sep, x).
Proof.
  intros Hl. destruct (lookup_lt_is_Some_2 cids (length ksL) Hl) as [x Hx]. exists x. cbn [node_of in_entries].
  apply lookup_zip_Some. split; [|done]. by rewrite lookup_app_r, Nat.sub_diag by lia.
Qed.

(** A node as its keys and children, last ones apart. *)
Lemma zip_snoc_child (ks : list K) (k : K) (cids : list Z) (x y : Z) :
  length cids = length ks → zip (ks ++ [k]) (cids ++ [x; y]) = zip ks (cids ++ [x]) ++ [(k, x)] ∧ zip ks (cids ++ [x]) = zip ks cids.
Proof.
  intros Hl. split.
  - rewrite zip_with_app by done. f_equal. rewrite <- (app_nil_r ks) at 2. rewrite zip_with_app by done. by rewrite app_nil_r.
  - rewrite <- (app_nil_r ks) at 1. rewrite zip_with_app by done. apply app_nil_r.
Qed.

Lemma last_two {A} (l : list A) n : length l = Datatypes.S (Datatypes.S n) → ∃ l' x y, l = l' ++ [x; y] ∧ length l' = n.
Proof.
  intros Hl. destruct l as [|y l0 _] using rev_ind; [done|]. destruct l0 as [|x l' _] using rev_ind; [done|].
  exists l', x, y. rewrite <- app_assoc. split; [done|]. rewrite !length_app in Hl. simpl in Hl. lia.
Qed.

(** Nodes with a child added in front or behind. *)
Lemma node_cons pid (k : K) ks (x : Z) cids :
  cids ≠ [] → mkInternal pid (Z.of_nat (length ks) + 1) (default 0 (last cids)) cfg ((k, x) :: zip ks cids) =
    node_of cfg pid (k :: ks) (x :: cids).
Proof.
  intros Hne. unfold node_of. cbn [length zip_with]. replace (Z.of_nat (Datatypes.S (length ks))) with (Z.of_nat (length ks) + 1) by lia.
  rewrite last_cons. destruct (last cids) eqn:E; [done|]. by apply last_None in E.
Qed.

Lemma node_snoc pid ks (k : K) (y : Z) cids :
  length cids = Datatypes.S (length ks) →
  mkInternal pid (Z.of_nat (length ks) + 1) y cfg (zip ks cids ++ [(k, default 0 (last cids))]) = node_of cfg pid (ks ++ [k]) (cids ++ [y]).
Proof.
  intros Hl. destruct cids as [|x cids _] using rev_ind; [done|]. rewrite length_app in Hl. simpl in Hl.
  destruct (zip_snoc_child ks k cids x y ltac:(lia)) as [Hz _]. unfold node_of. rewrite last_snoc, <- app_assoc. cbn [app].
  rewrite Hz, last_app, length_app. cbn [last default length]. f_equal. lia.
Qed.

Lemma internal_from_left_ok bt m h f fs sep pa ka ca pb kb cb lo hi nxt lo0 hi0 nxt0 :
  pair_at bt m (Datatypes.S h) f fs sep (TNode pa ka ca) (TNode pb kb cb) lo hi nxt lo0 hi0 nxt0 →
  (0 < length ka)%nat → (length kb < internal_max_keys cfg)%nat →
  pair_result (redistribute_internal_from_left (node_of cfg pa ka (tpid <$> ca)) (node_of cfg pb kb (tpid <$> cb))
      (node_of cfg (f_pid f) (f_ksL f ++ sep :: f_ksR f) ((tpid <$> f_csL f) ++ pa :: pb :: (tpid <$> f_csR f)))
      (length (f_csL f) + 1)) bt (Datatypes.S h) f fs sep (TNode pa ka ca) (TNode pb kb cb) lo0 hi0 nxt0.
Proof.
  intros Hp Hka Hkb. destruct (node_pair_facts _ _ _ _ _ _ _ _ _ _ _ _ _ _ _ _ _ _ Hp) as (HfA & HfB & HlA & HlB & HkA & HkB & Hsep & HmA & HmB & [Hs1 Hs2] & Hc).
  destruct (pair_node_lengths _ _ _ _ _ _ _ _ _ _ _ _ _ _ Hp) as (Hcl & Hkl & HlL). cbn [tpid] in Hcl. pose proof (internal_max_4 cfg Hc) as Hmax.
  destruct ka as [|k1 ka' _] using rev_ind; [simpl in Hka; lia|]. rewrite length_app in HmA, HlA. cbn [length] in HmA, HlA.
  destruct (last_two ca (length ka') ltac:(lia)) as (ca2 & cm & cl & -> & Hl2).
  replace (ca2 ++ [cm; cl]) with ((ca2 ++ [cm]) ++ [cl]) in HfA by (by rewrite <- app_assoc).
  apply forest_app in HfA as (HfA & [Hk1 Hk2] & Hcl'); [|rewrite length_app; simpl; lia]. cbn [forest first_of] in HfA, Hcl'.
  apply Forall_app in HkA as [HkA [Hk1f _]%Forall_cons].
  destruct (put_nodes_ok bt m h f fs sep pa (ka' ++ [k1]) (ca2 ++ [cm; cl]) pb kb cb lo hi nxt lo0 hi0 nxt0 k1 ka' (ca2 ++ [cm]) (sep :: kb) (cl :: cb) Hp)
    as (s & m' & Hrun & Hzh & Hz & Ht); try done; cbn [length]; try lia.
  { by rewrite <- !app_assoc. } { by destruct ca2. }
  { split; [done|]. destruct hi; [|done]. simpl in *. by transitivity sep. } { by constructor. }
  eexists s, m', _. split; [|split; [exact Hzh|split; [exact Hz|split; [exact Ht|split; [done|]]]]].
  - destruct (zip_snoc_child ka' k1 (tpid <$> ca2) (tpid cm) (tpid cl) ltac:(by rewrite length_fmap)) as [Hz1 Hz2].
    unfold redistribute_internal_from_left. replace (length (f_csL f) + 1 - 1)%nat with (length (f_ksL f)) by lia.
    destruct (node_entry_at (f_pid f) (f_ksL f) sep (f_ksR f) ((tpid <$> f_csL f) ++ pa :: pb :: (tpid <$> f_csR f)) ltac:(lia)) as [x ->].
    cbn [in_page_id in_config num_keys right_child in_entries node_of].
    erewrite st_step by (unfold st_lift, u16_inc; rewrite decide_True by (unfold u16_max; lia); reflexivity).
    rewrite fmap_app. cbn [fmap list_fmap]. rewrite Hz1, last_snoc, removelast_last. cbn [fst snd].
    erewrite st_step by (unfold st_lift, u16_dec; rewrite decide_True by (rewrite length_app; simpl; lia); reflexivity).
    fold (node_of cfg (f_pid f) (f_ksL f ++ sep :: f_ksR f) ((tpid <$> f_csL f) ++ pa :: pb :: (tpid <$> f_csR f))).
    erewrite st_step by (unfold st_lift; rewrite set_key_node by lia; reflexivity).
    rewrite node_cons by (destruct cb; [simpl in HlB; lia|done]).
    assert (Hleft : mkInternal pa (Z.of_nat (length (ka' ++ [k1])) - 1) (tpid cm) cfg (zip ka' ((tpid <$> ca2) ++ [tpid cm])) =
      node_of cfg pa ka' (tpid <$> ca2 ++ [cm])).
    { unfold node_of. rewrite fmap_app, length_app. cbn [fmap list_fmap length]. rewrite last_snoc. f_equal. lia. }
    rewrite last_app. cbn [last default]. change (id (tpid cm)) with (tpid cm). rewrite Hleft. exact Hrun.
  - rewrite !kvs_fill2. cbn [kvs]. rewrite !fmap_app, !join_app. cbn. rewrite !app_nil_r, <- !app_assoc. done.
Qed.

Lemma internal_from_right_ok bt m h f fs sep pa ka ca pb kb cb lo hi nxt lo0 hi0 nxt0 :
  pair_at bt m (Datatypes.S h) f fs sep (TNode pa ka ca) (TNode pb kb cb) lo hi nxt lo0 hi0 nxt0 →
  (0 < length kb)%nat → (length ka < internal_max_keys cfg)%nat →
  pair_result (redistribute_internal_from_right (node_of cfg pa ka (tpid <$> ca)) (node_of cfg pb kb (tpid <$> cb))
      (node_of cfg (f_pid f) (f_ksL f ++ sep :: f_ksR f) ((tpid <$> f_csL f) ++ pa :: pb :: (tpid <$> f_csR f)))
      (length (f_csL f))) bt (Datatypes.S h) f fs sep (TNode pa ka ca) (TNode pb kb cb) lo0 hi0 nxt0.
Proof.
  intros Hp Hkb Hka. destruct (node_pair_facts _ _ _ _ _ _ _ _ _ _ _ _ _ _ _ _ _ _ Hp) as (HfA & HfB & HlA & HlB & HkA & HkB & Hsep & HmA & HmB & [Hs1 Hs2] & Hc).
  destruct (pair_node_lengths _ _ _ _ _ _ _ _ _ _ _ _ _ _ Hp) as (Hcl & Hkl & HlL). cbn [tpid] in Hcl. pose proof (internal_max_4 cfg Hc) as Hmax.
  destruct kb as [|k1 kb']; [simpl in Hkb; lia|]. destruct cb as [|c1 cb']; [done|]. cbn [length] in HmB, HlB.
  destruct HfB as ([Hk1 Hk2] & Hc1 & HfB). apply Forall_cons in HkB as [Hk1f HkB].
  destruct (put_nodes_ok bt m h f fs sep pa ka ca pb (k1 :: kb') (c1 :: cb') lo hi nxt lo0 hi0 nxt0 k1 (ka ++ [sep]) (ca ++ [c1]) kb' cb' Hp)
    as (s & m' & Hrun & Hzh & Hz & Ht); try done; cbn [length]; try lia.
  { by rewrite <- app_assoc. } { intros ->. simpl in HlB. lia. } { by destruct ca; [simpl in HlA; lia|]. }
  { apply forest_app; [lia|]. split; [exact HfA|]. split; [|exact Hc1]. split; [done|exact Hk1]. }
  { split; [|done]. destruct lo; [|done]. simpl in *. by transitivity sep. }
  { apply Forall_app. split; [done|]. by constructor. } { rewrite length_app. simpl. lia. }
  eexists s, m', _. split; [|split; [exact Hzh|split; [exact Hz|split; [exact Ht|split; [done|]]]]].
  - unfold redistribute_internal_from_right. rewrite HlL.
    destruct (node_entry_at (f_pid f) (f_ksL f) sep (f_ksR f) ((tpid <$> f_csL f) ++ pa :: pb :: (tpid <$> f_csR f)) ltac:(lia)) as [x ->].
    cbn [in_page_id in_config num_keys right_child in_entries node_of].
    erewrite st_step by (unfold st_lift, u16_inc; rewrite decide_True by (unfold u16_max; lia); reflexivity).
    rewrite !fmap_cons. cbn [zip_with length].
    erewrite st_step by (unfold st_lift, u16_dec; rewrite decide_True by lia; reflexivity). cbn [fst snd].
    fold (node_of cfg (f_pid f) (f_ksL f ++ sep :: f_ksR f) ((tpid <$> f_csL f) ++ pa :: pb :: (tpid <$> f_csR f))).
    erewrite st_step by (unfold st_lift; rewrite set_key_node by lia; reflexivity).
    rewrite node_snoc by (by rewrite length_fmap).
    assert (Hright : mkInternal pb (Z.of_nat (Datatypes.S (length kb')) - 1) (default 0 (last (tpid c1 :: (tpid <$> cb')))) cfg
      (zip kb' (tpid <$> cb')) = node_of cfg pb kb' (tpid <$> cb')).
    { unfold node_of. rewrite last_cons. destruct cb' as [|c2 cb']; [simpl in HlB; lia|]. rewrite fmap_cons, last_cons.
      f_equal; [lia|]. by destruct (last (tpid <$> cb')). }
    rewrite Hright. rewrite fmap_app in Hrun. exact Hrun.
  - rewrite !kvs_fill2. cbn [kvs]. rewrite !fmap_app, !join_app. cbn. rewrite !app_nil_r, <- !app_assoc. done.
Qed.

Lemma join_internal_ok pa pb ka kb cidsA cidsB sep :
  length cidsA = Datatypes.S (length ka) → length cidsB = Datatypes.S (length kb) → (length ka + length kb ≤ 2000)%nat →
  join_internal sep (node_of cfg pa ka cidsA) (node_of cfg pb kb cidsB) = Ok (node_of cfg pa (ka ++ sep :: kb) (cidsA ++ cidsB)).
Proof.
  intros HlA HlB Hl. unfold join_internal. cbn [in_page_id in_config num_keys right_child in_entries node_of].
  rewrite length_zip, decide_True by (unfold u16_max; lia). unfold mret, outcome_ret, node_of. rewrite length_app. cbn [length]. do 2 f_equal; [lia| |].
  - rewrite last_app. destruct (last cidsB) eqn:E; [done|]. apply last_None in E. by subst.
  - destruct cidsA as [|x cidsA _] using rev_ind; [done|]. rewrite length_app in HlA. simpl in HlA.
    destruct (zip_snoc_child ka sep cidsA x x ltac:(lia)) as [_ Hz]. rewrite Hz, last_snoc, <- app_assoc. cbn [default app].
    rewrite zip_with_app by lia. done.
Qed.

Lemma merge_internal_ok bt m h f fs sep pa ka ca pb kb cb lo hi nxt lo0 hi0 nxt0 rec :
  pair_at bt m (Datatypes.S h) f fs sep (TNode pa ka ca) (TNode pb kb cb) lo hi nxt lo0 hi0 nxt0 →
  (length ka + length kb < internal_max_keys cfg)%nat →
  let gp := node_of cfg (f_pid f) (f_ksL f ++ sep :: f_ksR f) ((tpid <$> f_csL f) ++ pa :: pb :: (tpid <$> f_csR f)) in
  ∃ s m', merge_internal rec (node_of cfg pa ka (tpid <$> ca)) (node_of cfg pb kb (tpid <$> cb)) gp (length (f_csL f) + 1) bt =
      rec gp (length (f_csL f) + 1)%nat (with_store s bt) ∧
    node_ready cfg (with_store s bt) m' (Datatypes.S h) fs (f_pid f) (f_ksL f ++ f_ksR f)
      (f_csL f ++ TNode pa (ka ++ sep :: kb) (ca ++ cb) :: f_csR f) lo0 hi0 nxt0.
Proof.
  intros Hp Hlen gp. destruct (node_pair_facts _ _ _ _ _ _ _ _ _ _ _ _ _ _ _ _ _ _ Hp) as (HfA & HfB & HlA & HlB & HkA & HkB & Hsep & _ & _ & Hs12 & Hc).
  destruct (pair_node_lengths _ _ _ _ _ _ _ _ _ _ _ _ _ _ Hp) as (Hcl & Hkl & HlL). cbn [tpid] in Hcl. pose proof (internal_max_4 cfg Hc) as Hmax.
  destruct (pair_facts _ _ _ _ _ _ _ _ _ _ _ _ _ _ Hp) as (_ & Hfp & Hnd & _ & _ & _ & Hown & _ & _ & _ & _ & _ & Hpa & Hpb & Hab). cbn [tpid] in *.
  assert (HfC : forest (tree_ok cfg m h) lo hi nxt (ka ++ sep :: kb) (ca ++ cb)).
  { apply forest_app; [done|]. done. }
  assert (Hpids : pids (TNode pa ka ca) ++ pids (TNode pb kb cb) ≡ₚ pb :: pids (TNode pa (ka ++ sep :: kb) (ca ++ cb))).
  { cbn [pids]. rewrite mjoin_pids_app. solve_Permutation. }
  rewrite Hpids in Hnd. apply NoDup_cons in Hnd as [Hnb Hnd]. cbn [pids] in Hnb, Hnd. apply NoDup_cons in Hnd as [Hna Hnd].
  destruct (Hown pb) as [[dB HdB] _]; [rewrite Hpids; by left|]. destruct (Hown pa) as [[dA HdA] _]; [rewrite Hpids; right; by left|].
  pose proof (zh_store _ _ _ _ (pa_holds _ _ _ _ _ _ _ _ _ _ _ _ _ _ Hp)) as Hs.
  destruct (ps_free_ok _ m pb dB Hs HdB) as (s1 & Hfree & Hs1 & _).
  assert (Hok : internal_ok (node_of cfg pa (ka ++ sep :: kb) (tpid <$> ca ++ cb))).
  { apply internal_ok_node; try done; [|by eapply forest_owned|rewrite length_app; simpl; lia|rewrite length_fmap; by eapply forest_length].
    apply Forall_app. split; [done|]. by constructor. }
  destruct (save_internal_ok cfg (with_store s1 bt) (delete pb m) _ dA Hs1 Hok) as (s2 & d2 & Hsave & Hs2 & _ & Hpage).
  { cbn [in_page_id node_of]. by rewrite lookup_delete_ne. }
  cbn [in_page_id node_of] in Hs2, Hpage. exists s2, (<[pa:=d2]> (delete pb m)). split.
  - unfold merge_internal. rewrite decide_True by lia. replace (length (f_csL f) + 1 - 1)%nat with (length (f_ksL f)) by lia.
    destruct (node_entry_at (f_pid f) (f_ksL f) sep (f_ksR f) ((tpid <$> f_csL f) ++ pa :: pb :: (tpid <$> f_csR f)) ltac:(lia)) as [x Hx].
    unfold gp. rewrite Hx. erewrite st_step by (unfold st_lift; rewrite join_internal_ok by (rewrite ?length_fmap; lia); reflexivity).
    erewrite st_step by (apply pm_call_ok; exact Hfree). rewrite <- fmap_app. by erewrite st_step by exact Hsave.
  - assert (Hkeep : ∀ p, p ≠ pa → p ≠ pb → page_eq cfg m (<[pa:=d2]> (delete pb m)) p).
    { intros p H1 H2. left. by rewrite lookup_insert_ne, lookup_delete_ne by done. }
    eapply (pair_merged bt m (Datatypes.S h) f fs sep _ _ _ _ _ _ _ _ s2 _ (TNode pa (ka ++ sep :: kb) (ca ++ cb))); [exact Hp|done| | |exact Hpids| |].
    + intros p Hp'. rewrite Hpids in Hp'. apply Hkeep; intros ->; apply Hp'; [right; right; by left|right; by left].
    + intros p. cbn [tpid]. rewrite lookup_insert_is_Some', lookup_delete_is_Some. split; [intros [->|[? ?]]; [|done]|].
      * split; [by exists dA|done].
      * intros [? ?]. by right.
    + cbn [first_pid]. by destruct ca; [simpl in HlA; lia|].
    + split; [apply Hpage; [apply lookup_insert_eq|done]|]. eapply forest_frame; [|exact HfC].
      intros p Hp'. apply Hkeep; intros ->; [done|]. apply Hnb. by right.
Qed.

(** ** The sibling of an underfull node *)

Definition parent_node f sep a b : InternalNode K :=
  node_of cfg (f_pid f) (f_ksL f ++ sep :: f_ksR f) ((tpid <$> f_csL f) ++ tpid a :: tpid b :: (tpid <$> f_csR f)).

Lemma parent_children bt m h f fs sep a b lo hi nxt lo0 hi0 nxt0 :
  pair_at bt m h f fs sep a b lo hi nxt lo0 hi0 nxt0 →
  get_child_at (parent_node f sep a b) (length (f_csL f)) = tpid a ∧ get_child_at (parent_node f sep a b) (length (f_csL f) + 1) = tpid b.
Proof.
  intros Hp. destruct (pair_node_lengths _ _ _ _ _ _ _ _ _ _ _ _ _ _ Hp) as (Hcl & Hkl & HlL).
  split; apply get_child_at_node; try lia.
  - rewrite lookup_app_r by (rewrite length_fmap; lia). by rewrite length_fmap, Nat.sub_diag.
  - rewrite lookup_app_r by (rewrite length_fmap; lia). rewrite length_fmap. by replace (length (f_csL f) + 1 - length (f_csL f))%nat with 1%nat by lia.
Qed.

Lemma zip_holds_fill bt m f fs t : zip_holds bt m (f :: fs) [t] → zip_holds bt m fs [fill f t].
Proof.
  intros [Hs Hnd Ho]. assert (Hp : zpids (f :: fs) ++ mjoin (pids <$> [t]) ≡ₚ zpids fs ++ mjoin (pids <$> [fill f t])).
  { rewrite pids_frame_fill. unfold fill. by rewrite pids_node. }
  constructor; [done|by rewrite <- Hp|]. intros p. by rewrite <- Hp.
Qed.

(** The parent of the hole and the pair made with the sibling that the code picks: the
    left one, or the right one of a leftmost child. *)
Lemma hole_pair bt m h f fs X lo hi nxt :
  zip_holds bt m (f :: fs) [X] → zip_ok cfg m h (f :: fs) (tpid X) (first_pid X) lo hi nxt → tree_ok cfg m h lo hi nxt X →
  ∃ parent, load_internal (f_pid f) bt = (Ok parent, bt) ∧ num_keys parent = Z.of_nat (length (f_ksL f) + length (f_ksR f)) ∧
    length (f_csL f) = length (f_ksL f) ∧
    ((0 < length (f_csL f))%nat → ∃ f2 sep a lo1 hi1 nxt1 lo0 hi0 nxt0, pair_at bt m h f2 fs sep a X lo1 hi1 nxt1 lo0 hi0 nxt0 ∧
       length (f_csL f) = (length (f_csL f2) + 1)%nat ∧ fill f X = fill2 f2 sep a X ∧ parent = parent_node f2 sep a X) ∧
    ((length (f_csL f) = 0)%nat → (0 < length (f_ksR f))%nat →
       ∃ f2 sep b lo1 hi1 nxt1 lo0 hi0 nxt0, pair_at bt m h f2 fs sep X b lo1 hi1 nxt1 lo0 hi0 nxt0 ∧
       length (f_csL f2) = 0%nat ∧ fill f X = fill2 f2 sep X b ∧ parent = parent_node f2 sep X b).
Proof.
  intros Hzh Hz HX. pose proof Hz as (_ & _ & _ & HlL & HlR & _). pose proof (zip_holds_fill _ _ _ _ _ Hzh) as Hzh'.
  destruct (zip_fill cfg m h f fs lo hi nxt X Hz HX) as (lo0 & hi0 & nxt0 & Ht & Hz').
  destruct (load_internal_ok cfg bt m _ _ _ (zh_store _ _ _ _ Hzh) (proj1 Ht)) as (_ & Hload & _).
  eexists. split; [exact Hload|]. split; [cbn [num_keys node_of]; rewrite length_app; lia|]. split; [done|]. split.
  - intros Hpos. destruct (node_pair bt m h fs (f_pid f) _ _ lo0 hi0 nxt0 (length (f_csL f) - 1) Hzh' Hz' Ht) as
      (f2 & sep & a & b & lo1 & hi1 & nxt1 & Hid & Hlen & Hfill & Hp); [rewrite length_app; lia|].
    pose proof Hfill as Hinj. injection Hinj as _ Eks Ecs.
    assert (b = X) as ->.
    { apply (f_equal (λ l, l !! length (f_csL f))) in Ecs. rewrite list_lookup_middle in Ecs by done.
      rewrite lookup_app_r in Ecs by lia. replace (length (f_csL f) - length (f_csL f2))%nat with 1%nat in Ecs by lia. by injection Ecs. }
    exists f2, sep, a, lo1, hi1, nxt1, lo0, hi0, nxt0. split; [done|]. split; [lia|]. split; [done|].
    unfold parent_node. rewrite Eks, Ecs, Hid, fmap_app. done.
  - intros Hzero Hpos. destruct (node_pair bt m h fs (f_pid f) _ _ lo0 hi0 nxt0 0 Hzh' Hz' Ht) as
      (f2 & sep & a & b & lo1 & hi1 & nxt1 & Hid & Hlen & Hfill & Hp); [rewrite length_app; lia|].
    pose proof Hfill as Hinj. injection Hinj as _ Eks Ecs. assert (a = X) as ->.
    { destruct (f_csL f); [|done]. destruct (f_csL f2); [|done]. by injection Ecs. }
    exists f2, sep, b, lo1, hi1, nxt1, lo0, hi0, nxt0. split; [done|]. split; [done|]. split; [done|].
    unfold parent_node. rewrite Eks, Ecs, Hid, fmap_app. done.
Qed.

(** From an operation on the pair to the whole tree. *)
Lemma pair_result_rebalanced cm bt h f fs sep a b lo0 hi0 nxt0 t0 n :
  pair_result cm bt h f fs sep a b lo0 hi0 nxt0 → tpid t0 = f_pid f →
  bt_meta bt = mkMeta (tpid (plug fs t0)) (Z.of_nat (length fs + Datatypes.S h) + 1) n cfg →
  ∃ bt', cm bt = (Ok tt, bt') ∧ rebalanced bt bt' n (zpre fs ++ kvs (fill2 f sep a b) ++ zpost fs).
Proof.
  intros (s & m' & t & Hrun & Hzh & Hz & Ht & Hid & Hkv) Hid0 Hm. exists (with_store s bt). split; [done|]. rewrite <- Hkv.
  eapply store_rebalanced; [done..|]. congruence.
Qed.

Lemma rebalanced_store bt s bt' n kv : rebalanced (with_store s bt) bt' n kv → rebalanced bt bt' n kv.
Proof. done. Qed.

(** What [remove_from_internal] must do with the parent of a merged pair. *)
Definition removes fs (h : nat) (n : Z) (rec : InternalNode K → nat → ST (BTree K S) GrumpyError unit) : Prop :=
  ∀ bt m parent idx pid ks cs lo hi nxt,
    node_ready cfg bt m h fs pid ks cs lo hi nxt → drop_child idx parent = Ok (node_of cfg pid ks (tpid <$> cs)) →
    (length ks ≤ internal_max_keys cfg)%nat →
    bt_meta bt = mkMeta (tpid (plug fs (TNode pid ks cs))) (Z.of_nat (length fs + Datatypes.S h) + 1) n cfg →
    ∃ bt', rec parent idx bt = (Ok tt, bt') ∧ rebalanced bt bt' n (zpre fs ++ kvs (TNode pid ks cs) ++ zpost fs).

(** Removing the right child of a pair, after its merge into [c]. *)
Lemma removes_pair bt0 m0 h f fs sep a b c lo hi nxt lo0 hi0 nxt0 rec s m t0 n :
  pair_at bt0 m0 h f fs sep a b lo hi nxt lo0 hi0 nxt0 → removes fs h n rec →
  node_ready cfg (with_store s bt0) m h fs (f_pid f) (f_ksL f ++ f_ksR f) (f_csL f ++ c :: f_csR f) lo0 hi0 nxt0 →
  tpid c = tpid a → kvs c = kvs a ++ kvs b → tpid t0 = f_pid f →
  bt_meta bt0 = mkMeta (tpid (plug fs t0)) (Z.of_nat (length fs + Datatypes.S h) + 1) n cfg →
  ∃ bt', rec (parent_node f sep a b) (length (f_csL f) + 1)%nat (with_store s bt0) = (Ok tt, bt') ∧
    rebalanced bt0 bt' n (zpre fs ++ kvs (fill2 f sep a b) ++ zpost fs).
Proof.
  intros Hp Hrec Hready Hid Hkv Hid0 Hm. destruct (pair_facts _ _ _ _ _ _ _ _ _ _ _ _ _ _ Hp) as (_ & _ & _ & _ & _ & _ & _ & _ & Hkl & Hc & _).
  pose proof (internal_max_4 cfg Hc). destruct Hp as [_ HlL HlR _ _ _ _ _ _ _]. rewrite length_app in Hkl. simpl in Hkl.
  destruct (Hrec (with_store s bt0) m (parent_node f sep a b) (length (f_csL f) + 1)%nat _ _ _ _ _ _ Hready) as (bt' & Hrun & Hreb).
  - rewrite fmap_app, fmap_cons, Hid. rewrite <- (length_fmap tpid (f_csL f)) at 1. unfold parent_node.
    apply drop_child_node; rewrite ?length_fmap; [done..|]. rewrite length_app. simpl. lia.
  - rewrite length_app. lia.
  - cbn [bt_meta with_store]. rewrite Hm. f_equal. by apply tpid_plug.
  - exists bt'. split; [done|]. apply (rebalanced_store _ s). rewrite kvs_fill2, <- Hkv. cbn [kvs] in Hreb.
    rewrite fmap_app, join_app, fmap_cons in Hreb. exact Hreb.
Qed.

Lemma node_entries_length pid ks cids : (length ks ≤ length cids)%nat → length (in_entries (node_of cfg pid ks cids)) = length ks.
Proof. intros Hl. cbn [node_of in_entries]. rewrite length_zip. lia. Qed.

Lemma min_keys_ok : config_ok cfg →
  (0 < internal_min_keys cfg ∧ 2 * internal_min_keys cfg ≤ internal_max_keys cfg ∧
   0 < leaf_min_entries cfg ∧ 2 * leaf_min_entries cfg ≤ leaf_max_entries cfg)%nat.
Proof.
  intros Hc. pose proof (internal_max_4 cfg Hc). pose proof (leaf_max_4 cfg Hc).
  unfold internal_min_keys, leaf_min_entries, MIN_OCCUPANCY_PERCENT.
  split; [apply Nat.div_str_pos; lia|]. split; [pose proof (Nat.Div0.mul_div_le (internal_max_keys cfg * 40) 100); lia|].
  split; [apply Nat.div_str_pos; lia|]. pose proof (Nat.Div0.mul_div_le (leaf_max_entries cfg * 40) 100). lia.
Qed.

Lemma rebalance_internal_ok bt m h f fs pid ks cs lo hi nxt n rec :
  zip_holds bt m (f :: fs) [TNode pid ks cs] → zip_ok cfg m (Datatypes.S h) (f :: fs) pid (first_pid (TNode pid ks cs)) lo hi nxt →
  tree_ok cfg m (Datatypes.S h) lo hi nxt (TNode pid ks cs) → config_ok cfg → (length ks < internal_min_keys cfg)%nat →
  bt_meta bt = mkMeta (tpid (plug (f :: fs) (TNode pid ks cs))) (Z.of_nat (length (f :: fs) + Datatypes.S h) + 1) n cfg →
  removes fs (Datatypes.S h) n rec →
  ∃ bt', rebalance_internal rec (node_of cfg pid ks (tpid <$> cs)) (f_pid f) (length (f_csL f)) bt = (Ok tt, bt') ∧
    rebalanced bt bt' n (zpre (f :: fs) ++ kvs (TNode pid ks cs) ++ zpost (f :: fs)).
Proof.
  intros Hzh Hz HX Hc Hund Hm Hrec. destruct (min_keys_ok Hc) as (Hmin & Hmin2 & _).
  destruct (hole_pair bt m _ f fs (TNode pid ks cs) lo hi nxt Hzh Hz HX) as (parent & Hload & Hnk & HlL & Hleft & Hright).
  assert (Hkv : zpre (f :: fs) ++ kvs (TNode pid ks cs) ++ zpost (f :: fs) = zpre fs ++ kvs (fill f (TNode pid ks cs)) ++ zpost fs).
  { rewrite kvs_fill. cbn [zpre zpost]. by rewrite <- !app_assoc. }
  cbn [length] in Hm. replace (Datatypes.S (length fs) + Datatypes.S h)%nat with (length fs + Datatypes.S (Datatypes.S h))%nat in Hm by lia.
  unfold rebalance_internal. erewrite st_step by exact Hload. rewrite Hnk, st_get_bind, Hm. cbn [config]. rewrite Hkv.
  change (plug (f :: fs) (TNode pid ks cs)) with (plug fs (fill f (TNode pid ks cs))) in Hm. case_decide as Hpos.
  - destruct (Hleft Hpos) as (f2 & sep & a & lo1 & hi1 & nxt1 & lo0 & hi0 & nxt0 & Hp & Hlen & Hfill & ->).
    pose proof (pa_a _ _ _ _ _ _ _ _ _ _ _ _ _ _ Hp) as Ha. destruct a as [pa ea|pa ka ca]; [done|].
    destruct (parent_children _ _ _ _ _ _ _ _ _ _ _ _ _ _ Hp) as [Hga _].
    replace (length (f_csL f) - 1)%nat with (length (f_csL f2)) by lia. rewrite Hga, Hlen, Hfill. rewrite Hfill in Hm.
    destruct (load_internal_ok cfg bt m _ _ _ (zh_store _ _ _ _ Hzh) (proj1 Ha)) as (_ & Hloada & _). cbn [tpid]. erewrite st_step by exact Hloada.
    destruct (node_pair_facts _ _ _ _ _ _ _ _ _ _ _ _ _ _ _ _ _ _ Hp) as (_ & _ & HlA & HlB & _).
    rewrite node_entries_length by (rewrite length_fmap; lia). case_decide as Hbig.
    + eapply (pair_result_rebalanced _ bt) with (t0 := fill2 f2 sep _ _); [|done|exact Hm]. apply (internal_from_left_ok _ _ _ _ _ _ _ _ _ _ _ _ _ _ _ _ _ _ Hp); lia.
    + destruct (merge_internal_ok bt m h f2 fs sep pa ka ca pid ks cs lo1 hi1 nxt1 lo0 hi0 nxt0 rec Hp ltac:(lia)) as (s & m' & Hrun & Hready).
      unfold parent_node at 1. cbn [tpid]. rewrite Hrun.
      apply (removes_pair _ _ _ _ _ _ _ _ _ _ _ _ _ _ _ rec s m' (fill2 f2 sep (TNode pa ka ca) (TNode pid ks cs)) n Hp Hrec Hready); try done.
      cbn [kvs]. by rewrite fmap_app, join_app.
  - case_decide as Hr.
    + assert (Hzero : length (f_csL f) = 0%nat) by lia.
      destruct (Hright Hzero ltac:(lia)) as (f2 & sep & b & lo1 & hi1 & nxt1 & lo0 & hi0 & nxt0 & Hp & Hlen & Hfill & ->).
      pose proof (pa_b _ _ _ _ _ _ _ _ _ _ _ _ _ _ Hp) as Hb. destruct b as [pb eb|pb kb cb]; [done|].
      destruct (parent_children _ _ _ _ _ _ _ _ _ _ _ _ _ _ Hp) as [_ Hgb].
      assert (Hidx : length (f_csL f) = length (f_csL f2)) by lia. rewrite Hidx, Hgb, Hfill. rewrite Hfill in Hm.
      destruct (load_internal_ok cfg bt m _ _ _ (zh_store _ _ _ _ Hzh) (proj1 Hb)) as (_ & Hloadb & _). cbn [tpid]. erewrite st_step by exact Hloadb.
      destruct (node_pair_facts _ _ _ _ _ _ _ _ _ _ _ _ _ _ _ _ _ _ Hp) as (_ & _ & HlA & HlB & _).
      rewrite node_entries_length by (rewrite length_fmap; lia). case_decide as Hbig.
      * eapply (pair_result_rebalanced _ bt) with (t0 := fill2 f2 sep _ _); [|done|exact Hm]. apply (internal_from_right_ok _ _ _ _ _ _ _ _ _ _ _ _ _ _ _ _ _ _ Hp); lia.
      * destruct (merge_internal_ok bt m h f2 fs sep pid ks cs pb kb cb lo1 hi1 nxt1 lo0 hi0 nxt0 rec Hp ltac:(lia)) as (s & m' & Hrun & Hready).
        unfold parent_node at 1. cbn [tpid]. rewrite Hrun.
      apply (removes_pair _ _ _ _ _ _ _ _ _ _ _ _ _ _ _ rec s m' (fill2 f2 sep (TNode pid ks cs) (TNode pb kb cb)) n Hp Hrec Hready); try done.
      cbn [kvs]. by rewrite fmap_app, join_app.
    + exists bt. split; [done|]. rewrite <- (with_store_id bt) at 2.
      destruct (zip_fill cfg m _ f fs lo hi nxt (TNode pid ks cs) Hz HX) as (lo0 & hi0 & nxt0 & Ht & Hz').
      eapply store_rebalanced; [|done|done|exact Hm|done]. rewrite with_store_id. by apply zip_holds_fill.
Qed.

Lemma remove_root_ok bt m h parent idx pid ks cs lo hi nxt n :
  node_ready cfg bt m h [] pid ks cs lo hi nxt → drop_child idx parent = Ok (node_of cfg pid ks (tpid <$> cs)) →
  (length ks ≤ internal_max_keys cfg)%nat → bt_meta bt = mkMeta pid (Z.of_nat (Datatypes.S h) + 1) n cfg →
  ∃ bt', remove_from_internal parent idx [] bt = (Ok tt, bt') ∧ rebalanced bt bt' n (kvs (TNode pid ks cs)).
Proof.
  intros Hr Hdrop Hl Hm. destruct (node_ready_facts _ _ _ _ _ _ _ _ _ _ _ Hr) as (Hmp & _ & Hpc & [d0 Hd0] & _ & _ & Hlen & Hnd & _ & Hmz & _).
  cbn [remove_from_internal]. erewrite st_step by (unfold st_lift; rewrite Hdrop; reflexivity). cbn [num_keys node_of].
  case_decide as Hzero.
  - destruct ks; [|simpl in Hzero; lia]. destruct cs as [|c [|? ?]]; try done.
    destruct Hr as [[Hs _ Ho] (-> & -> & ->) Hf _ _]. cbn [forest] in Hf. rewrite pids_node in Ho. cbn in Hpc, Ho, Hmz, Hnd. rewrite app_nil_r in *.
    destruct (ps_free_ok _ m pid d0 Hs Hd0) as (s & Hfree & Hs' & _).
    exists (mkTree (meta_page_id bt) s (mkMeta (tpid c) (Z.of_nat h + 1) n cfg)). split; [|split; [|split; [done|]]].
    + cbn [in_entries in_page_id right_child node_of fmap list_fmap zip_with last default].
      erewrite st_step by (apply pm_call_ok; exact Hfree). unfold st_modify. cbn [bt_meta with_store meta_page_id with_meta bt_pm]. rewrite Hm.
      cbn [height meta_entries config]. rewrite decide_True by lia. unfold with_meta, with_store. cbn [bt_pm meta_page_id]. do 4 f_equal. lia.
    + exists (delete pid m), h, c. split; [|cbn; by rewrite app_nil_r]. constructor; cbn [bt_pm meta_page_id bt_meta]; try done.
      * eapply tree_frame; [|exact Hf]. intros p Hp. left. apply lookup_delete_ne. by intros <-.
      * by constructor.
      * intros p. rewrite lookup_delete_is_Some, Ho, !elem_of_cons. split; [naive_solver|]. intros [->|Hp]; [naive_solver|].
        split; [by intros <-|auto].
    + cbn [bt_meta height]. rewrite Hm. cbn [height]. lia.
  - destruct (save_node_ok cfg bt m h [] pid ks cs lo hi nxt Hr Hl) as (s & m' & Hrun & _ & _ & Hzh & Hz & Ht).
    exists (with_store s bt). split; [done|]. pose proof (store_rebalanced bt m' _ [] lo hi nxt s _ (TNode pid ks cs) n Hzh Hz Ht) as Hreb.
    cbn [zpre zpost app length plug foldl tpid] in Hreb. rewrite app_nil_r in Hreb. by apply Hreb.
Qed.

Lemma remove_from_internal_ok fs h n : removes fs h n (λ parent idx, remove_from_internal parent idx (path_of fs)).
Proof.
  revert h. induction fs as [|f fs IH]; intros h bt m parent idx pid ks cs lo hi nxt Hr Hdrop Hl Hm.
  - cbn [zpre zpost app]. rewrite app_nil_r. by eapply remove_root_ok.
  - destruct (save_node_ok cfg bt m h (f :: fs) pid ks cs lo hi nxt Hr Hl) as (s & m' & Hrun & _ & _ & Hzh & Hz & Ht).
    cbn [path_of fmap list_fmap remove_from_internal]. erewrite st_step by (unfold st_lift; rewrite Hdrop; reflexivity).
    erewrite st_step by exact Hrun. destruct (internal_is_underfull _) eqn:Hu.
    + unfold internal_is_underfull in Hu. apply bool_decide_eq_true_1 in Hu. cbn [num_keys in_config node_of] in Hu.
      destruct (rebalance_internal_ok (with_store s bt) m' h f fs pid ks cs lo hi nxt n _ Hzh Hz Ht (nr_config _ _ _ _ _ _ _ _ _ _ _ Hr) ltac:(lia) Hm (IH (Datatypes.S h)))
        as (bt' & Hrun' & Hreb). exists bt'. split; [exact Hrun'|]. by apply (rebalanced_store _ s).
    + exists (with_store s bt). split; [done|]. eapply store_rebalanced; [exact Hzh|exact Hz|exact Ht|exact Hm|done].
Qed.

(** ** Leaves that run low *)

Lemma rebalance_leaf_ok bt m f fs pid es lo hi nxt prev n :
  zip_holds bt m (f :: fs) [TLeaf pid es] → zip_ok cfg m 0 (f :: fs) pid pid lo hi nxt →
  tree_ok cfg m 0 lo hi nxt (TLeaf pid es) → config_ok cfg → is_u32 prev → (length es < leaf_min_entries cfg)%nat →
  bt_meta bt = mkMeta (tpid (plug (f :: fs) (TLeaf pid es))) (Z.of_nat (length (f :: fs)) + 1) n cfg →
  ∃ bt', rebalance_leaf (mkLeaf pid (Z.of_nat (length es)) nxt prev cfg es) (path_of (f :: fs)) bt = (Ok tt, bt') ∧
    rebalanced bt bt' n (zpre (f :: fs) ++ es ++ zpost (f :: fs)).
Proof.
  intros Hzh Hz HX Hc Hpu Hund Hm. destruct (min_keys_ok Hc) as (_ & _ & Hmin & Hmin2).
  destruct (hole_pair bt m _ f fs (TLeaf pid es) lo hi nxt Hzh Hz HX) as (parent & Hload & Hnk & HlL & Hleft & Hright).
  assert (Hkv : zpre (f :: fs) ++ es ++ zpost (f :: fs) = zpre fs ++ kvs (fill f (TLeaf pid es)) ++ zpost fs).
  { rewrite kvs_fill. cbn [zpre zpost kvs]. by rewrite <- !app_assoc. }
  cbn [length] in Hm. replace (Datatypes.S (length fs)) with (length fs + 1)%nat in Hm by lia.
  cbn [path_of fmap list_fmap rebalance_leaf]. erewrite st_step by exact Hload. rewrite Hnk, st_get_bind, Hm. cbn [config]. rewrite Hkv.
  fold (path_of fs). change (plug (f :: fs) (TLeaf pid es)) with (plug fs (fill f (TLeaf pid es))) in Hm. case_decide as Hpos.
  - destruct (Hleft Hpos) as (f2 & sep & a & lo1 & hi1 & nxt1 & lo0 & hi0 & nxt0 & Hp & Hlen & Hfill & ->).
    pose proof (pa_a _ _ _ _ _ _ _ _ _ _ _ _ _ _ Hp) as Ha. destruct a as [pa ea|pa ka ca]; [|done].
    destruct (parent_children _ _ _ _ _ _ _ _ _ _ _ _ _ _ Hp) as [Hga _].
    replace (length (f_csL f) - 1)%nat with (length (f_csL f2)) by lia. rewrite Hga, Hlen, Hfill. rewrite Hfill in Hm.
    destruct (load_leaf_ok cfg bt m _ _ _ (zh_store _ _ _ _ Hzh) (proj1 Ha)) as (pva & _ & Hloada & Hoka). cbn [tpid]. erewrite st_step by exact Hloada.
    cbn [first_pid]. pose proof (lo_prev _ Hoka) as Hpva. assert (nxt = nxt1) as ->.
    { exact (proj1 (leaf_page_unique _ _ _ _ _ _ _ (proj1 HX) (proj1 (pa_b _ _ _ _ _ _ _ _ _ _ _ _ _ _ Hp)))). }
    cbn [lf_entries prev_leaf] in *. case_decide as Hbig.
    + eapply (pair_result_rebalanced _ bt) with (t0 := fill2 f2 sep _ _); [|done|exact Hm]. apply leaf_from_left_ok with (1 := Hp); try done; lia.
    + destruct (merge_leaves_ok bt m f2 fs sep pa ea pid es lo1 hi1 nxt1 lo0 hi0 nxt0 pva prev (length (f_csL f2) + 1) (path_of fs) Hp ltac:(lia) Hpva Hpu)
        as (s & m' & Hrun & Hready). unfold parent_node at 1. cbn [tpid]. rewrite Hrun.
      apply (removes_pair _ _ _ _ _ _ _ _ _ _ _ _ _ _ _ _ s m' (fill2 f2 sep (TLeaf pa ea) (TLeaf pid es)) n Hp (remove_from_internal_ok fs 0 n) Hready); done.
  - case_decide as Hr.
    + destruct (Hright ltac:(lia) ltac:(lia)) as (f2 & sep & b & lo1 & hi1 & nxt1 & lo0 & hi0 & nxt0 & Hp & Hlen & Hfill & ->).
      pose proof (pa_b _ _ _ _ _ _ _ _ _ _ _ _ _ _ Hp) as Hb. destruct b as [pb eb|pb kb cb]; [|done].
      destruct (parent_children _ _ _ _ _ _ _ _ _ _ _ _ _ _ Hp) as [_ Hgb].
      assert (Hidx : length (f_csL f) = length (f_csL f2)) by lia. rewrite Hidx, Hgb, Hfill. rewrite Hfill in Hm.
      destruct (load_leaf_ok cfg bt m _ _ _ (zh_store _ _ _ _ Hzh) (proj1 Hb)) as (pvb & _ & Hloadb & Hokb). cbn [tpid]. erewrite st_step by exact Hloadb.
      pose proof (lo_prev _ Hokb) as Hpvb. assert (nxt = pb) as ->.
      { exact (proj1 (leaf_page_unique _ _ _ _ _ _ _ (proj1 HX) (proj1 (pa_a _ _ _ _ _ _ _ _ _ _ _ _ _ _ Hp)))). }
      cbn [lf_entries prev_leaf] in *. case_decide as Hbig.
      * eapply (pair_result_rebalanced _ bt) with (t0 := fill2 f2 sep _ _); [|done|exact Hm]. apply leaf_from_right_ok with (1 := Hp); try done; lia.
      * destruct (merge_leaves_ok bt m f2 fs sep pid es pb eb lo1 hi1 nxt1 lo0 hi0 nxt0 prev pvb (length (f_csL f2) + 1) (path_of fs) Hp ltac:(lia) Hpu Hpvb)
          as (s & m' & Hrun & Hready). unfold parent_node at 1. cbn [tpid]. rewrite Hrun.
        apply (removes_pair _ _ _ _ _ _ _ _ _ _ _ _ _ _ _ _ s m' (fill2 f2 sep (TLeaf pid es) (TLeaf pb eb)) n Hp (remove_from_internal_ok fs 0 n) Hready); done.
    + exists bt. split; [done|]. rewrite <- (with_store_id bt) at 2.
      destruct (zip_fill cfg m _ f fs lo hi nxt (TLeaf pid es) Hz HX) as (lo0 & hi0 & nxt0 & Ht & Hz').
      eapply store_rebalanced; [|done|done|exact Hm|done]. rewrite with_store_id. by apply zip_holds_fill.
Qed.
End pairs.

(** ** Deletion *)

Section delete.
Context {K : Type} {HK : Key K} {HL : KeyLaws K} {C : Crc32} {S : Type} {PS : PageStore C S}.
Implicit Types (bt : BTree K S) (m : gmap Z bytes) (cfg : Config K).

Lemma delete_lookup (l : list (K * (Z * Z))) i k v : bt_sorted l → l !! i = Some (k, v) → delete i l = bt_remove k l.
Proof.
  revert i. induction l as [|[k' v'] l IH]; intros i Hs Hi; [done|]. apply bt_sorted_cons in Hs as [Hall Hs]. cbn [bt_remove].
  destruct i as [|i]; cbn in Hi.
  - injection Hi as -> ->. by rewrite cmp_refl.
  - rewrite Forall_forall in Hall. pose proof (Hall _ (list_elem_of_lookup_2 _ _ _ Hi)) as Hlt. cbn in Hlt. apply cmp_Lt_Gt in Hlt. rewrite Hlt.
    cbn. f_equal. by apply IH.
Qed.

Lemma leaf_remove_ok cfg pid nxt prev (es : list (K * (Z * Z))) key :
  bt_sorted es → (length es ≤ 2000)%nat →
  let n := mkLeaf pid (Z.of_nat (length es)) nxt prev cfg es in
  match bt_get key es with
  | None => leaf_remove_entry key n = Ok None
  | Some v => let es' := bt_remove key es in length es = Datatypes.S (length es') ∧
      leaf_remove_entry key n = Ok (Some ((key, v), mkLeaf pid (Z.of_nat (length es')) nxt prev cfg es'))
  end.
Proof.
  intros Hs Hl n. unfold leaf_remove_entry. cbn [lf_entries num_entries n lf_page_id next_leaf prev_leaf lf_config].
  pose proof (key_search_spec key es Hs) as Hk. destruct (binary_search_by _ es) as [i|p].
  - destruct Hk as (v & Hi & ->). cbv zeta. rewrite Hi. rewrite (delete_lookup es i key v Hs Hi).
    assert (Hlen : length es = Datatypes.S (length (bt_remove key es))).
    { rewrite <- (delete_lookup es i key v Hs Hi). rewrite length_delete by eauto. apply lookup_lt_Some in Hi. lia. }
    split; [done|]. unfold u16_dec. rewrite decide_True by lia. cbn. do 4 f_equal. lia.
  - destruct Hk as (_ & -> & _). done.
Qed.

Lemma dec_entries_ok cfg bt m h t n :
  bt_holds cfg bt m h t n → 0 < n →
  ∃ bt', dec_entries bt = (Ok tt, bt') ∧ bt_holds cfg bt' m h t (n - 1) ∧ meta_page_id bt' = meta_page_id bt ∧ bt_pm bt' = bt_pm bt.
Proof.
  intros [Hs Ht Hnd Ho Hm] Hn. unfold dec_entries. rewrite st_get_bind, Hm. cbn [meta_entries root_page_id height config].
  rewrite decide_True by done. eexists. split; [reflexivity|]. split; [|done]. constructor; try done.
Qed.

Lemma delete_at_ok cfg bt m fs pid es prev nxt lo hi n key v :
  zip_holds bt m fs [TLeaf pid es] → zip_ok cfg m 0 fs pid pid lo hi nxt → tree_ok cfg m 0 lo hi nxt (TLeaf pid es) →
  leaf_ok (mkLeaf pid (Z.of_nat (length es)) nxt prev cfg es) → bt_get key es = Some v →
  bt_meta bt = mkMeta (tpid (plug fs (TLeaf pid es))) (Z.of_nat (length fs) + 1) n cfg → height (bt_meta bt) ≤ u32_max → 0 < n ≤ u64_max →
  ∃ bt' m' h t, delete_at (mkLeaf pid (Z.of_nat (length es)) nxt prev cfg es) (path_of fs) key bt = (Ok tt, bt') ∧
    bt_holds cfg bt' m' h t (n - 1) ∧ meta_stored bt' m' ∧ kvs t = zpre fs ++ bt_remove key es ++ zpost fs ∧
    meta_page_id bt' = meta_page_id bt.
Proof.
  intros Hzh Hz (Hpage & Hsorted & Hes) Hok Hk Hm Hht Hn. pose proof Hok as [Hpu _ Hnu Hvu Hc Hef Hlen].
  cbn [lf_page_id next_leaf prev_leaf lf_config lf_entries] in *. pose proof (leaf_max_4 cfg Hc) as Hmax.
  pose proof (leaf_remove_ok cfg pid nxt prev es key Hsorted ltac:(lia)) as Hrm. rewrite Hk in Hrm. cbv zeta in Hrm. destruct Hrm as [Hl Hrm].
  set (es' := bt_remove key es) in *.
  destruct (put_leaf_ok cfg bt m fs pid es es' nxt prev lo hi Hzh Hz) as (s & m1 & Hrun & _ & Hzh1 & Hz1 & Ht1).
  { apply leaf_ok_with; try done; [by apply bt_remove_Forall|lia]. } { by apply bt_sorted_remove. } { by apply bt_remove_Forall. }
  assert (Hb1 : bt_holds cfg (with_store s bt) m1 (length fs + 0) (plug fs (TLeaf pid es')) n).
  { eapply zip_holds_plug; try done. cbn [bt_meta with_store]. rewrite Hm. f_equal; [by apply tpid_plug|lia]. }
  destruct (dec_entries_ok cfg _ m1 _ _ n Hb1 ltac:(lia)) as (bt2 & Hrun2 & Hb2 & Hid2 & Hpm2). rewrite Hm in Hht. cbn [height] in Hht.
  assert (Hfin : ∃ bt3, (if decide (path_of fs = [] ∨ leaf_is_underfull (mkLeaf pid (Z.of_nat (length es')) nxt prev cfg es') = false) then mret tt
      else rebalance_leaf (mkLeaf pid (Z.of_nat (length es')) nxt prev cfg es') (path_of fs)) bt2 = (Ok tt, bt3) ∧
    rebalanced cfg bt2 bt3 (n - 1) (zpre fs ++ es' ++ zpost fs)).
  { case_decide as Hpath.
    - exists bt2. split; [done|]. split; [|done]. exists m1, (length fs + 0)%nat, (plug fs (TLeaf pid es')). split; [done|]. apply kvs_plug.
    - apply Decidable.not_or in Hpath as [Hpath Hund]. apply not_false_iff_true in Hund. unfold leaf_is_underfull in Hund.
      apply bool_decide_eq_true_1 in Hund. cbn [num_entries lf_config] in Hund. destruct fs as [|f fs]; [done|].
      assert (Hzh2 : zip_holds bt2 m1 (f :: fs) [TLeaf pid es']).
      { destruct Hzh1 as [Hs1 Hnd1 Ho1]. constructor; rewrite ?Hpm2, ?Hid2; done. }
      apply (rebalance_leaf_ok cfg bt2 m1 f fs pid es' lo hi nxt prev (n - 1) Hzh2 Hz1 Ht1 Hc Hvu ltac:(lia)).
      rewrite (bh_meta _ _ _ _ _ _ Hb2). f_equal. lia. }
  destruct Hfin as (bt3 & Hrun3 & (m3 & h3 & t3 & Hb3 & Hkv3) & Hid3 & Hh3).
  rewrite (bh_meta _ _ _ _ _ _ Hb2), (bh_meta _ _ _ _ _ _ Hb3) in Hh3. cbn [height] in Hh3.
  destruct (flush_meta_ok cfg bt3 m3 h3 t3 (n - 1) Hb3 Hc ltac:(lia) ltac:(lia)) as (s4 & m4 & Hrun4 & Hb4 & Hst4 & _).
  exists (with_store s4 bt3), m4, h3, t3. split; [|split; [done|split; [done|split; [done|cbn; by rewrite Hid3, Hid2]]]].
  unfold delete_at. erewrite st_step by (unfold st_lift; rewrite Hrm; reflexivity). cbv beta iota.
  erewrite st_step by exact Hrun. erewrite st_step by exact Hrun2. case_decide; [|by erewrite st_step by exact Hrun3].
  by injection Hrun3 as <-.
Qed.

Lemma bt_delete_ok bt kv key fuel :
  bt_rep bt kv → enough bt fuel →
  match bt_get key kv with
  | None => delete_key fuel key bt = Some (Err (key_not_found_error key), bt)
  | Some _ => ∃ bt', delete_key fuel key bt = Some (Ok tt, bt') ∧ bt_rep bt' (bt_remove key kv) ∧
      config (bt_meta bt') = config (bt_meta bt) ∧ meta_page_id bt' = meta_page_id bt
  end.
Proof.
  intros (m & h & t & Hb & -> & Hst & Hc & Hu) Hf. set (cfg := config (bt_meta bt)) in *.
  destruct (descend_root bt m h t _ cfg key fuel Hb Hf) as
    (fs & pid & es & prev & nxt & lo & hi & Hd & _ & Hok & Hz & Ht & <- & Ha & Hbl & Hh & Hpre & Hpost).
  unfold delete_key. erewrite ft_step by exact Hd. cbv beta iota. pose proof Ht as (_ & Hsorted & _).
  assert (Hl : (length es ≤ 2000)%nat).
  { pose proof (leaf_max_4 cfg Hc). pose proof (lo_fit _ Hok) as Hl. cbn [lf_entries lf_config] in Hl. lia. }
  pose proof (tree_kvs _ _ _ _ _ _ _ (bh_tree _ _ _ _ _ _ Hb)) as [Hs _].
  rewrite kvs_plug in *. rewrite bt_get_mid by done. cbn [kvs] in *.
  pose proof (leaf_remove_ok cfg pid nxt prev es key Hsorted Hl) as Hrm. cbv zeta in Hrm.
  destruct (bt_get key es) as [v|] eqn:Hk.
  - destruct Hrm as [Hlen Hrm].
    destruct (delete_at_ok cfg bt m fs pid es prev nxt lo hi (Z.of_nat (length (zpre fs ++ es ++ zpost fs))) key v)
      as (bt' & m' & h' & t & Hrun & Hb' & Hst' & Hkv & Hid); try done; [by eapply bt_holds_zip| | |split; [rewrite !length_app; lia|done]|].
    { rewrite (bh_meta _ _ _ _ _ _ Hb), Hh. done. }
    { destruct Hst as (d & _ & <-). cbn [read_meta_from_buf height]. unfold le_at, u32_max. pose proof (of_le_range (slice 36 4 d)) as Hr.
      assert (Z.of_nat (length (slice 36 4 d)) ≤ 4) by (unfold slice; rewrite length_take; lia).
      assert (256 ^ Z.of_nat (length (slice 36 4 d)) ≤ 256 ^ 4) by (apply Z.pow_le_mono_r; lia). lia. }
    pose proof (bh_meta _ _ _ _ _ _ Hb') as Hm'. exists bt'. unfold ft_lift. rewrite Hrun. split; [done|].
    rewrite Hm'. cbn [config]. split; [|done]. exists m', h', t. rewrite Hm'. cbn [config]. rewrite bt_remove_mid by done.
    assert (Hlen' : Z.of_nat (length (zpre fs ++ bt_remove key es ++ zpost fs)) = Z.of_nat (length (zpre fs ++ es ++ zpost fs)) - 1).
    { rewrite !length_app. lia. }
    rewrite Hlen'. split_and!; try done. lia.
  - unfold ft_lift, delete_at. by erewrite st_step by (unfold st_lift; rewrite Hrm; reflexivity).
Qed.

(** C35: Deleting from an index that stores [kv]: an absent key is refused with the
    not-found error and nothing changes; otherwise the call succeeds and the index
    stores [kv] without the key, whatever borrowing from siblings, merging of leaves and
    internal nodes, freeing of pages and shrinking of the root that takes. *)
Theorem btree_delete bt kv key fuel :
  bt_rep bt kv → enough bt fuel →
  match bt_get key kv with
  | None => delete_key fuel key bt = Some (Err (key_not_found_error key), bt)
  | Some _ => ∃ bt', delete_key fuel key bt = Some (Ok tt, bt') ∧ bt_rep bt' (bt_remove key kv) ∧
      config (bt_meta bt') = config (bt_meta bt) ∧ meta_page_id bt' = meta_page_id bt
  end.
Proof. apply bt_delete_ok. Qed.
End delete.

Lemma btree_delete_witness :
  let C := crc32_ieee in let HK := uuid_key in let HL := uuid_laws in
  ∃ bt bt' bt2 : BTree bytes PageManager, create tt (pm_new None) = Ok bt ∧ insert 1 (demo_key x01) 7 3 bt = Some (Ok tt, bt') ∧
    delete_key (Z.to_nat (height (bt_meta bt'))) (demo_key x01) bt' = Some (Ok tt, bt2) ∧ bt_rep bt2 [].
Proof.
  intros C HK HL. destruct demo_index as (bt & Hc & Hrep & Hf & Hg).
  assert (Hfit : entry_fits (HL:=uuid_laws) (config (bt_meta bt)) (demo_key x01) (7, 3)).
  { destruct (config (bt_meta bt)). apply demo_fits. }
  pose proof (bt_insert_ok (HL:=uuid_laws) bt [] (demo_key x01) 7 3 1 Hrep Hf Hg Hfit) as (bt' & Hrun & Hrep' & _).
  destruct (btree_delete (HL:=uuid_laws) bt' [(demo_key x01, (7, 3))] (demo_key x01) (Z.to_nat (height (bt_meta bt'))) Hrep')
    as (bt2 & Hrun2 & Hrep2 & _); [unfold enough; lia|].
  exists bt, bt', bt2. exact (conj Hc (conj Hrun (conj Hrun2 Hrep2))).
Defined.
