(* ===== verification/BTreeCursor.v ===== *)
(** * Cursors over the B+Tree (src/btree/cursor.rs)

    A cursor keeps the entries of one leaf and walks the leaf chain.  [range] collects
    what it yields; its loops take fuel. *)

From S2P Require Import Prelude RustStd Page PageManager BTreeNode BTree BTreeShape BTreeInsert BTreeSpec.

Local Open Scope Z_scope.

Record BTreeCursor (K : Type) := mkCursor {
  cur_entries : list (K * (Z * Z));
  cur_pos : nat;
  next_leaf_id : Z;
}.
Arguments mkCursor {K} _ _ _.
Arguments cur_entries {K} _.
Arguments cur_pos {K} _.
Arguments next_leaf_id {K} _.

Section cursor.
Context {K : Type} {HK : Key K} {C : Crc32} {S : Type} {PS : PageStore C S}.

Abbreviation tree_f := (FT (BTree K S) GrumpyError).

(** A looping call on [self.pm]. *)
Definition pm_loop {A} (c : FT S GrumpyError A) : tree_f A := ft_zoom bt_pm with_store c.

(** [entries[0].child_page_id] of a nonempty node, else [right_child]. *)
Definition first_child (n : InternalNode K) : Z :=
  match in_entries n with [] => right_child n | e :: _ => e.2 end.

Fixpoint find_first_leaf_from (fuel : nat) (current : Z) : tree_f (LeafNode K) :=
  match fuel with
  | O => ft_stop
  | Datatypes.S fuel =>
      buf ← ft_lift (pm_call (ps_read current));
      match page_type (read_from buf) with
      | BTreeLeaf => ft_lift (st_lift (leaf_from_bytes buf))
      | BTreeInternal =>
          node ← ft_lift (st_lift (internal_from_bytes buf));
          find_first_leaf_from fuel (first_child node)
      | _ => ft_lift (st_fail (PageNotFound current))
      end
  end.

Definition find_first_leaf (fuel : nat) : tree_f (LeafNode K) :=
  t ← ft_lift st_get; find_first_leaf_from fuel (root_page_id (bt_meta t)).

Definition cursor (fuel : nat) : tree_f (BTreeCursor K) :=
  first_leaf ← find_first_leaf fuel;
  mret (mkCursor (lf_entries first_leaf) 0 (next_leaf first_leaf)).

Definition cursor_from (fuel : nat) (start_key : K) : tree_f (BTreeCursor K) :=
  leaf ← find_leaf fuel start_key;
  let pos := unwrap_or_else_id (binary_search_by (λ e, cmp e.1 start_key) (lf_entries leaf)) in
  mret (mkCursor (lf_entries leaf) pos (next_leaf leaf)).

(** The entry the cursor yields, and the cursor after it. *)
Fixpoint next_entry (fuel : nat) (c : BTreeCursor K) : FT S GrumpyError (option (K * (Z * Z)) * BTreeCursor K) :=
  match fuel with
  | O => ft_stop
  | Datatypes.S fuel =>
      match cur_entries c !! cur_pos c with
      | Some entry => mret (Some entry, mkCursor (cur_entries c) (cur_pos c + 1) (next_leaf_id c))
      | None =>
          if decide (next_leaf_id c = 0) then mret (None, c)
          else
            buf ← ft_lift (ps_read (next_leaf_id c));
            leaf ← ft_lift (st_lift (leaf_from_bytes buf));
            next_entry fuel (mkCursor (lf_entries leaf) 0 (next_leaf leaf))
      end
  end.

(** The [while let] of [range], with [results] so far. *)
Fixpoint collect (fuel : nat) (end_key : option K) (c : BTreeCursor K) (results : list (K * (Z * Z))) :
    tree_f (list (K * (Z * Z))) :=
  match fuel with
  | O => ft_stop
  | Datatypes.S fuel' =>
      '(item, c) ← pm_loop (next_entry fuel c);
      match item with
      | None => mret results
      | Some e =>
          if match end_key with Some k => kleb k e.1 | None => false end then mret results
          else collect fuel' end_key c (results ++ [e])
      end
  end.

Definition range (fuel : nat) (start end_key : option K) : tree_f (list (K * (Z * Z))) :=
  c ← match start with Some s => cursor_from fuel s | None => cursor fuel end;
  collect fuel end_key c [].

Definition scan_all (fuel : nat) : tree_f (list (K * (Z * Z))) := range fuel None None.
End cursor.

(** ** What the leaf chain holds *)

Section chain.
Context {K : Type} {HK : Key K} {HL : KeyLaws K} {C : Crc32} {S : Type} {PS : PageStore C S}.
Context (cfg : Config K).
Implicit Types (bt : BTree K S) (m : gmap Z bytes) (ess : list (list (K * (Z * Z)))).

(** The leaves from page [pid] on hold the runs [ess]. *)
Fixpoint chain m (pid : Z) ess : Prop :=
  match ess with
  | [] => pid = 0
  | es :: ess => pid ≠ 0 ∧ ∃ nxt, leaf_page cfg m pid nxt es ∧ chain m nxt ess
  end.

Lemma forest_chain (P : option K → option K → Z → tree K → Prop) m lo hi nxt ks cs ess :
  (∀ lo hi nxt c ess, P lo hi nxt c → chain m nxt ess →
    ∃ ess', chain m (first_pid c) (ess' ++ ess) ∧ mjoin ess' = kvs c ∧ (length ess' ≤ length (pids c))%nat) →
  forest P lo hi nxt ks cs → chain m nxt ess →
  ∃ ess', chain m (first_of cs nxt) (ess' ++ ess) ∧ mjoin ess' = mjoin (kvs <$> cs) ∧ (length ess' ≤ length (mjoin (pids <$> cs)))%nat.
Proof.
  intros HP. revert lo cs. induction ks as [|k ks IH]; intros lo cs Hf Hc.
  - destruct cs as [|c [|? ?]]; try done. destruct (HP _ _ _ _ _ Hf Hc) as (ess' & H1 & H2 & H3). exists ess'. split; [done|].
    cbn. by rewrite !app_nil_r.
  - destruct cs as [|c cs]; [done|]. destruct Hf as (_ & Hc1 & Hf). destruct (IH _ _ Hf Hc) as (e2 & H2 & Hk2 & Hl2).
    destruct (HP _ _ _ _ _ Hc1 H2) as (e1 & H1 & Hk1 & Hl1). exists (e1 ++ e2). split; [by rewrite <- app_assoc|].
    rewrite join_app, Hk1, Hk2. split; [done|]. change (mjoin (pids <$> c :: cs)) with (pids c ++ mjoin (pids <$> cs)). rewrite !length_app. lia.
Qed.

Lemma tree_chain bt m h lo hi nxt t ess :
  ps_rep (bt_pm bt) m → tree_ok cfg m h lo hi nxt t → chain m nxt ess →
  ∃ ess', chain m (first_pid t) (ess' ++ ess) ∧ mjoin ess' = kvs t ∧ (length ess' ≤ length (pids t))%nat.
Proof.
  intros Hs. revert lo hi nxt t ess. induction h as [|h IH]; intros lo hi nxt [pid es|pid ks cs] ess Ht Hc; try done.
  - destruct Ht as (Hp & _). exists [es]. cbn. split; [|split; [apply app_nil_r|lia]]. split; [|eauto].
    destruct Hp as (d & _ & Hd & _). destruct (ps_owned _ _ _ _ Hs Hd). lia.
  - destruct Ht as [_ Hf].
    destruct (forest_chain (tree_ok cfg m h) m lo hi nxt ks cs ess (λ _ _ _ _ _, IH _ _ _ _ _) Hf Hc) as (ess' & H1 & H2 & H3).
    exists ess'. split; [|split; [done|cbn; lia]]. cbn [first_pid]. destruct cs; [by destruct ks|exact H1].
Qed.

(** What follows a hole. *)
Lemma zip_chain bt m h fs hp fp lo hi nxt :
  ps_rep (bt_pm bt) m → zip_ok cfg m h fs hp fp lo hi nxt → ∃ ess, chain m nxt ess ∧ mjoin ess = zpost fs ∧ (length ess ≤ length (zpids fs))%nat.
Proof.
  intros Hs. revert h hp fp lo hi nxt. induction fs as [|f fs IH]; intros h hp fp lo hi nxt.
  { intros (_ & _ & ->). by exists []. }
  intros (lo0 & hi0 & nxt0 & _ & _ & _ & _ & Hr & _ & Hz). destruct (IH _ _ _ _ _ _ Hz) as (ess & Hc & Hk & Hl). cbn [zpost].
  change (zpids (f :: fs)) with (frame_pids f ++ zpids fs). unfold frame_pids. rewrite !length_app. cbn [length]. rewrite !length_app.
  destruct (f_ksR f) as [|k ksR], (f_csR f) as [|c csR]; cbn [rctx] in Hr; try done.
  - destruct Hr as [_ ->]. exists ess. split; [done|]. split; [done|lia].
  - destruct Hr as (_ & -> & _ & Hf). destruct (forest_chain (tree_ok cfg m h) m _ _ _ _ _ ess (λ _ _ _ _ _ H1 H2, tree_chain bt m h _ _ _ _ _ Hs H1 H2) Hf Hc) as (e1 & H1 & H2 & H3).
    exists (e1 ++ ess). split; [exact H1|]. rewrite join_app, H2, Hk. split; [done|]. rewrite length_app. lia.
Qed.

(** ** Cursors *)

(** What the cursor has still to yield, and the leaves it has still to load. *)
Definition remaining m (c : BTreeCursor K) ess (l : list (K * (Z * Z))) : Prop :=
  chain m (next_leaf_id c) ess ∧ l = drop (cur_pos c) (cur_entries c) ++ mjoin ess.

Lemma next_entry_ok bt m c ess l fuel :
  ps_rep (bt_pm bt) m → remaining m c ess l → (length ess < fuel)%nat →
  ∃ c' ess', next_entry fuel c (bt_pm bt) = Some (Ok (head l, c'), bt_pm bt) ∧ remaining m c' ess' (tail l) ∧ (length ess' ≤ length ess)%nat.
Proof.
  intros Hs. revert c ess l. induction fuel as [|fuel IH]; intros c ess l [Hc ->] Hf; [lia|]. cbn [next_entry].
  destruct (cur_entries c !! cur_pos c) as [e|] eqn:E.
  - exists (mkCursor (cur_entries c) (cur_pos c + 1) (next_leaf_id c)), ess. rewrite (drop_S _ _ _ E). split; [done|]. split; [|lia].
    split; [done|]. cbn [tail app cur_pos cur_entries]. by rewrite Nat.add_1_r.
  - rewrite drop_ge by (by apply lookup_ge_None). destruct ess as [|es ess].
    + cbn in Hc. rewrite decide_True by done. exists c, []. split; [done|]. split; [|done]. split; [done|].
      rewrite drop_ge by (by apply lookup_ge_None). done.
    + destruct Hc as (H0 & nxt & (d & prev & Hd & _ & Hr & _) & Hc). rewrite decide_False by done.
      erewrite ft_lift_step by (apply (ps_read_ok _ _ _ _ Hs Hd)). erewrite ft_lift_step by (unfold st_lift; rewrite Hr; reflexivity).
      cbn [lf_entries next_leaf]. simpl in Hf. destruct (IH (mkCursor es 0 nxt) ess (es ++ mjoin ess)) as (c' & ess' & H1 & H2 & H3); [done|lia|].
      exists c', ess'. cbn [drop cur_pos cur_entries] in *. split; [exact H1|]. split; [exact H2|]. cbn [length]. lia.
Qed.

(** What [range] keeps: entries up to the first key at or above the end. *)
Fixpoint upto (end_key : option K) (l : list (K * (Z * Z))) : list (K * (Z * Z)) :=
  match l with
  | [] => []
  | e :: l => if match end_key with Some k => kleb k e.1 | None => false end then [] else e :: upto end_key l
  end.

Lemma collect_ok bt m c ess l fuel end_key acc :
  ps_rep (bt_pm bt) m → remaining m c ess l → (length l + length ess < fuel)%nat →
  collect fuel end_key c acc bt = Some (Ok (acc ++ upto end_key l), bt).
Proof.
  intros Hs. revert c ess l acc. induction fuel as [|fuel IH]; intros c ess l acc Hrem Hf; [lia|]. cbn [collect].
  destruct (next_entry_ok bt m c ess l (Datatypes.S fuel) Hs Hrem ltac:(lia)) as (c' & ess' & Hn & Hrem' & Hle).
  erewrite ft_step by (unfold pm_loop; rewrite (ft_zoom_ok _ _ _ _ _ _ Hn), with_store_id; reflexivity). cbv beta iota.
  destruct l as [|e l]; cbn [head upto]; [by rewrite app_nil_r|]. destruct (match end_key with Some k => kleb k e.1 | None => false end).
  - by rewrite app_nil_r.
  - cbn [tail] in Hrem'. rewrite (IH _ _ _ _ Hrem') by (cbn in Hf; lia). by rewrite <- app_assoc.
Qed.
End chain.

(** ** Ranges *)

Definition in_range {K} `{Ord K} (start end_key : option K) (k : K) : bool :=
  match start with Some s => kleb s k | None => true end && match end_key with Some e => kltb k e | None => true end.

Section range.
Context {K : Type} {HK : Key K} {HL : KeyLaws K} {C : Crc32} {S : Type} {PS : PageStore C S}.
Implicit Types (bt : BTree K S) (m : gmap Z bytes) (l : list (K * (Z * Z))).

Definition from_start (start : option K) (e : K * (Z * Z)) : Prop := match start with Some s => kle s e.1 | None => True end.

Lemma in_range_spec start end_key (e : K * (Z * Z)) : in_range start end_key e.1 = true ↔ from_start start e ∧ below end_key e.1.
Proof. unfold in_range, from_start, below. rewrite andb_true_iff. destruct start, end_key; rewrite ?kleb_spec, ?kltb_spec; naive_solver. Qed.

Lemma upto_filter start end_key l1 l2 :
  bt_sorted l2 → Forall (λ e, ¬ from_start start e) l1 → Forall (from_start start) l2 →
  filter (λ e, in_range start end_key e.1 = true) (l1 ++ l2) = upto end_key l2.
Proof.
  intros Hs H1 H2. rewrite filter_app. rewrite (filter_none (λ e, in_range start end_key e.1 = true) l1); cbn [app].
  2:{ rewrite Forall_forall in H1. intros e He Hin. apply in_range_spec in Hin as [? _]. by apply (H1 e). }
  induction Hs as [|e l2 Hs IH Hall]; [done|]. apply Forall_cons in H2 as [He H2]. cbn [upto].
  destruct (match end_key with Some k => kleb k e.1 | None => false end) eqn:E.
  - destruct end_key as [k|]; [|done]. apply kleb_spec in E. apply filter_none. apply Forall_forall. constructor.
    + intros [_ Hb]%in_range_spec. cbn in Hb. by apply kle_not_lt in E.
    + eapply Forall_impl; [exact Hall|]. intros e' He' [_ Hb]%in_range_spec. cbn in Hb, He'. apply kle_not_lt in E.
      apply E. by transitivity e'.1.
  - rewrite filter_cons_True; [by rewrite IH|]. apply in_range_spec. split; [done|]. destruct end_key as [k|]; [|done]. cbn.
    apply klt_not_le. intros Hle. apply kleb_spec in Hle. congruence.
Qed.

Lemma find_first_leaf_ok cfg bt m h lo hi nxt t fuel :
  ps_rep (bt_pm bt) m → tree_ok cfg m h lo hi nxt t → (h < fuel)%nat →
  ∃ leaf, find_first_leaf_from fuel (tpid t) bt = Some (Ok leaf, bt) ∧ leaf_page cfg m (first_pid t) (next_leaf leaf) (lf_entries leaf).
Proof.
  intros Hs. revert lo hi nxt t fuel. induction h as [|h IH]; intros lo hi nxt t fuel Ht Hf; (destruct fuel as [|fuel]; [lia|]).
  - destruct t as [pid es|]; [|done]. destruct Ht as (Hp & _). pose proof Hp as (d & prev & Hd & Hty & Hr & _).
    exists (mkLeaf pid (Z.of_nat (length es)) nxt prev cfg es). split; [|exact Hp]. cbn [find_first_leaf_from tpid].
    erewrite ft_lift_step by (apply pm_call_ok, (ps_read_ok _ _ _ _ Hs Hd)). rewrite Hty, with_store_id. unfold ft_lift, st_lift. by rewrite Hr.
  - destruct t as [|pid ks cs]; [done|]. destruct Ht as [(d & Hd & Hty & Hr & _) Hf']. destruct cs as [|c cs]; [by destruct ks|].
    assert (Hc : ∃ hi' nxt', tree_ok cfg m h lo hi' nxt' c).
    { destruct ks as [|k ks]; cbn [forest] in Hf'; [destruct cs; [eauto|done]|]. destruct Hf' as (_ & ? & _). eauto. }
    destruct Hc as (hi' & nxt' & Hc). destruct (IH _ _ _ _ fuel Hc ltac:(lia)) as (leaf & Hrun & Hp). exists leaf. split; [|exact Hp].
    cbn [find_first_leaf_from tpid]. erewrite ft_lift_step by (apply pm_call_ok, (ps_read_ok _ _ _ _ Hs Hd)). rewrite Hty, with_store_id.
    erewrite ft_lift_step by (unfold st_lift; rewrite Hr; reflexivity).
    assert (first_child (node_of cfg pid ks (tpid <$> c :: cs)) = tpid c) as ->; [|exact Hrun].
    unfold first_child, node_of. cbn [in_entries right_child]. destruct ks; [|done]. cbn [forest] in Hf'. by destruct cs.
Qed.

(** The position [binary_search] gives splits the leaf at the start key. *)
Lemma search_split start l :
  bt_sorted l → let p := unwrap_or_else_id (binary_search_by (λ e, cmp e.1 start) l) in
  Forall (λ e, ¬ from_start (Some start) e) (take p l) ∧ Forall (from_start (Some start)) (drop p l).
Proof.
  intros Hs p. pose proof (key_search_spec start l Hs) as Hk. unfold p. destruct (binary_search_by _ l) as [i|q]; cbn [unwrap_or_else_id].
  - destruct Hk as (v & Hi & _). pose proof (take_drop_middle _ _ _ Hi) as Hl. rewrite <- Hl in Hs.
    apply StronglySorted_app in Hs as (Hlt & _ & Hs2). apply bt_sorted_cons in Hs2 as [Hall _]. rewrite (drop_S _ _ _ Hi). split.
    + apply Forall_forall. intros e He Hle. apply kle_not_lt in Hle. apply Hle. apply (Hlt e (start, v) He). by left.
    + constructor; [apply kle_refl|]. eapply Forall_impl; [exact Hall|]. intros e He. by apply klt_le.
  - destruct Hk as (_ & _ & Ht & Hd & _). split.
    + eapply Forall_impl; [exact Ht|]. intros e He Hle. by apply kle_not_lt in Hle.
    + eapply Forall_impl; [exact Hd|]. intros e He. by apply klt_le.
Qed.

(** The cursor that [range] starts from has the entries from [start] on to yield. *)
Lemma start_cursor_ok cfg bt m h t n start fuel :
  bt_holds cfg bt m h t n → enough bt fuel →
  ∃ c ess l1 l2, match start with Some s => cursor_from fuel s | None => cursor fuel end bt = Some (Ok c, bt) ∧
    remaining cfg m c ess l2 ∧ kvs t = l1 ++ l2 ∧ Forall (λ e, ¬ from_start start e) l1 ∧ Forall (from_start start) l2 ∧
    (length ess ≤ length (pids t))%nat.
Proof.
  intros Hb Hf. pose proof Hb as [Hs Ht _ _ Hm]. destruct start as [s|].
  - destruct (descend_root bt m h t _ cfg s fuel Hb Hf) as
      (fs & pid & es & prev & nxt & lo & hi & _ & Hd & _ & Hz & (_ & Hsorted & _) & <- & _ & _ & _ & Hpre & Hpost).
    destruct (zip_chain cfg bt m 0 fs pid pid lo hi nxt Hs Hz) as (ess & Hch & Hk & Hl). pose proof (search_split s es Hsorted) as Hsp. cbv zeta in Hsp.
    set (p := unwrap_or_else_id (binary_search_by (λ e, cmp e.1 s) es)) in *. destruct Hsp as [H1 H2].
    exists (mkCursor es p nxt), ess, (zpre fs ++ take p es), (drop p es ++ zpost fs). split.
    { unfold cursor_from. by erewrite ft_step by exact Hd. }
    split; [split; [done|]; cbn; by rewrite Hk|]. rewrite kvs_plug, pids_plug. cbn [kvs]. split.
    { rewrite <- !app_assoc. f_equal. rewrite app_assoc. by rewrite take_drop. }
    split; [|split; [|rewrite length_app; lia]]; apply Forall_app; split; try done.
    + eapply Forall_impl; [exact Hpre|]. intros e He Hle. by apply kle_not_lt in Hle.
    + eapply Forall_impl; [exact Hpost|]. intros e He. by apply klt_le.
  - unfold enough in Hf. rewrite Hm in Hf. cbn [height] in Hf.
    destruct (find_first_leaf_ok cfg bt m h None None 0 t fuel Hs Ht ltac:(lia)) as (leaf & Hrun & Hp).
    destruct (tree_chain cfg bt m h None None 0 t [] Hs Ht eq_refl) as (ess & Hch & Hk & Hl). rewrite app_nil_r in Hch.
    destruct ess as [|es ess].
    { destruct (leaf_page_first _ _ _ _ _ _ _ Ht) as [_ (nx & es & d & q & Hd & _)]. cbn in Hch. rewrite Hch in Hd.
      destruct (ps_owned _ _ _ _ Hs Hd). lia. }
    destruct Hch as (_ & nxt & Hp' & Hch). destruct (leaf_page_unique _ _ _ _ _ _ _ Hp Hp') as [<- <-].
    exists (mkCursor (lf_entries leaf) 0 (next_leaf leaf)), ess, [], (kvs t). split.
    { unfold cursor, find_first_leaf. unfold mbind, ft_bind, ft_lift, st_get. rewrite Hm. cbn [root_page_id]. by rewrite Hrun. }
    split; [split; [done|]; by rewrite <- Hk|]. split; [done|]. split; [constructor|]. split; [by apply Forall_forall|]. cbn in Hl. lia.
Qed.

Lemma btree_range_ok bt kv start end_key :
  bt_rep bt kv → ∃ N, ∀ fuel, (N ≤ fuel)%nat →
    range fuel start end_key bt = Some (Ok (filter (λ e, in_range start end_key e.1 = true) kv), bt).
Proof.
  intros (m & h & t & Hb & -> & _). exists (h + length (kvs t) + length (pids t) + 1)%nat. intros fuel Hfuel.
  destruct (start_cursor_ok (config (bt_meta bt)) bt m h t _ start fuel Hb) as (c & ess & l1 & l2 & Hc & Hrem & Hl & H1 & H2 & Hlen).
  { unfold enough. rewrite (bh_meta _ _ _ _ _ _ Hb). cbn [height]. lia. }
  pose proof (tree_kvs _ _ _ _ _ _ _ (bh_tree _ _ _ _ _ _ Hb)) as [Hs _]. rewrite Hl in *. rewrite length_app in Hfuel.
  apply StronglySorted_app in Hs as (_ & _ & Hs2). unfold range. erewrite ft_step by exact Hc.
  rewrite (collect_ok (config (bt_meta bt)) bt m c ess l2 fuel end_key [] (bh_store _ _ _ _ _ _ Hb) Hrem) by lia.
  by rewrite upto_filter.
Qed.

(** C36: A range scan of an index that stores [kv] terminates and returns, in key order,
    exactly the entries with [start <= key < end], a missing bound being no bound, and
    changes nothing. *)
Theorem btree_range bt kv start end_key :
  bt_rep bt kv → ∃ N, ∀ fuel, (N ≤ fuel)%nat →
    range fuel start end_key bt = Some (Ok (filter (λ e, in_range start end_key e.1 = true) kv), bt).
Proof. apply btree_range_ok. Qed.
End range.

Lemma btree_range_witness :
  let C := crc32_ieee in let HK := uuid_key in let HL := uuid_laws in
  ∃ (bt : BTree bytes PageManager) N, create tt (pm_new None) = Ok bt ∧
    ∀ fuel, (N ≤ fuel)%nat → range fuel None (Some (demo_key x05)) bt = Some (Ok [], bt).
Proof.
  intros C HK HL. destruct demo_index as (bt & Hc & Hrep & _).
  destruct (btree_range (HL:=uuid_laws) bt [] None (Some (demo_key x05)) Hrep) as [N HN]. exists bt, N. split; [exact Hc|exact HN].
Defined.
