(* ===== verification/Index.v ===== *)
(** * Secondary indexes (src/index/encoding.rs, src/index/mod.rs)

    The sortable encoding of field values, the composite keys [value ++ uuid], and the
    index over a B+Tree with variable-length keys.  A file path is not modelled: opening
    and removing files is the caller's; [create] and [rebuild] are given a fresh store. *)

From S2P Require Import Prelude RustStd Value Page PageManager BTreeNode BTree BTreeShape BTreeInsert BTreeSpec BTreeDelete BTreeCursor.

Local Open Scope Z_scope.

Definition TAG_NULL : Z := 0.
Definition TAG_BOOL : Z := 1.
Definition TAG_INTEGER : Z := 2.
Definition TAG_FLOAT : Z := 3.
Definition TAG_STRING : Z := 4.
Definition TAG_BYTES : Z := 5.
Definition TAG_REF : Z := 6.

Definition MAX_INDEXED_LEN : nat := 128.

Definition SIGN_BIT : Z := 9223372036854775808.

(** [(i as u64) ^ 0x8000_0000_0000_0000] *)
Definition sortable_integer (i : Z) : Z := Z.lxor (i `mod` 18446744073709551616) SIGN_BIT.

(** [!bits] for a set sign bit, else the sign bit flipped. *)
Definition sortable_float (bits : Z) : Z :=
  if decide (Z.land bits SIGN_BIT ≠ 0) then Z.lxor bits 18446744073709551615 else Z.lxor bits SIGN_BIT.

Definition encode_sortable_value (v : Value) : res bytes :=
  match v with
  | VNull => Ok [z2b TAG_NULL]
  | VBool b => Ok [z2b TAG_BOOL; z2b (if b then 1 else 0)]
  | VInteger i => Ok (z2b TAG_INTEGER :: to_be 8 (sortable_integer i))
  | VFloat f => Ok (z2b TAG_FLOAT :: to_be 8 (sortable_float f))
  | VString s => Ok (z2b TAG_STRING :: take (length s `min` MAX_INDEXED_LEN) s)
  | VBytes b => Ok (z2b TAG_BYTES :: take (length b `min` MAX_INDEXED_LEN) b)
  | VRef collection uuid => Ok (z2b TAG_REF :: take (length collection `min` MAX_INDEXED_LEN) collection ++ uuid)
  | VArray _ | VObject _ | VTombstone _ _ | VCrdt _ _ => Err NotIndexable
  end.

Definition encode_composite_key (v : Value) (uuid : bytes) : res bytes :=
  key ← encode_sortable_value v; mret (key ++ uuid).

(** [str::split('.')]: the parts between the dots, at least one. *)
Fixpoint split_dots (s : bytes) : list bytes :=
  match s with
  | [] => [[]]
  | b :: s =>
      let rest := split_dots s in
      if decide (b = x2e) then [] :: rest
      else match rest with
           | part :: rest => (b :: part) :: rest
           | [] => [[b]]
           end
  end.

Fixpoint walk_path (current : Value) (parts : list bytes) : option Value :=
  match parts with
  | [] => Some current
  | part :: parts =>
      match current with
      | VObject obj => next ← bt_get part obj; walk_path next parts
      | _ => None
      end
  end.

Definition extract_field (v : Value) (field_path : bytes) : option Value := walk_path v (split_dots field_path).

(** ** Order *)

Lemma bytes_cmp_snoc (a b : bytes) x y :
  length a = length b →
  bytes_cmp (a ++ [x]) (b ++ [y]) = match bytes_cmp a b with Eq => b2z x ?= b2z y | c => c end.
Proof.
  revert b. induction a as [|c a IH]; intros [|d b] Hl; try done; simpl.
  - by destruct (b2z x ?= b2z y).
  - destruct (b2z c ?= b2z d); [|done|done]. apply IH. by injection Hl.
Qed.

Lemma to_be_S n z : to_be (S n) z = to_be n (z `div` 256) ++ [z2b z].
Proof. unfold to_be. cbn [to_le]. apply reverse_cons. Qed.

(** Big-endian bytes compare as the numbers do. *)
Lemma to_be_cmp n x y :
  0 ≤ x < 256 ^ Z.of_nat n → 0 ≤ y < 256 ^ Z.of_nat n → bytes_cmp (to_be n x) (to_be n y) = (x ?= y).
Proof.
  revert x y. induction n as [|n IH]; intros x y Hx Hy.
  { assert (x = 0) as -> by (simpl in *; lia). assert (y = 0) as -> by (simpl in *; lia). done. }
  rewrite Nat2Z.inj_succ, Z.pow_succ_r in Hx, Hy by lia. rewrite !to_be_S, bytes_cmp_snoc by (by rewrite !length_to_be).
  rewrite IH; [|split; [apply Z.div_pos; lia|apply Z.div_lt_upper_bound; lia]..]. rewrite !b2z_z2b.
  pose proof (Z.div_mod x 256 ltac:(lia)). pose proof (Z.div_mod y 256 ltac:(lia)).
  pose proof (Z.mod_pos_bound x 256 ltac:(lia)). pose proof (Z.mod_pos_bound y 256 ltac:(lia)).
  destruct (Z.compare_spec (x `div` 256) (y `div` 256)) as [E|E|E]; symmetry.
  - destruct (Z.compare_spec (x `mod` 256) (y `mod` 256)); [apply Z.compare_eq_iff|apply Z.compare_lt_iff|apply Z.compare_gt_iff]; lia.
  - apply Z.compare_lt_iff. lia.
  - apply Z.compare_gt_iff. lia.
Qed.

(** Flipping the top bit of a 64-bit word. *)
Lemma lxor_sign u : 0 ≤ u < 2 ^ 64 → Z.lxor u (2 ^ 63) = if decide (u < 2 ^ 63) then u + 2 ^ 63 else u - 2 ^ 63.
Proof.
  intros Hu. case_decide as Hs.
  - rewrite Z.add_nocarry_lxor; [done|]. apply Z.bits_inj'. intros n Hn. rewrite Z.land_spec, Z.bits_0, Z.pow2_bits_eqb by lia.
    destruct (Z.eqb_spec 63 n) as [<-|]; [|by rewrite andb_false_r]. rewrite Z.bits_above_log2; [done|lia|].
    destruct (decide (u = 0)) as [->|]; [simpl; lia|]. apply Z.log2_lt_pow2; lia.
  - assert (Hd : Z.lxor (u - 2 ^ 63) (2 ^ 63) = u).
    { rewrite <- (Z.add_nocarry_lxor (u - 2 ^ 63)); [lia|]. apply Z.bits_inj'. intros n Hn.
      rewrite Z.land_spec, Z.bits_0, Z.pow2_bits_eqb by lia. destruct (Z.eqb_spec 63 n) as [<-|]; [|by rewrite andb_false_r].
      rewrite Z.bits_above_log2; [done|lia|]. destruct (decide (u - 2 ^ 63 = 0)) as [->|]; [simpl; lia|]. apply Z.log2_lt_pow2; lia. }
    rewrite <- Hd at 1. by rewrite Z.lxor_assoc, Z.lxor_nilpotent, Z.lxor_0_r.
Qed.

Lemma sortable_integer_eq i : is_i64 i → sortable_integer i = i + 2 ^ 63.
Proof.
  unfold is_i64. intros Hi. unfold sortable_integer, SIGN_BIT. change 9223372036854775808 with (2 ^ 63). change 18446744073709551616 with (2 ^ 64).
  rewrite lxor_sign by (apply Z.mod_pos_bound; lia). destruct (decide (0 ≤ i)).
  - rewrite Z.mod_small by lia. rewrite decide_True by lia. done.
  - assert (i `mod` 2 ^ 64 = i + 2 ^ 64) as ->.
    { rewrite <- (Z.mod_add i 1 (2 ^ 64)) by lia. rewrite Z.mul_1_l. apply Z.mod_small. lia. }
    rewrite decide_False by lia. lia.
Qed.

(** The value a float stands for in [f64::total_cmp]: sign and magnitude. *)
Definition float_rank (bits : Z) : Z := if decide (bits < SIGN_BIT) then bits else - (bits - SIGN_BIT) - 1.

Lemma land_sign u : 0 ≤ u < 2 ^ 64 → Z.land u (2 ^ 63) = if decide (u < 2 ^ 63) then 0 else 2 ^ 63.
Proof.
  intros Hu. apply Z.bits_inj'. intros n Hn. rewrite Z.land_spec, Z.pow2_bits_eqb by lia. destruct (Z.eqb_spec 63 n) as [<-|Hne].
  - rewrite andb_true_r, Z.testbit_eqb by lia. case_decide as Hs.
    + by rewrite Z.div_small by lia.
    + rewrite Z.pow2_bits_true by lia. assert (u `div` 2 ^ 63 = 1) as ->; [|done].
      symmetry. apply Z.div_unique with (u - 2 ^ 63); lia.
  - rewrite andb_false_r. case_decide; [by rewrite Z.bits_0|]. by rewrite Z.pow2_bits_false.
Qed.

Lemma lxor_ones u : 0 ≤ u < 2 ^ 64 → Z.lxor u (2 ^ 64 - 1) = 2 ^ 64 - 1 - u.
Proof.
  intros Hu. change (2 ^ 64 - 1) with (Z.ones 64). rewrite <- Z.ldiff_ones_l_low.
  - symmetry. apply Z.sub_nocarry_ldiff. apply Z.ldiff_ones_r_low; [lia|]. destruct (decide (u = 0)) as [->|]; [simpl; lia|].
    apply Z.log2_lt_pow2; lia.
  - lia.
  - destruct (decide (u = 0)) as [->|]; [simpl; lia|]. apply Z.log2_lt_pow2; lia.
Qed.

Lemma sortable_float_eq f : is_u64 f → sortable_float f = float_rank f + 2 ^ 63.
Proof.
  unfold is_u64. intros Hf. unfold sortable_float, float_rank, SIGN_BIT. change 9223372036854775808 with (2 ^ 63).
  change 18446744073709551615 with (2 ^ 64 - 1). rewrite land_sign by lia. destruct (decide (f < 2 ^ 63)) as [Hs|Hs].
  - rewrite (decide_False (P:=0 ≠ 0)) by lia. rewrite lxor_sign by lia. by rewrite decide_True by lia.
  - rewrite (decide_True (P:=2 ^ 63 ≠ 0)) by lia. rewrite lxor_ones by lia. lia.
Qed.

(** ** The reference order on indexable values *)

Definition tag_of (v : Value) : Z :=
  match v with
  | VNull => TAG_NULL
  | VBool _ => TAG_BOOL
  | VInteger _ => TAG_INTEGER
  | VFloat _ => TAG_FLOAT
  | VString _ => TAG_STRING
  | VBytes _ => TAG_BYTES
  | VRef _ _ => TAG_REF
  | _ => 7
  end.

Lemma tag_range v : 0 ≤ tag_of v < 8.
Proof. destruct v; cbn; unfold TAG_NULL, TAG_BOOL, TAG_INTEGER, TAG_FLOAT, TAG_STRING, TAG_BYTES, TAG_REF; lia. Qed.

(** By type, then by value: [false < true], integers by value, floats as [total_cmp]
    has them, strings and bytes lexicographically. *)
Definition value_cmp (v w : Value) : comparison :=
  match v, w with
  | VBool a, VBool b => Z.b2z a ?= Z.b2z b
  | VInteger a, VInteger b => a ?= b
  | VFloat a, VFloat b => float_rank a ?= float_rank b
  | VString a, VString b | VBytes a, VBytes b => bytes_cmp a b
  | _, _ => tag_of v ?= tag_of w
  end.

(** Scalars that the encoding holds whole. *)
Definition scalar (v : Value) : Prop :=
  match v with
  | VNull | VBool _ => True
  | VInteger i => is_i64 i
  | VFloat f => is_u64 f
  | VString s | VBytes s => (length s ≤ MAX_INDEXED_LEN)%nat
  | _ => False
  end.

(** What follows the tag. *)
Definition sortable_body (v : Value) : bytes :=
  match v with
  | VBool b => [z2b (Z.b2z b)]
  | VInteger i => to_be 8 (i + 2 ^ 63)
  | VFloat f => to_be 8 (float_rank f + 2 ^ 63)
  | VString s | VBytes s => s
  | _ => []
  end.

Lemma encode_scalar v : scalar v → encode_sortable_value v = Ok (z2b (tag_of v) :: sortable_body v).
Proof.
  destruct v; cbn [scalar encode_sortable_value tag_of sortable_body]; try done; intros Hv.
  - by rewrite sortable_integer_eq.
  - by rewrite sortable_float_eq.
  - by rewrite take_ge by lia.
  - by rewrite take_ge by lia.
Qed.

Lemma float_rank_range f : is_u64 f → 0 ≤ float_rank f + 2 ^ 63 < 256 ^ Z.of_nat 8.
Proof. unfold is_u64, float_rank, SIGN_BIT. intros Hf. case_decide; lia. Qed.

Lemma sortable_body_cmp v w : scalar v → scalar w → tag_of v = tag_of w → bytes_cmp (sortable_body v) (sortable_body w) = value_cmp v w.
Proof.
  intros Hv Hw Ht. destruct v, w; cbn [scalar tag_of] in *; try done; cbn [sortable_body value_cmp].
  - by destruct b, b0.
  - unfold is_i64 in *. rewrite to_be_cmp by lia. by rewrite !(Z.add_comm _ (2 ^ 63)), Z.add_compare_mono_l.
  - rewrite to_be_cmp by (by apply float_rank_range). by rewrite !(Z.add_comm _ (2 ^ 63)), Z.add_compare_mono_l.
Qed.

(** Byte order of the encoded values is the order of the values: null before booleans
    before integers before floats before strings before bytes, integers by value,
    floats as in [f64::total_cmp], strings and bytes of at most 128 bytes
    lexicographically. *)
Theorem sortable_order v w :
  scalar v → scalar w →
  ∃ a b, encode_sortable_value v = Ok a ∧ encode_sortable_value w = Ok b ∧ cmp a b = value_cmp v w.
Proof.
  intros Hv Hw. eexists _, _. split; [by apply encode_scalar|]. split; [by apply encode_scalar|]. cbn [cmp bytes_ord bytes_cmp].
  pose proof (tag_range v). pose proof (tag_range w). rewrite !b2z_z2b, !Z.mod_small by lia.
  destruct (Z.compare_spec (tag_of v) (tag_of w)) as [E|E|E].
  - by apply sortable_body_cmp.
  - destruct v, w; cbn [tag_of scalar] in *; try done; unfold TAG_NULL, TAG_BOOL, TAG_INTEGER, TAG_FLOAT, TAG_STRING, TAG_BYTES, TAG_REF in *; lia.
  - destruct v, w; cbn [tag_of scalar] in *; try done; unfold TAG_NULL, TAG_BOOL, TAG_INTEGER, TAG_FLOAT, TAG_STRING, TAG_BYTES, TAG_REF in *; lia.
Qed.

Lemma sortable_order_witness :
  ∃ a b, encode_sortable_value (VInteger (-5)) = Ok a ∧ encode_sortable_value (VInteger 7) = Ok b ∧ cmp a b = Lt.
Proof. apply (sortable_order (VInteger (-5)) (VInteger 7)); unfold scalar, is_i64; lia. Defined.

(** ** The index *)

Definition INDEX_MAX_KEY_SIZE : Z := 160.

Record SecondaryIndex (S : Type) := mkIndex {
  si_name : bytes;
  si_field_path : bytes;
  si_btree : @BTree bytes S var_key;
}.
Arguments mkIndex {S} _ _ _.
Arguments si_name {S} _.
Arguments si_field_path {S} _.
Arguments si_btree {S} _.

(** [Uuid::nil()] *)
Definition uuid_nil : bytes := replicate 16 x00.

(** From the last byte on: the first below 0xFF is incremented, those before it are
    zeroed; [None] when all were 0xFF. *)
Fixpoint incr_rev (l : bytes) : option bytes :=
  match l with
  | [] => None
  | b :: l => if decide (b2z b < 255) then Some (z2b (b2z b + 1) :: l) else cons x00 <$> incr_rev l
  end.

Definition increment_bytes (bs : bytes) : bytes :=
  match incr_rev (reverse bs) with
  | Some r => reverse r
  | None => x01 :: replicate (length bs) x00 ++ [x00]
  end.

Definition extract_uuid_from_composite (key : bytes) : option bytes :=
  if decide (length key < 16)%nat then None else Some (drop (length key - 16) key).

Section index.
Context {C : Crc32} {S : Type} {PS : PageStore C S}.
#[local] Existing Instance var_key.
#[local] Existing Instance var_laws.

Abbreviation index_f := (FT (SecondaryIndex S) GrumpyError).

Definition with_btree (bt : BTree bytes S) (i : SecondaryIndex S) : SecondaryIndex S :=
  mkIndex (si_name i) (si_field_path i) bt.
Definition btree_call {A} (c : FT (BTree bytes S) GrumpyError A) : index_f A := ft_zoom si_btree with_btree c.

(** [s] is the file the index gets. *)
Definition index_create (name field_path : bytes) (s : S) : res (SecondaryIndex S) :=
  bt ← create INDEX_MAX_KEY_SIZE s; mret (mkIndex name field_path bt).
Definition index_open (name field_path : bytes) (s : S) : res (SecondaryIndex S) :=
  bt ← open_tree s; mret (mkIndex name field_path bt).

Definition index_document (fuel : nat) (uuid : bytes) (doc : Value) : index_f unit :=
  i ← ft_lift st_get;
  match extract_field doc (si_field_path i) with
  | Some field_val =>
      key ← ft_lift (st_lift (encode_composite_key field_val uuid));
      btree_call (insert fuel key 0 0)
  | None => mret tt
  end.

Definition unindex_document (fuel : nat) (uuid : bytes) (doc : Value) : index_f unit :=
  i ← ft_lift st_get;
  match extract_field doc (si_field_path i) with
  | Some field_val =>
      key ← ft_lift (st_lift (encode_composite_key field_val uuid));
      ft_ignore (btree_call (delete_key fuel key))
  | None => mret tt
  end.

(** [filter_map] over the entries of a range. *)
Definition uuids_of (entries : list (bytes * (Z * Z))) : list bytes := omap (λ e, extract_uuid_from_composite e.1) entries.

Definition lookup (fuel : nat) (v : Value) : index_f (list bytes) :=
  prefix ← ft_lift (st_lift (encode_sortable_value v));
  entries ← btree_call (range fuel (Some (prefix ++ uuid_nil)) (Some (increment_bytes prefix)));
  mret (uuids_of entries).

Definition range_query (fuel : nat) (v w : Value) : index_f (list bytes) :=
  start_key ← ft_lift (st_lift (encode_sortable_value v));
  end_key ← ft_lift (st_lift (encode_sortable_value w));
  entries ← btree_call (range fuel (Some (start_key ++ uuid_nil)) (Some (end_key ++ uuid_nil)));
  mret (uuids_of entries).

Fixpoint index_documents (fuel : nat) (docs : list (bytes * Value)) : index_f unit :=
  match docs with
  | [] => mret tt
  | (uuid, doc) :: docs => _ ← index_document fuel uuid doc; index_documents fuel docs
  end.

(** [s]: the file after its removal and re-creation. *)
Definition rebuild (fuel : nat) (s : S) (docs : list (bytes * Value)) : index_f unit :=
  i ← ft_lift st_get;
  bt ← ft_lift (st_lift (create INDEX_MAX_KEY_SIZE s));
  _ ← ft_lift (st_put (mkIndex (si_name i) (si_field_path i) bt));
  index_documents fuel docs.
End index.

(** ** Ranges over composite keys *)

Definition of_be (l : bytes) : Z := of_le (reverse l).

Lemma bytes_cmp_be (a b : bytes) : length a = length b → bytes_cmp a b = (of_be a ?= of_be b).
Proof.
  intros Hl. assert (Hb : ∀ l, to_be (length l) (of_be l) = l).
  { intros l. unfold to_be, of_be. rewrite <- (length_reverse l). by rewrite to_of_le, reverse_involutive. }
  rewrite <- (Hb a) at 1. rewrite <- (Hb b) at 1. rewrite Hl.
  apply to_be_cmp; unfold of_be; [rewrite <- Hl, <- (length_reverse a)|rewrite <- (length_reverse b)]; apply of_le_range.
Qed.

(** Against a string that is not longer, the first bytes decide. *)
Lemma bytes_cmp_take (k q : bytes) :
  (length q ≤ length k)%nat →
  bytes_cmp k q = match bytes_cmp (take (length q) k) q with Eq => if decide (length k = length q) then Eq else Gt | c => c end.
Proof.
  revert q. induction k as [|b k IH]; intros [|c q] Hl; simpl in *; try done; try lia.
  destruct (b2z b ?= b2z c); [|done|done]. rewrite IH by lia. destruct (bytes_cmp (take (length q) k) q); [|done|done].
  by destruct (decide (length k = length q)), (decide (Datatypes.S (length k) = Datatypes.S (length q))); try lia.
Qed.

Lemma of_le_cons b l : of_le (b :: l) = b2z b + 256 * of_le l.
Proof. done. Qed.

Lemma incr_rev_spec l :
  match incr_rev l with
  | Some r => length r = length l ∧ of_le r = of_le l + 1
  | None => Forall (λ b, b2z b = 255) l
  end.
Proof.
  induction l as [|b l IH]; cbn [incr_rev]; [constructor|]. pose proof (b2z_range b). case_decide as Hb.
  - split; [done|]. rewrite !of_le_cons, b2z_z2b, Z.mod_small by lia. lia.
  - destruct (incr_rev l) as [r|]; cbn [fmap option_fmap option_map].
    + destruct IH as [Hl Hr]. split; [simpl; lia|]. rewrite !of_le_cons, Hr. change (b2z x00) with 0. lia.
    + constructor; [lia|done].
Qed.

(** For a prefix with a byte below 0xFF, the range that [lookup] scans holds exactly the
    long enough keys that start with the prefix. *)
Lemma increment_range (p k : bytes) b :
  b ∈ p → b2z b < 255 → (length p ≤ length k)%nat →
  (kle p k ∧ klt k (increment_bytes p) ↔ take (length p) k = p).
Proof.
  intros Hin Hb Hl. unfold increment_bytes. pose proof (incr_rev_spec (reverse p)) as Hs. destruct (incr_rev (reverse p)) as [r|].
  2:{ rewrite Forall_forall in Hs. specialize (Hs b). rewrite elem_of_reverse in Hs. specialize (Hs Hin). lia. }
  destruct Hs as [Hr Hv]. rewrite length_reverse in Hr. unfold kle, klt. cbn [cmp bytes_ord].
  assert (Hlt : length (take (length p) k) = length p) by (rewrite length_take; lia).
  rewrite bytes_cmp_take with (q := reverse r) by (rewrite length_reverse; lia). rewrite length_reverse, Hr.
  assert (Hp : bytes_cmp p k ≠ Gt ↔ (of_be p ≤ of_be (take (length p) k))).
  { rewrite (@cmp_antisym _ bytes_ord k p : bytes_cmp p k = CompOpp (bytes_cmp k p)). rewrite bytes_cmp_take by done. rewrite bytes_cmp_be by done.
    destruct (Z.compare_spec (of_be (take (length p) k)) (of_be p)); [case_decide; simpl; split; (done || lia)|simpl; split; (done || lia)..]. }
  rewrite Hp. rewrite bytes_cmp_be by (rewrite length_reverse; lia). assert (of_be (reverse r) = of_be p + 1) as -> by (unfold of_be; by rewrite reverse_involutive).
  split.
  - intros [H1 H2]. destruct (Z.compare_spec (of_be (take (length p) k)) (of_be p + 1)) as [E|E|E]; [by case_decide| |done].
    assert (Heq : bytes_cmp (take (length p) k) p = Eq) by (rewrite bytes_cmp_be by done; apply Z.compare_eq_iff; lia).
    by apply (@cmp_eq _ bytes_ord) in Heq.
  - intros ->. split; [lia|]. destruct (Z.compare_spec (of_be p) (of_be p + 1)); [lia|done|lia].
Qed.

(** ** What an index holds *)

(** A value as Rust has it, of a type that can be indexed. *)
Definition field_ok (v : Value) : Prop :=
  match v with
  | VNull | VBool _ | VString _ | VBytes _ => True
  | VInteger i => is_i64 i
  | VFloat f => is_u64 f
  | VRef _ u => length u = 16%nat
  | _ => False
  end.

(** Types whose encoding has one width. *)
Definition fixed_width (v : Value) : Prop :=
  match v with VNull | VBool _ => True | VInteger i => is_i64 i | VFloat f => is_u64 f | _ => False end.

Lemma fixed_scalar v : fixed_width v → scalar v.
Proof. by destruct v. Qed.

Lemma encode_head v k : encode_sortable_value v = Ok k → ∃ body, k = z2b (tag_of v) :: body.
Proof. destruct v; cbn; intros Hk; simplify_eq; eauto. Qed.

Lemma z2b_tag_inj v w : z2b (tag_of v) = z2b (tag_of w) → tag_of v = tag_of w.
Proof. intros He. pose proof (tag_range v). pose proof (tag_range w). apply z2b_inj_range; [lia|lia|done]. Qed.

Lemma fixed_body_length v w :
  fixed_width v → field_ok w → tag_of w = tag_of v → fixed_width w ∧ length (sortable_body w) = length (sortable_body v).
Proof. destruct v, w; cbn; try done; intros; split; try done; by rewrite !length_to_be. Qed.

Lemma float_rank_inj f g : is_u64 f → is_u64 g → float_rank f = float_rank g → f = g.
Proof. unfold is_u64, float_rank, SIGN_BIT. intros Hf Hg He. repeat case_decide; lia. Qed.

Lemma fixed_body_inj v w : fixed_width v → fixed_width w → tag_of w = tag_of v → sortable_body w = sortable_body v → w = v.
Proof.
  intros Hv Hw Ht Hb. assert (Hc : value_cmp w v = Eq).
  { rewrite <- sortable_body_cmp by (done || by apply fixed_scalar). rewrite Hb. apply (@cmp_refl _ bytes_ord). }
  clear Hb. destruct v as [|b|i|f| | | | | | |], w as [|b'|i'|f'| | | | | | |]; try done; cbn [value_cmp fixed_width] in *.
  - by destruct b, b'.
  - apply Z.compare_eq in Hc. by subst.
  - f_equal. apply Z.compare_eq in Hc. by apply float_rank_inj.
Qed.

(** A composite key starts with the encoding of a fixed-width value only if it is a key
    of that value. *)
Lemma composite_prefix v w u p k :
  fixed_width v → field_ok w → length u = 16%nat → encode_sortable_value v = Ok p → encode_composite_key w u = Ok k →
  (take (length p) k = p ↔ w = v) ∧ (length p ≤ length k)%nat ∧ drop (length k - 16) k = u ∧ ∃ b, b ∈ p ∧ b2z b < 255.
Proof.
  intros Hv Hw Hu Hp Hk. rewrite (encode_scalar v (fixed_scalar v Hv)) in Hp. injection Hp as <-.
  unfold encode_composite_key in Hk. destruct (encode_sortable_value w) as [q|e|] eqn:Hq; try done. injection Hk as <-.
  destruct (encode_head _ _ Hq) as [body ->].
  assert (Hlen : (length (z2b (tag_of v) :: sortable_body v) ≤ 9)%nat).
  { destruct v; try done; cbn; rewrite ?length_to_be; lia. }
  split_and!.
  - split.
    + cbn [length app take]. intros Ht. injection Ht as Ht Hb. apply z2b_tag_inj in Ht.
      destruct (fixed_body_length v w Hv Hw Ht) as [Hw' Hl]. rewrite (encode_scalar w (fixed_scalar w Hw')) in Hq. injection Hq as <-.
      rewrite <- Hl, take_app_length in Hb. by apply fixed_body_inj.
    + intros ->. rewrite (encode_scalar v (fixed_scalar v Hv)) in Hq. injection Hq as <-. by rewrite take_app_length.
  - rewrite length_app, Hu. cbn [length] in *. lia.
  - rewrite length_app, Hu. by replace (length (z2b (tag_of w) :: body) + 16 - 16)%nat with (length (z2b (tag_of w) :: body)) by lia; rewrite drop_app_length.
  - exists (z2b (tag_of v)). split; [by left|]. pose proof (tag_range v). rewrite b2z_z2b, Z.mod_small by lia. lia.
Qed.

(** The all-zero UUID is the least one. *)
Lemma nil_least (q : bytes) n : (n ≤ length q)%nat → kle (replicate n x00) q.
Proof.
  unfold kle. cbn [cmp bytes_ord]. revert q. induction n as [|n IH]; intros q Hq; [by destruct q|].
  destruct q as [|b q]; [simpl in Hq; lia|]. cbn [replicate bytes_cmp]. change (b2z x00) with 0. pose proof (b2z_range b).
  destruct (Z.compare_spec 0 (b2z b)); [apply IH; simpl in Hq; lia|done|lia].
Qed.

Lemma kle_app_same (p a b : bytes) : kle (p ++ a) (p ++ b) ↔ kle a b.
Proof. unfold kle. cbn [cmp bytes_ord]. by rewrite bytes_cmp_app_same. Qed.

(** The keys [lookup] finds for a prefix. *)
Lemma lookup_range (p k : bytes) b :
  b ∈ p → b2z b < 255 → (length p ≤ length k)%nat →
  in_range (Some (p ++ uuid_nil)) (Some (increment_bytes p)) k = true → take (length p) k = p.
Proof.
  intros Hin Hb Hl. unfold in_range. rewrite andb_true_iff, kleb_spec, kltb_spec. intros [H1 H2].
  apply (increment_range p k b Hin Hb Hl). split; [|done]. eapply kle_trans; [|exact H1].
  rewrite <- (app_nil_r p) at 1. apply kle_app_same. apply (nil_least uuid_nil 0), Nat.le_0_l.
Qed.

Lemma range_lookup (p t : bytes) b :
  b ∈ p → b2z b < 255 → (16 ≤ length t)%nat → in_range (Some (p ++ uuid_nil)) (Some (increment_bytes p)) (p ++ t) = true.
Proof.
  intros Hin Hb Hl. unfold in_range. rewrite andb_true_iff, kleb_spec, kltb_spec. split; [by apply kle_app_same, nil_least|].
  apply (increment_range p (p ++ t) b Hin Hb); [rewrite length_app; lia|]. by rewrite take_app_length.
Qed.

Section specs.
Context {C : Crc32} {S : Type} {PS : PageStore C S}.
#[local] Existing Instance var_key.
#[local] Existing Instance var_laws.
Implicit Types (idx : SecondaryIndex S) (pairs : list (bytes * Value)).

(** The index holds exactly the composite keys of [pairs], a list of UUIDs with the
    value their field has. *)
Record si_rep idx pairs : Prop := {
  sr_keys : ∃ kv, bt_rep (si_btree idx) kv ∧ ∀ k, k ∈ kv.*1 ↔ ∃ u v, (u, v) ∈ pairs ∧ encode_composite_key v u = Ok k;
  sr_config : config (bt_meta (si_btree idx)) = INDEX_MAX_KEY_SIZE;
  sr_pairs : ∀ u v, (u, v) ∈ pairs → length u = 16%nat ∧ field_ok v;
}.

Lemma with_btree_id idx : with_btree (si_btree idx) idx = idx.
Proof. by destruct idx. Qed.

(** What a range over the index yields. *)
Lemma index_range idx pairs start end_key :
  si_rep idx pairs → ∃ entries N,
    (∀ fuel, (N ≤ fuel)%nat → btree_call (range fuel start end_key) idx = Some (Ok entries, idx)) ∧
    ∀ u, u ∈ uuids_of entries ↔ ∃ w k, (u, w) ∈ pairs ∧ encode_composite_key w u = Ok k ∧ in_range start end_key k = true.
Proof.
  intros [(kv & Hrep & Hkeys) _ Hpairs]. destruct (btree_range_ok (si_btree idx) kv start end_key Hrep) as [N HN].
  exists (filter (λ e, in_range start end_key e.1 = true) kv), N. split.
  - intros fuel Hf. unfold btree_call. rewrite (ft_zoom_ok _ _ _ _ _ _ (HN fuel Hf)), with_btree_id. done.
  - intros u. unfold uuids_of. rewrite list_elem_of_omap. split.
    + intros ([k p] & [Hr Hin]%list_elem_of_filter & Hx). cbn [fst] in *.
      assert (Hk : k ∈ kv.*1) by (apply list_elem_of_fmap; by exists (k, p)). apply Hkeys in Hk as (u' & w & Hin' & Hk).
      destruct (Hpairs _ _ Hin') as [Hu' _]. assert (u' = u) as <-; [|by exists w, k].
      unfold encode_composite_key in Hk. destruct (encode_sortable_value w) as [q|e|]; try done. injection Hk as <-.
      unfold extract_uuid_from_composite in Hx. rewrite length_app, Hu' in Hx. rewrite decide_False in Hx by lia.
      replace (length q + 16 - 16)%nat with (length q) in Hx by lia. rewrite drop_app_length in Hx. by injection Hx.
    + intros (w & k & Hin & Hk & Hr). destruct (Hpairs _ _ Hin) as [Hu _].
      assert (Hk' : k ∈ kv.*1) by (apply Hkeys; eauto). apply list_elem_of_fmap in Hk' as ([k' p] & -> & Hkv). exists (k', p).
      split; [by apply list_elem_of_filter|]. cbn [fst] in *. unfold encode_composite_key in Hk.
      destruct (encode_sortable_value w) as [q|e|]; try done. injection Hk as <-. unfold extract_uuid_from_composite.
      rewrite length_app, Hu, decide_False by lia. replace (length q + 16 - 16)%nat with (length q) by lia. by rewrite drop_app_length.
Qed.

Lemma index_lookup_ok idx pairs v :
  si_rep idx pairs → fixed_width v →
  ∃ us N, (∀ fuel, (N ≤ fuel)%nat → lookup fuel v idx = Some (Ok us, idx)) ∧ ∀ u, u ∈ us ↔ (u, v) ∈ pairs.
Proof.
  intros Hrep Hv. pose proof (encode_scalar v (fixed_scalar v Hv)) as Hp. set (p := z2b (tag_of v) :: sortable_body v) in *.
  destruct (index_range idx pairs (Some (p ++ uuid_nil)) (Some (increment_bytes p)) Hrep) as (entries & N & Hrun & Hus).
  exists (uuids_of entries), N. split.
  - intros fuel Hf. unfold lookup. erewrite ft_lift_step by (unfold st_lift; rewrite Hp; reflexivity). by erewrite ft_step by (by apply Hrun).
  - intros u. rewrite Hus. pose proof (sr_pairs _ _ Hrep) as Hpairs. split.
    + intros (w & k & Hin & Hk & Hr). destruct (Hpairs _ _ Hin) as [Hu Hw].
      destruct (composite_prefix v w u p k Hv Hw Hu Hp Hk) as (Hiff & Hl & Hd & b & Hb & Hbl).
      apply (lookup_range p k b Hb Hbl Hl), Hiff in Hr. by subst.
    + intros Hin. destruct (Hpairs _ _ Hin) as [Hu Hw]. exists v, (p ++ u).
      assert (Hk : encode_composite_key v u = Ok (p ++ u)) by (unfold encode_composite_key; by rewrite Hp).
      split; [done|]. split; [done|]. destruct (composite_prefix v v u p _ Hv Hw Hu Hp Hk) as (_ & _ & _ & b & Hb & Hbl).
      apply (range_lookup p u b Hb Hbl). lia.
Qed.

(** An exact lookup of a null, boolean, integer or float value terminates, changes
    nothing and returns exactly the UUIDs whose field has that value. *)
Theorem index_lookup_exact idx pairs v :
  si_rep idx pairs → fixed_width v →
  ∃ us N, (∀ fuel, (N ≤ fuel)%nat → lookup fuel v idx = Some (Ok us, idx)) ∧ ∀ u, u ∈ us ↔ (u, v) ∈ pairs.
Proof. apply index_lookup_ok. Qed.

(** A string lookup also returns the UUIDs of strings that only start with the value
    looked up. *)
Lemma string_lookup_prefix idx pairs s t u :
  si_rep idx pairs → (u, VString (s ++ t)) ∈ pairs → (length (s ++ t) ≤ MAX_INDEXED_LEN)%nat →
  ∃ us N, (∀ fuel, (N ≤ fuel)%nat → lookup fuel (VString s) idx = Some (Ok us, idx)) ∧ u ∈ us.
Proof.
  intros Hrep Hin Hl. rewrite length_app in Hl. pose proof (encode_scalar (VString s) ltac:(cbn; lia)) as Hp. cbn [tag_of sortable_body] in Hp.
  set (p := z2b TAG_STRING :: s) in *.
  destruct (index_range idx pairs (Some (p ++ uuid_nil)) (Some (increment_bytes p)) Hrep) as (entries & N & Hrun & Hus).
  exists (uuids_of entries), N. split.
  - intros fuel Hf. unfold lookup. erewrite ft_lift_step by (unfold st_lift; rewrite Hp; reflexivity). by erewrite ft_step by (by apply Hrun).
  - apply Hus. exists (VString (s ++ t)), (p ++ t ++ u). split; [done|]. split.
    + unfold encode_composite_key. rewrite encode_scalar by (cbn; rewrite length_app; lia). cbn [tag_of sortable_body mbind outcome_bind].
      unfold p. cbn [app]. by rewrite <- app_assoc.
    + destruct (sr_pairs _ _ Hrep _ _ Hin) as [Hu _]. apply (range_lookup p (t ++ u) (z2b TAG_STRING)); [by left|done|].
      rewrite length_app. lia.
Qed.

Lemma bt_insert_keys (k : bytes) (v : Z * Z) kv k' : k' ∈ (bt_insert k v kv).*1 ↔ k' = k ∨ k' ∈ kv.*1.
Proof.
  induction kv as [|[k2 v2] kv IH]; cbn [bt_insert].
  { cbn. rewrite elem_of_cons, elem_of_nil. done. }
  destruct (cmp k k2) eqn:E; cbn [fmap list_fmap fst]; rewrite !elem_of_cons.
  - apply cmp_eq in E as ->. naive_solver.
  - done.
  - rewrite IH. naive_solver.
Qed.

Lemma bt_remove_keys (k : bytes) (kv : list (bytes * (Z * Z))) k' : bt_sorted kv → k' ∈ (bt_remove k kv).*1 ↔ k' ≠ k ∧ k' ∈ kv.*1.
Proof.
  induction kv as [|[k2 v2] kv IH]; intros Hs; cbn [bt_remove].
  { cbn. rewrite elem_of_nil. naive_solver. }
  pose proof Hs as [Hall Hs']%bt_sorted_cons. assert (Hlt : ∀ x, x ∈ kv.*1 → klt k2 x).
  { intros x (e & -> & He)%list_elem_of_fmap. rewrite Forall_forall in Hall. by apply Hall. }
  destruct (cmp k k2) eqn:E; cbn [fmap list_fmap fst]; rewrite ?elem_of_cons.
  - apply cmp_eq in E as ->. split; [|naive_solver]. intros Hin. split; [|auto]. intros ->. by apply Hlt, klt_irrefl in Hin.
  - split; [|naive_solver]. intros Hin. split; [|done]. intros ->. destruct Hin as [->|Hin]; [by rewrite cmp_refl in E|].
    apply Hlt in Hin. apply (klt_irrefl k2). transitivity k; [exact Hin|exact E].
  - rewrite IH by done. split; [|naive_solver]. intros [->|?]; [|naive_solver]. split; [|by left]. intros ->. by rewrite cmp_refl in E.
Qed.

Lemma bt_rep_sorted bt kv : bt_rep (K:=bytes) (S:=S) bt kv → bt_sorted kv.
Proof. intros (m & h & t & Hb & -> & _). exact (proj1 (tree_kvs _ _ _ _ _ _ _ (bh_tree _ _ _ _ _ _ Hb))). Qed.

Lemma get_none_keys (k : bytes) (kv : list (bytes * (Z * Z))) : bt_sorted kv → k ∉ kv.*1 → bt_get k kv = None.
Proof.
  intros Hs Hk. destruct (bt_get k kv) as [p|] eqn:E; [|done]. exfalso. apply Hk. apply bt_get_elem in E; [|done]. apply list_elem_of_fmap. by exists (k, p).
Qed.

Lemma index_document_ok idx pairs u doc v k fuel :
  si_rep idx pairs → enough (si_btree idx) fuel → can_grow (si_btree idx) → length u = 16%nat →
  extract_field doc (si_field_path idx) = Some v → field_ok v → encode_composite_key v u = Ok k → Z.of_nat (length k) ≤ INDEX_MAX_KEY_SIZE →
  (∀ u' v', (u', v') ∈ pairs → encode_composite_key v' u' ≠ Ok k) →
  ∃ idx', index_document fuel u doc idx = Some (Ok tt, idx') ∧ si_rep idx' ((u, v) :: pairs) ∧
    (si_name idx', si_field_path idx') = (si_name idx, si_field_path idx).
Proof.
  intros [(kv & Hrep & Hkeys) Hcfg Hpairs] Hf Hg Hu Hx Hv Hk Hlen Hnew.
  assert (Hnone : bt_get k kv = None).
  { apply get_none_keys; [by apply bt_rep_sorted in Hrep|]. intros (u' & v' & Hin & Hk')%Hkeys. by apply (Hnew u' v'). }
  pose proof (bt_insert_ok (si_btree idx) kv k 0 0 fuel Hrep Hf Hg) as Hins.
  change (@key_ord bytes var_key) with bytes_ord in Hins. rewrite Hnone in Hins.
  destruct Hins as (bt' & Hrun & Hrep' & Hcfg' & _).
  { rewrite Hcfg. split; [exact Hlen|]. split; unfold is_u32, is_u16; cbn [fst snd]; lia. }
  exists (with_btree bt' idx). split; [|split; [|done]].
  - unfold index_document. erewrite ft_lift_step by reflexivity. rewrite Hx.
    erewrite ft_lift_step by (unfold st_lift; rewrite Hk; reflexivity). unfold btree_call. by rewrite (ft_zoom_ok _ _ _ _ _ _ Hrun).
  - constructor; cbn [si_btree with_btree].
    + eexists. split; [exact Hrep'|]. intros k'. rewrite bt_insert_keys, Hkeys. setoid_rewrite elem_of_cons. split.
      * intros [->|(u' & v' & Hin & Hk')]; [by exists u, v; auto|]. exists u', v'. auto.
      * intros (u' & v' & [[= -> ->]|Hin] & Hk'); [left; congruence|right; eauto].
    + by rewrite Hcfg'.
    + intros u' v' [[= -> ->]|Hin]%elem_of_cons; [done|by apply Hpairs].
Qed.

Lemma unindex_document_ok idx pairs u doc v k fuel :
  si_rep idx pairs → enough (si_btree idx) fuel → extract_field doc (si_field_path idx) = Some v → encode_composite_key v u = Ok k →
  ∃ idx', unindex_document fuel u doc idx = Some (Ok tt, idx') ∧
    si_rep idx' (filter (λ p, encode_composite_key p.2 p.1 ≠ Ok k) pairs) ∧
    (si_name idx', si_field_path idx') = (si_name idx, si_field_path idx).
Proof.
  intros [(kv & Hrep & Hkeys) Hcfg Hpairs] Hf Hx Hk. pose proof (bt_rep_sorted _ _ Hrep) as Hs.
  pose proof (bt_delete_ok (si_btree idx) kv k fuel Hrep Hf) as Hdel. change (@key_ord bytes var_key) with bytes_ord in Hdel.
  assert (Hstep : ∀ r, unindex_document fuel u doc idx = r ↔ ft_ignore (btree_call (delete_key fuel k)) idx = r).
  { intros r. unfold unindex_document. erewrite ft_lift_step by reflexivity. rewrite Hx.
    by erewrite ft_lift_step by (unfold st_lift; rewrite Hk; reflexivity). }
  destruct (bt_get k kv) as [p|] eqn:Hget.
  - destruct Hdel as (bt' & Hrun & Hrep' & Hcfg' & _). exists (with_btree bt' idx). split; [|split; [|done]].
    + apply Hstep. unfold ft_ignore, btree_call. by rewrite (ft_zoom_ok _ _ _ _ _ _ Hrun).
    + constructor; cbn [si_btree with_btree]; [|by rewrite Hcfg'|].
      * eexists. split; [exact Hrep'|]. intros k'. rewrite bt_remove_keys, Hkeys by done. setoid_rewrite list_elem_of_filter. cbn [fst snd]. split.
        -- intros (Hne & u' & v' & Hin & Hk'). exists u', v'. split; [|done]. split; [congruence|done].
        -- intros (u' & v' & [Hne Hin] & Hk'). split; [congruence|eauto].
      * intros u' v' [_ Hin]%list_elem_of_filter. by apply Hpairs.
  - exists idx. split; [|split; [|done]].
    + apply Hstep. unfold ft_ignore, btree_call. rewrite (ft_zoom_ok _ _ _ _ _ _ Hdel). by rewrite with_btree_id.
    + constructor; [|done|intros u' v' [_ Hin]%list_elem_of_filter; by apply Hpairs]. exists kv. split; [done|].
      intros k'. rewrite Hkeys. setoid_rewrite list_elem_of_filter. cbn [fst snd]. split; [|naive_solver].
      intros (u' & v' & Hin & Hk'). exists u', v'. split; [|done]. split; [|done]. intros He.
      assert (Hk2 : k' ∈ kv.*1) by (apply Hkeys; eauto). assert (k' = k) as -> by congruence.
      apply list_elem_of_fmap in Hk2 as ([k2 p2] & -> & Hin2). apply bt_get_elem in Hin2; [|done]. cbn in Hget. congruence.
Qed.

(** Indexing a document adds its UUID under the value its field has, and unindexing it
    takes that entry away again; the index holds exactly the documents indexed and not
    unindexed, and no other entry is touched. *)
Theorem index_maintenance idx pairs u doc v k fuel :
  si_rep idx pairs → enough (si_btree idx) fuel → length u = 16%nat →
  extract_field doc (si_field_path idx) = Some v → field_ok v → encode_composite_key v u = Ok k →
  (can_grow (si_btree idx) → Z.of_nat (length k) ≤ INDEX_MAX_KEY_SIZE →
   (∀ u' v', (u', v') ∈ pairs → encode_composite_key v' u' ≠ Ok k) →
   ∃ idx', index_document fuel u doc idx = Some (Ok tt, idx') ∧ si_rep idx' ((u, v) :: pairs)) ∧
  ∃ idx', unindex_document fuel u doc idx = Some (Ok tt, idx') ∧
    si_rep idx' (filter (λ p, encode_composite_key p.2 p.1 ≠ Ok k) pairs).
Proof.
  intros Hrep Hf Hu Hx Hv Hk. split.
  - intros Hg Hl Hnew. destruct (index_document_ok idx pairs u doc v k fuel) as (idx' & ? & ? & _); eauto.
  - destruct (unindex_document_ok idx pairs u doc v k fuel) as (idx' & ? & ? & _); eauto.
Qed.
End specs.

(** The key of a reference to a collection whose name has 128 bytes or more does not
    fit the nodes of an index: writing it into its slot panics. *)
Lemma long_ref_panics name u uuid :
  length u = 16%nat → length uuid = 16%nat → (MAX_INDEXED_LEN ≤ length name)%nat →
  ∃ k, encode_composite_key (VRef name u) uuid = Ok k ∧
    @write_key _ var_key k (replicate (@slot_key_size _ var_key INDEX_MAX_KEY_SIZE) x00) INDEX_MAX_KEY_SIZE = Panic.
Proof.
  intros Hu Hu' Hn. eexists. split; [reflexivity|]. cbn [write_key slot_key_size var_key]. apply decide_False.
  rewrite length_replicate, length_app. cbn [length]. rewrite length_app, length_take. unfold MAX_INDEXED_LEN, INDEX_MAX_KEY_SIZE in *. lia.
Qed.

(** ** An index over a fresh file *)

Definition demo_doc (n : Z) : Value := VObject [(str "age", VInteger n)].

Lemma demo_field n : extract_field (demo_doc n) (str "age") = Some (VInteger n).
Proof. reflexivity. Qed.

Lemma demo_secondary :
  let C := crc32_ieee in let HK := var_key in let HL := var_laws in
  ∃ idx : SecondaryIndex PageManager, index_create (str "by_age") (str "age") (pm_new None) = Ok idx ∧
    si_rep idx [] ∧ enough (si_btree idx) 1 ∧ can_grow (si_btree idx) ∧ si_field_path idx = str "age".
Proof.
  intros C HK HL. destruct pm_new_ok as (Hrep & Hn & Hf).
  assert (Hroom : ps_room (pm_new None) = 4294967294).
  { cbn [ps_room PageManager_store]. unfold pm_room. rewrite Hn, Hf. reflexivity. }
  destruct (create_ok (HL:=var_laws) (PS:=PageManager_store) INDEX_MAX_KEY_SIZE (pm_new None) Hrep ltac:(rewrite Hroom; lia))
    as (bt & Hc & Hbt & Hh & Hcfg & Hr); [cbn; unfold INDEX_MAX_KEY_SIZE, VAR_KEY_MAX_SIZE; lia|].
  subst C HK HL. exists (mkIndex (str "by_age") (str "age") bt). split; [unfold index_create; rewrite Hc; reflexivity|]. split; [|split; [|split; [|reflexivity]]].
  - constructor; [exists []; split; [exact Hbt|]|exact Hcfg|intros u v Hin; destruct (not_elem_of_nil _ Hin)].
    intros k. split; [intros Hk; destruct (not_elem_of_nil _ Hk)|intros (u & v & Hin & _); destruct (not_elem_of_nil _ Hin)].
  - unfold enough. cbn [si_btree]. lia.
  - constructor; cbn [si_btree]; rewrite ?Hh, ?Hr, ?Hroom; [lia|unfold u32_max; lia|].
    destruct Hbt as (m & h & t & Hb & _). rewrite (bh_meta _ _ _ _ _ _ Hb). cbn. unfold u64_max. lia.
Qed.

Lemma demo_composite n : is_i64 n →
  ∃ k, encode_composite_key (VInteger n) uuid_nil = Ok k ∧ Z.of_nat (length k) ≤ INDEX_MAX_KEY_SIZE.
Proof.
  intros Hn. eexists. unfold encode_composite_key. rewrite encode_scalar by done. split; [reflexivity|].
  cbn [tag_of sortable_body]. rewrite length_app. cbn [length]. rewrite length_to_be. unfold uuid_nil. rewrite length_replicate.
  unfold INDEX_MAX_KEY_SIZE. lia.
Qed.

Lemma index_maintenance_witness :
  let C := crc32_ieee in let HK := var_key in let HL := var_laws in
  ∃ idx idx' : SecondaryIndex PageManager, index_create (str "by_age") (str "age") (pm_new None) = Ok idx ∧
    index_document 1 uuid_nil (demo_doc 30) idx = Some (Ok tt, idx') ∧ si_rep idx' [(uuid_nil, VInteger 30)].
Proof.
  intros C HK HL. destruct demo_secondary as (idx & Hc & Hrep & Hf & Hg & Hpath).
  destruct (demo_composite 30 ltac:(unfold is_i64; lia)) as (k & Hk & Hl).
  assert (Hx : extract_field (demo_doc 30) (si_field_path idx) = Some (VInteger 30)) by (rewrite Hpath; apply demo_field).
  destruct (proj1 (index_maintenance idx [] uuid_nil (demo_doc 30) (VInteger 30) k 1 Hrep Hf eq_refl Hx ltac:(unfold field_ok, is_i64; lia) Hk) Hg Hl)
    as (idx' & Hrun & Hrep'); [intros u v Hin; destruct (not_elem_of_nil _ Hin)|].
  exists idx, idx'. exact (conj Hc (conj Hrun Hrep')).
Defined.

Lemma index_lookup_exact_witness :
  let C := crc32_ieee in let HK := var_key in let HL := var_laws in
  ∃ (idx idx' : SecondaryIndex PageManager) us N, index_create (str "by_age") (str "age") (pm_new None) = Ok idx ∧
    index_document 1 uuid_nil (demo_doc 30) idx = Some (Ok tt, idx') ∧
    (∀ fuel, (N ≤ fuel)%nat → lookup fuel (VInteger 30) idx' = Some (Ok us, idx')) ∧ uuid_nil ∈ us.
Proof.
  intros C HK HL. destruct demo_secondary as (idx & Hc & Hrep & Hf & Hg & Hpath).
  destruct (demo_composite 30 ltac:(unfold is_i64; lia)) as (k & Hk & Hl).
  assert (Hx : extract_field (demo_doc 30) (si_field_path idx) = Some (VInteger 30)) by (rewrite Hpath; apply demo_field).
  destruct (index_document_ok idx [] uuid_nil (demo_doc 30) (VInteger 30) k 1 Hrep Hf Hg eq_refl Hx ltac:(unfold field_ok, is_i64; lia) Hk Hl)
    as (idx' & Hrun & Hrep' & _); [intros u v Hin; destruct (not_elem_of_nil _ Hin)|].
  destruct (index_lookup_exact idx' [(uuid_nil, VInteger 30)] (VInteger 30) Hrep' ltac:(unfold fixed_width, is_i64; lia)) as (us & N & Hl' & Hus).
  exists idx, idx', us, N. split; [exact Hc|]. split; [exact Hrun|]. split; [exact Hl'|]. apply Hus. left.
Defined.
