(* ===== verification/Collection.v ===== *)
(** * Collections (src/src/collection/mod.rs)

    A collection owns the data pages (through the buffer pool), the primary index from
    UUIDs to slots and its secondary indexes.  Page write records are returned to the
    caller, who logs them.  [fuel] bounds the descents, scans and overflow chains of
    one call; [order] is the order in which the hash map of the pool yields dirty
    pages.  [sync] of a file is not modelled. *)

From stdpp Require Import gmap.
From S2P Require Import Prelude RustStd Value Codec Page Slotted PageManager Overflow BTreeNode BTree BTreeCursor Index BufferPool.

Local Open Scope Z_scope.

Definition INLINE_MAX : nat := (PAGE_USABLE_SPACE - SLOT_SIZE)%nat.

Record PageWriteRecord := mkPageWrite {
  pw_page_id : Z;
  before : bytes;
  after : bytes;
}.

(** [std::ops::Bound] *)
Inductive Bound (A : Type) := Included (a : A) | Excluded (a : A) | Unbounded.
Arguments Included {A} _.
Arguments Excluded {A} _.
Arguments Unbounded {A}.

Record Collection (S : Type) := mkCollection {
  coll_name : bytes;
  data_pool : BufferPool S;
  btree : @BTree bytes S uuid_key;
  current_data_page : Z;
  secondary_indexes : list (SecondaryIndex S);
  index_defs : list (bytes * bytes);
}.
Arguments mkCollection {S} _ _ _ _ _ _.
Arguments coll_name {S} _.
Arguments data_pool {S} _.
Arguments btree {S} _.
Arguments current_data_page {S} _.
Arguments secondary_indexes {S} _.
Arguments index_defs {S} _.

Section collection.
Context {C : Crc32} {S : Type} {PS : PageStore C S}.
#[local] Existing Instance uuid_key.
Implicit Types (c : Collection S).

Abbreviation coll_f := (FT (Collection S) GrumpyError).

Definition with_pool (b : BufferPool S) c : Collection S :=
  mkCollection (coll_name c) b (btree c) (current_data_page c) (secondary_indexes c) (index_defs c).
Definition with_primary (t : BTree bytes S) c : Collection S :=
  mkCollection (coll_name c) (data_pool c) t (current_data_page c) (secondary_indexes c) (index_defs c).
Definition with_current (pid : Z) c : Collection S :=
  mkCollection (coll_name c) (data_pool c) (btree c) pid (secondary_indexes c) (index_defs c).
Definition with_indexes (l : list (SecondaryIndex S)) c : Collection S :=
  mkCollection (coll_name c) (data_pool c) (btree c) (current_data_page c) l (index_defs c).
Definition with_defs (l : list (bytes * bytes)) c : Collection S :=
  mkCollection (coll_name c) (data_pool c) (btree c) (current_data_page c) (secondary_indexes c) l.

(** Calls on [self.data_pool], [self.data_pool.page_manager()] and [self.btree]. *)
Definition pool_call {A} (m : ST (BufferPool S) GrumpyError A) : coll_f A :=
  ft_lift (st_zoom data_pool with_pool m).
Definition store_call {A} (m : FT S GrumpyError A) : coll_f A :=
  ft_zoom (λ c, pm (data_pool c)) (λ s c, with_pool (with_pm s (data_pool c)) c) m.
Definition tree_call {A} (m : FT (BTree bytes S) GrumpyError A) : coll_f A :=
  ft_zoom btree with_primary m.
Definition lift {A} (r : res A) : coll_f A := ft_lift (st_lift r).

(** [self.data_pool.get_frame(frame_idx).data] *)
Definition frame_bytes (frame_idx : nat) : coll_f bytes :=
  f ← pool_call (get_frame frame_idx); mret (data f).

(** ** Storing and reading tuples *)

Definition store_inline (encoded : bytes) : coll_f ((Z * Z) * list PageWriteRecord) :=
  c ← ft_lift st_get;
  let cur := current_data_page c in
  frame_idx ← pool_call (fetch_page cur);
  before ← frame_bytes frame_idx;
  let '(r, after) := Slotted.insert encoded before in
  match r with
  | Ok slot_id =>
      _ ← pool_call (write_frame frame_idx after);
      _ ← pool_call (unpin cur true);
      mret ((cur, Z.of_nat slot_id), [mkPageWrite cur before after])
  | Err (PageFull _) =>
      _ ← pool_call (unpin cur false);
      '(new_page_id, new_fidx) ← pool_call new_page;
      let '(r, after_new) := Slotted.insert encoded (slotted_new new_page_id) in
      slot_id ← lift r;
      _ ← pool_call (write_frame new_fidx after_new);
      _ ← pool_call (unpin new_page_id true);
      _ ← ft_lift (st_modify (with_current new_page_id));
      mret ((new_page_id, Z.of_nat slot_id), [mkPageWrite new_page_id zero_page after_new])
  | Err e =>
      _ ← pool_call (unpin cur false);
      ft_lift (st_fail e)
  | Panic => lift Panic
  end.

Definition store_overflow (encoded : bytes) : coll_f ((Z * Z) * list PageWriteRecord) :=
  overflow_page_id ← store_call (ft_lift (write_overflow encoded));
  store_inline (encode_overflow_ref overflow_page_id (Z.of_nat (length encoded) `mod` 4294967296)).

Definition read_tuple (fuel : nat) (page_id slot_id : Z) : coll_f bytes :=
  frame_idx ← pool_call (fetch_page page_id);
  page ← frame_bytes frame_idx;
  slot_data ← lift (Slotted.get (Z.to_nat slot_id) page).1;
  _ ← pool_call (unpin page_id false);
  if is_overflow slot_data then
    r ← lift (ok_or (decode_overflow_ref slot_data) (Corruption "malformed overflow ref"));
    store_call (read_overflow fuel r.1)
  else mret slot_data.

(** ** CRUD *)

Definition insert_raw (fuel : nat) (key encoded : bytes) : coll_f ((Z * Z) * list PageWriteRecord) :=
  found ← tree_call (BTree.search fuel key);
  if decide (is_Some found) then ft_lift (st_fail (DuplicateKey key))
  else
    r ← (if decide (INLINE_MAX < length encoded)%nat then store_overflow encoded
         else store_inline encoded);
    _ ← tree_call (BTree.insert fuel key r.1.1 r.1.2);
    mret r.

Definition get_raw (fuel : nat) (key : bytes) : coll_f (option bytes) :=
  found ← tree_call (BTree.search fuel key);
  match found with
  | None => mret None
  | Some (page_id, slot_id) => raw ← read_tuple fuel page_id slot_id; mret (Some raw)
  end.

Definition delete_raw (fuel : nat) (key : bytes) : coll_f (list PageWriteRecord) :=
  found ← tree_call (BTree.search fuel key);
  match found with
  | None => ft_lift (st_fail (KeyNotFound key))
  | Some (page_id, slot_id) =>
      frame_idx ← pool_call (fetch_page page_id);
      page ← frame_bytes frame_idx;
      slot_data ← lift (Slotted.get (Z.to_nat slot_id) page).1;
      _ ← (if is_overflow slot_data then
             r ← lift (ok_or (decode_overflow_ref slot_data) (Corruption "malformed overflow ref"));
             store_call (free_overflow fuel r.1)
           else mret tt);
      before ← frame_bytes frame_idx;
      let '(r, after) := Slotted.delete (Z.to_nat slot_id) before in
      _ ← lift r;
      _ ← pool_call (write_frame frame_idx after);
      _ ← pool_call (unpin page_id true);
      _ ← tree_call (delete_key fuel key);
      mret [mkPageWrite page_id before after]
  end.

Definition bound_key (b : Bound bytes) : option bytes :=
  match b with Included k | Excluded k => Some k | Unbounded => None end.
Definition past_end (b : Bound bytes) (k : bytes) : bool :=
  match b with
  | Included e => kltb e k
  | Excluded e => kleb e k
  | Unbounded => false
  end.
Definition excluded_start (b : Bound bytes) (k : bytes) : bool :=
  match b with Excluded s => bool_decide (k = s) | _ => false end.

(** The loop of [scan_raw], with its [break] and [continue]. *)
Fixpoint scan_entries (fuel : nat) (lo hi : Bound bytes) (entries : list (bytes * (Z * Z))) :
    coll_f (list (bytes * bytes)) :=
  match entries with
  | [] => mret []
  | (key, (page_id, slot_id)) :: entries =>
      if past_end hi key then mret []
      else if excluded_start lo key then scan_entries fuel lo hi entries
      else
        raw ← read_tuple fuel page_id slot_id;
        rest ← scan_entries fuel lo hi entries;
        mret ((key, raw) :: rest)
  end.

Definition scan_raw (fuel : nat) (lo hi : Bound bytes) : coll_f (list (bytes * bytes)) :=
  entries ← tree_call (range fuel (bound_key lo) None);
  scan_entries fuel lo hi entries.

(** ** Secondary indexes *)

(** [for idx in &mut self.secondary_indexes { let _ = call(idx); }] *)
Fixpoint for_each_index (call : FT (SecondaryIndex S) GrumpyError unit) (l : list (SecondaryIndex S)) :
    option (res unit * list (SecondaryIndex S)) :=
  match l with
  | [] => Some (Ok tt, [])
  | i :: l =>
      match ft_ignore call i with
      | Some (Ok _, i') =>
          match for_each_index call l with
          | Some (r, l') => Some (r, i' :: l')
          | None => None
          end
      | Some (r, i') => Some (r, i' :: l)
      | None => None
      end
  end.

Definition index_doc_in_secondaries (fuel : nat) (key : bytes) (v : Value) : coll_f unit :=
  ft_zoom secondary_indexes with_indexes (for_each_index (index_document fuel key v)).
Definition unindex_doc_from_secondaries (fuel : nat) (key : bytes) (v : Value) : coll_f unit :=
  ft_zoom secondary_indexes with_indexes (for_each_index (unindex_document fuel key v)).

Definition insert_doc (fuel : nat) (key : bytes) (v : Value) (encoded : bytes) :
    coll_f ((Z * Z) * list PageWriteRecord) :=
  result ← insert_raw fuel key encoded;
  _ ← index_doc_in_secondaries fuel key v;
  mret result.

Definition delete_doc (fuel : nat) (key : bytes) (v : Value) : coll_f (list PageWriteRecord) :=
  _ ← unindex_doc_from_secondaries fuel key v;
  delete_raw fuel key.

(** A computation on a local value, dropped when it fails. *)
Definition on_local {T A} (t : T) (m : FT T GrumpyError A) : coll_f (A * T) := λ c,
  match m t with
  | Some (Ok a, t') => Some (Ok (a, t'), c)
  | Some (Err e, _) => Some (Err e, c)
  | Some (Panic, _) => Some (Panic, c)
  | None => None
  end.

(** The rebuild loop of [create_index]. *)
Fixpoint index_entries (fuel : nat) (idx : SecondaryIndex S) (entries : list (bytes * (Z * Z))) :
    coll_f (SecondaryIndex S) :=
  match entries with
  | [] => mret idx
  | (key, (page_id, slot_id)) :: entries =>
      raw ← read_tuple fuel page_id slot_id;
      doc ← lift (doc_decode raw);
      r ← on_local idx (index_document fuel key (value doc));
      index_entries fuel r.2 entries
  end.

(** [s] is the file the index is created in. *)
Definition create_index (fuel : nat) (name field_path : bytes) (s : S) : coll_f unit :=
  c ← ft_lift st_get;
  if existsb (λ d, bool_decide (d.1 = name)) (index_defs c) then
    ft_lift (st_fail (IndexAlreadyExists name))
  else
    idx ← lift (index_create name field_path s);
    entries ← tree_call (scan_all fuel);
    idx ← index_entries fuel idx entries;
    _ ← ft_lift (st_modify (λ c, with_indexes (secondary_indexes c ++ [idx]) c));
    ft_lift (st_modify (λ c, with_defs (index_defs c ++ [(name, field_path)]) c)).

(** [Vec::remove] panics out of range. *)
Definition drop_index (name : bytes) : coll_f unit :=
  c ← ft_lift st_get;
  pos ← lift (ok_or (list_find (λ d, d.1 = name) (index_defs c)) (IndexNotFound name));
  if decide (pos.1 < length (secondary_indexes c))%nat then
    _ ← ft_lift (st_modify (with_indexes (base.delete pos.1 (secondary_indexes c))));
    ft_lift (st_modify (with_defs (base.delete pos.1 (index_defs c))))
  else lift Panic.

(** Runs a method of the index at position [pos]. *)
Definition at_index {A} (pos : nat) (i : SecondaryIndex S) (call : FT (SecondaryIndex S) GrumpyError A) : coll_f A :=
  ft_zoom (λ _, i) (λ i' c, with_indexes (<[pos := i']> (secondary_indexes c)) c) call.

(** Runs a method of the index called [name]. *)
Definition with_index {A} (name : bytes) (call : FT (SecondaryIndex S) GrumpyError A) : coll_f A :=
  c ← ft_lift st_get;
  found ← lift (ok_or (list_find (λ i, si_name i = name) (secondary_indexes c)) (IndexNotFound name));
  at_index found.1 found.2 call.

Fixpoint fetch_docs (fuel : nat) (uuids : list bytes) : coll_f (list (bytes * Value)) :=
  match uuids with
  | [] => mret []
  | uuid :: uuids =>
      found ← get_raw fuel uuid;
      match found with
      | Some raw =>
          doc ← lift (doc_decode raw);
          rest ← fetch_docs fuel uuids;
          mret ((uuid, value doc) :: rest)
      | None => fetch_docs fuel uuids
      end
  end.

Definition query_index (fuel : nat) (name : bytes) (v : Value) : coll_f (list (bytes * Value)) :=
  uuids ← with_index name (lookup fuel v);
  fetch_docs fuel uuids.

Definition query_index_range (fuel : nat) (name : bytes) (start end_ : Value) :
    coll_f (list (bytes * Value)) :=
  uuids ← with_index name (range_query fuel start end_);
  fetch_docs fuel uuids.

(** ** Maintenance *)

Definition document_count c : Z := meta_entries (bt_meta (btree c)).

Definition flush (order : list Z → list Z) : coll_f unit := pool_call (flush_all order).

(** The live documents, in key order: tombstones are left out. *)
Fixpoint live_docs (fuel : nat) (entries : list (bytes * (Z * Z))) : coll_f (list (bytes * bytes)) :=
  match entries with
  | [] => mret []
  | (key, (page_id, slot_id)) :: entries =>
      raw ← read_tuple fuel page_id slot_id;
      doc ← lift (doc_decode raw);
      rest ← live_docs fuel entries;
      mret (if is_tombstone (value doc) then rest else (key, raw) :: rest)
  end.

(** The files compaction writes: data pages, index, and the page being filled. *)
Record Compaction := mkCompaction {
  new_data_pm : S;
  new_btree : BTree bytes S;
  current_page_id : Z;
  current_page : bytes;
}.

Abbreviation comp_f := (FT Compaction GrumpyError).

Definition comp_store {A} (m : ST S GrumpyError A) : comp_f A :=
  ft_lift (st_zoom new_data_pm (λ s k, mkCompaction s (new_btree k) (current_page_id k) (current_page k)) m).
Definition comp_tree {A} (m : FT (BTree bytes S) GrumpyError A) : comp_f A :=
  ft_zoom new_btree (λ t k, mkCompaction (new_data_pm k) t (current_page_id k) (current_page k)) m.
Definition set_page (pid : Z) (p : bytes) (k : Compaction) : Compaction :=
  mkCompaction (new_data_pm k) (new_btree k) pid p.

Definition comp_start : comp_f unit :=
  pid ← comp_store ps_alloc;
  ft_lift (st_modify (set_page pid (slotted_new pid))).

Definition comp_doc (fuel : nat) (key encoded : bytes) : comp_f unit :=
  insert_data ← (if decide (INLINE_MAX < length encoded)%nat then
                   pid ← comp_store (write_overflow encoded);
                   mret (encode_overflow_ref pid (Z.of_nat (length encoded) `mod` 4294967296))
                 else mret encoded);
  k ← ft_lift st_get;
  let '(r, page) := Slotted.insert insert_data (current_page k) in
  match r with
  | Ok slot_id =>
      _ ← ft_lift (st_modify (set_page (current_page_id k) page));
      comp_tree (BTree.insert fuel key (current_page_id k) (Z.of_nat slot_id))
  | Err (PageFull _) =>
      _ ← comp_store (ps_write (current_page_id k) (current_page k));
      pid ← comp_store ps_alloc;
      let '(r, page) := Slotted.insert insert_data (slotted_new pid) in
      slot_id ← ft_lift (st_lift r);
      _ ← ft_lift (st_modify (set_page pid page));
      comp_tree (BTree.insert fuel key pid (Z.of_nat slot_id))
  | Err e => ft_lift (st_fail e)
  | Panic => ft_lift (st_lift Panic)
  end.

Fixpoint comp_docs (fuel : nat) (docs : list (bytes * bytes)) : comp_f unit :=
  match docs with
  | [] => mret tt
  | (key, encoded) :: docs => _ ← comp_doc fuel key encoded; comp_docs fuel docs
  end.

(** From the first page to the last writes; the state holds the two files. *)
Definition comp_run (fuel : nat) (docs : list (bytes * bytes)) : comp_f unit :=
  _ ← comp_start;
  _ ← comp_docs fuel docs;
  k ← ft_lift st_get;
  _ ← comp_store (ps_write (current_page_id k) (current_page k));
  comp_tree (ft_lift flush_meta).

(** [filter_map(|(key, raw)| Document::decode(raw).ok())] *)
Definition decodable (docs : list (bytes * bytes)) : list (bytes * Value) :=
  omap (λ d, match doc_decode d.2 with Ok doc => Some (d.1, value doc) | _ => None end) docs.

(** [idx.rebuild(docs)?] on each index; [residue] is what its path holds after the
    removal. *)
Fixpoint rebuild_each (fuel : nat) (residue : SecondaryIndex S → S) (docs : list (bytes * Value))
    (l : list (SecondaryIndex S)) : option (res unit * list (SecondaryIndex S)) :=
  match l with
  | [] => Some (Ok tt, [])
  | i :: l =>
      match rebuild fuel (residue i) docs i with
      | Some (Ok _, i') =>
          match rebuild_each fuel residue docs l with
          | Some (r, l') => Some (r, i' :: l')
          | None => None
          end
      | Some (r, i') => Some (r, i' :: l)
      | None => None
      end
  end.
End collection.
Arguments Compaction S : clear implicits.

(** ** Opening and compacting: the files themselves *)

Section files.
Context {C : Crc32}.
#[local] Existing Instance uuid_key.

Abbreviation coll_f := (FT (Collection PageManager) GrumpyError).

(** [for pid in (1..num_pages).rev()]: the last page that is a data page. *)
Fixpoint find_data_page (n : nat) : ST PageManager GrumpyError (option Z) :=
  match n with
  | O => mret None
  | Datatypes.S n' =>
      buf ← read_page (Z.of_nat n);
      if decide (page_type (read_from buf) = Data) then mret (Some (Z.of_nat n)) else find_data_page n'
  end.

Definition new_data_page : ST PageManager GrumpyError Z :=
  page_id ← allocate_page;
  _ ← write_page page_id (slotted_new page_id);
  mret page_id.

Definition find_or_alloc_data_page : ST PageManager GrumpyError Z :=
  s ← st_get;
  found ← find_data_page (Z.to_nat (num_pages s - 1));
  match found with
  | Some pid => mret pid
  | None => new_data_page
  end.

Definition file_exists (f : option bytes) : bool := match f with Some (_ :: _) => true | _ => false end.

(** [data_file] and [index_file]: what the two paths hold, [None] for no file. *)
Definition coll_open (data_file index_file : option bytes) (name : bytes) (pool_capacity : nat) :
    res (Collection PageManager) :=
  let data_pm := pm_new data_file in
  t ← (if file_exists index_file then open_tree (pm_new index_file) else create tt (pm_new index_file));
  let '(r, data_pm) := (if file_exists data_file then find_or_alloc_data_page else new_data_page) data_pm in
  current_data_page ← r;
  mret (mkCollection name (pool_new pool_capacity data_pm) t current_data_page [] []).

(** [data_tmp], [index_tmp]: what a compaction that was cut short left at the
    temporary paths.  The renamed files are opened again. *)
Definition compact (fuel : nat) (order : list Z → list Z) (data_tmp index_tmp : option bytes)
    (residue : SecondaryIndex PageManager → PageManager) : coll_f Z :=
  _ ← flush order;
  entries ← tree_call (scan_all fuel);
  docs ← live_docs fuel entries;
  t ← lift (create tt (pm_new index_tmp));
  r ← on_local (mkCompaction (pm_new data_tmp) t 0 zero_page) (comp_run fuel docs);
  let data_pm := pm_new (Some (file (new_data_pm r.2))) in
  new_tree ← lift (open_tree (pm_new (Some (file (bt_pm (new_btree r.2))))));
  c ← ft_lift st_get;
  _ ← ft_lift (st_modify (with_pool (pool_new (length (frames (data_pool c))) data_pm)));
  _ ← ft_lift (st_modify (with_primary new_tree));
  pid ← store_call (ft_lift find_or_alloc_data_page);
  _ ← ft_lift (st_modify (with_current pid));
  _ ← (match secondary_indexes c with
       | [] => mret tt
       | _ => ft_zoom secondary_indexes with_indexes (rebuild_each fuel residue (decodable docs))
       end);
  mret (Z.of_nat (length docs)).
End files.
