(* ===== verification/CollectionSpec.v ===== *)
(** * What collections promise (src/src/collection/mod.rs)

    [coll_rep c kv]: the collection [c] holds exactly the documents [kv], an ordered
    list of UUIDs with their encoded bytes.  Storing, reading and deleting are proved
    to refine the operations of that list, through the primary index, the buffer pool,
    the slotted pages and the overflow chains. *)

From stdpp Require Import gmap.
From S2P Require Import Prelude RustStd Value Codec Page Slotted PageManager Overflow BTreeNode BTree BTreeShape BTreeInsert BTreeSpec BTreeDelete BTreeCursor Index BufferPool Collection.

Local Open Scope Z_scope.

(** ** Pages whose checksum field is cleared *)

Lemma erase_length d : length d = PAGE_SIZE → length (erase d) = PAGE_SIZE.
Proof. intros Hd. pose proof PAGE_SIZE_Z. unfold erase. rewrite length_copy_at; len. Qed.

Lemma erase_slice d o n : length d = PAGE_SIZE → (o + n ≤ 28 ∨ 32 ≤ o)%nat → slice o n (erase d) = slice o n d.
Proof. intros Hd Ho. pose proof PAGE_SIZE_Z. unfold erase. apply slice_copy_at_ne; [lia|len; lia]. Qed.

Lemma erase_le_at d o n : length d = PAGE_SIZE → (o + n ≤ 28 ∨ 32 ≤ o)%nat → le_at o n (erase d) = le_at o n d.
Proof. intros Hd Ho. unfold le_at. by rewrite erase_slice. Qed.

Lemma erase_header d : length d = PAGE_SIZE →
  num_slots (read_from (erase d)) = num_slots (read_from d) ∧ next_page_id (read_from (erase d)) = next_page_id (read_from d) ∧
  page_id (read_from (erase d)) = page_id (read_from d).
Proof. intros Hd. cbn [read_from num_slots next_page_id page_id]. rewrite !erase_le_at by (done || lia). done. Qed.

(** A slotted page and its erasure show the same tuples. *)
Lemma view_28 p q :
  length p = PAGE_SIZE → length q = PAGE_SIZE → (∀ o n, (o + n ≤ 28 ∨ 32 ≤ o)%nat → slice o n q = slice o n p) →
  page_wf p → page_wf q ∧ contents q = contents p ∧ free_space q = free_space p.
Proof.
  intros Hp Hq Hs Hwf. destruct (same_view p q) as (? & ? & ? & _); [done|done| | | |done].
  - intros a k Hak. unfold le_at. by rewrite Hs by lia.
  - intros j _. unfold slot_off, slot_len, slot_raw, le_at. rewrite !Hs by slia. done.
  - intros a k Ha. apply Hs. right. pose proof (wf_start _ Hwf). pose proof (wf_free _ Hwf). slia.
Qed.

Lemma erase_wf d : length d = PAGE_SIZE → page_wf (erase d) →
  page_wf d ∧ contents d = contents (erase d) ∧ free_space d = free_space (erase d).
Proof. intros Hd. apply view_28; [by apply erase_length|done|]. intros o n Ho. symmetry. by apply erase_slice. Qed.

Lemma wf_erase d : page_wf d → page_wf (erase d) ∧ contents (erase d) = contents d ∧ free_space (erase d) = free_space d.
Proof.
  intros Hwf. pose proof (wf_length _ Hwf) as Hd. apply (view_28 d); [done|by apply erase_length| |done].
  intros o n Ho. by apply erase_slice.
Qed.

(** A live slot number fits 16 bits. *)
Lemma slot_u16 p i : page_wf p → is_Some (contents p !! i) → 0 ≤ Z.of_nat i < 65536.
Proof.
  intros Hwf [o Ho]. apply lookup_lt_Some in Ho. rewrite contents_length in Ho. pose proof (num_slots_range p). lia.
Qed.

(** ** Ordered lists under a map of their values *)

Section maps.
Context {V W : Type} (f : V → W).
Implicit Types m : list (bytes * V).

Abbreviation mapv := (map (prod_map id f)).

Lemma bt_get_map k m : bt_get k (mapv m) = f <$> bt_get k m.
Proof. induction m as [|[k' v] m IH]; [done|]. cbn [map bt_get prod_map]. unfold id at 1. cbn. by destruct (bytes_cmp k k'). Qed.

Lemma bt_insert_map k v m : bt_insert k (f v) (mapv m) = mapv (bt_insert k v m).
Proof.
  induction m as [|[k' w] m IH]; [done|]. cbn [map bt_insert prod_map]. unfold id at 1. cbn.
  destruct (bytes_cmp k k'); [done|done|]. cbn. by rewrite <- IH.
Qed.

Lemma bt_remove_map k m : bt_remove k (mapv m) = mapv (bt_remove k m).
Proof.
  induction m as [|[k' w] m IH]; [done|]. cbn [map bt_remove prod_map]. unfold id at 1. cbn.
  destruct (bytes_cmp k k'); [done|done|]. cbn. by rewrite <- IH.
Qed.

Lemma bt_sorted_map m : bt_sorted (mapv m) ↔ bt_sorted m.
Proof.
  unfold bt_sorted. induction m as [|[k v] m IH]; [by split; constructor|]. cbn [map]. rewrite !StronglySorted_cons, IH.
  cbn [prod_map]. unfold id at 1. rewrite !Forall_forall. f_equiv. split.
  - intros H [k' v'] Hin. apply (H (k', f v')). apply list_elem_of_fmap. by exists (k', v').
  - intros H e (e' & -> & Hin)%list_elem_of_fmap. by apply (H e').
Qed.
End maps.

(** ** The pool between calls *)

Section pool.
Context {C : Crc32} {S : Type} {PS : PageStore C S}.
Implicit Types (b : BufferPool S) (m dm : gmap Z bytes).

(** Nothing is pinned, and there is a frame. *)
Record idle b : Prop := {
  id_frames : frames b ≠ [];
  id_pins : ∀ i f, frames b !! i = Some f → pin_count f = 0;
}.

(** Frame [i] holds page [pid] and is the only pinned one. *)
Record held b (i : nat) (f : BufferFrame) (pid : Z) : Prop := {
  hd_frame : frames b !! i = Some f;
  hd_page : fr_page_id f = Some pid;
  hd_pin : pin_count f = 1;
  hd_others : ∀ j g, j ≠ i → frames b !! j = Some g → pin_count g = 0;
}.

Lemma idle_unpinned b : idle b → ∀ i f, frames b !! i = Some f → is_pinned f = false.
Proof. intros Hid i f Hf. apply bool_decide_eq_false. rewrite (id_pins _ Hid i f Hf). lia. Qed.

Lemma idle_not_exhausted b : idle b → (∀ f, f ∈ frames b → is_pinned f = true) → False.
Proof.
  intros Hid Hall. destruct (frames b) as [|f fs] eqn:E; [by apply (id_frames _ Hid)|].
  assert (Hf : frames b !! 0%nat = Some f) by (by rewrite E). pose proof (idle_unpinned b Hid _ _ Hf).
  rewrite (Hall f) in *; [done|left].
Qed.

Lemma loaded_held b b' i pid : idle b → loaded b b' i pid → ∃ f, held b' i f pid.
Proof.
  intros Hid Hl. destruct (ld_frame _ _ _ _ Hl) as (f & Hf & Hp & _). exists f. constructor; [done|done| |].
  - apply (ld_pins _ _ _ _ Hl); [by apply idle_unpinned|done].
  - intros j g Hj Hg. rewrite (ld_others _ _ _ _ Hl j Hj) in Hg. by apply (id_pins _ Hid j).
Qed.

Lemma fetch_idle b dm m pid p :
  pool_inv b dm m → idle b → m !! pid = Some p →
  ∃ i b' dm' f, fetch_page pid b = (Ok i, b') ∧ pool_inv b' dm' m ∧ held b' i f pid ∧ p = erase (data f) ∧
    length (data f) = PAGE_SIZE ∧ (∀ q j, page_table b' !! q = Some j → q = pid ∨ page_table b !! q = Some j) ∧
    ps_room (pm b') = ps_room (pm b).
Proof.
  intros Hinv Hid Hm.
  assert (∃ i b' dm', fetch_page pid b = (Ok i, b') ∧ pool_inv b' dm' m ∧ loaded b b' i pid ∧ ps_room (pm b') = ps_room (pm b))
    as (i & b' & dm' & Hrun & Hinv' & Hl & Hr).
  { destruct (page_table b !! pid) as [i|] eqn:Ht.
    - destruct (pi_table _ _ _ Hinv pid i Ht) as (f & Hf & Hp).
      destruct (fetch_hit b dm m pid i f Hinv Ht Hf) as (b' & ? & ? & ? & ?); [rewrite (id_pins _ Hid i f Hf); unfold u32_max; lia|].
      by exists i, b', dm.
    - destruct (fetch_miss b dm m pid Hinv Ht) as [H|[_ Hall]]; [by eauto|done|]. by destruct (idle_not_exhausted b). }
  destruct (loaded_held b b' i pid Hid Hl) as (f & Hh).
  destruct (pi_frame _ _ _ Hinv' i f pid (hd_frame _ _ _ _ Hh) (hd_page _ _ _ _ Hh)) as (_ & Hlen & Hm' & _).
  exists i, b', dm', f. split_and!; [done|done|done|congruence|done|apply Hl|done].
Qed.

Lemma unpin_held b dm m i f pid fl d :
  pool_inv b dm m → held b i f pid → length d = PAGE_SIZE → fl = true ∨ d = data f →
  ∃ b', unpin pid fl (with_frames (<[i := set_data d f]> (frames b)) b) = (Ok tt, b') ∧
    pool_inv b' dm (<[pid := erase d]> m) ∧ idle b' ∧ page_table b' = page_table b ∧ pm b' = pm b.
Proof.
  intros Hinv [Hf Hp Hpin Hoth] Hlen Hfl.
  destruct (unpin_ok b dm m i f pid fl d Hinv Hf Hp) as (b' & g & Hrun & Hinv' & Hpm & Ht & Hfr & Hg);
    [by apply bool_decide_eq_true; lia|done|done|].
  exists b'. split_and!; [done|done| |done|done].
  assert (Hil : (i < length (frames b))%nat) by (by eapply lookup_lt_Some).
  constructor; rewrite Hfr.
  - intros Hx. apply (f_equal length) in Hx. rewrite length_insert in Hx. cbn in Hx. lia.
  - intros j h. destruct (decide (j = i)) as [->|Hj].
    + rewrite list_lookup_insert_eq by done. intros [= <-]. lia.
    + rewrite list_lookup_insert_ne by done. by apply Hoth.
Qed.

Lemma with_frames_id b i f : frames b !! i = Some f → with_frames (<[i := set_data (data f) f]> (frames b)) b = b.
Proof. intros Hf. destruct b, f. cbn in *. unfold with_frames. cbn. by rewrite list_insert_id. Qed.

(** Unpinning a page that was only read. *)
Lemma unpin_read b dm m i f pid :
  pool_inv b dm m → held b i f pid →
  ∃ b', unpin pid false b = (Ok tt, b') ∧ pool_inv b' dm m ∧ idle b' ∧ page_table b' = page_table b ∧ pm b' = pm b.
Proof.
  intros Hinv Hh. pose proof (hd_frame _ _ _ _ Hh) as Hf.
  destruct (pi_frame _ _ _ Hinv i f pid Hf (hd_page _ _ _ _ Hh)) as (_ & Hlen & Hm & _).
  destruct (unpin_held b dm m i f pid false (data f) Hinv Hh Hlen (or_intror eq_refl)) as (b' & Hrun & Hinv' & H).
  rewrite with_frames_id in Hrun by done. rewrite insert_id in Hinv' by done. by exists b'.
Qed.

Lemma new_page_idle b dm m :
  pool_inv b dm m → idle b → 0 < ps_room (pm b) →
  ∃ pid i b' dm' f, new_page b = (Ok (pid, i), b') ∧ m !! pid = None ∧ is_u32 pid ∧ pool_inv b' dm' (<[pid := erase zero_page]> m) ∧
    held b' i f pid ∧ (∀ q j, page_table b' !! q = Some j → q = pid ∨ page_table b !! q = Some j) ∧
    ps_room (pm b') = ps_room (pm b) - 1.
Proof.
  intros Hinv Hid Hroom. destruct (new_page_ok b dm m Hinv Hroom) as [(pid & i & b' & dm' & Hrun & _ & Hfresh & Hinv' & Hl & Hr)|[_ Hall]];
    [|by destruct (idle_not_exhausted b)].
  destruct (loaded_held b b' i pid Hid Hl) as (f & Hh). exists pid, i, b', dm', f. split_and!; [done|done| |done|done|apply Hl|done].
  destruct (proj2 (pi_dom _ _ _ Hinv' pid)) as [d Hd]; [rewrite lookup_insert_eq; eauto|].
  destruct (ps_owned _ _ _ _ (pi_store _ _ _ Hinv') Hd). unfold is_u32. lia.
Qed.

(** ** Calls that bypass the pool *)

(** The logical pages once the store holds [dm]: cached pages are unaffected. *)
Definition behind b m dm : gmap Z bytes :=
  filter (λ e, is_Some (page_table b !! e.1)) m ∪ (erase <$> dm).

Lemma behind_cached b dm m dm' q :
  pool_inv b dm m → is_Some (page_table b !! q) → behind b m dm' !! q = m !! q.
Proof.
  intros Hinv [i Hi]. destruct (pi_table _ _ _ Hinv q i Hi) as (f & Hf & Hp).
  destruct (pi_frame _ _ _ Hinv i f q Hf Hp) as (_ & _ & Hm & _). rewrite Hm. unfold behind.
  apply lookup_union_Some_l. apply map_lookup_filter_Some. split; [done|]. cbn. eauto.
Qed.

Lemma behind_uncached b m dm q : page_table b !! q = None → behind b m dm !! q = erase <$> dm !! q.
Proof.
  intros Hq. unfold behind. rewrite lookup_union_r; [apply lookup_fmap|].
  apply map_lookup_filter_None. right. cbn. intros d _ [j Hj]. congruence.
Qed.

Lemma pool_inv_behind b dm m s dm' :
  pool_inv b dm m → ps_rep s dm' → (∀ q, is_Some (page_table b !! q) → dm' !! q = dm !! q) →
  pool_inv (with_pm s b) dm' (behind b m dm').
Proof.
  intros Hinv Hs Hsame. pose proof Hinv as [_ Ht Hf Hfr Hpc Hdom Hmiss].
  constructor; cbn [frames page_table pm with_pm]; [done|done| |done|done| |].
  - intros i f q Hi Hp. destruct (Hf i f q Hi Hp) as (H1 & H2 & H3 & H4).
    rewrite (behind_cached b dm) by (done || eauto). rewrite Hsame by eauto. done.
  - intros q. destruct (page_table b !! q) as [i|] eqn:E.
    + rewrite (behind_cached b dm) by (done || eauto). rewrite Hsame by eauto. apply Hdom.
    + rewrite behind_uncached by done. by rewrite fmap_is_Some.
  - intros q Hq. by apply behind_uncached.
Qed.

(** Uncached pages that the store did not change keep their logical bytes. *)
Lemma behind_same b dm m dm' q :
  pool_inv b dm m → dm' !! q = dm !! q → behind b m dm' !! q = m !! q.
Proof.
  intros Hinv Hq. destruct (page_table b !! q) as [i|] eqn:E; [apply (behind_cached b dm); eauto|].
  rewrite behind_uncached by done. rewrite Hq. symmetry. by apply (pi_miss _ _ _ Hinv).
Qed.

(** ** Chains on the disk and in the logical pages *)

Lemma linked_iff m dm pid next c :
  (∀ d, dm !! pid = Some d → length d = PAGE_SIZE) → m !! pid = erase <$> dm !! pid →
  linked m pid next c ↔ linked dm pid next c.
Proof.
  intros Hlen Hm. unfold linked. rewrite Hm. destruct (dm !! pid) as [d|] eqn:E; cbn [fmap option_fmap option_map];
    [|by split; intros (? & ? & _)]. destruct (erase_header d (Hlen d eq_refl)) as (H1 & H2 & _).
  split; intros (d' & [= <-] & Hn & Hx & Hsl & Hc); eexists; (split; [reflexivity|]); rewrite ?H1, ?H2 in *;
    (split_and!; [done|done| |done]); rewrite <- Hsl at 2; [symmetry|]; by apply erase_slice; auto.
Qed.

Lemma chain_iff m dm ids cs :
  (∀ q d, dm !! q = Some d → length d = PAGE_SIZE) → (∀ q, q ∈ ids → m !! q = erase <$> dm !! q) →
  Overflow.chain m ids cs ↔ Overflow.chain dm ids cs.
Proof.
  intros Hlen. revert cs. induction ids as [|pid ids IH]; intros [|c cs] Hm; cbn [Overflow.chain]; try done.
  rewrite linked_iff; [|apply Hlen|apply Hm; left]. rewrite IH; [done|]. intros q Hq. apply Hm. by right.
Qed.

(** A chain none of whose pages is cached is on the disk as it is in the logical pages. *)
Lemma chain_disk b dm m ids cs :
  pool_inv b dm m → (∀ q, q ∈ ids → page_table b !! q = None) → Overflow.chain m ids cs ↔ Overflow.chain dm ids cs.
Proof.
  intros Hinv Hun. apply chain_iff.
  - intros q d Hd. by apply (ps_owned _ _ _ _ (pi_store _ _ _ Hinv) Hd).
  - intros q Hq. by apply (pi_miss _ _ _ Hinv), Hun.
Qed.
End pool.

(** ** Tuples on the heap of data pages *)

(** Where a document is: its slot, its bytes, the pages of its overflow chain. *)
Record slot_info := mkInfo {
  in_ptr : Z * Z;
  in_raw : bytes;
  in_ids : list Z;
}.

(** The bytes in the slot of a document: the document itself, or a reference to the
    chain that holds it. *)
Definition slot_holds (m : gmap Z bytes) (i : slot_info) (d : bytes) : Prop :=
  match in_ids i with
  | [] => is_overflow d = false ∧ d = in_raw i
  | pid :: _ =>
      ∃ n, is_u32 pid ∧ is_u32 n ∧ d = encode_overflow_ref pid n ∧ NoDup (in_ids i) ∧
        Overflow.chain m (in_ids i) (chunks PAGE_USABLE_SPACE (in_raw i))
  end.

Lemma overflow_ref_ok pid n : is_u32 pid → is_u32 n →
  decode_overflow_ref (encode_overflow_ref pid n) = Some (pid, n) ∧ is_overflow (encode_overflow_ref pid n) = true.
Proof. intros Hp Hn. by destruct (overflow_ref_roundtrip pid n [] Hp Hn) as (? & ? & _). Qed.

Lemma chunks_concat l : concat (chunks PAGE_USABLE_SPACE l) = l.
Proof. apply (chunks_spec PAGE_USABLE_SPACE l (length l)); [plia|lia]. Qed.

Definition in_slot (m : gmap Z bytes) (ptr : Z * Z) (d : bytes) : Prop :=
  ∃ p, m !! ptr.1 = Some p ∧ contents p !! Z.to_nat ptr.2 = Some (Some d).

Section heap.
Context {C : Crc32} {S : Type} {PS : PageStore C S}.
#[local] Existing Instance uuid_key.
#[local] Existing Instance uuid_laws.
Implicit Types (b : BufferPool S) (m dm : gmap Z bytes) (DP : gset Z) (es : list (bytes * slot_info)) (c : Collection S).

(** [DP]: the data pages; [es]: where each document is. *)
Record heap_inv b dm m DP es : Prop := {
  hi_pool : pool_inv b dm m;
  hi_idle : idle b;
  hi_entry : ∀ k i, bt_get k es = Some i →
    (∃ d, in_slot m (in_ptr i) d ∧ slot_holds m i d) ∧ (in_ptr i).1 ∈ DP ∧ ∀ q, q ∈ in_ids i → q ∉ DP;
  hi_apart : ∀ k k' i i', k ≠ k' → bt_get k es = Some i → bt_get k' es = Some i' →
    in_ptr i ≠ in_ptr i' ∧ ∀ q, q ∈ in_ids i → q ∉ in_ids i';
  hi_pages : ∀ q, q ∈ DP → ∃ p, m !! q = Some p ∧ page_wf p;
  hi_cached : ∀ q j, page_table b !! q = Some j → q ∈ DP;
  hi_slot : ∀ k i, bt_get k es = Some i → 0 ≤ (in_ptr i).2;
}.

Lemma slot_holds_mono m m' i d :
  (∀ q, q ∈ in_ids i → m' !! q = m !! q) → slot_holds m i d → slot_holds m' i d.
Proof.
  unfold slot_holds. destruct (in_ids i) as [|pid ids]; [done|]. intros Hm (n & Hp & Hn & -> & Hnd & Hch).
  exists n. split_and!; [done..|]. by eapply chain_mono.
Qed.

(** The pages of a chain are owned. *)
Lemma chain_owned m ids cs q : Overflow.chain m ids cs → q ∈ ids → is_Some (m !! q).
Proof.
  revert cs. induction ids as [|pid ids IH]; intros [|c cs] Hch Hq; try done; [by apply elem_of_nil in Hq|].
  destruct Hch as [(d & Hd & _) Hch]. apply elem_of_cons in Hq as [->|Hq]; [by eauto|by eapply IH].
Qed.

Lemma ids_owned m i d q : slot_holds m i d → q ∈ in_ids i → is_Some (m !! q).
Proof.
  unfold slot_holds. intros Hh Hq. destruct (in_ids i) as [|pid ids]; [by apply elem_of_nil in Hq|].
  destruct Hh as (n & _ & _ & _ & _ & Hch). by eapply chain_owned.
Qed.

Lemma ids_length m i d : slot_holds m i d → (length (in_ids i) ≤ length (chunks PAGE_USABLE_SPACE (in_raw i)))%nat.
Proof.
  unfold slot_holds. destruct (in_ids i) as [|pid ids]; [cbn; lia|]. intros (n & _ & _ & _ & _ & Hch). revert Hch.
  generalize (pid :: ids), (chunks PAGE_USABLE_SPACE (in_raw i)). induction l as [|q l IH]; intros [|c cs]; cbn; try done.
  intros [_ Hch]. apply IH in Hch. lia.
Qed.

(** Pages change, documents stay where they are. *)
Lemma heap_change b dm m DP es b' dm' m' DP' :
  heap_inv b dm m DP es → pool_inv b' dm' m' → idle b' → DP ⊆ DP' →
  (∀ q, q ∈ DP' → ∃ p, m' !! q = Some p ∧ page_wf p) → (∀ q j, page_table b' !! q = Some j → q ∈ DP') →
  (∀ k i q, bt_get k es = Some i → q ∈ in_ids i → m' !! q = m !! q ∧ q ∉ DP') →
  (∀ k i d, bt_get k es = Some i → in_slot m (in_ptr i) d → in_slot m' (in_ptr i) d) →
  heap_inv b' dm' m' DP' es.
Proof.
  intros [_ _ Hent Hap _ _ Hz] Hp Hid Hsub Hpg Hca Hids Hsl. constructor; [done|done| |done|done|done|done].
  intros k i Hk. destruct (Hent k i Hk) as ((d & Hin & Hh) & HDP & _). split_and!; [|set_solver|].
  - exists d. split; [by eapply Hsl|]. eapply slot_holds_mono; [|done]. intros q Hq. by apply (Hids k i q).
  - intros q Hq. by apply (Hids k i q).
Qed.

(** ** Running calls of a collection *)

Lemma pool_step {A B} (f : ST (BufferPool S) GrumpyError A) (k : A → FT (Collection S) GrumpyError B) c a b' :
  f (data_pool c) = (Ok a, b') → (pool_call f ≫= k) c = k a (with_pool b' c).
Proof. intros Hf. unfold pool_call, st_zoom. erewrite ft_lift_step; [reflexivity|]. by rewrite Hf. Qed.

Lemma tree_step {A B} (f : FT (BTree bytes S) GrumpyError A) (k : A → FT (Collection S) GrumpyError B) c a t :
  f (btree c) = Some (Ok a, t) → (tree_call f ≫= k) c = k a (with_primary t c).
Proof. intros Hf. erewrite ft_step; [reflexivity|]. by apply ft_zoom_ok. Qed.

Lemma store_step {A B} (f : FT S GrumpyError A) (k : A → FT (Collection S) GrumpyError B) c a s :
  f (pm (data_pool c)) = Some (Ok a, s) → (store_call f ≫= k) c = k a (with_pool (with_pm s (data_pool c)) c).
Proof. intros Hf. erewrite ft_step; [reflexivity|]. unfold store_call. by erewrite ft_zoom_ok by exact Hf. Qed.

Lemma lift_step {A B} (r : res A) (k : A → FT (Collection S) GrumpyError B) c a : r = Ok a → (lift r ≫= k) c = k a c.
Proof. by intros ->. Qed.

Lemma with_pool_id c : with_pool (data_pool c) c = c.
Proof. by destruct c. Qed.
Lemma with_primary_id c : with_primary (btree c) c = c.
Proof. by destruct c. Qed.

Lemma with_pm_id b : with_pm (pm b) b = b.
Proof. by destruct b. Qed.

Lemma frame_step {B} (k : bytes → FT (Collection S) GrumpyError B) c i f :
  frames (data_pool c) !! i = Some f → (frame_bytes i ≫= k) c = k (data f) c.
Proof.
  intros Hf. erewrite ft_step; [reflexivity|]. unfold frame_bytes.
  erewrite pool_step by (by apply get_frame_ok). by rewrite with_pool_id.
Qed.

(** ** Reading *)

Lemma read_tuple_ok c dm m DP es k i fuel :
  heap_inv (data_pool c) dm m DP es → bt_get k es = Some i → (length (in_ids i) ≤ fuel)%nat →
  ∃ b' dm', read_tuple fuel (in_ptr i).1 (in_ptr i).2 c = Some (Ok (in_raw i), with_pool b' c) ∧
    heap_inv b' dm' m DP es ∧ ps_room (pm b') = ps_room (pm (data_pool c)).
Proof.
  intros Hh Hk Hfuel. pose proof Hh as [Hinv Hid Hent _ Hpg Hca _]. destruct (Hent k i Hk) as ((d & (p & Hp & Hd) & Hsl) & HDP & Hids).
  destruct (fetch_idle _ dm m (in_ptr i).1 p Hinv Hid Hp) as (x & b1 & dm1 & f & Hrun & Hinv1 & Hheld & -> & Hlen & Ht1 & Hr1).
  destruct (Hpg _ HDP) as (p' & Hp' & Hwf). assert (p' = erase (data f)) as -> by congruence.
  destruct (erase_wf _ Hlen Hwf) as (Hwf' & Hcont & _).
  destruct (unpin_read b1 dm1 m x f _ Hinv1 Hheld) as (b2 & Hun & Hinv2 & Hid2 & Ht2 & Hpm2).
  assert (Hca2 : ∀ q j, page_table b2 !! q = Some j → q ∈ DP).
  { intros q j. rewrite Ht2. intros [->|Hq]%Ht1; [done|by eapply Hca]. }
  exists b2, dm1. split_and!; [| |by rewrite Hpm2].
  2:{ eapply heap_change; [exact Hh|done|done|done|done|done| |done]. intros k' i' q Hk' Hq.
      split; [done|]. by apply (Hent k' i' Hk'). }
  unfold read_tuple. erewrite pool_step by exact Hrun. erewrite frame_step by apply Hheld.
  erewrite lift_step by (rewrite get_ok by done; cbn [fst]; rewrite Hcont, Hd; reflexivity).
  erewrite pool_step by exact Hun. unfold slot_holds in Hsl. destruct (in_ids i) as [|pid ids] eqn:Ei.
  { destruct Hsl as [-> ->]. done. }
  destruct Hsl as (n & Hpu & Hnu & -> & Hnd & Hch). destruct (overflow_ref_ok pid n Hpu Hnu) as [Hdec ->]. rewrite Hdec.
  erewrite lift_step by reflexivity. cbn [fst].
  apply (chain_disk b2 dm1 m) in Hch; [|done|].
  2:{ intros q Hq. destruct (page_table b2 !! q) eqn:E; [|done]. apply Hca2 in E. by destruct (Hids q Hq). }
  pose proof (read_chain_ok _ _ _ _ fuel [] (pi_store _ _ _ Hinv2) Hch Hfuel) as Hrd. cbn [head default app] in Hrd.
  rewrite chunks_concat in Hrd. unfold store_call. erewrite ft_zoom_ok by exact Hrd. cbn [data_pool with_pool].
  by rewrite with_pm_id.
Qed.
(** ** Storing *)

Lemma spec_insert_new d cs :
  let r := spec_insert d cs in
  r.2 !! r.1 = Some (Some d) ∧ (∀ x, cs !! r.1 ≠ Some (Some x)) ∧
  ∀ j x, cs !! j = Some (Some x) → r.2 !! j = Some (Some x).
Proof.
  unfold spec_insert. destruct (list_find _ cs) as [[i o]|] eqn:E; cbn [fst snd].
  - apply list_find_Some in E as (Hi & -> & _). apply lookup_lt_Some in Hi as Hl. split_and!.
    + by rewrite list_lookup_insert_eq.
    + intros x. congruence.
    + intros j x Hj. rewrite list_lookup_insert_ne by congruence. done.
  - split_and!.
    + by rewrite lookup_app_r, Nat.sub_diag.
    + intros x. by rewrite lookup_ge_None_2.
    + intros j x Hj. by apply lookup_app_l_Some.
Qed.

(** The tuple [d] went to a slot nobody used, and no other owned page changed. *)
Record new_slot m m' DP DP' es (ptr : Z * Z) d : Prop := {
  ns_page : ptr.1 ∈ DP';
  ns_slot : in_slot m' ptr d;
  ns_u16 : 0 ≤ ptr.2 < 65536;
  ns_fresh : ∀ k i, bt_get k es = Some i → in_ptr i ≠ ptr;
  ns_rest : ∀ q, is_Some (m !! q) → q ∉ DP → q ∉ DP' ∧ m' !! q = m !! q;
}.

(** The page being filled is one of the data pages, or a new one. *)
Definition target m DP (pid : Z) (base : bytes) : Prop :=
  (pid ∈ DP ∧ ∃ p, m !! pid = Some p ∧ contents p = contents base) ∨ (m !! pid = None ∧ contents base = []).

Lemma place_ok b dm m DP es b1 dm1 m1 x f pid base d :
  heap_inv b dm m DP es → pool_inv b1 dm1 m1 → held b1 x f pid → (∀ q, q ≠ pid → m1 !! q = m !! q) →
  (∀ q j, page_table b1 !! q = Some j → q = pid ∨ q ∈ DP) → page_wf base → target m DP pid base →
  Z.of_nat (length d + SLOT_SIZE) ≤ free_space base →
  ∃ slot after b2 m2, Slotted.insert d base = (Ok slot, after) ∧
    write_frame x after b1 = (Ok tt, with_frames (<[x := set_data after f]> (frames b1)) b1) ∧
    unpin pid true (with_frames (<[x := set_data after f]> (frames b1)) b1) = (Ok tt, b2) ∧
    heap_inv b2 dm1 m2 ({[pid]} ∪ DP) es ∧ new_slot m m2 DP ({[pid]} ∪ DP) es (pid, Z.of_nat slot) d ∧
    ps_room (pm b2) = ps_room (pm b1).
Proof.
  intros Hh Hinv1 Hheld Hm1 Ht1 Hwf Htar Hroom. pose proof Hh as [_ _ Hent _ Hpg _ _].
  destruct (insert_ok base d Hwf Hroom) as (after & Hins & Hwfa & Hcont & _).
  destruct (spec_insert_new d (contents base)) as (Hnew & Hfree & Hkeep). set (slot := (spec_insert d (contents base)).1) in *.
  destruct (wf_erase _ Hwfa) as (Hwfe & Hce & _).
  destruct (unpin_held b1 dm1 m1 x f pid true after Hinv1 Hheld (wf_length _ Hwfa) (or_introl eq_refl)) as (b2 & Hun & Hinv2 & Hid2 & Ht2 & Hpm2).
  exists slot, after, b2, (<[pid := erase after]> m1).
  assert (Hrest : ∀ q, q ≠ pid → <[pid := erase after]> m1 !! q = m !! q) by (intros q Hq; rewrite lookup_insert_ne; auto).
  assert (Hother : ∀ q, is_Some (m !! q) → q ∉ DP → q ≠ pid).
  { intros q [e He] Hq ->. destruct Htar as [[? _]|[? _]]; congruence. }
  assert (Hslot : ∀ ptr e, in_slot m ptr e → in_slot (<[pid := erase after]> m1) ptr e).
  { intros ptr e (p & Hp & He). destruct (decide (ptr.1 = pid)) as [Heq|Hne]; [|exists p; split; [by rewrite Hrest|done]].
    exists (erase after). rewrite Heq, lookup_insert_eq. split; [done|]. rewrite Hce, Hcont. apply Hkeep.
    destruct Htar as [(_ & p' & Hp' & <-)|[Hn _]]; [|by congruence]. by replace p' with p by congruence. }
  split_and!; [done| |done| | |by rewrite Hpm2].
  - unfold write_frame. by erewrite st_step by (apply get_frame_ok; apply Hheld).
  - eapply heap_change; [exact Hh|done|done|set_solver| | | |].
    + intros q [->%elem_of_singleton|Hq]%elem_of_union; [rewrite lookup_insert_eq; eauto|].
      destruct (decide (q = pid)) as [->|Hne]; [rewrite lookup_insert_eq; eauto|]. rewrite Hrest by done. by apply Hpg.
    + intros q j. rewrite Ht2. intros Hq%Ht1. set_solver.
    + intros k i q Hk Hq. destruct (Hent k i Hk) as ((e & _ & Hs) & _ & Hids). pose proof (ids_owned _ _ _ _ Hs Hq) as Ho.
      specialize (Hids q Hq). specialize (Hother q Ho Hids). split; [by apply Hrest|set_solver].
    + intros k i e _. apply Hslot.
  - constructor; cbn [fst snd].
    + set_solver.
    + exists (erase after). cbn [fst snd]. rewrite lookup_insert_eq, Nat2Z.id, Hce, Hcont. done.
    + apply (slot_u16 after slot Hwfa). rewrite Hcont, Hnew. eauto.
    + intros k i Hk Heq. destruct (Hent k i Hk) as ((e & (p & Hp & He) & _) & _). rewrite Heq in Hp, He. cbn [fst snd] in Hp, He.
      rewrite Nat2Z.id in He. destruct Htar as [(_ & p' & Hp' & Hc)|[Hn _]]; [|congruence]. apply (Hfree e). rewrite <- Hc. congruence.
    + intros q Ho Hq. specialize (Hother q Ho Hq). split; [set_solver|by apply Hrest].
Qed.
Lemma insert_full p d : free_space p < Z.of_nat (length d + SLOT_SIZE) →
  Slotted.insert d p = (Err (PageFull (page_id (read_from p))), p).
Proof. intros Hf. unfold Slotted.insert. rewrite st_get_bind. by rewrite decide_True by done. Qed.

Lemma with_current_id c b : with_current (current_data_page c) (with_pool b c) = with_pool b c.
Proof. reflexivity. Qed.

Lemma store_inline_ok c dm m DP es d :
  heap_inv (data_pool c) dm m DP es → current_data_page c ∈ DP → (length d ≤ INLINE_MAX)%nat → 0 < ps_room (pm (data_pool c)) →
  ∃ ptr recs b' cur dm' m' DP', store_inline d c = Some (Ok (ptr, recs), with_current cur (with_pool b' c)) ∧
    heap_inv b' dm' m' DP' es ∧ cur ∈ DP' ∧ new_slot m m' DP DP' es ptr d.
Proof.
  intros Hh Hcur Hlen Hroom. pose proof Hh as [Hinv Hid Hent _ Hpg Hca _]. destruct (Hpg _ Hcur) as (p & Hp & Hwfp).
  destruct (fetch_idle _ dm m _ p Hinv Hid Hp) as (x & b1 & dm1 & f & Hrun & Hinv1 & Hheld & -> & Hlf & Ht1 & Hr1).
  destruct (erase_wf _ Hlf Hwfp) as (Hwf & Hcont & _).
  assert (Hca1 : ∀ q j, page_table b1 !! q = Some j → q = current_data_page c ∨ q ∈ DP).
  { intros q j [->|Hq]%Ht1; [by left|right; by eapply Hca]. }
  unfold store_inline. rewrite ft_get_bind. erewrite pool_step by exact Hrun. erewrite frame_step by apply Hheld.
  destruct (decide (free_space (data f) < Z.of_nat (length d + SLOT_SIZE))) as [Hfull|Hfit].
  - rewrite insert_full by done. destruct (unpin_read b1 dm1 m x f _ Hinv1 Hheld) as (b2 & Hun & Hinv2 & Hid2 & Ht2 & Hpm2).
    erewrite pool_step by exact Hun.
    destruct (new_page_idle b2 dm1 m Hinv2 Hid2 ltac:(rewrite Hpm2, Hr1; lia)) as (pid & y & b3 & dm3 & g & Hnp & Hfresh & Hpu & Hinv3 & Hheld3 & Ht3 & _).
    erewrite pool_step by exact Hnp.
    destruct (slotted_new_ok pid Hpu) as (Hwfn & Hcn & Hfn & _).
    destruct (place_ok _ dm m DP es b3 dm3 _ y g pid (slotted_new pid) d Hh Hinv3 Hheld3) as (slot & aft & b4 & m4 & Hins & Hw & Hu & Hh4 & Hns & _).
    + intros q Hq. by rewrite lookup_insert_ne.
    + intros q j [->|Hq]%Ht3; [by left|]. rewrite Ht2 in Hq. apply Hca1 in Hq as [->|Hq]; by right.
    + done.
    + right. exact (conj Hfresh Hcn).
    + rewrite Hfn. unfold INLINE_MAX in Hlen. plia.
    + rewrite Hins. erewrite lift_step by reflexivity. erewrite pool_step by exact Hw. erewrite pool_step by exact Hu.
      rewrite ft_modify_bind. eexists _, _, _, _, _, _, _. split_and!; [reflexivity|exact Hh4| |exact Hns].
      apply elem_of_union_l, elem_of_singleton. reflexivity.
  - destruct (place_ok _ dm m DP es b1 dm1 m x f _ (data f) d Hh Hinv1 Hheld) as (slot & aft & b4 & m4 & Hins & Hw & Hu & Hh4 & Hns & _);
      [done|done|done| |lia|].
    + left. split; [done|]. eauto.
    + rewrite Hins. erewrite pool_step by exact Hw. erewrite pool_step by exact Hu.
      eexists _, _, _, _, _, _, _. rewrite with_current_id. split_and!; [reflexivity|exact Hh4| |exact Hns]. set_solver.
Qed.
Lemma store_overflow_ok c dm m DP es raw :
  heap_inv (data_pool c) dm m DP es → current_data_page c ∈ DP → raw ≠ [] →
  Z.of_nat (length (chunks PAGE_USABLE_SPACE raw)) < ps_room (pm (data_pool c)) →
  ∃ ptr recs ids d b' cur dm' m' DP', store_overflow raw c = Some (Ok (ptr, recs), with_current cur (with_pool b' c)) ∧
    heap_inv b' dm' m' DP' es ∧ cur ∈ DP' ∧ ptr.1 ∈ DP' ∧ 0 ≤ ptr.2 < 65536 ∧ in_slot m' ptr d ∧ slot_holds m' (mkInfo ptr raw ids) d ∧
    (∀ k i, bt_get k es = Some i → in_ptr i ≠ ptr ∧ ∀ q, q ∈ ids → q ∉ in_ids i) ∧ (∀ q, q ∈ ids → q ∉ DP').
Proof.
  intros Hh Hcur Hne Hroom. pose proof Hh as [Hinv Hid Hent _ Hpg Hca _].
  destruct (write_overflow_ok _ dm raw (pi_store _ _ _ Hinv) Hne ltac:(lia))
    as (pid & ids & s & dm1 & Hw & Hs & _ & Hlids & Hnd & Hch & Hfresh & Hsame & Hr1).
  assert (Hm_fresh : ∀ q, q ∈ pid :: ids → m !! q = None).
  { intros q Hq. destruct (m !! q) as [e|] eqn:E; [|done]. destruct (proj2 (pi_dom _ _ _ Hinv q)) as [e' He']; [by rewrite E; eauto|].
    rewrite Hfresh in He' by done. done. }
  assert (HnDP : ∀ q, q ∈ pid :: ids → q ∉ DP).
  { intros q Hq HqD. destruct (Hpg q HqD) as (p & Hp & _). rewrite Hm_fresh in Hp by done. done. }
  assert (Hunc : ∀ q, q ∈ pid :: ids → page_table (data_pool c) !! q = None).
  { intros q Hq. destruct (page_table (data_pool c) !! q) eqn:E; [|done]. apply Hca in E. by destruct (HnDP q Hq). }
  set (m1 := behind (data_pool c) m dm1). set (b1 := with_pm s (data_pool c)).
  assert (Hkeep : ∀ q, is_Some (m !! q) → m1 !! q = m !! q).
  { intros q [e He]. apply (behind_same _ dm); [done|]. apply Hsame. intros Hq. rewrite Hm_fresh in He by done. done. }
  assert (Hinv1 : pool_inv b1 dm1 m1).
  { apply (pool_inv_behind _ dm); [done|done|]. intros q Hq. apply Hsame. intros Hq'. rewrite (Hunc q Hq') in Hq. by destruct Hq. }
  assert (Hh1 : heap_inv b1 dm1 m1 DP es).
  { eapply heap_change; [exact Hh|done| |done| |done| |].
    - destruct Hid. by constructor.
    - intros q Hq. destruct (Hpg q Hq) as (p & Hp & Hwf). exists p. rewrite Hkeep by eauto. done.
    - intros k i q Hk Hq. destruct (Hent k i Hk) as ((e & _ & Hsl) & _ & Hids). split; [|by apply Hids].
      apply Hkeep. by eapply ids_owned.
    - intros k i e _ (p & Hp & He). exists p. rewrite Hkeep by eauto. done. }
  assert (Hch1 : Overflow.chain m1 (pid :: ids) (chunks PAGE_USABLE_SPACE raw)) by (by apply (chain_disk b1 dm1)).
  assert (Hpu : is_u32 pid).
  { destruct (chain_owned _ _ _ pid Hch) as [e He]; [left|]. destruct (ps_owned _ _ _ _ Hs He). unfold is_u32. lia. }
  set (n := Z.of_nat (length raw) `mod` 4294967296).
  assert (Hnu : is_u32 n) by (unfold n, is_u32; pose proof (Z.mod_pos_bound (Z.of_nat (length raw)) 4294967296); lia).
  destruct (store_inline_ok (with_pool b1 c) dm1 m1 DP es (encode_overflow_ref pid n) Hh1 Hcur)
    as (ptr & recs & b' & cur & dm' & m' & DP' & Hrun & Hh' & Hcur' & [Hn1 Hn2 Hn3 Hn4 Hn5]).
  { unfold encode_overflow_ref. len. unfold INLINE_MAX. plia. }
  { cbn [data_pool with_pool b1 pm with_pm]. lia. }
  assert (Hrest : ∀ q, q ∈ pid :: ids → q ∉ DP' ∧ m' !! q = m1 !! q).
  { intros q Hq. apply Hn5; [by eapply chain_owned|by apply HnDP]. }
  exists ptr, recs, (pid :: ids), (encode_overflow_ref pid n), b', cur, dm', m', DP'. split_and!; try (done || lia).
  - unfold store_overflow. erewrite store_step by (unfold ft_lift; rewrite Hw; reflexivity). exact Hrun.
  - unfold slot_holds. cbn [in_ids in_raw]. exists n. split_and!; try done. eapply chain_mono; [|exact Hch1]. intros q Hq. by apply Hrest.
  - intros k i Hk. split; [by eapply Hn4|]. intros q Hq Hq'. destruct (Hent k i Hk) as ((e & _ & Hsl) & _ & _).
    destruct (ids_owned _ _ _ _ Hsl Hq') as [e' He']. rewrite Hm_fresh in He' by done. done.
  - intros q Hq. by apply Hrest.
Qed.
(** A document whose slot and chain are its own joins the heap. *)
Lemma heap_add b dm m DP es key i d :
  heap_inv b dm m DP es → bt_sorted es → bt_get key es = None → in_slot m (in_ptr i) d → slot_holds m i d → (in_ptr i).1 ∈ DP → 0 ≤ (in_ptr i).2 →
  (∀ q, q ∈ in_ids i → q ∉ DP) → (∀ k i', bt_get k es = Some i' → in_ptr i' ≠ in_ptr i ∧ ∀ q, q ∈ in_ids i → q ∉ in_ids i') →
  heap_inv b dm m DP (bt_insert key i es).
Proof.
  intros [Hp Hid Hent Hap Hpg Hca Hz] Hs Hnone Hin Hsl HDP Hslot Hids Hsep. constructor; [done|done| | |done|done|].
  - intros k i'. rewrite bt_get_insert by done. case_decide; [intros [= <-]|apply Hent]. eauto.
  - intros k k' i1 i2 Hne. rewrite !bt_get_insert by done. repeat case_decide; subst; try done.
    + intros [= <-] H2. destruct (Hsep _ _ H2) as [H3 H4]. split; [congruence|done].
    + intros H1 [= <-]. destruct (Hsep _ _ H1) as [H3 H4]. split; [done|]. intros q Hq Hq'. by apply (H4 q).
    + by apply Hap.
  - intros k i'. rewrite bt_get_insert by done. case_decide; [by intros [= <-]|apply Hz].
Qed.

Definition ptrs es : list (bytes * (Z * Z)) := map (prod_map id in_ptr) es.
Definition docs es : list (bytes * bytes) := map (prod_map id in_raw) es.

Record coll_inv c dm m DP es : Prop := {
  cv_heap : heap_inv (data_pool c) dm m DP es;
  cv_current : current_data_page c ∈ DP;
  cv_tree : bt_rep (btree c) (ptrs es);
}.

Definition coll_rep c (kv : list (bytes * bytes)) : Prop :=
  ∃ dm m DP es, coll_inv c dm m DP es ∧ kv = docs es.

(** Fuel for the descent and for the longest overflow chain. *)
Definition coll_fuel c (kv : list (bytes * bytes)) (fuel : nat) : Prop :=
  enough (btree c) fuel ∧ ∀ k raw, bt_get k kv = Some raw → (length (chunks PAGE_USABLE_SPACE raw) ≤ fuel)%nat.

Lemma coll_sorted c dm m DP es : coll_inv c dm m DP es → bt_sorted es.
Proof.
  intros Hc. apply (bt_sorted_map in_ptr). destruct (cv_tree _ _ _ _ _ Hc) as (m' & h & t & Hb & Heq & _). unfold ptrs in Heq.
  rewrite Heq. exact (proj1 (tree_kvs _ _ _ _ _ _ _ (bh_tree _ _ _ _ _ _ Hb))).
Qed.

(** The index once the entry of a stored document is added. *)
Lemma coll_add c dm m DP es key i d fuel :
  heap_inv (data_pool c) dm m DP es → current_data_page c ∈ DP → bt_rep (btree c) (ptrs es) → bt_sorted es →
  enough (btree c) fuel → can_grow (btree c) → length key = 16%nat → bt_get key es = None →
  in_slot m (in_ptr i) d → slot_holds m i d → (in_ptr i).1 ∈ DP → 0 ≤ (in_ptr i).2 < 65536 →
  (∀ q, q ∈ in_ids i → q ∉ DP) → (∀ k i', bt_get k es = Some i' → in_ptr i' ≠ in_ptr i ∧ ∀ q, q ∈ in_ids i → q ∉ in_ids i') →
  ∃ t, BTree.insert fuel key (in_ptr i).1 (in_ptr i).2 (btree c) = Some (Ok tt, t) ∧
    coll_inv (with_primary t c) dm m DP (bt_insert key i es).
Proof.
  intros Hh Hcur Hbt Hs Hf Hg Hk Hnone Hin Hsl HDP Hu Hids Hsep.
  assert (Hfit : entry_fits (config (bt_meta (btree c))) key (in_ptr i)).
  { split_and!; [done| |unfold is_u16; lia]. destruct (hi_pages _ _ _ _ _ Hh _ HDP) as (p & Hp & _).
    destruct (proj2 (pi_dom _ _ _ (hi_pool _ _ _ _ _ Hh) (in_ptr i).1)) as [e He]; [by rewrite Hp; eauto|].
    destruct (ps_owned _ _ _ _ (pi_store _ _ _ (hi_pool _ _ _ _ _ Hh)) He). unfold is_u32. lia. }
  pose proof (bt_insert_ok (btree c) (ptrs es) key (in_ptr i).1 (in_ptr i).2 fuel Hbt Hf Hg) as Hins.
  rewrite <- surjective_pairing in Hins. specialize (Hins Hfit). unfold ptrs in Hins at 1.
  change (@key_ord bytes uuid_key) with bytes_ord in Hins. rewrite bt_get_map, Hnone in Hins. cbn in Hins.
  destruct Hins as (t & Hrun & Hrep & _). exists t. split; [done|]. constructor; cbn [data_pool current_data_page btree with_primary].
  - eapply heap_add; (done || apply Hu).
  - done.
  - unfold ptrs in *. rewrite <- bt_insert_map. exact Hrep.
Qed.
(** The first step of every keyed operation. *)
Lemma search_step {B} c dm m DP es key fuel (k : option (Z * Z) → FT (Collection S) GrumpyError B) :
  coll_inv c dm m DP es → enough (btree c) fuel →
  (tree_call (BTree.search fuel key) ≫= k) c = k (in_ptr <$> bt_get key es) c.
Proof.
  intros Hc Hf. erewrite tree_step by (apply bt_search_ok; [apply (cv_tree _ _ _ _ _ Hc)|done]).
  rewrite with_primary_id. unfold ptrs. change (@key_ord bytes uuid_key) with bytes_ord. by rewrite bt_get_map.
Qed.

Lemma store_ok c dm m DP es raw :
  heap_inv (data_pool c) dm m DP es → current_data_page c ∈ DP → is_overflow raw = false →
  Z.of_nat (length (chunks PAGE_USABLE_SPACE raw)) < ps_room (pm (data_pool c)) →
  ∃ i recs d b' cur dm' m' DP',
    (if decide (INLINE_MAX < length raw)%nat then store_overflow raw else store_inline raw) c =
      Some (Ok (in_ptr i, recs), with_current cur (with_pool b' c)) ∧ in_raw i = raw ∧
    heap_inv b' dm' m' DP' es ∧ cur ∈ DP' ∧ (in_ptr i).1 ∈ DP' ∧ 0 ≤ (in_ptr i).2 < 65536 ∧
    in_slot m' (in_ptr i) d ∧ slot_holds m' i d ∧
    (∀ k i', bt_get k es = Some i' → in_ptr i' ≠ in_ptr i ∧ ∀ q, q ∈ in_ids i → q ∉ in_ids i') ∧ (∀ q, q ∈ in_ids i → q ∉ DP').
Proof.
  intros Hh Hcur Hov Hroom. case_decide as Hlen.
  - destruct (store_overflow_ok c dm m DP es raw Hh Hcur) as (ptr & recs & ids & d & b' & cur & dm' & m' & DP' & H);
      [intros ->; cbn in Hlen; lia|done|].
    exists (mkInfo ptr raw ids), recs, d, b', cur, dm', m', DP'. cbn [in_ptr in_raw in_ids].
    destruct H as (H1 & H2 & H3 & H4 & H5 & H6 & H7 & H8 & H9). split_and!; (done || apply H5).
  - destruct (store_inline_ok c dm m DP es raw Hh Hcur ltac:(lia) ltac:(lia))
      as (ptr & recs & b' & cur & dm' & m' & DP' & Hrun & Hh' & Hcur' & [Hn1 Hn2 Hn3 Hn4 Hn5]).
    exists (mkInfo ptr raw []), recs, raw, b', cur, dm', m', DP'. cbn [in_ptr in_raw in_ids].
    split_and!; try (done || apply Hn3).
    + intros k i' Hk. split; [by eapply Hn4|]. intros q Hq. by apply elem_of_nil in Hq.
    + intros q Hq. by apply elem_of_nil in Hq.
Qed.

Lemma insert_raw_ok c kv key raw fuel :
  coll_rep c kv → enough (btree c) fuel → can_grow (btree c) → length key = 16%nat → is_overflow raw = false →
  Z.of_nat (length (chunks PAGE_USABLE_SPACE raw)) < ps_room (pm (data_pool c)) →
  match bt_get key kv with
  | Some _ => insert_raw fuel key raw c = Some (Err (DuplicateKey key), c)
  | None => ∃ loc c', insert_raw fuel key raw c = Some (Ok loc, c') ∧ coll_rep c' (bt_insert key raw kv) ∧
      secondary_indexes c' = secondary_indexes c ∧ index_defs c' = index_defs c
  end.
Proof.
  intros (dm & m & DP & es & Hc & ->) Hf Hg Hk Hov Hroom. unfold docs at 1. rewrite bt_get_map. unfold insert_raw.
  rewrite (search_step c dm m DP es) by done. destruct (bt_get key es) as [i0|] eqn:Hget; cbn [fmap option_fmap option_map].
  { rewrite decide_True by eauto. done. }
  rewrite decide_False by (by intros [? ?]). pose proof Hc as [Hh Hcur Hbt].
  destruct (store_ok c dm m DP es raw Hh Hcur Hov Hroom)
    as (i & recs & d & b' & cur & dm' & m' & DP' & Hrun & <- & Hh' & Hcur' & H1 & H2 & H3 & H4 & H5 & H6).
  erewrite ft_step by exact Hrun. set (c1 := with_current cur (with_pool b' c)). cbn [fst].
  destruct (coll_add c1 dm' m' DP' es key i d fuel) as (t & Hins & Hc'); try done; [by eapply coll_sorted|].
  erewrite tree_step by exact Hins. eexists _, _. split_and!; [reflexivity| |done|done].
  exists dm', m', DP', (bt_insert key i es). split; [done|]. apply bt_insert_map.
Qed.

Lemma get_raw_ok c kv key fuel :
  coll_rep c kv → coll_fuel c kv fuel →
  ∃ c', get_raw fuel key c = Some (Ok (bt_get key kv), c') ∧ coll_rep c' kv ∧ btree c' = btree c ∧
    secondary_indexes c' = secondary_indexes c ∧ index_defs c' = index_defs c.
Proof.
  intros (dm & m & DP & es & Hc & ->) [Hf Hchain]. unfold get_raw. rewrite (search_step c dm m DP es) by done.
  unfold docs at 1 2. rewrite bt_get_map. destruct (bt_get key es) as [i|] eqn:Hget; cbn [fmap option_fmap option_map].
  2:{ exists c. split_and!; [done| |done..]. by exists dm, m, DP, es. }
  pose proof Hc as [Hh Hcur Hbt]. destruct (hi_entry _ _ _ _ _ Hh key i Hget) as ((d & _ & Hsl) & _).
  destruct (read_tuple_ok c dm m DP es key i fuel Hh Hget) as (b' & dm' & Hrun & Hh' & _).
  { etrans; [by eapply ids_length|]. apply (Hchain key). unfold docs. by rewrite bt_get_map, Hget. }
  destruct (in_ptr i) as [pid slot]. erewrite ft_step by exact Hrun. eexists. split_and!; [reflexivity| |done..].
  exists dm', m, DP, es. split; [|done]. by constructor.
Qed.
(** ** Deleting *)

Lemma heap_sub b dm m DP es key :
  heap_inv b dm m DP es → bt_sorted es → heap_inv b dm m DP (bt_remove key es).
Proof.
  intros [Hp Hid Hent Hap Hpg Hca Hz] Hs.
  assert (Hsub : ∀ k i, bt_get k (bt_remove key es) = Some i → bt_get k es = Some i).
  { intros k i. rewrite bt_get_remove by done. by case_decide. }
  constructor; eauto.
Qed.

(** Freeing the chain of a document, while its data page is pinned. *)
Lemma free_step c dm m DP i d x f pid fuel :
  pool_inv (data_pool c) dm m → held (data_pool c) x f pid → (∀ q j, page_table (data_pool c) !! q = Some j → q ∈ DP) →
  slot_holds m i d → (∀ q, q ∈ in_ids i → q ∉ DP) → (length (in_ids i) ≤ fuel)%nat →
  ∃ s dm' m', (if is_overflow d then
      r ← lift (ok_or (decode_overflow_ref d) (Corruption "malformed overflow ref"));
      store_call (free_overflow fuel r.1) else mret tt) c = Some (Ok tt, with_pool (with_pm s (data_pool c)) c) ∧
    pool_inv (with_pm s (data_pool c)) dm' m' ∧ ∀ q, q ∉ in_ids i → m' !! q = m !! q.
Proof.
  intros Hinv Hheld Hca Hsl Hids Hfuel. unfold slot_holds in Hsl. destruct (in_ids i) as [|p0 ids] eqn:Ei.
  { destruct Hsl as [-> _]. exists (pm (data_pool c)), dm, m. rewrite with_pm_id, with_pool_id. done. }
  destruct Hsl as (n & Hpu & Hnu & -> & Hnd & Hch). destruct (overflow_ref_ok p0 n Hpu Hnu) as [Hdec ->].
  apply (chain_disk (data_pool c) dm m) in Hch; [|done|].
  2:{ intros q Hq. destruct (page_table (data_pool c) !! q) eqn:E; [|done]. apply Hca in E. by destruct (Hids q Hq). }
  destruct (free_chain_ok _ _ _ _ fuel (pi_store _ _ _ Hinv) Hch Hnd Hfuel) as (s & dm' & Hrun & Hs & Hdm').
  cbn [head default] in Hrun. exists s, dm', (behind (data_pool c) m dm'). split_and!.
  - rewrite Hdec. erewrite lift_step by reflexivity. unfold store_call. by erewrite ft_zoom_ok by exact Hrun.
  - apply (pool_inv_behind _ dm); [done|done|]. intros q [j Hj]. rewrite Hdm', decide_False; [done|]. intros Hq.
    apply Hca in Hj. by destruct (Hids q Hq).
  - intros q Hq. apply (behind_same _ dm); [done|]. rewrite Hdm'. by rewrite decide_False.
Qed.

(** Clearing the slot of one document leaves the others. *)
Lemma clear_slot m m' p after ptr ptr' e :
  page_wf after → contents after = <[Z.to_nat ptr.2 := None]> (contents p) → m !! ptr.1 = Some p → m' !! ptr'.1 = m !! ptr'.1 →
  ptr' ≠ ptr → 0 ≤ ptr.2 → 0 ≤ ptr'.2 → in_slot m ptr' e → in_slot (<[ptr.1 := erase after]> m') ptr' e.
Proof.
  intros Hwf Hcont Hp Hm Hne Hz Hz' (p' & Hp' & He). destruct (decide (ptr'.1 = ptr.1)) as [Heq|Hpg].
  - exists (erase after). rewrite Heq, lookup_insert_eq. split; [done|]. rewrite (proj1 (proj2 (wf_erase _ Hwf))), Hcont.
    rewrite list_lookup_insert_ne; [congruence|]. intros Hs. apply Hne. destruct ptr, ptr'. cbn [fst snd] in *. f_equal; lia.
  - exists p'. rewrite lookup_insert_ne by done. by rewrite Hm.
Qed.
Lemma delete_heap_ok c dm m DP es key i fuel :
  coll_inv c dm m DP es → bt_get key es = Some i → (length (in_ids i) ≤ fuel)%nat → enough (btree c) fuel →
  ∃ b' dm' m', heap_inv b' dm' m' DP (bt_remove key es) ∧
    ∀ t, delete_key fuel key (btree c) = Some (Ok tt, t) →
      ∃ recs, delete_raw fuel key c = Some (Ok recs, with_primary t (with_pool b' c)).
Proof.
  intros Hc Hk Hfuel Hf. pose proof Hc as [Hh Hcur Hbt]. pose proof Hh as [Hinv Hid Hent Hap Hpg Hca Hz].
  destruct (Hent key i Hk) as ((d & (p & Hp & Hd) & Hsl) & HDP & Hids).
  destruct (fetch_idle _ dm m (in_ptr i).1 p Hinv Hid Hp) as (x & b1 & dm1 & f & Hrun & Hinv1 & Hheld & -> & Hlen & Ht1 & _).
  destruct (Hpg _ HDP) as (p' & Hp' & Hwf). assert (p' = erase (data f)) as -> by congruence.
  destruct (erase_wf _ Hlen Hwf) as (Hwf' & Hcont & _).
  assert (Hca1 : ∀ q j, page_table b1 !! q = Some j → q ∈ DP).
  { intros q j [->|Hq]%Ht1; [done|by eapply Hca]. }
  pose proof (delete_ok (data f) (Z.to_nat (in_ptr i).2) Hwf') as Hdel. rewrite Hcont, Hd in Hdel.
  destruct Hdel as (aft & Hdel & Hwfa & Hca' & _).
  destruct (free_step (with_pool b1 c) dm1 m DP i d x f (in_ptr i).1 fuel Hinv1 Hheld Hca1 Hsl Hids Hfuel)
    as (s & dm2 & m2 & Hfree & Hinv2 & Hm2). cbn [data_pool with_pool] in Hinv2, Hfree.
  assert (Hheld2 : held (with_pm s b1) x f (in_ptr i).1) by (destruct Hheld; by constructor).
  destruct (unpin_held _ dm2 m2 x f _ true aft Hinv2 Hheld2 (wf_length _ Hwfa) (or_introl eq_refl)) as (b3 & Hun & Hinv3 & Hid3 & Ht3 & _).
  pose proof (coll_sorted _ _ _ _ _ Hc) as Hs.
  exists b3, dm2, (<[(in_ptr i).1 := erase aft]> m2). split.
  - assert (Hpage : ∀ q, q ∈ DP → m2 !! q = m !! q) by (intros q Hq; apply Hm2; intros Hq'; by apply (Hids q)).
    eapply heap_change; [by apply (heap_sub _ dm m DP es key)|done|done|done| | | |].
    + intros q Hq. destruct (decide (q = (in_ptr i).1)) as [->|Hne].
      * rewrite lookup_insert_eq. exists (erase aft). split; [done|]. by apply wf_erase.
      * rewrite lookup_insert_ne by done. rewrite Hpage by done. by apply Hpg.
    + intros q j. rewrite Ht3. apply Hca1.
    + intros k i' q. rewrite bt_get_remove by done. case_decide as Hne; [done|]. intros Hk' Hq.
      destruct (Hent k i' Hk') as (_ & _ & Hids'). specialize (Hids' q Hq). split; [|done].
      rewrite lookup_insert_ne by congruence. apply Hm2. by apply (Hap k key i' i).
    + intros k i' e. rewrite bt_get_remove by done. case_decide as Hne; [done|]. intros Hk'.
      destruct (Hent k i' Hk') as (_ & HDP' & _).
      apply (clear_slot m m2 (erase (data f)) aft); [done|done|done|by apply Hpage|by apply (Hap k key)|by eapply Hz|by eapply Hz].
  - intros t Ht. unfold delete_raw. rewrite (search_step c dm m DP es) by done. rewrite Hk. cbn [fmap option_fmap option_map].
    destruct (in_ptr i) as [pid slot] eqn:Eptr. cbn [fst snd] in *. erewrite pool_step by exact Hrun. erewrite frame_step by apply Hheld.
    erewrite lift_step by (rewrite get_ok by done; cbn [fst]; rewrite Hcont, Hd; reflexivity).
    erewrite ft_step by exact Hfree. erewrite frame_step by apply Hheld. rewrite Hdel. erewrite lift_step by reflexivity.
    erewrite pool_step by (unfold write_frame; erewrite st_step by (apply get_frame_ok; apply Hheld2); reflexivity).
    erewrite pool_step by exact Hun. erewrite tree_step by exact Ht. eexists. reflexivity.
Qed.

Lemma delete_raw_ok c kv key fuel :
  coll_rep c kv → coll_fuel c kv fuel →
  match bt_get key kv with
  | None => delete_raw fuel key c = Some (Err (KeyNotFound key), c)
  | Some _ => ∃ recs c', delete_raw fuel key c = Some (Ok recs, c') ∧ coll_rep c' (bt_remove key kv) ∧
      secondary_indexes c' = secondary_indexes c ∧ index_defs c' = index_defs c
  end.
Proof.
  intros (dm & m & DP & es & Hc & ->) [Hf Hchain]. pose proof (Hchain key) as Hch. unfold docs in Hch |- * at 1.
  rewrite bt_get_map in *. destruct (bt_get key es) as [i|] eqn:Hget; cbn [fmap option_fmap option_map] in *.
  2:{ unfold delete_raw. rewrite (search_step c dm m DP es) by done. by rewrite Hget. }
  destruct (hi_entry _ _ _ _ _ (cv_heap _ _ _ _ _ Hc) key i Hget) as ((d & _ & Hsl) & _).
  destruct (delete_heap_ok c dm m DP es key i fuel Hc Hget) as (b' & dm' & m' & Hh & Hrun); [|done|].
  { etrans; [by eapply ids_length|]. by apply Hch. }
  pose proof (bt_delete_ok (btree c) (ptrs es) key fuel (cv_tree _ _ _ _ _ Hc) Hf) as Hdel. unfold ptrs in Hdel.
  change (@key_ord bytes uuid_key) with bytes_ord in Hdel. rewrite bt_get_map, Hget in Hdel. cbn in Hdel.
  destruct Hdel as (t & Ht & Hrep & _). destruct (Hrun t Ht) as (recs & Hrec). eexists _, _. split_and!; [exact Hrec| |done|done].
  exists dm', m', DP, (bt_remove key es). split; [|apply bt_remove_map]. constructor; [done|by apply (cv_current _ _ _ _ _ Hc)|].
  cbn [btree with_primary]. unfold ptrs. by rewrite <- bt_remove_map.
Qed.
(** ** Scanning *)

(** [RangeBounds::contains] *)
Definition in_bounds (lo hi : Bound bytes) (k : bytes) : bool :=
  match lo with Included s => kleb s k | Excluded s => kltb s k | Unbounded => true end && negb (past_end hi k).

Lemma past_end_mono hi k k' : klt k k' → past_end hi k = true → past_end hi k' = true.
Proof.
  intros Hlt. destruct hi as [e|e|]; cbn [past_end]; [| |done]; unfold kltb, kleb; intros Hp.
  - destruct (cmp e k) eqn:E; try done. by rewrite (cmp_trans e k k').
  - destruct (cmp e k) eqn:E; try done; [apply cmp_eq in E as ->; by rewrite Hlt|]. by rewrite (cmp_trans e k k').
Qed.

Lemma bounds_split lo hi k :
  in_range (bound_key lo) None k = true →
  in_bounds lo hi k = negb (excluded_start lo k) && negb (past_end hi k).
Proof.
  unfold in_range, in_bounds. rewrite andb_true_r. destruct lo as [s|s|]; cbn [bound_key excluded_start]; [by intros ->| |done].
  intros Hle. f_equal. unfold kleb, kltb in *. destruct (cmp s k) eqn:E; [| |done].
  - apply cmp_eq in E as ->. by rewrite bool_decide_true.
  - rewrite bool_decide_false; [done|]. intros ->. by rewrite cmp_refl in E.
Qed.

Lemma scan_entries_ok fuel lo hi l : ∀ c dm m DP es,
  heap_inv (data_pool c) dm m DP es → bt_sorted l → (∀ k i, (k, i) ∈ l → bt_get k es = Some i ∧ (length (in_ids i) ≤ fuel)%nat) →
  (∀ k i, (k, i) ∈ l → in_range (bound_key lo) None k = true) →
  ∃ b' dm', scan_entries fuel lo hi (ptrs l) c = Some (Ok (docs (filter (λ e, in_bounds lo hi e.1 = true) l)), with_pool b' c) ∧
    heap_inv b' dm' m DP es.
Proof.
  induction l as [|[k i] l IH]; intros c dm m DP es Hh Hs Hin Hr.
  { exists (data_pool c), dm. by rewrite with_pool_id. }
  destruct (Hin k i ltac:(left)) as [Hk Hfi]. pose proof (bounds_split lo hi k (Hr k i ltac:(left))) as Hb.
  apply bt_sorted_cons in Hs as [Hall Hs].
  assert (Hin' : ∀ k i, (k, i) ∈ l → bt_get k es = Some i ∧ (length (in_ids i) ≤ fuel)%nat) by (intros; apply Hin; by right).
  assert (Hr' : ∀ k i, (k, i) ∈ l → in_range (bound_key lo) None k = true) by (intros; eapply Hr; by right).
  change (ptrs ((k, i) :: l)) with ((k, in_ptr i) :: ptrs l). destruct (in_ptr i) as [pid slot] eqn:Ep. cbn [scan_entries].
  destruct (past_end hi k) eqn:Hpast.
  - exists (data_pool c), dm. rewrite with_pool_id. split; [|done]. rewrite filter_none; [done|].
    intros [k' i'] Hx. cbn [fst]. assert (Hp' : past_end hi k' = true).
    { apply elem_of_cons in Hx as [[= -> ->]|Hx]; [done|]. rewrite Forall_forall in Hall. apply (past_end_mono hi k); [|done]. by apply (Hall (k', i')). }
    unfold in_bounds. by rewrite Hp', andb_false_r.
  - rewrite filter_cons. cbn [fst]. rewrite Hb. destruct (excluded_start lo k).
    + rewrite decide_False by done. by apply (IH c dm).
    + rewrite decide_True by done. destruct (read_tuple_ok c dm m DP es k i fuel Hh Hk Hfi) as (b1 & dm1 & Hrun & Hh1 & _).
      rewrite Ep in Hrun. erewrite ft_step by exact Hrun.
      destruct (IH (with_pool b1 c) dm1 m DP es Hh1 Hs Hin' Hr') as (b2 & dm2 & Hrest & Hh2).
      erewrite ft_step by exact Hrest. exists b2, dm2. done.
Qed.

Lemma sum_list_elem {A} (f : A → nat) (l : list A) x : x ∈ l → (f x ≤ sum_list (f <$> l))%nat.
Proof. induction 1 as [x l|x y l _ IH]; rewrite fmap_cons; simpl; lia. Qed.

Lemma filter_map_key {V W} (f : V → W) (P : bytes → bool) (l : list (bytes * V)) :
  filter (λ e, P e.1 = true) (map (prod_map id f) l) = map (prod_map id f) (filter (λ e, P e.1 = true) l).
Proof.
  induction l as [|[k v] l IH]; [done|]. cbn [map prod_map]. unfold id at 1. rewrite !filter_cons. cbn [fst].
  case_decide; [by rewrite IH|done].
Qed.

Lemma scan_raw_ok c kv lo hi :
  coll_rep c kv → ∃ N, ∀ fuel, (N ≤ fuel)%nat →
    ∃ c', scan_raw fuel lo hi c = Some (Ok (filter (λ e, in_bounds lo hi e.1 = true) kv), c') ∧ coll_rep c' kv ∧
      secondary_indexes c' = secondary_indexes c.
Proof.
  intros (dm & m & DP & es & Hc & ->). pose proof Hc as [Hh Hcur Hbt]. pose proof (coll_sorted _ _ _ _ _ Hc) as Hs.
  destruct (btree_range_ok (btree c) (ptrs es) (bound_key lo) None Hbt) as [N HN].
  exists (N + sum_list (length ∘ in_ids ∘ snd <$> es))%nat. intros fuel Hf.
  set (l := filter (λ e, in_range (bound_key lo) None e.1 = true) es).
  destruct (scan_entries_ok fuel lo hi l c dm m DP es Hh) as (b' & dm' & Hrun & Hh').
  - apply StronglySorted_filter. done.
  - intros k i [_ Hin]%list_elem_of_filter. split; [by apply bt_get_elem|].
    pose proof (sum_list_elem (length ∘ in_ids ∘ snd) es (k, i) Hin) as Hle. cbn in Hle. lia.
  - intros k i [Hk _]%list_elem_of_filter. done.
  - exists (with_pool b' c). split.
    + unfold scan_raw. erewrite tree_step by (apply HN; lia). rewrite with_primary_id. unfold ptrs at 1.
      change (@key_ord bytes uuid_key) with bytes_ord. rewrite filter_map_key. fold l. unfold ptrs in Hrun. rewrite Hrun.
      do 3 f_equal. unfold docs. rewrite filter_map_key. f_equal. unfold l. rewrite list_filter_filter. apply list_filter_iff.
      intros [k i]. cbn [fst]. split; [by intros []|]. intros Hb. split; [done|]. revert Hb. unfold in_bounds, in_range. rewrite andb_true_r.
      rewrite andb_true_iff. intros [Hb _]. destruct lo; cbn [bound_key]; [done| |done]. unfold kltb, kleb in *. by destruct (cmp a k).
    + split; [|done]. exists dm', m, DP, es. split; [|done]. by constructor.
Qed.

(** ** Theorems *)

(** C37: A collection refines an ordered map from UUIDs to bytes: reading returns what the
    map holds and changes nothing, inserting adds the document or reports
    [DuplicateKey] and changes nothing, deleting removes it or reports [KeyNotFound] and
    changes nothing, wherever the document is kept (in a slot of the current page, of a
    new page, or in an overflow chain) and whatever the pool has to evict. *)
Theorem collection_crud c kv key raw fuel :
  coll_rep c kv → coll_fuel c kv fuel →
  (∃ c', get_raw fuel key c = Some (Ok (bt_get key kv), c') ∧ coll_rep c' kv) ∧
  match bt_get key kv with
  | None => delete_raw fuel key c = Some (Err (KeyNotFound key), c)
  | Some _ => ∃ recs c', delete_raw fuel key c = Some (Ok recs, c') ∧ coll_rep c' (bt_remove key kv)
  end ∧
  (can_grow (btree c) → length key = 16%nat → is_overflow raw = false →
   Z.of_nat (length (chunks PAGE_USABLE_SPACE raw)) < ps_room (pm (data_pool c)) →
   match bt_get key kv with
   | Some _ => insert_raw fuel key raw c = Some (Err (DuplicateKey key), c)
   | None => ∃ loc c', insert_raw fuel key raw c = Some (Ok loc, c') ∧ coll_rep c' (bt_insert key raw kv)
   end).
Proof.
  intros Hc Hf. split_and!.
  - destruct (get_raw_ok c kv key fuel Hc Hf) as (c' & ? & ? & _). eauto.
  - pose proof (delete_raw_ok c kv key fuel Hc Hf) as H. destruct (bt_get key kv); [|done]. naive_solver.
  - intros Hg Hk Hov Hroom. pose proof (insert_raw_ok c kv key raw fuel Hc (proj1 Hf) Hg Hk Hov Hroom) as H.
    destruct (bt_get key kv); [done|]. naive_solver.
Qed.

(** A range scan returns, in key order, exactly the documents whose key lies within the
    two bounds (included, excluded or open), with their bytes, and terminates. *)
Theorem collection_scan c kv lo hi :
  coll_rep c kv → ∃ N, ∀ fuel, (N ≤ fuel)%nat →
    ∃ c', scan_raw fuel lo hi c = Some (Ok (filter (λ e, in_bounds lo hi e.1 = true) kv), c') ∧ coll_rep c' kv.
Proof.
  intros Hc. destruct (scan_raw_ok c kv lo hi Hc) as [N HN]. exists N. intros fuel Hf. destruct (HN fuel Hf) as (c' & ? & ? & _). eauto.
Qed.
End heap.

(** ** A new collection *)

Section fresh.
Context {C : Crc32}.
#[local] Existing Instance uuid_key.
#[local] Existing Instance uuid_laws.

Lemma new_data_page_ok s dm :
  ps_rep s dm → 0 < ps_room s →
  ∃ pid s', new_data_page s = (Ok pid, s') ∧ is_u32 pid ∧ ps_rep s' (<[pid := stamp_checksum (slotted_new pid)]> dm) ∧
    dm !! pid = None ∧ ps_room s' = ps_room s - 1.
Proof.
  intros Hs Hr. destruct (ps_alloc_ok s dm Hs Hr) as (pid & s1 & d & Hal & _ & Hfresh & Hs1 & Hr1).
  assert (Hpu : is_u32 pid) by (destruct (ps_owned s1 _ pid d Hs1 (lookup_insert_eq _ _ _)); unfold is_u32; lia).
  destruct (slotted_new_ok pid Hpu) as (Hwf & _).
  destruct (ps_write_ok s1 _ pid d (slotted_new pid) Hs1 (lookup_insert_eq _ _ _) (wf_length _ Hwf)) as (s2 & Hw & Hs2 & Hr2).
  exists pid, s2. rewrite insert_insert_eq in Hs2. split_and!; [|exact Hpu|exact Hs2|exact Hfresh|lia].
  unfold new_data_page. erewrite st_step by exact Hal. erewrite st_step by exact Hw. reflexivity.
Qed.

(** An empty collection over pages [dm] of which [pid] is a slotted page. *)
Lemma empty_collection s dm pid (t : BTree bytes PageManager) name cap :
  ps_rep s (<[pid := stamp_checksum (slotted_new pid)]> dm) → is_u32 pid → bt_rep t [] → (0 < cap)%nat →
  coll_rep (mkCollection name (pool_new cap s) t pid [] []) [].
Proof.
  intros Hs Hpu Ht Hcap. destruct (slotted_new_ok pid Hpu) as (Hwf & _).
  exists (<[pid := stamp_checksum (slotted_new pid)]> dm), (erase <$> <[pid := stamp_checksum (slotted_new pid)]> dm), {[pid]}, [].
  split; [|reflexivity]. constructor; [|apply elem_of_singleton; reflexivity|exact Ht]. cbn [data_pool]. constructor.
  - by apply pool_new_inv.
  - constructor; cbn [frames pool_new].
    + destruct cap; [lia|discriminate].
    + intros i f [-> _]%lookup_replicate. reflexivity.
  - intros k i Hk. discriminate Hk.
  - intros k k' i i' _ Hk. discriminate Hk.
  - intros q ->%elem_of_singleton. exists (erase (slotted_new pid)). split; [|by apply wf_erase].
    rewrite lookup_fmap, lookup_insert_eq. cbn [fmap option_fmap option_map]. rewrite erase_stamp by apply Hwf. reflexivity.
  - intros q j Hq. cbn [page_table pool_new] in Hq. rewrite lookup_empty in Hq. discriminate Hq.
  - intros k i Hk. discriminate Hk.
Qed.

Lemma coll_open_fresh name cap :
  (0 < cap)%nat →
  ∃ c, coll_open None None name cap = Ok c ∧ coll_rep c [] ∧ enough (btree c) 1 ∧ can_grow (btree c) ∧
    ps_room (pm (data_pool c)) = 4294967293 ∧ secondary_indexes c = [] ∧ index_defs c = [].
Proof.
  intros Hcap. destruct pm_new_ok as (Hrep & Hn & Hf).
  assert (Hroom : ps_room (pm_new None) = 4294967294).
  { cbn [ps_room PageManager_store]. unfold pm_room. rewrite Hn, Hf. reflexivity. }
  destruct (create_ok (HL:=uuid_laws) (PS:=PageManager_store) tt (pm_new None) Hrep ltac:(rewrite Hroom; lia) I) as (t & Hc & Ht & Hh & _ & Hr).
  destruct (new_data_page_ok (pm_new None) ∅ Hrep ltac:(rewrite Hroom; lia)) as (pid & s & Hnew & Hpu & Hs & _ & Hr2).
  exists (mkCollection name (pool_new cap s) t pid [] []). split_and!.
  - unfold coll_open. cbn [file_exists]. rewrite Hc. cbn [mbind outcome_bind]. rewrite Hnew. reflexivity.
  - by apply (empty_collection s ∅).
  - unfold enough. cbn [btree]. lia.
  - constructor; cbn [btree]; rewrite ?Hh, ?Hr, ?Hroom; [lia|unfold u32_max; lia|].
    destruct Ht as (m & h & t' & Hb & _). rewrite (bh_meta _ _ _ _ _ _ Hb). cbn. unfold u64_max. lia.
  - cbn [data_pool pm pool_new]. rewrite Hr2, Hroom. reflexivity.
  - reflexivity.
  - reflexivity.
Qed.
End fresh.

Lemma collection_crud_witness :
  let C := crc32_ieee in
  ∃ (c : Collection PageManager) loc c', coll_open None None (str "docs") 4 = Ok c ∧
    insert_raw 1 (demo_key x01) (str "hello") c = Some (Ok loc, c') ∧ coll_rep c' [(demo_key x01, str "hello")].
Proof.
  intros C. destruct (coll_open_fresh (str "docs") 4 ltac:(lia)) as (c & Hopen & Hrep & Hf & Hg & Hr & _).
  destruct (collection_crud c [] (demo_key x01) (str "hello") 1 Hrep) as (_ & _ & Hins); [split; [exact Hf|discriminate]|].
  destruct (Hins Hg) as (loc & c' & Hrun & Hrep'); [reflexivity|reflexivity|rewrite Hr; reflexivity|].
  exists c, loc, c'. exact (conj Hopen (conj Hrun Hrep')).
Defined.

Lemma collection_scan_witness :
  let C := crc32_ieee in
  ∃ (c : Collection PageManager) N, coll_open None None (str "docs") 4 = Ok c ∧ ∀ fuel, (N ≤ fuel)%nat →
    ∃ c', scan_raw fuel Unbounded (Excluded (demo_key x05)) c = Some (Ok [], c').
Proof.
  intros C. destruct (coll_open_fresh (str "docs") 4 ltac:(lia)) as (c & Hopen & Hrep & _).
  destruct (collection_scan c [] Unbounded (Excluded (demo_key x05)) Hrep) as (N & HN). exists c, N. split; [exact Hopen|].
  intros fuel Hfuel. destruct (HN fuel Hfuel) as (c' & Hrun & _). exists c'. exact Hrun.
Defined.

(** Creating an index in a file that already holds one puts its meta page elsewhere than
    where [open_tree] looks for it. *)
Lemma leftover_index_not_opened {C : Crc32} {S : Type} {PS : PageStore C S} (s : S) m (t : @BTree bytes S uuid_key) :
  ps_rep s m → is_Some (m !! META_PAGE_ID) → 0 < ps_room s → create (HK := uuid_key) tt s = Ok t → meta_page_id t ≠ META_PAGE_ID.
Proof.
  intros Hs [d Hd] Hr Hc. destruct (ps_alloc_ok s m Hs Hr) as (pid & s1 & e & Hal & _ & Hfresh & _).
  assert (Hid : meta_page_id t = pid).
  { unfold create in Hc. destruct (create_with _ s) as [[[md mid]|e'|] s'] eqn:E; try done. injection Hc as <-. cbn [meta_page_id].
    unfold create_with in E. erewrite st_step in E by exact Hal. inv_ok. done. }
  intros Heq. congruence.
Qed.
