(* ===== verification/CollectionIndex.v ===== *)
(** * Documents and secondary indexes of a collection (src/src/collection/mod.rs)

    [coll_indexed c kv]: the collection holds the encoded documents [kv], each of which
    decodes, and every secondary index holds exactly the pairs of a UUID and the value
    its document has at the field path of the index, when that value can be indexed.  [insert_doc] and [delete_doc] keep
    it, and [query_index] is exact. *)

From stdpp Require Import gmap.
From S2P Require Import Prelude RustStd Value Codec Page Slotted PageManager Overflow BTreeNode BTree BTreeShape BTreeInsert BTreeSpec BTreeDelete BTreeCursor Index BufferPool Collection CollectionSpec.

Local Open Scope Z_scope.

(** The document a UUID has. *)
Definition doc_of (kv : list (bytes * bytes)) (u : bytes) : option Value :=
  raw ← bt_get u kv;
  match doc_decode raw with Ok doc => Some (value doc) | _ => None end.

Section indexed.
Context {C : Crc32} {S : Type} {PS : PageStore C S}.
#[local] Existing Instance uuid_key.
#[local] Existing Instance uuid_laws.
Implicit Types (c : Collection S) (kv : list (bytes * bytes)) (idx : SecondaryIndex S).

Definition indexes kv idx : Prop :=
  ∃ pairs, si_rep idx pairs ∧
    ∀ u v, (u, v) ∈ pairs ↔ ∃ w, doc_of kv u = Some w ∧ extract_field w (si_field_path idx) = Some v ∧ field_ok v.

Record coll_indexed c kv : Prop := {
  ix_rep : coll_rep c kv;
  ix_decode : ∀ u raw, bt_get u kv = Some raw → ∃ doc, doc_decode raw = Ok doc;
  ix_indexes : Forall (indexes kv) (secondary_indexes c);
}.

(** The definition of an index. *)
Definition def_of idx : bytes * bytes := (si_name idx, si_field_path idx).

(** ** Queries *)

Lemma coll_fuel_exists c kv : ∃ N, ∀ fuel, (N ≤ fuel)%nat → coll_fuel c kv fuel.
Proof.
  exists (Z.to_nat (height (bt_meta (btree c))) + sum_list ((λ e, length (chunks PAGE_USABLE_SPACE e.2)) <$> kv))%nat. intros fuel Hf. split.
  - unfold enough. lia.
  - intros k raw Hk. assert (Hin : (k, raw) ∈ kv).
    { clear Hf. revert Hk. induction kv as [|[k' r] l IH]; [done|]. cbn [bt_get]. destruct (cmp k k') eqn:E; [|done|].
      - apply cmp_eq in E as ->. intros [= ->]. by left.
      - intros Hk. right. auto. }
    pose proof (sum_list_elem (λ e, length (chunks PAGE_USABLE_SPACE e.2)) kv (k, raw) Hin) as Hle. cbn [snd] in Hle. lia.
Qed.

Definition with_docs kv (us : list bytes) : list (bytes * Value) := omap (λ u, pair u <$> doc_of kv u) us.

Lemma fetch_docs_ok kv fuel us : ∀ c,
  coll_indexed c kv → coll_fuel c kv fuel →
  ∃ c', fetch_docs fuel us c = Some (Ok (with_docs kv us), c') ∧ coll_indexed c' kv ∧
    secondary_indexes c' = secondary_indexes c ∧ index_defs c' = index_defs c.
Proof.
  induction us as [|u us IH]; intros c Hc Hf; [by exists c|]. pose proof Hc as [Hrep Hdec Hidx].
  destruct (get_raw_ok c kv u fuel Hrep Hf) as (c1 & Hrun & Hrep1 & Hbt & Hsi & Hdf).
  assert (Hc1 : coll_indexed c1 kv) by (constructor; [done|done|by rewrite Hsi]).
  destruct (IH c1 Hc1) as (c2 & Hrest & Hc2 & Hs2 & Hd2); [split; [unfold enough in *; rewrite Hbt|]; apply Hf|].
  exists c2. split; [|split_and!; congruence || done]. cbn [fetch_docs]. erewrite ft_step by exact Hrun.
  unfold with_docs. cbn [omap list_omap]. unfold doc_of at 1. destruct (bt_get u kv) as [raw|] eqn:Hu; [|exact Hrest].
  destruct (Hdec u raw Hu) as (doc & Hd). erewrite lift_step by exact Hd. erewrite ft_step by exact Hrest.
  cbn [mbind option_bind]. by rewrite Hd.
Qed.

Lemma query_index_ok c kv name pos idx v :
  coll_indexed c kv → list_find (λ i, si_name i = name) (secondary_indexes c) = Some (pos, idx) → fixed_width v →
  ∃ results N, (∀ u w, (u, w) ∈ results ↔ doc_of kv u = Some w ∧ extract_field w (si_field_path idx) = Some v) ∧
    ∀ fuel, (N ≤ fuel)%nat → ∃ c', query_index fuel name v c = Some (Ok results, c') ∧ coll_indexed c' kv.
Proof.
  intros Hc Hfind Hv. pose proof Hc as [Hrep Hdec Hidx]. apply list_find_Some in Hfind as Hat. destruct Hat as (Hpos & Hname & _).
  rewrite Forall_lookup in Hidx. destruct (Hidx pos idx Hpos) as (pairs & Hsi & Hpairs).
  destruct (index_lookup_ok idx pairs v Hsi Hv) as (us & N1 & Hrun & Hus). destruct (coll_fuel_exists c kv) as (N2 & HN2).
  exists (with_docs kv us), (N1 + N2)%nat. split.
  - intros u w. unfold with_docs. rewrite list_elem_of_omap. split.
    + intros (u' & Hu' & Hw). destruct (doc_of kv u') as [w'|] eqn:Hd; [|done]. injection Hw as -> ->. split; [done|].
      apply Hus, Hpairs in Hu' as (w' & Hw' & Hx & _). congruence.
    + intros [Hd Hx]. exists u. split; [|by rewrite Hd]. apply Hus, Hpairs. exists w. split_and!; [done|done|by destruct v].
  - intros fuel Hf. destruct (fetch_docs_ok kv fuel us c Hc (HN2 fuel ltac:(lia))) as (c' & Hfetch & Hc' & _). exists c'. split; [|done].
    unfold query_index, with_index. erewrite ft_step; [exact Hfetch|]. rewrite ft_get_bind. erewrite lift_step by (rewrite Hfind; reflexivity).
    cbn [fst snd]. unfold at_index. erewrite ft_zoom_ok by (apply Hrun; lia). rewrite list_insert_id by done. by destruct c.
Qed.
(** ** Maintenance *)

Lemma composite_suffix v v' u u' k :
  encode_composite_key v u = Ok k → encode_composite_key v' u' = Ok k → length u = 16%nat → length u' = 16%nat → u = u'.
Proof.
  unfold encode_composite_key. destruct (encode_sortable_value v), (encode_sortable_value v'); try done. cbn. intros [= <-] [= He] Hu Hu'.
  apply app_inj_2 in He; [by destruct He|lia].
Qed.

Lemma composite_some v u : field_ok v → ∃ k, encode_composite_key v u = Ok k.
Proof. destruct v; try done; intros _; eexists; reflexivity. Qed.

(** What an index needs to take the document [w]: room, and no reference to a
    collection with a name of 128 bytes or more, whose key is too long for the nodes of
    the index ([long_ref_panics]; collections have names of at most 64 bytes). *)
Definition index_takes (fuel : nat) (w : Value) idx : Prop :=
  enough (si_btree idx) fuel ∧ can_grow (si_btree idx) ∧
  ∀ name u, extract_field w (si_field_path idx) = Some (VRef name u) → (length name < MAX_INDEXED_LEN)%nat.

Lemma composite_fits v u k :
  field_ok v → length u = 16%nat → encode_composite_key v u = Ok k →
  (∀ name u', v = VRef name u' → (length name < MAX_INDEXED_LEN)%nat) → Z.of_nat (length k) ≤ INDEX_MAX_KEY_SIZE.
Proof.
  intros Hv Hu Hk Hr. unfold INDEX_MAX_KEY_SIZE, MAX_INDEXED_LEN in *. destruct v as [|b|i|f0|s|s| | |name u'| |]; try done;
    unfold encode_composite_key in Hk; cbn [encode_sortable_value mbind outcome_bind] in Hk; injection Hk as <-;
    cbn [app length]; rewrite ?length_app; rewrite ?length_to_be, ?length_take; unfold MAX_INDEXED_LEN in *; try lia.
  specialize (Hr _ _ eq_refl). cbn [field_ok] in Hv. lia.
Qed.

(** A value that cannot be indexed is one the encoding refuses. *)
Lemma field_of_rust w path v : rust_value w = true → extract_field w path = Some v → rust_value v = true.
Proof.
  unfold extract_field. generalize (split_dots path). intros parts. revert w. induction parts as [|p parts IH]; intros w Hw; cbn [walk_path].
  { by intros [= <-]. }
  destruct w as [| | | | | | |m| | |]; try done. destruct (bt_get p m) as [x|] eqn:Hp; [|done]. cbn [mbind option_bind]. apply IH.
  cbn [rust_value] in Hw. apply andb_true_iff in Hw as [_ Hw]. rewrite forallb_forall in Hw.
  assert (Hin : (p, x) ∈ m).
  { clear -Hp. revert Hp. induction m as [|[k y] m IH]; [done|]. cbn [bt_get]. destruct (cmp p k) eqn:E; [|done|].
    - apply cmp_eq in E as ->. intros [= ->]. by left.
    - intros Hk. right. auto. }
  apply list_elem_of_In, Hw, andb_true_iff in Hin as [_ ?]. done.
Qed.

Lemma not_indexable v u : rust_value v = true → field_ok v ∨ encode_composite_key v u = Err NotIndexable.
Proof.
  destruct v; cbn [rust_value field_ok]; intros Hv; try (by left); try (by right); left.
  - by apply i64b_spec.
  - by apply u64b_spec.
  - apply andb_true_iff in Hv as [_ Hv]. by apply Nat.eqb_eq.
Qed.

(** A document whose field is absent or cannot be indexed leaves the index alone. *)
Lemma indexes_skip kv idx u raw doc :
  bt_sorted kv → bt_get u kv = None → doc_decode raw = Ok doc → indexes kv idx →
  (∀ v, extract_field (value doc) (si_field_path idx) = Some v → ¬ field_ok v) → indexes (bt_insert u raw kv) idx.
Proof.
  intros Hs Hnew Hd (pairs & Hsi & Hpairs) Hx. exists pairs. split; [done|]. intros u' v'. rewrite Hpairs.
  unfold doc_of at 2. rewrite bt_get_insert by done. destruct (decide (u' = u)) as [->|]; [|done]. cbn [mbind option_bind]. rewrite Hd.
  unfold doc_of. rewrite Hnew. split; [by intros (w & ? & _)|]. intros (w & [= <-] & Hxw & Hv). by destruct (Hx v').
Qed.

Lemma index_insert kv idx fuel u raw doc :
  bt_sorted kv → bt_get u kv = None → length u = 16%nat → doc_decode raw = Ok doc → rust_value (value doc) = true →
  indexes kv idx → index_takes fuel (value doc) idx →
  ∃ r idx', index_document fuel u (value doc) idx = Some (r, idx') ∧ r ≠ Panic ∧ indexes (bt_insert u raw kv) idx' ∧ def_of idx' = def_of idx.
Proof.
  intros Hs Hnew Hu Hd Hr Hix (Hf & Hg & Hfit). pose proof Hix as (pairs & Hsi & Hpairs).
  destruct (extract_field (value doc) (si_field_path idx)) as [v|] eqn:Hx.
  2:{ exists (Ok tt), idx. split; [unfold index_document; rewrite ft_get_bind; by rewrite Hx|]. split_and!; [done| |done].
      apply (indexes_skip kv idx u raw doc); [done..|]. congruence. }
  destruct (not_indexable v u (field_of_rust _ _ _ Hr Hx)) as [Hv|He].
  2:{ exists (Err NotIndexable), idx. split.
      { unfold index_document. rewrite ft_get_bind, Hx. by erewrite ft_step_err by (unfold ft_lift, st_lift; rewrite He; reflexivity). }
      split_and!; [done| |done]. apply (indexes_skip kv idx u raw doc); [done..|]. intros v' Hv' Hok.
      assert (v' = v) as -> by congruence. destruct (composite_some v u Hok) as (k & Hk). congruence. }
  destruct (composite_some v u Hv) as (k & Hk).
  assert (Hno : ∀ w, (u, w) ∉ pairs).
  { intros w (w' & Hw & _)%Hpairs. unfold doc_of in Hw. by rewrite Hnew in Hw. }
  assert (Hlen : Z.of_nat (length k) ≤ INDEX_MAX_KEY_SIZE).
  { apply (composite_fits v u k Hv Hu Hk). intros name u' ->. by eapply Hfit. }
  destruct (index_document_ok idx pairs u (value doc) v k fuel) as (idx' & Hrun & Hsi' & Hdef); eauto.
  { intros u' v' Hin Hk'. destruct (sr_pairs _ _ Hsi u' v' Hin) as [Hu' _]. rewrite (composite_suffix _ _ _ _ _ Hk Hk' Hu Hu') in Hno.
    by destruct (Hno v'). }
  pose proof (f_equal snd Hdef) as Hpath. cbn [snd] in Hpath.
  exists (Ok tt), idx'. split_and!; [done|done| |done]. exists ((u, v) :: pairs). split; [done|]. intros u' v'. rewrite elem_of_cons, Hpairs, Hpath.
  unfold doc_of at 2. rewrite bt_get_insert by done. destruct (decide (u' = u)) as [->|Hne]; cbn [mbind option_bind].
  - rewrite Hd. unfold doc_of. rewrite Hnew. split.
    + intros [[= ->]|(w & Hw & _)]; [by eauto|done].
    + intros (w & [= <-] & Hxw & _). left. congruence.
  - split; [intros [[= -> ->]|H]; done|by right].
Qed.

Lemma index_delete kv idx fuel u w :
  bt_sorted kv → doc_of kv u = Some w → length u = 16%nat → indexes kv idx → enough (si_btree idx) fuel →
  ∃ r idx', unindex_document fuel u w idx = Some (r, idx') ∧ r ≠ Panic ∧ indexes (bt_remove u kv) idx' ∧ def_of idx' = def_of idx.
Proof.
  intros Hs Hw Hu (pairs & Hsi & Hpairs) Hf.
  assert (Hdoc : ∀ u', doc_of (bt_remove u kv) u' = if decide (u' = u) then None else doc_of kv u').
  { intros u'. unfold doc_of. rewrite bt_get_remove by done. by case_decide. }
  assert (Hskip : (∀ v, extract_field w (si_field_path idx) = Some v → ¬ field_ok v) → indexes (bt_remove u kv) idx).
  { intros Hx. exists pairs. split; [done|]. intros u' v'. rewrite Hpairs, Hdoc. case_decide; [subst; split|done]; [|by intros (? & ? & _)].
    intros (w' & Hw' & Hx' & Hv'). destruct (Hx v'); [congruence|done]. }
  destruct (extract_field w (si_field_path idx)) as [v|] eqn:Hx.
  2:{ exists (Ok tt), idx. split; [unfold unindex_document; rewrite ft_get_bind; by rewrite Hx|]. split_and!; [done|by apply Hskip|done]. }
  destruct (encode_composite_key v u) as [k|err|] eqn:Hk.
  - destruct (unindex_document_ok idx pairs u w v k fuel) as (idx' & Hrun & Hsi' & Hdef); eauto.
    pose proof (f_equal snd Hdef) as Hpath. cbn [snd] in Hpath.
    exists (Ok tt), idx'. split_and!; [done|done| |done]. eexists. split; [exact Hsi'|]. intros u' v'. rewrite list_elem_of_filter, Hpairs, Hpath, Hdoc. cbn [fst snd].
    case_decide as Hne; [subst; split|].
    + intros (Hk' & w' & Hw' & Hx' & _). congruence.
    + by intros (w' & ? & _).
    + split; [by intros [_ ?]|]. intros Hex. split; [|done]. intros Hk'. apply Hne. apply Hpairs in Hex.
      destruct (sr_pairs _ _ Hsi u' v' Hex) as [Hu' _]. by apply (composite_suffix v' v _ _ k).
  - exists (Err err), idx. split_and!; [|done| |done].
    + unfold unindex_document. rewrite ft_get_bind, Hx. by erewrite ft_step_err by (unfold ft_lift, st_lift; rewrite Hk; reflexivity).
    + apply Hskip. intros v' [= <-] Hv. destruct (composite_some v u Hv) as (k & Hk'). congruence.
  - unfold encode_composite_key in Hk. destruct v; discriminate Hk.
Qed.

Lemma for_each_ok (call : FT (SecondaryIndex S) GrumpyError unit) (P : SecondaryIndex S → Prop) l :
  Forall (λ i, ∃ r i', call i = Some (r, i') ∧ r ≠ Panic ∧ P i' ∧ def_of i' = def_of i) l →
  ∃ l', for_each_index call l = Some (Ok tt, l') ∧ Forall P l' ∧ def_of <$> l' = def_of <$> l.
Proof.
  induction 1 as [|i l (r & i' & Hrun & Hr & Hp & Hd) _ (l' & IH & Hl' & Hdl)]; [by exists []|]. exists (i' :: l').
  split_and!; [|by constructor|rewrite !fmap_cons; congruence]. cbn [for_each_index]. unfold ft_ignore. rewrite Hrun. by destruct r; rewrite ?IH.
Qed.

Lemma coll_rep_sorted c kv : coll_rep c kv → bt_sorted kv.
Proof. intros (dm & m & DP & es & Hc & ->). apply bt_sorted_map. by eapply coll_sorted. Qed.

Lemma with_indexes_rep c kv l : coll_rep c kv → coll_rep (with_indexes l c) kv.
Proof. intros (dm & m & DP & es & [Hh Hcur Hbt] & ->). exists dm, m, DP, es. split; [|done]. by constructor. Qed.

Lemma insert_doc_ok c kv u raw doc fuel :
  coll_indexed c kv → enough (btree c) fuel → can_grow (btree c) → length u = 16%nat → is_overflow raw = false → doc_decode raw = Ok doc →
  rust_value (value doc) = true → Z.of_nat (length (chunks PAGE_USABLE_SPACE raw)) < ps_room (pm (data_pool c)) →
  Forall (index_takes fuel (value doc)) (secondary_indexes c) →
  match bt_get u kv with
  | Some _ => insert_doc fuel u (value doc) raw c = Some (Err (DuplicateKey u), c)
  | None => ∃ loc c', insert_doc fuel u (value doc) raw c = Some (Ok loc, c') ∧ coll_indexed c' (bt_insert u raw kv) ∧
      def_of <$> secondary_indexes c' = def_of <$> secondary_indexes c
  end.
Proof.
  intros [Hrep Hdec Hidx] Hf Hg Hu Hov Hd Hrv Hroom Htakes. pose proof (insert_raw_ok c kv u raw fuel Hrep Hf Hg Hu Hov Hroom) as Hins.
  pose proof (coll_rep_sorted c kv Hrep) as Hs. unfold insert_doc. destruct (bt_get u kv) eqn:Hget; [by erewrite ft_step_err by exact Hins|].
  destruct Hins as (loc & c1 & Hrun & Hrep1 & Hsi & _). erewrite ft_step by exact Hrun.
  destruct (for_each_ok (index_document fuel u (value doc)) (indexes (bt_insert u raw kv)) (secondary_indexes c)) as (l' & Hl & Hall & Hdefs).
  { rewrite Forall_forall in *. intros idx Hin. apply index_insert; auto. }
  exists loc, (with_indexes l' c1). split.
  - erewrite ft_step; [reflexivity|]. apply ft_zoom_ok. by rewrite Hsi.
  - split; [|exact Hdefs]. constructor; [by apply with_indexes_rep| |done]. intros k r. rewrite bt_get_insert by done. case_decide; [intros [= <-]; eauto|apply Hdec].
Qed.

Lemma doc_of_insert kv u v u' :
  bt_sorted kv → length u = 16%nat → rust_value v = true → codec_limits v = true → (nesting v ≤ MAX_NESTING_DEPTH)%nat →
  doc_of (bt_insert u (doc_encode (mkDocument u v)) kv) u' = if decide (u' = u) then Some v else doc_of kv u'.
Proof.
  intros Hs Hu Hr Hl Hn. unfold doc_of. rewrite bt_get_insert by done. case_decide; [|done]. cbn [mbind option_bind].
  by rewrite <- (app_nil_r (doc_encode _)), doc_decode_encode_rest.
Qed.

(** Inserting the encoding of a value the codec can take. *)
Lemma insert_value_ok c kv u v fuel :
  let raw := doc_encode (mkDocument u v) in
  coll_indexed c kv → enough (btree c) fuel → length u = 16%nat →
  rust_value v = true → codec_limits v = true → (nesting v ≤ MAX_NESTING_DEPTH)%nat → can_grow (btree c) →
  Z.of_nat (length (chunks PAGE_USABLE_SPACE raw)) < ps_room (pm (data_pool c)) →
  Forall (index_takes fuel v) (secondary_indexes c) →
  match bt_get u kv with
  | Some _ => insert_doc fuel u v raw c = Some (Err (DuplicateKey u), c)
  | None => ∃ loc c', insert_doc fuel u v raw c = Some (Ok loc, c') ∧ coll_indexed c' (bt_insert u raw kv) ∧
      def_of <$> secondary_indexes c' = def_of <$> secondary_indexes c
  end.
Proof.
  intros raw Hc Hf Hu Hr Hl Hn Hg Hroom Htakes.
  assert (Hdec : doc_decode raw = Ok (mkDocument u v)) by (rewrite <- (app_nil_r raw); by apply doc_decode_encode_rest).
  assert (Hov : is_overflow raw = false).
  { unfold is_overflow. destruct raw as [|x l] eqn:E; [done|]. rewrite <- E. apply andb_false_iff. right. apply Nat.eqb_neq.
    unfold raw, doc_encode, encode. rewrite length_app. cbn [key]. unfold OVERFLOW_REF_SIZE. lia. }
  exact (insert_doc_ok c kv u raw (mkDocument u v) fuel Hc Hf Hg Hu Hov Hdec Hr Hroom Htakes).
Qed.

Lemma delete_doc_ok c kv u w fuel :
  coll_indexed c kv → coll_fuel c kv fuel → length u = 16%nat → doc_of kv u = Some w →
  Forall (λ idx, enough (si_btree idx) fuel) (secondary_indexes c) →
  ∃ recs c', delete_doc fuel u w c = Some (Ok recs, c') ∧ coll_indexed c' (bt_remove u kv) ∧
    def_of <$> secondary_indexes c' = def_of <$> secondary_indexes c.
Proof.
  intros [Hrep Hdec Hidx] Hf Hu Hw Hen. pose proof (coll_rep_sorted c kv Hrep) as Hs.
  destruct (for_each_ok (unindex_document fuel u w) (indexes (bt_remove u kv)) (secondary_indexes c)) as (l' & Hl & Hall & Hdefs).
  { rewrite Forall_forall in *. intros idx Hin. apply index_delete; auto. }
  pose proof (delete_raw_ok (with_indexes l' c) kv u fuel (with_indexes_rep c kv l' Hrep) Hf) as Hdel.
  unfold doc_of in Hw. destruct (bt_get u kv); [|done]. destruct Hdel as (recs & c' & Hrun & Hrep' & Hsi & _).
  exists recs, c'. split.
  - unfold delete_doc. erewrite ft_step; [exact Hrun|]. by apply ft_zoom_ok.
  - split; [|by rewrite Hsi]. constructor; [done| |by rewrite Hsi]. intros k r. rewrite bt_get_remove by done. case_decide; [done|apply Hdec].
Qed.
(** The first index of an empty collection. *)
Lemma create_index_empty c name field_path s idx :
  coll_rep c [] → index_defs c = [] → secondary_indexes c = [] → index_create name field_path s = Ok idx → indexes [] idx →
  let c' := with_defs [(name, field_path)] (with_indexes [idx] c) in
  coll_indexed c' [] ∧ ∃ N, ∀ fuel, (N ≤ fuel)%nat → create_index fuel name field_path s c = Some (Ok tt, c').
Proof.
  intros Hrep Hdefs Hsec Hidx Hix c'. pose proof Hrep as (dm & m & DP & es & [Hh Hcur Hbt] & Hes).
  destruct es as [|e es]; [|done]. destruct (btree_range_ok (btree c) [] None None Hbt) as (N & HN). split.
  - constructor; [|done|by repeat constructor]. exists dm, m, DP, []. split; [|done]. by constructor.
  - exists N. intros fuel Hf. unfold create_index. rewrite ft_get_bind, Hdefs. cbn [existsb]. erewrite lift_step by exact Hidx.
    erewrite tree_step by (apply HN; exact Hf). rewrite with_primary_id. cbn [filter list_filter index_entries].
    erewrite ft_step by reflexivity. rewrite ft_modify_bind, Hsec. unfold ft_lift, st_modify. cbn [index_defs with_indexes]. by rewrite Hdefs.
Qed.

(** ** Theorems *)

(** C39: Querying a secondary index for a null, boolean, integer or float value returns
    exactly the stored documents whose field has that value, each with its decoded
    value, changes neither documents nor indexes, and terminates; an unknown index is
    reported. *)
Theorem collection_query c kv name v :
  coll_indexed c kv → fixed_width v →
  match list_find (λ i, si_name i = name) (secondary_indexes c) with
  | Some (_, idx) =>
      ∃ results N, (∀ u w, (u, w) ∈ results ↔ doc_of kv u = Some w ∧ extract_field w (si_field_path idx) = Some v) ∧
        ∀ fuel, (N ≤ fuel)%nat → ∃ c', query_index fuel name v c = Some (Ok results, c') ∧ coll_indexed c' kv
  | None => ∀ fuel, query_index fuel name v c = Some (Err (IndexNotFound name), c)
  end.
Proof.
  intros Hc Hv. destruct (list_find _ _) as [[pos idx]|] eqn:Hfind; [by eapply query_index_ok|].
  intros fuel. unfold query_index. apply ft_step_err. unfold with_index. rewrite ft_get_bind, Hfind. done.
Qed.

(** C38: Inserting a document stores it and enters it in every secondary index whose
    field it has with a value that can be indexed (null, boolean, integer, float, string,
    bytes, reference); a document whose field is an array, an object, a tombstone or a
    CRDT is stored without an entry, since the error of the index is ignored.  Deleting
    takes the document out of the collection and of the indexes; documents and indexes
    stay in that agreement.  A second insert under the same UUID is refused and changes
    nothing.  Assumed: room and fuel, and that an indexed reference names a collection
    with a name under 128 bytes. *)
Theorem collection_documents c kv u v fuel :
  let doc := mkDocument u v in let raw := doc_encode doc in
  coll_indexed c kv → coll_fuel c kv fuel → length u = 16%nat →
  (rust_value v = true → codec_limits v = true → (nesting v ≤ MAX_NESTING_DEPTH)%nat → can_grow (btree c) →
   Z.of_nat (length (chunks PAGE_USABLE_SPACE raw)) < ps_room (pm (data_pool c)) →
   Forall (index_takes fuel v) (secondary_indexes c) →
   match bt_get u kv with
   | Some _ => insert_doc fuel u v raw c = Some (Err (DuplicateKey u), c)
   | None => ∃ loc c', insert_doc fuel u v raw c = Some (Ok loc, c') ∧ coll_indexed c' (bt_insert u raw kv) ∧
       def_of <$> secondary_indexes c' = def_of <$> secondary_indexes c ∧ doc_of (bt_insert u raw kv) u = Some v
   end) ∧
  (doc_of kv u = Some v → Forall (λ idx, enough (si_btree idx) fuel) (secondary_indexes c) →
   ∃ recs c', delete_doc fuel u v c = Some (Ok recs, c') ∧ coll_indexed c' (bt_remove u kv) ∧
     def_of <$> secondary_indexes c' = def_of <$> secondary_indexes c ∧ doc_of (bt_remove u kv) u = None).
Proof.
  intros doc raw Hc Hf Hu. pose proof (coll_rep_sorted c kv (ix_rep _ _ Hc)) as Hs. split.
  - intros Hr Hl Hn Hg Hroom Htakes.
    pose proof (insert_value_ok c kv u v fuel Hc (proj1 Hf) Hu Hr Hl Hn Hg Hroom Htakes) as Hins.
    destruct (bt_get u kv); [done|]. destruct Hins as (loc & c' & Hrun & Hc' & Hdf). exists loc, c'. split_and!; [done|done|done|].
    unfold raw, doc. rewrite doc_of_insert by done. by rewrite decide_True.
  - intros Hw Hen. destruct (delete_doc_ok c kv u v fuel Hc Hf Hu Hw Hen) as (recs & c' & Hrun & Hc' & Hdf). exists recs, c'.
    split_and!; [done|done|done|]. unfold doc_of. by rewrite bt_get_remove, decide_True by done.
Qed.
End indexed.

(** ** A new collection with an index on [age] *)

Lemma demo_indexed :
  let C := crc32_ieee in
  ∃ (c0 c : Collection PageManager) (idx : SecondaryIndex PageManager) N,
    coll_open None None (str "docs") 4 = Ok c0 ∧
    (∀ fuel, (N ≤ fuel)%nat → create_index fuel (str "by_age") (str "age") (pm_new None) c0 = Some (Ok tt, c)) ∧
    coll_indexed c [] ∧ secondary_indexes c = [idx] ∧ si_name idx = str "by_age" ∧ si_field_path idx = str "age" ∧
    coll_fuel c [] 1 ∧ can_grow (HK := uuid_key) (btree c) ∧ ps_room (pm (data_pool c)) = 4294967293 ∧
    enough (HK := var_key) (si_btree idx) 1 ∧ can_grow (HK := var_key) (si_btree idx).
Proof.
  intros C. destruct (coll_open_fresh (str "docs") 4 ltac:(lia)) as (c & Hopen & Hrep & Hf & Hg & Hr & Hsec & Hdefs).
  destruct demo_secondary as (idx & Hc & Hsi & Hen & Hgrow & Hpath).
  assert (Hix : indexes [] idx).
  { exists []. split; [exact Hsi|]. intros u v. split; [intros Hin; destruct (not_elem_of_nil _ Hin)|intros (w & Hw & _); discriminate Hw]. }
  assert (Hname : si_name idx = str "by_age").
  { unfold index_create in Hc. apply outcome_bind_Ok in Hc as (t & _ & Ht). injection Ht as <-. reflexivity. }
  destruct (create_index_empty c (str "by_age") (str "age") (pm_new None) idx Hrep Hdefs Hsec Hc Hix) as (Hci & N & HN).
  exists c, (with_defs [(str "by_age", str "age")] (with_indexes [idx] c)), idx, N.
  split; [exact Hopen|]. split; [exact HN|]. split; [exact Hci|]. split; [reflexivity|]. split; [exact Hname|]. split; [exact Hpath|].
  split; [split; [exact Hf|intros k raw Hk; discriminate Hk]|]. exact (conj Hg (conj Hr (conj Hen Hgrow))).
Qed.

Lemma demo_takes (idx : SecondaryIndex PageManager) :
  si_field_path idx = str "age" → enough (HK := var_key) (si_btree idx) 1 →
  can_grow (HK := var_key) (C := crc32_ieee) (si_btree idx) →
  index_takes (C := crc32_ieee) 1 (demo_doc 30) idx.
Proof.
  intros Hpath Hen Hg. split; [exact Hen|]. split; [exact Hg|]. rewrite Hpath. intros name u Hv. rewrite demo_field in Hv. discriminate Hv.
Qed.

Lemma collection_documents_witness :
  let C := crc32_ieee in let raw := doc_encode (mkDocument (demo_key x01) (demo_doc 30)) in
  ∃ (c : Collection PageManager) loc c', coll_indexed c [] ∧ length (secondary_indexes c) = 1%nat ∧
    insert_doc 1 (demo_key x01) (demo_doc 30) raw c = Some (Ok loc, c') ∧ coll_indexed c' [(demo_key x01, raw)].
Proof.
  intros C raw. destruct demo_indexed as (_ & c & idx & _ & _ & _ & Hc & Hsec & _ & Hpath & Hf & Hg & Hr & Hen & Hgi).
  destruct (proj1 (collection_documents c [] (demo_key x01) (demo_doc 30) 1 Hc Hf eq_refl)) as (loc & c' & Hrun & Hc' & _);
    [reflexivity|reflexivity|vm_compute; lia|exact Hg|rewrite Hr; vm_compute; reflexivity| |].
  - rewrite Hsec. constructor; [apply demo_takes; assumption|constructor].
  - exists c, loc, c'. split; [exact Hc|]. split; [rewrite Hsec; reflexivity|]. exact (conj Hrun Hc').
Defined.

Lemma collection_query_witness :
  let C := crc32_ieee in let raw := doc_encode (mkDocument (demo_key x01) (demo_doc 30)) in
  ∃ (c c' : Collection PageManager) loc results N, insert_doc 1 (demo_key x01) (demo_doc 30) raw c = Some (Ok loc, c') ∧
    (demo_key x01, demo_doc 30) ∈ results ∧
    ∀ fuel, (N ≤ fuel)%nat → ∃ c2, query_index fuel (str "by_age") (VInteger 30) c' = Some (Ok results, c2).
Proof.
  intros C raw. destruct demo_indexed as (_ & c & idx & _ & _ & _ & Hc & Hsec & Hname & Hpath & Hf & Hg & Hr & Hen & Hgi).
  destruct (insert_doc_ok c [] (demo_key x01) raw (mkDocument (demo_key x01) (demo_doc 30)) 1 Hc (proj1 Hf) Hg) as (loc & c' & Hrun & Hc' & Hdf);
    [reflexivity|vm_compute; reflexivity|vm_compute; reflexivity|reflexivity|rewrite Hr; vm_compute; reflexivity| |].
  { rewrite Hsec. constructor; [apply demo_takes; assumption|constructor]. }
  rewrite Hsec in Hdf. destruct (secondary_indexes c') as [|idx' [|]] eqn:Esec; [discriminate Hdf| |discriminate Hdf].
  injection Hdf as Hn' Hp'. rewrite Hname in Hn'. rewrite Hpath in Hp'.
  pose proof (collection_query c' [(demo_key x01, raw)] (str "by_age") (VInteger 30) Hc' ltac:(unfold fixed_width, is_i64; lia)) as Hq.
  rewrite Esec in Hq. cbn [list_find] in Hq. rewrite decide_True in Hq by exact Hn'. destruct Hq as (results & N & Hres & HN).
  exists c, c', loc, results, N. split; [exact Hrun|]. split.
  - apply Hres. rewrite Hp'. split; [vm_compute; reflexivity|apply demo_field].
  - intros fuel Hfuel. destruct (HN fuel Hfuel) as (c2 & Hq2 & _). exists c2. exact Hq2.
Defined.
