(* ===== verification/Naming.v ===== *)
(** * Names (src/naming.rs) *)

From S2P Require Import Prelude RustStd.

Local Open Scope Z_scope.

Definition is_ascii_lowercase (b : byte) : bool := (97 <=? b2z b) && (b2z b <=? 122).
Definition is_ascii_digit (b : byte) : bool := (48 <=? b2z b) && (b2z b <=? 57).
Definition name_char (b : byte) : bool := is_ascii_lowercase b || is_ascii_digit b || bool_decide (b = x5f).

(** The characters of a [str] outside ASCII are bytes from 128 on, which no test accepts. *)
Definition validate_name (name : bytes) : res unit :=
  if decide (name = []) then Err (InvalidName "name cannot be empty")
  else if decide (64 < length name)%nat then Err (InvalidName "name too long")
  else if decide (head name = Some x5f ∧ name ≠ str "_default" ∧ name ≠ str "_system") then
    Err (InvalidName "names starting with '_' are reserved")
  else if forallb name_char name then Ok tt
  else Err (InvalidName "invalid character").

Lemma name_char_path b : name_char b = true → b2z b ≠ 46 ∧ b2z b ≠ 47 ∧ b2z b ≠ 92 ∧ b2z b ≠ 0.
Proof.
  unfold name_char, is_ascii_lowercase, is_ascii_digit. rewrite !orb_true_iff, bool_decide_eq_true. intros [[H|H]|H]; [lia|lia|].
  subst b. split_and!; discriminate.
Qed.

Lemma validate_name_chars name :
  validate_name name = Ok tt → name ≠ [] ∧ Forall (λ b, b2z b ≠ 46 ∧ b2z b ≠ 47 ∧ b2z b ≠ 92 ∧ b2z b ≠ 0) name.
Proof.
  unfold validate_name. do 3 (case_decide; [done|]). destruct (forallb name_char name) eqn:Hf; [|done]. intros _. split; [done|].
  apply Forall_forall. intros b Hb. apply name_char_path. rewrite forallb_forall in Hf. apply Hf. by apply list_elem_of_In.
Qed.

(** A name is accepted exactly when it has 1 to 64 characters out of [a-z0-9_] and does
    not start with an underscore, the two reserved names apart; an accepted name has no
    dot, slash, backslash or zero byte, so joining it to a directory stays in it. *)
Theorem validate_name_spec (name : bytes) :
  (validate_name name = Ok tt ↔
     (1 ≤ length name ≤ 64)%nat ∧ forallb name_char name = true ∧
     (head name = Some x5f → name = str "_default" ∨ name = str "_system")) ∧
  (validate_name name = Ok tt → Forall (λ b, b2z b ≠ 46 ∧ b2z b ≠ 47 ∧ b2z b ≠ 92 ∧ b2z b ≠ 0) name).
Proof.
  assert (Hiff : validate_name name = Ok tt ↔ (1 ≤ length name ≤ 64)%nat ∧ forallb name_char name = true ∧
     (head name = Some x5f → name = str "_default" ∨ name = str "_system")).
  { unfold validate_name. destruct (decide (name = [])) as [->|Hne]; [split; [done|]; simpl; lia|].
    assert (1 ≤ length name)%nat by (destruct name; simpl; [done|lia]).
    destruct (decide (64 < length name)%nat); [split; [done|lia]|].
    destruct (decide (head name = Some x5f ∧ name ≠ str "_default" ∧ name ≠ str "_system")) as [(H1 & H2 & H3)|Hr].
    { split; [done|]. intros (_ & _ & H4). destruct (H4 H1); done. }
    destruct (forallb name_char name); [|split; [done|naive_solver]]. split; [|done]. intros _. split; [lia|]. split; [done|].
    intros Hh. destruct (decide (name = str "_default")); [by left|]. destruct (decide (name = str "_system")); [by right|]. naive_solver. }
  split; [exact Hiff|]. intros Hv. by apply validate_name_chars.
Qed.

Lemma validate_name_spec_witness :
  validate_name (str "orders_2024") = Ok tt ∧ Forall (λ b, b2z b ≠ 46 ∧ b2z b ≠ 47 ∧ b2z b ≠ 92 ∧ b2z b ≠ 0) (str "orders_2024").
Proof. split; [reflexivity|]. apply (proj2 (validate_name_spec (str "orders_2024"))). reflexivity. Defined.
