(* ===== verification/Frame.v ===== *)
(** * Replication frames (src/grumpydb-replication/src/frame.rs)

    [payload_len(u32) || frame_type(u8) || payload || crc32(u32)].  UUIDs are their 16
    bytes, strings their UTF-8 bytes; the CRC-32 is the parameter of the page layer. *)

From S2P Require Import Prelude RustStd Page.

Local Open Scope Z_scope.

Definition PROTOCOL_VERSION : Z := 1.
Definition MAX_FRAME_PAYLOAD : Z := Z.shiftl 1 20.
Definition FRAME_HEADER_SIZE : nat := 5.
Definition FRAME_TRAILER_SIZE : nat := 4.

Inductive FrameType := THello | THelloAck | TSubscribe | TWalRecord | TAck | THeartbeat | TBye.

Inductive FrameError :=
| PayloadTooLarge (n : Z)
| UnknownFrameType (b : Z)
| TruncatedPayload (kind : FrameType) (need got : nat)
| TrailingBytes (n : nat)
| CrcMismatch
| InvalidUtf8
| InvalidLengthPrefix (what : string).

Definition as_u8 (t : FrameType) : Z :=
  match t with
  | THello => 1 | THelloAck => 2 | TSubscribe => 3 | TWalRecord => 4 | TAck => 5 | THeartbeat => 6 | TBye => 7
  end.

Definition from_u8 (b : Z) : outcome FrameError FrameType :=
  if decide (b = 1) then Ok THello else if decide (b = 2) then Ok THelloAck
  else if decide (b = 3) then Ok TSubscribe else if decide (b = 4) then Ok TWalRecord
  else if decide (b = 5) then Ok TAck else if decide (b = 6) then Ok THeartbeat
  else if decide (b = 7) then Ok TBye else Err (UnknownFrameType b).

Inductive Frame :=
| Hello (protocol_version : Z) (cluster_id node_id token : bytes)
| HelloAck (protocol_version : Z) (node_id : bytes) (high_water_hlc : Z)
| Subscribe (start_node_id : bytes) (start_hlc : Z)
| WalRecordFrame (record : bytes)
| Ack (applied_node_id : bytes) (applied_hlc : Z)
| Heartbeat (sender_hlc : Z)
| Bye (reason : bytes).

Definition frame_type (f : Frame) : FrameType :=
  match f with
  | Hello _ _ _ _ => THello | HelloAck _ _ _ => THelloAck | Subscribe _ _ => TSubscribe
  | WalRecordFrame _ => TWalRecord | Ack _ _ => TAck | Heartbeat _ => THeartbeat | Bye _ => TBye
  end.

(** [(n as u16).to_le_bytes()] *)
Definition len_prefix (b : bytes) : bytes := to_le 2 (Z.of_nat (length b) `mod` 65536).

Definition encode_payload (f : Frame) : bytes :=
  match f with
  | Hello v cluster node token => to_le 2 v ++ cluster ++ node ++ len_prefix token ++ token
  | HelloAck v node hlc => to_le 2 v ++ node ++ to_le 8 hlc
  | Subscribe node hlc | Ack node hlc => node ++ to_le 8 hlc
  | WalRecordFrame r => r
  | Heartbeat hlc => to_le 8 hlc
  | Bye reason => len_prefix reason ++ reason
  end.

(** [if payload.len() != FIXED { truncated or trailing }] *)
Definition exact_len (kind : FrameType) (need : nat) (payload : bytes) : outcome FrameError unit :=
  if decide (length payload < need)%nat then Err (TruncatedPayload kind need (length payload))
  else if decide (length payload = need) then Ok tt else Err (TrailingBytes (length payload - need)).

Definition utf8_string (b : bytes) : outcome FrameError bytes := if utf8_valid b then Ok b else Err InvalidUtf8.

Definition decode_payload (kind : FrameType) (p : bytes) : outcome FrameError Frame :=
  match kind with
  | THello =>
      if decide (length p < 36)%nat then Err (TruncatedPayload kind 36 (length p))
      else
        let token_len := Z.to_nat (le_at 34 2 p) in
        _ ← exact_len kind (36 + token_len) p;
        token ← utf8_string (slice 36 token_len p);
        mret (Hello (le_at 0 2 p) (slice 2 16 p) (slice 18 16 p) token)
  | THelloAck => _ ← exact_len kind 26 p; mret (HelloAck (le_at 0 2 p) (slice 2 16 p) (le_at 18 8 p))
  | TSubscribe => _ ← exact_len kind 24 p; mret (Subscribe (slice 0 16 p) (le_at 16 8 p))
  | TWalRecord => mret (WalRecordFrame p)
  | TAck => _ ← exact_len kind 24 p; mret (Ack (slice 0 16 p) (le_at 16 8 p))
  | THeartbeat => _ ← exact_len kind 8 p; mret (Heartbeat (le_at 0 8 p))
  | TBye =>
      if decide (length p < 2)%nat then Err (TruncatedPayload kind 2 (length p))
      else
        let reason_len := Z.to_nat (le_at 0 2 p) in
        _ ← exact_len kind (2 + reason_len) p;
        reason ← utf8_string (slice 2 reason_len p);
        mret (Bye reason)
  end.

Section codec.
Context `{Crc32}.

Definition encode_frame (f : Frame) : outcome FrameError bytes :=
  let payload := encode_payload f in
  if decide (MAX_FRAME_PAYLOAD < Z.of_nat (length payload)) then
    Err (PayloadTooLarge (Z.of_nat (length payload) `mod` 4294967296))
  else
    let kind := z2b (as_u8 (frame_type f)) in
    Ok (to_le 4 (Z.of_nat (length payload)) ++ kind :: payload ++ to_le 4 (crc32 (kind :: payload))).

(** [Ok None] stands for [NeedMore]. *)
Definition decode_frame (buf : bytes) : outcome FrameError (option (Frame * nat)) :=
  if decide (length buf < FRAME_HEADER_SIZE)%nat then Ok None
  else
    let payload_len := le_at 0 4 buf in
    if decide (MAX_FRAME_PAYLOAD < payload_len) then Err (PayloadTooLarge payload_len)
    else
      let n := Z.to_nat payload_len in
      let total := (FRAME_HEADER_SIZE + n + FRAME_TRAILER_SIZE)%nat in
      if decide (length buf < total)%nat then Ok None
      else
        kind ← from_u8 (le_at 4 1 buf);
        let payload := slice FRAME_HEADER_SIZE n buf in
        if decide (crc32 (z2b (as_u8 kind) :: payload) ≠ le_at (FRAME_HEADER_SIZE + n) 4 buf) then Err CrcMismatch
        else frame ← decode_payload kind payload; mret (Some (frame, total)).

(** ** Round trips *)

(** A frame as the Rust types have it, with strings that fit their length prefix. *)
Definition frame_ok (f : Frame) : Prop :=
  match f with
  | Hello v c n t => is_u16 v ∧ length c = 16%nat ∧ length n = 16%nat ∧ utf8_valid t = true ∧ Z.of_nat (length t) < 65536
  | HelloAck v n h => is_u16 v ∧ length n = 16%nat ∧ is_u64 h
  | Subscribe n h | Ack n h => length n = 16%nat ∧ is_u64 h
  | WalRecordFrame r => True
  | Heartbeat h => is_u64 h
  | Bye r => utf8_valid r = true ∧ Z.of_nat (length r) < 65536
  end.

Lemma as_from_u8 t : from_u8 (as_u8 t) = Ok t.
Proof. by destruct t. Qed.

Lemma from_u8_Ok b t : from_u8 b = Ok t → b = as_u8 t.
Proof. unfold from_u8. repeat case_decide; intros [= <-]; done. Qed.

Lemma as_u8_range t : 0 ≤ as_u8 t < 256.
Proof. destruct t; cbn; lia. Qed.

Lemma exact_len_ok kind n p : length p = n → exact_len kind n p = Ok tt.
Proof. intros Hp. unfold exact_len. rewrite decide_False by lia. by rewrite decide_True. Qed.

Lemma exact_len_Ok kind n p u : exact_len kind n p = Ok u → length p = n.
Proof. unfold exact_len. by repeat case_decide. Qed.

Lemma utf8_string_Ok b s : utf8_string b = Ok s → s = b ∧ utf8_valid b = true.
Proof. unfold utf8_string. destruct (utf8_valid b); [by intros [= <-]|done]. Qed.

Lemma slice_mid {A} o n (a b c : list A) : o = length a → n = length b → slice o n (a ++ b ++ c) = b.
Proof. intros -> ->. rewrite slice_app_r by lia. rewrite Nat.sub_diag, slice_app_l by lia. apply slice_all. Qed.

Lemma le_at_mid o n z a c : o = length a → 0 ≤ z < 256 ^ Z.of_nat n → le_at o n (a ++ to_le n z ++ c) = z.
Proof. intros -> Hz. rewrite le_at_app_r by lia. rewrite Nat.sub_diag. by apply le_at_to_le. Qed.

(** The last field of a payload. *)
Lemma slice_end {A} o n (a b : list A) : o = length a → n = length b → slice o n (a ++ b) = b.
Proof. intros Ho Hn. rewrite <- (app_nil_r b) at 1. by apply slice_mid. Qed.

Lemma le_at_end o n z a : o = length a → 0 ≤ z < 256 ^ Z.of_nat n → le_at o n (a ++ to_le n z) = z.
Proof. intros Ho Hz. rewrite <- (app_nil_r (to_le n z)). by apply le_at_mid. Qed.

Lemma prefix_range (b : bytes) : Z.of_nat (length b) < 65536 → 0 ≤ Z.of_nat (length b) `mod` 65536 < 256 ^ Z.of_nat 2.
Proof. intros _. apply Z.mod_pos_bound. done. Qed.

Lemma decode_encode_payload f : frame_ok f → decode_payload (frame_type f) (encode_payload f) = Ok f.
Proof.
  destruct f as [v c n t|v n h|n h|r|n h|h|r]; cbn [frame_ok frame_type encode_payload decode_payload]; intros Hf.
  - destruct Hf as (Hv & Hc & Hn & Ht & Hl). pose proof (prefix_range t Hl) as Hp. unfold len_prefix.
    rewrite decide_False by (len; lia).
    replace (le_at 34 2 _) with (Z.of_nat (length t)).
    2:{ rewrite !app_assoc, <- (app_assoc _ _ t). rewrite le_at_mid by (done || (len; lia)). rewrite Z.mod_small by lia. done. }
    rewrite Nat2Z.id, exact_len_ok by (len; lia). cbn [mbind outcome_bind].
    replace (slice 36 (length t) _) with t by (rewrite !app_assoc; rewrite slice_end; [done|len; lia|done]).
    unfold utf8_string. rewrite Ht. cbn. rewrite le_at_to_le by done. do 2 f_equal.
    + apply slice_mid; [len|lia].
    + rewrite (app_assoc (to_le 2 v)). apply slice_mid; [len; lia|lia].
  - destruct Hf as (Hv & Hn & Hh). rewrite exact_len_ok by (len; lia). cbn [mbind outcome_bind]. rewrite le_at_to_le by done.
    rewrite slice_mid by (len; lia). rewrite app_assoc, le_at_end; [done|len; lia|done].
  - destruct Hf as (Hn & Hh). rewrite exact_len_ok by (len; lia). cbn [mbind outcome_bind].
    rewrite slice_app_l by lia. rewrite le_at_end by done. unfold slice. by rewrite drop_0, take_ge by lia.
  - done.
  - destruct Hf as (Hn & Hh). rewrite exact_len_ok by (len; lia). cbn [mbind outcome_bind].
    rewrite slice_app_l by lia. rewrite le_at_end by done. unfold slice. by rewrite drop_0, take_ge by lia.
  - rewrite exact_len_ok by len. cbn [mbind outcome_bind]. rewrite <- (app_nil_r (to_le 8 h)). by rewrite le_at_to_le by done.
  - destruct Hf as (Hr & Hl). pose proof (prefix_range r Hl) as Hp. unfold len_prefix. rewrite decide_False by (len; lia).
    rewrite le_at_to_le by done. rewrite Z.mod_small by lia. rewrite Nat2Z.id, exact_len_ok by (len; lia). cbn [mbind outcome_bind].
    rewrite slice_end by (len; done). unfold utf8_string. by rewrite Hr.
Qed.
(** Every byte of a payload that decodes is accounted for. *)
Lemma drop_split {A} o n (p : list A) : drop o p = slice o n p ++ drop (o + n) p.
Proof. unfold slice. rewrite <- drop_drop. by rewrite take_drop. Qed.

Lemma drop_last {A} o n (p : list A) : length p = (o + n)%nat → drop o p = slice o n p.
Proof. intros Hl. unfold slice. rewrite take_ge; [done|]. rewrite length_drop. lia. Qed.

Lemma le_bytes o n p : (o + n ≤ length p)%nat → to_le n (le_at o n p) = slice o n p.
Proof. intros Hl. unfold le_at. pose proof (length_slice_le o n p Hl) as Hs. rewrite <- Hs at 1. apply to_of_le. Qed.

Lemma encode_decode_payload k p f :
  decode_payload k p = Ok f → frame_type f = k ∧ encode_payload f = p ∧ frame_ok f.
Proof.
  assert (Hp : p = drop 0 p) by done. destruct k; cbn [decode_payload]; intros Hd.
  - case_decide as Hl; [done|]. inv_ok. apply exact_len_Ok in Ha. apply utf8_string_Ok in Ha0 as [-> Hu].
    cbn [frame_type encode_payload frame_ok]. pose proof (le_at_u16 34 p) as Ht. unfold is_u16 in Ht.
    rewrite !length_slice_le by lia. split_and!; [done| |apply le_at_u16|done|done|done|lia].
    unfold len_prefix. rewrite length_slice_le, Z2Nat.id, Z.mod_small by lia. rewrite !le_bytes by lia. symmetry. rewrite Hp at 1.
    rewrite (drop_split 0 2), (drop_split (0 + 2) 16), (drop_split (0 + 2 + 16) 16), (drop_split (0 + 2 + 16 + 16) 2).
    by rewrite (drop_last (0 + 2 + 16 + 16 + 2) (Z.to_nat (le_at 34 2 p))) by lia.
  - inv_ok. apply exact_len_Ok in Ha. cbn [frame_type encode_payload frame_ok]. rewrite !length_slice_le by lia.
    split_and!; [done| |apply le_at_u16|done|apply le_at_u64]. rewrite !le_bytes by lia. symmetry. rewrite Hp at 1.
    rewrite (drop_split 0 2), (drop_split (0 + 2) 16). by rewrite (drop_last (0 + 2 + 16) 8) by lia.
  - inv_ok. apply exact_len_Ok in Ha. cbn [frame_type encode_payload frame_ok]. rewrite !length_slice_le by lia.
    split_and!; [done| |done|apply le_at_u64]. rewrite !le_bytes by lia. symmetry. rewrite Hp at 1.
    rewrite (drop_split 0 16). by rewrite (drop_last (0 + 16) 8) by lia.
  - by injection Hd as <-.
  - inv_ok. apply exact_len_Ok in Ha. cbn [frame_type encode_payload frame_ok]. rewrite !length_slice_le by lia.
    split_and!; [done| |done|apply le_at_u64]. rewrite !le_bytes by lia. symmetry. rewrite Hp at 1.
    rewrite (drop_split 0 16). by rewrite (drop_last (0 + 16) 8) by lia.
  - inv_ok. apply exact_len_Ok in Ha. cbn [frame_type encode_payload frame_ok].
    split_and!; [done| |apply le_at_u64]. rewrite le_bytes by lia. symmetry. rewrite Hp at 1. by rewrite (drop_last 0 8) by lia.
  - case_decide as Hl; [done|]. inv_ok. apply exact_len_Ok in Ha. apply utf8_string_Ok in Ha0 as [-> Hu].
    cbn [frame_type encode_payload frame_ok]. pose proof (le_at_u16 0 p) as Ht. unfold is_u16 in Ht.
    rewrite !length_slice_le by lia. split_and!; [done| |done|lia]. unfold len_prefix.
    rewrite length_slice_le, Z2Nat.id, Z.mod_small by lia. rewrite le_bytes by lia. symmetry. rewrite Hp at 1.
    rewrite (drop_split 0 2). by rewrite (drop_last (0 + 2) (Z.to_nat (le_at 0 2 p))) by lia.
Qed.

(** ** The envelope *)

Section envelope.
Context (f : Frame) (enc rest : bytes).
Hypothesis Hf : frame_ok f.
Hypothesis Henc : encode_frame f = Ok enc.

Let p := encode_payload f.
Let kind := z2b (as_u8 (frame_type f)).

Lemma enc_shape : enc = to_le 4 (Z.of_nat (length p)) ++ [kind] ++ p ++ to_le 4 (crc32 (kind :: p)) ∧ Z.of_nat (length p) ≤ MAX_FRAME_PAYLOAD.
Proof. unfold encode_frame in Henc. fold p kind in Henc. case_decide; [done|]. injection Henc as <-. split; [done|lia]. Qed.

Lemma enc_length : length enc = (5 + length p + 4)%nat.
Proof. destruct enc_shape as [-> _]. len. Qed.

Lemma max_payload_u32 : MAX_FRAME_PAYLOAD < 256 ^ Z.of_nat 4.
Proof. done. Qed.

Lemma enc_fields :
  le_at 0 4 (enc ++ rest) = Z.of_nat (length p) ∧ le_at 4 1 (enc ++ rest) = as_u8 (frame_type f) ∧
  slice 5 (length p) (enc ++ rest) = p ∧ le_at (5 + length p) 4 (enc ++ rest) = crc32 (kind :: p).
Proof.
  destruct enc_shape as [-> Hmax]. pose proof max_payload_u32. pose proof (as_u8_range (frame_type f)). rewrite <- !app_assoc. split_and!.
  - apply le_at_to_le. lia.
  - change [kind] with (to_le 1 (as_u8 (frame_type f))). apply le_at_mid; [len|done].
  - rewrite (app_assoc (to_le 4 _)). apply slice_mid; len.
  - rewrite (app_assoc (to_le 4 _)), (app_assoc (_ ++ [kind])). apply le_at_mid; [len|apply crc32_u32].
Qed.

Lemma decode_whole : decode_frame (enc ++ rest) = Ok (Some (f, length enc)).
Proof.
  destruct enc_shape as [_ Hmax]. destruct enc_fields as (H1 & H2 & H3 & H4). pose proof enc_length as Hl.
  unfold decode_frame, FRAME_HEADER_SIZE, FRAME_TRAILER_SIZE. rewrite H1, Nat2Z.id. rewrite decide_False by (rewrite length_app; lia).
  rewrite decide_False by lia. rewrite decide_False by (rewrite length_app; lia). rewrite H2, as_from_u8. cbn [mbind outcome_bind].
  rewrite H3, H4. rewrite decide_False by (intros Hx; by apply Hx). unfold p. rewrite decode_encode_payload by done. cbn. by rewrite Hl.
Qed.
End envelope.

Lemma decode_prefix f enc k : encode_frame f = Ok enc → (k < length enc)%nat → decode_frame (take k enc) = Ok None.
Proof.
  intros Henc Hk. destruct (enc_shape f enc Henc) as [He Hmax]. pose proof (enc_length f enc Henc) as Hl. pose proof max_payload_u32.
  unfold decode_frame, FRAME_HEADER_SIZE, FRAME_TRAILER_SIZE. rewrite length_take. case_decide as H5; [done|].
  assert (Hlen : le_at 0 4 (take k enc) = Z.of_nat (length (encode_payload f))).
  { destruct (enc_fields f enc [] Henc) as (H1 & _). rewrite app_nil_r in H1. rewrite <- H1. rewrite <- (take_drop k enc) at 2.
    symmetry. apply le_at_app_l. rewrite length_take. lia. }
  rewrite Hlen, Nat2Z.id. rewrite decide_False by lia. rewrite decide_True by lia. done.
Qed.

Lemma decode_sound_frame buf f n :
  decode_frame buf = Ok (Some (f, n)) → frame_ok f ∧ (n ≤ length buf)%nat ∧ encode_frame f = Ok (take n buf).
Proof.
  unfold decode_frame, FRAME_HEADER_SIZE, FRAME_TRAILER_SIZE. case_decide as Hl; [done|]. case_decide as Hmax; [done|].
  pose proof (le_at_u32 0 buf) as Hu. unfold is_u32 in Hu. case_decide as Ht; [done|]. intros Hd. inv_ok.
  apply from_u8_Ok in Ha. case_decide as Hcrc; [done|]. inv_ok.
  set (m := Z.to_nat (le_at 0 4 buf)) in *. destruct (encode_decode_payload _ _ _ Ha0) as (Hk & Hp & Hf).
  assert (Hmz : Z.of_nat m = le_at 0 4 buf) by (unfold m; lia).
  split_and!; [done|lia|]. unfold encode_frame. rewrite Hk, Hp. rewrite length_slice_le by lia. rewrite Hmz.
  rewrite decide_False by lia. f_equal. rewrite Hcrc, <- Ha. rewrite !le_bytes by lia.
  change [z2b (le_at 4 1 buf)] with (to_le 1 (le_at 4 1 buf)).
  change (z2b (le_at 4 1 buf) :: slice 5 m buf ++ slice (5 + m) 4 buf) with (to_le 1 (le_at 4 1 buf) ++ slice 5 m buf ++ slice (5 + m) 4 buf).
  rewrite le_bytes by lia. change (S (S (S (S (S (m + 4)))))) with (5 + m + 4)%nat. rewrite <- (take_take_drop buf (5 + m) 4), <- (take_take_drop buf 5 m). change (take 5 buf) with (take (4 + 1) buf). rewrite <- (take_take_drop buf 4 1).
  rewrite <- !app_assoc. reflexivity.
Qed.

(** C33: A frame reads back from its encoding whatever follows it, any proper prefix asks for
    more bytes, and bytes are accepted only when they are the encoding of the frame they
    decode to. *)
Theorem frame_roundtrip f enc :
  frame_ok f → encode_frame f = Ok enc →
  (∀ rest, decode_frame (enc ++ rest) = Ok (Some (f, length enc))) ∧
  (∀ k, (k < length enc)%nat → decode_frame (take k enc) = Ok None) ∧
  (∀ buf f' n, decode_frame buf = Ok (Some (f', n)) → frame_ok f' ∧ (n ≤ length buf)%nat ∧ encode_frame f' = Ok (take n buf)).
Proof.
  intros Hf Henc. split_and!.
  - intros rest. by apply decode_whole.
  - intros k Hk. by eapply decode_prefix.
  - intros buf f' n. apply decode_sound_frame.
Qed.

(** A token of 65536 bytes or more is sent with a truncated length prefix, which the
    receiver rejects. *)
Lemma long_token_rejected v c n t enc :
  is_u16 v → length c = 16%nat → length n = 16%nat → 65536 ≤ Z.of_nat (length t) → encode_frame (Hello v c n t) = Ok enc →
  ∃ k, decode_frame enc = Err (TrailingBytes k).
Proof.
  intros Hv Hc Hn Ht Henc. destruct (enc_shape _ _ Henc) as [_ Hmax]. destruct (enc_fields _ _ [] Henc) as (H1 & H2 & H3 & H4).
  pose proof (enc_length _ _ Henc) as Hl. rewrite app_nil_r in *. unfold decode_frame, FRAME_HEADER_SIZE, FRAME_TRAILER_SIZE.
  rewrite H1, Nat2Z.id. rewrite decide_False by lia. rewrite decide_False by lia. rewrite decide_False by lia.
  rewrite H2, as_from_u8. cbn [mbind outcome_bind frame_type]. rewrite H3, H4. cbn [frame_type].
  rewrite decide_False by (intros Hx; by apply Hx). cbn [encode_payload decode_payload]. unfold len_prefix.
  pose proof (Z.mod_pos_bound (Z.of_nat (length t)) 65536 ltac:(lia)) as Hm. rewrite decide_False by (len; lia).
  assert (Hp : ∀ x, 0 ≤ x < 65536 → le_at 34 2 (to_le 2 v ++ c ++ n ++ to_le 2 x ++ t) = x).
  { intros x Hx. rewrite !app_assoc, <- (app_assoc _ _ t). apply le_at_mid; [len; lia|done]. }
  rewrite Hp by done. unfold exact_len. eexists. rewrite decide_False by (len; lia). rewrite decide_False by (len; lia). reflexivity.
Qed.
End codec.

Lemma frame_roundtrip_witness :
  let H := crc32_ieee in let f := Heartbeat 77 in
  ∃ enc, encode_frame f = Ok enc ∧ (∀ rest, decode_frame (enc ++ rest) = Ok (Some (f, length enc))) ∧
    ∀ k, (k < length enc)%nat → decode_frame (take k enc) = Ok None.
Proof.
  intros H f. assert (Hf : frame_ok f) by (unfold f, frame_ok, is_u64; lia).
  destruct (encode_frame f) as [enc|e|] eqn:Henc; [|discriminate Henc|discriminate Henc].
  destruct (frame_roundtrip f enc Hf Henc) as (H1 & H2 & _). exists enc. exact (conj eq_refl (conj H1 H2)).
Defined.
