(* ===== verification/Mvcc.v ===== *)
(** * Version histories and snapshot readers (src/src/database/mod.rs)

    The part of [Database] behind snapshot reads: a history of committed versions per
    collection and key, and the snapshots with an open reader.  [versions] and
    [active_readers] are fields of [Database]; the methods that use only these two
    fields are modelled here.  The order in which a hash map is visited does not matter
    to them, so the two maps are finite maps. *)

From stdpp Require Import gmap.
From S2P Require Import Prelude RustStd Value Hlc.

Local Open Scope Z_scope.

Record VersionedValue := mkVersion { v_hlc : Z; v_value : option Value }.

Abbreviation history := (list VersionedValue).

Record Mvcc := mkMvcc {
  versions : gmap bytes (gmap bytes history);
  active_readers : list (Z * Z);
}.

Definition HLC_ZERO : Z := 0.

(** [self.versions.entry(collection).or_default().entry(key).or_default()] *)
Definition history_of (m : Mvcc) (coll key : bytes) : option history :=
  by_key ← versions m !! coll; by_key !! key.
Definition entry_or_default (m : Mvcc) (coll key : bytes) : history := default [] (history_of m coll key).
Definition put_history (coll key : bytes) (h : history) (m : Mvcc) : Mvcc :=
  mkMvcc (<[coll := <[key := h]> (default ∅ (versions m !! coll))]> (versions m)) (active_readers m).

Definition reader_watermark (m : Mvcc) : option Z := fst <$> head (active_readers m).

(** The loop that looks for the anchor, with its [break]. *)
Fixpoint anchor_from (wm : Z) (idx : nat) (anchor_idx : option nat) (h : history) : option nat :=
  match h with
  | [] => anchor_idx
  | v :: h => if decide (v_hlc v ≤ wm) then anchor_from wm (S idx) (Some idx) h else anchor_idx
  end.

Definition gc_history (watermark : option Z) (h : history) : history :=
  if decide (length h ≤ 1)%nat then h
  else match watermark with
       | Some wm =>
           match anchor_from wm 0 None h with
           | Some idx => match h !! idx with Some v => v :: drop (S idx) h | None => h end
           | None => h
           end
       | None => match last h with Some v => [v] | None => h end
       end.

Definition gc_versions (m : Mvcc) : Mvcc :=
  mkMvcc (fmap (M := gmap bytes) (fmap (M := gmap bytes) (gc_history (reader_watermark m))) (versions m)) (active_readers m).

Definition append_version (coll key : bytes) (hlc : Z) (value : option Value) (m : Mvcc) : Mvcc :=
  gc_versions (put_history coll key (entry_or_default m coll key ++ [mkVersion hlc value]) m).

Definition ensure_baseline_version (coll key : bytes) (value : Value) (m : Mvcc) : Mvcc :=
  match entry_or_default m coll key with
  | [] => put_history coll key [mkVersion HLC_ZERO (Some value)] m
  | h => put_history coll key h m
  end.

(** The loop of [lookup_snapshot_version], with its [break]. *)
Fixpoint select (snapshot : Z) (selected : option Value) (found : bool) (h : history) : option Value * bool :=
  match h with
  | [] => (selected, found)
  | v :: h => if decide (v_hlc v ≤ snapshot) then select snapshot (v_value v) true h else (selected, found)
  end.

Definition lookup_snapshot_version (coll key : bytes) (snapshot : Z) (m : Mvcc) : option (option Value) :=
  by_key ← versions m !! coll;
  h ← by_key !! key;
  let '(selected, found) := select snapshot None false h in
  Some (if found : bool then selected else None).

Definition register_reader_snapshot (snapshot : Z) (m : Mvcc) : Mvcc :=
  mkMvcc (versions m)
    (bt_insert snapshot (default 0 (bt_get snapshot (active_readers m)) + 1) (active_readers m)).

Definition unregister_reader_snapshot (snapshot : Z) (m : Mvcc) : Mvcc :=
  gc_versions (mkMvcc (versions m)
    match bt_get snapshot (active_readers m) with
    | Some count =>
        if decide (1 < count) then bt_insert snapshot (count - 1) (active_readers m)
        else bt_remove snapshot (active_readers m)
    | None => active_readers m
    end).

(** [self.versions.remove(name)] *)
Definition forget_collection (coll : bytes) (m : Mvcc) : Mvcc :=
  mkMvcc (delete coll (versions m)) (active_readers m).

(** ** Selecting a version *)

Definition sorted_history (h : history) : Prop := StronglySorted (λ a b, v_hlc a < v_hlc b) h.

(** What a reader at [snapshot] sees in a history. *)
Definition at_snapshot (snapshot : Z) (h : history) : option Value :=
  let '(selected, found) := select snapshot None false h in if found : bool then selected else None.

(** Reference definition: the last version at or before the snapshot. *)
Definition version_at (snapshot : Z) (h : history) : option Value :=
  last (filter (λ v, v_hlc v ≤ snapshot) h) ≫= v_value.

Lemma select_filter s h : sorted_history h →
  ∀ sel found, select s sel found h =
    match last (filter (λ v, v_hlc v ≤ s) h) with Some v => (v_value v, true) | None => (sel, found) end.
Proof.
  induction 1 as [|v h Hs IH Hall]; intros sel found; [done|]. cbn [select]. rewrite filter_cons. case_decide.
  - rewrite IH, last_cons. by destruct (last _).
  - rewrite filter_none; [done|]. rewrite Forall_forall in *. intros w Hw. specialize (Hall w Hw). lia.
Qed.

Lemma at_snapshot_version s h : sorted_history h → at_snapshot s h = version_at s h.
Proof. intros Hs. unfold at_snapshot, version_at. rewrite select_filter by done. by destruct (last _). Qed.

Lemma version_at_app s h v :
  sorted_history h → Forall (λ w, v_hlc w < v_hlc v) h →
  version_at s (h ++ [v]) = if decide (v_hlc v ≤ s) then v_value v else version_at s h.
Proof.
  intros Hs Hall. unfold version_at. rewrite filter_app, filter_cons, filter_nil. case_decide.
  - by rewrite last_snoc.
  - by rewrite app_nil_r.
Qed.

Lemma version_at_last s h : Forall (λ w, v_hlc w ≤ s) h → version_at s h = last h ≫= v_value.
Proof.
  intros Hall. unfold version_at. f_equal. f_equal. induction Hall as [|v h Hv Hall IH]; [done|].
  rewrite filter_cons, decide_True by done. by f_equal.
Qed.

Lemma sorted_history_app h v : sorted_history h → Forall (λ w, v_hlc w < v_hlc v) h → sorted_history (h ++ [v]).
Proof.
  induction 1 as [|w h Hs IH Hall]; intros Hv; cbn; [repeat constructor|]. apply Forall_cons in Hv as [Hw Hv].
  constructor; [by apply IH|]. apply Forall_app. split; [done|by constructor].
Qed.

(** ** Garbage collection of one history *)

Lemma anchor_from_spec wm h : ∀ idx acc,
  anchor_from wm idx acc h = acc ∨
  ∃ i, anchor_from wm idx acc h = Some (idx + i)%nat ∧ (i < length h)%nat ∧ ∀ v, h !! i = Some v → v_hlc v ≤ wm.
Proof.
  induction h as [|v h IH]; intros idx acc; [by left|]. cbn [anchor_from]. case_decide; [|by left]. right.
  destruct (IH (S idx) (Some idx)) as [->|(i & -> & Hi & Hv)].
  - exists 0%nat. split_and!; [f_equal; lia|cbn; lia|]. intros w [= <-]. done.
  - exists (S i). split_and!; [f_equal; lia|cbn; lia|]. exact Hv.
Qed.

Lemma sorted_history_suffix a b : sorted_history (a ++ b) → sorted_history b.
Proof. induction a as [|v a IH]; [done|]. cbn. inversion 1. auto. Qed.

Lemma gc_history_suffix w h : ∃ a, h = a ++ gc_history w h ∧ (h ≠ [] → gc_history w h ≠ []).
Proof.
  unfold gc_history. case_decide; [by exists []|]. destruct w as [wm|].
  - destruct (anchor_from_spec wm h 0 None) as [->|(i & -> & Hi & _)]; [by exists []|]. cbn [Nat.add].
    destruct (lookup_lt_is_Some_2 h i Hi) as [v Hv]. rewrite Hv. exists (take i h). split; [|done].
    by rewrite <- (take_drop_middle h i v Hv) at 1.
  - destruct (last h) as [v|] eqn:Hl; [|by exists []]. apply last_Some in Hl as [h' ->]. by exists h'.
Qed.

Lemma last_gc w h : last (gc_history w h) = last h.
Proof.
  destruct (gc_history_suffix w h) as (a & Heq & Hne). destruct (decide (h = [])) as [->|Hh].
  { destruct w; done. }
  destruct (exists_last (Hne Hh)) as (h' & v & E). rewrite E in *. by rewrite Heq, app_assoc, !last_snoc.
Qed.

(** Collecting below the watermark is invisible at and above it. *)
Lemma version_at_gc wm s h : sorted_history h → wm ≤ s → version_at s (gc_history (Some wm) h) = version_at s h.
Proof.
  intros Hs Hle. unfold gc_history. case_decide; [done|].
  destruct (anchor_from_spec wm h 0 None) as [->|(i & -> & Hi & Hv)]; [done|]. cbn [Nat.add].
  destruct (lookup_lt_is_Some_2 h i Hi) as [v Hiv]. rewrite Hiv. specialize (Hv v Hiv).
  rewrite <- (take_drop_middle h i v Hiv) at 2. unfold version_at.
  rewrite filter_app, filter_cons, decide_True by lia. by rewrite last_app_cons.
Qed.

(** ** The invariant of the histories

    [cur] is what the storage holds: the visible document of every collection and key;
    [clk] is the last timestamp the clock has issued. *)

Abbreviation view := (bytes → bytes → option Value).

Definition set_view (coll key : bytes) (v : option Value) (cur : view) : view := λ c k,
  if decide (c = coll ∧ k = key) then v else cur c k.

(** [snapshot_get]: the history if there is one, else the storage. *)
Definition snapshot_read (m : Mvcc) (cur : view) (s : Z) : view := λ coll key,
  default (cur coll key) (lookup_snapshot_version coll key s m).

Record history_ok (clk : Z) (v : option Value) (h : history) : Prop := {
  ho_nonempty : h ≠ [];
  ho_sorted : sorted_history h;
  ho_below : Forall (λ w, 0 ≤ v_hlc w ≤ clk) h;
  ho_last : last h ≫= v_value = v;
}.

Definition active (m : Mvcc) (s : Z) : Prop := is_Some (bt_get s (active_readers m)).

Record mvcc_inv (m : Mvcc) (cur : view) (clk : Z) : Prop := {
  mi_clk : 0 ≤ clk;
  mi_history : ∀ coll key h, history_of m coll key = Some h → history_ok clk (cur coll key) h;
  mi_sorted : bt_sorted (active_readers m);
  mi_readers : ∀ s, active m s → 0 ≤ s ≤ clk;
}.

(** Readers open before and after see the same documents. *)
Definition keeps_readers (m : Mvcc) (cur : view) (m' : Mvcc) (cur' : view) : Prop :=
  ∀ s, active m s → active m' s → ∀ coll key, snapshot_read m' cur' s coll key = snapshot_read m cur s coll key.

Lemma lookup_snapshot_history m coll key s :
  lookup_snapshot_version coll key s m = at_snapshot s <$> history_of m coll key.
Proof.
  unfold lookup_snapshot_version, history_of, at_snapshot. destruct (versions m !! coll) as [bk|]; [|done]. cbn.
  destruct (bk !! key); [|done]. cbn. by destruct (select s None false _).
Qed.

Lemma snapshot_read_inv m cur clk s coll key :
  mvcc_inv m cur clk →
  snapshot_read m cur s coll key = match history_of m coll key with Some h => version_at s h | None => cur coll key end.
Proof.
  intros Hinv. unfold snapshot_read. rewrite lookup_snapshot_history. destruct (history_of m coll key) as [h|] eqn:Hh; [|done].
  cbn. apply at_snapshot_version. by apply (ho_sorted _ _ _ (mi_history _ _ _ Hinv _ _ _ Hh)).
Qed.

(** A reader at the current time sees the storage. *)
Lemma snapshot_read_now m cur clk coll key : mvcc_inv m cur clk → snapshot_read m cur clk coll key = cur coll key.
Proof.
  intros Hinv. rewrite (snapshot_read_inv m cur clk) by done. destruct (history_of m coll key) as [h|] eqn:Hh; [|done].
  destruct (mi_history _ _ _ Hinv _ _ _ Hh) as [_ _ Hb Hl]. rewrite version_at_last; [done|].
  eapply Forall_impl; [exact Hb|]. cbn. lia.
Qed.

Lemma history_of_put m coll key h c k :
  history_of (put_history coll key h m) c k = if decide (c = coll ∧ k = key) then Some h else history_of m c k.
Proof.
  unfold history_of, put_history. cbn [versions]. destruct (decide (c = coll)) as [->|Hc].
  - rewrite lookup_insert_eq. cbn. destruct (decide (k = key)) as [->|Hk].
    + rewrite lookup_insert_eq. by rewrite decide_True by done.
    + rewrite lookup_insert_ne by done. rewrite decide_False by naive_solver. by destruct (versions m !! coll).
  - rewrite lookup_insert_ne by done. by rewrite decide_False by naive_solver.
Qed.

Lemma history_of_gc m c k : history_of (gc_versions m) c k = gc_history (reader_watermark m) <$> history_of m c k.
Proof.
  unfold history_of, gc_versions. cbn [versions]. rewrite lookup_fmap. destruct (versions m !! c) as [bk|]; [|done].
  cbn. by rewrite lookup_fmap.
Qed.

Lemma watermark_min m s : bt_sorted (active_readers m) → active m s → ∃ wm, reader_watermark m = Some wm ∧ wm ≤ s.
Proof.
  unfold active, reader_watermark. intros Hs [n Hn]. apply bt_get_elem in Hn; [|done].
  destruct (active_readers m) as [|[wm c] l]; [by apply elem_of_nil in Hn|]. exists wm. split; [done|].
  apply bt_sorted_cons in Hs as [Hall _]. apply elem_of_cons in Hn as [[= -> ->]|Hn]; [lia|].
  rewrite Forall_forall in Hall. specialize (Hall _ Hn). assert (wm < s) by exact Hall. lia.
Qed.

Lemma gc_ok m cur clk : mvcc_inv m cur clk → mvcc_inv (gc_versions m) cur clk ∧ keeps_readers m cur (gc_versions m) cur.
Proof.
  intros Hinv. assert (Hinv' : mvcc_inv (gc_versions m) cur clk).
  { constructor; try apply Hinv. intros c k h'. rewrite history_of_gc. destruct (history_of m c k) as [h|] eqn:Hh; [|done].
    intros [= <-]. destruct (mi_history _ _ _ Hinv _ _ _ Hh) as [Hne Hs Hb Hl].
    destruct (gc_history_suffix (reader_watermark m) h) as (a & Heq & Hne'). constructor; [by apply Hne'| | |].
    - apply (sorted_history_suffix a). by rewrite <- Heq.
    - rewrite Heq in Hb. by apply Forall_app in Hb as [_ Hb].
    - by rewrite last_gc. }
  split; [done|]. intros s Hact _ c k. rewrite !(snapshot_read_inv _ cur clk) by done. rewrite history_of_gc.
  destruct (history_of m c k) as [h|] eqn:Hh; [|done]. cbn. destruct (watermark_min m s (mi_sorted _ _ _ Hinv) Hact) as (wm & -> & Hle).
  apply version_at_gc; [|done]. by apply (ho_sorted _ _ _ (mi_history _ _ _ Hinv _ _ _ Hh)).
Qed.

Lemma keeps_trans m1 c1 m2 c2 m3 c3 :
  active_readers m2 = active_readers m3 → keeps_readers m1 c1 m2 c2 → keeps_readers m2 c2 m3 c3 → keeps_readers m1 c1 m3 c3.
Proof.
  intros Heq H1 H2 s Ha Ha' c k. assert (Hm : active m2 s) by (unfold active in *; by rewrite Heq). rewrite H2 by done. by apply H1.
Qed.

(** A commit later than every timestamp so far.  A key with no history has no visible
    document: an update or a delete records a baseline first. *)
Lemma append_ok m cur clk coll key h v :
  mvcc_inv m cur clk → clk < h → (history_of m coll key = None → cur coll key = None) →
  mvcc_inv (append_version coll key h v m) (set_view coll key v cur) h ∧
  keeps_readers m cur (append_version coll key h v m) (set_view coll key v cur).
Proof.
  intros Hinv Hlt Hnone. set (h0 := entry_or_default m coll key).
  set (m1 := put_history coll key (h0 ++ [mkVersion h v]) m).
  assert (H0 : sorted_history h0 ∧ Forall (λ w, 0 ≤ v_hlc w ≤ clk) h0).
  { unfold h0, entry_or_default. destruct (history_of m coll key) as [x|] eqn:Hx; [|by repeat constructor].
    by destruct (mi_history _ _ _ Hinv _ _ _ Hx). }
  destruct H0 as [Hs0 Hb0]. assert (Hb1 : Forall (λ w, v_hlc w < h) h0) by (eapply Forall_impl; [exact Hb0|cbn; lia]).
  pose proof (mi_clk _ _ _ Hinv) as Hclk. assert (Hinv1 : mvcc_inv m1 (set_view coll key v cur) h).
  { constructor; [lia| |apply Hinv|].
    - intros c k x. unfold m1. rewrite history_of_put. unfold set_view. case_decide as Hd.
      + intros [= <-]. constructor; [by destruct h0|by apply sorted_history_app| |by rewrite last_snoc].
        apply Forall_app. split; [eapply Forall_impl; [exact Hb0|cbn; lia]|]. constructor; [cbn; lia|done].
      + intros Hx. destruct (mi_history _ _ _ Hinv _ _ _ Hx) as [Hne Hs Hb Hl]. constructor; [done|done| |done].
        eapply Forall_impl; [exact Hb|]. cbn. lia.
    - intros s Hs. pose proof (mi_readers _ _ _ Hinv s Hs). lia. }
  assert (Hk : keeps_readers m cur m1 (set_view coll key v cur)).
  { intros s Hs _ c k. pose proof (mi_readers _ _ _ Hinv s Hs) as Hr. rewrite (snapshot_read_inv m1 _ h), (snapshot_read_inv m cur clk) by done.
    unfold m1. rewrite history_of_put. unfold set_view. case_decide as Hd; [|done]. destruct Hd as [-> ->].
    rewrite version_at_app, decide_False by (done || cbn; lia). unfold h0, entry_or_default.
    destruct (history_of m coll key); [done|]. cbn. by rewrite Hnone. }
  destruct (gc_ok m1 _ h Hinv1) as [Hgc Hkg]. split; [exact Hgc|]. by eapply (keeps_trans _ _ m1).
Qed.

(** The baseline of a key that has no history yet: its visible document. *)
Lemma baseline_ok m cur clk coll key v :
  mvcc_inv m cur clk → (history_of m coll key = None → cur coll key = Some v) →
  let m' := ensure_baseline_version coll key v m in
  mvcc_inv m' cur clk ∧ keeps_readers m cur m' cur ∧ is_Some (history_of m' coll key).
Proof.
  intros Hinv Hcur m'. pose proof (mi_clk _ _ _ Hinv) as Hclk.
  assert (Hm' : active_readers m' = active_readers m ∧ ∀ c k, history_of m' c k =
    if decide (c = coll ∧ k = key) then Some (default [mkVersion HLC_ZERO (Some v)] (history_of m coll key)) else history_of m c k).
  { unfold m', ensure_baseline_version, entry_or_default. destruct (history_of m coll key) as [[|x h]|] eqn:Hh; unfold from_option, id;
      (split; [done|]); intros c k; rewrite history_of_put; try done.
    by destruct (ho_nonempty _ _ _ (mi_history _ _ _ Hinv _ _ _ Hh)). }
  clearbody m'. destruct Hm' as [Ha Hh]. assert (Hinv' : mvcc_inv m' cur clk).
  { constructor; [done| |by rewrite Ha; apply Hinv|unfold active; rewrite Ha; apply Hinv].
    intros c k x. rewrite Hh. case_decide as Hd; [|apply Hinv]. destruct Hd as [-> ->]. intros [= <-].
    destruct (history_of m coll key) eqn:E; cbn; [by apply Hinv|]. specialize (Hcur eq_refl).
    constructor; [done|repeat constructor|constructor; [unfold HLC_ZERO; cbn; lia|done]|done]. }
  split_and!; [done| |rewrite Hh, decide_True; [eauto|done]]. intros s Hs _ c k. pose proof (mi_readers _ _ _ Hinv s Hs) as Hr.
  rewrite (snapshot_read_inv m' cur clk), (snapshot_read_inv m cur clk) by done. rewrite Hh. case_decide as Hd; [|done].
  destruct Hd as [-> ->]. destruct (history_of m coll key) eqn:E; [done|]. cbn. rewrite Hcur by done.
  rewrite version_at_last; [done|]. constructor; [unfold HLC_ZERO; cbn; lia|done].
Qed.

(** A tick of the clock, a new reader at the current time, a reader that ends. *)
Lemma tick_ok m cur clk clk' : mvcc_inv m cur clk → clk ≤ clk' → mvcc_inv m cur clk'.
Proof.
  intros [Hc Hh Hs Hr] Hle. constructor; [lia| |done|].
  - intros c k h Hk. destruct (Hh c k h Hk) as [Hne Hsh Hb Hl]. constructor; [done|done| |done]. eapply Forall_impl; [exact Hb|]. cbn. lia.
  - intros s Ha. specialize (Hr s Ha). lia.
Qed.

Lemma register_ok m cur clk :
  mvcc_inv m cur clk →
  let m' := register_reader_snapshot clk m in
  mvcc_inv m' cur clk ∧ keeps_readers m cur m' cur ∧ active m' clk ∧ ∀ s, active m s → active m' s.
Proof.
  intros Hinv m'. assert (Ha : ∀ s, active m' s ↔ s = clk ∨ active m s).
  { intros s. unfold active, m', register_reader_snapshot. cbn [active_readers]. rewrite bt_get_insert by apply Hinv.
    case_decide; [subst; split; eauto|]. split; [by right|]. intros [?|?]; done. }
  pose proof (mi_clk _ _ _ Hinv) as Hclk. split_and!; [| |by apply Ha; left|intros s Hs; apply Ha; by right].
  - constructor; [done|apply Hinv|apply bt_sorted_insert, Hinv|]. intros s [->|Hs]%Ha; [lia|]. by apply Hinv.
  - intros s _ _ c k. done.
Qed.

Lemma unregister_ok m cur clk s :
  mvcc_inv m cur clk →
  let m' := unregister_reader_snapshot s m in
  mvcc_inv m' cur clk ∧ keeps_readers m cur m' cur ∧ (∀ s', s' ≠ s → active m s' → active m' s') ∧
  (∀ n, bt_get s (active_readers m) = Some n → 1 < n → active m' s).
Proof.
  intros Hinv m'. unfold m', unregister_reader_snapshot. set (rs := match bt_get _ _ with Some _ => _ | None => _ end).
  assert (Hrs : bt_sorted rs ∧ (∀ s', is_Some (bt_get s' rs) → active m s') ∧ (∀ s', s' ≠ s → active m s' → is_Some (bt_get s' rs)) ∧
    (∀ n, bt_get s (active_readers m) = Some n → 1 < n → is_Some (bt_get s rs))).
  { unfold rs, active. destruct (bt_get s (active_readers m)) as [n|] eqn:Hn; [|by split_and!; [apply Hinv|..]].
    case_decide.
    - split_and!; [apply bt_sorted_insert, Hinv|..]; intros s'; rewrite bt_get_insert by apply Hinv; case_decide; subst; try done; rewrite ?Hn; eauto.
    - split_and!.
      + apply bt_sorted_remove, Hinv.
      + intros s'. rewrite bt_get_remove by apply Hinv. case_decide; [by intros [? ?]|done].
      + intros s' Hne. rewrite bt_get_remove by apply Hinv. by rewrite decide_False by done.
      + intros n' [= <-]. lia. }
  clearbody rs. destruct Hrs as (Hs & Hsub & Hoth & Hcnt). set (m1 := mkMvcc (versions m) rs).
  assert (Hinv1 : mvcc_inv m1 cur clk).
  { constructor; [apply Hinv|apply Hinv|done|]. intros s' Ha. apply Hinv. by apply Hsub. }
  destruct (gc_ok m1 cur clk Hinv1) as [Hg Hk]. split_and!; [exact Hg| |exact Hoth|exact Hcnt].
  intros s' Ha Ha' c k. rewrite (Hk s' Ha' Ha' c k). done.
Qed.

Lemma mvcc_inv_ext m cur cur' clk : (∀ c k, cur c k = cur' c k) → mvcc_inv m cur clk → mvcc_inv m cur' clk.
Proof. intros Heq [H1 H2 H3 H4]. constructor; try done. intros c k h Hh. rewrite <- Heq. by apply H2. Qed.

Lemma keeps_ext m cur m' cur1 cur2 : (∀ c k, cur1 c k = cur2 c k) → keeps_readers m cur m' cur1 → keeps_readers m cur m' cur2.
Proof. intros Heq Hk s Ha Ha' c k. rewrite <- (Hk s Ha Ha'). unfold snapshot_read. by rewrite Heq. Qed.

(** The baseline of a tombstoned key without history is the tombstone itself, so a reader
    that saw no document is handed a [VTombstone] as if it were one. *)
Lemma tombstone_baseline_shown m coll key s h vc :
  history_of m coll key = None → 0 ≤ s →
  lookup_snapshot_version coll key s (ensure_baseline_version coll key (VTombstone h vc) m) = Some (Some (VTombstone h vc)).
Proof.
  intros Hh Hs. rewrite lookup_snapshot_history. unfold ensure_baseline_version, entry_or_default. rewrite Hh. cbn [from_option].
  rewrite history_of_put, decide_True by done. cbn. unfold at_snapshot. cbn [select v_hlc HLC_ZERO]. by rewrite decide_True by done.
Qed.
