(* ===== verification/Database.v ===== *)
(** * Databases (src/src/database/mod.rs)

    Named collections, one write-ahead log, the version histories behind snapshot reads
    and the periodic checkpoint.  [clock] and [node_id] of the Rust struct are the ones
    of its log writer ([Arc::clone(&clock)]), so the writer's copy is the only one here.
    [SharedDatabase] (src/src/concurrency/shared.rs) takes the exclusive lock around
    each of these methods, so a concurrent run is a sequence of them. *)

From stdpp Require Import gmap.
From S2P Require Import Prelude RustStd Value Codec Page PageManager BufferPool Hlc VClock WalRecord WalWriter AppliedSet BTreeNode BTree Index Collection Naming Mvcc.

Local Open Scope Z_scope.

Definition DEFAULT_POOL_CAPACITY : nat := 256.
Definition CHECKPOINT_INTERVAL : Z := 100.

Record Database (S : Type) := mkDatabase {
  collections : gmap bytes (Collection S);
  wal : WalWriter;
  writes_since_checkpoint : Z;
  applied_set : AppliedSet;
  mvcc : Mvcc;
  read_concern_default : option Z;
  write_concern_default : option Z;
  consistency_file : option (option Z * option Z);
}.
Arguments mkDatabase {S} _ _ _ _ _ _ _ _.
Arguments collections {S} _.
Arguments wal {S} _.
Arguments writes_since_checkpoint {S} _.
Arguments applied_set {S} _.
Arguments mvcc {S} _.
Arguments read_concern_default {S} _.
Arguments write_concern_default {S} _.
Arguments consistency_file {S} _.

(** What a call meets that the program does not decide: the fuel of the loops below
    it, the successive readings of the wall clock, the order in which the hash maps of
    the pools and of the database are visited. *)
Record Env := mkEnv {
  fuel : nat;
  wall : nat → option Z;
  dirty_order : list Z → list Z;
  coll_order : list bytes → list bytes;
}.

(** [f64 ==] on the bits: zeros are equal, a NaN equals nothing. *)
Definition f64_is_nan (b : Z) : bool := Z.ltb 9218868437227405312 (Z.land b 9223372036854775807).
Definition f64_eqb (a b : Z) : bool :=
  negb (f64_is_nan a) && negb (f64_is_nan b) && ((a =? b) || (Z.land (Z.lor a b) 9223372036854775807 =? 0)).

(** The derived [PartialEq] of [Value]. *)
Fixpoint value_eqb (v w : Value) {struct v} : bool :=
  match v, w with
  | VNull, VNull => true
  | VBool a, VBool b => Bool.eqb a b
  | VInteger a, VInteger b => a =? b
  | VFloat a, VFloat b => f64_eqb a b
  | VString a, VString b | VBytes a, VBytes b => bool_decide (a = b)
  | VArray a, VArray b =>
      (fix go (a b : list Value) : bool :=
         match a, b with
         | [], [] => true
         | x :: a, y :: b => value_eqb x y && go a b
         | _, _ => false
         end) a b
  | VObject a, VObject b =>
      (fix go (a b : list (bytes * Value)) : bool :=
         match a, b with
         | [], [] => true
         | (k, x) :: a, (k', y) :: b => bool_decide (k = k') && value_eqb x y && go a b
         | _, _ => false
         end) a b
  | VRef c u, VRef c' u' => bool_decide (c = c') && bool_decide (u = u')
  | VTombstone h vc, VTombstone h' vc' => (h =? h') && bool_decide (vc = vc')
  | VCrdt k p, VCrdt k' p' => bool_decide (k = k') && bool_decide (p = p')
  | _, _ => false
  end.

(** [RangeBounds::contains] *)
Definition contains (lo hi : Bound bytes) (k : bytes) : bool :=
  match lo with Included s => kleb s k | Excluded s => kltb s k | Unbounded => true end &&
  match hi with Included e => kleb k e | Excluded e => kltb k e | Unbounded => true end.

Section database.
Context {C : Crc32} {S : Type} {PS : PageStore C S}.
Implicit Types (d : Database S) (e : Env).

Abbreviation db_f := (FT (Database S) GrumpyError).

Definition with_collections x d : Database S :=
  mkDatabase x (wal d) (writes_since_checkpoint d) (applied_set d) (mvcc d) (read_concern_default d) (write_concern_default d) (consistency_file d).
Definition with_wal x d : Database S :=
  mkDatabase (collections d) x (writes_since_checkpoint d) (applied_set d) (mvcc d) (read_concern_default d) (write_concern_default d) (consistency_file d).
Definition with_writes x d : Database S :=
  mkDatabase (collections d) (wal d) x (applied_set d) (mvcc d) (read_concern_default d) (write_concern_default d) (consistency_file d).
Definition with_mvcc x d : Database S :=
  mkDatabase (collections d) (wal d) (writes_since_checkpoint d) (applied_set d) x (read_concern_default d) (write_concern_default d) (consistency_file d).
Definition with_defaults r w f d : Database S :=
  mkDatabase (collections d) (wal d) (writes_since_checkpoint d) (applied_set d) (mvcc d) r w f.

(** Calls on the fields of [self]. *)
Definition wal_call {A} (m : wal_m A) : db_f A := ft_lift (st_zoom wal with_wal m).
Definition mvcc_call (f : Mvcc → Mvcc) : db_f unit := ft_lift (st_modify (λ d, with_mvcc (f (mvcc d)) d)).
Definition lift_db {A} (r : res A) : db_f A := ft_lift (st_lift r).

(** [self.collections.get_mut(collection).ok_or_else(..)?] and a method of it. *)
Definition coll_call {A} (name : bytes) (m : FT (Collection S) GrumpyError A) : db_f A :=
  d ← ft_lift st_get;
  c ← lift_db (ok_or (collections d !! name) (CollectionNotFound name));
  ft_zoom (λ _, c) (λ c' d, with_collections (<[name := c']> (collections d)) d) m.

Definition current_hlc d : Z := state (w_clock (wal d)).
Definition node_id d : Z := w_node_id (wal d).

(** ** Collections and checkpoints *)

Definition list_collections d : list bytes := sort_names (map_to_list (collections d)).*1.

Definition drop_collection (name : bytes) : db_f unit :=
  d ← ft_lift st_get;
  _ ← lift_db (ok_or (collections d !! name) (CollectionNotFound name));
  _ ← ft_lift (st_modify (λ d, with_collections (delete name (collections d)) d));
  mvcc_call (forget_collection name).

(** [for coll in self.collections.values_mut() { coll.flush()?; }] *)
Fixpoint flush_collections (e : Env) (names : list bytes) : db_f unit :=
  match names with
  | [] => mret tt
  | n :: names => _ ← coll_call n (Collection.flush (dirty_order e)); flush_collections e names
  end.

(** [checkpoint_wall]: the clock reading of the checkpoint record. *)
Definition flush_at (e : Env) (checkpoint_wall : option Z) : db_f unit :=
  d ← ft_lift st_get;
  _ ← flush_collections e (coll_order e (map_to_list (collections d)).*1);
  _ ← wal_call (log_checkpoint checkpoint_wall);
  _ ← wal_call truncate;
  ft_lift (st_modify (with_writes 0)).

Definition flush (e : Env) : db_f unit := flush_at e (wall e 0).

Definition maybe_checkpoint (e : Env) (checkpoint_wall : option Z) : db_f unit :=
  d ← ft_lift st_get;
  if decide (writes_since_checkpoint d = u32_max) then lift_db Panic
  else
    _ ← ft_lift (st_modify (λ d, with_writes (writes_since_checkpoint d + 1) d));
    d ← ft_lift st_get;
    if decide (CHECKPOINT_INTERVAL ≤ writes_since_checkpoint d) then flush_at e checkpoint_wall else mret tt.

(** ** Documents *)

(** [for rec in &records { self.wal.log_page_write(..)?; }], reading the clock from its
    [i]-th value on. *)
Fixpoint log_pages (e : Env) (i : nat) (tx_id : Z) (records : list PageWriteRecord) : db_f unit :=
  match records with
  | [] => mret tt
  | rec :: records =>
      _ ← wal_call (log_page_write (wall e i) tx_id (pw_page_id rec) (before rec) (after rec));
      log_pages e (Datatypes.S i) tx_id records
  end.

(** The end of every write: commit record, version, checkpoint. *)
Definition commit_write (e : Env) (i : nat) (tx_id : Z) (collection key : bytes) (version : option Value) : db_f unit :=
  '(_, commit_hlc) ← wal_call (log_commit (wall e i) tx_id);
  _ ← mvcc_call (append_version collection key commit_hlc version);
  maybe_checkpoint e (wall e (Datatypes.S i)).

Definition insert (e : Env) (collection key : bytes) (value : Value) : db_f unit :=
  let encoded := doc_encode (mkDocument key value) in
  tx_id ← wal_call begin_tx;
  '(_, records) ← coll_call collection (insert_doc (fuel e) key value encoded);
  _ ← log_pages e 0 tx_id records;
  commit_write e (length records) tx_id collection key (Some value).

Definition get_including_tombstone (e : Env) (collection key : bytes) : db_f (option Value) :=
  found ← coll_call collection (get_raw (fuel e) key);
  match found with
  | None => mret None
  | Some raw => doc ← lift_db (doc_decode raw); mret (Some (value doc))
  end.

Definition get (e : Env) (collection key : bytes) : db_f (option Value) :=
  found ← get_including_tombstone e collection key;
  mret (match found with
        | None => None
        | Some v => if is_tombstone v then None else Some v
        end).

(** Replaces the stored [old] by [new]: the part [update] and [delete] share. *)
Definition replace_doc (e : Env) (i : nat) (collection key : bytes) (old new : Value) (version : option Value) : db_f unit :=
  tx_id ← wal_call begin_tx;
  del_records ← coll_call collection (delete_doc (fuel e) key old);
  _ ← log_pages e i tx_id del_records;
  let encoded := doc_encode (mkDocument key new) in
  '(_, ins_records) ← coll_call collection (insert_doc (fuel e) key new encoded);
  _ ← log_pages e (i + length del_records) tx_id ins_records;
  commit_write e (i + length del_records + length ins_records) tx_id collection key version.

Definition update (e : Env) (collection key : bytes) (value : Value) : db_f unit :=
  found ← get_including_tombstone e collection key;
  old_value ← lift_db (ok_or found (KeyNotFound key));
  _ ← mvcc_call (ensure_baseline_version collection key old_value);
  replace_doc e 0 collection key old_value value (Some value).

Definition tombstone_of (node hlc : Z) : Value := VTombstone hlc (encode_to (singleton node hlc) []).

Definition delete (e : Env) (collection key : bytes) : db_f unit :=
  found ← get e collection key;
  value ← lift_db (ok_or found (KeyNotFound key));
  _ ← mvcc_call (ensure_baseline_version collection key value);
  deleted_at_hlc ← wal_call (clock_now (wall e 0));
  d ← ft_lift st_get;
  replace_doc e 1 collection key value (tombstone_of (node_id d) deleted_at_hlc) None.

(** [Document::decode] on each row, tombstones skipped. *)
Fixpoint live_rows (rows : list (bytes * bytes)) : res (list (bytes * Value)) :=
  match rows with
  | [] => Ok []
  | (key, raw) :: rows =>
      doc ← doc_decode raw;
      rest ← live_rows rows;
      Ok (if is_tombstone (value doc) then rest else (key, value doc) :: rest)
  end.

Definition scan (e : Env) (collection : bytes) (lo hi : Bound bytes) : db_f (list (bytes * Value)) :=
  rows ← coll_call collection (scan_raw (fuel e) lo hi);
  lift_db (live_rows rows).

(** ** Secondary indexes *)

Definition create_index (e : Env) (collection index_name field_path : bytes) (s : S) : db_f unit :=
  _ ← lift_db (validate_name index_name);
  coll_call collection (Collection.create_index (fuel e) index_name field_path s).

Definition drop_index (collection index_name : bytes) : db_f unit :=
  coll_call collection (Collection.drop_index index_name).

Definition find_index_path (c : Collection S) (index_name : bytes) : res bytes :=
  def ← ok_or (list_find (λ x, x.1 = index_name) (index_defs c)) (IndexNotFound index_name);
  Ok def.2.2.

Definition index_field_path (collection index_name : bytes) : db_f bytes :=
  d ← ft_lift st_get;
  c ← lift_db (ok_or (collections d !! collection) (CollectionNotFound collection));
  lift_db (find_index_path c index_name).

Definition drop_tombstones (rows : list (bytes * Value)) : list (bytes * Value) :=
  filter (λ r, is_tombstone r.2 = false) rows.

Definition query (e : Env) (collection index_name : bytes) (value : Value) : db_f (list (bytes * Value)) :=
  rows ← coll_call collection (query_index (fuel e) index_name value);
  mret (drop_tombstones rows).

Definition query_range (e : Env) (collection index_name : bytes) (start end_ : Value) : db_f (list (bytes * Value)) :=
  rows ← coll_call collection (query_index_range (fuel e) index_name start end_);
  mret (drop_tombstones rows).

(** ** References *)

Definition resolve_ref (e : Env) (collection id : bytes) : db_f (option Value) := get e collection id.

Abbreviation visited := (list (bytes * bytes)).

(** [levels] is [max_depth + 1 - depth]: the calls with [depth > max_depth] are those at
    level 0, and only following a reference goes down a level. *)
Fixpoint resolve_recursive (e : Env) (levels : nat) : Value → visited → db_f (Value * visited) :=
  match levels with
  | O => λ v seen, mret (v, seen)
  | Datatypes.S levels' =>
      fix go (v : Value) (seen : visited) {struct v} : db_f (Value * visited) :=
        match v with
        | VRef collection uuid =>
            if decide ((collection, uuid) ∈ seen) then ft_lift (st_fail CyclicReference)
            else
              target ← get e collection uuid;
              match target with
              | Some t => resolve_recursive e levels' t ((collection, uuid) :: seen)
              | None => mret (v, (collection, uuid) :: seen)
              end
        | VObject m =>
            r ← (fix fields (m : list (bytes * Value)) (resolved : list (bytes * Value)) (seen : visited) :
                   db_f (list (bytes * Value) * visited) :=
                   match m with
                   | [] => mret (resolved, seen)
                   | (k, x) :: m => r ← go x seen; fields m (bt_insert k r.1 resolved) r.2
                   end) m [] seen;
            mret (VObject r.1, r.2)
        | VArray arr =>
            r ← (fix elems (arr : list Value) (seen : visited) : db_f (list Value * visited) :=
                   match arr with
                   | [] => mret ([], seen)
                   | x :: arr => r ← go x seen; rest ← elems arr r.2; mret (r.1 :: rest.1, rest.2)
                   end) arr seen;
            mret (VArray r.1, r.2)
        | _ => mret (v, seen)
        end
  end.

Definition resolve_deep (e : Env) (value : Value) (max_depth : nat) : db_f Value :=
  r ← resolve_recursive e (Datatypes.S max_depth) value [];
  mret r.1.

(** ** Maintenance *)

Definition document_count (collection : bytes) : db_f Z :=
  d ← ft_lift st_get;
  c ← lift_db (ok_or (collections d !! collection) (CollectionNotFound collection));
  mret (Collection.document_count c).

Definition consistency_defaults d : option Z * option Z := (read_concern_default d, write_concern_default d).

(** The file is removed when both defaults are unset. *)
Definition save_consistency_defaults (read_concern write_concern : option Z) : option (option Z * option Z) :=
  match read_concern, write_concern with
  | None, None => None
  | _, _ => Some (read_concern, write_concern)
  end.

Definition set_consistency_defaults (read_concern write_concern : option Z) : db_f unit :=
  if decide (read_concern = Some 0) then ft_lift (st_fail (InvalidArgument "read_concern must be >= 1"))
  else if decide (write_concern = Some 0) then ft_lift (st_fail (InvalidArgument "write_concern must be >= 1"))
  else ft_lift (st_modify (with_defaults read_concern write_concern (save_consistency_defaults read_concern write_concern))).

Definition reset_consistency_defaults : db_f unit := set_consistency_defaults None None.

Definition load_consistency_defaults (file : option (option Z * option Z)) : res (option Z * option Z) :=
  match file with
  | None => Ok (None, None)
  | Some (r, w) =>
      if decide (r = Some 0) then Err (Corruption "invalid consistency default: read_concern must be >= 1")
      else if decide (w = Some 0) then Err (Corruption "invalid consistency default: write_concern must be >= 1")
      else Ok (r, w)
  end.

Definition record_remote_hlc (w : option Z) (hlc : Z) : db_f Z :=
  wal_call (λ x, let '(r, c) := Hlc.update w hlc (w_clock x) in
    (match r with Ok h => Ok h | Err err => Err (hlc_error err) | Panic => Panic end,
     mkWriter (w_file x) (w_next_lsn x) (w_next_tx_id x) (w_file_version x) (w_node_id x) c)).

(** ** Snapshot reads *)

(** [begin_read] yields the snapshot of the new transaction; dropping it unregisters it. *)
Definition begin_read : db_f Z :=
  d ← ft_lift st_get;
  let snapshot_hlc := current_hlc d in
  _ ← mvcc_call (register_reader_snapshot snapshot_hlc);
  mret snapshot_hlc.

Definition drop_read_tx (snapshot : Z) : db_f unit := mvcc_call (unregister_reader_snapshot snapshot).

Definition snapshot_get (e : Env) (collection key : bytes) (snapshot : Z) : db_f (option Value) :=
  d ← ft_lift st_get;
  match lookup_snapshot_version collection key snapshot (mvcc d) with
  | Some value => mret value
  | None => get e collection key
  end.

(** One key of the version map. *)
Definition overlay_key (m : Mvcc) (collection : bytes) (lo hi : Bound bytes) (snapshot : Z)
    (visible : list (bytes * Value)) (key : bytes) : list (bytes * Value) :=
  if contains lo hi key then
    match lookup_snapshot_version collection key snapshot m with
    | Some (Some value) => bt_insert key value visible
    | Some None => bt_remove key visible
    | None => visible
    end
  else visible.

Definition snapshot_scan (e : Env) (collection : bytes) (lo hi : Bound bytes) (snapshot : Z) : db_f (list (bytes * Value)) :=
  rows ← scan e collection Unbounded Unbounded;
  let visible := foldl (λ vis r, if contains lo hi r.1 then bt_insert r.1 r.2 vis else vis) [] rows in
  d ← ft_lift st_get;
  mret (match versions (mvcc d) !! collection with
        | Some by_key => foldl (overlay_key (mvcc d) collection lo hi snapshot) visible (map_to_list by_key).*1
        | None => visible
        end).

Definition snapshot_query (e : Env) (collection index_name : bytes) (value : Value) (snapshot : Z) : db_f (list (bytes * Value)) :=
  field_path ← index_field_path collection index_name;
  rows ← snapshot_scan e collection Unbounded Unbounded snapshot;
  mret (filter (λ r, match extract_field r.2 field_path with Some f => value_eqb f value | None => false end = true) rows).

Definition in_key_range (start_key end_key field_path : bytes) (doc : Value) : bool :=
  match extract_field doc field_path with
  | None => false
  | Some field =>
      match encode_sortable_value field with
      | Ok encoded => kleb start_key encoded && kltb encoded end_key
      | _ => false
      end
  end.

Definition snapshot_query_range (e : Env) (collection index_name : bytes) (start end_ : Value) (snapshot : Z) :
    db_f (list (bytes * Value)) :=
  field_path ← index_field_path collection index_name;
  start_key ← lift_db (encode_sortable_value start);
  end_key ← lift_db (encode_sortable_value end_);
  rows ← snapshot_scan e collection Unbounded Unbounded snapshot;
  mret (filter (λ r, in_key_range start_key end_key field_path r.2 = true) rows).
End database.

(** ** The files themselves *)

Section files.
Context {C : Crc32}.

Abbreviation db_f := (FT (Database PageManager) GrumpyError).

(** A subdirectory: its name, [data.db] and [primary.idx]. *)
Record Subdir := mkSubdir { dir_name : bytes; dir_data : option bytes; dir_index : option bytes }.

Definition skipped_dir (name : bytes) : bool :=
  bool_decide (head name = Some x2e) || bool_decide (name = str "_database") || bool_decide (name = str "_replication").

Fixpoint discover (dirs : list Subdir) (found : gmap bytes (Collection PageManager)) : res (gmap bytes (Collection PageManager)) :=
  match dirs with
  | [] => Ok found
  | s :: dirs =>
      if skipped_dir (dir_name s) then discover dirs found
      else match dir_data s with
           | Some _ =>
               coll ← coll_open (dir_data s) (dir_index s) (dir_name s) DEFAULT_POOL_CAPACITY;
               discover dirs (<[dir_name s := coll]> found)
           | None => discover dirs found
           end
  end.

Definition open_with (wal_file : option bytes) (applied_file : option AppliedSet) (consistency : option (option Z * option Z))
    (dirs : list Subdir) (node_id : Z) (clock : HlcClock) : res (Database PageManager) :=
  w ← new_with_identity wal_file node_id clock;
  let applied := AppliedSet.load applied_file in
  defaults ← load_consistency_defaults consistency;
  colls ← discover dirs ∅;
  Ok (mkDatabase colls w 0 applied (mkMvcc ∅ []) defaults.1 defaults.2 consistency).

(** [data_file] and [index_file]: what the directory of the new collection holds. *)
Definition create_collection (name : bytes) (data_file index_file : option bytes) : db_f unit :=
  _ ← lift_db (validate_name name);
  d ← ft_lift st_get;
  if decide (is_Some (collections d !! name)) then
    ft_lift (st_fail (CollectionNotFound (str "collection '" ++ name ++ str "' already exists")))
  else
    coll ← lift_db (coll_open data_file index_file name DEFAULT_POOL_CAPACITY);
    ft_lift (st_modify (λ d, with_collections (<[name := coll]> (collections d)) d)).

Definition compact (e : Env) (collection : bytes) (data_tmp index_tmp : option bytes)
    (residue : SecondaryIndex PageManager → PageManager) : db_f Z :=
  count ← coll_call collection (Collection.compact (fuel e) (dirty_order e) data_tmp index_tmp residue);
  _ ← wal_call (log_checkpoint (wall e 0));
  _ ← wal_call truncate;
  _ ← ft_lift (st_modify (with_writes 0));
  mret count.
End files.
