(* ===== verification/DatabaseSpec.v ===== *)
(** * What a database stores, and snapshot isolation

    [db_rep d D]: the database [d] stores the collections [D], each an ordered map from
    UUIDs to encoded documents, and its version histories agree with them.  Reads,
    writes, checkpoints and read transactions are related to [D]. *)

From stdpp Require Import gmap.
From S2P Require Import Prelude RustStd Value Codec Page Slotted PageManager Overflow BufferPool Hlc VClock WalRecord WalWriter AppliedSet.
From S2P Require Import BTreeNode BTree BTreeSpec BTreeCursor Index Collection CollectionSpec CollectionIndex Naming Mvcc Database.

Local Open Scope Z_scope.

Section spec.
Context {C : Crc32} {S : Type} {PS : PageStore C S}.
#[local] Existing Instance uuid_key.
#[local] Existing Instance uuid_laws.
Implicit Types (d : Database S) (e : Env) (c : Collection S) (D : gmap bytes (list (bytes * bytes))) (u coll : bytes).

Abbreviation db_f := (FT (Database S) GrumpyError).

(** ** Stored and visible documents *)

Definition shown (v : Value) : option Value := if is_tombstone v then None else Some v.

(** What [get] shows. *)
Definition visible D : view := λ coll u, kv ← D !! coll; w ← doc_of kv u; shown w.

Definition db_colls d D : Prop := ∀ n, option_Forall2 coll_indexed (collections d !! n) (D !! n).

Record db_rep d D : Prop := {
  dr_colls : db_colls d D;
  dr_clock : is_u64 (current_hlc d);
  dr_writes : 0 ≤ writes_since_checkpoint d < CHECKPOINT_INTERVAL;
  dr_mvcc : mvcc_inv (mvcc d) (visible D) (current_hlc d);
}.

(** Every reading of the wall clock succeeds; the hash maps are visited in some order. *)
Record env_ok e : Prop := {
  eo_wall : ∀ i, ∃ t, wall e i = Some t ∧ 0 ≤ t < 2 ^ 48;
  eo_dirty : ∀ l, dirty_order e l ≡ₚ l;
  eo_colls : ∀ l, coll_order e l ≡ₚ l;
}.

(** ** The log *)

(** Room for [n] more records and timestamps. *)
Record can_stamp (n : Z) (w : WalWriter) : Prop := {
  cs_clock : is_u64 (state (w_clock w));
  cs_logical : logical (state (w_clock w)) + n ≤ u16_max;
  cs_lsn : w_next_lsn w + n ≤ u64_max;
}.

Record stamped (n : Z) (w w' : WalWriter) : Prop := {
  sp_clock : is_u64 (state (w_clock w'));
  sp_later : state (w_clock w) ≤ state (w_clock w');
  sp_logical : logical (state (w_clock w')) ≤ logical (state (w_clock w)) + n;
  sp_lsn : w_next_lsn w' ≤ w_next_lsn w + n;
  sp_node : w_node_id w' = w_node_id w;
}.

Lemma stamped_refl w : is_u64 (state (w_clock w)) → stamped 0 w w.
Proof. intros. constructor; lia || done. Qed.

Lemma stamped_trans n n' w1 w2 w3 : stamped n w1 w2 → stamped n' w2 w3 → stamped (n + n') w1 w3.
Proof. intros [] []. constructor; lia || congruence || done. Qed.

Lemma can_stamp_after n n' w w' : can_stamp n w → stamped n' w w' → can_stamp (n - n') w'.
Proof. intros [] []. constructor; lia || done. Qed.

Lemma can_stamp_le n n' w : can_stamp n w → n' ≤ n → can_stamp n' w.
Proof. intros [] ?. constructor; lia || done. Qed.

Lemma now_stamps (k : HlcClock) t :
  is_u64 (state k) → 0 ≤ t < 2 ^ 48 → logical (state k) < u16_max →
  ∃ h k', now (Some t) k = (Ok h, k') ∧ state k' = h ∧ state k < h ∧ is_u64 h ∧ logical h ≤ logical (state k) + 1.
Proof.
  intros Hu Ht Hl. pose proof (now_ok k t Hu Ht) as Hnow. pose proof (now_run k t Hu Ht) as Hrun. cbn zeta in Hrun.
  pose proof (logical_range (state k)) as Hr. pose proof (physical_range _ Hu) as Hp. unfold is_u16, u16_max in *.
  destruct (now (Some t) k) as [[h|err|] k']; [|exfalso; lia|done]. destruct Hnow as (Hs & Hlt & Hh & _).
  exists h, k'. split_and!; [done..|]. repeat case_decide; [| |injection Hrun as -> _].
  - injection Hrun as -> _. destruct (pack_parts t 0 Ht ltac:(unfold is_u16; lia)) as (_ & H2 & _). lia.
  - discriminate Hrun.
  - destruct (pack_parts (physical_ms (state k)) (logical (state k) + 1) Hp ltac:(unfold is_u16; lia)) as (_ & H2 & _). lia.
Qed.

Lemma clock_now_ok w (o : option Z) t :
  can_stamp 1 w → o = Some t → 0 ≤ t < 2 ^ 48 →
  ∃ h w', clock_now o w = (Ok h, w') ∧ stamped 1 w w' ∧ state (w_clock w) < h ∧ state (w_clock w') = h ∧ is_u64 h ∧
    (now o (w_clock w)).1 = Ok h.
Proof.
  intros [Hu Hl Hn] -> Ht. destruct (now_stamps (w_clock w) t Hu Ht ltac:(unfold u16_max in *; lia)) as (h & k' & Hrun & Hs & Hlt & Hh & Hlg).
  unfold clock_now. rewrite Hrun. eexists _, _. split; [reflexivity|]. cbn [w_clock fst]. rewrite Hs.
  split_and!; try done. constructor; cbn [w_clock w_next_lsn w_node_id]; rewrite ?Hs; lia || done.
Qed.

Lemma log_record_stamps w (o : option Z) t make :
  can_stamp 1 w → o = Some t → 0 ≤ t < 2 ^ 48 →
  ∃ lsn h w', log_record o make w = (Ok (lsn, h), w') ∧ stamped 1 w w' ∧ state (w_clock w) < h ∧ state (w_clock w') = h.
Proof.
  intros [Hu Hl Hn] -> Ht. destruct (now_stamps (w_clock w) t Hu Ht ltac:(unfold u16_max in *; lia)) as (h & k' & Hrun & Hs & Hlt & Hh & Hlg).
  set (w1 := mkWriter (w_file w) (w_next_lsn w + 1) (w_next_tx_id w) (w_file_version w) (w_node_id w) (w_clock w)).
  assert (Hal : alloc_lsn w = (Ok (w_next_lsn w), w1)) by (unfold alloc_lsn; rewrite st_get_bind; by rewrite decide_False by lia).
  unfold log_record. erewrite st_step by exact Hal.
  erewrite st_step by (unfold clock_now, w1; cbn [w_clock]; rewrite Hrun; reflexivity).
  rewrite st_get_bind. unfold append_record. rewrite st_modify_bind. eexists _, _, _. split; [reflexivity|]. cbn [w_clock]. rewrite Hs.
  split_and!; try done. constructor; cbn [w_clock w_next_lsn w_node_id]; rewrite ?Hs; lia || done.
Qed.

Lemma with_wal_id d : with_wal (wal d) d = d.
Proof. by destruct d. Qed.

Lemma wal_step {A B} (m : wal_m A) (k : A → db_f B) d a w' :
  m (wal d) = (Ok a, w') → (wal_call m ≫= k) d = k a (with_wal w' d).
Proof. intros H. apply ft_lift_step. unfold st_zoom. by rewrite H. Qed.

Lemma log_pages_ok e tx records : ∀ i d,
  env_ok e → can_stamp (Z.of_nat (length records)) (wal d) →
  ∃ w', log_pages e i tx records d = Some (Ok tt, with_wal w' d) ∧ stamped (Z.of_nat (length records)) (wal d) w'.
Proof.
  induction records as [|r records IH]; intros i d He Hs; cbn [log_pages].
  { exists (wal d). rewrite with_wal_id. split; [done|]. apply stamped_refl, Hs. }
  destruct (eo_wall _ He i) as (t & Ht & Hr). cbn [length] in *.
  destruct (log_record_stamps (wal d) (wall e i) t (λ lsn node hlc vc, page_write lsn tx node hlc vc (pw_page_id r) (before r) (after r)))
    as (lsn & h & w1 & Hrun & Hst & _); [eapply can_stamp_le; [exact Hs|lia]|done|done|].
  destruct (IH (Datatypes.S i) (with_wal w1 d) He) as (w2 & Hrun2 & Hst2).
  { eapply can_stamp_le; [by eapply can_stamp_after|lia]. }
  exists w2. split; [erewrite wal_step by exact Hrun; exact Hrun2|].
  replace (Z.of_nat _) with (1 + Z.of_nat (length records)) by lia. by eapply stamped_trans.
Qed.

(** ** The collections *)

Lemma colls_lookup d D coll kv : db_colls d D → D !! coll = Some kv → ∃ c, collections d !! coll = Some c ∧ coll_indexed c kv.
Proof. intros Hd Hk. specialize (Hd coll). rewrite Hk in Hd. inversion Hd; subst. eauto. Qed.

Lemma colls_missing d D coll : db_colls d D → D !! coll = None → collections d !! coll = None.
Proof. intros Hd Hk. specialize (Hd coll). rewrite Hk in Hd. by inversion Hd. Qed.

Definition set_coll coll c d : Database S := with_collections (<[coll := c]> (collections d)) d.

Lemma colls_insert d D coll c kv : db_colls d D → coll_indexed c kv → db_colls (set_coll coll c d) (<[coll := kv]> D).
Proof.
  intros Hd Hc n. unfold set_coll. cbn [collections with_collections]. destruct (decide (n = coll)) as [->|Hne].
  - rewrite !lookup_insert_eq. by constructor.
  - rewrite !lookup_insert_ne by done. apply Hd.
Qed.

Lemma colls_same d D coll c kv : db_colls d D → D !! coll = Some kv → coll_indexed c kv → db_colls (set_coll coll c d) D.
Proof. intros Hd Hk Hc. rewrite <- (insert_id D coll kv Hk). by apply colls_insert. Qed.

Lemma lift_db_step {A B} (r : res A) (k : A → db_f B) d a : r = Ok a → (lift_db r ≫= k) d = k a d.
Proof. by intros ->. Qed.

Lemma coll_step {A B} coll (m : FT (Collection S) GrumpyError A) (k : A → db_f B) d c a c' :
  collections d !! coll = Some c → m c = Some (Ok a, c') → (coll_call coll m ≫= k) d = k a (set_coll coll c' d).
Proof. intros Hc Hm. apply ft_step. unfold coll_call. rewrite ft_get_bind, Hc. erewrite lift_db_step by reflexivity. by apply ft_zoom_ok. Qed.

Lemma coll_step_err {A B} coll (m : FT (Collection S) GrumpyError A) (k : A → db_f B) d c err c' :
  collections d !! coll = Some c → m c = Some (Err err, c') → (coll_call coll m ≫= k) d = Some (Err err, set_coll coll c' d).
Proof. intros Hc Hm. apply ft_step_err. unfold coll_call. rewrite ft_get_bind, Hc. erewrite lift_db_step by reflexivity. by apply ft_zoom_ok. Qed.

Lemma coll_step_missing {A B} coll (m : FT (Collection S) GrumpyError A) (k : A → db_f B) d :
  collections d !! coll = None → (coll_call coll m ≫= k) d = Some (Err (CollectionNotFound coll), d).
Proof. intros Hc. apply ft_step_err. unfold coll_call. by rewrite ft_get_bind, Hc. Qed.

(** Flushing keeps what a collection stores. *)
Lemma coll_flush_ok c kv (order : list Z → list Z) :
  (∀ l, order l ≡ₚ l) → coll_indexed c kv → ∃ c', Collection.flush order c = Some (Ok tt, c') ∧ coll_indexed c' kv.
Proof.
  intros Ho [(dm & m & DP & es & [Hh Hcur Hbt] & ->) Hdec Hix]. pose proof Hh as [Hp Hid Hent Hap Hpg Hca Hz].
  destruct (flush_each_ok (order (dirty_pages (data_pool c))) _ _ _ Hp) as (b' & dm' & Hrun & Hp' & Ht & Hpin & _).
  { intros pid Hin. rewrite (Ho (dirty_pages (data_pool c))) in Hin. apply dirty_pages_spec in Hin as (i & Hi & _). eauto. }
  exists (with_pool b' c). split; [unfold Collection.flush, pool_call, ft_lift, st_zoom, flush_all; by rewrite st_get_bind, Hrun|].
  constructor; [|done|done]. exists dm', m, DP, es. split; [|done]. constructor; [|done|done].
  eapply heap_change; [exact Hh|exact Hp'| |done|done|intros q j; cbn [data_pool with_pool]; rewrite Ht; apply Hca| |done].
  2:{ intros k i q Hk Hq. split; [done|]. by apply (Hent k i Hk). }
  constructor; cbn [data_pool with_pool].
  - destruct Hid as [Hne _]. intros E. rewrite E in Hpin. by destruct (frames (data_pool c)).
  - intros i f Hf. assert (Hi : (pin_count <$> frames b') !! i = Some (pin_count f)) by (by rewrite list_lookup_fmap, Hf).
    rewrite Hpin, list_lookup_fmap in Hi. destruct (frames (data_pool c) !! i) as [g|] eqn:Hg; [|done]. injection Hi as <-. by eapply (id_pins _ Hid).
Qed.

Lemma flush_collections_ok e D names : ∀ d,
  env_ok e → db_colls d D → (∀ n, n ∈ names → is_Some (D !! n)) →
  ∃ cs, flush_collections e names d = Some (Ok tt, with_collections cs d) ∧ db_colls (with_collections cs d) D.
Proof.
  induction names as [|n names IH]; intros d He Hd Hn; cbn [flush_collections].
  { exists (collections d). by destruct d. }
  destruct (Hn n ltac:(by left)) as [kv Hkv]. destruct (colls_lookup d D n kv Hd Hkv) as (c & Hc & Hci).
  destruct (coll_flush_ok c kv (dirty_order e) (eo_dirty _ He) Hci) as (c' & Hrun & Hci').
  destruct (IH (set_coll n c' d) He (colls_same d D n c' kv Hd Hkv Hci')) as (cs & Hrun2 & Hd2); [intros n' Hin; apply Hn; by right|].
  exists cs. split; [erewrite coll_step by eassumption; exact Hrun2|exact Hd2].
Qed.

(** A checkpoint changes neither documents nor histories. *)
Lemma flush_at_ok e d D (o : option Z) t :
  env_ok e → db_colls d D → can_stamp 1 (wal d) → o = Some t → 0 ≤ t < 2 ^ 48 →
  ∃ d', flush_at e o d = Some (Ok tt, d') ∧ db_colls d' D ∧ mvcc d' = mvcc d ∧ writes_since_checkpoint d' = 0 ∧
    stamped 1 (wal d) (wal d').
Proof.
  intros He Hd Hs Ho Ht. unfold flush_at. rewrite ft_get_bind.
  destruct (flush_collections_ok e D (coll_order e (map_to_list (collections d)).*1) d He Hd) as (cs & Hrun & Hd1).
  { intros n Hn. rewrite (eo_colls _ He) in Hn. apply list_elem_of_fmap in Hn as ([n' c] & -> & Hin). apply elem_of_map_to_list in Hin.
    specialize (Hd n'). rewrite Hin in Hd. inversion Hd; subst. cbn. eauto. }
  erewrite ft_step by exact Hrun.
  destruct (log_record_stamps (wal d) o t (λ lsn node hlc vc, checkpoint lsn node hlc vc) Hs Ho Ht) as (lsn & h & w1 & Hlog & Hst & _).
  erewrite wal_step by exact Hlog. erewrite wal_step by reflexivity. eexists. split; [reflexivity|].
  split_and!; [exact Hd1|done|done|]. destruct Hst. by constructor.
Qed.

Lemma maybe_checkpoint_ok e d D (o : option Z) t :
  env_ok e → db_colls d D → can_stamp 1 (wal d) → o = Some t → 0 ≤ t < 2 ^ 48 → 0 ≤ writes_since_checkpoint d < CHECKPOINT_INTERVAL →
  ∃ d', maybe_checkpoint e o d = Some (Ok tt, d') ∧ db_colls d' D ∧ mvcc d' = mvcc d ∧
    0 ≤ writes_since_checkpoint d' < CHECKPOINT_INTERVAL ∧ stamped 1 (wal d) (wal d').
Proof.
  intros He Hd Hs Ho Ht Hw. unfold maybe_checkpoint. rewrite ft_get_bind. unfold CHECKPOINT_INTERVAL in *.
  rewrite decide_False by (unfold u32_max; lia). rewrite ft_modify_bind, ft_get_bind. cbn [writes_since_checkpoint with_writes].
  case_decide.
  - destruct (flush_at_ok e (with_writes (writes_since_checkpoint d + 1) d) D o t He Hd Hs Ho Ht) as (d' & Hrun & Hd' & Hm & Hw' & Hst).
    exists d'. split_and!; try done; lia.
  - eexists. split; [reflexivity|]. cbn [mvcc wal writes_since_checkpoint with_writes]. split_and!; [exact Hd|done|lia|lia|].
    destruct Hs. constructor; lia || done.
Qed.

(** ** Committing *)

(** The documents are already written; the commit makes them the last version. *)
Lemma commit_write_ok e i tx coll u version d D D' clk :
  env_ok e → db_colls d D' → can_stamp 2 (wal d) → 0 ≤ writes_since_checkpoint d < CHECKPOINT_INTERVAL →
  mvcc_inv (mvcc d) (visible D) clk → clk ≤ current_hlc d →
  (history_of (mvcc d) coll u = None → visible D coll u = None) →
  (∀ n k, set_view coll u version (visible D) n k = visible D' n k) →
  ∃ d', commit_write e i tx coll u version d = Some (Ok tt, d') ∧ db_rep d' D' ∧
    keeps_readers (mvcc d) (visible D) (mvcc d') (visible D') ∧ active_readers (mvcc d') = active_readers (mvcc d) ∧
    current_hlc d < current_hlc d' ∧ w_node_id (wal d') = w_node_id (wal d).
Proof.
  intros He Hd Hs Hw Hm Hclk Hnone Hview. unfold commit_write.
  destruct (eo_wall _ He i) as (t & Ht & Hr), (eo_wall _ He (Datatypes.S i)) as (t' & Ht' & Hr').
  destruct (log_record_stamps (wal d) (wall e i) t (λ lsn node hlc vc, commit lsn tx node hlc vc)) as (lsn & h & w1 & Hlog & Hst & Hlt & Hh);
    [eapply can_stamp_le; [exact Hs|lia]|done|done|].
  erewrite wal_step by exact Hlog. cbv beta iota. unfold mvcc_call. rewrite ft_modify_bind.
  destruct (append_ok (mvcc d) (visible D) clk coll u h version Hm ltac:(unfold current_hlc in Hclk; lia) Hnone) as [Hm1 Hk1].
  destruct (maybe_checkpoint_ok e (with_mvcc (append_version coll u h version (mvcc d)) (with_wal w1 d)) D' (wall e (Datatypes.S i)) t') as (d' & Hrun & Hd' & Hm' & Hw' & Hst');
    [done|done| |done|done|done|].
  { cbn [wal with_mvcc with_wal]. eapply can_stamp_le; [by eapply can_stamp_after|lia]. }
  cbn [mvcc wal with_mvcc with_wal] in Hm', Hst'. exists d'. split; [exact Hrun|]. rewrite Hm'.
  pose proof (sp_later _ _ _ Hst') as Hle. split_and!.
  - constructor; [done|apply Hst'|done|]. rewrite Hm'. apply (tick_ok _ _ h); [by eapply mvcc_inv_ext|unfold current_hlc; lia].
  - by eapply keeps_ext.
  - done.
  - unfold current_hlc. lia.
  - rewrite (sp_node _ _ _ Hst'). apply Hst.
Qed.

(** ** One page write record per stored or deleted document *)

Lemma store_inline_records b c loc records c' : store_inline b c = Some (Ok (loc, records), c') → length records = 1%nat.
Proof.
  unfold store_inline. intros H. repeat match goal with
  | H : (_ ≫= _) _ = Some (Ok _, _) |- _ => apply ft_bind_Ok in H as (? & ? & _ & H)
  | H : context [let '(_, _) := ?x in _] |- _ => destruct x
  | H : context [match ?x with Ok _ => _ | Err _ => _ | Panic => _ end] |- _ => destruct x
  | H : context [match ?x with PageFull _ => _ | _ => _ end] |- _ => destruct x
  | H : ft_lift (st_fail _) _ = _ |- _ => discriminate H
  | H : lift Panic _ = _ |- _ => discriminate H
  | H : mret _ _ = Some (Ok _, _) |- _ => injection H as <- <- <-
  end; done.
Qed.

Lemma insert_doc_records fuel u v b c loc records c' : insert_doc fuel u v b c = Some (Ok (loc, records), c') → length records = 1%nat.
Proof.
  unfold insert_doc, insert_raw. intros ([l r] & c1 & H & H2)%ft_bind_Ok. apply ft_bind_Ok in H2 as (_ & c2 & _ & [= <- <- <-]).
  apply ft_bind_Ok in H as (found & c3 & _ & H). case_decide; [discriminate H|]. apply ft_bind_Ok in H as ([l' r'] & c4 & H & H2).
  apply ft_bind_Ok in H2 as (_ & c5 & _ & [= -> -> <-]). case_decide; [|by eapply store_inline_records].
  unfold store_overflow in H. apply ft_bind_Ok in H as (pid & c6 & _ & H). by eapply store_inline_records.
Qed.

Lemma delete_doc_records fuel u v c records c' : delete_doc fuel u v c = Some (Ok records, c') → length records = 1%nat.
Proof.
  unfold delete_doc, delete_raw. intros (_ & c1 & _ & H)%ft_bind_Ok. apply ft_bind_Ok in H as ([[pid slot]|] & c2 & _ & H); [|discriminate H].
  repeat match goal with
  | H : (_ ≫= _) _ = Some (Ok _, _) |- _ => apply ft_bind_Ok in H as (? & ? & _ & H)
  | H : context [let '(_, _) := ?x in _] |- _ => destruct x
  end. by injection H as <- _.
Qed.

(** ** Reading *)

Lemma get_doc_ok e d D coll kv c u :
  db_colls d D → D !! coll = Some kv → collections d !! coll = Some c → coll_indexed c kv → coll_fuel c kv (fuel e) →
  ∃ c', get_raw (fuel e) u c = Some (Ok (bt_get u kv), c') ∧ coll_indexed c' kv ∧ btree c' = btree c ∧
    secondary_indexes c' = secondary_indexes c ∧
    get_including_tombstone e coll u d = Some (Ok (doc_of kv u), set_coll coll c' d).
Proof.
  intros Hd Hkv Hc [Hrep Hdec Hix] Hf. destruct (get_raw_ok c kv u (fuel e) Hrep Hf) as (c' & Hrun & Hrep' & Hbt & Hsec & _).
  exists c'. split_and!; [done|constructor; [done|done|by rewrite Hsec]|done|done|].
  unfold get_including_tombstone. erewrite coll_step by eassumption. unfold doc_of. destruct (bt_get u kv) as [raw|] eqn:Hget; [|done].
  destruct (Hdec u raw Hget) as [doc Hdoc]. cbn [mbind option_bind]. rewrite Hdoc. by erewrite lift_db_step by reflexivity.
Qed.

Lemma visible_lookup D coll kv u : D !! coll = Some kv → visible D coll u = doc_of kv u ≫= shown.
Proof. unfold visible. by intros ->. Qed.

Lemma db_get_ok e d D coll kv c u :
  db_colls d D → D !! coll = Some kv → collections d !! coll = Some c → coll_fuel c kv (fuel e) →
  ∃ c', coll_indexed c' kv ∧ btree c' = btree c ∧ secondary_indexes c' = secondary_indexes c ∧
    get_raw (fuel e) u c = Some (Ok (bt_get u kv), c') ∧
    get e coll u d = Some (Ok (visible D coll u), set_coll coll c' d).
Proof.
  intros Hd Hkv Hc Hf. destruct (colls_lookup d D coll kv Hd Hkv) as (c0 & Hc0 & Hci). replace c0 with c in * by congruence.
  destruct (get_doc_ok e d D coll kv c u Hd Hkv Hc Hci Hf) as (c' & Hraw & Hci' & Hbt & Hsec & Hrun). exists c'. split_and!; [done..|].
  unfold get. erewrite ft_step by exact Hrun. rewrite (visible_lookup D coll kv) by done. by destruct (doc_of kv u).
Qed.

(** ** Writing *)

(** A value the codec can take. *)
Definition storable (v : Value) : Prop :=
  rust_value v = true ∧ codec_limits v = true ∧ (nesting v ≤ MAX_NESTING_DEPTH)%nat.

(** A collection with room for the document. *)
Record takes (fuel : nat) u (v : Value) c : Prop := {
  tk_fuel : enough (btree c) fuel;
  tk_tree : can_grow (btree c);
  tk_room : Z.of_nat (length (chunks PAGE_USABLE_SPACE (doc_encode (mkDocument u v)))) < ps_room (pm (data_pool c));
  tk_indexes : Forall (index_takes fuel v) (secondary_indexes c);
}.

(** Fuel to find a document and to take it out of the indexes. *)
Definition reaches (fuel : nat) c (kv : list (bytes * bytes)) : Prop :=
  coll_fuel c kv fuel ∧ Forall (λ idx, enough (si_btree idx) fuel) (secondary_indexes c).

(** Timestamps and LSNs for a whole write. *)
Definition can_write d : Prop := can_stamp 5 (wal d) ∧ w_next_tx_id (wal d) < u64_max.

Lemma begin_tx_ok w : w_next_tx_id w < u64_max → is_u64 (state (w_clock w)) →
  ∃ w', begin_tx w = (Ok (w_next_tx_id w), w') ∧ stamped 0 w w'.
Proof.
  intros Ht Hu. unfold begin_tx. rewrite st_get_bind, decide_False by lia. rewrite st_modify_bind. eexists. split; [reflexivity|].
  constructor; cbn [w_clock w_next_lsn w_node_id]; lia || done.
Qed.

Lemma visible_insert D coll kv u v :
  D !! coll = Some kv → bt_sorted kv → length u = 16%nat → storable v →
  ∀ n k, set_view coll u (shown v) (visible D) n k = visible (<[coll := bt_insert u (doc_encode (mkDocument u v)) kv]> D) n k.
Proof.
  intros Hkv Hs Hu (Hr & Hl & Hn) n k. unfold set_view, visible. destruct (decide (n = coll)) as [->|Hne].
  - rewrite lookup_insert_eq. cbn [mbind option_bind]. rewrite doc_of_insert by done. repeat case_decide; try naive_solver. by rewrite Hkv.
  - rewrite lookup_insert_ne by done. by rewrite decide_False by naive_solver.
Qed.

Lemma db_insert_ok e d D coll kv c u v :
  env_ok e → db_rep d D → D !! coll = Some kv → collections d !! coll = Some c → length u = 16%nat → storable v → is_tombstone v = false →
  takes (fuel e) u v c → can_write d →
  match bt_get u kv with
  | Some _ => ∃ d', insert e coll u v d = Some (Err (DuplicateKey u), d') ∧ db_rep d' D ∧ mvcc d' = mvcc d
  | None => ∃ d', insert e coll u v d = Some (Ok tt, d') ∧
      db_rep d' (<[coll := bt_insert u (doc_encode (mkDocument u v)) kv]> D) ∧
      keeps_readers (mvcc d) (visible D) (mvcc d') (visible (<[coll := bt_insert u (doc_encode (mkDocument u v)) kv]> D)) ∧
      active_readers (mvcc d') = active_readers (mvcc d) ∧ current_hlc d < current_hlc d'
  end.
Proof.
  intros He [Hd Hu Hw Hm] Hkv Hc Hlen Hst Hnt [Hf Hg Hroom Hix] [Hs Htx].
  destruct (colls_lookup d D coll kv Hd Hkv) as (c0 & Hc0 & Hci). replace c0 with c in * by congruence.
  destruct (begin_tx_ok (wal d) Htx Hu) as (w1 & Hb & Hst1). unfold insert. erewrite wal_step by exact Hb.
  set (d1 := with_wal w1 d). pose proof Hst as (Hr & Hl & Hn).
  pose proof (insert_value_ok c kv u v (fuel e) Hci Hf Hlen Hr Hl Hn Hg Hroom Hix) as Hins.
  assert (Hm1 : mvcc_inv (mvcc d1) (visible D) (current_hlc d1)) by (eapply tick_ok; [exact Hm|apply Hst1]).
  destruct (bt_get u kv) as [raw|] eqn:Hget.
  { eexists. split; [erewrite coll_step_err by eassumption; reflexivity|]. split; [|done].
    constructor; [|apply Hst1|done|done]. by eapply colls_same. }
  destruct Hins as ([loc records] & c' & Hrun & Hci' & _). erewrite coll_step by eassumption. cbv beta iota.
  pose proof (insert_doc_records _ _ _ _ _ _ _ _ Hrun) as Hone.
  assert (Hs1 : can_stamp 5 w1) by (eapply can_stamp_le; [by eapply can_stamp_after|lia]).
  destruct (log_pages_ok e (w_next_tx_id (wal d)) records 0 (set_coll coll c' d1) He) as (w2 & Hlog & Hst2);
    [eapply can_stamp_le; [exact Hs1|lia]|]. rewrite Hone in Hst2. cbn [wal set_coll with_collections with_wal d1] in Hst2.
  erewrite ft_step by exact Hlog. rewrite Hone.
  set (D' := <[coll := bt_insert u (doc_encode (mkDocument u v)) kv]> D).
  destruct (commit_write_ok e 1 (w_next_tx_id (wal d)) coll u (Some v) (with_wal w2 (set_coll coll c' d1)) D D' (current_hlc d))
    as (d' & Hcom & Hrep & Hk & Ha & Hlt & _); [done|by apply colls_insert| |exact Hw|exact Hm| | | |].
  - cbn [wal with_wal]. eapply can_stamp_le; [by eapply can_stamp_after|lia].
  - pose proof (sp_later _ _ _ Hst1). pose proof (sp_later _ _ _ Hst2). unfold current_hlc. cbn [wal with_wal]. lia.
  - intros _. rewrite (visible_lookup D coll kv) by done. unfold doc_of. by rewrite Hget.
  - intros n k. rewrite <- (visible_insert D coll kv u v) by (done || by eapply coll_rep_sorted, Hci). unfold shown. by rewrite Hnt.
  - exists d'. split_and!; try done. pose proof (sp_later _ _ _ Hst1). pose proof (sp_later _ _ _ Hst2). unfold current_hlc in *.
    cbn [wal with_wal] in Hlt. lia.
Qed.

Lemma bt_insert_remove u (raw : bytes) (kv : list (bytes * bytes)) : bt_sorted kv → bt_insert u raw (bt_remove u kv) = bt_insert u raw kv.
Proof.
  intros Hs. pose proof (bt_sorted_remove u kv Hs) as Hs'. apply bt_ext; [by apply bt_sorted_insert|by apply bt_sorted_insert|].
  intros k. rewrite !bt_get_insert by done. case_decide; [done|]. by rewrite bt_get_remove, decide_False.
Qed.

(** [d] already holds a history for the key. *)
Lemma replace_doc_ok e i coll u old new d D kv c clk :
  env_ok e → db_colls d D → D !! coll = Some kv → collections d !! coll = Some c → reaches (fuel e) c kv → length u = 16%nat →
  doc_of kv u = Some old → storable new →
  (∀ records c2, delete_doc (fuel e) u old c = Some (Ok records, c2) → takes (fuel e) u new c2) →
  can_stamp 4 (wal d) → w_next_tx_id (wal d) < u64_max → 0 ≤ writes_since_checkpoint d < CHECKPOINT_INTERVAL →
  mvcc_inv (mvcc d) (visible D) clk → clk ≤ current_hlc d → is_Some (history_of (mvcc d) coll u) →
  let D' := <[coll := bt_insert u (doc_encode (mkDocument u new)) kv]> D in
  ∃ d', replace_doc e i coll u old new (shown new) d = Some (Ok tt, d') ∧ db_rep d' D' ∧
    keeps_readers (mvcc d) (visible D) (mvcc d') (visible D') ∧ active_readers (mvcc d') = active_readers (mvcc d) ∧
    current_hlc d < current_hlc d'.
Proof.
  intros He Hd Hkv Hc [Hf Hfix] Hlen Hold Hst Htk Hs Htx Hw Hm Hclk Hhist D'.
  destruct (colls_lookup d D coll kv Hd Hkv) as (c0 & Hc0 & Hci). replace c0 with c in * by congruence.
  pose proof (coll_rep_sorted _ _ (ix_rep _ _ Hci)) as Hsort. pose proof Hst as (Hr & Hl & Hn).
  destruct (begin_tx_ok (wal d) Htx ltac:(apply Hs)) as (w1 & Hb & Hst1). unfold replace_doc. erewrite wal_step by exact Hb. set (d1 := with_wal w1 d).
  assert (Hs1 : can_stamp 4 w1) by (eapply can_stamp_le; [by eapply can_stamp_after|lia]).
  destruct (delete_doc_ok c kv u old (fuel e) Hci Hf Hlen Hold Hfix) as (recs & c1 & Hdel & Hci1 & _).
  pose proof (delete_doc_records _ _ _ _ _ _ Hdel) as H1. erewrite coll_step by eassumption.
  destruct (log_pages_ok e (w_next_tx_id (wal d)) recs i (set_coll coll c1 d1) He) as (w2 & Hlog & Hst2);
    [eapply can_stamp_le; [exact Hs1|lia]|]. rewrite H1 in Hst2. cbn [wal set_coll with_collections with_wal d1] in Hst2.
  erewrite ft_step by exact Hlog. cbv zeta.
  assert (Hs2 : can_stamp 3 w2) by (eapply can_stamp_le; [by eapply can_stamp_after|lia]).
  destruct (Htk recs c1 Hdel) as [Hf1 Hg1 Hroom1 Hix1].
  pose proof (insert_value_ok c1 (bt_remove u kv) u new (fuel e) Hci1 Hf1 Hlen Hr Hl Hn Hg1 Hroom1 Hix1) as Hins.
  rewrite bt_get_remove, decide_True in Hins by done. destruct Hins as ([loc recs2] & c2 & Hins & Hci2 & _).
  rewrite bt_insert_remove in Hci2 by done. pose proof (insert_doc_records _ _ _ _ _ _ _ _ Hins) as H2.
  set (d2 := with_wal w2 (set_coll coll c1 d1)).
  assert (Hc1 : collections d2 !! coll = Some c1) by (apply lookup_insert_eq).
  erewrite coll_step by eassumption. cbv beta iota. set (d3 := set_coll coll c2 d2).
  destruct (log_pages_ok e (w_next_tx_id (wal d)) recs2 (i + length recs) d3 He) as (w3 & Hlog2 & Hst3);
    [eapply can_stamp_le; [exact Hs2|lia]|]. rewrite H2 in Hst3. cbn [wal set_coll with_collections with_wal d2 d3] in Hst3.
  erewrite ft_step by exact Hlog2.
  pose proof (sp_later _ _ _ Hst1). pose proof (sp_later _ _ _ Hst2). pose proof (sp_later _ _ _ Hst3).
  destruct (commit_write_ok e (i + length recs + length recs2) (w_next_tx_id (wal d)) coll u (shown new) (with_wal w3 d3) D D' clk)
    as (d' & Hcom & Hrep & Hk & Ha & Hlt & _); [done| | |exact Hw|exact Hm| | | |].
  - intros n. cbn [collections with_wal d3 d2 d1 set_coll with_collections]. rewrite insert_insert_eq. by apply (colls_insert d D coll c2).
  - cbn [wal with_wal]. eapply can_stamp_le; [by eapply can_stamp_after|lia].
  - unfold current_hlc in *. cbn [wal with_wal]. lia.
  - cbn [mvcc with_wal d3 d2 d1 set_coll with_collections]. intros E. rewrite E in Hhist. by destruct Hhist.
  - by apply visible_insert.
  - exists d'. split_and!; try done. unfold current_hlc in *. cbn [wal with_wal] in Hlt. lia.
Qed.

(** What [update] and [delete] need to put [new] in place of [old]. *)
Definition replaces (fuel : nat) u (old new : Value) c : Prop :=
  ∀ x c1 records c2, get_raw fuel u c = Some (Ok x, c1) → delete_doc fuel u old c1 = Some (Ok records, c2) → takes fuel u new c2.

(** From the read of the old document to the baseline of its history. *)
Lemma baseline_db d D coll kv c c1 u old :
  db_rep d D → D !! coll = Some kv → collections d !! coll = Some c → coll_indexed c1 kv →
  (history_of (mvcc d) coll u = None → visible D coll u = Some old) →
  let d1 := with_mvcc (ensure_baseline_version coll u old (mvcc d)) (set_coll coll c1 d) in
  db_colls d1 D ∧ collections d1 !! coll = Some c1 ∧ mvcc_inv (mvcc d1) (visible D) (current_hlc d) ∧
  keeps_readers (mvcc d) (visible D) (mvcc d1) (visible D) ∧ is_Some (history_of (mvcc d1) coll u) ∧
  active_readers (mvcc d1) = active_readers (mvcc d).
Proof.
  intros [Hd Hu Hw Hm] Hkv Hc Hci Hbase d1. destruct (baseline_ok (mvcc d) (visible D) (current_hlc d) coll u old Hm Hbase) as (H1 & H2 & H3).
  split_and!; [by eapply (colls_same d D coll c1)|apply lookup_insert_eq|done|done|done|].
  cbn [mvcc with_mvcc d1]. unfold ensure_baseline_version. by destruct (entry_or_default _ _ _).
Qed.

Lemma db_update_ok e d D coll kv c u v :
  env_ok e → db_rep d D → D !! coll = Some kv → collections d !! coll = Some c → reaches (fuel e) c kv → length u = 16%nat →
  can_write d → storable v → is_tombstone v = false →
  match doc_of kv u with
  | None => ∃ d', update e coll u v d = Some (Err (KeyNotFound u), d') ∧ db_rep d' D ∧ mvcc d' = mvcc d
  | Some old =>
      replaces (fuel e) u old v c → (history_of (mvcc d) coll u = None → is_tombstone old = false) →
      let D' := <[coll := bt_insert u (doc_encode (mkDocument u v)) kv]> D in
      ∃ d', update e coll u v d = Some (Ok tt, d') ∧ db_rep d' D' ∧
        keeps_readers (mvcc d) (visible D) (mvcc d') (visible D') ∧ active_readers (mvcc d') = active_readers (mvcc d) ∧
        current_hlc d < current_hlc d'
  end.
Proof.
  intros He Hrep Hkv Hc [Hf Hfix] Hlen [Hs Htx] Hst Hnt. pose proof Hrep as [Hd Hu Hw Hm].
  destruct (colls_lookup d D coll kv Hd Hkv) as (c0 & Hc0 & Hci). replace c0 with c in * by congruence.
  destruct (get_doc_ok e d D coll kv c u Hd Hkv Hc Hci Hf) as (c1 & Hraw & Hci1 & Hbt & Hsec & Hget). unfold update. erewrite ft_step by exact Hget.
  destruct (doc_of kv u) as [old|] eqn:Hold; cbn [ok_or].
  2:{ eexists. split; [reflexivity|]. split; [|done]. constructor; [by eapply colls_same|done|done|done]. }
  intros Htk Hbase. erewrite lift_db_step by reflexivity. unfold mvcc_call. rewrite ft_modify_bind.
  destruct (baseline_db d D coll kv c c1 u old Hrep Hkv Hc Hci1) as (Hd1 & Hc1 & Hm1 & Hk1 & Hh1 & Ha1).
  { intros E. rewrite (visible_lookup D coll kv), Hold by done. cbn. unfold shown. by rewrite Hbase. }
  set (d1 := with_mvcc _ _) in *.
  destruct (replace_doc_ok e 0 coll u old v d1 D kv c1 (current_hlc d)) as (d' & Hrun & Hrep' & Hk & Ha & Hlt); try done.
  - split; [by unfold coll_fuel; rewrite Hbt|by rewrite Hsec].
  - intros records c2 Hdel. by eapply Htk.
  - eapply can_stamp_le; [exact Hs|lia].
  - unfold shown in Hrun. rewrite Hnt in Hrun. exists d'. split_and!; [exact Hrun|done| |congruence|done].
    eapply (keeps_trans _ _ (mvcc d1)); [by rewrite Ha|done|done].
Qed.

Lemma tombstone_storable node h : is_u64 h → storable (tombstone_of node h).
Proof.
  intros Hh. split_and!; [by apply u64b_spec| |]; unfold tombstone_of, encode_to, singleton, encode_entry; cbn -[to_le].
  - rewrite ?length_app, ?length_to_le. done.
  - unfold MAX_NESTING_DEPTH. lia.
Qed.

(** The timestamp of a deletion. *)
Definition deleted_at e d : Z := match (now (wall e 0) (w_clock (wal d))).1 with Ok h => h | _ => 0 end.

Lemma db_delete_ok e d D coll kv c u :
  env_ok e → db_rep d D → D !! coll = Some kv → collections d !! coll = Some c → reaches (fuel e) c kv → length u = 16%nat →
  can_write d →
  match visible D coll u with
  | None => ∃ d', delete e coll u d = Some (Err (KeyNotFound u), d') ∧ db_rep d' D ∧ mvcc d' = mvcc d
  | Some old =>
      (∀ h, is_u64 h → replaces (fuel e) u old (tombstone_of (node_id d) h) c) →
      let h := deleted_at e d in
      let D' := <[coll := bt_insert u (doc_encode (mkDocument u (tombstone_of (node_id d) h))) kv]> D in
      ∃ d', current_hlc d < h < current_hlc d' ∧ delete e coll u d = Some (Ok tt, d') ∧ db_rep d' D' ∧
        keeps_readers (mvcc d) (visible D) (mvcc d') (visible D') ∧ active_readers (mvcc d') = active_readers (mvcc d) ∧
        visible D' coll u = None
  end.
Proof.
  intros He Hrep Hkv Hc [Hf Hfix] Hlen [Hs Htx]. pose proof Hrep as [Hd Hu Hw Hm].
  destruct (db_get_ok e d D coll kv c u Hd Hkv Hc Hf) as (c1 & Hci1 & Hbt & Hsec & Hraw & Hget). unfold delete. erewrite ft_step by exact Hget.
  destruct (visible D coll u) as [old|] eqn:Hvis; cbn [ok_or].
  2:{ eexists. split; [reflexivity|]. split; [|done]. constructor; [by eapply colls_same|done|done|done]. }
  intros Htk. erewrite lift_db_step by reflexivity. unfold mvcc_call. rewrite ft_modify_bind.
  destruct (baseline_db d D coll kv c c1 u old Hrep Hkv Hc Hci1 ltac:(done)) as (Hd1 & Hc1 & Hm1 & Hk1 & Hh1 & Ha1).
  set (d1 := with_mvcc _ _) in *. destruct (eo_wall _ He 0%nat) as (t & Ht & Hr).
  destruct (clock_now_ok (wal d1) (wall e 0) t) as (h & w1 & Hnow & Hst & Hlt & Hh & Hu64 & Hat); [eapply can_stamp_le; [exact Hs|lia]|done|done|].
  assert (Hsame : w_next_tx_id w1 = w_next_tx_id (wal d)).
  { revert Hnow. unfold clock_now. destruct (now _ _) as [r k]. by intros [= _ <-]. }
  erewrite wal_step by exact Hnow. rewrite ft_get_bind. set (d2 := with_wal w1 d1).
  assert (Hnode : node_id d2 = node_id d) by apply (sp_node _ _ _ Hst). rewrite Hnode.
  assert (Hold : doc_of kv u = Some old).
  { rewrite (visible_lookup D coll kv) in Hvis by done. destruct (doc_of kv u) as [w|]; [|done]. cbn in Hvis. unfold shown in Hvis. by destruct (is_tombstone w). }
  destruct (replace_doc_ok e 1 coll u old (tombstone_of (node_id d) h) d2 D kv c1 (current_hlc d)) as (d' & Hrun & Hrep' & Hk & Ha & Hlt'); try done.
  - split; [by unfold coll_fuel; rewrite Hbt|by rewrite Hsec].
  - by apply tombstone_storable.
  - intros records c2 Hdel. by eapply Htk.
  - eapply can_stamp_le; [by eapply can_stamp_after|lia].
  - cbn [wal with_wal d2]. by rewrite Hsame.
  - apply (sp_later _ _ _ Hst).
  - assert (Hd2 : current_hlc d2 = h) by exact Hh. rewrite Hd2 in Hlt'.
    assert (Hdel : deleted_at e d = h) by (unfold deleted_at; change (wal d) with (wal d1); by rewrite Hat). cbn zeta. rewrite Hdel. exists d'. split_and!; [exact Hlt|done|exact Hrun|done| |by etrans; [exact Ha|exact Ha1]|].
    + eapply (keeps_trans _ _ (mvcc d1)); [by rewrite Ha|done|done].
    + rewrite <- (visible_insert D coll kv u) by (done || (by apply tombstone_storable) || by eapply coll_rep_sorted, Hci1).
      unfold set_view. by rewrite decide_True.
Qed.

(** ** Scanning *)

Definition live (kv : list (bytes * bytes)) : list (bytes * Value) :=
  omap (λ r, match doc_decode r.2 with Ok doc => pair r.1 <$> shown (value doc) | _ => None end) kv.

Lemma live_rows_ok kv : (∀ u raw, (u, raw) ∈ kv → ∃ doc, doc_decode raw = Ok doc) → live_rows kv = Ok (live kv).
Proof.
  induction kv as [|[u raw] kv IH]; intros Hdec; [done|]. cbn [live_rows live omap list_omap fst snd].
  destruct (Hdec u raw ltac:(by left)) as [doc ->]. cbn [mbind outcome_bind].
  rewrite IH by (intros u' raw' H; eapply Hdec; by right). cbn [mbind outcome_bind]. unfold shown. by destruct (is_tombstone (value doc)).
Qed.

Lemma live_rows_spec kv : bt_sorted kv → bt_sorted (live kv) ∧ ∀ u, bt_get u (live kv) = doc_of kv u ≫= shown.
Proof.
  assert (Hall : ∀ (P : bytes → Prop) l, Forall (λ r : bytes * bytes, P r.1) l → Forall (λ r, P r.1) (live l)).
  { intros P l. induction 1 as [|[u raw] l Hu _ IH]; [constructor|]. cbn [live omap list_omap fst snd].
    destruct (doc_decode raw) as [doc| |]; [|done|done]. destruct (shown (value doc)); [|done]. by constructor. }
  induction kv as [|[u raw] kv IH]; intros Hs; [split; [constructor|done]|]. apply bt_sorted_cons in Hs as [Hbelow Hs].
  destruct (IH Hs) as [IHs IHg]. pose proof (Hall (klt u) kv Hbelow) as Hlive. cbn [live omap list_omap fst snd].
  assert (Hdoc : ∀ k, doc_of ((u, raw) :: kv) k = match cmp k u with
    | Eq => match doc_decode raw with Ok doc => Some (value doc) | _ => None end | Lt => None | Gt => doc_of kv k end).
  { intros k. unfold doc_of. cbn [bt_get]. by destruct (cmp k u). }
  assert (Hskip : ∀ k, cmp k u ≠ Gt → doc_of kv k = None).
  { intros k Hk. unfold doc_of. rewrite bt_get_below; [done|]. eapply Forall_impl; [exact Hbelow|]. intros r Hr. by apply (kle_lt_trans k u). }
  destruct (doc_decode raw) as [doc|err|]; [destruct (shown (value doc)) as [v|] eqn:Hsh|..]; cbn [fmap option_fmap option_map].
  1:{ split; [apply bt_sorted_cons; split; [exact Hlive|done]|]. intros k. rewrite Hdoc. cbn [bt_get].
      destruct (cmp k u); [by cbn; rewrite Hsh|done|apply IHg]. }
  all: split; [done|]; intros k; rewrite Hdoc; fold (live kv); rewrite IHg; destruct (cmp k u) eqn:E; try done; rewrite Hskip by (by rewrite E); try done.
Qed.

Lemma contains_bounds lo hi k : contains lo hi k = in_bounds lo hi k.
Proof.
  unfold contains, in_bounds. f_equal. destruct hi as [x|x|]; cbn [past_end]; [| |done]; unfold kleb, kltb; rewrite (cmp_antisym k x); by destruct (cmp k x).
Qed.

Lemma bt_get_filter_key {V} (P : bytes → bool) (m : list (bytes * V)) k :
  bt_sorted m → bt_get k (filter (λ r, P r.1 = true) m) = if P k then bt_get k m else None.
Proof.
  induction m as [|[k1 v] m IH]; intros Hs; [by destruct (P k)|]. apply bt_sorted_cons in Hs as [Hall Hs]. rewrite filter_cons. cbn [fst bt_get].
  case_decide as Hp; cbn [bt_get]; rewrite IH by done.
  - destruct (cmp k k1) eqn:E; [|by destruct (P k)|done]. apply cmp_eq in E as ->. by rewrite Hp.
  - destruct (cmp k k1) eqn:E; [| |done].
    + apply cmp_eq in E as ->. by destruct (P k1).
    + destruct (P k); [|done]. apply bt_get_below. eapply Forall_impl; [exact Hall|]. intros r Hr. by apply (cmp_trans k k1).
Qed.

Lemma scan_ok d D coll kv c lo hi :
  db_colls d D → D !! coll = Some kv → collections d !! coll = Some c →
  ∃ N rows, bt_sorted rows ∧ (∀ k, bt_get k rows = if in_bounds lo hi k then visible D coll k else None) ∧
    ∀ e, (N ≤ fuel e)%nat → ∃ c', scan e coll lo hi d = Some (Ok rows, set_coll coll c' d) ∧ coll_indexed c' kv.
Proof.
  intros Hd Hkv Hc. destruct (colls_lookup d D coll kv Hd Hkv) as (c0 & Hc0 & [Hrep Hdec Hix]). replace c0 with c in * by congruence.
  destruct (scan_raw_ok c kv lo hi Hrep) as [N HN]. pose proof (coll_rep_sorted _ _ Hrep) as Hs.
  set (raws := filter (λ r, in_bounds lo hi r.1 = true) kv) in *. assert (Hsr : bt_sorted raws) by (by apply StronglySorted_filter).
  destruct (live_rows_spec raws Hsr) as [Hsl Hgl]. exists N, (live raws). split_and!; [done| |].
  - intros k. rewrite Hgl, (visible_lookup D coll kv) by done. unfold doc_of, raws. rewrite bt_get_filter_key by done. by destruct (in_bounds lo hi k).
  - intros e He. destruct (HN (fuel e) He) as (c' & Hrun & Hrep' & Hsec). exists c'. split; [|constructor; [done|done|by rewrite Hsec]].
    unfold scan. erewrite coll_step by eassumption. unfold lift_db, ft_lift, st_lift. rewrite live_rows_ok; [done|].
    intros u raw [_ Hin]%list_elem_of_filter. apply (Hdec u). by apply bt_get_elem.
Qed.

(** ** Snapshot reads *)

Lemma snapshot_get_ok e d D coll kv c u s :
  db_rep d D → D !! coll = Some kv → collections d !! coll = Some c → coll_fuel c kv (fuel e) →
  ∃ d', snapshot_get e coll u s d = Some (Ok (snapshot_read (mvcc d) (visible D) s coll u), d').
Proof.
  intros [Hd _ _ _] Hkv Hc Hf. unfold snapshot_get. rewrite ft_get_bind. unfold snapshot_read.
  destruct (lookup_snapshot_version coll u s (mvcc d)) as [v|]; [by eexists|].
  destruct (db_get_ok e d D coll kv c u Hd Hkv Hc Hf) as (c' & _ & _ & _ & _ & Hrun). eexists. exact Hrun.
Qed.

Lemma overlay_scan_ok (P : bytes → bool) (rows acc : list (bytes * Value)) :
  bt_sorted rows → bt_sorted acc →
  let r := foldl (λ vis r, if P r.1 then bt_insert r.1 r.2 vis else vis) acc rows in
  bt_sorted r ∧ ∀ k, bt_get k r = if P k then match bt_get k rows with Some v => Some v | None => bt_get k acc end else bt_get k acc.
Proof.
  revert acc. induction rows as [|[k1 v] rows IH]; intros acc Hs Ha; cbn [foldl fst snd]; [split; [done|intros k; by destruct (P k)]|].
  apply bt_sorted_cons in Hs as [Hall Hs]. destruct (IH (if P k1 then bt_insert k1 v acc else acc) Hs) as [H1 H2]; [destruct (P k1); [by apply bt_sorted_insert|done]|].
  split; [exact H1|]. intros k. rewrite H2. cbn [bt_get].
  assert (Hacc : bt_get k (if P k1 then bt_insert k1 v acc else acc) = if decide (k = k1) then (if P k1 then Some v else bt_get k acc) else bt_get k acc).
  { destruct (P k1); [by rewrite bt_get_insert by done|by case_decide]. }
  rewrite Hacc. destruct (cmp k k1) eqn:E.
  - apply cmp_eq in E as ->. rewrite decide_True by done. rewrite (bt_get_below k1 rows) by done. by destruct (P k1).
  - rewrite (bt_get_below k rows) by (eapply Forall_impl; [exact Hall|]; intros r Hr; by apply (cmp_trans k k1)).
    rewrite decide_False; [done|]. intros ->. by rewrite cmp_refl in E.
  - rewrite decide_False; [done|]. intros ->. by rewrite cmp_refl in E.
Qed.

Lemma overlay_versions_ok m coll lo hi s ks : ∀ vis,
  NoDup ks → bt_sorted vis → let r := foldl (overlay_key m coll lo hi s) vis ks in
  bt_sorted r ∧ ∀ k, bt_get k r =
    if decide (k ∈ ks) then (if contains lo hi k then default (bt_get k vis) (lookup_snapshot_version coll k s m) else bt_get k vis) else bt_get k vis.
Proof.
  induction ks as [|k1 ks IH]; intros vis Hnd Hs; cbn [foldl]; [split; [done|intros k; by rewrite decide_False by apply not_elem_of_nil]|].
  apply NoDup_cons in Hnd as [Hni Hnd]. assert (H1 : bt_sorted (overlay_key m coll lo hi s vis k1) ∧ ∀ k, bt_get k (overlay_key m coll lo hi s vis k1) =
    if decide (k = k1) then (if contains lo hi k then default (bt_get k vis) (lookup_snapshot_version coll k s m) else bt_get k vis) else bt_get k vis).
  { unfold overlay_key. destruct (contains lo hi k1) eqn:Hc; [|split; [done|intros k; case_decide; [subst; by rewrite Hc|done]]].
    destruct (lookup_snapshot_version coll k1 s m) as [[v|]|] eqn:Hl.
    - split; [by apply bt_sorted_insert|]. intros k. rewrite bt_get_insert by done. repeat case_decide; subst; rewrite ?Hc, ?Hl; done.
    - split; [by apply bt_sorted_remove|]. intros k. rewrite bt_get_remove by done. repeat case_decide; subst; rewrite ?Hc, ?Hl; done.
    - split; [done|]. intros k. case_decide; [subst; by rewrite Hc, Hl|done]. }
  destruct H1 as [Hs1 Hg1]. destruct (IH _ Hnd Hs1) as [Hs2 Hg2]. split; [exact Hs2|]. intros k. rewrite Hg2, Hg1.
  destruct (decide (k = k1)) as [->|Hne].
  - rewrite (decide_False (P := k1 ∈ ks)) by done. by rewrite decide_True by (by left).
  - destruct (decide (k ∈ ks)); [by rewrite decide_True by (by right)|]. rewrite decide_False; [done|]. rewrite elem_of_cons. naive_solver.
Qed.

Lemma snapshot_scan_ok d D coll kv c lo hi s :
  db_rep d D → D !! coll = Some kv → collections d !! coll = Some c →
  ∃ N rows, bt_sorted rows ∧
    (∀ k, bt_get k rows = if in_bounds lo hi k then snapshot_read (mvcc d) (visible D) s coll k else None) ∧
    ∀ e, (N ≤ fuel e)%nat → ∃ d', snapshot_scan e coll lo hi s d = Some (Ok rows, d').
Proof.
  intros [Hd _ _ Hm] Hkv Hc. destruct (scan_ok d D coll kv c Unbounded Unbounded Hd Hkv Hc) as (N & all & Hsa & Hga & Hrun).
  set (vis := foldl (λ vis r, if contains lo hi r.1 then bt_insert r.1 r.2 vis else vis) [] all).
  destruct (overlay_scan_ok (contains lo hi) all [] Hsa ltac:(constructor)) as [Hsv Hgv]. fold vis in Hsv, Hgv.
  set (rows := match versions (mvcc d) !! coll with
    | Some by_key => foldl (overlay_key (mvcc d) coll lo hi s) vis (map_to_list by_key).*1 | None => vis end).
  assert (Hvis : ∀ k, bt_get k vis = if contains lo hi k then visible D coll k else None).
  { intros k. rewrite Hgv. destruct (contains lo hi k); [|done]. rewrite Hga. cbn [in_bounds past_end]. by destruct (visible D coll k). }
  assert (Hrows : bt_sorted rows ∧ ∀ k, bt_get k rows = if contains lo hi k then snapshot_read (mvcc d) (visible D) s coll k else None).
  { unfold rows, snapshot_read. destruct (versions (mvcc d) !! coll) as [bk|] eqn:Hbk.
    - destruct (overlay_versions_ok (mvcc d) coll lo hi s (map_to_list bk).*1 vis (NoDup_fst_map_to_list bk) Hsv) as [H1 H2].
      split; [exact H1|]. intros k. rewrite H2, Hvis. destruct (contains lo hi k); [|by case_decide]. case_decide as Hk; [done|].
      unfold lookup_snapshot_version. rewrite Hbk. cbn [mbind option_bind]. destruct (bk !! k) as [h|] eqn:Hh; [|done].
      exfalso. apply Hk. apply list_elem_of_fmap. exists (k, h). split; [done|]. by apply elem_of_map_to_list.
    - split; [done|]. intros k. rewrite Hvis. destruct (contains lo hi k); [|done]. unfold lookup_snapshot_version. by rewrite Hbk. }
  exists N, rows. destruct Hrows as [H1 H2]. split_and!; [exact H1|intros k; by rewrite <- contains_bounds|].
  intros e He. destruct (Hrun e He) as (c' & Hscan & _). eexists. unfold snapshot_scan. erewrite ft_step by exact Hscan. rewrite ft_get_bind. reflexivity.
Qed.

(** ** Runs of a database

    Every handle of a [SharedDatabase] holds the exclusive lock during a call, so a run
    is a sequence of calls. *)

Inductive db_op :=
  | OInsert (coll u : bytes) (v : Value)
  | OUpdate (coll u : bytes) (v : Value)
  | ODelete (coll u : bytes)
  | OGet (coll u : bytes)
  | OFlush
  | OBegin
  | OEnd (s : Z).

Inductive db_answer :=
  | DbDone
  | DbValue (found : option Value)
  | DbSnapshot (s : Z).

Definition run_op e (op : db_op) : db_f db_answer :=
  match op with
  | OInsert coll u v => _ ← insert e coll u v; mret DbDone
  | OUpdate coll u v => _ ← update e coll u v; mret DbDone
  | ODelete coll u => _ ← delete e coll u; mret DbDone
  | OGet coll u => found ← get e coll u; mret (DbValue found)
  | OFlush => _ ← flush e; mret DbDone
  | OBegin => s ← begin_read; mret (DbSnapshot s)
  | OEnd s => _ ← drop_read_tx s; mret DbDone
  end.

(** What a call answers and does to the stored documents. *)
Definition answer (op : db_op) d D : res db_answer :=
  match op with
  | OInsert coll u _ =>
      match D !! coll with
      | None => Err (CollectionNotFound coll)
      | Some kv => if decide (is_Some (bt_get u kv)) then Err (DuplicateKey u) else Ok DbDone
      end
  | OUpdate coll u _ =>
      match D !! coll with
      | None => Err (CollectionNotFound coll)
      | Some kv => if decide (is_Some (doc_of kv u)) then Ok DbDone else Err (KeyNotFound u)
      end
  | ODelete coll u =>
      match D !! coll with
      | None => Err (CollectionNotFound coll)
      | Some _ => if decide (is_Some (visible D coll u)) then Ok DbDone else Err (KeyNotFound u)
      end
  | OGet coll u =>
      match D !! coll with
      | None => Err (CollectionNotFound coll)
      | Some _ => Ok (DbValue (visible D coll u))
      end
  | OBegin => Ok (DbSnapshot (current_hlc d))
  | OFlush | OEnd _ => Ok DbDone
  end.

Definition store coll u (v : Value) D : gmap bytes (list (bytes * bytes)) :=
  alter (bt_insert u (doc_encode (mkDocument u v))) coll D.

Definition effect e (op : db_op) d D : gmap bytes (list (bytes * bytes)) :=
  match op, answer op d D with
  | OInsert coll u v, Ok _ | OUpdate coll u v, Ok _ => store coll u v D
  | ODelete coll u, Ok _ => store coll u (tombstone_of (node_id d) (deleted_at e d)) D
  | _, _ => D
  end.

(** Fuel and room for the call; the value of a write is not itself a tombstone, an
    update of a tombstone finds a history for its key, an indexed reference has a short
    enough name ([index_takes]). *)
Definition op_ready e (op : db_op) d D : Prop :=
  match op with
  | OInsert coll u v => D !! coll = None ∧ can_write d ∨ ∃ kv c, D !! coll = Some kv ∧ collections d !! coll = Some c ∧
      length u = 16%nat ∧ storable v ∧ is_tombstone v = false ∧ takes (fuel e) u v c ∧ can_write d
  | OUpdate coll u v => D !! coll = None ∨ ∃ kv c, D !! coll = Some kv ∧ collections d !! coll = Some c ∧ reaches (fuel e) c kv ∧
      length u = 16%nat ∧ storable v ∧ is_tombstone v = false ∧ can_write d ∧
      ∀ old, doc_of kv u = Some old → replaces (fuel e) u old v c ∧ (history_of (mvcc d) coll u = None → is_tombstone old = false)
  | ODelete coll u => D !! coll = None ∨ ∃ kv c, D !! coll = Some kv ∧ collections d !! coll = Some c ∧ reaches (fuel e) c kv ∧
      length u = 16%nat ∧ can_write d ∧
      ∀ old h, visible D coll u = Some old → is_u64 h → replaces (fuel e) u old (tombstone_of (node_id d) h) c
  | OGet coll u => D !! coll = None ∨ ∃ kv c, D !! coll = Some kv ∧ collections d !! coll = Some c ∧ coll_fuel c kv (fuel e)
  | OFlush => can_stamp 1 (wal d)
  | OBegin | OEnd _ => True
  end.

Definition stays_open (s : Z) (op : db_op) d : Prop :=
  match op with
  | OEnd s' => s' ≠ s ∨ ∃ n, bt_get s (active_readers (mvcc d)) = Some n ∧ 1 < n
  | _ => True
  end.

Lemma store_lookup coll u v D kv : D !! coll = Some kv → store coll u v D = <[coll := bt_insert u (doc_encode (mkDocument u v)) kv]> D.
Proof. intros Hk. apply map_eq. intros n. unfold store. destruct (decide (n = coll)) as [->|Hne].
  - by rewrite lookup_alter_eq, lookup_insert_eq, Hk.
  - by rewrite lookup_alter_ne, lookup_insert_ne.
Qed.

Lemma same_mvcc d d' D : mvcc d' = mvcc d →
  keeps_readers (mvcc d) (visible D) (mvcc d') (visible D) ∧ ∀ s, active (mvcc d) s → active (mvcc d') s.
Proof. by intros ->. Qed.

Lemma same_readers d d' : active_readers (mvcc d') = active_readers (mvcc d) → ∀ s, active (mvcc d) s → active (mvcc d') s.
Proof. unfold active. by intros ->. Qed.

(** ** One call *)

Definition call_ok e op d D : Prop :=
  ∃ d', run_op e op d = Some (answer op d D, d') ∧ db_rep d' (effect e op d D) ∧
    keeps_readers (mvcc d) (visible D) (mvcc d') (visible (effect e op d D)) ∧
    ∀ s, stays_open s op d → active (mvcc d) s → active (mvcc d') s.

(** A call that fails and leaves the documents and the histories. *)
Lemma call_fails e op d D d' err :
  answer op d D = Err err → run_op e op d = Some (Err err, d') → db_rep d' D → mvcc d' = mvcc d →
  effect e op d D = D → call_ok e op d D.
Proof.
  intros Ha Hrun Hrep Hm Heff. destruct (same_mvcc d d' D Hm) as [Hk Hact]. exists d'. rewrite Ha, Heff. by split_and!; [..|auto].
Qed.

(** A write that succeeds. *)
Lemma call_writes e op d D d' D' :
  answer op d D = Ok DbDone → run_op e op d = Some (Ok DbDone, d') → effect e op d D = D' → db_rep d' D' →
  keeps_readers (mvcc d) (visible D) (mvcc d') (visible D') → active_readers (mvcc d') = active_readers (mvcc d) → call_ok e op d D.
Proof.
  intros Ha Hrun Heff Hrep Hk Har. pose proof (same_readers d d' Har). exists d'. rewrite Ha, Heff. by split_and!; [..|auto].
Qed.

Lemma get_missing e d D coll u : db_colls d D → D !! coll = None → get_including_tombstone e coll u d = Some (Err (CollectionNotFound coll), d).
Proof. intros Hd Hn. unfold get_including_tombstone. by rewrite coll_step_missing by (by eapply colls_missing). Qed.

Lemma call_insert e d D coll u v : env_ok e → db_rep d D → op_ready e (OInsert coll u v) d D → call_ok e (OInsert coll u v) d D.
Proof.
  intros He Hrep [(Hn & Hs & Htx)|(kv & c & Hkv & Hc & Hl & Hst & Hnt & Htk & Hcw)].
  - pose proof Hrep as [Hd Hu Hw Hm]. destruct (begin_tx_ok (wal d) Htx Hu) as (w1 & Hb & Hst1).
    eapply (call_fails _ _ _ _ (with_wal w1 d)); [cbn [answer]; by rewrite Hn| | |done|unfold effect; cbn [answer]; by rewrite Hn].
    + cbn [run_op]. apply ft_step_err. unfold insert. erewrite wal_step by exact Hb. apply coll_step_missing. by eapply colls_missing.
    + constructor; [done|apply Hst1|done|]. eapply tick_ok; [exact Hm|apply Hst1].
  - pose proof (db_insert_ok e d D coll kv c u v He Hrep Hkv Hc Hl Hst Hnt Htk Hcw) as H.
    assert (Ha : answer (OInsert coll u v) d D = if decide (is_Some (bt_get u kv)) then Err (DuplicateKey u) else Ok DbDone) by (cbn [answer]; by rewrite Hkv).
    destruct (bt_get u kv) as [raw|]; [rewrite decide_True in Ha by eauto|rewrite decide_False in Ha by (by intros [? ?])]; destruct H as (d' & Hrun & Hrep' & H).
    + eapply call_fails; [exact Ha|by apply ft_step_err|done|done|unfold effect; by rewrite Ha].
    + destruct H as (Hk & Hact & _). eapply call_writes; [exact Ha|cbn [run_op]; erewrite ft_step by exact Hrun; reflexivity| |exact Hrep'|exact Hk|exact Hact].
      unfold effect. rewrite Ha. by apply store_lookup.
Qed.

Lemma call_update e d D coll u v : env_ok e → db_rep d D → op_ready e (OUpdate coll u v) d D → call_ok e (OUpdate coll u v) d D.
Proof.
  intros He Hrep [Hn|(kv & c & Hkv & Hc & Hre & Hl & Hst & Hnt & Hcw & Hold)].
  - pose proof Hrep as [Hd Hu Hw Hm].
    eapply (call_fails _ _ _ _ d); [cbn [answer]; by rewrite Hn| |done|done|unfold effect; cbn [answer]; by rewrite Hn].
    cbn [run_op]. apply ft_step_err. unfold update. apply ft_step_err. by eapply get_missing.
  - pose proof (db_update_ok e d D coll kv c u v He Hrep Hkv Hc Hre Hl Hcw Hst Hnt) as H.
    assert (Ha : answer (OUpdate coll u v) d D = if decide (is_Some (doc_of kv u)) then Ok DbDone else Err (KeyNotFound u)) by (cbn [answer]; by rewrite Hkv).
    destruct (doc_of kv u) as [old|]; [rewrite decide_True in Ha by eauto|rewrite decide_False in Ha by (by intros [? ?])].
    + destruct (Hold old eq_refl) as [H1 H2]. destruct (H H1 H2) as (d' & Hrun & Hrep' & Hk & Hact & _).
      eapply call_writes; [exact Ha|cbn [run_op]; erewrite ft_step by exact Hrun; reflexivity| |exact Hrep'|exact Hk|exact Hact].
      unfold effect. rewrite Ha. by apply store_lookup.
    + destruct H as (d' & Hrun & Hrep' & H). eapply call_fails; [exact Ha|by apply ft_step_err|done|done|unfold effect; by rewrite Ha].
Qed.

Lemma call_delete e d D coll u : env_ok e → db_rep d D → op_ready e (ODelete coll u) d D → call_ok e (ODelete coll u) d D.
Proof.
  intros He Hrep [Hn|(kv & c & Hkv & Hc & Hre & Hl & Hcw & Hold)].
  - pose proof Hrep as [Hd Hu Hw Hm].
    eapply (call_fails _ _ _ _ d); [cbn [answer]; by rewrite Hn| |done|done|unfold effect; cbn [answer]; by rewrite Hn].
    cbn [run_op]. apply ft_step_err. unfold delete. apply ft_step_err. unfold get. apply ft_step_err. by eapply get_missing.
  - pose proof (db_delete_ok e d D coll kv c u He Hrep Hkv Hc Hre Hl Hcw) as H.
    assert (Ha : answer (ODelete coll u) d D = if decide (is_Some (visible D coll u)) then Ok DbDone else Err (KeyNotFound u)) by (cbn [answer]; by rewrite Hkv).
    destruct (visible D coll u) as [old|]; [rewrite decide_True in Ha by eauto|rewrite decide_False in Ha by (by intros [? ?])].
    + destruct H as (d' & _ & Hrun & Hrep' & Hk & Hact & _); [intros h Hh; by apply Hold|].
      eapply call_writes; [exact Ha|cbn [run_op]; erewrite ft_step by exact Hrun; reflexivity| |exact Hrep'|exact Hk|exact Hact].
      unfold effect. rewrite Ha. by apply store_lookup.
    + destruct H as (d' & Hrun & Hrep' & H). eapply call_fails; [exact Ha|by apply ft_step_err|done|done|unfold effect; by rewrite Ha].
Qed.

Lemma call_get e d D coll u : db_rep d D → op_ready e (OGet coll u) d D → call_ok e (OGet coll u) d D.
Proof.
  intros Hrep [Hn|(kv & c & Hkv & Hc & Hf)]; pose proof Hrep as [Hd Hu Hw Hm].
  - eapply (call_fails _ _ _ _ d); [cbn [answer]; by rewrite Hn| |done|done|done].
    cbn [run_op]. apply ft_step_err. unfold get. apply ft_step_err. by eapply get_missing.
  - destruct (db_get_ok e d D coll kv c u Hd Hkv Hc Hf) as (c' & Hci & _ & _ & _ & Hrun). exists (set_coll coll c' d).
    unfold effect. cbn [answer run_op stays_open]. rewrite Hkv. split; [by erewrite ft_step by exact Hrun|]. split; [|done].
    constructor; [by eapply colls_same|done|done|done].
Qed.

Lemma op_ok e op d D : env_ok e → db_rep d D → op_ready e op d D → call_ok e op d D.
Proof.
  intros He Hrep Hready. destruct op as [coll u v|coll u v|coll u|coll u| | |s0];
    [by apply call_insert|by apply call_update|by apply call_delete|by apply call_get|..]; unfold call_ok, effect; cbn [answer run_op op_ready stays_open] in *.
  - destruct Hrep as [Hd Hu Hw Hm]. destruct (eo_wall _ He 0%nat) as (t & Ht & Hr).
    destruct (flush_at_ok e d D (wall e 0) t He Hd Hready Ht Hr) as (d' & Hrun & Hd' & Hmv & Hwr & Hst). exists d'.
    destruct (same_mvcc d d' D Hmv). split_and!; [by erewrite ft_step by exact Hrun| |done|auto].
    constructor; [done|apply Hst|rewrite Hwr; unfold CHECKPOINT_INTERVAL; lia|]. rewrite Hmv. eapply tick_ok; [exact Hm|apply Hst].
  - destruct Hrep as [Hd Hu Hw Hm]. destruct (register_ok _ _ _ Hm) as (Hm' & Hk & _ & Ha). eexists. split; [reflexivity|].
    split; [by constructor|]. split; [exact Hk|]. intros s _. apply Ha.
  - destruct Hrep as [Hd Hu Hw Hm]. destruct (unregister_ok _ _ _ s0 Hm) as (Hm' & Hk & Hoth & Hcnt). eexists. split; [reflexivity|].
    split; [by constructor|]. split; [exact Hk|]. intros s [Hne|(n & Hn & H1)] Ha; [by apply Hoth|].
    destruct (decide (s = s0)) as [->|Hne]; [by eapply Hcnt|by apply Hoth].
Qed.

(** One call of a run in which the reader at [s] stays open. *)
Inductive db_step (s : Z) : Database S * gmap bytes (list (bytes * bytes)) → Database S * gmap bytes (list (bytes * bytes)) → Prop :=
| db_do e op d D r d' : env_ok e → op_ready e op d D → stays_open s op d → run_op e op d = Some (r, d') →
    db_step s (d, D) (d', effect e op d D).

Lemma run_ok s x y : rtc (db_step s) x y → db_rep x.1 x.2 → active (mvcc x.1) s →
  db_rep y.1 y.2 ∧ active (mvcc y.1) s ∧
  ∀ coll u, snapshot_read (mvcc y.1) (visible y.2) s coll u = snapshot_read (mvcc x.1) (visible x.2) s coll u.
Proof.
  induction 1 as [x|x y z Hstep _ IH]; intros Hrep Ha; [done|]. destruct Hstep as [e op d D r d' He Hready Hopen Hrun]. cbn [fst snd] in *.
  destruct (op_ok e op d D He Hrep Hready) as (d1 & Hrun1 & Hrep1 & Hk & Hact). rewrite Hrun1 in Hrun. injection Hrun as <- <-.
  specialize (Hact s Hopen Ha). destruct (IH Hrep1 Hact) as (H1 & H2 & H3). split_and!; [done|done|].
  intros coll u. rewrite H3. by apply Hk.
Qed.

(** ** Theorems *)


(** Reads of a database: [get] returns the stored document unless it is a tombstone,
    [scan] returns exactly the visible documents of the range, in key order. *)
Theorem database_reads d D coll kv c u lo hi :
  db_rep d D → D !! coll = Some kv → collections d !! coll = Some c →
  (∀ e, coll_fuel c kv (fuel e) → ∃ d', get e coll u d = Some (Ok (visible D coll u), d') ∧ db_rep d' D) ∧
  ∃ N rows, bt_sorted rows ∧ (∀ k v, (k, v) ∈ rows ↔ in_bounds lo hi k = true ∧ visible D coll k = Some v) ∧
    ∀ e, (N ≤ fuel e)%nat → ∃ d', scan e coll lo hi d = Some (Ok rows, d') ∧ db_rep d' D.
Proof.
  intros [Hd Hu Hw Hm] Hkv Hc. split.
  - intros e Hf. destruct (db_get_ok e d D coll kv c u Hd Hkv Hc Hf) as (c' & Hci & _ & _ & _ & Hrun). eexists. split; [exact Hrun|].
    constructor; [by eapply colls_same|done|done|done].
  - destruct (scan_ok d D coll kv c lo hi Hd Hkv Hc) as (N & rows & Hs & Hg & Hrun). exists N, rows. split_and!; [done| |].
    + intros k v. rewrite <- bt_get_elem, Hg by done. destruct (in_bounds lo hi k); naive_solver.
    + intros e He. destruct (Hrun e He) as (c' & Hscan & Hci). eexists. split; [exact Hscan|]. constructor; [by eapply colls_same|done|done|done].
Qed.

End spec.

(** Two references to the same document are reported as a cycle: [visited] keeps every
    reference that was followed, not only those on the current path. *)
Lemma diamond_reported_cyclic {C : Crc32} {S : Type} {PS : PageStore C S} e coll u n depth (d d1 : Database S) :
  get e coll u d = Some (Ok (Some (VInteger n)), d1) →
  resolve_deep e (VArray [VRef coll u; VRef coll u]) (Datatypes.S depth) d = Some (Err CyclicReference, d1).
Proof.
  intros Hget. unfold resolve_deep. apply ft_step_err. cbn [resolve_recursive]. apply ft_step_err.
  erewrite ft_step. 2:{ rewrite decide_False by apply not_elem_of_nil. erewrite ft_step by exact Hget. reflexivity. }
  cbn [fst snd]. apply ft_step_err. apply ft_step_err. by rewrite decide_True by (by left).
Qed.

(** ** A new database with one collection *)

Section demo.
#[local] Existing Instance crc32_ieee.
#[local] Existing Instance uuid_key.
#[local] Existing Instance uuid_laws.

Definition demo_env (n : nat) : Env := mkEnv n (λ i, Some (1000 + Z.of_nat i `mod` 1000)) (λ l, l) (λ l, l).
Definition demo_db (c : Collection PageManager) : Database PageManager :=
  mkDatabase {[str "docs" := c]} (fresh_writer 7 (mkClock 0 1000)) 0 applied_default (mkMvcc ∅ []) None None None.

Lemma demo_env_ok n : env_ok (demo_env n).
Proof. constructor; [|done|done]. intros i. eexists. split; [reflexivity|]. pose proof (Z.mod_pos_bound (Z.of_nat i) 1000). lia. Qed.

(** The database that [open_with] and [create_collection] build. *)
Lemma demo_created :
  ∃ d0 (c : Collection PageManager), open_with None None None [] 7 (mkClock 0 1000) = Ok d0 ∧
    create_collection (str "docs") None None d0 = Some (Ok tt, demo_db c) ∧ db_rep (demo_db c) {[str "docs" := []]} ∧
    enough (btree c) 1 ∧ can_grow (btree c) ∧ ps_room (pm (data_pool c)) = 4294967293 ∧ secondary_indexes c = [].
Proof.
  destruct (coll_open_fresh (str "docs") DEFAULT_POOL_CAPACITY ltac:(unfold DEFAULT_POOL_CAPACITY; lia)) as (c & Hopen & Hrep & Hf & Hg & Hr & Hsec & _).
  eexists _, c. split; [reflexivity|]. split.
  { unfold create_collection. erewrite lift_db_step by reflexivity. rewrite ft_get_bind. rewrite decide_False by (intros [? Hx]; discriminate Hx).
    by erewrite lift_db_step by exact Hopen. }
  split; [|exact (conj Hf (conj Hg (conj Hr Hsec)))]. constructor.
  - intros n. cbn [collections demo_db]. destruct (decide (n = str "docs")) as [->|Hne].
    + rewrite !lookup_singleton_eq. constructor. constructor; [exact Hrep|intros u raw Hx; discriminate Hx|rewrite Hsec; constructor].
    + rewrite !lookup_singleton_ne by done. constructor.
  - unfold current_hlc, is_u64. cbn. lia.
  - cbn. unfold CHECKPOINT_INTERVAL. lia.
  - constructor; [cbn; lia|intros coll key h Hx; discriminate Hx|constructor|intros s [? Hx]; discriminate Hx].
Qed.

Lemma demo_ready (c : Collection PageManager) n m :
  enough (btree c) 1 → can_grow (btree c) → ps_room (pm (data_pool c)) = 4294967293 → secondary_indexes c = [] → (1 ≤ n)%nat →
  op_ready (demo_env n) (OInsert (str "docs") (demo_key x01) (VInteger 5)) (with_mvcc m (demo_db c)) {[str "docs" := []]}.
Proof.
  intros Hf Hg Hr Hsec Hn. right. exists [], c. split; [apply lookup_singleton_eq|]. split; [apply lookup_singleton_eq|]. split; [reflexivity|].
  split; [split; [reflexivity|split; [reflexivity|cbn; lia]]|]. split; [reflexivity|]. split.
  - constructor; [unfold enough in *; cbn; lia|exact Hg|rewrite Hr; vm_compute; reflexivity|rewrite Hsec; constructor].
  - split; [|vm_compute; reflexivity]. constructor; [unfold is_u64; cbn; lia|vm_compute; discriminate|vm_compute; discriminate].
Qed.
End demo.


Lemma database_reads_witness :
  let C := crc32_ieee in
  ∃ (d : Database PageManager) N, ∀ e, (N ≤ fuel e)%nat → ∃ d', get e (str "docs") (demo_key x01) d = Some (Ok (Some (VInteger 5)), d').
Proof.
  intros C. destruct demo_created as (_ & c & _ & _ & Hrep & Hf & Hg & Hr & Hsec).
  destruct (op_ok (demo_env 1) (OInsert (str "docs") (demo_key x01) (VInteger 5)) (demo_db c) {[str "docs" := []]} (demo_env_ok 1) Hrep)
    as (d1 & _ & Hrep1 & _); [apply (demo_ready c 1 (mkMvcc ∅ [])); (assumption || lia)|].
  set (kv := [(demo_key x01, doc_encode (mkDocument (demo_key x01) (VInteger 5)))]).
  change (effect (demo_env 1) (OInsert (str "docs") (demo_key x01) (VInteger 5)) (demo_db c) {[str "docs" := []]})
    with ({[str "docs" := kv]} : gmap bytes (list (bytes * bytes))) in Hrep1.
  destruct (colls_lookup d1 _ (str "docs") kv (dr_colls _ _ Hrep1) (lookup_singleton_eq _ _)) as (c1 & Hc1 & _).
  destruct (coll_fuel_exists c1 kv) as (N & HN). exists d1, N. intros e He.
  destruct (proj1 (database_reads d1 _ (str "docs") kv c1 (demo_key x01) Unbounded Unbounded Hrep1 (lookup_singleton_eq _ _) Hc1) e (HN _ He)) as (d' & Hrun & _).
  exists d'. etrans; [exact Hrun|]. reflexivity.
Defined.

