(* ===== verification/Response.v ===== *)
(** * Responses of the client protocol (grumpydb-protocol/src/response.rs)

    A [String] is its UTF-8 bytes.  Slicing a [str] off a character boundary panics,
    and so does [Vec::with_capacity] when the bytes it asks for exceed [isize::MAX];
    the size of a [Response] is the compiler's choice, a parameter here. *)

From S2P Require Import Prelude RustStd.

Local Open Scope Z_scope.

(** ** Decimal integers *)

(** [Display] of a non-negative integer, as character codes; a number below [2 ^ fuel]
    needs at most [fuel] divisions. *)
Fixpoint digits (fuel : nat) (n : Z) (acc : list Z) : list Z :=
  match fuel with
  | O => 48 + n :: acc
  | S fuel => if decide (n < 10) then 48 + n :: acc else digits fuel (n / 10) (48 + n `mod` 10 :: acc)
  end.

Definition show_nat (n : Z) : list Z := digits (Z.to_nat (Z.log2 n + 1)) n [].
Definition show_i64 (n : Z) : list Z := if decide (n < 0) then 45 :: show_nat (- n) else show_nat n.

Fixpoint parse_digits (acc : Z) (l : list Z) : option Z :=
  match l with
  | [] => Some acc
  | c :: l => if (48 <=? c) && (c <=? 57) then parse_digits (acc * 10 + (c - 48)) l else None
  end.

Definition parse_nonempty (l : list Z) : option Z := match l with [] => None | _ => parse_digits 0 l end.

(** [str::parse] of an unsigned type with maximum [max]: an optional [+], then digits. *)
Definition parse_unsigned (max : Z) (l : list Z) : option Z :=
  n ← parse_nonempty (match l with c :: l' => if decide (c = 43) then l' else l | [] => [] end);
  if decide (n ≤ max) then Some n else None.

Definition parse_i64 (l : list Z) : option Z :=
  match l with
  | c :: l' =>
      if decide (c = 45) then
        n ← parse_nonempty l';
        if decide (n ≤ 9223372036854775808) then Some (- n) else None
      else parse_unsigned 9223372036854775807 l
  | [] => None
  end.

Lemma parse_show_digits fuel : ∀ n acc, 0 ≤ n < 10 * 2 ^ Z.of_nat fuel → parse_digits 0 (digits fuel n acc) = parse_digits n acc.
Proof.
  induction fuel as [|fuel IH]; intros n acc Hn; cbn [digits].
  - cbn [parse_digits]. rewrite !(proj2 (Z.leb_le _ _)) by lia. cbn. f_equal. lia.
  - case_decide; [cbn [parse_digits]; rewrite !(proj2 (Z.leb_le _ _)) by lia; cbn; f_equal; lia|].
    pose proof (Z.mod_pos_bound n 10). pose proof (Z.div_mod n 10).
    rewrite IH; [|split; [apply Z.div_pos; lia|]; apply Z.div_lt_upper_bound; [lia|]; rewrite Nat2Z.inj_succ, Z.pow_succ_r in Hn by lia; lia].
    cbn [parse_digits]. rewrite !(proj2 (Z.leb_le _ _)) by lia. cbn. f_equal. lia.
Qed.

Lemma digits_head fuel : ∀ n acc, 0 ≤ n → ∃ c l, digits fuel n acc = c :: l ∧ 48 ≤ c.
Proof.
  induction fuel as [|fuel IH]; intros n acc Hn; cbn [digits]; [eexists _, _; split; [reflexivity|lia]|].
  case_decide; [eexists _, _; split; [reflexivity|lia]|]. apply IH. apply Z.div_pos; lia.
Qed.

Lemma parse_show_nat n : 0 ≤ n → parse_nonempty (show_nat n) = Some n ∧ ∃ c l, show_nat n = c :: l ∧ 48 ≤ c.
Proof.
  intros Hn. unfold show_nat. set (f := Z.to_nat _). assert (Hf : n < 10 * 2 ^ Z.of_nat f).
  { unfold f. pose proof (Z.log2_nonneg n). rewrite Z2Nat.id by lia. destruct (decide (n = 0)) as [->|]; [cbn; lia|].
    pose proof (Z.log2_spec n ltac:(lia)). replace (Z.succ (Z.log2 n)) with (Z.log2 n + 1) in * by lia. lia. }
  destruct (digits_head f n [] Hn) as (c & l & Heq & Hc). split; [|eauto]. unfold parse_nonempty. rewrite Heq, <- Heq.
  by rewrite parse_show_digits.
Qed.

Lemma parse_show_unsigned max n : 0 ≤ n ≤ max → parse_unsigned max (show_nat n) = Some n.
Proof.
  intros Hn. destruct (parse_show_nat n ltac:(lia)) as (Hp & c & l & Heq & Hc). unfold parse_unsigned. rewrite Heq.
  rewrite decide_False by lia. rewrite <- Heq, Hp. cbn. by rewrite decide_True by lia.
Qed.

Lemma parse_show_i64 n : is_i64 n → parse_i64 (show_i64 n) = Some n.
Proof.
  unfold is_i64, show_i64. intros Hn. case_decide.
  - cbn [parse_i64]. rewrite decide_True by done. destruct (parse_show_nat (- n) ltac:(lia)) as (-> & _). cbn.
    rewrite decide_True by lia. f_equal. lia.
  - destruct (parse_show_nat n ltac:(lia)) as (_ & c & l & Heq & Hc). pose proof (parse_show_unsigned 9223372036854775807 n ltac:(lia)) as Hp.
    unfold parse_i64. rewrite Heq in *. rewrite decide_False by lia. exact Hp.
Qed.

Lemma show_range n : 0 ≤ n → Forall (λ c, 48 ≤ c < 58) (show_nat n).
Proof.
  intros Hn. unfold show_nat. set (f := Z.to_nat _). assert (Hf : n < 10 * 2 ^ Z.of_nat f).
  { unfold f. pose proof (Z.log2_nonneg n). rewrite Z2Nat.id by lia. destruct (decide (n = 0)) as [->|]; [cbn; lia|].
    pose proof (Z.log2_spec n ltac:(lia)). replace (Z.succ (Z.log2 n)) with (Z.log2 n + 1) in * by lia. lia. }
  clearbody f. assert (Hacc : Forall (λ c, 48 ≤ c < 58) (@nil Z)) by constructor. revert n Hn Hf Hacc. generalize (@nil Z).
  induction f as [|f IH]; intros acc n Hn Hf Hacc; cbn [digits]; [constructor; [cbn in Hf; lia|done]|].
  case_decide; [constructor; [lia|done]|]. pose proof (Z.mod_pos_bound n 10).
  apply IH; [apply Z.div_pos; lia| |constructor; [lia|done]].
  apply Z.div_lt_upper_bound; [lia|]. rewrite Nat2Z.inj_succ, Z.pow_succ_r in Hf by lia. lia.
Qed.

(** ** The type *)

Inductive Response :=
| ROk (msg : bytes)
| RError (msg : bytes)
| RInteger (n : Z)
| RBulk (data : option bytes)
| RArray (items : list Response).

Inductive ResponseParseError :=
| Incomplete
| InvalidPrefix (c : byte)
| InvalidInteger (s : bytes)
| InvalidBulkLength (s : bytes).

Definition CRLF : bytes := [x0d; x0a].
Definition text (l : list Z) : bytes := z2b <$> l.
Definition codes (b : bytes) : list Z := b2z <$> b.

Fixpoint serialize (r : Response) : bytes :=
  match r with
  | ROk msg => str "+" ++ msg ++ CRLF
  | RError msg => str "-ERR " ++ msg ++ CRLF
  | RInteger n => str ":" ++ text (show_i64 n) ++ CRLF
  | RBulk None => str "$-1" ++ CRLF
  | RBulk (Some data) => str "$" ++ text (show_nat (Z.of_nat (length data))) ++ CRLF ++ data ++ CRLF
  | RArray items => str "*" ++ text (show_nat (Z.of_nat (length items))) ++ CRLF ++ concat (serialize <$> items)
  end.

Fixpoint find_crlf (input : bytes) : option nat :=
  match input with
  | a :: (b :: _) as rest => if decide (a = x0d ∧ b = x0a) then Some 0%nat else S <$> find_crlf rest
  | _ => None
  end.

Abbreviation parsed := (outcome ResponseParseError (Response * nat)).

(** [let crlf = find_crlf(input).ok_or(Incomplete)?; let s = &input[1..crlf];]  The
    first byte is an ASCII prefix, so [crlf] is at least 1. *)
Definition header (input : bytes) : outcome ResponseParseError (nat * bytes) :=
  crlf ← ok_or (find_crlf input) Incomplete;
  Ok (crlf, slice 1 (crlf - 1) input).

Definition parse_simple_string (input : bytes) : parsed :=
  '(crlf, msg) ← header input;
  Ok (ROk msg, (crlf + 2)%nat).

Definition strip_err (msg : bytes) : bytes := if decide (take 4 msg = str "ERR ") then drop 4 msg else msg.

Definition parse_error (input : bytes) : parsed :=
  '(crlf, msg) ← header input;
  Ok (RError (strip_err msg), (crlf + 2)%nat).

Definition parse_integer (input : bytes) : parsed :=
  '(crlf, num_str) ← header input;
  n ← ok_or (parse_i64 (codes num_str)) (InvalidInteger num_str);
  Ok (RInteger n, (crlf + 2)%nat).

(** [str::is_char_boundary]: not inside a multi-byte character. *)
Definition is_char_boundary (input : bytes) (i : nat) : bool :=
  match input !! i with Some b => negb (utf8_cont b) | None => true end.

Definition parse_bulk (input : bytes) : parsed :=
  '(crlf, len_str) ← header input;
  len ← ok_or (parse_i64 (codes len_str)) (InvalidBulkLength len_str);
  if decide (len < 0) then Ok (RBulk None, (crlf + 2)%nat)
  else
    let data_start := (crlf + 2)%nat in
    if decide (Z.of_nat (length input) < Z.of_nat data_start + len + 2) then Err Incomplete
    else
      let data_end := (data_start + Z.to_nat len)%nat in
      if is_char_boundary input data_end then Ok (RBulk (Some (slice data_start (Z.to_nat len) input)), (data_end + 2)%nat)
      else Panic.

Section parse.
Variable response_size : Z.

(** [for _ in 0..count]: [rest] is [&input[offset..]].  Every item takes bytes, so the
    length of the input bounds the iterations. *)
Fixpoint parse_items (parse : bytes → option parsed) (fuel : nat) (count : Z) (rest : bytes) (offset : nat) :
    option (outcome ResponseParseError (list Response * nat)) :=
  if decide (count ≤ 0) then Some (Ok ([], offset))
  else match fuel with
       | O => None
       | S fuel =>
           match rest with
           | [] => Some (Err Incomplete)
           | _ =>
               match parse rest with
               | Some (Ok (item, consumed)) =>
                   match parse_items parse fuel (count - 1) (drop consumed rest) (offset + consumed) with
                   | Some (Ok (items, offset)) => Some (Ok (item :: items, offset))
                   | r => r
                   end
               | Some (Err e) => Some (Err e)
               | Some Panic => Some Panic
               | None => None
               end
           end
       end.

Definition parse_array (parse : bytes → option parsed) (input : bytes) : option parsed :=
  match header input with
  | Ok (crlf, count_str) =>
      match parse_unsigned u64_max (codes count_str) with
      | None => Some (Err (InvalidBulkLength count_str))
      | Some count =>
          if decide (9223372036854775807 < count * response_size) then Some Panic
          else
            match parse_items parse (S (length input)) count (drop (crlf + 2) input) (crlf + 2) with
            | Some (Ok (items, offset)) => Some (Ok (RArray items, offset))
            | Some (Err e) => Some (Err e)
            | Some Panic => Some Panic
            | None => None
            end
      end
  | Err e => Some (Err e)
  | Panic => Some Panic
  end.

(** [fuel] bounds the nesting of arrays. *)
Fixpoint parse_nested (fuel : nat) (input : bytes) : option parsed :=
  match fuel with
  | O => None
  | S fuel =>
      match input with
      | [] => Some (Err Incomplete)
      | first :: _ =>
          if decide (first = x2b) then Some (parse_simple_string input)
          else if decide (first = x2d) then Some (parse_error input)
          else if decide (first = x3a) then Some (parse_integer input)
          else if decide (first = x24) then Some (parse_bulk input)
          else if decide (first = x2a) then parse_array (parse_nested fuel) input
          else Some (Err (InvalidPrefix first))
      end
  end.

Definition parse (input : bytes) : option parsed := parse_nested (S (length input)) input.
End parse.

(** ** Line ends *)

Definition no_crlf (s : bytes) : Prop := find_crlf s = None.

Lemma find_crlf_cons a l : find_crlf (a :: l) = match l with b :: _ => if decide (a = x0d ∧ b = x0a) then Some 0%nat else S <$> find_crlf l | [] => None end.
Proof. by destruct l. Qed.

Lemma find_crlf_app s rest : no_crlf s → find_crlf (s ++ CRLF ++ rest) = Some (length s).
Proof.
  unfold no_crlf. induction s as [|a s IH]; intros Hs; [done|]. cbn [app length]. rewrite find_crlf_cons. destruct s as [|b s].
  - cbn [app CRLF]. by rewrite decide_False by (intros [_ H]; discriminate H).
  - rewrite find_crlf_cons in Hs. cbn [app]. case_decide; [discriminate Hs|]. change (b :: s ++ CRLF ++ rest) with ((b :: s) ++ CRLF ++ rest).
    rewrite IH; [done|]. destruct (find_crlf (b :: s)); [discriminate Hs|done].
Qed.

Lemma find_crlf_take l : ∀ i k, find_crlf l = Some i → find_crlf (take k l) = if decide (i + 2 ≤ k)%nat then Some i else None.
Proof.
  induction l as [|a l IH]; intros i k Hi; [discriminate Hi|]. rewrite find_crlf_cons in Hi. destruct l as [|b l]; [discriminate Hi|].
  destruct k as [|[|k]]; [by rewrite decide_False by lia|by cbn; rewrite decide_False by lia|].
  cbn [take]. rewrite find_crlf_cons. case_decide.
  - injection Hi as <-. by rewrite decide_True by lia.
  - destruct (find_crlf (b :: l)) as [j|] eqn:E; [|discriminate Hi]. injection Hi as <-. specialize (IH j (S k) eq_refl). cbn [take] in IH.
    rewrite IH. repeat case_decide; (done || lia).
Qed.

Lemma find_crlf_bound l : ∀ i, find_crlf l = Some i → (i + 2 ≤ length l)%nat.
Proof.
  induction l as [|a l IH]; intros i Hi; [discriminate Hi|]. rewrite find_crlf_cons in Hi. destruct l as [|b l]; [discriminate Hi|].
  case_decide; [injection Hi as <-; cbn; lia|]. destruct (find_crlf (b :: l)) as [j|] eqn:E; [|discriminate Hi]. injection Hi as <-.
  specialize (IH j eq_refl). cbn [length] in *. lia.
Qed.

Lemma no_cr s : Forall (λ b, b ≠ x0d) s → no_crlf s.
Proof.
  unfold no_crlf. induction 1 as [|a s Ha Hs IH]; [done|]. rewrite find_crlf_cons. destruct s; [done|]. rewrite decide_False by naive_solver. by rewrite IH.
Qed.

Lemma no_crlf_cons a s : no_crlf s → a ≠ x0d → no_crlf (a :: s).
Proof. unfold no_crlf. intros Hs Ha. rewrite find_crlf_cons. destruct s; [done|]. rewrite decide_False by naive_solver. by rewrite Hs. Qed.

Lemma header_app p s rest : no_crlf (p :: s) → header (p :: s ++ CRLF ++ rest) = Ok (S (length s), s).
Proof.
  intros Hs. unfold header. change (p :: s ++ CRLF ++ rest) with ((p :: s) ++ CRLF ++ rest). rewrite find_crlf_app by done. cbn [ok_or mbind outcome_bind length].
  do 2 f_equal. unfold slice. cbn [app drop]. rewrite Nat.sub_succ, Nat.sub_0_r. apply take_app_length.
Qed.

Lemma header_short l i k : find_crlf l = Some i → (k < i + 2)%nat → header (take k l) = Err Incomplete.
Proof. intros Hi Hk. unfold header. rewrite (find_crlf_take l i k Hi). by rewrite decide_False by lia. Qed.

Lemma text_no_cr l : Forall (λ c, 45 ≤ c < 58) l → Forall (λ b, b ≠ x0d) (text l) ∧ codes (text l) = l.
Proof.
  induction 1 as [|c l Hc Hl [IH1 IH2]]; [done|]. unfold text, codes in *. cbn [fmap list_fmap]. split.
  - constructor; [|done]. intros E. assert (Hb : b2z (z2b c) = 13) by (by rewrite E). rewrite b2z_z2b, Z.mod_small in Hb by lia. lia.
  - f_equal; [rewrite b2z_z2b; apply Z.mod_small; lia|done].
Qed.

Lemma show_nat_text n : 0 ≤ n → Forall (λ b, b ≠ x0d) (text (show_nat n)) ∧ codes (text (show_nat n)) = show_nat n.
Proof. intros Hn. apply text_no_cr. eapply Forall_impl; [by apply show_range|]. cbn. lia. Qed.

Lemma show_i64_text n : Forall (λ b, b ≠ x0d) (text (show_i64 n)) ∧ codes (text (show_i64 n)) = show_i64 n.
Proof.
  apply text_no_cr. unfold show_i64. case_decide.
  - constructor; [lia|]. eapply Forall_impl; [apply show_range; lia|]. cbn. lia.
  - eapply Forall_impl; [apply show_range; lia|]. cbn. lia.
Qed.

(** ** Round trip *)

Fixpoint Response_ind' (P : Response → Prop) (Hok : ∀ m, P (ROk m)) (Herr : ∀ m, P (RError m)) (Hint : ∀ n, P (RInteger n))
    (Hbulk : ∀ d, P (RBulk d)) (Harr : ∀ l, Forall P l → P (RArray l)) (r : Response) : P r :=
  match r with
  | ROk m => Hok m
  | RError m => Herr m
  | RInteger n => Hint n
  | RBulk d => Hbulk d
  | RArray l => Harr l ((fix go l : Forall P l := match l with [] => Forall_nil_2 P | x :: l => Forall_cons_2 P x l (Response_ind' P Hok Herr Hint Hbulk Harr x) (go l) end) l)
  end.

Section roundtrip.
Variable response_size : Z.

(** A response that fits the wire format: messages are single lines, integers and
    lengths have their Rust types. *)
Fixpoint resp_ok (r : Response) : Prop :=
  match r with
  | ROk msg | RError msg => no_crlf msg
  | RInteger n => is_i64 n
  | RBulk None => True
  | RBulk (Some data) => Z.of_nat (length data) ≤ 9223372036854775807
  | RArray items => Z.of_nat (length items) ≤ u64_max ∧ Z.of_nat (length items) * response_size ≤ 9223372036854775807 ∧
      (fix all l := match l with [] => True | x :: l => resp_ok x ∧ all l end) items
  end.

Lemma resp_ok_items l : (fix all l := match l with [] => True | x :: l => resp_ok x ∧ all l end) l ↔ Forall resp_ok l.
Proof. induction l as [|x l IH]; [by split; constructor|]. rewrite Forall_cons. by rewrite IH. Qed.

(** A response is its first line, and what follows it. *)
Lemma serialize_shape r : resp_ok r → ∃ p s tail, serialize r = p :: s ++ CRLF ++ tail ∧ no_crlf (p :: s).
Proof.
  destruct r as [m|m|n|[d|]|l]; cbn [serialize resp_ok]; intros Hok.
  - exists x2b, m, []. split; [done|]. by apply no_crlf_cons.
  - exists x2d, (str "ERR " ++ m), []. split; [done|]. by repeat (apply no_crlf_cons; [|done]).
  - exists x3a, (text (show_i64 n)), []. split; [done|]. apply no_cr. constructor; [done|apply show_i64_text].
  - exists x24, (text (show_nat (Z.of_nat (length d)))), (d ++ CRLF). split; [done|]. apply no_cr. constructor; [done|apply show_nat_text; lia].
  - exists x24, (str "-1"), []. done.
  - exists x2a, (text (show_nat (Z.of_nat (length l)))), (concat (serialize <$> l)). split; [done|]. apply no_cr. constructor; [done|apply show_nat_text; lia].
Qed.

Lemma serialize_length r : (2 ≤ length (serialize r))%nat.
Proof. destruct r as [m|m|n|[d|]|l]; cbn [serialize]; rewrite ?length_app; cbn; lia. Qed.

Abbreviation parse_at := (parse_nested response_size).

(** The dispatch on the first byte. *)
Lemma parse_dispatch f (first : byte) input :
  parse_at (S f) (first :: input) =
    if decide (first = x2b) then Some (parse_simple_string (first :: input))
    else if decide (first = x2d) then Some (parse_error (first :: input))
    else if decide (first = x3a) then Some (parse_integer (first :: input))
    else if decide (first = x24) then Some (parse_bulk (first :: input))
    else if decide (first = x2a) then parse_array response_size (parse_at f) (first :: input)
    else Some (Err (InvalidPrefix first)).
Proof. done. Qed.

Definition whole (P : bytes → option parsed) (r : Response) : Prop :=
  ∀ rest, P (serialize r ++ rest) = Some (Ok (r, length (serialize r))).
Definition partial (P : bytes → option parsed) (r : Response) : Prop :=
  ∀ k, (k < length (serialize r))%nat → P (take k (serialize r)) = Some (Err Incomplete).

Lemma parse_items_whole P items rest : ∀ fuel off,
  Forall (whole P) items → (length items ≤ fuel)%nat →
  parse_items P fuel (Z.of_nat (length items)) (concat (serialize <$> items) ++ rest) off =
    Some (Ok (items, (off + length (concat (serialize <$> items)))%nat)).
Proof.
  induction items as [|r items IH]; intros fuel off Hall Hf.
  { destruct fuel; cbn; do 3 f_equal; lia. }
  apply Forall_cons in Hall as [Hr Hall]. cbn [length] in Hf. destruct fuel as [|fuel]; [lia|].
  cbn [fmap list_fmap concat length]. rewrite <- app_assoc. cbn [parse_items]. rewrite decide_False by lia.
  pose proof (serialize_length r) as Hl. rewrite (Hr (concat (serialize <$> items) ++ rest)).
  destruct (serialize r ++ _) as [|b l] eqn:E; [apply (f_equal length) in E; rewrite length_app in E; cbn in E; lia|]. rewrite <- E.
  rewrite drop_app_length. replace (Z.of_nat (S (length items)) - 1) with (Z.of_nat (length items)) by lia.
  rewrite IH by (done || lia). do 3 f_equal. rewrite length_app. lia.
Qed.

Lemma parse_items_partial P items : ∀ fuel off k,
  Forall (whole P) items → Forall (partial P) items → (k < fuel)%nat → (k < length (concat (serialize <$> items)))%nat →
  parse_items P fuel (Z.of_nat (length items)) (take k (concat (serialize <$> items))) off = Some (Err Incomplete).
Proof.
  induction items as [|r items IH]; intros fuel off k Hw Hp Hf Hk; [cbn in Hk; lia|].
  apply Forall_cons in Hw as [Hr Hw]. apply Forall_cons in Hp as [Hpr Hp]. destruct fuel as [|fuel]; [lia|].
  cbn [fmap list_fmap concat length] in *. cbn [parse_items]. rewrite decide_False by lia. rewrite length_app in Hk.
  destruct (decide (k < length (serialize r))%nat) as [Hlt|Hge].
  - rewrite take_app_le by lia. rewrite (Hpr k Hlt). by destruct (take k (serialize r)).
  - rewrite take_app_ge by lia. pose proof (serialize_length r) as Hl. rewrite (Hr (take (k - length (serialize r)) (concat (serialize <$> items)))).
    destruct (serialize r ++ _) as [|b l] eqn:E; [apply (f_equal length) in E; rewrite length_app in E; cbn in E; lia|]. rewrite <- E.
    rewrite drop_app_length. replace (Z.of_nat (S (length items)) - 1) with (Z.of_nat (length items)) by lia. by rewrite IH by (done || lia).
Qed.

(** Cutting a response in its first line. *)
Lemma parse_cut_line f r k p s tail :
  serialize r = p :: s ++ CRLF ++ tail → no_crlf (p :: s) → (0 < k < length s + 3)%nat → p ∈ [x2b; x2d; x3a; x24; x2a] →
  parse_at (S f) (take k (serialize r)) = Some (Err Incomplete).
Proof.
  intros -> Hs Hk Hp. pose proof (find_crlf_app (p :: s) tail Hs) as Hfind. cbn [length app] in Hfind.
  pose proof (header_short _ _ k Hfind ltac:(lia)) as Hh. destruct k as [|k]; [lia|]. cbn [take] in *. rewrite parse_dispatch.
  unfold parse_simple_string, parse_error, parse_integer, parse_bulk, parse_array. rewrite Hh. cbn [mbind outcome_bind].
  repeat case_decide; try done. set_solver.
Qed.

Lemma count_parses n : 0 ≤ n ≤ u64_max → parse_unsigned u64_max (codes (text (show_nat n))) = Some n.
Proof. intros Hn. rewrite (proj2 (show_nat_text n ltac:(lia))). by apply parse_show_unsigned. Qed.

Lemma len_parses n : 0 ≤ n ≤ 9223372036854775807 → parse_i64 (codes (text (show_nat n))) = Some n.
Proof.
  intros Hn. rewrite (proj2 (show_nat_text n ltac:(lia))). replace (show_nat n) with (show_i64 n) by (unfold show_i64; by rewrite decide_False by lia).
  apply parse_show_i64. unfold is_i64. lia.
Qed.

(** The items of an array, after its first line. *)
Lemma parse_array_run P n rest :
  0 ≤ n ≤ u64_max → n * response_size ≤ 9223372036854775807 →
  let line := text (show_nat n) in
  parse_array response_size P (x2a :: line ++ CRLF ++ rest) =
    match parse_items P (S (length (x2a :: line ++ CRLF ++ rest))) n rest (S (length line) + 2) with
    | Some (Ok (items, offset)) => Some (Ok (RArray items, offset))
    | Some (Err e) => Some (Err e)
    | Some Panic => Some Panic
    | None => None
    end.
Proof.
  intros Hn Hsize line. unfold parse_array. rewrite header_app by (apply no_cr; constructor; [done|apply show_nat_text; lia]).
  unfold line. rewrite count_parses by done. rewrite decide_False by lia.
  replace (drop (S (length (text (show_nat n))) + 2) (x2a :: text (show_nat n) ++ CRLF ++ rest)) with rest; [done|].
  cbn [Nat.add drop]. rewrite <- drop_drop, drop_app_length. done.
Qed.

Lemma items_length (items : list Response) : (length items ≤ length (concat (serialize <$> items)))%nat.
Proof. induction items as [|r l IH]; [done|]. cbn [fmap list_fmap concat length]. rewrite length_app. pose proof (serialize_length r). lia. Qed.

Lemma parse_bulk_run d rest tail :
  Z.of_nat (length d) ≤ 9223372036854775807 → tail = d ++ CRLF ++ rest →
  parse_bulk (x24 :: text (show_nat (Z.of_nat (length d))) ++ CRLF ++ tail) =
    Ok (RBulk (Some d), (length (text (show_nat (Z.of_nat (length d)))) + length d + 5)%nat).
Proof.
  intros Hl ->. set (line := text _). unfold parse_bulk. rewrite header_app by (apply no_cr; constructor; [done|apply show_nat_text; lia]).
  cbn [mbind outcome_bind].
  pose proof (len_parses (Z.of_nat (length d)) ltac:(lia)) as Hp. fold line in Hp. rewrite Hp. cbn [ok_or mbind outcome_bind]. rewrite decide_False by lia.
  rewrite decide_False by (cbn [length]; rewrite !length_app; cbn; lia). rewrite Nat2Z.id.
  set (input := x24 :: line ++ CRLF ++ d ++ CRLF ++ rest).
  assert (Hin : input = (x24 :: line ++ CRLF) ++ d ++ CRLF ++ rest) by (unfold input; cbn; by rewrite <- app_assoc).
  assert (Hlen : length (x24 :: line ++ CRLF) = (S (length line) + 2)%nat) by (cbn; rewrite length_app; cbn; lia).
  assert (Hb : is_char_boundary input (S (length line) + 2 + length d) = true).
  { unfold is_char_boundary. rewrite Hin, lookup_app_r, Hlen by lia. rewrite lookup_app_r by lia. replace (_ - _ - _)%nat with 0%nat by lia. done. }
  rewrite Hb, Hin. unfold slice. rewrite <- Hlen, drop_app_length, take_app_length. do 2 f_equal. lia.
Qed.

Lemma parse_bulk_cut d k tail :
  Z.of_nat (length d) ≤ 9223372036854775807 → tail = take k (d ++ CRLF) → (k < length d + 2)%nat →
  parse_bulk (x24 :: text (show_nat (Z.of_nat (length d))) ++ CRLF ++ tail) = Err Incomplete.
Proof.
  intros Hl -> Hk. unfold parse_bulk. rewrite header_app by (apply no_cr; constructor; [done|apply show_nat_text; lia]).
  cbn [mbind outcome_bind]. rewrite len_parses by lia. cbn [ok_or mbind outcome_bind]. rewrite decide_False by lia. rewrite decide_True; [done|].
  cbn [length]. rewrite !length_app, length_take, length_app. cbn. lia.
Qed.

(** Every proper prefix of a response ends in its first line or after it. *)
Lemma partial_split f r p s tail :
  serialize r = p :: s ++ CRLF ++ tail → no_crlf (p :: s) → p ∈ [x2b; x2d; x3a; x24; x2a] →
  (∀ k, (k < length tail)%nat → parse_at (S f) (p :: s ++ CRLF ++ take k tail) = Some (Err Incomplete)) →
  partial (parse_at (S f)) r.
Proof.
  intros Hr Hs Hp Htail k Hk. destruct k as [|k]; [done|].
  destruct (decide (S k < length s + 3)%nat) as [Hlt|Hge]; [eapply parse_cut_line; (done || lia)|].
  rewrite Hr in Hk |- *. cbn [length] in Hk. rewrite !length_app in Hk. cbn [length CRLF] in Hk. cbn [take].
  rewrite take_app_ge by lia. rewrite take_app_ge by (cbn; lia). apply Htail. cbn. lia.
Qed.

Lemma parse_response_ok r : resp_ok r → ∀ f, (length (serialize r) < f)%nat → whole (parse_at f) r ∧ partial (parse_at f) r.
Proof.
  induction r as [m|m|n|d|items IH] using Response_ind'; intros Hok f Hf; (destruct f as [|f]; [lia|]); cbn [resp_ok] in Hok.
  - split; [|apply (partial_split f _ x2b m []); [done|by apply no_crlf_cons|set_solver|cbn; lia]].
    intros rest. cbn [serialize str]. rewrite <- !app_assoc. change (str "+" ++ m ++ CRLF ++ rest) with (x2b :: m ++ CRLF ++ rest).
    rewrite parse_dispatch, decide_True by done. unfold parse_simple_string. rewrite header_app by (by apply no_crlf_cons).
    cbn [mbind outcome_bind]. do 3 f_equal. rewrite !length_app. cbn. lia.
  - assert (Hn : no_crlf (x2d :: str "ERR " ++ m)) by (by repeat (apply no_crlf_cons; [|done])).
    split; [|apply (partial_split f _ x2d (str "ERR " ++ m) []); [done|done|set_solver|cbn; lia]].
    intros rest. cbn [serialize]. rewrite <- !app_assoc.
    change (str "-ERR " ++ m ++ CRLF ++ rest) with (x2d :: (str "ERR " ++ m) ++ CRLF ++ rest).
    rewrite parse_dispatch, decide_False, decide_True by done. unfold parse_error. rewrite header_app by done.
    cbn [mbind outcome_bind]. unfold strip_err. rewrite decide_True by done.
    change (drop 4 (str "ERR " ++ m)) with m. do 3 f_equal. rewrite !length_app. cbn. lia.
  - pose proof (show_i64_text n) as [Hcr Hcodes]. assert (Hn : no_crlf (x3a :: text (show_i64 n))) by (apply no_cr; by constructor).
    split; [|apply (partial_split f _ x3a (text (show_i64 n)) []); [done|done|set_solver|cbn; lia]].
    intros rest. cbn [serialize]. rewrite <- !app_assoc.
    change (str ":" ++ text (show_i64 n) ++ CRLF ++ rest) with (x3a :: text (show_i64 n) ++ CRLF ++ rest).
    rewrite parse_dispatch, !decide_False, decide_True by done. unfold parse_integer. rewrite header_app by done.
    cbn [mbind outcome_bind]. rewrite Hcodes, parse_show_i64 by done. cbn [ok_or mbind outcome_bind]. do 3 f_equal. rewrite !length_app. cbn. lia.
  - destruct d as [d|].
    + set (line := text (show_nat (Z.of_nat (length d)))). assert (Hn : no_crlf (x24 :: line)) by (apply no_cr; constructor; [done|apply show_nat_text; lia]).
      split; [|apply (partial_split f _ x24 line (d ++ CRLF)); [done|done|set_solver|]].
      * intros rest. cbn [serialize]. rewrite <- !app_assoc. fold line.
        change (str "$" ++ line ++ CRLF ++ d ++ CRLF ++ rest) with (x24 :: line ++ CRLF ++ d ++ CRLF ++ rest).
        rewrite parse_dispatch, !decide_False, decide_True by done. unfold line. erewrite parse_bulk_run by done. do 3 f_equal.
        rewrite !length_app. cbn. lia.
      * intros k Hk. rewrite length_app in Hk. cbn in Hk. rewrite parse_dispatch, !decide_False, decide_True by done. unfold line.
        erewrite parse_bulk_cut by (done || lia). done.
    + split; [|apply (partial_split f _ x24 (str "-1") []); [done|done|set_solver|cbn; lia]]. intros rest. done.
  - destruct Hok as (Hc & Hsz & Hall). rewrite resp_ok_items in Hall.
    set (line := text (show_nat (Z.of_nat (length items)))). assert (Hn : no_crlf (x2a :: line)) by (apply no_cr; constructor; [done|apply show_nat_text; lia]).
    assert (Hitems : Forall (whole (parse_at f)) items ∧ Forall (partial (parse_at f)) items).
    { rewrite <- Forall_and. rewrite Forall_forall in *. intros x Hx. apply IH; [done|by apply Hall|].
      apply list_elem_of_split in Hx as (l1 & l2 & ->). cbn [serialize] in Hf. rewrite !length_app, fmap_app, concat_app, length_app in Hf.
      cbn [fmap list_fmap concat] in Hf. rewrite length_app in Hf. cbn in Hf. lia. }
    destruct Hitems as [Hw Hp]. pose proof (items_length items) as Hl. split; [|apply (partial_split f _ x2a line (concat (serialize <$> items))); [done|done|set_solver|]].
    + intros rest. cbn [serialize]. rewrite <- !app_assoc. fold line.
      change (str "*" ++ line ++ CRLF ++ concat (serialize <$> items) ++ rest) with (x2a :: line ++ CRLF ++ concat (serialize <$> items) ++ rest).
      rewrite parse_dispatch, !decide_False, decide_True by done. unfold line. rewrite parse_array_run by lia. fold line.
      rewrite parse_items_whole; [|done|cbn [length]; rewrite !length_app; lia]. do 3 f_equal. rewrite !length_app. cbn. lia.
    + intros k Hk. rewrite parse_dispatch, !decide_False, decide_True by done. unfold line. rewrite parse_array_run by lia. fold line.
      rewrite parse_items_partial; [done|done|done| |done]. cbn [length]. rewrite !length_app, length_take. lia.
Qed.

(** ** Termination *)

Lemma parse_items_offset P fuel : ∀ count rest off items n, parse_items P fuel count rest off = Some (Ok (items, n)) → (off ≤ n)%nat.
Proof.
  induction fuel as [|fuel IH]; intros count rest off items n; cbn [parse_items]; (case_decide; [intros [= _ <-]; lia|]); [done|].
  destruct rest as [|b rest]; [done|]. destruct (P (b :: rest)) as [[[item k]|err|]|]; try done.
  destruct (parse_items P fuel (count - 1) _ _) as [[[l o]|err|]|] eqn:E; try done. intros [= _ <-]. apply IH in E. lia.
Qed.

Lemma parse_consumes f input r n : parse_at f input = Some (Ok (r, n)) → (1 ≤ n)%nat.
Proof.
  destruct f as [|f]; [done|]. destruct input as [|first l]; [done|]. rewrite parse_dispatch. set (input := first :: l).
  unfold parse_simple_string, parse_error, parse_integer, parse_bulk, parse_array. destruct (header input) as [[crlf hdr]|err|]; cbn [mbind outcome_bind].
  - repeat case_decide; try (intros [= _ <-]; lia); try done.
    + destruct (parse_i64 (codes hdr)); cbn; [intros [= _ <-]; lia|done].
    + destruct (parse_i64 (codes hdr)); cbn; [|done]. case_decide; [intros [= _ <-]; lia|]. case_decide; [done|].
      destruct (is_char_boundary _ _); [intros [= _ <-]; lia|done].
    + destruct (parse_unsigned _ _); [|done]. case_decide; [done|]. destruct (parse_items _ _ _ _ _) as [[[items o]|err|]|] eqn:E; try done.
      intros [= _ <-]. apply parse_items_offset in E. lia.
  - by repeat case_decide.
  - by repeat case_decide.
Qed.

Lemma parse_items_total P fuel : ∀ count rest off,
  (∀ x, (length x ≤ length rest)%nat → P x ≠ None ∧ ∀ r n, P x = Some (Ok (r, n)) → (1 ≤ n)%nat) →
  (length rest < fuel)%nat → parse_items P fuel count rest off ≠ None.
Proof.
  induction fuel as [|fuel IH]; intros count rest off HP Hf; [lia|]. cbn [parse_items]. case_decide; [done|]. destruct rest as [|b rest]; [done|].
  destruct (HP (b :: rest) ltac:(lia)) as [Hne Hpos]. destruct (P (b :: rest)) as [[[item k]|err|]|]; try done. specialize (Hpos item k eq_refl).
  specialize (IH (count - 1) (drop k (b :: rest)) (off + k)%nat). destruct (parse_items P fuel _ _ _) as [[[l o]|err|]|]; try done.
  exfalso. apply IH; [| |done]; rewrite length_drop; cbn [length] in *; [|lia]. intros x Hx. apply HP. lia.
Qed.

Lemma parse_total f : ∀ input, (length input < f)%nat → parse_at f input ≠ None.
Proof.
  induction f as [|f IH]; intros input Hf; [lia|]. destruct input as [|first l]; [done|]. rewrite parse_dispatch. repeat case_decide; try done.
  unfold parse_array. destruct (header (first :: l)) as [[crlf hdr]|err|] eqn:Hh; try done. destruct (parse_unsigned _ _); [|done]. case_decide; [done|].
  destruct (parse_items _ _ _ _ _) as [[[items o]|err|]|] eqn:E; try done. exfalso. revert E. apply parse_items_total.
  - intros x Hx. rewrite length_drop in Hx. split; [apply IH; cbn [length] in *; lia|]. intros r n. apply parse_consumes.
  - rewrite length_drop. lia.
Qed.

(** More fuel does not change an answer. *)
Lemma parse_items_mono (P Q : bytes → option parsed) fuel : (∀ x y, P x = Some y → Q x = Some y) →
  ∀ count rest off y, parse_items P fuel count rest off = Some y → parse_items Q fuel count rest off = Some y.
Proof.
  intros HPQ. induction fuel as [|fuel IH]; intros count rest off y; cbn [parse_items]; case_decide; try done. destruct rest as [|b rest]; [done|].
  destruct (P (b :: rest)) as [z|] eqn:E; [|done]. rewrite (HPQ _ _ E). destruct z as [[item k]|err|]; try done.
  destruct (parse_items P fuel _ _ _) as [z|] eqn:E2; [|done]. by rewrite (IH _ _ _ _ E2).
Qed.

Lemma parse_mono f : ∀ g input y, (f ≤ g)%nat → parse_at f input = Some y → parse_at g input = Some y.
Proof.
  induction f as [|f IH]; intros [|g] input y Hle; [done|done|lia|]. destruct input as [|first l]; [done|]. rewrite !parse_dispatch.
  repeat case_decide; try done. unfold parse_array. destruct (header _) as [[crlf hdr]|err|]; try done. destruct (parse_unsigned _ _); [|done].
  case_decide; [done|]. destruct (parse_items (parse_at f) _ _ _ _) as [w|] eqn:E; [|done].
  by rewrite (parse_items_mono (parse_at f) (parse_at g) _ (λ x y, IH g x y ltac:(lia)) _ _ _ _ E).
Qed.

(** ** Theorems *)

(** A response read off the wire is the response that was sent: parsing its
    serialization, whatever bytes follow, gives it back and consumes exactly its bytes,
    for every nesting of arrays; and every proper prefix of it is reported as
    incomplete, so a reader that waits for more data never misreads one.  Parsing always
    terminates. *)
Theorem response_roundtrip r rest k :
  (resp_ok r → parse response_size (serialize r ++ rest) = Some (Ok (r, length (serialize r))) ∧
    ((k < length (serialize r))%nat → parse response_size (take k (serialize r)) = Some (Err Incomplete))) ∧
  ∀ input, parse response_size input ≠ None.
Proof.
  split; [|intros input; apply parse_total; lia]. intros Hok. split.
  - apply (parse_response_ok r Hok). rewrite length_app. lia.
  - intros Hk. unfold parse. destruct (parse_at (S (length (take k (serialize r)))) (take k (serialize r))) as [y|] eqn:E; [|by apply parse_total in E; [|lia]].
    apply (parse_mono _ (S (length (serialize r)))) in E; [|rewrite length_take; lia].
    by rewrite <- E, (proj2 (parse_response_ok r Hok (S (length (serialize r))) ltac:(lia)) k Hk).
Qed.
End roundtrip.

Lemma response_roundtrip_witness :
  let r := RArray [RBulk (Some (str "a")); RArray [RInteger (-12); ROk (str "PONG")]; RError (str "no such key")] in
  parse 24 (serialize r ++ str "+next") = Some (Ok (r, length (serialize r))) ∧ parse 24 (take 20 (serialize r)) = Some (Err Incomplete).
Proof.
  intros r. destruct (proj1 (response_roundtrip 24 r (str "+next") 20)) as [H1 H2]; [repeat split; vm_compute; (reflexivity || discriminate)|].
  split; [exact H1|]. apply H2. vm_compute. lia.
Defined.

(** The element count of an array is trusted: the parser reserves memory for that many
    items before it has seen any of them, and panics. *)
Lemma array_count_panics response_size : 0 < response_size →
  parse response_size (str "*9223372036854775808" ++ CRLF) = Some Panic.
Proof.
  intros Hs. unfold parse. change (str "*9223372036854775808" ++ CRLF) with (x2a :: str "9223372036854775808" ++ CRLF). rewrite (parse_dispatch response_size _ x2a). rewrite !decide_False, decide_True by done.
  unfold parse_array. change (header _) with (Ok (E := ResponseParseError) (20%nat, str "9223372036854775808")).
  assert (Hp : parse_unsigned u64_max (codes (str "9223372036854775808")) = Some 9223372036854775808) by (vm_compute; reflexivity).
  cbv beta iota. rewrite Hp. by rewrite decide_True by lia.
Qed.

(** A line break in a message ends the response early: the rest of the message is read
    as the next response. *)
Lemma message_with_line_break response_size :
  parse response_size (serialize (RError (str "a" ++ CRLF ++ str "+OK"))) = Some (Ok (RError (str "a"), 8%nat)).
Proof. reflexivity. Qed.
