(* ===== verification/Command.v ===== *)
(** * Commands of the client protocol (grumpydb-protocol/src/command.rs)

    A [String] of a command is the list of its characters (Unicode scalar values), which
    is how the parser looks at it. *)

From S2P Require Import Prelude RustStd.

Local Open Scope Z_scope.

Abbreviation chars := (list Z).

Inductive Command :=
| WithConsistency (read_concern write_concern : option Z) (command : Command)
| Login (tenant username password : chars)
| Token (jwt : chars)
| Refresh (token : chars)
| WhoAmI
| Topology
| SnapshotHlc
| SchemaVersion
| SchemaStatus
| Use (database : chars)
| Ping
| Quit
| CreateDatabase (name : chars)
| DropDatabase (name : chars)
| ListDatabases
| SetDatabaseConsistency (database : chars) (read_concern write_concern : option Z)
| ResetDatabaseConsistency (database : chars)
| ShowDatabaseConsistency (database : chars)
| CreateCollection (name : chars)
| DropCollection (name : chars)
| ListCollections
| Insert (collection key value : chars)
| Get (collection key : chars)
| Update (collection key value : chars)
| Delete (collection key : chars)
| PutWithVc (collection key value vector_clock : chars)
| Scan (collection : chars) (start end_ : option chars)
| CreateIndex (collection index_name field_path : chars)
| DropIndex (collection index_name : chars)
| ListIndexes (collection : chars)
| Query (collection index_name value : chars)
| QueryRange (collection index_name start end_ : chars)
| Compact (collection : chars)
| Flush
| Count (collection : chars)
| CreateUser (username password : chars)
| DropUser (username : chars)
| ListUsers (tenant : option chars)
| Grant (role resource username : chars)
| Revoke (role resource username : chars)
| CreateTenant (name : chars)
| DropTenant (name : chars)
| ListTenants
| ElectWriter (node_id database : chars) (collection : option chars)
| PlanRebalanceAddNode (node_id : chars)
| PlanRebalanceRemoveNode (node_id : chars)
| ExecuteRebalanceAddNode (node_id collection : chars)
| ExecuteRebalanceRemoveNode (node_id collection : chars).

Inductive Action := Read | Write | Admin | ManageUsers | ManageDatabases | ManageServer | ManageCluster | Session.

Inductive Resource := RServer | RDatabase (name : chars) | RCollection (database collection : chars) | RNone.

Fixpoint required_action (c : Command) : Action :=
  match c with
  | WithConsistency _ _ command => required_action command
  | Get _ _ | Scan _ _ _ | Query _ _ _ | QueryRange _ _ _ _ | Count _ => Read
  | Insert _ _ _ | Update _ _ _ | Delete _ _ | PutWithVc _ _ _ _ => Write
  | CreateCollection _ | DropCollection _ | CreateIndex _ _ _ | DropIndex _ _ | ListCollections | ListIndexes _ | Compact _ | Flush => Admin
  | CreateDatabase _ | DropDatabase _ | ListDatabases | SetDatabaseConsistency _ _ _ | ResetDatabaseConsistency _ | ShowDatabaseConsistency _ => ManageDatabases
  | CreateUser _ _ | DropUser _ | ListUsers _ | Grant _ _ _ | Revoke _ _ _ => ManageUsers
  | CreateTenant _ | DropTenant _ | ListTenants => ManageServer
  | ElectWriter _ _ _ | PlanRebalanceAddNode _ | PlanRebalanceRemoveNode _ | ExecuteRebalanceAddNode _ _ | ExecuteRebalanceRemoveNode _ _ => ManageCluster
  | Login _ _ _ | Token _ | Refresh _ | WhoAmI | Topology | SnapshotHlc | SchemaVersion | SchemaStatus | Use _ | Ping | Quit => Session
  end.

Fixpoint target_resource (current_db : option chars) (c : Command) : Resource :=
  match c with
  | WithConsistency _ _ command => target_resource current_db command
  | CreateTenant _ | DropTenant _ | ListTenants => RServer
  | CreateDatabase name | DropDatabase name => RDatabase name
  | SetDatabaseConsistency database _ _ | ResetDatabaseConsistency database | ShowDatabaseConsistency database => RDatabase database
  | ListDatabases => RNone
  | Insert collection _ _ | Get collection _ | Update collection _ _ | Delete collection _ | PutWithVc collection _ _ _
  | Scan collection _ _ | Query collection _ _ | QueryRange collection _ _ _ | Count collection | Compact collection
  | CreateIndex collection _ _ | DropIndex collection _ | ListIndexes collection =>
      RCollection (default [] current_db) collection
  | CreateCollection _ | DropCollection _ | ListCollections | SnapshotHlc | Flush => RDatabase (default [] current_db)
  | CreateUser _ _ | DropUser _ | ListUsers _ | Grant _ _ _ | Revoke _ _ _ => RServer
  | ElectWriter _ _ _ | PlanRebalanceAddNode _ | PlanRebalanceRemoveNode _ | ExecuteRebalanceAddNode _ _ | ExecuteRebalanceRemoveNode _ _ => RServer
  | Login _ _ _ | Token _ | Refresh _ | WhoAmI | Topology | SchemaVersion | SchemaStatus | Use _ | Ping | Quit => RNone
  end.

Fixpoint is_pre_auth (c : Command) : bool :=
  match c with
  | WithConsistency _ _ command => is_pre_auth command
  | Login _ _ _ | Ping | Quit | Token _ | Refresh _ => true
  | _ => false
  end.

(** Only session commands without a resource are accepted before authentication, and
    a consistency prefix changes nothing about it. *)
Lemma pre_auth_session c current_db : is_pre_auth c = true → required_action c = Session ∧ target_resource current_db c = RNone.
Proof. induction c; cbn; (done || auto). Qed.
