(* ===== verification/Parser.v ===== *)
(** * The command parser of the client protocol (grumpydb-protocol/src/parser.rs)

    A line is the list of its characters; its length in bytes is that of its UTF-8
    encoding.  The messages of errors are kept. *)

From S2P Require Import Prelude RustStd Response Command.

Local Open Scope Z_scope.

Definition MAX_LINE_LENGTH : Z := 1048576.

Inductive ProtocolError :=
| Empty
| UnknownCommand (command : chars)
| MissingArgument (msg : string)
| LineTooLong (len : Z).

Abbreviation pres := (outcome ProtocolError).

(** ** [str] and [char] *)

(** [char::is_whitespace]: the Unicode property White_Space. *)
Definition is_whitespace (c : Z) : bool :=
  ((9 <=? c) && (c <=? 13)) || (c =? 32) || (c =? 133) || (c =? 160) || (c =? 5760) ||
  ((8192 <=? c) && (c <=? 8202)) || (c =? 8232) || (c =? 8233) || (c =? 8239) || (c =? 8287) || (c =? 12288).

(** The length of a character in UTF-8; [str::len]. *)
Definition utf8_len (c : Z) : Z := if c <? 128 then 1 else if c <? 2048 then 2 else if c <? 65536 then 3 else 4.
Definition byte_len (s : chars) : Z := foldr (λ c n, utf8_len c + n) 0 s.

Definition ascii_upper (c : Z) : Z := if (97 <=? c) && (c <=? 122) then c - 32 else c.
Definition to_ascii_uppercase (s : chars) : chars := ascii_upper <$> s.
Definition eq_ignore_ascii_case (a b : chars) : bool := bool_decide (to_ascii_uppercase a = to_ascii_uppercase b).

(** An ASCII literal of the source. *)
Definition kw (s : string) : chars := b2z <$> str s.

Fixpoint trim_start (s : chars) : chars :=
  match s with
  | c :: s' => if is_whitespace c then trim_start s' else s
  | [] => []
  end.
Definition trim_end (s : chars) : chars := reverse (trim_start (reverse s)).
Definition trim (s : chars) : chars := trim_end (trim_start s).

(** [trim_end_matches("\r\n")] and [trim_end_matches('\n')], on the reversed line. *)
Fixpoint strip_crlfs (r : chars) : chars :=
  match r with
  | c :: d :: r' => if (c =? 10) && (d =? 13) then strip_crlfs r' else r
  | _ => r
  end.
Fixpoint strip_lfs (r : chars) : chars :=
  match r with
  | c :: r' => if c =? 10 then strip_lfs r' else r
  | [] => []
  end.

(** [str::find] of a predicate: what is before the first match, and what starts at it. *)
Fixpoint break_at (p : Z → bool) (s : chars) : chars * chars :=
  match s with
  | c :: s' => if p c then ([], s) else let '(a, b) := break_at p s' in (c :: a, b)
  | [] => ([], [])
  end.

(** [str::split_once] on a character. *)
Definition split_once (sep : Z) (s : chars) : option (chars * chars) :=
  match break_at (Z.eqb sep) s with
  | (a, _ :: b) => Some (a, b)
  | (_, []) => None
  end.

(** ** Helpers *)

Definition split_first_word (s : chars) : chars * chars :=
  let '(word, rest) := break_at is_whitespace s in (word, trim_start rest).

(** [rfind]: on the reversed string the last whitespace is the first. *)
Definition split_last_word (s : chars) : chars * chars :=
  match break_at is_whitespace (reverse s) with
  | (w, c :: before) => (trim_end (reverse before), trim_start (reverse (w ++ [c])))
  | (_, []) => ([], s)
  end.

Definition require_arg (rest : chars) (command arg_name : string) : pres chars :=
  if decide (rest = []) then Err (MissingArgument (command ++ " requires <" ++ arg_name ++ ">")) else Ok rest.

(** [let (word, rest) = split_first_word(rest); if word.is_empty() { return Err(..) }] *)
Definition require_word (rest : chars) (msg : string) : pres (chars * chars) :=
  let '(word, rest) := split_first_word rest in
  if decide (word = []) then Err (MissingArgument msg) else Ok (word, rest).

(** [if rest.is_empty() { return Err(..) }] *)
Definition require_rest (rest : chars) (msg : string) : pres unit :=
  if decide (rest = []) then Err (MissingArgument msg) else Ok tt.

Definition parse_concern_token (token : chars) (expected keyword : string) : pres Z :=
  let missing := MissingArgument (keyword ++ " requires " ++ expected ++ "=<n>") in
  '(k, v) ← ok_or (split_once 61 token) missing;
  if eq_ignore_ascii_case k (kw expected) then ok_or (parse_unsigned 65535 v) missing else Err missing.

(** One [READ_CONCERN R=<n>] or [WRITE_CONCERN W=<n>]; [None] when the input starts with
    neither. *)
Definition parse_concern (input : chars) (read_concern write_concern : option Z) : pres (option (chars * option Z * option Z)) :=
  let '(word, rest) := split_first_word input in
  if eq_ignore_ascii_case word (kw "READ_CONCERN") then
    if decide (is_Some read_concern) then Err (MissingArgument "READ_CONCERN specified more than once")
    else
      '(token, remainder) ← require_word rest "READ_CONCERN requires R=<n>";
      n ← parse_concern_token token "R" "READ_CONCERN";
      Ok (Some (remainder, Some n, write_concern))
  else if eq_ignore_ascii_case word (kw "WRITE_CONCERN") then
    if decide (is_Some write_concern) then Err (MissingArgument "WRITE_CONCERN specified more than once")
    else
      '(token, remainder) ← require_word rest "WRITE_CONCERN requires W=<n>";
      n ← parse_concern_token token "W" "WRITE_CONCERN";
      Ok (Some (remainder, read_concern, Some n))
  else Ok None.

(** [for _ in 0..2] with its [break]. *)
Fixpoint consistency_loop (n : nat) (input : chars) (read_concern write_concern : option Z) : pres (chars * option Z * option Z) :=
  match n with
  | O => Ok (input, read_concern, write_concern)
  | S n =>
      found ← parse_concern input read_concern write_concern;
      match found with
      | Some (input, r, w) => consistency_loop n input r w
      | None => Ok (input, read_concern, write_concern)
      end
  end.

Definition parse_consistency_prefix (input : chars) : pres (chars * option Z * option Z) := consistency_loop 2 input None None.

(** ** Commands *)

Definition parse_login (rest : chars) : pres Command :=
  '(tenant, rest) ← require_word rest "LOGIN requires <tenant> <username> <password>";
  '(username, rest) ← require_word rest "LOGIN requires <username>";
  _ ← require_rest rest "LOGIN requires <password>";
  Ok (Login tenant username rest).

Definition parse_create_index (rest : chars) : pres Command :=
  '(collection, rest) ← require_word rest "CREATE INDEX requires <collection> <index_name> <field_path>";
  '(index_name, rest) ← require_word rest "CREATE INDEX requires <index_name>";
  field_path ← require_arg rest "CREATE INDEX" "field_path";
  Ok (CreateIndex collection index_name field_path).

Definition parse_create_user (rest : chars) : pres Command :=
  '(username, rest) ← require_word rest "CREATE USER requires <username> <password>";
  _ ← require_rest rest "CREATE USER requires <password>";
  Ok (CreateUser username rest).

(** [match word.to_ascii_uppercase().as_str()] *)
Definition is_kw (word : chars) (s : string) : bool := bool_decide (to_ascii_uppercase word = kw s).

Definition unknown (verb : string) (sub : chars) : ProtocolError := UnknownCommand (kw (verb ++ " ") ++ sub).

Definition parse_create (rest : chars) : pres Command :=
  let '(sub, rest) := split_first_word rest in
  if is_kw sub "DATABASE" then name ← require_arg rest "CREATE DATABASE" "name"; Ok (CreateDatabase name)
  else if is_kw sub "COLLECTION" then name ← require_arg rest "CREATE COLLECTION" "name"; Ok (CreateCollection name)
  else if is_kw sub "INDEX" then parse_create_index rest
  else if is_kw sub "USER" then parse_create_user rest
  else if is_kw sub "TENANT" then name ← require_arg rest "CREATE TENANT" "name"; Ok (CreateTenant name)
  else if is_kw sub "" then Err (MissingArgument "CREATE requires DATABASE|COLLECTION|INDEX|USER|TENANT")
  else Err (unknown "CREATE" sub).

Definition parse_drop (rest : chars) : pres Command :=
  let '(sub, rest) := split_first_word rest in
  if is_kw sub "DATABASE" then name ← require_arg rest "DROP DATABASE" "name"; Ok (DropDatabase name)
  else if is_kw sub "COLLECTION" then name ← require_arg rest "DROP COLLECTION" "name"; Ok (DropCollection name)
  else if is_kw sub "INDEX" then
    '(collection, rest) ← require_word rest "DROP INDEX requires <collection> <index_name>";
    index_name ← require_arg rest "DROP INDEX" "index_name";
    Ok (DropIndex collection index_name)
  else if is_kw sub "USER" then name ← require_arg rest "DROP USER" "username"; Ok (DropUser name)
  else if is_kw sub "TENANT" then name ← require_arg rest "DROP TENANT" "name"; Ok (DropTenant name)
  else if is_kw sub "" then Err (MissingArgument "DROP requires DATABASE|COLLECTION|INDEX|USER|TENANT")
  else Err (unknown "DROP" sub).

Definition parse_list (rest : chars) : pres Command :=
  let '(sub, rest) := split_first_word rest in
  if is_kw sub "DATABASES" then Ok ListDatabases
  else if is_kw sub "COLLECTIONS" then Ok ListCollections
  else if is_kw sub "INDEXES" then coll ← require_arg rest "LIST INDEXES" "collection"; Ok (ListIndexes coll)
  else if is_kw sub "USERS" then Ok (ListUsers (if decide (rest = []) then None else Some rest))
  else if is_kw sub "TENANTS" then Ok ListTenants
  else if is_kw sub "" then Err (MissingArgument "LIST requires DATABASES|COLLECTIONS|INDEXES|USERS|TENANTS")
  else Err (unknown "LIST" sub).

(** [while !input.is_empty()]: a concern can be given once, so the third iteration
    returns. *)
Fixpoint settings_loop (n : nat) (input : chars) (read_concern write_concern : option Z) : pres (option Z * option Z) :=
  if decide (input = []) then Ok (read_concern, write_concern)
  else match n with
       | O => Panic
       | S n =>
           found ← parse_concern input read_concern write_concern;
           match found with
           | Some (input, r, w) => settings_loop n input r w
           | None => Err (MissingArgument "SET CONSISTENCY expects READ_CONCERN and/or WRITE_CONCERN")
           end
       end.

Definition parse_database_consistency_settings (rest : chars) : pres (option Z * option Z) :=
  '(r, w) ← settings_loop 3 rest None None;
  match r, w with
  | None, None => Err (MissingArgument "ALTER DATABASE <name> SET CONSISTENCY requires READ_CONCERN and/or WRITE_CONCERN")
  | _, _ => Ok (r, w)
  end.

Definition parse_alter (rest : chars) : pres Command :=
  let '(sub, rest) := split_first_word rest in
  if negb (eq_ignore_ascii_case sub (kw "DATABASE")) then
    if decide (sub = []) then Err (MissingArgument "ALTER requires DATABASE") else Err (unknown "ALTER" sub)
  else
    '(database, rest) ← require_word rest "ALTER DATABASE requires <name> SET|RESET CONSISTENCY";
    let '(action, rest) := split_first_word rest in
    if eq_ignore_ascii_case action (kw "SET") then
      let '(target, rest) := split_first_word rest in
      if negb (eq_ignore_ascii_case target (kw "CONSISTENCY")) then Err (MissingArgument "ALTER DATABASE <name> SET requires CONSISTENCY")
      else
        '(r, w) ← parse_database_consistency_settings rest;
        Ok (SetDatabaseConsistency database r w)
    else if eq_ignore_ascii_case action (kw "RESET") then
      target ← require_arg rest "ALTER DATABASE <name> RESET" "CONSISTENCY";
      if negb (eq_ignore_ascii_case target (kw "CONSISTENCY")) then Err (MissingArgument "ALTER DATABASE <name> RESET requires CONSISTENCY")
      else Ok (ResetDatabaseConsistency database)
    else Err (MissingArgument "ALTER DATABASE <name> requires SET|RESET CONSISTENCY").

Definition parse_show (rest : chars) : pres Command :=
  let '(sub, rest) := split_first_word rest in
  if negb (eq_ignore_ascii_case sub (kw "DATABASE")) then
    if decide (sub = []) then Err (MissingArgument "SHOW requires DATABASE") else Err (unknown "SHOW" sub)
  else
    '(database, rest) ← require_word rest "SHOW DATABASE requires <name> CONSISTENCY";
    target ← require_arg rest "SHOW DATABASE <name>" "CONSISTENCY";
    if negb (eq_ignore_ascii_case target (kw "CONSISTENCY")) then Err (MissingArgument "SHOW DATABASE <name> requires CONSISTENCY")
    else Ok (ShowDatabaseConsistency database).

Definition parse_schema (rest : chars) : pres Command :=
  let '(sub, _) := split_first_word rest in
  if is_kw sub "VERSION" then Ok SchemaVersion
  else if is_kw sub "STATUS" then Ok SchemaStatus
  else if is_kw sub "" then Err (MissingArgument "SCHEMA requires VERSION|STATUS")
  else Err (unknown "SCHEMA" sub).

(** [INSERT] and [UPDATE] differ in their messages and in the command they build. *)
Definition parse_write (verb : string) (make : chars → chars → chars → Command) (rest : chars) : pres Command :=
  '(collection, rest) ← require_word rest (verb ++ " requires <collection> <uuid> <json>");
  '(key, rest) ← require_word rest (verb ++ " requires <uuid>");
  _ ← require_rest rest (verb ++ " requires <json>");
  Ok (make collection key rest).
Definition parse_insert : chars → pres Command := parse_write "INSERT" Insert.
Definition parse_update : chars → pres Command := parse_write "UPDATE" Update.

(** [GET] and [DELETE]. *)
Definition parse_keyed (verb : string) (make : chars → chars → Command) (rest : chars) : pres Command :=
  '(collection, rest) ← require_word rest (verb ++ " requires <collection> <uuid>");
  key ← require_arg rest verb "uuid";
  Ok (make collection (split_first_word key).1).
Definition parse_get : chars → pres Command := parse_keyed "GET" Get.
Definition parse_delete : chars → pres Command := parse_keyed "DELETE" Delete.

Definition parse_put_with_vc (rest : chars) : pres Command :=
  '(collection, rest) ← require_word rest "PUT_WITH_VC requires <collection> <uuid> <json> <vector_clock>";
  '(key, rest) ← require_word rest "PUT_WITH_VC requires <uuid>";
  _ ← require_rest rest "PUT_WITH_VC requires <json> <vector_clock>";
  let '(value, vector_clock) := split_last_word rest in
  if decide (value = [] ∨ vector_clock = []) then Err (MissingArgument "PUT_WITH_VC requires <json> <vector_clock>")
  else Ok (PutWithVc collection key value vector_clock).

Definition parse_elect_writer (rest : chars) : pres Command :=
  '(node_id, rest) ← require_word rest "ELECT-WRITER requires <node_id> <database> [collection]";
  '(database, rest) ← require_word rest "ELECT-WRITER requires <database>";
  let collection := if decide (rest = []) then None else Some (split_first_word rest).1 in
  Ok (ElectWriter node_id database collection).

Definition parse_plan (what : string) (make : chars → Command) (rest : chars) : pres Command :=
  node_id ← require_arg rest what "node_id";
  Ok (make (split_first_word node_id).1).

Definition parse_execute (what : string) (make : chars → chars → Command) (rest : chars) : pres Command :=
  '(node_id, rest) ← require_word rest (what ++ " requires <node_id> <collection>");
  collection ← require_arg rest what "collection";
  Ok (make node_id (split_first_word collection).1).

Definition parse_rebalance (rest : chars) : pres Command :=
  let '(mode, rest) := split_first_word rest in
  let '(target, rest) := split_first_word rest in
  let add := is_kw target "ADD-NODE" || is_kw target "ADD_NODE" in
  let remove := is_kw target "REMOVE-NODE" || is_kw target "REMOVE_NODE" in
  if is_kw mode "PLAN" && add then parse_plan "REBALANCE PLAN ADD-NODE" PlanRebalanceAddNode rest
  else if is_kw mode "PLAN" && remove then parse_plan "REBALANCE PLAN REMOVE-NODE" PlanRebalanceRemoveNode rest
  else if is_kw mode "EXECUTE" && add then parse_execute "REBALANCE EXECUTE ADD-NODE" ExecuteRebalanceAddNode rest
  else if is_kw mode "EXECUTE" && remove then parse_execute "REBALANCE EXECUTE REMOVE-NODE" ExecuteRebalanceRemoveNode rest
  else Err (MissingArgument "REBALANCE requires PLAN|EXECUTE and ADD-NODE|REMOVE-NODE").

Definition parse_scan (rest : chars) : pres Command :=
  '(collection, rest) ← require_word rest "SCAN requires <collection>";
  if decide (rest = []) then Ok (Scan collection None None)
  else
    let '(start, rest) := split_first_word rest in
    _ ← require_rest rest "SCAN range requires both <start_uuid> <end_uuid>";
    Ok (Scan collection (Some start) (Some (split_first_word rest).1)).

Definition parse_query (rest : chars) : pres Command :=
  '(collection, rest) ← require_word rest "QUERY requires <collection> <index_name> <json_value>";
  '(index_name, rest) ← require_word rest "QUERY requires <index_name>";
  _ ← require_rest rest "QUERY requires <json_value>";
  Ok (Query collection index_name rest).

Definition parse_queryrange (rest : chars) : pres Command :=
  '(collection, rest) ← require_word rest "QUERYRANGE requires <collection> <index_name> <start> <end>";
  '(index_name, rest) ← require_word rest "QUERYRANGE requires <index_name>";
  '(start, rest) ← require_word rest "QUERYRANGE requires <start>";
  _ ← require_rest rest "QUERYRANGE requires <end>";
  Ok (QueryRange collection index_name start rest).

(** [GRANT <role> ON <resource> TO <username>], and [REVOKE] with [FROM]. *)
Definition parse_role (verb prep : string) (make : chars → chars → chars → Command) (rest : chars) : pres Command :=
  let syntax := (verb ++ " <role> ON <resource> " ++ prep ++ " <username>")%string in
  '(role, rest) ← require_word rest (verb ++ " requires <role> ON <resource> " ++ prep ++ " <username>");
  let '(on_kw, rest) := split_first_word rest in
  if negb (eq_ignore_ascii_case on_kw (kw "ON")) then Err (MissingArgument (verb ++ " syntax: " ++ syntax))
  else
    '(resource, rest) ← require_word rest (verb ++ " requires <resource>");
    let '(prep_kw, rest) := split_first_word rest in
    if negb (eq_ignore_ascii_case prep_kw (kw prep)) then Err (MissingArgument (verb ++ " syntax: " ++ syntax))
    else
      username ← require_arg rest verb "username";
      Ok (make role resource (split_first_word username).1).
Definition parse_grant : chars → pres Command := parse_role "GRANT" "TO" Grant.
Definition parse_revoke : chars → pres Command := parse_role "REVOKE" "FROM" Revoke.

(** A verb whose whole rest is its argument. *)
Definition parse_arg (verb arg_name : string) (make : chars → Command) (rest : chars) : pres Command :=
  a ← require_arg rest verb arg_name; Ok (make a).

Definition parse_verb (verb rest : chars) : pres Command :=
  if is_kw verb "LOGIN" then parse_login rest
  else if is_kw verb "TOKEN" then parse_arg "TOKEN" "jwt" Token rest
  else if is_kw verb "REFRESH" then parse_arg "REFRESH" "refresh_token" Refresh rest
  else if is_kw verb "WHOAMI" then Ok WhoAmI
  else if is_kw verb "TOPOLOGY" then Ok Topology
  else if is_kw verb "SNAPSHOT_HLC" || is_kw verb "SNAPSHOT-HLC" then Ok SnapshotHlc
  else if is_kw verb "USE" then parse_arg "USE" "database" Use rest
  else if is_kw verb "PING" then Ok Ping
  else if is_kw verb "QUIT" then Ok Quit
  else if is_kw verb "CREATE" then parse_create rest
  else if is_kw verb "DROP" then parse_drop rest
  else if is_kw verb "LIST" then parse_list rest
  else if is_kw verb "ALTER" then parse_alter rest
  else if is_kw verb "SHOW" then parse_show rest
  else if is_kw verb "SCHEMA" then parse_schema rest
  else if is_kw verb "GRANT" then parse_grant rest
  else if is_kw verb "REVOKE" then parse_revoke rest
  else if is_kw verb "ELECT-WRITER" || is_kw verb "ELECT_WRITER" then parse_elect_writer rest
  else if is_kw verb "REBALANCE" then parse_rebalance rest
  else if is_kw verb "INSERT" then parse_insert rest
  else if is_kw verb "GET" then parse_get rest
  else if is_kw verb "UPDATE" then parse_update rest
  else if is_kw verb "DELETE" then parse_delete rest
  else if is_kw verb "PUT_WITH_VC" then parse_put_with_vc rest
  else if is_kw verb "SCAN" then parse_scan rest
  else if is_kw verb "QUERY" then parse_query rest
  else if is_kw verb "QUERYRANGE" then parse_queryrange rest
  else if is_kw verb "COMPACT" then parse_arg "COMPACT" "collection" Compact rest
  else if is_kw verb "FLUSH" then Ok Flush
  else if is_kw verb "COUNT" then parse_arg "COUNT" "collection" Count rest
  else Err (UnknownCommand verb).

Definition parse_command (line : chars) : pres Command :=
  let line := reverse (strip_lfs (strip_crlfs (reverse line))) in
  if decide (MAX_LINE_LENGTH < byte_len line) then Err (LineTooLong (byte_len line))
  else
    let trimmed := trim line in
    if decide (trimmed = []) then Err Empty
    else
      '(input, read_concern, write_concern) ← parse_consistency_prefix trimmed;
      let '(verb, rest) := split_first_word input in
      base ← parse_verb verb rest;
      match read_concern, write_concern with
      | None, None => Ok base
      | _, _ => Ok (WithConsistency read_concern write_concern base)
      end.
