(* ===== verification/ParserSpec.v ===== *)
(** * The grammar of the client protocol

    [render] writes a command the way the protocol documents it: the words of a command
    separated by single spaces, of which only the last argument may contain spaces.  The
    parser accepts what [render] writes, and what it accepts fits the grammar. *)

From S2P Require Import Prelude RustStd Response Command Parser.

Local Open Scope Z_scope.

(** ** Words and arguments *)

Definition visible_char (c : Z) : Prop := is_whitespace c = false.

Definition word (w : chars) : Prop := w ≠ [] ∧ Forall visible_char w.

(** An argument that may contain spaces, though not at its ends. *)
Record arg (t : chars) : Prop := {
  ar_head : ∃ c r, t = c :: r ∧ visible_char c;
  ar_last : ∃ r c, t = r ++ [c] ∧ visible_char c;
}.

Definition tidy (s : chars) : Prop := s = [] ∨ arg s.

Lemma word_arg w : word w → arg w.
Proof.
  intros [Hne Hall]. constructor.
  - destruct w as [|c r]; [done|]. apply Forall_cons in Hall as [Hc _]. eauto.
  - destruct (exists_last Hne) as (r & c & ->). apply Forall_app in Hall as [_ [Hc _]%Forall_cons]. eauto.
Qed.

Lemma arg_nonempty t : arg t → t ≠ [].
Proof. intros [(c & r & -> & _) _]. done. Qed.

Fixpoint join (l : list chars) : chars :=
  match l with
  | [] => []
  | [x] => x
  | x :: l => x ++ 32 :: join l
  end.

(** Words, then an argument. *)
Fixpoint line_ok (l : list chars) : Prop :=
  match l with
  | [] => True
  | [x] => arg x
  | x :: l => word x ∧ line_ok l
  end.

Lemma arg_app_space a b : arg a → arg b → arg (a ++ 32 :: b).
Proof.
  intros [(c & r & -> & Hc) _] [_ (r' & c' & -> & Hc')]. constructor.
  - exists c, (r ++ 32 :: r' ++ [c']). done.
  - exists ((c :: r) ++ 32 :: r'), c'. split; [by rewrite <- app_assoc|done].
Qed.

Lemma join_arg l : line_ok l → l ≠ [] → arg (join l).
Proof.
  induction l as [|x l IH]; [done|]. intros Hl _. destruct l as [|y l]; [exact Hl|]. destruct Hl as [Hx Hl].
  change (arg (x ++ 32 :: join (y :: l))). apply arg_app_space; [by apply word_arg|by apply IH].
Qed.

(** ** The primitives *)

Lemma break_at_app p (w r : chars) c : Forall (λ x, p x = false) w → p c = true → break_at p (w ++ c :: r) = (w, c :: r).
Proof. induction 1 as [|x w Hx _ IH]; intros Hc; cbn; [by rewrite Hc|]. rewrite Hx. by rewrite IH. Qed.

Lemma break_at_all p (w : chars) : Forall (λ x, p x = false) w → break_at p w = (w, []).
Proof. induction 1 as [|x w Hx _ IH]; cbn; [done|]. rewrite Hx. by rewrite IH. Qed.

Lemma break_at_spec p s a b : break_at p s = (a, b) → s = a ++ b ∧ Forall (λ x, p x = false) a ∧ match b with [] => True | c :: _ => p c = true end.
Proof.
  revert a b. induction s as [|c s IH]; intros a b; cbn; [intros [= <- <-]; by split_and!|]. destruct (p c) eqn:E; [intros [= <- <-]; by split_and!|].
  destruct (break_at p s) as [a' b'] eqn:E2. intros [= <- <-]. destruct (IH a' b' eq_refl) as (-> & Ha & Hb). split_and!; [done|by constructor|done].
Qed.

Lemma trim_start_arg t : arg t → trim_start t = t.
Proof. intros [(c & r & -> & Hc) _]. cbn. by rewrite Hc. Qed.

Lemma trim_end_last r c : visible_char c → trim_end (r ++ [c]) = r ++ [c].
Proof. intros Hc. unfold trim_end. rewrite reverse_app. cbn [reverse]. change (reverse [c]) with [c]. cbn [app trim_start]. rewrite Hc. by rewrite reverse_cons, reverse_involutive. Qed.

Lemma trim_arg t : arg t → trim t = t.
Proof. intros Ht. unfold trim. rewrite trim_start_arg by done. destruct Ht as [_ (r & c & -> & Hc)]. by apply trim_end_last. Qed.

Lemma split_join w ps : word w → line_ok ps → split_first_word (join (w :: ps)) = (w, join ps).
Proof.
  intros [_ Hw] Hps. unfold split_first_word. destruct ps as [|x ps]; [by cbn [join]; rewrite break_at_all|].
  change (join (w :: x :: ps)) with (w ++ 32 :: join (x :: ps)). rewrite break_at_app by done. cbn [trim_start].
  by rewrite trim_start_arg by (by apply join_arg).
Qed.

Lemma split_word_1 w : word w → (split_first_word w).1 = w.
Proof. intros Hw. change w with (join [w]) at 1. by rewrite split_join. Qed.

Lemma require_word_join w ps msg : word w → line_ok ps → require_word (join (w :: ps)) msg = Ok (w, join ps).
Proof. intros Hw Hps. unfold require_word. rewrite split_join by done. by rewrite decide_False by apply Hw. Qed.

Lemma require_rest_arg t msg : arg t → require_rest t msg = Ok tt.
Proof. intros Ht. unfold require_rest. by rewrite decide_False by (by apply arg_nonempty). Qed.

Lemma require_arg_arg t a b : arg t → require_arg t a b = Ok t.
Proof. intros Ht. unfold require_arg. by rewrite decide_False by (by apply arg_nonempty). Qed.

Lemma split_last_app v w : arg v → word w → split_last_word (v ++ 32 :: w) = (v, w).
Proof.
  intros Hv [Hne Hw]. unfold split_last_word. rewrite reverse_app, reverse_cons, <- app_assoc. cbn [app].
  rewrite break_at_app by (done || by apply Forall_reverse). rewrite reverse_involutive. f_equal.
  - destruct Hv as [_ (r & c & -> & Hc)]. by apply trim_end_last.
  - rewrite reverse_app, reverse_involutive. cbn. destruct w as [|c w]; [done|]. apply Forall_cons in Hw as [Hc _]. cbn. by rewrite Hc.
Qed.

Lemma eol_stripped s eol : arg s → eol ∈ [[]; [10]; [13; 10]] → reverse (strip_lfs (strip_crlfs (reverse (s ++ eol)))) = s.
Proof.
  intros [_ (r & c & -> & Hc)] Hin. assert (H10 : c ≠ 10) by (intros ->; done). assert (H13 : c ≠ 13) by (intros ->; done).
  assert (Hlast : ∀ l, strip_lfs (strip_crlfs (c :: l)) = c :: l).
  { intros l. assert (Hs : strip_crlfs (c :: l) = c :: l).
    { destruct l as [|d l]; [done|]. cbn [strip_crlfs]. rewrite (proj2 (Z.eqb_neq c 10)) by done. done. }
    rewrite Hs. cbn [strip_lfs]. by rewrite (proj2 (Z.eqb_neq c 10)). }
  assert (Hrev : reverse (c :: reverse r) = r ++ [c]) by (by rewrite reverse_cons, reverse_involutive).
  rewrite reverse_app, reverse_app. change (reverse [c]) with [c]. cbn [app].
  rewrite !elem_of_cons, elem_of_nil in Hin. destruct Hin as [->|[->|[->|[]]]]; cbn [reverse app].
  - change (reverse []) with (@nil Z). cbn [app]. by rewrite Hlast.
  - change (reverse [10]) with [10]. cbn [app]. assert (Hs : strip_crlfs (10 :: c :: reverse r) = 10 :: c :: reverse r).
    { cbn [strip_crlfs]. rewrite (proj2 (Z.eqb_neq c 13)) by done. by rewrite andb_false_r. }
    rewrite Hs. transitivity (reverse (strip_lfs (c :: reverse r))); [done|]. cbn [strip_lfs]. by rewrite (proj2 (Z.eqb_neq c 10)).
  - change (reverse [13; 10]) with [10; 13]. transitivity (reverse (strip_lfs (strip_crlfs (c :: reverse r)))); [done|]. by rewrite Hlast.
Qed.

(** ** Rendering *)

Definition concern (keyword letter : string) (n : option Z) : list chars :=
  match n with Some n => [kw keyword; kw letter ++ 61 :: show_nat n] | None => [] end.
Definition concerns (r w : option Z) : list chars := concern "READ_CONCERN" "R" r ++ concern "WRITE_CONCERN" "W" w.

Definition opt_list (o : option chars) : list chars := match o with Some x => [x] | None => [] end.

(** The words of a command. *)
Fixpoint pieces (c : Command) : list chars :=
  match c with
  | WithConsistency r w command => concerns r w ++ pieces command
  | Login t u p => [kw "LOGIN"; t; u; p]
  | Token t => [kw "TOKEN"; t]
  | Refresh t => [kw "REFRESH"; t]
  | WhoAmI => [kw "WHOAMI"]
  | Topology => [kw "TOPOLOGY"]
  | SnapshotHlc => [kw "SNAPSHOT_HLC"]
  | SchemaVersion => [kw "SCHEMA"; kw "VERSION"]
  | SchemaStatus => [kw "SCHEMA"; kw "STATUS"]
  | Use d => [kw "USE"; d]
  | Ping => [kw "PING"]
  | Quit => [kw "QUIT"]
  | CreateDatabase n => [kw "CREATE"; kw "DATABASE"; n]
  | DropDatabase n => [kw "DROP"; kw "DATABASE"; n]
  | ListDatabases => [kw "LIST"; kw "DATABASES"]
  | SetDatabaseConsistency d r w => [kw "ALTER"; kw "DATABASE"; d; kw "SET"; kw "CONSISTENCY"] ++ concerns r w
  | ResetDatabaseConsistency d => [kw "ALTER"; kw "DATABASE"; d; kw "RESET"; kw "CONSISTENCY"]
  | ShowDatabaseConsistency d => [kw "SHOW"; kw "DATABASE"; d; kw "CONSISTENCY"]
  | CreateCollection n => [kw "CREATE"; kw "COLLECTION"; n]
  | DropCollection n => [kw "DROP"; kw "COLLECTION"; n]
  | ListCollections => [kw "LIST"; kw "COLLECTIONS"]
  | Insert c k v => [kw "INSERT"; c; k; v]
  | Get c k => [kw "GET"; c; k]
  | Update c k v => [kw "UPDATE"; c; k; v]
  | Delete c k => [kw "DELETE"; c; k]
  | PutWithVc c k v vc => [kw "PUT_WITH_VC"; c; k; v ++ 32 :: vc]
  | Scan c s e => [kw "SCAN"; c] ++ opt_list s ++ opt_list e
  | CreateIndex c i f => [kw "CREATE"; kw "INDEX"; c; i; f]
  | DropIndex c i => [kw "DROP"; kw "INDEX"; c; i]
  | ListIndexes c => [kw "LIST"; kw "INDEXES"; c]
  | Query c i v => [kw "QUERY"; c; i; v]
  | QueryRange c i s e => [kw "QUERYRANGE"; c; i; s; e]
  | Compact c => [kw "COMPACT"; c]
  | Flush => [kw "FLUSH"]
  | Count c => [kw "COUNT"; c]
  | CreateUser u p => [kw "CREATE"; kw "USER"; u; p]
  | DropUser u => [kw "DROP"; kw "USER"; u]
  | ListUsers t => [kw "LIST"; kw "USERS"] ++ opt_list t
  | Grant r on u => [kw "GRANT"; r; kw "ON"; on; kw "TO"; u]
  | Revoke r on u => [kw "REVOKE"; r; kw "ON"; on; kw "FROM"; u]
  | CreateTenant n => [kw "CREATE"; kw "TENANT"; n]
  | DropTenant n => [kw "DROP"; kw "TENANT"; n]
  | ListTenants => [kw "LIST"; kw "TENANTS"]
  | ElectWriter n d c => [kw "ELECT-WRITER"; n; d] ++ opt_list c
  | PlanRebalanceAddNode n => [kw "REBALANCE"; kw "PLAN"; kw "ADD-NODE"; n]
  | PlanRebalanceRemoveNode n => [kw "REBALANCE"; kw "PLAN"; kw "REMOVE-NODE"; n]
  | ExecuteRebalanceAddNode n c => [kw "REBALANCE"; kw "EXECUTE"; kw "ADD-NODE"; n; c]
  | ExecuteRebalanceRemoveNode n c => [kw "REBALANCE"; kw "EXECUTE"; kw "REMOVE-NODE"; n; c]
  end.

Definition render (c : Command) : chars := join (pieces c).

(** ** Well-formed commands *)

Definition opt_word (o : option chars) : Prop := match o with Some w => word w | None => True end.
Definition concern_ok (o : option Z) : Prop := match o with Some n => is_u16 n | None => True end.
Definition concerns_ok (r w : option Z) : Prop := concern_ok r ∧ concern_ok w ∧ (r ≠ None ∨ w ≠ None).

(** A command other than [WithConsistency]. *)
Definition base_ok (c : Command) : Prop :=
  match c with
  | WithConsistency _ _ _ => False
  | WhoAmI | Topology | SnapshotHlc | SchemaVersion | SchemaStatus | Ping | Quit | ListDatabases | ListCollections | Flush | ListTenants => True
  | Login a b x | Insert a b x | Update a b x | CreateIndex a b x | Query a b x => word a ∧ word b ∧ arg x
  | Token x | Refresh x | Use x | CreateDatabase x | DropDatabase x | CreateCollection x | DropCollection x | ListIndexes x
  | Compact x | Count x | DropUser x | CreateTenant x | DropTenant x => arg x
  | ListUsers x => match x with Some x => arg x | None => True end
  | SetDatabaseConsistency d r w => word d ∧ concerns_ok r w
  | ResetDatabaseConsistency d | ShowDatabaseConsistency d => word d
  | Get a b | Delete a b | ExecuteRebalanceAddNode a b | ExecuteRebalanceRemoveNode a b => word a ∧ word b
  | PutWithVc a b x y => word a ∧ word b ∧ arg x ∧ word y
  | Scan a s e => word a ∧ match s, e with Some s, Some e => word s ∧ word e | None, None => True | _, _ => False end
  | DropIndex a x | CreateUser a x => word a ∧ arg x
  | QueryRange a b s x => word a ∧ word b ∧ word s ∧ arg x
  | Grant a b x | Revoke a b x => word a ∧ word b ∧ word x
  | ElectWriter a b o => word a ∧ word b ∧ opt_word o
  | PlanRebalanceAddNode a | PlanRebalanceRemoveNode a => word a
  end.

Definition cmd_ok (c : Command) : Prop :=
  match c with
  | WithConsistency r w command => concerns_ok r w ∧ base_ok command
  | _ => base_ok c
  end.

(** ** Parsing what [render] writes *)

Definition wordb (w : chars) : bool := match w with [] => false | _ => forallb (λ c, negb (is_whitespace c)) w end.

Lemma wordb_word w : wordb w = true → word w.
Proof.
  unfold wordb. intros H. destruct w as [|c w]; [done|]. split; [done|]. rewrite forallb_forall in H. apply Forall_forall. intros x Hx.
  apply list_elem_of_In, H in Hx. unfold visible_char. by destruct (is_whitespace x).
Qed.

Ltac kw_word := apply wordb_word; vm_compute; reflexivity.
Ltac line_solve :=
  cbn [line_ok app opt_list]; repeat match goal with |- _ ∧ _ => split end;
  try match goal with
  | |- True => exact I
  | |- word (kw _) => kw_word
  | |- arg (kw _) => apply word_arg; kw_word
  | |- arg (_ ++ 32 :: _) => apply arg_app_space; (assumption || (apply word_arg; assumption))
  | |- arg (join _) => apply join_arg; [|discriminate]; line_solve
  | |- _ => assumption
  | |- arg _ => apply word_arg; assumption
  end.

(** Evaluates the tests on literal words. *)
Ltac keywords :=
  repeat match goal with
  | |- context [is_kw (kw ?a) ?b] => let v := eval vm_compute in (is_kw (kw a) b) in change (is_kw (kw a) b) with v
  | |- context [eq_ignore_ascii_case (kw ?a) (kw ?b)] =>
      let v := eval vm_compute in (eq_ignore_ascii_case (kw a) (kw b)) in change (eq_ignore_ascii_case (kw a) (kw b)) with v
  end; cbn [orb andb negb]; cbv iota.

Ltac run_parser :=
  repeat first
  [ progress keywords
  | rewrite require_word_join by line_solve
  | rewrite split_join by line_solve
  | rewrite require_rest_arg by line_solve
  | rewrite require_arg_arg by line_solve
  | rewrite split_last_app by line_solve
  | rewrite split_word_1 by line_solve
  | progress cbn [mbind outcome_bind] ].

Lemma show_word n : 0 ≤ n → Forall visible_char (show_nat n).
Proof.
  intros Hn. eapply Forall_impl; [by apply show_range|]. cbn. intros c Hc. unfold visible_char, is_whitespace.
  rewrite !orb_false_iff, !andb_false_iff, !Z.leb_gt, !Z.eqb_neq. lia.
Qed.

Lemma concern_token k n : is_u16 n → k ∈ ["R"; "W"]%string → word (kw k ++ 61 :: show_nat n) ∧
  ∀ what, parse_concern_token (kw k ++ 61 :: show_nat n) k what = Ok n.
Proof.
  intros Hn Hk. assert (Hs : Forall (λ c, Z.eqb 61 c = false) (kw k) ∧ Forall visible_char (kw k) ∧ eq_ignore_ascii_case (kw k) (kw k) = true).
  { rewrite !elem_of_cons, elem_of_nil in Hk. destruct Hk as [->|[->|[]]]; (split; [by repeat constructor|]); (split; [by repeat constructor|vm_compute; reflexivity]). }
  destruct Hs as (H61 & Hv & Heq). split.
  - split; [by destruct (kw k)|]. apply Forall_app. split; [done|]. constructor; [done|]. apply show_word. unfold is_u16 in Hn. lia.
  - intros what. unfold parse_concern_token, split_once. rewrite break_at_app by done. cbn [ok_or mbind outcome_bind]. rewrite Heq.
    rewrite parse_show_unsigned by (unfold is_u16 in Hn; lia). done.
Qed.

Lemma read_words n : concern_ok n → Forall word (concern "READ_CONCERN" "R" n).
Proof.
  destruct n as [n|]; [|constructor]. intros Hn. apply Forall_cons_2; [kw_word|]. apply Forall_cons_2; [|constructor].
  apply (concern_token "R"); [exact Hn|set_solver].
Qed.

Lemma write_words n : concern_ok n → Forall word (concern "WRITE_CONCERN" "W" n).
Proof.
  destruct n as [n|]; [|constructor]. intros Hn. apply Forall_cons_2; [kw_word|]. apply Forall_cons_2; [|constructor].
  apply (concern_token "W"); [exact Hn|set_solver].
Qed.

Lemma concerns_line r w : concerns_ok r w → Forall word (concerns r w) ∧ concerns r w ≠ [].
Proof.
  intros (Hr & Hw & Hne). split; [apply Forall_app; split; [by apply read_words|by apply write_words]|].
  destruct r as [r|]; [done|]. destruct w as [w|]; [done|]. by destruct Hne.
Qed.

Lemma line_ok_words ws l : Forall word ws → line_ok l → line_ok (ws ++ l).
Proof.
  induction 1 as [|x ws Hx Hws IH]; intros Hl; [done|]. specialize (IH Hl). cbn [app].
  destruct (ws ++ l) eqn:E; [by apply word_arg|by split].
Qed.

(** A concern of the prefix is taken, any other first word ends it. *)
Lemma take_read n ps w : is_u16 n → line_ok ps →
  parse_concern (join (concern "READ_CONCERN" "R" (Some n) ++ ps)) None w = Ok (Some (join ps, Some n, w)).
Proof.
  intros Hn Hps. destruct (concern_token "R" n Hn ltac:(set_solver)) as [Hw Hp]. unfold parse_concern, concern. cbn [app].
  rewrite split_join; [|kw_word|apply (line_ok_words [_]); [by constructor|done]]. keywords. rewrite decide_False by (by intros [? ?]).
  rewrite require_word_join by done. cbn [mbind outcome_bind]. by rewrite Hp.
Qed.

Lemma take_write n ps r : is_u16 n → line_ok ps →
  parse_concern (join (concern "WRITE_CONCERN" "W" (Some n) ++ ps)) r None = Ok (Some (join ps, r, Some n)).
Proof.
  intros Hn Hps. destruct (concern_token "W" n Hn ltac:(set_solver)) as [Hw Hp]. unfold parse_concern, concern. cbn [app].
  rewrite split_join; [|kw_word|apply (line_ok_words [_]); [by constructor|done]]. keywords. rewrite decide_False by (by intros [? ?]).
  rewrite require_word_join by done. cbn [mbind outcome_bind]. by rewrite Hp.
Qed.

Definition not_concern (k : chars) : Prop :=
  eq_ignore_ascii_case k (kw "READ_CONCERN") = false ∧ eq_ignore_ascii_case k (kw "WRITE_CONCERN") = false.

Lemma take_none k ps r w : word k → not_concern k → line_ok ps → parse_concern (join (k :: ps)) r w = Ok None.
Proof. intros Hk [H1 H2] Hps. unfold parse_concern. rewrite split_join by done. by rewrite H1, H2. Qed.

Lemma prefix_ok r w k ps : concern_ok r → concern_ok w → word k → not_concern k → line_ok ps →
  parse_consistency_prefix (join (concerns r w ++ k :: ps)) = Ok (join (k :: ps), r, w).
Proof.
  intros Hr Hw Hk Hn Hps. assert (Hl : line_ok (k :: ps)) by (apply (line_ok_words [k]); [by constructor|done]).
  assert (Hwl : line_ok (concern "WRITE_CONCERN" "W" w ++ k :: ps)).
  { apply line_ok_words; [by apply write_words|done]. }
  unfold parse_consistency_prefix, concerns. rewrite <- app_assoc. cbn [consistency_loop]. destruct r as [r|].
  - rewrite take_read by done. cbn [mbind outcome_bind]. destruct w as [w|].
    + by rewrite take_write by done.
    + cbn [concern app]. by rewrite take_none by done.
  - cbn [concern app]. destruct w as [w|].
    + rewrite take_write by done. cbn [mbind outcome_bind].
      by rewrite take_none by done.
    + cbn [concern app]. by rewrite take_none by done.
Qed.

(** The settings of [ALTER DATABASE .. SET CONSISTENCY]. *)
Lemma settings_ok r w : concerns_ok r w → parse_database_consistency_settings (join (concerns r w)) = Ok (r, w).
Proof.
  intros (Hr & Hw & Hne). unfold parse_database_consistency_settings.
  assert (Hloop : settings_loop 3 (join (concerns r w)) None None = Ok (r, w)); [|rewrite Hloop; cbn; destruct r, w; try done; by destruct Hne].
  assert (Hstep : ∀ n a b l, line_ok l → l ≠ [] → settings_loop (S n) (join l) a b =
    (found ← parse_concern (join l) a b; match found with
       | Some (input, r, w) => settings_loop n input r w
       | None => Err (MissingArgument "SET CONSISTENCY expects READ_CONCERN and/or WRITE_CONCERN") end)).
  { intros n a b l Hl Hnl. cbn [settings_loop]. by rewrite decide_False by (by apply arg_nonempty, join_arg). }
  assert (Hend : ∀ n a b, settings_loop n (join []) a b = Ok (a, b)) by (by intros [|n]).
  pose proof (concerns_line r w (conj Hr (conj Hw Hne))) as [Hwords Hnil].
  assert (Hline : line_ok (concerns r w)) by (rewrite <- (app_nil_r (concerns r w)); by apply line_ok_words).
  rewrite Hstep by done. unfold concerns in *. destruct r as [r|].
  - assert (Hwl : line_ok (concern "WRITE_CONCERN" "W" w)).
    { rewrite <- (app_nil_r (concern _ _ _)). apply line_ok_words; [by apply write_words|done]. }
    rewrite take_read by done. cbn [mbind outcome_bind]. destruct w as [w|]; [|apply Hend]. rewrite Hstep by done.
    rewrite <- (app_nil_r (concern "WRITE_CONCERN" _ _)), take_write by done. cbn [mbind outcome_bind]. apply Hend.
  - destruct w as [w|]; [|by destruct Hne]. cbn [concern app]. change [kw "WRITE_CONCERN"; kw "W" ++ 61 :: show_nat w] with (concern "WRITE_CONCERN" "W" (Some w)).
    rewrite <- (app_nil_r (concern "WRITE_CONCERN" _ _)), take_write by done. cbn [mbind outcome_bind]. apply Hend.
Qed.

#[local] Hint Unfold parse_login parse_arg parse_create parse_create_index parse_create_user parse_drop parse_list parse_alter parse_show parse_schema
  parse_grant parse_revoke parse_role parse_elect_writer parse_rebalance parse_plan parse_execute parse_insert parse_update parse_write parse_get
  parse_delete parse_keyed parse_put_with_vc parse_scan parse_query parse_queryrange : parser.

Ltac parse_this := unfold parse_verb; keywords; autounfold with parser; run_parser.

(** The first word of a command is its verb, and the verb's parser takes the rest. *)
Definition parses (k : chars) (ps : list chars) (c : Command) : Prop :=
  word k ∧ not_concern k ∧ line_ok ps ∧ parse_verb k (join ps) = Ok c.

Ltac parses_kw := split; [kw_word|]; split; [split; vm_compute; reflexivity|].

Lemma scan_parses a s e : word a → match s, e with Some s, Some e => word s ∧ word e | None, None => True | _, _ => False end →
  parses (kw "SCAN") (a :: opt_list s ++ opt_list e) (Scan a s e).
Proof.
  intros Ha Hse. parses_kw. destruct s as [s|], e as [e|]; try contradiction; cbn [opt_list app].
  - destruct Hse as [Hs He]. split; [line_solve|]. parse_this. rewrite decide_False by (apply arg_nonempty; line_solve). run_parser. reflexivity.
  - split; [line_solve|]. parse_this. reflexivity.
Qed.

Lemma users_parses t : match t with Some x => arg x | None => True end → parses (kw "LIST") (kw "USERS" :: opt_list t) (ListUsers t).
Proof.
  intros Ht. parses_kw. destruct t as [t|]; cbn [opt_list].
  - split; [line_solve|]. parse_this. by rewrite decide_False by (by apply arg_nonempty).
  - split; [line_solve|]. parse_this. reflexivity.
Qed.

Lemma elect_parses n d c : word n → word d → opt_word c → parses (kw "ELECT-WRITER") (n :: d :: opt_list c) (ElectWriter n d c).
Proof.
  intros Hn Hd Hc. parses_kw. destruct c as [c|]; cbn [opt_list opt_word] in *.
  - split; [line_solve|]. parse_this. rewrite decide_False by (apply arg_nonempty; by apply word_arg). run_parser. reflexivity.
  - split; [line_solve|]. parse_this. reflexivity.
Qed.

Lemma settings_parses d r w : word d → concerns_ok r w →
  parses (kw "ALTER") ([kw "DATABASE"; d; kw "SET"; kw "CONSISTENCY"] ++ concerns r w) (SetDatabaseConsistency d r w).
Proof.
  intros Hd Hc. parses_kw. destruct (concerns_line r w Hc) as [Hw Hne].
  assert (Hl : line_ok (concerns r w)) by (rewrite <- (app_nil_r (concerns r w)); by apply line_ok_words).
  assert (Hl1 : line_ok (kw "CONSISTENCY" :: concerns r w)) by (apply (line_ok_words [_]); [repeat constructor; kw_word|done]).
  split; [apply (line_ok_words [kw "DATABASE"; d; kw "SET"; kw "CONSISTENCY"]); [|done]; repeat apply Forall_cons_2; [kw_word|done|kw_word|kw_word|constructor]|].
  cbn [app]. parse_this. by rewrite settings_ok.
Qed.

Lemma put_parses a k v vc : word a → word k → arg v → word vc → parses (kw "PUT_WITH_VC") [a; k; v ++ 32 :: vc] (PutWithVc a k v vc).
Proof.
  intros Ha Hk Hv Hvc. parses_kw. split; [line_solve|]. parse_this. change (join [v ++ 32 :: vc]) with (v ++ 32 :: vc).
  rewrite split_last_app by done. rewrite decide_False; [done|]. intros [->| ->]; [by apply (arg_nonempty _ Hv)|by apply Hvc].
Qed.

Lemma base_parses c : base_ok c → ∃ k ps, pieces c = k :: ps ∧ parses k ps c.
Proof.
  intros Hc. destruct c; cbn [base_ok pieces app] in *; try contradiction;
    repeat match goal with H : _ ∧ _ |- _ => destruct H end; (eexists _, _; split; [reflexivity|]);
    try (parses_kw; split; [line_solve|]; parse_this; reflexivity).
  - by apply settings_parses.
  - by apply put_parses.
  - by apply scan_parses.
  - by apply users_parses.
  - by apply elect_parses.
Qed.

Lemma render_parses c eol : cmd_ok c → byte_len (render c) ≤ MAX_LINE_LENGTH → eol ∈ [[]; [10]; [13; 10]] → parse_command (render c ++ eol) = Ok c.
Proof.
  intros Hc Hlen Heol.
  assert (Hsplit : ∃ r w base, cmd_ok c ∧ base_ok base ∧ concern_ok r ∧ concern_ok w ∧ pieces c = concerns r w ++ pieces base ∧
    match r, w with None, None => c = base | _, _ => c = WithConsistency r w base end).
  { destruct c; try (exists None, None; eexists; split_and!; [exact Hc|exact Hc|exact I|exact I|reflexivity|reflexivity]).
    destruct Hc as [(Hr & Hw & Hne) Hb]. exists read_concern, write_concern, c. split_and!; try done. destruct read_concern, write_concern; try done. by destruct Hne. }
  destruct Hsplit as (r & w & base & _ & Hb & Hr & Hw & Hp & Hcase). destruct (base_parses base Hb) as (k & ps & Hps & Hk & Hn & Hl & Hverb).
  rewrite Hps in Hp. assert (Hlk : line_ok (k :: ps)) by (apply (line_ok_words [k]); [by constructor|done]).
  assert (Hline : line_ok (pieces c)).
  { rewrite Hp. apply line_ok_words; [apply Forall_app; split; [by apply read_words|by apply write_words]|done]. }
  assert (Harg : arg (render c)) by (apply join_arg; [done|]; rewrite Hp; by destruct (concerns r w)).
  unfold parse_command. rewrite eol_stripped by done. rewrite decide_False by lia. rewrite trim_arg by done.
  rewrite decide_False by (by apply arg_nonempty). unfold render. rewrite Hp, prefix_ok by done. cbn [mbind outcome_bind].
  rewrite split_join by done. rewrite Hverb. cbn [mbind outcome_bind]. by destruct r, w; subst.
Qed.

(** ** What the parser accepts *)

Lemma trim_start_keeps (x : chars) c : visible_char c → ∃ y, trim_start (x ++ [c]) = y ++ [c].
Proof.
  intros Hc. induction x as [|a x [y IH]]; cbn [app trim_start]; [rewrite Hc; by exists []|].
  destruct (is_whitespace a); [by exists y|by exists (a :: x)].
Qed.

Lemma trim_start_head s : trim_start s = [] ∨ ∃ c r, trim_start s = c :: r ∧ visible_char c.
Proof. induction s as [|a s IH]; cbn [trim_start]; [by left|]. destruct (is_whitespace a) eqn:E; [done|]. right. by exists a, s. Qed.

Lemma trim_start_suffix s : ∃ x, s = x ++ trim_start s.
Proof. induction s as [|a s [x IH]]; [by exists []|]. cbn [trim_start]. destruct (is_whitespace a); [|by exists []]. exists (a :: x). cbn. by rewrite <- IH. Qed.

Lemma trim_end_spec s : (∃ x, s = trim_end s ++ x) ∧ (trim_end s = [] ∨ ∃ r c, trim_end s = r ++ [c] ∧ visible_char c).
Proof.
  unfold trim_end. split.
  - destruct (trim_start_suffix (reverse s)) as [x Hx]. exists (reverse x). rewrite <- (reverse_involutive s) at 1. by rewrite Hx, reverse_app at 1.
  - destruct (trim_start_head (reverse s)) as [->|(c & r & -> & Hc)]; [by left|]. right. exists (reverse r), c. by rewrite reverse_cons.
Qed.

Lemma suffix_tidy s b : (∃ r c, s = r ++ [c] ∧ visible_char c) → (∃ w, s = w ++ b) → tidy (trim_start b).
Proof.
  intros (r & c & -> & Hc) [w Hw]. destruct b as [|x b]; [by left|]. destruct (exists_last (l := x :: b) ltac:(done)) as (b' & c' & Eb). rewrite Eb in *.
  rewrite app_assoc in Hw. apply app_inj_tail in Hw as [_ <-]. right. destruct (trim_start_keeps b' c Hc) as [y Hy]. rewrite Hy. constructor.
  - destruct (trim_start_head (b' ++ [c])) as [E|(a & q & E & Ha)]; rewrite Hy in E; [by destruct y|]. rewrite E. eauto.
  - eauto.
Qed.

Lemma split_tidy s w r : tidy s → split_first_word s = (w, r) → tidy r ∧ Forall visible_char w ∧ (w = [] ↔ s = []).
Proof.
  intros Hs. unfold split_first_word. destruct (break_at is_whitespace s) as [w' b] eqn:E. intros [= <- <-].
  destruct (break_at_spec _ _ _ _ E) as (Heq & Hw & Hb). destruct Hs as [->|[Hh Hl]].
  { destruct w'; [|done]. cbn in Heq. subst b. split_and!; [by left|done|done]. }
  split_and!; [by eapply suffix_tidy; eauto|done|]. destruct Hh as (c & q & -> & Hc). split; [|done]. intros ->. cbn in Heq. subst b. cbn in Hb.
  unfold visible_char in Hc. by rewrite Hc in Hb.
Qed.

Lemma trim_tidy s : tidy (trim s).
Proof.
  unfold trim. destruct (trim_start_head s) as [->|(c & r & -> & Hc)]; [by left|].
  destruct (trim_end_spec (c :: r)) as [[x Hx] [->|Hl]]; [by left|]. right. constructor; [|done].
  destruct (trim_end (c :: r)) as [|a q]; [destruct Hl as (y & z & Hyz & _); by destruct y|]. injection Hx as -> _. eauto.
Qed.

Lemma require_word_sound rest msg w r : require_word rest msg = Ok (w, r) → tidy rest → word w ∧ tidy r.
Proof.
  unfold require_word. destruct (split_first_word rest) as [w' r'] eqn:E. case_decide; [done|]. intros [= <- <-] Hr.
  destruct (split_tidy _ _ _ Hr E) as (H1 & H2 & _). done.
Qed.

Lemma require_arg_sound rest a b t : require_arg rest a b = Ok t → tidy rest → arg t.
Proof. unfold require_arg. case_decide; [done|]. intros [= <-] [->|Ht]; done. Qed.

Lemma require_rest_sound rest msg t : require_rest rest msg = Ok t → tidy rest → arg rest.
Proof. unfold require_rest. case_decide; [done|]. intros _ [->|Ht]; done. Qed.

Lemma split_1_word t : arg t → word (split_first_word t).1.
Proof.
  intros Ht. destruct (split_first_word t) as [w r] eqn:E. destruct (split_tidy t w r ltac:(by right) E) as (_ & H & Hn). cbn.
  split; [|done]. intros ->. by apply (arg_nonempty t Ht), Hn.
Qed.

Lemma split_last_sound s v vc : arg s → split_last_word s = (v, vc) → v ≠ [] → vc ≠ [] → arg v ∧ word vc.
Proof.
  intros Hs. unfold split_last_word. destruct (break_at is_whitespace (reverse s)) as [w [|c before]] eqn:E; [by intros [= <- <-]|]. intros [= <- <-] Hv Hvc.
  destruct (break_at_spec _ _ _ _ E) as (Heq & Hw & Hc). apply (f_equal reverse) in Heq. rewrite reverse_involutive, reverse_app, reverse_cons in Heq.
  assert (Hvc' : trim_start (reverse (w ++ [c])) = reverse w).
  { rewrite reverse_app. cbn [reverse]. change (reverse [c]) with [c]. cbn [app trim_start]. rewrite Hc. destruct (reverse w) as [|a q] eqn:Er; [done|].
    apply Forall_reverse in Hw. rewrite Er in Hw. apply Forall_cons in Hw as [Ha _]. cbn. by rewrite Ha. }
  rewrite Hvc' in *. split; [|split; [done|by apply Forall_reverse]].
  destruct (trim_end_spec (reverse before)) as [[x Hx] [Hl|Hl]]; [by rewrite Hl in Hv|]. constructor; [|exact Hl].
  destruct Hs as [(a & q & Ha & Hva) _]. rewrite Heq, Hx, <- !app_assoc in Ha. destruct (trim_end (reverse before)) as [|b l]; [done|].
  injection Ha as -> _. eauto.
Qed.

Lemma parse_digits_nonneg l : ∀ acc n, 0 ≤ acc → parse_digits acc l = Some n → 0 ≤ n.
Proof.
  induction l as [|c l IH]; intros acc n Ha; cbn [parse_digits]; [by intros [= <-]|]. destruct ((48 <=? c) && (c <=? 57)) eqn:E; [|done].
  apply IH. apply andb_true_iff in E as [E _]. apply Z.leb_le in E. lia.
Qed.

Lemma parse_unsigned_range max l n : parse_unsigned max l = Some n → 0 ≤ n ≤ max.
Proof.
  unfold parse_unsigned, parse_nonempty. set (l' := match l with [] => [] | c :: l' => _ end). destruct l' as [|c l'']; [done|]. cbn [mbind option_bind].
  destruct (parse_digits 0 (c :: l'')) as [m|] eqn:E; [|done]. cbn. case_decide; [|done]. intros [= <-]. split; [|done]. by eapply parse_digits_nonneg; [|exact E].
Qed.

Lemma parse_concern_token_sound t k what n : parse_concern_token t k what = Ok n → is_u16 n.
Proof.
  unfold parse_concern_token. destruct (split_once 61 t) as [[a b]|]; [|done]. cbn [ok_or mbind outcome_bind]. destruct (eq_ignore_ascii_case _ _); [|done].
  destruct (parse_unsigned 65535 b) as [m|] eqn:E; [|done]. cbn. intros [= <-]. apply parse_unsigned_range in E. unfold is_u16. lia.
Qed.

(** The number of concerns given so far. *)
Definition given (r w : option Z) : nat := ((if r then 1 else 0) + (if w then 1 else 0))%nat.

Lemma parse_concern_inv input r w i r' w' : parse_concern input r w = Ok (Some (i, r', w')) →
  ∃ rest n t msg, require_word rest msg = Ok (t, i) ∧ is_u16 n ∧ (tidy input → tidy rest) ∧
    ((r = None ∧ r' = Some n ∧ w' = w) ∨ (w = None ∧ w' = Some n ∧ r' = r)).
Proof.
  unfold parse_concern. intros H. destruct (split_first_word input) as [k rest] eqn:E.
  assert (Hrest : tidy input → tidy rest) by (intros Hin; by destruct (split_tidy _ _ _ Hin E)).
  destruct (eq_ignore_ascii_case k (kw "READ_CONCERN")); [|destruct (eq_ignore_ascii_case k (kw "WRITE_CONCERN")); [|discriminate H]];
    (case_decide as Hd; [discriminate H|]); apply outcome_bind_Ok in H as ([t rem] & Hword & H); apply outcome_bind_Ok in H as (n & Htok & H);
    apply parse_concern_token_sound in Htok; injection H as <- <- <-; eexists rest, n, t, _; (split; [exact Hword|]); (split; [done|]); (split; [done|]).
  - left. by destruct r; [exfalso; apply Hd|].
  - right. by destruct w; [exfalso; apply Hd|].
Qed.

Lemma parse_concern_sound input r w i r' w' : parse_concern input r w = Ok (Some (i, r', w')) → tidy input → concern_ok r → concern_ok w →
  tidy i ∧ concern_ok r' ∧ concern_ok w'.
Proof.
  intros (rest & n & t & msg & Hw & Hn & Ht & Hcase)%parse_concern_inv Hin Hr Hwc. apply require_word_sound in Hw as [_ Hi]; [|auto].
  destruct Hcase as [(-> & -> & ->)|(-> & -> & ->)]; done.
Qed.

Lemma consistency_sound n : ∀ input r w i r' w', consistency_loop n input r w = Ok (i, r', w') → tidy input → concern_ok r → concern_ok w →
  tidy i ∧ concern_ok r' ∧ concern_ok w'.
Proof.
  induction n as [|n IH]; intros input r w i r' w'; cbn [consistency_loop]; [by intros [= <- <- <-]|]. intros H Hin Hr Hw.
  apply outcome_bind_Ok in H as ([[[i1 r1] w1]|] & Hc & H); [|by injection H as <- <- <-].
  destruct (parse_concern_sound _ _ _ _ _ _ Hc Hin Hr Hw) as (H1 & H2 & H3). eauto.
Qed.

Lemma settings_sound n : ∀ input r w r' w', settings_loop n input r w = Ok (r', w') → tidy input → concern_ok r → concern_ok w →
  concern_ok r' ∧ concern_ok w'.
Proof.
  induction n as [|n IH]; intros input r w r' w'; cbn [settings_loop]; (case_decide as Hd; [by intros [= <- <-]|]); [done|]. intros H Hin Hr Hw.
  apply outcome_bind_Ok in H as ([[[i1 r1] w1]|] & Hc & H); [|discriminate H].
  destruct (parse_concern_sound _ _ _ _ _ _ Hc Hin Hr Hw) as (H1 & H2 & H3). eauto.
Qed.

Lemma database_settings_sound rest r w : parse_database_consistency_settings rest = Ok (r, w) → tidy rest → concerns_ok r w.
Proof.
  intros H Hr. apply outcome_bind_Ok in H as ([r1 w1] & Hl & H). destruct (settings_sound _ _ _ _ _ _ Hl Hr I I) as [H1 H2].
  assert (Hrw : r1 = r ∧ w1 = w ∧ (r1 ≠ None ∨ w1 ≠ None)).
  { destruct r1, w1; try discriminate H; injection H as <- <-; (split; [done|]); (split; [done|]); ((by left) || (by right)). }
  destruct Hrw as (<- & <- & Hne). done.
Qed.

(** Inverts a successful parse, collecting what is known of each word. *)
Ltac inv_parse :=
  repeat match goal with
  | H : _ ≫= _ = Ok _ |- _ => apply outcome_bind_Ok in H as (? & ? & H)
  | H : (let '(_, _) := ?x in _) = Ok _ |- _ => is_var x; destruct x
  | H : require_word ?r _ = Ok (_, _), T : tidy ?r |- _ => apply require_word_sound in H; [destruct H|exact T]
  | H : require_arg ?r _ _ = Ok _, T : tidy ?r |- _ => apply require_arg_sound in H; [|exact T]
  | H : require_rest ?r _ = Ok _, T : tidy ?r |- _ => apply require_rest_sound in H; [|exact T]
  | H : (let '(_, _) := split_first_word ?r in _) = Ok _, T : tidy ?r |- _ =>
      let E := fresh "E" in destruct (split_first_word r) eqn:E; apply split_tidy in E as (? & ? & ?); [|exact T]
  | H : Ok _ = Ok _ |- _ => injection H as H; subst
  | H : Err _ = Ok _ |- _ => discriminate H
  | H : (if ?b then _ else _) = Ok _ |- _ => destruct b
  end.

Lemma verb_sound verb rest c : parse_verb verb rest = Ok c → tidy rest → base_ok c.
Proof.
  intros H Hr. unfold parse_verb in H. repeat match goal with H : (if ?b then _ else _) = Ok _ |- _ => destruct b end.
  all: autounfold with parser in H.
  all: inv_parse.
  all: cbn [base_ok]; repeat match goal with |- _ ∧ _ => split end; try assumption; try exact I; try (apply split_1_word; assumption).
  all: repeat match goal with T : tidy ?l |- context [decide (?l = [])] => destruct (decide (l = [])); [exact I|destruct T as [->|?]; [done|]] end.
  - assumption.
  - by eapply database_settings_sound.
  - by apply split_1_word.
  - destruct (split_last_word l2) as [v vc] eqn:E. case_decide as Hd; [done|]. injection H as <-.
    destruct (split_last_sound l2 v vc) as [? ?]; [done|done|naive_solver|naive_solver|]. done.
  - split; [|done]. naive_solver.
Qed.

(** ** The parser does not panic *)

Lemma bind_no_panic {A B} (m : pres A) (f : A → pres B) : m ≠ Panic → (∀ a, f a ≠ Panic) → m ≫= f ≠ Panic.
Proof. destruct m; cbn; auto. Qed.

Ltac no_panic :=
  repeat match goal with
  | |- (_ ≫= _) ≠ Panic => apply bind_no_panic; [|intros]
  | |- (let '(_, _) := ?x in _) ≠ Panic => destruct x
  | |- (if ?b then _ else _) ≠ Panic => destruct b
  | |- match ?x with Some _ => _ | None => _ end ≠ Panic => destruct x
  | |- require_word _ _ ≠ Panic => unfold require_word
  | |- require_rest _ _ ≠ Panic => unfold require_rest
  | |- require_arg _ _ _ ≠ Panic => unfold require_arg
  | |- ok_or _ _ ≠ Panic => unfold ok_or
  | |- Ok _ ≠ Panic => discriminate
  | |- Err _ ≠ Panic => discriminate
  end.

Lemma concern_no_panic input r w : parse_concern input r w ≠ Panic.
Proof. unfold parse_concern, parse_concern_token. no_panic. Qed.

Lemma prefix_no_panic n : ∀ input r w, consistency_loop n input r w ≠ Panic.
Proof.
  induction n as [|n IH]; intros input r w; cbn [consistency_loop]; [done|]. apply bind_no_panic; [apply concern_no_panic|].
  intros [[[i r'] w']|]; [apply IH|done].
Qed.

Lemma settings_no_panic n : ∀ input r w, (3 ≤ n + given r w)%nat → settings_loop n input r w ≠ Panic.
Proof.
  induction n as [|n IH]; intros input r w Hn; cbn [settings_loop]; case_decide; try done.
  - unfold given in Hn. destruct r, w; lia.
  - pose proof (concern_no_panic input r w) as Hc. destruct (parse_concern input r w) as [[[[i r'] w']|]|e|] eqn:E; cbn; try done.
    apply IH. apply parse_concern_inv in E as (_ & k & _ & _ & _ & _ & _ & [(-> & -> & ->)|(-> & -> & ->)]); unfold given in *; [lia|destruct r; lia].
Qed.

Lemma verb_no_panic verb rest : parse_verb verb rest ≠ Panic.
Proof.
  unfold parse_verb. no_panic. all: autounfold with parser; no_panic. unfold parse_database_consistency_settings.
  apply bind_no_panic; [by apply settings_no_panic|]. intros [[?|] [?|]]; done.
Qed.

(** ** Theorems *)

(** C31: The command parser and the documented syntax agree.  Every well-formed command
    written with single spaces, with or without a line end, with or without a consistency
    prefix, parses back to itself; and whatever line the parser accepts is a well-formed
    command: words are non-empty and without whitespace, concerns are [u16], a range
    has both ends, a consistency prefix is never nested.  No line makes it panic. *)
Theorem parser_roundtrip c eol line :
  (cmd_ok c → byte_len (render c) ≤ MAX_LINE_LENGTH → eol ∈ [[]; [10]; [13; 10]] → parse_command (render c ++ eol) = Ok c) ∧
  parse_command line ≠ Panic ∧ ∀ c', parse_command line = Ok c' → cmd_ok c'.
Proof.
  split; [apply render_parses|]. unfold parse_command. set (l := reverse _). split.
  - case_decide; [done|]. case_decide; [done|]. apply bind_no_panic.
    + apply prefix_no_panic.
    + intros [[i r] w]. destruct (split_first_word i) as [k rest]. apply bind_no_panic; [apply verb_no_panic|]. intros b. destruct r, w; done.
  - intros c'. case_decide as H1; [done|]. case_decide as H2; [done|]. intros H. apply outcome_bind_Ok in H as ([[i r] w] & Hp & H).
    destruct (consistency_sound _ _ _ _ _ _ _ Hp (trim_tidy l) I I) as (Hi & Hr & Hw).
    destruct (split_first_word i) as [k rest] eqn:E. destruct (split_tidy _ _ _ Hi E) as (Hrest & _).
    apply outcome_bind_Ok in H as (base & Hb & H). apply verb_sound in Hb; [|done].
    destruct r as [r|], w as [w|]; injection H as <-; cbn [cmd_ok]; try (split; [|done]); unfold concerns_ok; [naive_solver..|].
    by destruct base.
Qed.

Lemma parser_roundtrip_witness :
  let c := WithConsistency (Some 2) None (Insert (kw "users") (kw "k1") (kw "{ a : 1 }")) in
  render c = kw "READ_CONCERN R=2 INSERT users k1 { a : 1 }" ∧ parse_command (render c ++ [13; 10]) = Ok c.
Proof.
  intros c. split; [reflexivity|]. apply (proj1 (parser_roundtrip c [13; 10] [])).
  - split; [split; [unfold concern_ok, is_u16; lia|split; [exact I|by left]]|]. split; [kw_word|]. split; [kw_word|].
    constructor; [eexists _, _; split; reflexivity|]. exists (kw "{ a : 1 "), 125. split; reflexivity.
  - vm_compute. discriminate.
  - set_solver.
Defined.

(** The first bound of a range query ends at its first space, JSON or not. *)
Lemma queryrange_start_split :
  parse_command (kw "QUERYRANGE c i { a } z") = Ok (QueryRange (kw "c") (kw "i") (kw "{") (kw "a } z")).
Proof. vm_compute. reflexivity. Qed.
