(* ===== verification/JsonLines.v ===== *)
(** * JSON-lines files

    The hint backlog, the read-repair queue and the schema log keep one JSON object per
    line in a file (grumpydb-server/src/cluster/hints.rs, read_repair.rs and
    schema/log.rs).  This file holds what they share: the lines of a file as
    [BufRead::lines] gives them, the append of an entry, and the queue operations, which
    hints.rs and read_repair.rs have word for word alike, for any entry type with a
    [JsonLine] instance. *)

From stdpp Require Import gmap.
From S2P Require Import Prelude RustStd Crdt.

Local Open Scope Z_scope.

(** [serde_json::to_string] of a struct, compact: an object on one line of UTF-8 text. *)
Class JsonLine (T : Type) := {
  jl_json :: Json T;
  json_one_line : ∀ t, x0a ∉ to_json t;
  json_utf8 : ∀ t, utf8_valid (to_json t) = true;
  json_object : ∀ t, head (to_json t) = Some x7b ∧ last (to_json t) = Some x7d;
}.

(** [io::ErrorKind] of a line that is not UTF-8 or not the JSON of an entry. *)
Inductive IoError := InvalidData.

(** ** [BufRead::lines] and [str::trim] *)

Definition strip_cr (l : bytes) : bytes :=
  if decide (last l = Some x0d) then removelast l else l.

(** A carriage return is dropped together with the line feed it precedes. *)
Fixpoint split_lines (cur : bytes) (b : bytes) : list bytes :=
  match b with
  | [] => match cur with [] => [] | _ => [cur] end
  | x :: b => if decide (x = x0a) then strip_cr cur :: split_lines [] b else split_lines (cur ++ [x]) b
  end.

(** [None] is a line with invalid UTF-8. *)
Definition lines (b : bytes) : list (option bytes) :=
  (λ l, if utf8_valid l then Some l else None) <$> split_lines [] b.

(** The UTF-8 forms of [char::is_whitespace]. *)
Definition whitespace : list bytes :=
  [[x09]; [x0a]; [x0b]; [x0c]; [x0d]; [x20]; [xc2; x85]; [xc2; xa0]; [xe1; x9a; x80];
   [xe2; x80; x80]; [xe2; x80; x81]; [xe2; x80; x82]; [xe2; x80; x83]; [xe2; x80; x84]; [xe2; x80; x85];
   [xe2; x80; x86]; [xe2; x80; x87]; [xe2; x80; x88]; [xe2; x80; x89]; [xe2; x80; x8a]; [xe2; x80; xa8];
   [xe2; x80; xa9]; [xe2; x80; xaf]; [xe2; x81; x9f]; [xe3; x80; x80]].

Fixpoint blank (fuel : nat) (l : bytes) : bool :=
  match l, fuel with
  | [], _ => true
  | _, O => false
  | _, S fuel => existsb (λ w, if bool_decide (take (length w) l = w) then blank fuel (drop (length w) l) else false) whitespace
  end.

(** [line.trim().is_empty()] *)
Definition is_blank (l : bytes) : bool := blank (length l) l.

Section lines.
Context {T : Type} {J : JsonLine T}.
Implicit Types (f : option bytes) (xs : list T).

Definition encode_line (x : T) : bytes := to_json x ++ [x0a].

(** The file is created when it is absent. *)
Definition append (x : T) f : option bytes := Some (default [] f ++ encode_line x).

(** ** The queue *)

Fixpoint count_lines (ls : list (option bytes)) (count : nat) : outcome IoError nat :=
  match ls with
  | [] => Ok count
  | None :: _ => Err InvalidData
  | Some l :: ls => count_lines ls (if is_blank l then count else S count)
  end.

Definition backlog_len f : outcome IoError nat :=
  match f with None => Ok 0%nat | Some b => count_lines (lines b) 0 end.

Fixpoint drain_lines (limit : nat) (ls : list (option bytes)) (drained : list T) (keep : list bytes) :
    outcome IoError (list T * list bytes) :=
  match ls with
  | [] => Ok (drained, keep)
  | None :: _ => Err InvalidData
  | Some l :: ls =>
      if is_blank l then drain_lines limit ls drained keep
      else if decide (length drained < limit)%nat then
        match from_json l with
        | Some x => drain_lines limit ls (drained ++ [x]) keep
        | None => Err InvalidData
        end
      else drain_lines limit ls drained (keep ++ [l])
  end.

(** The lines kept are written to the truncated file; without any the file is removed. *)
Definition write_back (keep : list bytes) : option bytes :=
  match keep with [] => None | _ => Some (concat ((λ l, l ++ [x0a]) <$> keep)) end.

Definition drain (limit : nat) : ST (option bytes) IoError (list T) := λ f,
  if decide (limit = 0)%nat then (Ok [], f)
  else match f with
       | None => (Ok [], f)
       | Some b =>
           match drain_lines limit (lines b) [] [] with
           | Ok (drained, keep) => (Ok drained, write_back keep)
           | Err e => (Err e, f)
           | Panic => (Panic, f)
           end
       end.

(** ** The loop of the background workers

    A tick drains up to [limit] entries and tries each over the network; an entry that
    fails is appended again.  [try n x] is the answer to the [n]th attempt; [w_done]
    records the entries that were accepted. *)

Record Work := mkWork { w_file : option bytes; w_done : list T; w_tries : nat }.

Fixpoint retry_each (try : nat → T → bool) xs (w : Work) : Work :=
  match xs with
  | [] => w
  | x :: xs =>
      retry_each try xs
        (if try (w_tries w) x then mkWork (w_file w) (w_done w ++ [x]) (S (w_tries w))
         else mkWork (append x (w_file w)) (w_done w) (S (w_tries w)))
  end.

Definition work_tick (try : nat → T → bool) (limit : nat) (w : Work) : Work :=
  match drain limit (w_file w) with
  | (Ok xs, f) => retry_each try xs (mkWork f (w_done w) (w_tries w))
  | (_, f) => mkWork f (w_done w) (w_tries w)
  end.

(** ** What a file holds *)

Definition holds f xs : Prop := default [] f = concat (encode_line <$> xs).

Lemma split_lines_app (l cur b : bytes) : x0a ∉ l → split_lines cur (l ++ [x0a] ++ b) = strip_cr (cur ++ l) :: split_lines [] b.
Proof.
  revert cur. induction l as [|x l IH]; intros cur Hl; cbn [app split_lines].
  - by rewrite decide_True, app_nil_r by done.
  - apply not_elem_of_cons in Hl as [Hx Hl]. rewrite decide_False by done. rewrite (IH _ Hl). by rewrite <- app_assoc.
Qed.

Lemma json_no_cr x : strip_cr (to_json x) = to_json x.
Proof. unfold strip_cr. by rewrite (proj2 (json_object x)), decide_False. Qed.

Lemma split_encoded xs : split_lines [] (concat (encode_line <$> xs)) = to_json <$> xs.
Proof.
  induction xs as [|x xs IH]; [done|]. cbn [fmap list_fmap concat]. unfold encode_line at 1.
  rewrite <- app_assoc, split_lines_app by apply json_one_line. cbn [app]. rewrite json_no_cr. f_equal. exact IH.
Qed.

Lemma lines_encoded xs : lines (concat (encode_line <$> xs)) = Some ∘ to_json <$> xs.
Proof.
  unfold lines. rewrite split_encoded, <- list_fmap_compose. apply list_fmap_ext. intros i x _. cbn.
  by rewrite json_utf8.
Qed.

Lemma json_not_blank x : is_blank (to_json x) = false.
Proof.
  destruct (json_object x) as [Hh _]. unfold is_blank. destruct (to_json x) as [|c l]; [done|]. injection Hh as ->.
  cbn [blank length]. apply not_true_is_false. intros (w & Hw & Hb)%existsb_exists.
  case_bool_decide as Heq; [|done]. clear Hb. revert w Hw Heq. refine (proj1 (List.Forall_forall _ _) _). by repeat constructor.
Qed.

Lemma count_encoded xs n : count_lines (Some ∘ to_json <$> xs) n = Ok (length xs + n)%nat.
Proof.
  revert n. induction xs as [|x xs IH]; intros n; cbn [fmap list_fmap count_lines compose]; [done|].
  rewrite json_not_blank, IH. cbn. f_equal. lia.
Qed.

Lemma drain_encoded limit xs drained keep :
  drain_lines limit (Some ∘ to_json <$> xs) drained keep =
    Ok (drained ++ take (limit - length drained) xs, keep ++ (to_json <$> drop (limit - length drained) xs)).
Proof.
  revert drained keep. induction xs as [|x xs IH]; intros drained keep; cbn [fmap list_fmap drain_lines compose].
  - by rewrite take_nil, drop_nil, !app_nil_r.
  - rewrite json_not_blank, from_to_json. case_decide as Hd.
    + rewrite IH, length_app. cbn [length]. replace (limit - length drained)%nat with (S (limit - (length drained + 1)))%nat by lia.
      cbn [take drop]. by rewrite <- app_assoc.
    + rewrite IH. replace (limit - length drained)%nat with 0%nat by lia. cbn [take drop fmap list_fmap]. by rewrite <- !app_assoc.
Qed.

Lemma append_holds x f xs : holds f xs → holds (append x f) (xs ++ [x]).
Proof. unfold holds, append. intros Hf. cbn [default from_option id]. rewrite Hf, fmap_app, concat_app. cbn [fmap list_fmap concat]. by rewrite app_nil_r. Qed.

Lemma backlog_len_holds f xs : holds f xs → backlog_len f = Ok (length xs).
Proof.
  unfold holds, backlog_len. intros Hf. destruct f as [b|]; cbn in Hf.
  - by rewrite Hf, lines_encoded, count_encoded, Nat.add_0_r.
  - destruct xs as [|x xs]; [done|]. cbn in Hf. symmetry in Hf. apply app_nil in Hf as [Hf _].
    unfold encode_line in Hf. by apply app_nil in Hf as [_ Hf].
Qed.

Lemma write_back_holds xs : holds (write_back (to_json <$> xs)) xs.
Proof. unfold holds, write_back. destruct xs as [|x xs]; [done|]. cbn [fmap list_fmap default from_option id concat]. by rewrite <- list_fmap_compose. Qed.

(** Draining takes entries from the front, in the order they were appended. *)
Lemma drain_holds limit f xs :
  holds f xs → ∃ f', drain limit f = (Ok (take limit xs), f') ∧ holds f' (drop limit xs).
Proof.
  intros Hf. unfold drain. case_decide as Hl; [subst; by exists f|]. destruct f as [b|].
  - unfold holds in Hf. cbn in Hf. subst b. rewrite lines_encoded, drain_encoded, Nat.sub_0_r. cbn. eexists. split; [done|]. apply write_back_holds.
  - pose proof (backlog_len_holds None xs Hf) as Hlen. injection Hlen as Hlen. destruct xs; [|done]. rewrite take_nil, drop_nil. eauto.
Qed.

Lemma retry_each_ok try xs ys w :
  holds (w_file w) ys →
  ∃ failed accepted, holds (w_file (retry_each try xs w)) (ys ++ failed) ∧ w_done (retry_each try xs w) = w_done w ++ accepted ∧
    xs ≡ₚ accepted ++ failed ∧ failed `sublist_of` xs ∧ ((∀ n x, x ∈ xs → try n x = true) → failed = [] ∧ accepted = xs).
Proof.
  revert ys w. induction xs as [|x xs IH]; intros ys w Hw; cbn [retry_each].
  - exists [], []. rewrite !app_nil_r. done.
  - destruct (try (w_tries w) x) eqn:Ht.
    + destruct (IH ys (mkWork (w_file w) (w_done w ++ [x]) (S (w_tries w))) Hw) as (fl & ac & H1 & H2 & H3 & H4 & H5).
      exists fl, (x :: ac). split_and!; [done| |by rewrite H3|by constructor|].
      * rewrite H2. cbn [w_done]. by rewrite <- app_assoc.
      * intros Hall. destruct H5 as [-> ->]; [|done]. intros n y Hy. apply Hall. by constructor.
    + destruct (IH (ys ++ [x]) (mkWork (append x (w_file w)) (w_done w) (S (w_tries w)))) as (fl & ac & H1 & H2 & H3 & H4 & H5);
        [by apply append_holds|].
      exists (x :: fl), ac. rewrite <- app_assoc in H1. split_and!; [done|done|by rewrite H3, Permutation_middle|by constructor|].
      intros Hall. rewrite Hall in Ht by constructor. done.
Qed.

(** A tick loses and invents nothing; what failed goes to the back of the queue. *)
Lemma work_tick_ok try limit xs w :
  holds (w_file w) xs →
  ∃ failed accepted, holds (w_file (work_tick try limit w)) (drop limit xs ++ failed) ∧
    w_done (work_tick try limit w) = w_done w ++ accepted ∧
    take limit xs ≡ₚ accepted ++ failed ∧ failed `sublist_of` take limit xs ∧
    ((∀ n x, x ∈ xs → try n x = true) → failed = [] ∧ accepted = take limit xs).
Proof.
  intros Hw. unfold work_tick. destruct (drain_holds limit _ _ Hw) as (f' & -> & Hf').
  destruct (retry_each_ok try (take limit xs) (drop limit xs) (mkWork f' (w_done w) (w_tries w)) Hf')
    as (fl & ac & H1 & H2 & H3 & H4 & H5).
  exists fl, ac. split_and!; [done..|]. intros Hall. apply H5. intros n x Hx. apply Hall.
  rewrite <- (take_drop limit xs). apply elem_of_app. by left.
Qed.
End lines.

(** ** An instance that evaluates *)

Fixpoint pos_text (p : positive) : bytes :=
  match p with xH => [x7d] | xO p => x30 :: pos_text p | xI p => x31 :: pos_text p end.
Fixpoint text_pos (b : bytes) : positive :=
  match b with x30 :: b => xO (text_pos b) | x31 :: b => xI (text_pos b) | _ => xH end.

Lemma text_pos_text p : text_pos (pos_text p) = p.
Proof. induction p; cbn; congruence. Qed.

Lemma pos_text_chars p : Forall (λ c, c ∈ [x30; x31; x7d]) (pos_text p) ∧ last (pos_text p) = Some x7d.
Proof.
  induction p as [p [IH1 IH2]|p [IH1 IH2]|]; cbn [pos_text]; (split; [repeat constructor; try done; set_solver|]);
    try done; rewrite last_cons, IH2; done.
Qed.

(** Any countable type, printed as an object of binary digits. *)
Program Definition digits_json (T : Type) `{Countable T} : JsonLine T :=
  {| jl_json := {| to_json := λ t, x7b :: pos_text (encode t); from_json := λ b, decode (text_pos (drop 1 b)) |} |}.
Next Obligation. intros T ?? t. cbn. rewrite drop_0, text_pos_text. apply decode_encode. Qed.
Next Obligation.
  intros T ?? t. cbn. apply not_elem_of_cons. split; [done|]. intros Hin.
  pose proof (proj1 (Forall_forall _ _) (proj1 (pos_text_chars (encode t))) _ Hin) as Hc. set_solver.
Qed.
Next Obligation.
  intros T ?? t. cbn [to_json]. apply utf8_valid_ascii. constructor; [done|].
  eapply Forall_impl; [exact (proj1 (pos_text_chars (encode t)))|]. intros c Hc. cbn beta.
  repeat (apply elem_of_cons in Hc as [->|Hc]; [done|]). by apply not_elem_of_nil in Hc.
Qed.
Next Obligation. intros T ?? t. cbn [to_json]. split; [done|]. rewrite last_cons. by rewrite (proj2 (pos_text_chars _)). Qed.
