(* ===== verification/Hints.v ===== *)
(** * Hinted handoff and read repair (grumpydb-server/src/cluster/hints.rs, read_repair.rs)

    A write that could not reach a replica is kept in a backlog file of that replica and
    replayed by a background worker; values that a quorum read found stale are queued for
    repair in the same way.  A directory is a map from file names to contents; node ids
    name files, so they hold no path separator.  The answers of the peers are an
    argument: [replay n target h] is the answer to the [n]th attempt of a tick. *)

From stdpp Require Import gmap.
From S2P Require Import Prelude RustStd Crdt Mvcc JsonLines.

Local Open Scope Z_scope.

Inductive HintOperation :=
  | Upsert (value_json : bytes)
  | Delete
  | CreateIndex (index_name field_path : bytes)
  | DropIndex (index_name : bytes).

Record HintRecord := mkHint {
  created_at_unix : Z;
  tenant : bytes;
  database : bytes;
  collection : bytes;
  key : bytes;
  operation : option HintOperation;
  payload_json : option bytes;
}.

Definition default_tenant : bytes := str "_default".

(** [{"$delete":true}] *)
Definition delete_payload : bytes :=
  [x7b; x22] ++ str "$delete" ++ [x22] ++ str ":true" ++ [x7d].

Definition resolved_operation (h : HintRecord) : HintOperation :=
  match operation h with
  | Some op => op
  | None =>
      match payload_json h with
      | Some value_json => if decide (value_json = delete_payload) then Delete else Upsert value_json
      | None => Upsert (str "null")
      end
  end.

Record ReadRepairIntent := mkIntent {
  rr_created_at_unix : Z;
  rr_tenant : bytes;
  rr_database : bytes;
  rr_collection : bytes;
  rr_key : bytes;
  target_node_id : bytes;
  value_json : bytes;
  reason : bytes;
}.

Definition SUFFIX : bytes := str ".jsonl".

(** [name.strip_suffix(".jsonl")] *)
Definition strip_suffix (suffix name : bytes) : option bytes :=
  let n := (length name - length suffix)%nat in
  if decide (drop n name = suffix) then Some (take n name) else None.

Section hints.
Context {J : JsonLine HintRecord}.

Abbreviation HintStore := (gmap bytes bytes).
Implicit Types (d : HintStore) (t : bytes) (h : HintRecord).

Definition node_file (target_node_id : bytes) : bytes := target_node_id ++ SUFFIX.

Definition set_file (name : bytes) (f : option bytes) d : HintStore := partial_alter (λ _, f) name d.

Definition append t h d : HintStore := set_file (node_file t) (JsonLines.append h (d !! node_file t)) d.

Definition backlog_len t d : outcome IoError nat := JsonLines.backlog_len (d !! node_file t).

Definition drain_for_node t (limit : nat) : ST HintStore IoError (list HintRecord) := λ d,
  let '(r, f) := drain limit (d !! node_file t) in (r, set_file (node_file t) f d).

Definition list_targets d : list bytes := sort_names (omap (strip_suffix SUFFIX) (map_to_list d).*1).

(** ** The replay worker *)

Record Worker := mkWorker {
  store : HintStore;
  replayed : list (bytes * HintRecord);
  attempts : nat;
}.

(** The body of the loop over targets. *)
Definition visit_target (live : bytes → bool) (replay : nat → bytes → HintRecord → bool) (w : Worker) t : Worker :=
  if live t then
    let r := work_tick (λ n, replay n t) 128 (mkWork (store w !! node_file t) [] (attempts w)) in
    mkWorker (set_file (node_file t) (w_file r) (store w)) (replayed w ++ (pair t <$> w_done r)) (w_tries r)
  else w.

Definition tick (live : bytes → bool) (replay : nat → bytes → HintRecord → bool) (w : Worker) : Worker :=
  foldl (visit_target live replay) w (list_targets (store w)).

(** ** Proofs *)

(** The backlog of every node. *)
Definition backlogs d (q : bytes → list HintRecord) : Prop := ∀ t, holds (d !! node_file t) (q t).

Definition replayed_to t (w : Worker) : list HintRecord := snd <$> filter (λ p, p.1 = t) (replayed w).

Lemma node_file_inj t t' : node_file t = node_file t' → t = t'.
Proof. apply app_inv_tail. Qed.

Lemma strip_node_file t : strip_suffix SUFFIX (node_file t) = Some t.
Proof.
  unfold strip_suffix, node_file. rewrite length_app. replace (length t + length SUFFIX - length SUFFIX)%nat with (length t) by lia.
  rewrite drop_app_length, take_app_length. by rewrite decide_True.
Qed.

Lemma list_targets_spec d t : is_Some (d !! node_file t) → t ∈ list_targets d.
Proof.
  intros [b Hb]. apply elem_of_sort_names, list_elem_of_omap. exists (node_file t). split; [|apply strip_node_file].
  apply list_elem_of_fmap. exists (node_file t, b). split; [done|]. by apply elem_of_map_to_list.
Qed.

Lemma set_file_backlogs d q t f xs :
  backlogs d q → holds f xs → backlogs (set_file (node_file t) f d) (λ t', if decide (t' = t) then xs else q t').
Proof.
  intros Hq Hf t'. unfold set_file. case_decide as Ht; [subst; by rewrite lookup_partial_alter_eq|].
  rewrite lookup_partial_alter_ne; [apply Hq|]. by intros ->%node_file_inj.
Qed.

Lemma empty_backlogs : backlogs ∅ (λ _, []).
Proof. intros t. by rewrite lookup_empty. Qed.

Lemma append_backlogs d q t h :
  backlogs d q → backlogs (append t h d) (λ t', if decide (t' = t) then q t ++ [h] else q t').
Proof. intros Hq. apply set_file_backlogs; [done|]. apply append_holds, Hq. Qed.

Lemma replayed_to_app t s r a t' hs :
  replayed_to t (mkWorker s (r ++ (pair t' <$> hs)) a) =
    replayed_to t (mkWorker s r a) ++ (if decide (t = t') then hs else []).
Proof.
  unfold replayed_to. cbn [replayed]. rewrite filter_app, fmap_app. f_equal. induction hs as [|h hs IH]; [by destruct (decide _)|].
  cbn [fmap list_fmap]. case_decide as Ht.
  - subst. rewrite filter_cons_True by done. cbn [fmap list_fmap snd]. f_equal. exact IH.
  - rewrite filter_cons_False; [exact IH|]. cbn. congruence.
Qed.

Lemma replayed_to_eq t w w' : replayed w = replayed w' → replayed_to t w = replayed_to t w'.
Proof. unfold replayed_to. by intros ->. Qed.

Lemma visit_ok live replay w q t :
  backlogs (store w) q →
  ∃ q', backlogs (store (visit_target live replay w t)) q' ∧
    (∀ t', q' t' ++ replayed_to t' (visit_target live replay w t) ≡ₚ q t' ++ replayed_to t' w) ∧
    ∀ t', live t' = true → (∀ n h, replay n t' h = true) →
      replayed_to t' (visit_target live replay w t) ++ q' t' = replayed_to t' w ++ q t' ∧
      (length (q' t') ≤ length (q t'))%nat ∧ (t = t' → length (q' t') ≤ length (q t') - 128)%nat.
Proof.
  intros Hq. unfold visit_target. destruct (live t) eqn:Hl.
  2:{ exists q. split_and!; [done|done|]. intros t' Ht' _. split_and!; [done|done|]. congruence. }
  set (m := mkWork _ _ _). destruct (work_tick_ok (λ n, replay n t) 128 (q t) m (Hq t)) as (fl & ac & H1 & H2 & H3 & H4 & H5).
  eexists. split; [by apply set_file_backlogs|].
  assert (Hr : ∀ t', replayed_to t' (mkWorker (set_file (node_file t) (w_file (work_tick (λ n, replay n t) 128 m)) (store w))
    (replayed w ++ (pair t <$> w_done (work_tick (λ n, replay n t) 128 m))) (w_tries (work_tick (λ n, replay n t) 128 m))) =
    replayed_to t' w ++ (if decide (t' = t) then ac else [])).
  { intros t'. rewrite H2, replayed_to_app. by destruct (decide (t' = t)). }
  split; intros t'; rewrite Hr; cbv beta; case_decide as Ht.
  - subst t'. rewrite <- (take_drop 128 (q t)) at 2. rewrite H3. solve_Permutation.
  - by rewrite app_nil_r.
  - subst t'. intros _ Hrep. destruct H5 as [-> ->]; [intros; apply Hrep|]. rewrite app_nil_r. split_and!.
    + by rewrite <- app_assoc, take_drop.
    + rewrite length_drop. lia.
    + rewrite length_drop. lia.
  - intros _ _. rewrite app_nil_r. split_and!; [done|done|congruence].
Qed.

Definition good_for t (s : (bytes → bool) * (nat → bytes → HintRecord → bool)) : Prop :=
  s.1 t = true ∧ ∀ n h, s.2 n t h = true.

Lemma visit_all_ok s w q ts :
  backlogs (store w) q →
  ∃ q', backlogs (store (foldl (visit_target s.1 s.2) w ts)) q' ∧
    (∀ t, q' t ++ replayed_to t (foldl (visit_target s.1 s.2) w ts) ≡ₚ q t ++ replayed_to t w) ∧
    ∀ t, good_for t s →
      replayed_to t (foldl (visit_target s.1 s.2) w ts) ++ q' t = replayed_to t w ++ q t ∧
      (length (q' t) ≤ length (q t))%nat ∧ (t ∈ ts → length (q' t) ≤ length (q t) - 128)%nat.
Proof.
  revert w q. induction ts as [|t0 ts IH]; intros w q Hq; cbn [foldl].
  - exists q. split_and!; [done|done|]. intros t _. split_and!; [done|done|]. by intros ?%not_elem_of_nil.
  - destruct (visit_ok s.1 s.2 w q t0 Hq) as (q1 & Hq1 & Hp1 & Hg1).
    destruct (IH _ q1 Hq1) as (q2 & Hq2 & Hp2 & Hg2). exists q2. split_and!; [done|intros t; by rewrite Hp2|].
    intros t Hg. destruct (Hg1 t (proj1 Hg) (proj2 Hg)) as (He1 & Hl1 & Hd1). destruct (Hg2 t Hg) as (He2 & Hl2 & Hd2).
    split_and!; [by rewrite He2|lia|]. intros [<-|Hin]%elem_of_cons; [specialize (Hd1 eq_refl); lia|specialize (Hd2 Hin); lia].
Qed.

Lemma backlog_tick_ok s w q :
  backlogs (store w) q →
  ∃ q', backlogs (store (tick s.1 s.2 w)) q' ∧
    (∀ t, q' t ++ replayed_to t (tick s.1 s.2 w) ≡ₚ q t ++ replayed_to t w) ∧
    ∀ t, good_for t s →
      replayed_to t (tick s.1 s.2 w) ++ q' t = replayed_to t w ++ q t ∧ (length (q' t) ≤ length (q t) - 128)%nat.
Proof.
  intros Hq. destruct (visit_all_ok s w q (list_targets (store w)) Hq) as (q' & Hq' & Hp & Hg). exists q'. split_and!; [done|done|].
  intros t Ht. destruct (Hg t Ht) as (He & Hl & Hd). split; [done|]. destruct (store w !! node_file t) as [b|] eqn:Hb.
  - apply Hd, list_targets_spec. eauto.
  - pose proof (backlog_len_holds _ _ (Hq t)) as Hlen. rewrite Hb in Hlen. injection Hlen as Hlen. lia.
Qed.

(** The ticks of the worker, each with the live peers and the answers it meets. *)
Definition run (steps : list ((bytes → bool) * (nat → bytes → HintRecord → bool))) (w : Worker) : Worker :=
  foldl (λ w s, tick s.1 s.2 w) w steps.

Lemma hints_run_ok steps w q : backlogs (store w) q → ∃ q', backlogs (store (run steps w)) q' ∧
  (∀ t, q' t ++ replayed_to t (run steps w) ≡ₚ q t ++ replayed_to t w) ∧
  ∀ t, Forall (good_for t) steps → replayed_to t (run steps w) ++ q' t = replayed_to t w ++ q t ∧
    (length (q' t) ≤ length (q t) - 128 * length steps)%nat.
Proof.
  revert w q. induction steps as [|s steps IH]; intros w q Hq; cbn [run foldl].
  - exists q. split_and!; [done|done|]. intros t _. split; [done|cbn; lia].
  - destruct (backlog_tick_ok s w q Hq) as (q1 & Hq1 & Hp1 & Hg1). destruct (IH _ q1 Hq1) as (q2 & Hq2 & Hp2 & Hg2). fold (run steps) in *.
    exists q2. split_and!; [done|intros t; by rewrite <- Hp1, <- Hp2|]. intros t [H1 H2]%Forall_cons.
    destruct (Hg1 t H1) as [He1 Hl1]. destruct (Hg2 t H2) as [He2 Hl2]. split; [by rewrite <- He1, <- He2|]. cbn [length]. lia.
Qed.

(** ** The worker among the request handlers

    Handlers append hints at any time.  The worker reads a backlog in one step and writes
    back what it keeps in a later one; between its other steps, too, hints may be
    recorded.  A step is one access to the file system or one replay. *)

Inductive Position :=
  | Waiting
  | Visiting (targets : list bytes)
  | Draining (t : bytes) (drained : list HintRecord) (keep : list bytes) (targets : list bytes)
  | Replaying (t : bytes) (hints : list HintRecord) (targets : list bytes).

Record Handoff := mkHandoff { files : HintStore; position : Position }.

Inductive hevent :=
  | Recorded (t : bytes) (h : HintRecord)
  | BacklogRead (t : bytes)
  | Rewritten (t : bytes)
  | Sent (t : bytes) (h : HintRecord)
  | Failed (t : bytes) (h : HintRecord)
  | Moved.

Inductive hstep : Handoff → hevent → Handoff → Prop :=
  | hs_record d p t h : hstep (mkHandoff d p) (Recorded t h) (mkHandoff (append t h d) p)
  | hs_list d : hstep (mkHandoff d Waiting) Moved (mkHandoff d (Visiting (list_targets d)))
  | hs_wait d : hstep (mkHandoff d (Visiting [])) Moved (mkHandoff d Waiting)
  | hs_skip d t ts : hstep (mkHandoff d (Visiting (t :: ts))) Moved (mkHandoff d (Visiting ts))
  | hs_read d t ts b drained keep :
      d !! node_file t = Some b → drain_lines 128 (lines b) [] [] = Ok (drained, keep) →
      hstep (mkHandoff d (Visiting (t :: ts))) (BacklogRead t) (mkHandoff d (Draining t drained keep ts))
  | hs_rewrite d t drained keep ts :
      hstep (mkHandoff d (Draining t drained keep ts)) (Rewritten t)
        (mkHandoff (set_file (node_file t) (write_back keep) d) (Replaying t drained ts))
  | hs_sent d t h hs ts : hstep (mkHandoff d (Replaying t (h :: hs) ts)) (Sent t h) (mkHandoff d (Replaying t hs ts))
  | hs_failed d t h hs ts : hstep (mkHandoff d (Replaying t (h :: hs) ts)) (Failed t h) (mkHandoff (append t h d) (Replaying t hs ts))
  | hs_next d t ts : hstep (mkHandoff d (Replaying t [] ts)) Moved (mkHandoff d (Visiting ts)).

Inductive hrun : Handoff → list hevent → Handoff → Prop :=
  | hrun_nil s : hrun s [] s
  | hrun_snoc s evs s1 ev s2 : hrun s evs s1 → hstep s1 ev s2 → hrun s (evs ++ [ev]) s2.

(** What a run did for the node [t]: the hints recorded, sent, and refused. *)
Definition recorded t (evs : list hevent) : list HintRecord :=
  omap (λ ev, match ev with Recorded t' h => if decide (t' = t) then Some h else None | _ => None end) evs.
Definition sent t (evs : list hevent) : list HintRecord :=
  omap (λ ev, match ev with Sent t' h => if decide (t' = t) then Some h else None | _ => None end) evs.
Definition refused t (evs : list hevent) : list HintRecord :=
  omap (λ ev, match ev with Failed t' h => if decide (t' = t) then Some h else None | _ => None end) evs.

(** The hints recorded since the backlog was read, while it is not yet written back, and
    those over which it was written. *)
Definition window_step t (w : option (list HintRecord) * list HintRecord) (ev : hevent) : option (list HintRecord) * list HintRecord :=
  match ev with
  | BacklogRead t' => if decide (t' = t) then (Some [], w.2) else w
  | Recorded t' h => if decide (t' = t) then ((λ u, u ++ [h]) <$> w.1, w.2) else w
  | Rewritten t' => if decide (t' = t) then (None, w.2 ++ default [] w.1) else w
  | _ => w
  end.
Definition windows t (evs : list hevent) : option (list HintRecord) * list HintRecord := foldl (window_step t) (None, []) evs.
Definition overwritten t (evs : list hevent) : list HintRecord := (windows t evs).2.

(** The hints the worker holds in memory only. *)
Definition underway t (p : Position) : list HintRecord :=
  match p with Replaying t' hs _ => if decide (t' = t) then hs else [] | _ => [] end.

(** While a backlog is being drained, its file holds what was read and then the hints of
    the window. *)
Definition reading (q : bytes → list HintRecord) (evs : list hevent) t (p : Position) : Prop :=
  match p with
  | Draining t' drained keep _ =>
      if decide (t' = t) then ∃ kept u, keep = to_json <$> kept ∧ (windows t evs).1 = Some u ∧ q t = drained ++ kept ++ u
      else (windows t evs).1 = None
  | _ => (windows t evs).1 = None
  end.

(** Everything recorded is in the file, in the worker's hands, sent, or overwritten; in
    order as long as nothing was refused or overwritten. *)
Definition accounted (q0 q : bytes → list HintRecord) (evs : list hevent) (p : Position) t : Prop :=
  q t ++ underway t p ++ sent t evs ++ overwritten t evs ≡ₚ q0 t ++ recorded t evs ∧
  (refused t evs = [] → overwritten t evs = [] → sent t evs ++ underway t p ++ q t = q0 t ++ recorded t evs).

Lemma windows_snoc t evs ev : windows t (evs ++ [ev]) = window_step t (windows t evs) ev.
Proof. unfold windows. by rewrite foldl_app. Qed.

Lemma recorded_snoc t evs ev : recorded t (evs ++ [ev]) = recorded t evs ++ recorded t [ev].
Proof. apply omap_app. Qed.
Lemma sent_snoc t evs ev : sent t (evs ++ [ev]) = sent t evs ++ sent t [ev].
Proof. apply omap_app. Qed.
Lemma refused_snoc t evs ev : refused t (evs ++ [ev]) = refused t evs ++ refused t [ev].
Proof. apply omap_app. Qed.

Lemma drain_lines_holds d q t b drained keep :
  backlogs d q → d !! node_file t = Some b → drain_lines 128 (lines b) [] [] = Ok (drained, keep) →
  drained = take 128 (q t) ∧ keep = to_json <$> drop 128 (q t).
Proof.
  intros Hq Hb. pose proof (Hq t) as Ht. unfold holds in Ht. rewrite Hb in Ht. cbn in Ht. subst b.
  rewrite lines_encoded, drain_encoded. cbn. by intros [= <- <-].
Qed.

Ltac trace_step := rewrite ?recorded_snoc, ?sent_snoc, ?refused_snoc, ?windows_snoc; cbn [recorded sent refused omap list_omap window_step fst snd fmap option_fmap option_map].

Lemma handoff_step q0 q evs s ev s' :
  backlogs (files s) q → (∀ t, reading q evs t (position s) ∧ accounted q0 q evs (position s) t) → hstep s ev s' →
  ∃ q', backlogs (files s') q' ∧ ∀ t, reading q' (evs ++ [ev]) t (position s') ∧ accounted q0 q' (evs ++ [ev]) (position s') t.
Proof.
  intros Hq Hall Hstep. destruct Hstep as [d p t h|d|d|d t ts|d t ts b drained keep Hb Hdrain|d t drained keep ts|d t h hs ts|d t h hs ts|d t ts];
    cbn [files position] in *.
  - eexists. split; [by apply append_backlogs|]. intros t'. destruct (Hall t') as [Hr [Hp Ho]]. unfold accounted, overwritten, reading in *. trace_step. cbv beta.
    rewrite app_nil_r. destruct (decide (t = t')) as [->|Ht].
    + rewrite decide_True by done. cbn [fst snd]. split; [|split].
      * destruct p as [|ts|t0 dr kp ts|t0 hs ts]; [by rewrite Hr..| |by rewrite Hr]. case_decide; [|by rewrite Hr]. subst t0.
        destruct Hr as (kept & u & -> & -> & Heq). exists kept, (u ++ [h]). split_and!; [done..|]. by rewrite Heq, <- !app_assoc.
      * rewrite (app_assoc (q0 t')), <- Hp. solve_Permutation.
      * intros Hf Hw. rewrite (app_assoc (q0 t')), <- (Ho ltac:(by rewrite app_nil_r in Hf) Hw). by rewrite <- !app_assoc.
    + rewrite decide_False by done. rewrite !app_nil_r. done.
  - exists q. split; [done|]. intros t. destruct (Hall t) as [Hr Ha]. unfold accounted, overwritten, reading in *. trace_step. by rewrite !app_nil_r.
  - exists q. split; [done|]. intros t. destruct (Hall t) as [Hr Ha]. unfold accounted, overwritten, reading in *. trace_step. by rewrite !app_nil_r.
  - exists q. split; [done|]. intros t'. destruct (Hall t') as [Hr Ha]. unfold accounted, overwritten, reading in *. trace_step. by rewrite !app_nil_r.
  - exists q. split; [done|]. intros t'. destruct (Hall t') as [Hr [Hp Ho]]. unfold accounted, overwritten, reading in *. trace_step.
    rewrite !app_nil_r. destruct (decide (t = t')) as [->|Ht]; [|done]. cbn [fst snd]. split; [|done].
    destruct (drain_lines_holds d q t' b drained keep Hq Hb Hdrain) as [-> ->]. exists (drop 128 (q t')), []. split_and!; [done..|]. by rewrite app_nil_r, take_drop.
  - destruct (Hall t) as [Hr0 _]. unfold reading in Hr0. rewrite decide_True in Hr0 by done. destruct Hr0 as (kept & u & -> & Hu & Hqt).
    eexists. split; [apply set_file_backlogs; [done|apply write_back_holds]|]. intros t'. destruct (Hall t') as [Hr [Hp Ho]].
    unfold accounted, overwritten, reading, underway in *. trace_step. rewrite !app_nil_r. cbv beta. destruct (decide (t = t')) as [->|Ht].
    + rewrite (decide_True (P := t' = t')) by done. cbn [fst snd]. rewrite Hu in *. cbn [default from_option id]. split; [done|]. split.
      * rewrite <- Hp, Hqt. solve_Permutation.
      * intros Hf [Hw ->]%app_nil. rewrite <- (Ho Hf Hw), Hqt. by rewrite app_nil_r.
    + rewrite decide_False by done. done.
  - exists q. split; [done|]. intros t'. destruct (Hall t') as [Hr [Hp Ho]]. unfold accounted, overwritten, reading, underway in *. trace_step.
    rewrite !app_nil_r. destruct (decide (t = t')) as [->|Ht]; [|by rewrite !app_nil_r]. split; [done|]. split.
    + rewrite <- Hp. solve_Permutation.
    + intros Hf Hw. rewrite <- (Ho Hf Hw). by rewrite <- app_assoc.
  - eexists. split; [by apply append_backlogs|]. intros t'. destruct (Hall t') as [Hr [Hp Ho]]. unfold accounted, overwritten, reading, underway in *. trace_step.
    rewrite !app_nil_r. cbv beta. destruct (decide (t = t')) as [->|Ht].
    + rewrite decide_True by done. split; [done|]. split; [rewrite <- Hp; solve_Permutation|]. by intros [_ ?]%app_nil.
    + rewrite decide_False by done. rewrite !app_nil_r. done.
  - exists q. split; [done|]. intros t'. destruct (Hall t') as [Hr Ha]. unfold accounted, overwritten, reading, underway in *. trace_step.
    rewrite !app_nil_r. split; [done|]. by destruct (decide (t = t')).
Qed.

Lemma handoff_run d evs s' q :
  backlogs d q → hrun (mkHandoff d Waiting) evs s' →
  ∃ q', backlogs (files s') q' ∧ ∀ t, reading q' evs t (position s') ∧ accounted q q' evs (position s') t.
Proof.
  intros Hq Hrun. remember (mkHandoff d Waiting) as s eqn:Hs. induction Hrun as [s|s evs s1 ev s2 Hrun IH Hstep].
  - subst s. exists q. split; [done|]. intros t. split; [done|]. split; [done|]. intros _ _. cbn. by rewrite app_nil_r.
  - destruct (IH Hs) as (q1 & Hq1 & Hall). by eapply handoff_step.
Qed.

(** A tick of the worker alone is one of these runs, without a hint recorded in it. *)
Lemma set_file_same name d : set_file name (d !! name) d = d.
Proof. unfold set_file. apply map_eq. intros i. destruct (decide (i = name)) as [->|Hi]; [by rewrite lookup_partial_alter_eq|by rewrite lookup_partial_alter_ne]. Qed.

Lemma set_file_twice name f g d : set_file name f (set_file name g d) = set_file name f d.
Proof. apply map_eq. intros i. unfold set_file. destruct (decide (i = name)) as [->|Hi]; [by rewrite !lookup_partial_alter_eq|by rewrite !lookup_partial_alter_ne]. Qed.

Lemma set_file_lookup name f d : set_file name f d !! name = f.
Proof. apply lookup_partial_alter_eq. Qed.

(** [s] is reached with nothing recorded and [hs t] sent to [t]. *)
Definition alone (s0 : Handoff) (s : Handoff) (hs : bytes → list HintRecord) : Prop :=
  ∃ evs, hrun s0 evs s ∧ (∀ t, recorded t evs = []) ∧ ∀ t, sent t evs = hs t.

Lemma alone_step s0 s ev s' hs hs' :
  alone s0 s hs → hstep s ev s' → (∀ t, recorded t [ev] = []) → (∀ t, hs' t = hs t ++ sent t [ev]) → alone s0 s' hs'.
Proof.
  intros (evs & Hrun & Hrec & Hsent) Hstep Hr Hs. exists (evs ++ [ev]). split; [by econstructor|]. split; intros t.
  - by rewrite recorded_snoc, Hrec, Hr.
  - by rewrite sent_snoc, Hsent, Hs.
Qed.

Lemma retry_runs s0 t ts try xs m d hs :
  w_file m = d !! node_file t → alone s0 (mkHandoff d (Replaying t xs ts)) (λ t', hs t' ++ (if decide (t' = t) then w_done m else [])) →
  alone s0 (mkHandoff (set_file (node_file t) (w_file (retry_each try xs m)) d) (Replaying t [] ts))
    (λ t', hs t' ++ (if decide (t' = t) then w_done (retry_each try xs m) else [])).
Proof.
  revert m d. induction xs as [|x xs IH]; intros m d Hm Ha; cbn [retry_each].
  - rewrite Hm, set_file_same. exact Ha.
  - destruct (try (w_tries m) x).
    + apply (IH (mkWork _ _ _) d Hm). eapply alone_step; [exact Ha|constructor|done|]. intros t'. cbn. rewrite <- app_assoc. f_equal.
      destruct (decide (t' = t)), (decide (t = t')); congruence || done.
    + rewrite <- (set_file_twice (node_file t) _ (JsonLines.append x (d !! node_file t))). apply IH; [cbn; by rewrite set_file_lookup, Hm|].
      rewrite Hm. eapply alone_step; [exact Ha|constructor|done|]. intros t'. by rewrite app_nil_r.
Qed.

Lemma visit_runs s0 live replay w t ts :
  alone s0 (mkHandoff (store w) (Visiting (t :: ts))) (λ t', replayed_to t' w) →
  alone s0 (mkHandoff (store (visit_target live replay w t)) (Visiting ts)) (λ t', replayed_to t' (visit_target live replay w t)).
Proof.
  intros Ha. assert (Hskip : alone s0 (mkHandoff (store w) (Visiting ts)) (λ t', replayed_to t' w)).
  { eapply alone_step; [exact Ha|constructor|done|]. intros t'. by rewrite app_nil_r. }
  unfold visit_target. destruct (live t); [|done]. unfold work_tick, drain. rewrite decide_False by done. cbn [w_file w_done w_tries].
  assert (Hsame : ∀ n, alone s0 (mkHandoff (set_file (node_file t) (store w !! node_file t) (store w)) (Visiting ts))
    (λ t', replayed_to t' (mkWorker (set_file (node_file t) (store w !! node_file t) (store w)) (replayed w ++ []) n))).
  { intros n. rewrite set_file_same, app_nil_r. exact Hskip. }
  destruct (store w !! node_file t) as [b|] eqn:Hb; [|apply Hsame]. destruct (drain_lines 128 (lines b) [] []) as [[drained keep]|err|] eqn:Hd;
    [|apply Hsame..]. set (m := mkWork (write_back keep) [] (attempts w)).
  pose proof (retry_runs s0 t ts (λ n, replay n t) drained m (set_file (node_file t) (write_back keep) (store w)) (λ t', replayed_to t' w)) as Hr.
  rewrite set_file_twice in Hr. eapply alone_step; [apply Hr|constructor|done|].
  - by rewrite set_file_lookup.
  - apply (alone_step _ (mkHandoff (store w) (Draining t drained keep ts)) (Rewritten t) _ (λ t', replayed_to t' w));
      [|constructor|done|intros t'; by destruct (decide (t' = t))].
    eapply alone_step; [exact Ha|by econstructor|done|]. intros t'. by rewrite app_nil_r.
  - intros t'. rewrite app_nil_r. cbn [store replayed attempts]. rewrite replayed_to_app. done.
Qed.

Lemma tick_runs s0 live replay w :
  alone s0 (mkHandoff (store w) Waiting) (λ t, replayed_to t w) →
  alone s0 (mkHandoff (store (tick live replay w)) Waiting) (λ t, replayed_to t (tick live replay w)).
Proof.
  intros Ha. unfold tick. assert (Hv : ∀ ts w', alone s0 (mkHandoff (store w') (Visiting ts)) (λ t, replayed_to t w') →
    alone s0 (mkHandoff (store (foldl (visit_target live replay) w' ts)) (Visiting []))
      (λ t, replayed_to t (foldl (visit_target live replay) w' ts))).
  { induction ts as [|t ts IH]; intros w' Hw'; [done|]. cbn [foldl]. by apply IH, visit_runs. }
  eapply alone_step; [apply Hv|constructor|done|intros t; by rewrite app_nil_r].
  eapply alone_step; [exact Ha|constructor|done|]. intros t. by rewrite app_nil_r.
Qed.

(** C18: Hinted handoff.  However the worker and the handlers that record hints interleave,
    peers are down and replays fail, every hint recorded for a node is in its backlog, in
    the worker's hands, sent, or overwritten; overwritten are exactly those recorded after
    the worker had read that backlog and before it wrote it back, so that none is lost when
    nothing is recorded in that window.  As long as no replay to a node fails and nothing is
    overwritten, hints reach it in the order they were recorded.  A worker that is left
    alone delivers: a node that is live and accepts what it is sent receives its whole
    backlog within one tick per 128 hints.  An append and the writing back of a file are
    one step each. *)
Theorem hints_replayed steps w q :
  backlogs (store w) q →
  (∀ evs s', hrun (mkHandoff (store w) Waiting) evs s' → ∃ q', backlogs (files s') q' ∧ ∀ t, accounted q q' evs (position s') t) ∧
  ∃ q', backlogs (store (run steps w)) q' ∧
    (∀ t, q' t ++ replayed_to t (run steps w) ≡ₚ q t ++ replayed_to t w) ∧
    ∀ t, Forall (good_for t) steps → (length (q t) ≤ 128 * length steps)%nat →
      backlog_len t (store (run steps w)) = Ok 0%nat ∧ replayed_to t (run steps w) = replayed_to t w ++ q t.
Proof.
  intros Hq. split; [intros evs s' Hrun; destruct (handoff_run _ _ _ _ Hq Hrun) as (q' & Hq' & Hall); exists q'; split; [done|apply Hall]|].
  destruct (hints_run_ok steps w q Hq) as (q' & Hq' & Hp & Hg). exists q'. split_and!; [done|done|]. intros t Ht Hl.
  destruct (Hg t Ht) as [He Hl']. assert (Hnil : q' t = []) by (apply nil_length_inv; lia).
  specialize (Hq' t). rewrite Hnil in *. rewrite app_nil_r in He. split; [|done]. exact (backlog_len_holds _ _ Hq').
Qed.
End hints.

(** ** Read repair *)

Section read_repair.
Context {J : JsonLine ReadRepairIntent}.

(** [ReadRepairStore::append], [backlog_len] and [drain] on the file of the store. *)
Definition rr_append (i : ReadRepairIntent) : option bytes → option bytes := JsonLines.append i.
Definition rr_backlog_len : option bytes → outcome IoError nat := JsonLines.backlog_len.
Definition rr_drain (limit : nat) : ST (option bytes) IoError (list ReadRepairIntent) := drain limit.

(** One tick of the worker; [repair n i] answers the [n]th [repair_peer_value]. *)
Definition rr_tick (repair : nat → ReadRepairIntent → bool) (w : Work) : Work := work_tick repair 64 w.
End read_repair.

(** ** Evaluation *)

#[export] Instance hint_operation_eq : EqDecision HintOperation.
Proof. solve_decision. Defined.
#[export] Instance hint_record_eq : EqDecision HintRecord.
Proof. solve_decision. Defined.

#[export] Program Instance hint_operation_countable : Countable HintOperation :=
  inj_countable' (λ o, match o with
                       | Upsert v => inl (Some v) | Delete => inl None
                       | CreateIndex i f => inr (i, Some f) | DropIndex i => inr (i, None)
                       end)
    (λ x, match x with
          | inl (Some v) => Upsert v | inl None => Delete
          | inr (i, Some f) => CreateIndex i f | inr (i, None) => DropIndex i
          end) _.
Next Obligation. by intros []. Qed.

#[export] Program Instance hint_record_countable : Countable HintRecord :=
  inj_countable' (λ h, (created_at_unix h, tenant h, database h, collection h, key h, operation h, payload_json h))
    (λ '(c, t, d, o, k, p, j), mkHint c t d o k p j) _.
Next Obligation. by intros []. Qed.

Definition demo_hint (n : Z) : HintRecord :=
  mkHint n (str "t") (str "d") (str "c") (str "k") (Some (Upsert (str "1"))) None.

Definition demo_worker : Worker := let J := digits_json HintRecord in
  mkWorker (append (str "n") (demo_hint 2) (append (str "n") (demo_hint 1) ∅)) [] 0.

Lemma hints_replayed_witness :
  let J := digits_json HintRecord in
  backlog_len (str "n") (store demo_worker) = Ok 2%nat ∧
  replayed_to (str "n") (run [(λ _, true, λ _ _ _, true)] demo_worker) = [demo_hint 1; demo_hint 2].
Proof.
  intros J. split; [by vm_compute|].
  destruct (hints_replayed [(λ _, true, λ _ _ _, true)] demo_worker _
    (append_backlogs _ _ (str "n") (demo_hint 2) (append_backlogs _ _ (str "n") (demo_hint 1) empty_backlogs)))
    as [_ (q' & _ & _ & Hd)].
  apply (Hd (str "n")); [|vm_compute; lia]. by repeat constructor.
Defined.

(** A hint whose replay fails goes behind the hints recorded after it, so an older value
    of a key is sent after a newer one. *)
Lemma failed_hint_overtaken :
  let J := digits_json HintRecord in
  let w := tick (λ _, true) (λ n _ _, negb (Nat.eqb n 0)) demo_worker in
  replayed_to (str "n") (tick (λ _, true) (λ _ _ _, true) w) = [demo_hint 2; demo_hint 1].
Proof. vm_compute. reflexivity. Qed.

(** Draining reads the file and writes it back without a lock: a hint recorded in between
    is in neither the drained hints nor the file. *)
Lemma concurrent_hint_lost :
  let J := digits_json HintRecord in
  ∃ evs s', hrun (mkHandoff (append (str "n") (demo_hint 1) ∅) Waiting) evs s' ∧
    recorded (str "n") evs = [demo_hint 2] ∧ overwritten (str "n") evs = [demo_hint 2] ∧
    position s' = Replaying (str "n") [demo_hint 1] [] ∧ backlog_len (str "n") (files s') = Ok 0%nat.
Proof.
  intros J. set (d := append (str "n") (demo_hint 1) ∅).
  assert (Hts : list_targets d = [str "n"]) by (vm_compute; reflexivity).
  assert (Hb : d !! node_file (str "n") = Some (encode_line (demo_hint 1))) by (vm_compute; reflexivity).
  assert (Hdr : drain_lines 128 (lines (encode_line (demo_hint 1))) [] [] = Ok ([demo_hint 1], [])) by (vm_compute; reflexivity).
  exists ((((([] ++ [Moved]) ++ [BacklogRead (str "n")]) ++ [Recorded (str "n") (demo_hint 2)]) ++ [Rewritten (str "n")])),
    (mkHandoff (set_file (node_file (str "n")) (write_back []) (append (str "n") (demo_hint 2) d)) (Replaying (str "n") [demo_hint 1] [])). split.
  - eapply hrun_snoc; [|apply hs_rewrite]. eapply hrun_snoc; [|apply hs_record]. eapply hrun_snoc; [|by eapply hs_read].
    eapply hrun_snoc; [constructor|]. rewrite <- Hts. constructor.
  - split_and!; vm_compute; reflexivity.
Qed.
