(* ===== verification/Schema.v ===== *)
(** * The cluster schema (grumpydb-server/src/cluster/schema/, gossip.rs, coordinator.rs)

    Index definitions are spread by gossip: every node keeps a [SchemaState], a log of the
    entries it applied (schema/log.rs, one JSON object per line), and pulls the entries a
    peer has above its own version.  Conflicting entries are resolved by the greater HLC.
    [Node] gathers what the coordinator keeps of it: the state, the log file and the queue
    of the materializer. *)

From stdpp Require Import gmap sorting.
From S2P Require Import Prelude RustStd Crdt Mvcc JsonLines.

Local Open Scope Z_scope.

(** ** Data *)

Record IndexKey := mkIndexKey { ik_tenant : bytes; ik_database : bytes; ik_collection : bytes; ik_index_name : bytes }.

#[export] Instance index_key_eq : EqDecision IndexKey.
Proof. solve_decision. Defined.
#[export] Program Instance index_key_countable : Countable IndexKey :=
  inj_countable' (λ k, (ik_tenant k, ik_database k, ik_collection k, ik_index_name k)) (λ '(t, d, c, i), mkIndexKey t d c i) _.
Next Obligation. by intros []. Qed.

Record IndexEntry := mkEntry { field_path : bytes; last_modified_hlc : Z; tombstone : bool }.

Inductive SchemaOp :=
  | OpCreateIndex (key : IndexKey) (field_path : bytes)
  | OpDropIndex (key : IndexKey).

Definition op_key (op : SchemaOp) : IndexKey := match op with OpCreateIndex k _ | OpDropIndex k => k end.

Record SchemaLogEntry := mkLogEntry { le_version : Z; le_hlc : Z; le_op : SchemaOp }.

Abbreviation le_key e := (op_key (le_op e)).

(** [applied_log] is a [BTreeMap] from versions; the order of [indexes] is not observed. *)
Record SchemaState := mkSchema {
  version : Z;
  indexes : gmap IndexKey IndexEntry;
  applied_log : list (Z * SchemaLogEntry);
}.

Inductive ApplyOutcome := Applied | Stale | Duplicate.

#[export] Instance apply_outcome_eq : EqDecision ApplyOutcome.
Proof. solve_decision. Defined.
#[export] Instance schema_op_eq : EqDecision SchemaOp.
Proof. solve_decision. Defined.
#[export] Instance schema_log_entry_eq : EqDecision SchemaLogEntry.
Proof. solve_decision. Defined.

Implicit Types (s : SchemaState) (e : SchemaLogEntry) (k : IndexKey).

Definition schema_new : SchemaState := mkSchema 0 ∅ [].

Definition schema_len s : nat := size (indexes s).
Definition is_empty s : bool := bool_decide (indexes s = ∅).

Definition get k s : option IndexEntry :=
  match indexes s !! k with Some x => if tombstone x then None else Some x | None => None end.
Definition get_any k s : option IndexEntry := indexes s !! k.

Definition live_entries s : list (IndexKey * IndexEntry) :=
  filter (λ p, tombstone p.2 = false) (map_to_list (indexes s)).

Definition entry_matches (existing : IndexEntry) (op : SchemaOp) : bool :=
  match op with
  | OpCreateIndex _ path => negb (tombstone existing) && bool_decide (field_path existing = path)
  | OpDropIndex _ => tombstone existing
  end.

Definition insert_or_replace k e s : SchemaState :=
  let new_entry :=
    match le_op e with
    | OpCreateIndex _ path => mkEntry path (le_hlc e) false
    | OpDropIndex _ => mkEntry (default [] (field_path <$> indexes s !! k)) (le_hlc e) true
    end in
  mkSchema (version s) (<[k := new_entry]> (indexes s)) (applied_log s).

Definition apply e s : ApplyOutcome * SchemaState :=
  let key := le_key e in
  let '(outcome, s) :=
    match indexes s !! key with
    | None => (Applied, insert_or_replace key e s)
    | Some existing =>
        if decide (last_modified_hlc existing < le_hlc e) then (Applied, insert_or_replace key e s)
        else if bool_decide (le_hlc e = last_modified_hlc existing) && entry_matches existing (le_op e) then (Duplicate, s)
        else (Stale, s)
    end in
  let s := if decide (version s < le_version e) then mkSchema (le_version e) (indexes s) (applied_log s) else s in
  let s := if decide (outcome = Applied) then mkSchema (version s) (indexes s) (bt_insert (le_version e) e (applied_log s)) else s in
  (outcome, s).

Definition entries_since (since : Z) s : list SchemaLogEntry :=
  snd <$> filter (λ p, since < p.1) (applied_log s).

Definition next_version : ST SchemaState unit Z := λ s,
  if decide (version s < u64_max) then
    (Ok (version s + 1), mkSchema (version s + 1) (indexes s) (applied_log s))
  else (Panic, s).

(** ** The log file *)

Inductive SchemaLogError := LogIo (e : IoError) | Malformed (line : nat).

Section schema.
Context {J : JsonLine SchemaLogEntry}.

Fixpoint replay_lines (ls : list (option bytes)) (line_no : nat) s : outcome SchemaLogError SchemaState :=
  match ls with
  | [] => Ok s
  | None :: _ => Err (LogIo InvalidData)
  | Some l :: ls =>
      if is_blank l then replay_lines ls (S line_no) s
      else match from_json l with
           | Some e => replay_lines ls (S line_no) (apply e s).2
           | None => Err (Malformed line_no)
           end
  end.

Definition replay_into_state (b : bytes) : outcome SchemaLogError SchemaState := replay_lines (lines b) 1 schema_new.

(** The file that is open for appending, and the rebuilt state. *)
Definition log_open (f : option bytes) : outcome SchemaLogError (option bytes * SchemaState) :=
  match f with
  | Some b => s ← replay_into_state b; Ok (Some b, s)
  | None => Ok (Some [], schema_new)
  end.

Definition log_append e (f : option bytes) : option bytes := JsonLines.append e f.

Definition append_batch (entries : list SchemaLogEntry) (f : option bytes) : option bytes :=
  match entries with
  | [] => f
  | _ => Some (default [] f ++ concat (encode_line <$> entries))
  end.

(** ** Bootstrap from a data directory (schema/bootstrap.rs)

    A directory is the list of its entries; every directory is taken to be readable. *)

Inductive Fs := FsFile | FsDir (entries : list (bytes * Fs)).

Definition ENGINE_RESERVED_DIRS : list bytes := [str "_cluster"; str "_auth"].

Definition skipped (name : bytes) : bool :=
  bool_decide (head name = Some x2e) || bool_decide (name ∈ ENGINE_RESERVED_DIRS).

Definition visible_dirs (dir : list (bytes * Fs)) : list (bytes * list (bytes * Fs)) :=
  omap (λ '(name, x), match x with FsDir es => if skipped name then None else Some (name, es) | FsFile => None end) dir.

(** [name.strip_prefix("idx_").and_then(|s| s.strip_suffix(".idx"))] *)
Definition parse_index_filename (name : bytes) : option bytes :=
  if decide (take 4 name = str "idx_") then
    let s := drop 4 name in
    if decide (drop (length s - 4) s = str ".idx") then Some (take (length s - 4) s) else None
  else None.

(** The derived order of [IndexKey]: field by field. *)
Definition key_le k k' : bool :=
  match cmp (ik_tenant k) (ik_tenant k') with
  | Lt => true | Gt => false
  | Eq => match cmp (ik_database k) (ik_database k') with
          | Lt => true | Gt => false
          | Eq => match cmp (ik_collection k) (ik_collection k') with
                  | Lt => true | Gt => false
                  | Eq => kleb (ik_index_name k) (ik_index_name k')
                  end
          end
  end.

Definition found_le (a b : IndexKey * bytes) : Prop := key_le a.1 b.1 = true.
#[local] Instance found_le_dec a b : Decision (found_le a b) := decide (key_le a.1 b.1 = true).

Definition discover_indexes (data_dir : list (bytes * Fs)) : list (IndexKey * bytes) :=
  let found :=
    '(tenant, dbs) ← visible_dirs data_dir;
    '(database, colls) ← visible_dirs dbs;
    '(collection, files) ← visible_dirs colls;
    if bool_decide (str "data.db" ∈ files.*1) then
      fname ← files.*1;
      match parse_index_filename fname with
      | Some idx_name => [(mkIndexKey tenant database collection idx_name, idx_name)]
      | None => []
      end
    else [] in
  merge_sort found_le found.

Definition bootstrap_entries (found : list (IndexKey * bytes)) : list SchemaLogEntry :=
  imap (λ i p, mkLogEntry (Z.of_nat i + 1) 0 (OpCreateIndex p.1 p.2)) found.

Record BootstrapReport := mkReport { entries_written : nat; already_initialized : bool }.

Definition bootstrap_from_data_dir (data_dir : list (bytes * Fs)) (f : option bytes) : outcome SchemaLogError (BootstrapReport * option bytes) :=
  match f with
  | Some _ => Ok (mkReport 0 true, f)
  | None =>
      '(log, _) ← log_open f;
      let entries := bootstrap_entries (discover_indexes data_dir) in
      Ok (mkReport (length entries) false, append_batch entries log)
  end.

Definition load_state (f : option bytes) : outcome SchemaLogError SchemaState := '(_, s) ← log_open f; Ok s.

(** ** The coordinator's part *)

Inductive MaterializeJob := Build (key : IndexKey) (field_path : bytes) | DropJob (key : IndexKey).

Definition from_entry e : MaterializeJob :=
  match le_op e with OpCreateIndex k path => Build k path | OpDropIndex k => DropJob k end.

Record Node := mkNode { schema : SchemaState; schema_log : option bytes; jobs : list MaterializeJob }.
Implicit Types (n : Node).

Definition schema_version n : Z := version (schema n).
Definition local_schema_diff_since (since : Z) n : list SchemaLogEntry := entries_since since (schema n).

Fixpoint apply_each (entries : list SchemaLogEntry) s (to_persist : list SchemaLogEntry) : list SchemaLogEntry * SchemaState :=
  match entries with
  | [] => (to_persist, s)
  | e :: entries =>
      match apply e s with
      | (Applied, s) => apply_each entries s (to_persist ++ [e])
      | (_, s) => apply_each entries s to_persist
      end
  end.

Definition apply_remote_schema_entries (entries : list SchemaLogEntry) n : nat * Node :=
  let '(to_persist, s) := apply_each entries (schema n) [] in
  (length to_persist, mkNode s (append_batch to_persist (schema_log n)) (jobs n ++ (from_entry <$> to_persist))).

Definition apply_local_ddl (op : SchemaOp) (hlc : Z) : ST Node unit SchemaLogEntry := λ n,
  match next_version (schema n) with
  | (Ok version, s) =>
      let entry := mkLogEntry version hlc op in
      (Ok entry, mkNode (apply entry s).2 (log_append entry (schema_log n)) (jobs n ++ [from_entry entry]))
  | (Err x, s) => (Err x, mkNode s (schema_log n) (jobs n))
  | (Panic, s) => (Panic, mkNode s (schema_log n) (jobs n))
  end.

Definition apply_local_create_index (tenant database collection index_name path : bytes) (hlc : Z) : ST Node unit SchemaLogEntry :=
  apply_local_ddl (OpCreateIndex (mkIndexKey tenant database collection index_name) path) hlc.
Definition apply_local_drop_index (tenant database collection index_name : bytes) (hlc : Z) : ST Node unit SchemaLogEntry :=
  apply_local_ddl (OpDropIndex (mkIndexKey tenant database collection index_name)) hlc.

(** [pull] is the answer of [pull_schema_from_peer]; [response_version] comes with the
    answer to the probe. *)
Definition maybe_pull_schema (response_version : Z) (pull : Z → option (list SchemaLogEntry)) n : Node :=
  let local_version := schema_version n in
  if decide (response_version ≤ local_version) then n
  else match pull local_version with
       | Some entries => (apply_remote_schema_entries entries n).2
       | None => n
       end.

(** A pull from a peer that answers at once. *)
Definition pull_from (peer : Node) n : Node :=
  maybe_pull_schema (schema_version peer) (λ since, Some (local_schema_diff_since since peer)) n.

Definition schema_has_index (tenant database collection index_name : bytes) n : bool :=
  bool_decide (is_Some (get (mkIndexKey tenant database collection index_name) (schema n))).
End schema.
