(* ===== verification/SchemaSpec.v ===== *)
(** * Convergence of the cluster schema

    What a node believes of an index is its [view]: the HLC of the last change and the
    field path, or that it was dropped; a tombstone also remembers a path, which depends
    on the order of arrival and is not part of it.  States are compared by [≡]: the same
    version and the same views. *)

From stdpp Require Import gmap.
From S2P Require Import Prelude RustStd Crdt Mvcc JsonLines Schema.

Local Open Scope Z_scope.

Implicit Types (s : SchemaState) (e : SchemaLogEntry) (k : IndexKey).

(** ** Views *)

Definition view (x : IndexEntry) : Z * option bytes :=
  (last_modified_hlc x, if tombstone x then None else Some (field_path x)).

Definition op_view (op : SchemaOp) : option bytes :=
  match op with OpCreateIndex _ path => Some path | OpDropIndex _ => None end.

Definition entry_view e : Z * option bytes := (le_hlc e, op_view (le_op e)).

Definition view_of s k : option (Z * option bytes) := view <$> indexes s !! k.

#[export] Instance schema_equiv : Equiv SchemaState := λ s s', version s = version s' ∧ ∀ k, view_of s k = view_of s' k.

#[export] Instance schema_equivalence : Equivalence (≡@{SchemaState}).
Proof.
  split; [by split|intros s s' [H1 H2]; split; [done|intros k; by rewrite H2]|].
  intros s1 s2 s3 [H1 H2] [H3 H4]. split; [congruence|]. intros k. by rewrite H2.
Qed.

(** What [get] returns, without the HLC. *)
Lemma get_view s k : field_path <$> get k s = view_of s k ≫= snd.
Proof. unfold get, view_of, view. destruct (indexes s !! k) as [x|]; [|done]. cbn. by destruct (tombstone x). Qed.

#[export] Instance get_proper k : Proper ((≡) ==> (=)) (λ s, field_path <$> get k s).
Proof. intros s s' [_ Hv]. by rewrite !get_view, Hv. Qed.

(** Last writer wins, on views. *)
Definition lww (old : option (Z * option bytes)) e : option (Z * option bytes) :=
  match old with
  | Some v => if decide (v.1 < le_hlc e) then Some (entry_view e) else Some v
  | None => Some (entry_view e)
  end.

Lemma view_insert_or_replace e s :
  view_of (insert_or_replace (le_key e) e s) (le_key e) = Some (entry_view e).
Proof. unfold view_of, insert_or_replace, entry_view, view. cbn [indexes]. rewrite lookup_insert_eq. by destruct (le_op e). Qed.

Lemma apply_version e s : version (apply e s).2 = Z.max (version s) (le_version e).
Proof.
  unfold apply, insert_or_replace.
  destruct (indexes s !! le_key e); repeat case_decide; repeat case_match; simplify_eq; cbn in *; try done; lia.
Qed.

Lemma apply_indexes e s :
  indexes (apply e s).2 = if decide ((apply e s).1 = Applied) then indexes (insert_or_replace (le_key e) e s) else indexes s.
Proof.
  unfold apply. destruct (indexes s !! le_key e); repeat case_decide; repeat case_match; simplify_eq; cbn in *; done.
Qed.

Lemma matches_view x e :
  bool_decide (le_hlc e = last_modified_hlc x) && entry_matches x (le_op e) = bool_decide (view x = entry_view e).
Proof.
  unfold view, entry_view, entry_matches, op_view. destruct x as [p h t], (le_op e), t; cbn; repeat case_bool_decide; naive_solver.
Qed.

Lemma apply_outcome e s :
  (apply e s).1 = match view_of s (le_key e) with
                  | None => Applied
                  | Some v => if decide (v.1 < le_hlc e) then Applied
                              else if decide (v = entry_view e) then Duplicate else Stale
                  end.
Proof.
  unfold apply, view_of. destruct (indexes s !! le_key e) as [x|] eqn:Hx; [|done]. cbn [fmap option_fmap option_map].
  change (view x).1 with (last_modified_hlc x). case_decide as Hlt; [done|].
  rewrite matches_view. case_bool_decide as Hv; cbn [fst]; [by rewrite (decide_True _ _ Hv)|by rewrite (decide_False _ _ Hv)].
Qed.

Lemma apply_view e s k : view_of (apply e s).2 k = if decide (le_key e = k) then lww (view_of s k) e else view_of s k.
Proof.
  unfold view_of at 1. rewrite apply_indexes, apply_outcome. destruct (decide (le_key e = k)) as [Hk|Hk].
  - subst k. unfold lww. destruct (view_of s (le_key e)) as [v|] eqn:Hv; [|apply view_insert_or_replace].
    repeat (case_decide || case_match); simplify_eq; try done; apply view_insert_or_replace.
  - case_match; [|done]. unfold insert_or_replace. cbn [indexes]. by rewrite lookup_insert_ne.
Qed.

#[export] Instance apply_proper e : Proper ((≡) ==> (≡)) (λ s, (apply e s).2).
Proof. intros s s' [Hv Hk]. split; [by rewrite !apply_version, Hv|]. intros k. by rewrite !apply_view, Hk. Qed.

#[export] Instance apply_outcome_proper e : Proper ((≡) ==> (=)) (λ s, (apply e s).1).
Proof. intros s s' [_ Hk]. by rewrite !apply_outcome, Hk. Qed.

(** ** Convergence *)

Definition apply_all (es : list SchemaLogEntry) s : SchemaState := foldl (λ s e, (apply e s).2) s es.

(** No two different operations on one index carry the same HLC. *)
Definition distinct_hlcs (es : list SchemaLogEntry) : Prop :=
  ∀ e e', e ∈ es → e' ∈ es → le_key e = le_key e' → le_hlc e = le_hlc e' → le_op e = le_op e'.

Definition newest (es : list SchemaLogEntry) k (v : option (Z * option bytes)) : Prop :=
  match v with
  | None => ∀ e, e ∈ es → le_key e ≠ k
  | Some v => (∃ e, e ∈ es ∧ le_key e = k ∧ entry_view e = v) ∧ ∀ e, e ∈ es → le_key e = k → le_hlc e ≤ v.1
  end.

Lemma newest_snoc es k v e : newest es k v → newest (es ++ [e]) k (if decide (le_key e = k) then lww v e else v).
Proof.
  intros Hn. case_decide as Hk.
  - unfold lww. destruct v as [v|].
    + destruct Hn as [(e0 & He0 & Hk0 & Hv0) Hmax]. case_decide as Hlt; split.
      * exists e. set_solver.
      * intros e' [He'| ->%list_elem_of_singleton]%elem_of_app Hk'; [specialize (Hmax e' He' Hk')|]; cbn; lia.
      * exists e0. set_solver.
      * intros e' [He'| ->%list_elem_of_singleton]%elem_of_app Hk'; [by apply Hmax|lia].
    + cbn in Hn. split; [exists e; set_solver|].
      intros e' [He'| ->%list_elem_of_singleton]%elem_of_app Hk'; [by apply Hn in He'|done].
  - destruct v as [v|]; cbn in *.
    + destruct Hn as [(e0 & He0 & Hk0 & Hv0) Hmax]. split; [exists e0; set_solver|].
      intros e' [He'| ->%list_elem_of_singleton]%elem_of_app Hk'; [by apply Hmax|done].
    + intros e' [He'| ->%list_elem_of_singleton]%elem_of_app; [by apply Hn|done].
Qed.

Lemma apply_all_snoc es e s : apply_all (es ++ [e]) s = (apply e (apply_all es s)).2.
Proof. unfold apply_all. by rewrite foldl_app. Qed.

Lemma apply_all_newest es k : newest es k (view_of (apply_all es schema_new) k).
Proof.
  induction es as [|e es IH] using rev_ind.
  - unfold view_of. cbn [apply_all foldl schema_new indexes]. rewrite lookup_empty. intros e He. by apply not_elem_of_nil in He.
  - rewrite apply_all_snoc, apply_view. by apply newest_snoc.
Qed.

Lemma newest_unique es es' k v v' :
  (∀ e, e ∈ es ↔ e ∈ es') → distinct_hlcs es → newest es k v → newest es' k v' → v = v'.
Proof.
  intros Hes Hd Hv Hv'. destruct v as [v|], v' as [v'|]; [| | |done].
  - destruct Hv as [(e & He & Hk & Hev) Hm], Hv' as [(e' & He' & Hk' & Hev') Hm']. f_equal. subst v v'. apply Hes in He'.
    assert (le_hlc e' = le_hlc e) as Hh. { specialize (Hm e' He' Hk'). apply Hes in He. specialize (Hm' e He Hk). cbn in *. lia. }
    unfold entry_view. rewrite (Hd e e' He He'); congruence.
  - destruct Hv as [(e & He & Hk & _) _]. apply Hes in He. by apply Hv' in He.
  - destruct Hv' as [(e & He & Hk & _) _]. apply Hes in He. by apply Hv in He.
Qed.

Lemma apply_all_version es s : ∀ m, version (apply_all es s) ≤ m ↔ version s ≤ m ∧ ∀ e, e ∈ es → le_version e ≤ m.
Proof.
  intros m. induction es as [|e es IH] using rev_ind; [cbn; set_solver|].
  rewrite apply_all_snoc, apply_version, Z.max_lub_iff, IH. setoid_rewrite elem_of_app. setoid_rewrite list_elem_of_singleton.
  naive_solver.
Qed.

(** C21: The schema converges.  Nodes that received the same entries, in whatever order and
    however often, have the same version and, where no two operations on an index carry
    the same HLC, the same definition of every index: the one with the greatest HLC; the
    answers of [apply] and [get] depend on nothing else. *)
Theorem schema_converges es es' :
  (∀ e, e ∈ es ↔ e ∈ es') → distinct_hlcs es →
  apply_all es schema_new ≡ apply_all es' schema_new ∧
  (∀ k, newest es k (view_of (apply_all es schema_new) k)) ∧
  ∀ s s' e k, s ≡ s' → (apply e s).1 = (apply e s').1 ∧ (apply e s).2 ≡ (apply e s').2 ∧ field_path <$> get k s = field_path <$> get k s'.
Proof.
  intros Hes Hd. split; [split|split].
  - assert (Hle : ∀ a b, (∀ m : Z, a ≤ m ↔ b ≤ m) → a = b). { intros a b Hab. pose proof (proj1 (Hab a)). pose proof (proj2 (Hab b)). lia. }
    apply Hle. intros m. rewrite !apply_all_version. by setoid_rewrite Hes.
  - intros k. eapply newest_unique; [done|done|apply apply_all_newest..].
  - apply apply_all_newest.
  - intros s s' e k Hs. split_and!; [by apply apply_outcome_proper|by apply apply_proper|by apply get_proper].
Qed.

(** ** Restart *)

Section nodes.
Context {J : JsonLine SchemaLogEntry}.
Implicit Types (n peer : Node).

(** The same definitions and the same log of applied entries; the version may differ. *)
Definition same_defs s s' : Prop := indexes s = indexes s' ∧ applied_log s = applied_log s'.

Lemma apply_log e s :
  applied_log (apply e s).2 = if decide ((apply e s).1 = Applied) then bt_insert (le_version e) e (applied_log s) else applied_log s.
Proof.
  unfold apply, insert_or_replace. destruct (indexes s !! le_key e); repeat case_decide; repeat case_match; simplify_eq; cbn in *; done.
Qed.

Lemma apply_same e s s' : same_defs s s' → same_defs (apply e s).2 (apply e s').2 ∧ (apply e s).1 = (apply e s').1.
Proof.
  intros [Hi Hl]. assert (Ho : (apply e s).1 = (apply e s').1) by (rewrite !apply_outcome; unfold view_of; by rewrite Hi).
  split; [|done]. unfold same_defs. rewrite !apply_indexes, !apply_log, Ho, Hi, Hl. unfold insert_or_replace. by rewrite Hi.
Qed.

Lemma apply_skipped e s : (apply e s).1 ≠ Applied → same_defs (apply e s).2 s.
Proof. intros Ho. unfold same_defs. rewrite apply_indexes, apply_log. by rewrite !(decide_False _ _ Ho). Qed.

Lemma apply_all_same es s s' : same_defs s s' → same_defs (apply_all es s) (apply_all es s').
Proof. revert s s'. induction es as [|e es IH]; intros s s' H; [done|]. cbn. apply IH. by apply apply_same. Qed.

Lemma apply_all_app es es' s : apply_all (es ++ es') s = apply_all es' (apply_all es s).
Proof. unfold apply_all. by rewrite foldl_app. Qed.

Lemma apply_all_ge es s : version s ≤ version (apply_all es s).
Proof. apply (apply_all_version es s (version (apply_all es s))). lia. Qed.

Lemma apply_all_mono es s s' : version s ≤ version s' → version (apply_all es s) ≤ version (apply_all es s').
Proof.
  intros Hv. apply apply_all_version. split; [pose proof (apply_all_ge es s'); lia|].
  intros e He. exact (proj2 (proj1 (apply_all_version es s' _) (Z.le_refl _)) e He).
Qed.

(** The entries that a batch persists are those that changed the state. *)
Lemma apply_each_ok es s tp :
  ∃ applied, apply_each es s tp = (tp ++ applied, apply_all es s) ∧
    same_defs (apply_all applied s) (apply_all es s) ∧ version (apply_all applied s) ≤ version (apply_all es s).
Proof.
  revert s tp. induction es as [|e es IH]; intros s tp; cbn [apply_each].
  - exists []. by rewrite app_nil_r.
  - destruct (apply e s) as [o s1] eqn:He. assert (H1 : s1 = (apply e s).2) by (by rewrite He).
    destruct (decide (o = Applied)) as [->|Ho].
    + destruct (IH s1 (tp ++ [e])) as (ap & -> & Hs & Hv). exists (e :: ap). rewrite <- app_assoc. subst s1. done.
    + destruct (IH s1 tp) as (ap & Heq & Hs & Hv). exists ap. destruct o; [done|..]; rewrite Heq; subst s1;
        (split_and!; [done| |]; cbn [apply_all foldl]).
      1, 3: assert (same_defs s (apply e s).2) as Hsk by (split; symmetry; apply apply_skipped; by rewrite He);
        destruct (apply_all_same ap _ _ Hsk) as [Ha Hb], Hs as [Hc Hd]; split; [by rewrite Ha, Hc|by rewrite Hb, Hd].
      1, 2: etrans; [|exact Hv]; apply apply_all_mono; rewrite apply_version; lia.
Qed.

Lemma replay_encoded es line s : replay_lines (Some ∘ to_json <$> es) line s = Ok (apply_all es s).
Proof.
  revert line s. induction es as [|e es IH]; intros line s; [done|]. cbn [fmap list_fmap replay_lines compose].
  by rewrite json_not_blank, from_to_json, IH.
Qed.

Lemma open_holds f es : holds f es → ∃ f', log_open f = Ok (f', apply_all es schema_new) ∧ holds f' es.
Proof.
  intros Hf. unfold log_open. destruct f as [b|].
  - pose proof Hf as Hb. unfold holds in Hb. cbn in Hb. subst b. unfold replay_into_state. rewrite lines_encoded, replay_encoded. by eexists.
  - pose proof (backlog_len_holds None es Hf) as Hl. injection Hl as Hl. destruct es; [|done]. by eexists.
Qed.

Lemma batch_holds es f xs : holds f xs → holds (append_batch es f) (xs ++ es).
Proof.
  unfold holds, append_batch. intros Hf. destruct es as [|e es]; [by rewrite app_nil_r|].
  cbn [default from_option id]. by rewrite Hf, fmap_app, concat_app.
Qed.

Lemma bootstrap_holds dir rep f :
  bootstrap_from_data_dir dir None = Ok (rep, f) → holds f (bootstrap_entries (discover_indexes dir)) ∧ entries_written rep = length (discover_indexes dir).
Proof. unfold bootstrap_from_data_dir. cbn. intros [= <- <-]. split; [by apply (batch_holds _ (Some []) [])|apply length_imap]. Qed.

(** Bootstrapped definitions carry HLC 0, so any statement of a node supersedes them. *)
Lemma bootstrap_superseded dir rep f e :
  bootstrap_from_data_dir dir None = Ok (rep, f) → 0 < le_hlc e →
  ∃ s, load_state f = Ok s ∧ (apply e s).1 = Applied.
Proof.
  intros Hb Hh. destruct (bootstrap_holds _ _ _ Hb) as [Hf _]. destruct (open_holds _ _ Hf) as (f' & Ho & _).
  eexists. unfold load_state. rewrite Ho. split; [done|]. rewrite apply_outcome.
  pose proof (apply_all_newest (bootstrap_entries (discover_indexes dir)) (le_key e)) as Hn. destruct (view_of _ _) as [v|]; [|done].
  destruct Hn as [(e0 & He0 & _ & <-) _]. unfold bootstrap_entries in He0. apply elem_of_lookup_imap in He0 as (i & p & -> & _).
  by rewrite decide_True by done.
Qed.

(** What happens to a node: a batch of entries from a peer, a local DDL statement, a
    restart from the log. *)
Inductive node_step : Node → Node → Prop :=
  | step_remote n entries : node_step n (apply_remote_schema_entries entries n).2
  | step_ddl n op hlc e n' : apply_local_ddl op hlc n = (Ok e, n') → node_step n n'
  | step_restart n f s : log_open (schema_log n) = Ok (f, s) → node_step n (mkNode s f []).

(** The log holds entries that rebuild the state. *)
Definition logged n : Prop :=
  ∃ es, holds (schema_log n) es ∧ same_defs (apply_all es schema_new) (schema n) ∧
    version (apply_all es schema_new) ≤ version (schema n).

Lemma remote_logged n entries : logged n → logged (apply_remote_schema_entries entries n).2.
Proof.
  intros (es & Hh & Hs & Hv). unfold apply_remote_schema_entries.
  destruct (apply_each_ok entries (schema n) []) as (ap & -> & Has & Hav). cbn [app snd].
  exists (es ++ ap). cbn [schema_log schema]. rewrite apply_all_app. split_and!; [by apply batch_holds| |].
  - destruct (apply_all_same ap _ _ Hs) as [Ha Hb], Has as [Hc Hd]. split; [by rewrite Ha, Hc|by rewrite Hb, Hd].
  - etrans; [|exact Hav]. by apply apply_all_mono.
Qed.

Lemma ddl_logged n op hlc e n' : apply_local_ddl op hlc n = (Ok e, n') → logged n → logged n'.
Proof.
  unfold apply_local_ddl, next_version. intros Hd (es & Hh & [Hi Hl] & Hv). case_decide; [|done]. cbn [version] in Hd. injection Hd as <- <-.
  set (e := mkLogEntry _ _ _). exists (es ++ [e]). cbn [schema schema_log]. rewrite apply_all_snoc. split_and!; [by apply append_holds| |].
  - by apply apply_same.
  - rewrite !apply_version. cbn [version e le_version]. lia.
Qed.

Lemma reachable_logged n : rtc node_step (mkNode schema_new None []) n → logged n.
Proof.
  intros Hr. remember (mkNode schema_new None []) as n0 eqn:Hn. assert (H0 : logged n0).
  { subst n0. exists []. split_and!; [done|done|done]. }
  clear Hn. induction Hr as [n|n1 n2 n3 Hstep _ IH]; [done|]. apply IH. clear IH. destruct Hstep as [n entries|n op hlc e n' Hd|n f s Ho].
  - by apply remote_logged.
  - by eapply ddl_logged.
  - destruct H0 as (es & Hh & _). destruct (open_holds _ _ Hh) as (f' & Ho' & Hf'). rewrite Ho' in Ho. injection Ho as <- <-.
    exists es. by split_and!.
Qed.

(** A restart forgets no index.  Whatever batches, statements and restarts a node went
    through, its log can be opened, and the state rebuilt from it has the definitions and
    the applied entries the node had. *)
Theorem schema_restart n :
  rtc node_step (mkNode schema_new None []) n →
  ∃ f s, log_open (schema_log n) = Ok (f, s) ∧ indexes s = indexes (schema n) ∧ applied_log s = applied_log (schema n) ∧
    version s ≤ version (schema n).
Proof.
  intros Hr. destruct (reachable_logged n Hr) as (es & Hh & [Hi Hl] & Hv).
  destruct (open_holds _ _ Hh) as (f & Ho & _). exists f, (apply_all es schema_new). done.
Qed.

(** ** Gossip with one node issuing DDL *)

(** The statements of one node, in order: versions count from 1, HLCs increase. *)
Record history (H : list SchemaLogEntry) : Prop := {
  hist_version : ∀ i e, H !! i = Some e → le_version e = Z.of_nat i + 1;
  hist_hlc : ∀ i j e e', (i < j)%nat → H !! i = Some e → H !! j = Some e' → le_hlc e < le_hlc e';
}.

Lemma history_snoc H e : history (H ++ [e]) → history H ∧ le_version e = Z.of_nat (length H) + 1 ∧ ∀ e', e' ∈ H → le_hlc e' < le_hlc e.
Proof.
  intros [Hv Hh]. assert (He : (H ++ [e]) !! length H = Some e) by (by rewrite lookup_app_r, Nat.sub_diag).
  assert (Hl : ∀ i x, H !! i = Some x → (H ++ [e]) !! i = Some x) by (intros; by apply lookup_app_l_Some). split_and!.
  - constructor; [eauto|]. intros i j x y Hij Hi Hj. by eapply (Hh i j); eauto.
  - by apply Hv.
  - intros x [i Hi]%list_elem_of_lookup. eapply (Hh i (length H)); eauto. by eapply lookup_lt_Some.
Qed.

Lemma history_take H i : history H → history (take i H).
Proof.
  intros [Hv Hh]. constructor.
  - intros j e [Hj _]%lookup_take_Some. eauto.
  - intros j j' e e' Hjj [Hj _]%lookup_take_Some [Hj' _]%lookup_take_Some. by eapply (Hh j j').
Qed.

Lemma history_applied H e : history (H ++ [e]) → (apply e (apply_all H schema_new)).1 = Applied.
Proof.
  intros (_ & _ & Hh)%history_snoc. rewrite apply_outcome. pose proof (apply_all_newest H (le_key e)) as Hn.
  destruct (view_of _ _) as [v|]; [|done]. destruct Hn as [(e0 & He0 & Hk & <-) _]. cbn. by rewrite decide_True by (by apply Hh).
Qed.

Lemma history_state H : history H →
  version (apply_all H schema_new) = Z.of_nat (length H) ∧ applied_log (apply_all H schema_new) = (λ e, (le_version e, e)) <$> H.
Proof.
  induction H as [|e H IH] using rev_ind; [done|]. intros Hh. pose proof (history_snoc _ _ Hh) as (Hh1 & Hv & _).
  destruct (IH Hh1) as [IH1 IH2]. rewrite apply_all_snoc, apply_version, apply_log, history_applied by done.
  rewrite decide_True by done. rewrite IH1, IH2, length_app, fmap_app, Hv. cbn [length]. split; [lia|].
  rewrite bt_insert_last; [cbn [fmap list_fmap]; by rewrite Hv|]. apply Forall_fmap, Forall_lookup. intros i x Hi. cbn.
  assert (le_version x < Z.of_nat (length H) + 1); [|done]. rewrite (hist_version _ Hh1 i x Hi). apply lookup_lt_Some in Hi. lia.
Qed.

Lemma filter_versions H (m : nat) i : (∀ j e, H !! j = Some e → le_version e = Z.of_nat (m + j) + 1) → (m ≤ i)%nat →
  snd <$> filter (λ p, Z.of_nat i < p.1) ((λ e, (le_version e, e)) <$> H) = drop (i - m) H.
Proof.
  revert m. induction H as [|e H IH]; intros m Hv Hm; [by rewrite drop_nil|]. cbn [fmap list_fmap].
  pose proof (Hv 0%nat e eq_refl) as H0. assert (Ht : ∀ j x, H !! j = Some x → le_version x = Z.of_nat (S m + j) + 1).
  { intros j x Hj. rewrite (Hv (S j) x Hj). lia. }
  destruct (decide (i = m)) as [->|Hne].
  - rewrite Nat.sub_diag, filter_cons_True by (cbn; lia). cbn [fmap list_fmap snd drop]. f_equal. clear IH.
    assert (Hall : Forall (λ e, Z.of_nat m < le_version e) H) by (apply Forall_lookup; intros j x Hj; rewrite (Ht j x Hj); lia).
    clear -Hall. induction Hall as [|x H Hx _ IH]; [done|]. cbn [fmap list_fmap]. rewrite filter_cons_True by done. cbn. by f_equal.
  - rewrite filter_cons_False by (cbn; lia). replace (i - m)%nat with (S (i - S m)) by lia. cbn [drop]. apply IH; [done|lia].
Qed.

(** [n] has applied the first [i] statements. *)
Definition in_step (H : list SchemaLogEntry) n (i : nat) : Prop := schema n = apply_all (take i H) schema_new ∧ (i ≤ length H)%nat.

Lemma in_step_version H n i : history H → in_step H n i → schema_version n = Z.of_nat i.
Proof.
  intros Hh [Hs Hi]. unfold schema_version. rewrite Hs, (proj1 (history_state _ (history_take _ i Hh))), length_take. lia.
Qed.

Lemma in_step_diff H n i since : history H → in_step H n i → local_schema_diff_since (Z.of_nat since) n = drop since (take i H).
Proof.
  intros Hh [Hs Hi]. unfold local_schema_diff_since, entries_since. rewrite Hs, (proj2 (history_state _ (history_take _ i Hh))).
  rewrite (filter_versions _ 0) by (lia || apply history_take, Hh). by rewrite Nat.sub_0_r.
Qed.

Lemma apply_each_history H es tp : history (H ++ es) → apply_each es (apply_all H schema_new) tp = (tp ++ es, apply_all (H ++ es) schema_new).
Proof.
  revert H tp. induction es as [|e es IH]; intros H tp Hh; cbn [apply_each]; [by rewrite !app_nil_r|].
  rewrite cons_middle, app_assoc in Hh. assert (Hh1 : history (H ++ [e])).
  { replace (H ++ [e]) with (take (length (H ++ [e])) ((H ++ [e]) ++ es)) by apply take_app_length. by apply history_take. }
  pose proof (history_applied H e Hh1) as Ho. destruct (apply e (apply_all H schema_new)) as [o s1] eqn:He. cbn in Ho. subst o.
  replace s1 with (apply_all (H ++ [e]) schema_new) by (by rewrite apply_all_snoc, He).
  rewrite IH by done. by rewrite <- !app_assoc.
Qed.

Lemma pull_ok H n peer i j : history H → in_step H n i → in_step H peer j →
  in_step H (pull_from peer n) (i `max` j) ∧ jobs (pull_from peer n) = jobs n ++ (from_entry <$> drop i (take j H)).
Proof.
  intros Hh Hn Hp. unfold pull_from, maybe_pull_schema. rewrite (in_step_version H n i), (in_step_version H peer j) by done.
  case_decide as Hij.
  - rewrite drop_ge by (rewrite length_take; lia). rewrite app_nil_r. by replace (i `max` j)%nat with i by lia.
  - rewrite (in_step_diff H peer j) by done. unfold apply_remote_schema_entries. destruct Hn as [Hs Hi]. rewrite Hs.
    assert (Hsplit : take i H ++ drop i (take j H) = take j H).
    { rewrite <- (take_drop i (take j H)) at 2. rewrite take_take. by replace (i `min` j)%nat with i by lia. }
    rewrite apply_each_history by (rewrite Hsplit; by apply history_take). rewrite Hsplit. cbn [app snd jobs].
    split; [|done]. split; [|destruct Hp; lia]. cbn [schema]. by replace (i `max` j)%nat with j by lia.
Qed.

Lemma pull_not_newer peer n : schema_version peer ≤ schema_version n → pull_from peer n = n.
Proof. intros Hv. unfold pull_from, maybe_pull_schema. by rewrite decide_True. Qed.

Lemma remote_in_step H : history H → in_step H (apply_remote_schema_entries H (mkNode schema_new None [])).2 (length H).
Proof.
  intros Hh. split; [|done]. unfold apply_remote_schema_entries. cbn [schema].
  pose proof (apply_each_history [] H [] Hh) as He. cbn [apply_all foldl app] in He. by rewrite He, take_ge by done.
Qed.

(** One tick of the gossip loop: every peer is probed in turn; [None] did not answer. *)
Definition gossip_tick (peers : list (option Node)) n : Node :=
  foldl (λ n p, match p with Some peer => pull_from peer n | None => n end) n peers.

Lemma gossip_tick_ok H n i peers : history H → in_step H n i → Forall (from_option (λ p, ∃ j, in_step H p j) True) peers →
  ∃ j, in_step H (gossip_tick peers n) j ∧ (i ≤ j)%nat ∧ jobs (gossip_tick peers n) = jobs n ++ (from_entry <$> drop i (take j H)) ∧
    ∀ p, Some p ∈ peers → in_step H p (length H) → j = length H.
Proof.
  intros Hh. revert n i. induction peers as [|[p|] peers IH]; intros n i Hn Hall; cbn [gossip_tick foldl].
  - exists i. split_and!; [done|done| |by intros p ?%not_elem_of_nil]. rewrite drop_ge by (rewrite length_take; lia). by rewrite app_nil_r.
  - apply Forall_cons in Hall as [[j Hj] Hall]. destruct (pull_ok H n p i j Hh Hn Hj) as [Hn1 Hjobs].
    destruct (IH _ _ Hn1 Hall) as (m & Hm & Hle & Hjobs2 & Hfull). exists m. split_and!; [done|lia| |].
    + fold (gossip_tick peers (pull_from p n)). rewrite Hjobs2, Hjobs, <- app_assoc, <- fmap_app. do 2 f_equal. destruct (decide (i ≤ j)%nat) as [Hij|Hij].
      * replace (i `max` j)%nat with j in * by lia. destruct Hm as [_ Hm].
        rewrite <- (take_drop j (take m H)) at 2. rewrite take_take. replace (j `min` m)%nat with j by lia.
        rewrite drop_app_le by (rewrite length_take; destruct Hj; lia). done.
      * replace (i `max` j)%nat with i by lia. rewrite drop_ge by (rewrite length_take; lia). done.
    + intros p' [Heq|Hin]%elem_of_cons Hf; [|by eapply Hfull]. injection Heq as ->. destruct Hm as [_ Hm], Hf as [Hf _], Hj as [Hj Hjl].
      assert (j = length H); [|lia]. pose proof (proj1 (history_state _ (history_take _ j Hh))) as H1.
      pose proof (proj1 (history_state _ (history_take _ (length H) Hh))) as H2. rewrite <- Hj, Hf, H2, !length_take in H1. lia.
  - apply Forall_cons in Hall as [_ Hall]. destruct (IH n i Hn Hall) as (m & Hm & Hle & Hjobs & Hfull). exists m. split_and!; [done|done|done|].
    intros p [?|Hin]%elem_of_cons; [done|]. by apply Hfull.
Qed.

(** Schema gossip delivers.  While one node issues the DDL, every node is at some point
    of its statements; a gossip tick never takes a node back, and one in which a node that
    is up to date answers, whichever others do or do not, leaves the node with exactly that
    peer's schema and with one materialization job for every statement it had missed. *)
Theorem schema_gossip_delivers H n i peers origin :
  history H → in_step H n i → Forall (from_option (λ p, ∃ j, in_step H p j) True) peers →
  in_step H origin (length H) → Some origin ∈ peers →
  schema (gossip_tick peers n) = schema origin ∧ jobs (gossip_tick peers n) = jobs n ++ (from_entry <$> drop i H).
Proof.
  intros Hh Hn Hall Ho Hin. destruct (gossip_tick_ok H n i peers Hh Hn Hall) as (j & [Hs _] & _ & Hjobs & Hfull).
  rewrite (Hfull origin Hin Ho) in *. destruct Ho as [Ho _]. split; [by rewrite Hs, Ho|]. by rewrite Hjobs, take_ge by done.
Qed.
End nodes.

(** ** Evaluation *)

#[export] Program Instance schema_op_countable : Countable SchemaOp :=
  inj_countable' (λ o, match o with OpCreateIndex k p => (k, Some p) | OpDropIndex k => (k, None) end)
    (λ x, match x with (k, Some p) => OpCreateIndex k p | (k, None) => OpDropIndex k end) _.
Next Obligation. by intros []. Qed.
#[export] Program Instance schema_log_entry_countable : Countable SchemaLogEntry :=
  inj_countable' (λ e, (le_version e, le_hlc e, le_op e)) (λ '(v, h, o), mkLogEntry v h o) _.
Next Obligation. by intros []. Qed.

Definition demo_index (name : bytes) : IndexKey := mkIndexKey (str "t") (str "d") (str "c") name.
Definition demo_create : SchemaLogEntry := mkLogEntry 1 10 (OpCreateIndex (demo_index (str "i")) (str "p")).
Definition demo_drop : SchemaLogEntry := mkLogEntry 2 20 (OpDropIndex (demo_index (str "i"))).
Definition fresh : Node := mkNode schema_new None [].

Lemma demo_distinct es : es ⊆ [demo_create; demo_drop] → distinct_hlcs es.
Proof.
  intros Hes e e' He%Hes He'%Hes. repeat (apply elem_of_cons in He as [->|He]); repeat (apply elem_of_cons in He' as [->|He']);
    try (by apply not_elem_of_nil in He); try (by apply not_elem_of_nil in He'); try done; intros _ Hh; by vm_compute in Hh.
Qed.

Lemma schema_converges_witness :
  view_of (apply_all [demo_drop; demo_create; demo_drop] schema_new) (demo_index (str "i")) = Some (20, None) ∧
  apply_all [demo_create; demo_drop] schema_new ≡ apply_all [demo_drop; demo_create; demo_drop] schema_new ∧
  field_path <$> indexes (apply_all [demo_create; demo_drop] schema_new) !! demo_index (str "i") = Some (str "p") ∧
  field_path <$> indexes (apply_all [demo_drop; demo_create] schema_new) !! demo_index (str "i") = Some [].
Proof.
  split_and!; [by vm_compute| |by vm_compute..].
  refine (proj1 (schema_converges [demo_create; demo_drop] [demo_drop; demo_create; demo_drop] _ (demo_distinct _ _))); [set_solver|done].
Defined.

Lemma schema_restart_witness :
  let J := digits_json SchemaLogEntry in
  let n := (apply_remote_schema_entries [demo_create; demo_create] fresh).2 in
  ∃ f s, log_open (schema_log n) = Ok (f, s) ∧ indexes s = indexes (schema n) ∧ applied_log s = applied_log (schema n) ∧ version s ≤ version (schema n).
Proof. intros J n. apply (schema_restart n). apply rtc_once. apply step_remote. Defined.

Lemma demo_history : history [demo_create; demo_drop].
Proof.
  constructor.
  - intros [|[|i]] e He; [by injection He as <-..|done].
  - intros [|[|i]] [|[|j]] e x Hij He Hx; try lia; try done. injection He as <-. by injection Hx as <-.
Qed.

Lemma schema_gossip_delivers_witness :
  let J := digits_json SchemaLogEntry in
  let origin := (apply_remote_schema_entries [demo_create; demo_drop] fresh).2 in
  schema (gossip_tick [None; Some origin] fresh) = schema origin ∧
  jobs (gossip_tick [None; Some origin] fresh) = [Build (demo_index (str "i")) (str "p"); DropJob (demo_index (str "i"))].
Proof.
  intros J origin. pose proof (remote_in_step _ demo_history) as Ho.
  refine (schema_gossip_delivers [demo_create; demo_drop] fresh 0 [None; Some origin] origin demo_history _ _ Ho _).
  - split; [done|cbn; lia].
  - repeat constructor. cbn. eauto.
  - by right; left.
Defined.

(** Two nodes that each issue a statement both reach version 1, and neither ever pulls
    from the other: their schemas stay different. *)
Lemma concurrent_ddl_not_exchanged :
  let J := digits_json SchemaLogEntry in
  let a := (apply_local_ddl (OpCreateIndex (demo_index (str "i")) (str "p")) 10 fresh).2 in
  let b := (apply_local_ddl (OpCreateIndex (demo_index (str "j")) (str "q")) 11 fresh).2 in
  pull_from a b = b ∧ pull_from b a = a ∧ ¬ schema a ≡ schema b.
Proof.
  intros J a b. split_and!; [apply pull_not_newer; by vm_compute..|]. intros [_ Hv]. specialize (Hv (demo_index (str "i"))). by vm_compute in Hv.
Qed.

(** A local statement stamped below the HLC of the index is logged and materialized, but
    the schema keeps the other definition. *)
Lemma local_ddl_ignored :
  let J := digits_json SchemaLogEntry in
  let n := (apply_remote_schema_entries [demo_create] fresh).2 in
  let '(r, n') := apply_local_ddl (OpDropIndex (demo_index (str "i"))) 5 n in
  field_path <$> get (demo_index (str "i")) (schema n') = Some (str "p") ∧ last (jobs n') = Some (DropJob (demo_index (str "i"))).
Proof. by vm_compute. Qed.

(** With equal HLCs the first entry to arrive wins, so two nodes end up apart. *)
Lemma equal_hlcs_diverge :
  let e := mkLogEntry 1 10 (OpCreateIndex (demo_index (str "i")) (str "p")) in
  let e' := mkLogEntry 1 10 (OpCreateIndex (demo_index (str "i")) (str "q")) in
  view_of (apply_all [e; e'] schema_new) (demo_index (str "i")) = Some (10, Some (str "p")) ∧
  view_of (apply_all [e'; e] schema_new) (demo_index (str "i")) = Some (10, Some (str "q")).
Proof. by vm_compute. Qed.
