(* ===== verification/Auth.v ===== *)
(** * Roles and sessions (grumpydb-server/src/auth/role.rs, session/mod.rs)

    Role assignments, the resources they cover and the check that every command passes
    before it is executed.  A JWT is decoded by code that is not modelled; a session holds
    the claims it carried. *)

From S2P Require Import Prelude RustStd Command.

Local Open Scope Z_scope.

(** ** auth/role.rs *)

Inductive RoleName := ServerAdmin | TenantAdmin | DbAdmin | ReadWrite | ReadOnly | ClusterPeer.

#[export] Instance role_name_eq : EqDecision RoleName.
Proof. solve_decision. Defined.

(** [Display] of a role; [from_str_name] reads it back. *)
Definition role_text (r : RoleName) : bytes :=
  str match r with
      | ServerAdmin => "server_admin" | TenantAdmin => "tenant_admin" | DbAdmin => "db_admin"
      | ReadWrite => "read_write" | ReadOnly => "read_only" | ClusterPeer => "cluster_peer"
      end.

Definition from_str_name (s : bytes) : option RoleName :=
  if decide (s = str "server_admin") then Some ServerAdmin
  else if decide (s = str "tenant_admin") then Some TenantAdmin
  else if decide (s = str "db_admin") then Some DbAdmin
  else if decide (s = str "read_write") then Some ReadWrite
  else if decide (s = str "read_only") then Some ReadOnly
  else if decide (s = str "cluster_peer") then Some ClusterPeer
  else None.

Inductive AuthAction := ARead | AWrite | AAdmin | AManageUsers | AManageDatabases | AManageServer | AReplicationPeer.

#[export] Instance auth_action_eq : EqDecision AuthAction.
Proof. solve_decision. Defined.

Definition permits_action (r : RoleName) (a : AuthAction) : bool :=
  match r with
  | ServerAdmin => bool_decide (a ≠ AReplicationPeer)
  | TenantAdmin => bool_decide (a ∉ [AManageServer; AReplicationPeer])
  | DbAdmin => bool_decide (a ∈ [ARead; AWrite; AAdmin])
  | ReadWrite => bool_decide (a ∈ [ARead; AWrite])
  | ReadOnly => bool_decide (a = ARead)
  | ClusterPeer => bool_decide (a = AReplicationPeer)
  end.

Definition is_cluster_peer_only (a : AuthAction) : bool := bool_decide (a = AReplicationPeer).

Inductive ResourceScope :=
  | SServer
  | STenant
  | SAllDatabases
  | SDatabase (name : chars)
  | SAllCollections (database : chars)
  | SCollection (database collection : chars).

#[export] Instance resource_scope_eq : EqDecision ResourceScope.
Proof. solve_decision. Defined.

Definition covers (s target : ResourceScope) : bool :=
  match s with
  | SServer => true
  | STenant => match target with SServer => false | _ => true end
  | SAllDatabases => match target with SServer | STenant => false | _ => true end
  | SDatabase name =>
      match target with
      | SDatabase t => bool_decide (name = t)
      | SAllCollections database | SCollection database _ => bool_decide (name = database)
      | _ => false
      end
  | SAllCollections database =>
      match target with
      | SAllCollections t | SCollection t _ => bool_decide (database = t)
      | _ => false
      end
  | SCollection database collection =>
      match target with
      | SCollection td tc => bool_decide (database = td) && bool_decide (collection = tc)
      | _ => false
      end
  end.

Record RoleAssignment := mkRole { role : RoleName; scope : ResourceScope }.

Definition permits (ra : RoleAssignment) (a : AuthAction) (target : ResourceScope) : bool :=
  permits_action (role ra) a && covers (scope ra) target.

(** ** session/mod.rs *)

(** The claims that authorization looks at. *)
Record Claims := mkClaims { sub : chars; tenant : chars; roles : list RoleAssignment }.

Inductive AuthError := NotAuthenticated | AccessDenied.

Record SessionContext := mkSession { claims : option Claims; current_db : option chars }.

Definition session_new : SessionContext := mkSession None None.
Definition set_claims (c : Claims) (s : SessionContext) : SessionContext := mkSession (Some c) (current_db s).
Definition set_database (name : chars) (s : SessionContext) : SessionContext := mkSession (claims s) (Some name).
Definition is_authenticated (s : SessionContext) : bool := bool_decide (is_Some (claims s)).
Definition session_tenant (s : SessionContext) : outcome AuthError chars := ok_or (tenant <$> claims s) NotAuthenticated.
Definition session_username (s : SessionContext) : outcome AuthError chars := ok_or (sub <$> claims s) NotAuthenticated.

Definition auth_action (a : Action) : option AuthAction :=
  match a with
  | Read => Some ARead | Write => Some AWrite | Admin => Some AAdmin
  | ManageUsers => Some AManageUsers | ManageDatabases => Some AManageDatabases
  | ManageServer | ManageCluster => Some AManageServer
  | Session => None
  end.

Definition auth_resource (r : Resource) : option ResourceScope :=
  match r with
  | RServer => Some SServer
  | RDatabase name => Some (SDatabase name)
  | RCollection db coll => Some (SCollection db coll)
  | RNone => None
  end.

Definition authorize (s : SessionContext) (command : Command) : outcome AuthError unit :=
  if is_pre_auth command then Ok tt
  else
    claims ← ok_or (claims s) NotAuthenticated;
    match auth_action (required_action command) with
    | None => Ok tt
    | Some action =>
        match auth_resource (target_resource (current_db s) command) with
        | None => Ok tt
        | Some resource => if existsb (λ ra, permits ra action resource) (roles claims) then Ok tt else Err AccessDenied
        end
    end.

(** ** What scopes cover *)

(** A scope covers a target exactly when it covers everything the target covers: [covers]
    is an order, from the server down to a collection. *)
Lemma covers_refl s : covers s s = true.
Proof. destruct s; cbn; rewrite ?bool_decide_eq_true_2 by done; done. Qed.

Lemma covers_trans s1 s2 s3 : covers s1 s2 = true → covers s2 s3 = true → covers s1 s3 = true.
Proof.
  destruct s1, s2, s3; cbn; rewrite ?andb_true_iff, ?bool_decide_eq_true; try done; intros; destruct_and?; subst; done.
Qed.

Lemma covers_antisym s1 s2 : covers s1 s2 = true → covers s2 s1 = true → s1 = s2.
Proof.
  destruct s1, s2; cbn; rewrite ?andb_true_iff, ?bool_decide_eq_true; try done; intros; destruct_and?; subst; done.
Qed.

#[export] Instance covers_order : PartialOrder (λ s t, covers s t = true).
Proof.
  split; [split|]; [exact covers_refl|intros s1 s2 s3; apply covers_trans|intros s1 s2; apply covers_antisym].
Qed.

Lemma from_role_text r : from_str_name (role_text r) = Some r.
Proof. by destruct r. Qed.

(** The database a resource lies in. *)
Definition within (d : chars) (t : ResourceScope) : Prop :=
  match t with SDatabase d' | SAllCollections d' | SCollection d' _ => d' = d | _ => False end.

Lemma covers_within d s t : within d s → covers s t = true → within d t.
Proof. destruct s, t; cbn; rewrite ?andb_true_iff, ?bool_decide_eq_true; naive_solver. Qed.

Lemma authorize_ok s c :
  authorize s c = Ok tt ↔
    is_pre_auth c = true ∨
    ∃ cl, claims s = Some cl ∧
      (required_action c = Session ∨ target_resource (current_db s) c = RNone ∨
       ∃ a t ra, auth_action (required_action c) = Some a ∧ auth_resource (target_resource (current_db s) c) = Some t ∧
         ra ∈ roles cl ∧ permits_action (role ra) a = true ∧ covers (scope ra) t = true).
Proof.
  unfold authorize. destruct (is_pre_auth c); [naive_solver|]. destruct (claims s) as [cl|]; [|naive_solver]. cbn [ok_or mbind outcome_bind].
  destruct (auth_action (required_action c)) as [a|] eqn:Ha.
  - destruct (auth_resource (target_resource (current_db s) c)) as [t|] eqn:Ht.
    + assert (Hns : required_action c ≠ Session) by (intros Hs; by rewrite Hs in Ha).
      assert (Hnn : target_resource (current_db s) c ≠ RNone) by (intros Hs; by rewrite Hs in Ht).
      destruct (existsb _ _) eqn:He.
      * split; [|done]. intros _. right. exists cl. split; [done|]. right; right. apply existsb_exists in He as (ra & Hra & Hp).
        apply andb_true_iff in Hp as [Hp Hc]. exists a, t, ra. rewrite list_elem_of_In. done.
      * split; [done|]. intros [?|(cl' & [= <-] & [?|[?|(a' & t' & ra & [= <-] & [= <-] & Hra & Hp & Hc)]])]; try done.
        exfalso. apply not_true_iff_false in He. apply He, existsb_exists. exists ra. rewrite <- list_elem_of_In. split; [done|].
        unfold permits. by rewrite Hp, Hc.
    + split; [|done]. intros _. right. exists cl. split; [done|]. right; left. by destruct (target_resource _ _).
  - split; [|done]. intros _. right. exists cl. split; [done|]. left. by destruct (required_action c).
Qed.

(** ** The policy

    Who may do what, command by command and without the tables of the code.  It is the
    permission matrix of docs/IMPLEMENTATION_PLAN_V3.md with the commands added since, and
    differs from it twice, as the code does: managing users takes a role on the whole server
    ([tenant_admin_no_users]), and LIST DATABASES takes no role ([list_databases_unchecked]). *)

(** Each role may do what the roles before it may; a cluster peer may do nothing here. *)
Definition rank (r : RoleName) : nat :=
  match r with ClusterPeer => 0 | ReadOnly => 1 | ReadWrite => 2 | DbAdmin => 3 | TenantAdmin => 4 | ServerAdmin => 5 end.

(** Scopes as paths from the server down: a scope reaches what lies below it. *)
Definition path (s : ResourceScope) : list chars :=
  match s with
  | SServer => []
  | STenant => [[]]
  | SAllDatabases => [[]; []]
  | SDatabase d => [[]; []; d]
  | SAllCollections d => [[]; []; d; []]
  | SCollection d c => [[]; []; d; []; c]
  end.

Inductive Need := Nothing | LoggedIn | Needs (least : RoleName) (place : ResourceScope).

Fixpoint policy (current : option chars) (c : Command) : Need :=
  let here coll := SCollection (default [] current) coll in
  let this := SDatabase (default [] current) in
  match c with
  | WithConsistency _ _ c => policy current c
  | Login _ _ _ | Token _ | Refresh _ | Ping | Quit => Nothing
  | WhoAmI | Topology | SnapshotHlc | SchemaVersion | SchemaStatus | Use _ | ListDatabases => LoggedIn
  | Get coll _ | Scan coll _ _ | Query coll _ _ | QueryRange coll _ _ _ | Count coll => Needs ReadOnly (here coll)
  | Insert coll _ _ | Update coll _ _ | Delete coll _ | PutWithVc coll _ _ _ => Needs ReadWrite (here coll)
  | CreateIndex coll _ _ | DropIndex coll _ | ListIndexes coll | Compact coll => Needs DbAdmin (here coll)
  | CreateCollection _ | DropCollection _ | ListCollections | Flush => Needs DbAdmin this
  | CreateDatabase d | DropDatabase d | SetDatabaseConsistency d _ _ | ResetDatabaseConsistency d | ShowDatabaseConsistency d => Needs TenantAdmin (SDatabase d)
  | CreateUser _ _ | DropUser _ | ListUsers _ | Grant _ _ _ | Revoke _ _ _ => Needs TenantAdmin SServer
  | CreateTenant _ | DropTenant _ | ListTenants
  | ElectWriter _ _ _ | PlanRebalanceAddNode _ | PlanRebalanceRemoveNode _ | ExecuteRebalanceAddNode _ _ | ExecuteRebalanceRemoveNode _ _ => Needs ServerAdmin SServer
  end.

(** What the policy decides for a session. *)
Definition decision (s : SessionContext) (c : Command) : outcome AuthError unit :=
  match policy (current_db s) c, claims s with
  | Nothing, _ => Ok tt
  | _, None => Err NotAuthenticated
  | LoggedIn, Some _ => Ok tt
  | Needs least place, Some cl =>
      if existsb (λ ra, (rank least <=? rank (role ra))%nat && bool_decide (path (scope ra) `prefix_of` path place)) (roles cl) then Ok tt else Err AccessDenied
  end.

Lemma prefix_cons_bool (x y : chars) (l k : list chars) : bool_decide (x :: l `prefix_of` y :: k) = bool_decide (x = y) && bool_decide (l `prefix_of` k).
Proof.
  destruct (decide (x = y)) as [->|Hxy].
  - rewrite (bool_decide_eq_true_2 (y = y)) by done. apply bool_decide_ext. split; [apply prefix_cons_inv_2|apply prefix_cons].
  - rewrite (bool_decide_eq_false_2 (x = y)) by done. apply bool_decide_eq_false_2. by intros ?%prefix_cons_inv_1.
Qed.

Lemma covers_path s t : covers s t = bool_decide (path s `prefix_of` path t).
Proof.
  assert (Hnil : ∀ k : list chars, bool_decide ([] `prefix_of` k) = true) by (intros k; apply bool_decide_eq_true_2, prefix_nil).
  assert (Hcons : ∀ (x : chars) l, bool_decide (x :: l `prefix_of` []) = false) by (intros x l; apply bool_decide_eq_false_2; by intros ?%prefix_nil_not).
  assert (Hsame : bool_decide (([] : chars) = []) = true) by done.
  destruct s, t; cbn [path covers]; rewrite ?prefix_cons_bool, ?Hnil, ?Hcons, ?Hsame; cbn [andb]; rewrite ?andb_true_r, ?andb_false_r; done.
Qed.

(** The tables of the code, seen through the policy. *)
Lemma policy_tables current c :
  match policy current c with
  | Nothing => is_pre_auth c = true
  | LoggedIn => is_pre_auth c = false ∧ (auth_action (required_action c) = None ∨ auth_resource (target_resource current c) = None)
  | Needs least place => is_pre_auth c = false ∧ auth_resource (target_resource current c) = Some place ∧
      ∃ a, auth_action (required_action c) = Some a ∧ ∀ r, permits_action r a = (rank least <=? rank r)%nat
  end.
Proof.
  induction c; cbn [policy]; try exact IHc; cbn; split_and?; try done; try (by left); try (by right);
    eexists; (split; [reflexivity|]); by intros [].
Qed.

Lemma authorize_decision s c : authorize s c = decision s c.
Proof.
  unfold authorize, decision. pose proof (policy_tables (current_db s) c) as Ht. destruct (policy (current_db s) c) as [| |least place].
  - by rewrite Ht.
  - destruct Ht as [-> Ht]. destruct (claims s) as [cl|]; [|done]. cbn [ok_or mbind outcome_bind]. destruct Ht as [-> | ->]; [done|]. by destruct (auth_action _).
  - destruct Ht as (-> & -> & a & -> & Hp). destruct (claims s) as [cl|]; [|done]. cbn [ok_or mbind outcome_bind].
    replace (existsb (λ ra, permits ra a place) (roles cl)) with
      (existsb (λ ra, (rank least <=? rank (role ra))%nat && bool_decide (path (scope ra) `prefix_of` path place)) (roles cl)); [done|].
    induction (roles cl) as [|ra l IH]; [done|]. cbn [existsb]. unfold permits at 1. by rewrite Hp, covers_path, IH.
Qed.

(** C23: Authorization follows one table.  Without a login exactly LOGIN, TOKEN, REFRESH,
    PING and QUIT pass.  With one, the session commands and LIST DATABASES pass;
    every other command passes exactly when the session has a role that is high enough for
    it, on a scope above the place it works on: reading a collection takes read_only,
    writing it read_write, its indexes and the collections of the current database
    db_admin, the database that is named tenant_admin, users tenant_admin on the whole
    server, tenants and the cluster server_admin on the whole server.  So roles inside one
    database pass nothing outside it, and a wider scope never permits less. *)
Theorem authorization_confined s c :
  authorize s c = decision s c ∧
  (∀ cl least place d, claims s = Some cl → authorize s c = Ok tt → policy (current_db s) c = Needs least place →
     Forall (λ ra, within d (scope ra)) (roles cl) → within d place) ∧
  (∀ cl cl', claims s = Some cl → Forall (λ ra, ∃ ra', ra' ∈ roles cl' ∧ role ra' = role ra ∧ covers (scope ra') (scope ra) = true) (roles cl) →
     authorize s c = Ok tt → authorize (set_claims cl' s) c = Ok tt).
Proof.
  split_and!.
  - apply authorize_decision.
  - intros cl least place d Hcl Ho Hn Hall. rewrite authorize_decision in Ho. unfold decision in Ho. rewrite Hn, Hcl in Ho.
    destruct (existsb _ _) eqn:He; [|done]. apply existsb_exists in He as (ra & Hra%list_elem_of_In & [_ Hp]%andb_true_iff).
    rewrite <- covers_path in Hp. rewrite Forall_forall in Hall. by eapply covers_within; [apply Hall|].
  - intros cl cl' Hcl Hw Ho%authorize_ok. apply authorize_ok. destruct Ho as [Hp|(cl0 & Hcl0 & Ho)]; [by left|]. right. exists cl'. split; [done|].
    destruct Ho as [Ho|[Ho|(a & t & ra & Ha & Ht & Hra & Hp & Hc)]]; [by left|by right; left|]. right; right.
    rewrite Hcl in Hcl0. injection Hcl0 as <-. rewrite Forall_forall in Hw. destruct (Hw ra Hra) as (ra' & Hra' & Hr & Hcov).
    exists a, t, ra'. rewrite Hr. split_and!; try done. by eapply covers_trans.
Qed.

(** A tenant administrator whose scope is the tenant may not manage users: these commands
    are checked against the whole server. *)
Lemma tenant_admin_no_users name password :
  let s := mkSession (Some (mkClaims [] [] [mkRole TenantAdmin STenant])) None in
  permits_action TenantAdmin AManageUsers = true ∧ authorize s (CreateUser name password) = Err AccessDenied.
Proof. done. Qed.

(** LIST DATABASES needs no role at all. *)
Lemma list_databases_unchecked name : authorize (mkSession (Some (mkClaims name [] [])) None) ListDatabases = Ok tt.
Proof. done. Qed.

Lemma authorization_confined_witness :
  let s := mkSession (Some (mkClaims [97] [116] [mkRole ReadOnly (SDatabase [100])])) (Some [100]) in
  let c := Get [99] [107] in
  authorize s c = Ok tt ∧ authorize s (Insert [99] [107] [49]) = Err AccessDenied ∧ within [100] (SCollection [100] [99]) ∧
  authorize (set_claims (mkClaims [97] [116] [mkRole ReadOnly STenant]) s) c = Ok tt.
Proof.
  intros s c. destruct (authorization_confined s c) as (_ & H2 & H3). split_and!; [done|done| |].
  - apply (H2 _ ReadOnly (SCollection [100] [99]) [100] eq_refl eq_refl eq_refl). by repeat constructor.
  - apply (H3 _ (mkClaims [97] [116] [mkRole ReadOnly STenant]) eq_refl); [|done].
    constructor; [|constructor]. exists (mkRole ReadOnly STenant). split_and!; [left|done|done].
Defined.
