(* ===== verification/Limits.v ===== *)
(** * Connection limits (grumpydb-server/src/limits.rs)

    Caps on open connections, globally and per address, and the back-off after failed
    logins.  Addresses are any countable type with a loopback test; instants are nanoseconds.
    The token bucket of the command rate is the [governor] crate and not modelled.

    Acquiring and releasing a connection take two atomic actions each, one on the global
    counter and one on the map of counts; connections of different threads interleave
    between them, which is what [conn_step] describes. *)

From stdpp Require Import gmap gmultiset.
From S2P Require Import Prelude RustStd.

Local Open Scope nat_scope.

Record LimitsConfig := mkLimitsConfig {
  failed_logins_per_min_per_ip : nat;
  max_conns_per_ip : nat;
  max_conns_global : nat;
  bypass_loopback : bool;
}.

Record FailedLoginState := mkFailed { count : nat; blocked_until : option Z }.

Inductive AcquireConnError := Global | PerIp.

Section limits.
Context {Ip : Type} `{Countable Ip} (is_loopback : Ip → bool).
Implicit Types (a : Ip).

Record Limits := mkLimits {
  cfg : LimitsConfig;
  conn_counts_per_ip : gmap Ip nat;
  global_conns : Z;
  failed_logins : gmap Ip FailedLoginState;
}.

Definition limits_new (c : LimitsConfig) : Limits := mkLimits c ∅ 0%Z ∅.

Definition with_counts m l : Limits := mkLimits (cfg l) m (global_conns l) (failed_logins l).
Definition with_global n l : Limits := mkLimits (cfg l) (conn_counts_per_ip l) n (failed_logins l).
Definition with_failed m l : Limits := mkLimits (cfg l) (conn_counts_per_ip l) (global_conns l) m.

Definition is_loopback_bypass l a : bool := bypass_loopback (cfg l) && is_loopback a.

(** ** Connections *)

(** The compare-and-exchange loop, at the iteration that succeeds. *)
Definition reserve_global l : option Limits :=
  if decide (Z.of_nat (max_conns_global (cfg l)) ≤ global_conns l)%Z then None else Some (with_global (global_conns l + 1) l).

(** Under the lock of the map: [entry(addr).or_insert(0)], refused at the cap. *)
Definition claim_ip a l : bool * Limits :=
  let entry := default 0 (conn_counts_per_ip l !! a) in
  if decide (max_conns_per_ip (cfg l) ≤ entry) then (false, with_counts (<[a := entry]> (conn_counts_per_ip l)) l)
  else (true, with_counts (<[a := S entry]> (conn_counts_per_ip l)) l).

(** [fetch_sub(1)] after a refused claim, which wraps around. *)
Definition roll_back l : Limits := with_global ((global_conns l - 1) mod 2 ^ 64) l.

Definition try_acquire_conn_with_reason a : ST Limits AcquireConnError unit := λ l,
  if is_loopback_bypass l a then (Ok tt, l)
  else match reserve_global l with
       | None => (Err Global, l)
       | Some l =>
           match claim_ip a l with
           | (true, l) => (Ok tt, l)
           | (false, l) => (Err PerIp, roll_back l)
           end
       end.

Definition try_acquire_conn a : ST Limits AcquireConnError bool := λ l,
  match try_acquire_conn_with_reason a l with
  | (Ok _, l) => (Ok true, l)
  | (_, l) => (Ok false, l)
  end.

(** The part of [release_conn] under the lock of the map. *)
Definition release_ip a l : Limits :=
  match conn_counts_per_ip l !! a with
  | Some c =>
      let c := c - 1 in
      with_counts (if decide (c = 0) then delete a (conn_counts_per_ip l) else <[a := c]> (conn_counts_per_ip l)) l
  | None => l
  end.

(** [fetch_update]: one less, unless it is zero. *)
Definition release_global l : Limits := with_global (if decide (global_conns l = 0)%Z then 0 else global_conns l - 1)%Z l.

Definition release_conn a l : Limits := release_global (release_ip a l).

(** ** Failed logins, at the instant [now] *)

Definition login_backoff (now : Z) a l : option Z * Limits :=
  if is_loopback_bypass l a then (None, l)
  else match failed_logins l !! a with
       | Some (mkFailed n (Some deadline)) =>
           if decide (now < deadline)%Z then (Some (deadline - now)%Z, l)
           else (None, with_failed (<[a := mkFailed n None]> (failed_logins l)) l)
       | _ => (None, l)
       end.

(** [u32::saturating_add] *)
Definition bump (n : nat) : nat := if decide (Z.of_nat n < 4294967295)%Z then S n else n.

(** [(1u64 << over.min(6)).min(60)] *)
Definition backoff_secs (over : nat) : Z := Z.min (Z.shiftl 1 (Z.of_nat (over `min` 6))) 60.

Definition record_failed_login (now : Z) a l : Limits :=
  if is_loopback_bypass l a then l
  else
    let s := default (mkFailed 0 None) (failed_logins l !! a) in
    let n := bump (count s) in
    let blocked :=
      if decide (failed_logins_per_min_per_ip (cfg l) ≤ n) then
        let over := n - failed_logins_per_min_per_ip (cfg l) in
        Some (now + backoff_secs over * 1000000000)%Z
      else blocked_until s in
    with_failed (<[a := mkFailed n blocked]> (failed_logins l)) l.

Definition record_successful_login a l : Limits := with_failed (delete a (failed_logins l)) l.

(** ** Interleavings *)

(** The counters, with the connections between the two actions of an acquire
    ([reserved], [refused]), open, or between the two actions of a release ([closing]); and
    the loopback connections that bypass the limits: open, between the two actions of their
    release, and how many were released in all. *)
Record Conns := mkConns {
  lim : Limits;
  reserved : gmultiset Ip;
  refused : nat;
  opened : gmultiset Ip;
  closing : nat;
  locals : gmultiset Ip;
  leaving : nat;
  given : nat;
}.

Inductive conn_step : Conns → Conns → Prop :=
  | step_reserve a s l :
      is_loopback_bypass (lim s) a = false → reserve_global (lim s) = Some l →
      conn_step s (mkConns l ({[+ a +]} ⊎ reserved s) (refused s) (opened s) (closing s) (locals s) (leaving s) (given s))
  | step_claim a s l :
      a ∈ reserved s → claim_ip a (lim s) = (true, l) →
      conn_step s (mkConns l (reserved s ∖ {[+ a +]}) (refused s) ({[+ a +]} ⊎ opened s) (closing s) (locals s) (leaving s) (given s))
  | step_refuse a s l :
      a ∈ reserved s → claim_ip a (lim s) = (false, l) →
      conn_step s (mkConns l (reserved s ∖ {[+ a +]}) (S (refused s)) (opened s) (closing s) (locals s) (leaving s) (given s))
  | step_roll_back s n :
      refused s = S n → conn_step s (mkConns (roll_back (lim s)) (reserved s) n (opened s) (closing s) (locals s) (leaving s) (given s))
  | step_release_ip a s :
      a ∈ opened s →
      conn_step s (mkConns (release_ip a (lim s)) (reserved s) (refused s) (opened s ∖ {[+ a +]}) (S (closing s)) (locals s) (leaving s) (given s))
  | step_release_global s n :
      closing s = S n → conn_step s (mkConns (release_global (lim s)) (reserved s) (refused s) (opened s) n (locals s) (leaving s) (given s))
  | step_bypass a s :
      is_loopback_bypass (lim s) a = true →
      conn_step s (mkConns (lim s) (reserved s) (refused s) (opened s) (closing s) ({[+ a +]} ⊎ locals s) (leaving s) (given s))
  | step_local_release_ip a s :
      a ∈ locals s →
      conn_step s (mkConns (release_ip a (lim s)) (reserved s) (refused s) (opened s) (closing s) (locals s ∖ {[+ a +]}) (S (leaving s)) (given s))
  | step_local_release_global s n :
      leaving s = S n →
      conn_step s (mkConns (release_global (lim s)) (reserved s) (refused s) (opened s) (closing s) (locals s) n (S (given s))).

(** The connections that took a slot of the global counter. *)
Definition holding (s : Conns) : nat := size (reserved s) + refused s + size (opened s) + closing s.

Record conns_inv (s : Conns) : Prop := {
  ci_counts : ∀ a, default 0 (conn_counts_per_ip (lim s) !! a) = multiplicity a (opened s);
  ci_ip : ∀ a, multiplicity a (opened s) ≤ max_conns_per_ip (cfg (lim s));
  ci_remote : ∀ a, a ∈ reserved s ∨ a ∈ opened s → is_loopback_bypass (lim s) a = false;
  ci_local : ∀ a, a ∈ locals s → is_loopback_bypass (lim s) a = true;
  ci_usize : (0 ≤ global_conns (lim s) < 2 ^ 64)%Z;
  ci_holding : (Z.of_nat (holding s) ≤ global_conns (lim s) + Z.of_nat (given s))%Z;
  ci_max : holding s ≤ max_conns_global (cfg (lim s)) + given s;
  ci_exact : given s = 0 → global_conns (lim s) = Z.of_nat (holding s);
}.

Lemma size_remove (m : gmultiset Ip) a : a ∈ m → size m = S (size (m ∖ {[+ a +]})).
Proof.
  intros Ha. rewrite (gmultiset_disj_union_difference' a m Ha) at 1. rewrite gmultiset_size_disj_union, gmultiset_size_singleton. done.
Qed.

Lemma size_add (m : gmultiset Ip) a : size ({[+ a +]} ⊎ m) = S (size m).
Proof. by rewrite gmultiset_size_disj_union, gmultiset_size_singleton. Qed.

Lemma multiplicity_remove (m : gmultiset Ip) a b :
  multiplicity b (m ∖ {[+ a +]}) = if decide (b = a) then multiplicity b m - 1 else multiplicity b m.
Proof. rewrite multiplicity_difference, multiplicity_singleton. case_decide; lia. Qed.

Lemma multiplicity_add (m : gmultiset Ip) a b :
  multiplicity b ({[+ a +]} ⊎ m) = if decide (b = a) then S (multiplicity b m) else multiplicity b m.
Proof. rewrite multiplicity_disj_union, multiplicity_singleton. case_decide; lia. Qed.

Lemma elem_of_remove (m : gmultiset Ip) a b : b ∈ m ∖ {[+ a +]} → b ∈ m.
Proof. rewrite !elem_of_multiplicity, multiplicity_remove. case_decide; lia. Qed.

Lemma elem_of_add (m : gmultiset Ip) a b : b ∈ {[+ a +]} ⊎ m → b = a ∨ b ∈ m.
Proof. rewrite gmultiset_elem_of_disj_union, gmultiset_elem_of_singleton. done. Qed.

Ltac conn_fields :=
  unfold holding, is_loopback_bypass in *;
  cbn [lim conn_counts_per_ip with_counts with_global cfg global_conns opened reserved refused closing locals leaving given roll_back release_global] in *.

(** Releasing an address lowers its count by one, if it has one. *)
Lemma release_ip_counts a b l :
  default 0 (conn_counts_per_ip (release_ip a l) !! b) =
  (if decide (b = a) then default 0 (conn_counts_per_ip l !! b) - 1 else default 0 (conn_counts_per_ip l !! b)).
Proof.
  unfold release_ip. destruct (conn_counts_per_ip l !! a) as [c|] eqn:Hc; [cbn|case_decide; [subst; by rewrite Hc|done]].
  destruct (decide (b = a)) as [->|Hb]; [rewrite Hc; cbn; case_decide as Hz; [by rewrite lookup_delete_eq|by rewrite lookup_insert_eq]|].
  case_decide; [by rewrite lookup_delete_ne|by rewrite lookup_insert_ne].
Qed.

Lemma release_ip_rest a l : cfg (release_ip a l) = cfg l ∧ global_conns (release_ip a l) = global_conns l.
Proof. unfold release_ip. by case_match. Qed.

Lemma conn_step_inv s s' : (Z.of_nat (max_conns_global (cfg (lim s))) < 2 ^ 64)%Z → conn_step s s' → conns_inv s → conns_inv s'.
Proof.
  intros Hmax Hstep [Hc Hi Hrem Hloc Hu Hh Hm He].
  destruct Hstep as [a s l Hb Hr|a s l Ha Hr|a s l Ha Hr|s n Hn|a s Ha|s n Hn|a s Hb|a s Ha|s n Hn].
  - unfold reserve_global in Hr. case_decide; [done|]. injection Hr as <-. constructor; conn_fields; try done; rewrite ?size_add; try lia.
    intros b [[->|Hb']%elem_of_add|Hb']; [done|apply Hrem..]; auto.
  - unfold claim_ip in Hr. case_decide as Hd; [done|]. injection Hr as <-. rewrite Hc in *. pose proof (size_remove _ _ Ha) as Hsz.
    constructor; conn_fields; rewrite ?size_add; try done; try lia.
    + intros b. rewrite multiplicity_add. destruct (decide (b = a)) as [->|Hb]; [by rewrite lookup_insert_eq|]. rewrite lookup_insert_ne by done. apply Hc.
    + intros b. rewrite multiplicity_add. destruct (decide (b = a)) as [->|Hb]; [lia|apply Hi].
    + intros b [Hb%elem_of_remove|[->|Hb]%elem_of_add]; apply Hrem; auto.
  - unfold claim_ip in Hr. case_decide as Hd; [|done]. injection Hr as <-. pose proof (size_remove _ _ Ha) as Hsz. constructor; conn_fields; try done; try lia.
    + intros b. destruct (decide (b = a)) as [->|Hb]; [rewrite lookup_insert_eq; apply Hc|rewrite lookup_insert_ne by done; apply Hc].
    + intros b [Hb%elem_of_remove|Hb]; apply Hrem; auto.
  - constructor; conn_fields; try done; try lia.
    + apply Z.mod_pos_bound. lia.
    + destruct (decide (global_conns (lim s) = 0)%Z) as [->|Hz]; [change ((0 - 1) mod 2 ^ 64)%Z with 18446744073709551615%Z; lia|]. rewrite Z.mod_small by lia. lia.
    + intros Hg. specialize (He Hg). rewrite Z.mod_small by lia. lia.
  - pose proof (size_remove _ _ Ha) as Hsz. destruct (release_ip_rest a (lim s)) as [Hcfg Hgl].
    constructor; conn_fields; rewrite ?Hcfg, ?Hgl; try done; try lia.
    + intros b. rewrite release_ip_counts, multiplicity_remove, Hc. done.
    + intros b. rewrite multiplicity_remove. specialize (Hi b). case_decide; lia.
    + intros b [Hb|Hb%elem_of_remove]; apply Hrem; auto.
  - constructor; conn_fields; try done; first [case_decide; lia|lia].
  - constructor; conn_fields; try done. by intros b [->|Hb']%elem_of_add; [|apply Hloc].
  - destruct (release_ip_rest a (lim s)) as [Hcfg Hgl]. constructor; conn_fields; rewrite ?Hcfg, ?Hgl; try done.
    + intros b. rewrite release_ip_counts, Hc. case_decide as Hb; [|done]. subst b.
      destruct (decide (a ∈ opened s)) as [Ho|Ho]; [|rewrite (not_elem_of_multiplicity a) in Ho; lia].
      specialize (Hloc a Ha). rewrite (Hrem a (or_intror Ho)) in Hloc. done.
    + intros b Hb%elem_of_remove. auto.
  - constructor; conn_fields; try done; first [case_decide; lia|lia].
Qed.

Lemma conn_step_cfg s s' : conn_step s s' → cfg (lim s') = cfg (lim s).
Proof.
  intros [a ? l Hb Hr|a ? l Ha Hr|a ? l Ha Hr|? n Hn|a ? Ha|? n Hn|a ? Hb|a ? Ha|? n Hn]; cbn [lim]; try done; try apply release_ip_rest.
  - unfold reserve_global in Hr. case_decide; [done|]. by injection Hr as <-.
  - unfold claim_ip in Hr. case_decide; [done|]. by injection Hr as <-.
  - unfold claim_ip in Hr. case_decide; [|done]. by injection Hr as <-.
Qed.

Definition idle (c : LimitsConfig) : Conns := mkConns (limits_new c) ∅ 0 ∅ 0 ∅ 0 0.

Lemma idle_inv c : conns_inv (idle c).
Proof.
  constructor; unfold idle, limits_new; conn_fields; try done; try lia.
  - intros a. rewrite multiplicity_empty. lia.
  - by intros a [?%gmultiset_not_elem_of_empty|?%gmultiset_not_elem_of_empty].
  - by intros a ?%gmultiset_not_elem_of_empty.
  - change (0 + 0 + 0 + 0 ≤ max_conns_global c + 0). lia.
Qed.

Lemma reachable_inv c s : (Z.of_nat (max_conns_global c) < 2 ^ 64)%Z → rtc conn_step (idle c) s → conns_inv s ∧ cfg (lim s) = c.
Proof.
  intros Hmax Hr. remember (idle c) as s0 eqn:Hs. assert (Hi : conns_inv s0 ∧ cfg (lim s0) = c) by (subst s0; split; [apply idle_inv|done]).
  clear Hs. induction Hr as [s|s1 s2 s3 Hstep _ IH]; [done|]. apply IH. destruct Hi as [Hi <-].
  split; [by eapply conn_step_inv|by apply conn_step_cfg].
Qed.

(** C22: The caps on connections, under every interleaving of threads that open and close
    connections, loopback connections that bypass the limits among them.  There are never
    more than [max_conns_per_ip] counted connections open from one address.  There are never
    more than [max_conns_global] in all and one more for every loopback connection that has
    closed, since closing one gives back a slot that it did not take.  As long as no
    loopback connection has closed no slot is lost either: when no thread is between two
    actions, an address below its cap is accepted if and only if the server is below the
    global cap. *)
Theorem connections_capped c s a :
  (Z.of_nat (max_conns_global c) < 2 ^ 64)%Z → rtc conn_step (idle c) s →
  multiplicity a (opened s) ≤ max_conns_per_ip c ∧ size (opened s) ≤ max_conns_global c + given s ∧
  (given s = 0 → size (reserved s) = 0 → refused s = 0 → closing s = 0 → is_loopback_bypass (lim s) a = false →
   (try_acquire_conn_with_reason a (lim s)).1 =
     if decide (max_conns_global c ≤ size (opened s)) then Err Global
     else if decide (max_conns_per_ip c ≤ multiplicity a (opened s)) then Err PerIp else Ok tt).
Proof.
  intros Hmax Hr. destruct (reachable_inv c s Hmax Hr) as [[Hc Hi Hrem Hloc Hu Hh Hm He] Hcfg]. rewrite Hcfg in *. unfold holding in *. split_and!; [apply Hi|lia|].
  intros Hg Hx1 Hx2 Hx3 Hb. specialize (He Hg). unfold try_acquire_conn_with_reason, reserve_global, claim_ip. rewrite Hb, Hcfg.
  destruct (decide (max_conns_global c ≤ size (opened s))); [by rewrite decide_True by lia|rewrite decide_False by lia].
  cbn [conn_counts_per_ip with_global cfg]. rewrite Hc, Hcfg. by case_decide.
Qed.

(** ** Back-off *)

Definition fail_all (ts : list Z) a l : Limits := foldl (λ l t, record_failed_login t a l) l ts.

Lemma record_failed_bypass t a b l : is_loopback_bypass (record_failed_login t a l) b = is_loopback_bypass l b.
Proof. unfold record_failed_login. by case_match. Qed.

Lemma record_failed_cfg t a l : cfg (record_failed_login t a l) = cfg l.
Proof. unfold record_failed_login. by case_match. Qed.

Lemma fail_all_state ts t a l :
  is_loopback_bypass l a = false → failed_logins l !! a = None → (Z.of_nat (length ts) < 4294967295)%Z →
  cfg (fail_all (ts ++ [t]) a l) = cfg l ∧ is_loopback_bypass (fail_all (ts ++ [t]) a l) a = false ∧
  failed_logins (fail_all (ts ++ [t]) a l) !! a =
    Some (mkFailed (S (length ts))
      (if decide (failed_logins_per_min_per_ip (cfg l) ≤ S (length ts)) then
         Some (t + backoff_secs (S (length ts) - failed_logins_per_min_per_ip (cfg l)) * 1000000000)%Z else None)).
Proof.
  intros Hb Hn. revert t. induction ts as [|t0 ts IH] using rev_ind; intros t Hlen.
  - unfold fail_all. cbn [foldl app length]. rewrite record_failed_cfg, record_failed_bypass. split_and!; [done|done|].
    unfold record_failed_login. rewrite Hb, Hn. cbn [default count blocked_until failed_logins with_failed].
    rewrite lookup_insert_eq. unfold bump. rewrite decide_True by (cbn; lia). done.
  - rewrite length_app in *. cbn [length] in *. destruct (IH t0) as (Hc1 & Hb1 & Hf1); [lia|].
    unfold fail_all in *. rewrite foldl_app. cbn [foldl]. set (l1 := foldl _ l (ts ++ [t0])) in *.
    rewrite record_failed_cfg, record_failed_bypass. split_and!; [done|done|].
    unfold record_failed_login. rewrite Hb1, Hf1. cbn [default from_option id count blocked_until failed_logins with_failed].
    rewrite lookup_insert_eq. unfold bump. rewrite decide_True by lia. replace (S (length ts)) with (length ts + 1) by lia.
    rewrite Hc1. f_equal. f_equal. repeat case_decide; done || lia.
Qed.

(** After [n] failures in a row, the last at [t], logins are refused for one second at the
    threshold and twice as long after every further failure, up to a minute; a success
    clears it. *)
Lemma login_backoff_schedule ts t now a l :
  is_loopback_bypass l a = false → failed_logins l !! a = None → (Z.of_nat (length ts) < 4294967295)%Z →
  let n := S (length ts) in
  let deadline := (t + backoff_secs (n - failed_logins_per_min_per_ip (cfg l)) * 1000000000)%Z in
  (login_backoff now a (fail_all (ts ++ [t]) a l)).1 =
    (if decide (failed_logins_per_min_per_ip (cfg l) ≤ n ∧ (now < deadline)%Z) then Some (deadline - now)%Z else None) ∧
  (1 ≤ backoff_secs (n - failed_logins_per_min_per_ip (cfg l)) ≤ 60)%Z ∧
  (login_backoff now a (record_successful_login a (fail_all (ts ++ [t]) a l))).1 = None.
Proof.
  intros Hb Hn Hlen n deadline. destruct (fail_all_state ts t a l Hb Hn Hlen) as (Hc & Hb' & Hf). fold n in Hf. split_and!.
  - unfold login_backoff. rewrite Hb', Hf. destruct (decide (failed_logins_per_min_per_ip (cfg l) ≤ n)) as [Ht|Ht].
    + fold deadline. destruct (decide (now < deadline)%Z) as [Hd|Hd]; [by rewrite decide_True|by rewrite decide_False by tauto].
    + rewrite decide_False by tauto. done.
  - unfold backoff_secs. rewrite Z.shiftl_1_l. pose proof (Z.pow_pos_nonneg 2 (Z.of_nat ((n - failed_logins_per_min_per_ip (cfg l)) `min` 6))). lia.
  - pose proof (Z.pow_pos_nonneg 2 (Z.of_nat ((n - failed_logins_per_min_per_ip (cfg l)) `min` 6))). unfold backoff_secs. lia.
  - unfold login_backoff, record_successful_login. destruct (is_loopback_bypass (with_failed _ _) a); [done|]. cbn [failed_logins with_failed]. by rewrite lookup_delete_eq.
Qed.
End limits.

Arguments Limits Ip {_ _}.

(** ** Evaluation: addresses are numbers, 127 is loopback *)

Definition demo_config : LimitsConfig := mkLimitsConfig 5 1 1 true.
Definition demo_loopback (a : nat) : bool := Nat.eqb a 127.

Lemma connections_capped_witness :
  ∃ s : Conns, rtc (conn_step demo_loopback) (idle demo_config) s ∧ multiplicity 1 (opened s) = 1 ∧
    (try_acquire_conn_with_reason demo_loopback 2 (lim s)).1 = Err Global.
Proof.
  assert (∃ s, rtc (conn_step demo_loopback) (idle demo_config) s ∧ multiplicity 1 (opened s) = 1 ∧ size (opened s) = 1 ∧
    size (reserved s) = 0 ∧ refused s = 0 ∧ closing s = 0 ∧ given s = 0 ∧ is_loopback_bypass demo_loopback (lim s) 2 = false)
    as (s & Hr & H1 & H2 & H3 & H4 & H5 & H6 & H7).
  { eexists. split.
    - eapply rtc_l; [by apply (step_bypass demo_loopback 127)|]. eapply rtc_l; [by apply (step_reserve demo_loopback 1)|]. eapply rtc_l; [|apply rtc_refl].
      apply (step_claim demo_loopback 1); [|reflexivity]. apply gmultiset_elem_of_disj_union. left. by apply gmultiset_elem_of_singleton.
    - split_and!; by vm_compute. }
  exists s. split_and!; [done|done|]. rewrite (proj2 (proj2 (connections_capped demo_loopback demo_config s 2 ltac:(done) Hr)) H6 H3 H4 H5 H7), H2. done.
Defined.

(** A loopback connection takes no slot but gives one back when it closes, so the global
    cap of one is exceeded. *)
Lemma loopback_frees_slot :
  let '(r1, l1) := try_acquire_conn_with_reason demo_loopback 1 (limits_new demo_config) in
  let '(r2, l2) := try_acquire_conn_with_reason demo_loopback 127 l1 in
  let '(r3, l3) := try_acquire_conn_with_reason demo_loopback 2 (release_conn 127 l2) in
  r1 = Ok tt ∧ r2 = Ok tt ∧ r3 = Ok tt ∧ conn_counts_per_ip l3 = {[1 := 1; 2 := 1]}.
Proof. by vm_compute. Qed.

(** Given back while a refused connection still holds its reservation, the slot makes the
    counter wrap around: from then on everybody is refused. *)
Lemma loopback_locks_out :
  let l := release_conn 127 (try_acquire_conn_with_reason demo_loopback 1 (limits_new demo_config)).2 in
  match reserve_global l with
  | Some l =>
      let l := roll_back (release_conn 127 (claim_ip 1 l).2) in
      global_conns l = 18446744073709551615%Z ∧ (try_acquire_conn_with_reason demo_loopback 2 l).1 = Err Global
  | None => False
  end.
Proof. by vm_compute. Qed.
