(* ===== verification/Coordinator.v ===== *)
(** * The coordinator (grumpydb-server/src/coordinator.rs)

    Membership, replica placement and quorums of one node.  Node ids, addresses and status
    words are byte strings.  What peers answer is an argument: [probe addr] is the answer
    to a handshake within the time-out, [rpc addr request] to a data request.  The schema
    part of the coordinator is in Schema. *)

From stdpp Require Import gmap.
From S2P Require Import Prelude RustStd Parser Ring Hints.

Local Open Scope Z_scope.

(** ** Configuration and state *)

Record PeerEntry := mkPeerEntry {
  pe_node_id : bytes; pe_addr : bytes; pe_status : option bytes; pe_last_seen : option Z; pe_vnodes : list Z;
}.

Record WriterEntry := mkWriter { we_collection : bytes; we_node_id : bytes }.

Record ClusterSection := mkCluster {
  cs_vnodes_per_node : nat;
  cs_peers : list PeerEntry;
  cs_writers : list WriterEntry;
  cs_write_ack_timeout_ms : Z;
  cs_gossip_probe_interval_ms : Z;
}.

Record PeerRuntime := mkPeer {
  addr : bytes;
  status : bytes;
  last_seen_at_unix : option Z;
  vnode_assignments : list Z;
}.

Record Coordinator := mkCoordinator {
  local_node_id : bytes;
  n : nat;
  write_ack_timeout_ms : Z;
  gossip_probe_interval_ms : Z;
  co_vnodes_per_node : nat;
  ring : Ring bytes;
  peer_addrs : list (bytes * bytes);
  writers : list WriterEntry;
  peers : list (bytes * PeerRuntime);
}.

Inductive CoordError :=
  | InvalidConcerns (n : nat)
  | NotEnoughLive (asked live : nat)
  | QuorumCannotBeSatisfied (need have : nat)
  | QuorumNotReached (acked asked : nat)
  | Forward (owner_node owner_addr : bytes)
  | UnknownPeer (node : bytes)
  | PeerFailed.

(** [Display] of a [String]. *)
#[export] Instance string_display : NodeDisplay bytes := λ b, b.

Definition eq_ignore_ascii_case (a b : bytes) : bool := Parser.eq_ignore_ascii_case (b2z <$> a) (b2z <$> b).

Definition canonical_status (status : bytes) (last_seen : option Z) : bytes :=
  if eq_ignore_ascii_case status (str "unknown") && bool_decide (is_Some last_seen) then str "up" else status.

Definition default_vnode_assignments (vnodes_per_node : nat) : list Z := Z.of_nat <$> seq 0 vnodes_per_node.

(** The part of [addr] before its last colon. *)
Fixpoint rsplit_colon (s : bytes) : option bytes :=
  match s with
  | [] => None
  | c :: s =>
      match rsplit_colon s with
      | Some h => Some (c :: h)
      | None => if decide (c = x3a) then Some [] else None
      end
  end.

Definition is_unroutable_advertised_addr (addr : bytes) : bool :=
  bool_decide (default addr (rsplit_colon addr) ∈ [str "0.0.0.0"; str "127.0.0.1"; str "::"; str "[::]"]).

Section coordinator.
Context `{RingHash}.
Implicit Types (c : Coordinator) (key : RoutingKey).

(** The loop over the configured peers: ring, addresses and runtime state. *)
Fixpoint add_peers (local_id : bytes) (per_node : nat) (ps : list PeerEntry)
    (st : Ring bytes * list (bytes * bytes) * list (bytes * PeerRuntime)) :
    Ring bytes * list (bytes * bytes) * list (bytes * PeerRuntime) :=
  match ps with
  | [] => st
  | p :: ps =>
      let '(r, addrs, rt) := st in
      add_peers local_id per_node ps
        (if decide (pe_node_id p = local_id) then st
         else
           ((add_node (pe_node_id p) r).2, bt_insert (pe_node_id p) (pe_addr p) addrs,
            bt_insert (pe_node_id p)
              (mkPeer (pe_addr p) (canonical_status (default (str "unknown") (pe_status p)) (pe_last_seen p)) (pe_last_seen p)
                 (match pe_vnodes p with [] => default_vnode_assignments per_node | l => l end)) rt))
  end.

Definition from_config (local_id : bytes) (cluster : ClusterSection) (local_addr : bytes) (now_unix : Z) : Coordinator :=
  let per_node := cs_vnodes_per_node cluster in
  let '(r, addrs, rt) :=
    add_peers local_id per_node (cs_peers cluster)
      ((add_node local_id (ring_new per_node)).2, [(local_id, local_addr)],
       [(local_id, mkPeer local_addr (str "up") (Some now_unix) (default_vnode_assignments per_node))]) in
  let total_nodes := S (length (cs_peers cluster)) in
  mkCoordinator local_id ((1 `max` total_nodes) `min` 3)%nat (cs_write_ack_timeout_ms cluster) (cs_gossip_probe_interval_ms cluster)
    per_node r addrs (cs_writers cluster) rt.

(** ** Liveness and gossip *)

Definition with_peers rt c : Coordinator :=
  mkCoordinator (local_node_id c) (n c) (write_ack_timeout_ms c) (gossip_probe_interval_ms c) (co_vnodes_per_node c) (ring c) (peer_addrs c)
    (writers c) rt.

Definition update_peer_liveness (node status : bytes) (last_seen : option Z) c : Coordinator :=
  match bt_get node (peers c) with
  | Some p =>
      with_peers (bt_insert node (mkPeer (addr p) status (if last_seen then last_seen else last_seen_at_unix p) (vnode_assignments p)) (peers c)) c
  | None => c
  end.

Definition peer_last_seen (node : bytes) c : option Z := p ← bt_get node (peers c); last_seen_at_unix p.

Definition gossip_probe_targets c : list (bytes * bytes) :=
  omap (λ '(node, p), if decide (node = local_node_id c ∨ addr p = []) then None else Some (node, addr p)) (peers c).

Record PeerGossipState := mkGossipState {
  gs_node_id : bytes; gs_addr : bytes; gs_status : bytes; gs_last_seen : option Z; gs_vnodes : list Z;
}.

Record ClusterHello := mkHello {
  h_status : option bytes; h_last_seen : option Z; h_vnodes : list Z; h_membership : list PeerGossipState;
}.

(** [gossip_payload]; the schema version that goes with it is in Schema. *)
Definition gossip_payload c : ClusterHello :=
  let local := bt_get (local_node_id c) (peers c) in
  mkHello (status <$> local) (local ≫= last_seen_at_unix) (default (default_vnode_assignments (co_vnodes_per_node c)) (vnode_assignments <$> local))
    ((λ '(node, p), mkGossipState node (addr p) (status p) (last_seen_at_unix p) (vnode_assignments p)) <$> peers c).

Definition incoming_is_fresher (current incoming : option Z) : bool :=
  match current, incoming with
  | None, Some _ => true
  | Some cur, Some newer => bool_decide (cur ≤ newer)
  | _, _ => false
  end.

Definition merge_addr (incoming existing : bytes) : bytes :=
  if bool_decide (incoming ≠ []) && (negb (is_unroutable_advertised_addr incoming) || bool_decide (existing = []))
  then incoming else existing.

Definition merge_peer_runtime (node : bytes) (addr_in : option bytes) (status_in : bytes) (last_seen : option Z) (vnodes : list Z)
    (per_node : nat) (rt : list (bytes * PeerRuntime)) : list (bytes * PeerRuntime) :=
  let incoming_status := canonical_status status_in last_seen in
  let incoming_vnodes := match vnodes with [] => default_vnode_assignments per_node | _ => vnodes end in
  let incoming_addr := default [] addr_in in
  match bt_get node rt with
  | Some existing =>
      let addr' := merge_addr incoming_addr (addr existing) in
      bt_insert node
        (if incoming_is_fresher (last_seen_at_unix existing) last_seen then
           mkPeer addr'
             (if bool_decide (incoming_status ≠ str "unknown") || eq_ignore_ascii_case (status existing) (str "unknown")
              then incoming_status else status existing)
             last_seen incoming_vnodes
         else mkPeer addr' (status existing) (last_seen_at_unix existing) (vnode_assignments existing)) rt
  | None => bt_insert node (mkPeer incoming_addr incoming_status last_seen incoming_vnodes) rt
  end.

Definition merge_gossip_from_peer (peer_node_id : bytes) (hello : ClusterHello) (observed_at : option Z) c : Coordinator :=
  let per_node := co_vnodes_per_node c in
  let src_last_seen := match h_last_seen hello with Some t => Some t | None => observed_at end in
  let rt := merge_peer_runtime peer_node_id None (default (str "up") (h_status hello)) src_last_seen (h_vnodes hello) per_node (peers c) in
  with_peers
    (foldl (λ rt e,
       if decide (gs_node_id e = local_node_id c) then rt
       else merge_peer_runtime (gs_node_id e) (Some (gs_addr e)) (gs_status e) (gs_last_seen e) (gs_vnodes e) per_node rt)
     rt (h_membership hello)) c.

Definition is_peer_live (node : bytes) c : bool :=
  match bt_get node (peers c) with
  | Some p => negb (eq_ignore_ascii_case (status p) (str "down"))
  | None => false
  end.

(** cluster/gossip.rs, [on_probe_failure]: [u64::saturating_sub] *)
Definition on_probe_failure (node : bytes) (dead_after now : Z) c : Coordinator :=
  let status :=
    match peer_last_seen node c with
    | Some last_seen => if decide (Z.max 0 (now - last_seen) ≤ dead_after) then str "suspect" else str "down"
    | None => str "down"
    end in
  update_peer_liveness node status None c.

(** ** Concerns *)

Definition in_concern_range c (k : nat) : bool := bool_decide (1 ≤ k ≤ n c)%nat.

Definition validate_concerns (read_concern write_concern : option nat) c : outcome CoordError unit :=
  let r := default 1%nat read_concern in
  let w := default 1%nat write_concern in
  if in_concern_range c r && in_concern_range c w then Ok tt else Err (InvalidConcerns (n c)).

(** Reads and writes are checked alike, but for the messages. *)
Definition validate_concern_for_key key (concern : option nat) c : outcome CoordError unit :=
  let k := default 1%nat concern in
  if in_concern_range c k then
    let owners := preference_list (ring c) key (n c) in
    let live := length (filter (λ node, is_peer_live node c = true) owners) in
    if decide (live < k)%nat then Err (NotEnoughLive k live) else Ok tt
  else Err (InvalidConcerns (n c)).

Definition validate_read_concern_for_key key (read_concern : option nat) c := validate_concern_for_key key read_concern c.
Definition validate_write_concern_for_key key (write_concern : option nat) c := validate_concern_for_key key write_concern c.

Definition fanout_addrs c (owners : list bytes) : list bytes :=
  omap (λ node, if decide (node = local_node_id c) then None else bt_get node (peer_addrs c)) owners.

(** Acknowledgements of reads and writes are awaited alike. *)
Definition wait_for_ack_quorum (probe : bytes → bool) key (concern : option nat) c : outcome CoordError unit :=
  let k := default 1%nat concern in
  if decide (k ≤ 1)%nat then Ok tt
  else
    let owners := preference_list (ring c) key (n c) in
    let fanout := fanout_addrs c owners in
    let required_remote := (k - 1)%nat in
    if decide (length fanout < required_remote)%nat then Err (QuorumCannotBeSatisfied required_remote (length fanout))
    else
      let acked := (1 + length (filter (λ a, probe a = true) fanout))%nat in
      if decide (k ≤ acked)%nat then Ok tt else Err (QuorumNotReached acked k).

Definition wait_for_write_ack_quorum probe key (write_concern : option nat) c := wait_for_ack_quorum probe key write_concern c.
Definition wait_for_read_ack_quorum probe key (read_concern : option nat) c := wait_for_ack_quorum probe key read_concern c.

(** ** Placement *)

Definition owner_addr c (node : bytes) : bytes := default (str "unknown") (bt_get node (peer_addrs c)).

Definition enforce_local_owner key c : outcome CoordError unit :=
  match preference_list (ring c) key (n c) with
  | [] => Ok tt
  | owner :: _ => if decide (owner = local_node_id c) then Ok tt else Err (Forward owner (owner_addr c owner))
  end.

Definition enforce_local_write_replica key c : outcome CoordError unit :=
  let owners := preference_list (ring c) key (n c) in
  if decide (local_node_id c ∈ owners) then Ok tt
  else
    let owner_node := default (local_node_id c) (head owners) in
    Err (Forward owner_node (owner_addr c owner_node)).

Definition replica_peer_nodes_for_key key c : list bytes :=
  filter (λ node, node ≠ local_node_id c) (preference_list (ring c) key (n c)).

Definition unavailable_replica_peer_nodes_for_key key c : list bytes :=
  filter (λ node, is_peer_live node c = false) (replica_peer_nodes_for_key key c).

(** [fanout_read_peer_values] and its two siblings for index queries: the answers of the
    replicas with a known address. *)
Definition fanout_read_peer_values {A} (ask : bytes → A) key c : list (bytes * A) :=
  omap (λ node, addr ← bt_get node (peer_addrs c); Some (node, ask addr)) (replica_peer_nodes_for_key key c).

(** ** Requests to peers *)

Inductive PeerRequest :=
  | PUpsert (tenant database collection key value_json : bytes)
  | PDelete (tenant database collection key : bytes)
  | PCreateIndex (tenant database collection index_name field_path : bytes)
  | PDropIndex (tenant database collection index_name : bytes).

Definition send_peer (rpc : bytes → PeerRequest → bool) (peer : bytes) (request : PeerRequest) c : outcome CoordError unit :=
  addr ← ok_or (bt_get peer (peer_addrs c)) (UnknownPeer peer);
  if rpc addr request then Ok tt else Err PeerFailed.

Definition repair_peer_value rpc (peer tenant db coll key value_json : bytes) c : outcome CoordError unit :=
  send_peer rpc peer (PUpsert tenant db coll key value_json) c.

Definition hint_request (h : HintRecord) : PeerRequest :=
  match resolved_operation h with
  | Upsert v => PUpsert (tenant h) (Hints.database h) (Hints.collection h) (Hints.key h) v
  | Delete => PDelete (tenant h) (Hints.database h) (Hints.collection h) (Hints.key h)
  | CreateIndex i p => PCreateIndex (tenant h) (Hints.database h) (Hints.collection h) i p
  | DropIndex i => PDropIndex (tenant h) (Hints.database h) (Hints.collection h) i
  end.

Definition replay_hint_to_peer rpc (peer : bytes) (h : HintRecord) c : outcome CoordError unit :=
  send_peer rpc peer (hint_request h) c.

(** ** Rebalancing *)

Definition plan_rebalance_add_node (node : bytes) c : list KeyRange := (add_node node (ring c)).1.
Definition plan_rebalance_remove_node (node : bytes) c : list KeyRange := (remove_node node (ring c)).1.

Definition primary (r : Ring bytes) key : bytes := default [] (head (preference_list r key 1)).

Record Transfer := mkTransfer { considered : nat; retained_local : nat; transferred : nat; failed : nat }.

(** [docs] is what [scan] returns: the text of each id and the JSON of its value. *)
Definition count_send (r : outcome CoordError unit) (t : Transfer) : Transfer :=
  match r with
  | Ok _ => mkTransfer (S (considered t)) (retained_local t) (S (transferred t)) (failed t)
  | _ => mkTransfer (S (considered t)) (retained_local t) (transferred t) (S (failed t))
  end.

Definition add_step rpc (ring_after : Ring bytes) (target tenant db coll : bytes) c (t : Transfer) (doc : bytes * bytes) : Transfer :=
  let key := mkKey db coll doc.1 in
  if decide (primary (ring c) key ≠ local_node_id c ∨ primary ring_after key ≠ target) then t
  else count_send (repair_peer_value rpc target tenant db coll doc.1 doc.2 c) t.

Definition execute_rebalance_add_node_transfer rpc (target tenant db coll : bytes) (docs : list (bytes * bytes)) c : Transfer :=
  foldl (add_step rpc (add_node target (ring c)).2 target tenant db coll c) (mkTransfer 0 0 0 0) docs.

Definition remove_step rpc (ring_after : Ring bytes) (removed tenant db coll : bytes) c (t : Transfer) (doc : bytes * bytes) : Transfer :=
  let key := mkKey db coll doc.1 in
  let after_owner := primary ring_after key in
  if decide (primary (ring c) key ≠ removed ∨ after_owner = removed) then t
  else if decide (after_owner = local_node_id c) then
    mkTransfer (S (considered t)) (S (retained_local t)) (transferred t) (failed t)
  else count_send (repair_peer_value rpc after_owner tenant db coll doc.1 doc.2 c) t.

Definition execute_rebalance_remove_node_transfer rpc (removed tenant db coll : bytes) (docs : list (bytes * bytes)) c : Transfer :=
  foldl (remove_step rpc (remove_node removed (ring c)).2 removed tenant db coll c) (mkTransfer 0 0 0 0) docs.
End coordinator.
