(* ===== verification/CoordinatorSpec.v ===== *)
(** * Quorums, gossip and rebalancing of the coordinator *)

From stdpp Require Import gmap.
From S2P Require Import Prelude RustStd Ring Coordinator.

Local Open Scope Z_scope.

Section spec.
Context `{RingHash}.
Implicit Types (c : Coordinator) (key : RoutingKey).

(** ** The ring of a configured coordinator *)

(** Ring and address book have the same members. *)
Record configured c : Prop := {
  co_reach : reachable (co_vnodes_per_node c) (ring c);
  co_sorted : bt_sorted (peer_addrs c);
  co_known : ∀ x, x ∈ physical_nodes (ring c) ↔ is_Some (bt_get x (peer_addrs c));
}.

Lemma add_node_members (r : Ring bytes) node x : x ∈ physical_nodes (add_node node r).2 ↔ x = node ∨ x ∈ physical_nodes r.
Proof. unfold add_node. case_decide; cbn [snd physical_nodes]; [naive_solver|]. apply elem_of_vec_insert. Qed.

Lemma add_peers_ok local per_node ps r addrs rt r' addrs' rt' :
  reachable per_node r → bt_sorted addrs → (∀ x, x ∈ physical_nodes r ↔ is_Some (bt_get x addrs)) →
  add_peers local per_node ps (r, addrs, rt) = (r', addrs', rt') →
  reachable per_node r' ∧ bt_sorted addrs' ∧ (∀ x, x ∈ physical_nodes r' ↔ is_Some (bt_get x addrs')) ∧
  ∀ x, x ∈ physical_nodes r' ↔ x ∈ physical_nodes r ∨ (x ≠ local ∧ x ∈ pe_node_id <$> ps).
Proof.
  revert r addrs rt. induction ps as [|p ps IH]; intros r addrs rt Hr Hs Hk; cbn [add_peers].
  - intros [= <- <- <-]. split_and!; [done..|]. intros x. cbn. rewrite elem_of_nil. tauto.
  - assert (Hcons : ∀ x, x ∈ pe_node_id <$> p :: ps ↔ x = pe_node_id p ∨ x ∈ pe_node_id <$> ps) by (intros x; apply elem_of_cons).
    case_decide as Hp; intros Heq.
    + apply IH in Heq as (H1 & H2 & H3 & H4); [|done..]. split_and!; [done..|]. intros x. rewrite H4, Hcons. naive_solver.
    + apply IH in Heq as (H1 & H2 & H3 & H4); [|by apply reach_add|by apply bt_sorted_insert|].
      * split_and!; [done..|]. intros x. rewrite H4, add_node_members, Hcons. naive_solver.
      * intros x. rewrite add_node_members, bt_get_insert by done. rewrite Hk. case_decide; naive_solver.
Qed.

Lemma from_config_ok local cluster addr now :
  let c := from_config local cluster addr now in
  configured c ∧ local_node_id c = local ∧ co_vnodes_per_node c = cs_vnodes_per_node cluster ∧
  ∀ x, x ∈ physical_nodes (ring c) ↔ x = local ∨ x ∈ pe_node_id <$> cs_peers cluster.
Proof.
  intros c. subst c. unfold from_config. destruct (add_peers _ _ _ _) as [[r addrs] rt] eqn:Heq.
  apply add_peers_ok in Heq as (H1 & H2 & H3 & H4); [|by apply reach_add, reach_new|by repeat constructor|].
  2:{ intros x. rewrite add_node_members. cbn [ring_new physical_nodes bt_get]. rewrite elem_of_nil.
    destruct (cmp x local) eqn:E; [apply cmp_eq in E as ->; naive_solver|..]; (split; [|by intros [? ?]]);
      intros [->|[]]; by rewrite cmp_refl in E. }
  split_and!; [by constructor|done|done|]. cbn [ring]. intros x. rewrite H4, add_node_members. cbn [ring_new physical_nodes].
  rewrite elem_of_nil. destruct (decide (x = local)); naive_solver.
Qed.

(** ** Quorums *)

(** The replicas that count as acknowledged: the local node and the peers that answer. *)
Definition acked c (probe : bytes → bool) (node : bytes) : bool :=
  if decide (node = local_node_id c) then true
  else match bt_get node (peer_addrs c) with Some a => probe a | None => false end.

Lemma filters_meet {A} (P Q : A → bool) (l : list A) :
  (length l < length (filter (λ x, P x = true) l) + length (filter (λ x, Q x = true) l))%nat → ∃ x, x ∈ l ∧ P x = true ∧ Q x = true.
Proof.
  induction l as [|x l IH]; [cbn; lia|]. rewrite !filter_cons.
  destruct (decide (P x = true)) as [HP|HP], (decide (Q x = true)) as [HQ|HQ]; cbn [length]; intros Hl; [exists x; split; [left|done]|..];
    (destruct IH as (y & Hy & H1); [lia|]; exists y; split; [by right|done]).
Qed.

Lemma acked_remote c probe l :
  local_node_id c ∉ l → length (filter (λ x, acked c probe x = true) l) = length (filter (λ a, probe a = true) (fanout_addrs c l)).
Proof.
  induction l as [|x l IH]; intros Hl; [done|]. apply not_elem_of_cons in Hl as [Hx Hl]. unfold fanout_addrs. cbn [omap list_omap].
  rewrite decide_False by done. fold (fanout_addrs c l). rewrite filter_cons.
  assert (Ha : acked c probe x = match bt_get x (peer_addrs c) with Some a => probe a | None => false end).
  { unfold acked. by rewrite decide_False by done. }
  rewrite Ha. clear Ha.
  destruct (bt_get x (peer_addrs c)) as [a|]; [|rewrite decide_False by done; by apply IH].
  rewrite filter_cons. destruct (decide (probe a = true)); cbn [length]; rewrite IH by done; done.
Qed.

Lemma acked_count c probe l :
  NoDup l → local_node_id c ∈ l →
  length (filter (λ x, acked c probe x = true) l) = S (length (filter (λ a, probe a = true) (fanout_addrs c l))).
Proof.
  intros Hnd (l1 & l2 & ->)%list_elem_of_split. apply NoDup_app in Hnd as (_ & Hd & Hnd). apply NoDup_cons in Hnd as [H2 _].
  assert (H1 : local_node_id c ∉ l1) by (intros Hin; apply (Hd _ Hin); left).
  unfold fanout_addrs. rewrite omap_app. cbn [omap list_omap]. rewrite decide_True by done. fold (fanout_addrs c l1) (fanout_addrs c l2).
  rewrite !filter_app, !length_app, filter_cons_True by (unfold acked; by rewrite decide_True).
  cbn [length]. rewrite !acked_remote by done. lia.
Qed.

(** A quorum call that succeeds has that many replicas behind it. *)
Lemma quorum_acked probe key k c :
  NoDup (preference_list (ring c) key (n c)) → local_node_id c ∈ preference_list (ring c) key (n c) →
  wait_for_ack_quorum probe key (Some k) c = Ok tt →
  (k ≤ length (filter (λ x, acked c probe x = true) (preference_list (ring c) key (n c))))%nat.
Proof.
  intros Hnd Hin Hw. rewrite acked_count by done. unfold wait_for_ack_quorum in Hw. cbn [from_option id] in Hw. cbv zeta in Hw.
  destruct (decide (k ≤ 1)%nat); [lia|]. destruct (decide (_ < _)%nat); [done|]. destruct (decide (k ≤ _)%nat); [lia|done].
Qed.

(** The nodes of a cluster: the same members, replication factor and vnode count. *)
Definition same_cluster c c' : Prop :=
  co_vnodes_per_node c = co_vnodes_per_node c' ∧ n c = n c' ∧ ∀ x, x ∈ physical_nodes (ring c) ↔ x ∈ physical_nodes (ring c').

Lemma same_ring c c' : configured c → configured c' → (0 < co_vnodes_per_node c)%nat → same_cluster c c' → ring c = ring c'.
Proof.
  intros [Hr _ _] [Hr' _ _] Hpos (Hv & _ & Hm). eapply ring_canonical; [exact Hpos|exact Hr|by rewrite Hv|done].
Qed.

(** C14: Read and write quorums meet.  When two nodes of a cluster, each placed as the
    server requires (the writer among the replicas of the key, the reader its owner),
    obtain a write quorum of [w] and a read quorum of [r] replicas with [w + r] above the
    replication factor, some replica of the key acknowledged both; all nodes agree on the
    replicas, in whatever order their configurations list them. *)
Theorem quorums_intersect cw cr key pw pr w r :
  configured cw → configured cr → (0 < co_vnodes_per_node cw)%nat → same_cluster cw cr →
  enforce_local_write_replica key cw = Ok tt → enforce_local_owner key cr = Ok tt →
  wait_for_write_ack_quorum pw key (Some w) cw = Ok tt → wait_for_read_ack_quorum pr key (Some r) cr = Ok tt →
  (n cw < w + r)%nat →
  preference_list (ring cw) key (n cw) = preference_list (ring cr) key (n cr) ∧
  ∃ x, x ∈ preference_list (ring cw) key (n cw) ∧ acked cw pw x = true ∧ acked cr pr x = true.
Proof.
  intros Hcw Hcr Hpos Hsame Hew Her Hqw Hqr Hn. pose proof (same_ring _ _ Hcw Hcr Hpos Hsame) as Hring. destruct Hsame as (Hv & Hnn & _).
  destruct (preference_list_spec _ _ key 0 (n cw) Hpos (co_reach _ Hcw)) as (Hnd & Hmem & Hlen & _).
  assert (Hw : local_node_id cw ∈ preference_list (ring cw) key (n cw)).
  { unfold enforce_local_write_replica in Hew. by case_decide. }
  assert (Hr : local_node_id cr ∈ preference_list (ring cr) key (n cr)).
  { unfold enforce_local_owner in Her. rewrite <- Hring, <- Hnn in *. destruct (preference_list _ _ _) as [|o l]; [set_solver|].
    case_decide; [subst; left|done]. }
  rewrite <- Hring, <- Hnn in Hr. split; [by rewrite <- Hring, <- Hnn|].
  pose proof (quorum_acked pw key w cw Hnd Hw Hqw) as H1.
  assert (H2 : (r ≤ length (filter (λ x, acked cr pr x = true) (preference_list (ring cr) key (n cr))))%nat).
  { apply quorum_acked; [by rewrite <- Hring, <- Hnn|by rewrite <- Hring, <- Hnn|done]. }
  rewrite <- Hring, <- Hnn in H2. apply filters_meet. lia.
Qed.

(** ** Gossip *)

Definition unknown (p : PeerRuntime) : bool := eq_ignore_ascii_case (status p) (str "unknown").

(** [p'] knows at least what [p] knew. *)
Definition peer_le (p p' : PeerRuntime) : Prop :=
  (∀ t, last_seen_at_unix p = Some t → ∃ t', last_seen_at_unix p' = Some t' ∧ t ≤ t') ∧
  (unknown p = false → unknown p' = false) ∧ (addr p ≠ [] → addr p' ≠ []).

#[export] Instance peer_le_preorder : PreOrder peer_le.
Proof.
  split.
  - intros p. split_and!; [|done..]. intros t Ht. exists t. by split; [|lia].
  - intros p1 p2 p3 (H1 & H2 & H3) (H4 & H5 & H6). split_and!; [|auto..]. intros t Ht.
    destruct (H1 t Ht) as (t' & Ht' & Hle). destruct (H4 t' Ht') as (t2 & Ht2 & Hle2). exists t2. split; [done|lia].
Qed.

Definition peers_le (rt rt' : list (bytes * PeerRuntime)) : Prop :=
  ∀ x p, bt_get x rt = Some p → ∃ p', bt_get x rt' = Some p' ∧ peer_le p p'.

Lemma canonical_known s t : eq_ignore_ascii_case (canonical_status s (Some t)) (str "unknown") = false.
Proof. unfold canonical_status. destruct (eq_ignore_ascii_case s (str "unknown")) eqn:E; cbn [andb bool_decide]; [by vm_compute|done]. Qed.

Lemma merge_peer_le node a st ls vn k rt : bt_sorted rt → bt_sorted (merge_peer_runtime node a st ls vn k rt) ∧ peers_le rt (merge_peer_runtime node a st ls vn k rt).
Proof.
  intros Hs. unfold merge_peer_runtime. destruct (bt_get node rt) as [e|] eqn:He.
  2:{ split; [by apply bt_sorted_insert|]. intros x p Hp. rewrite bt_get_insert by done. rewrite decide_False by congruence. by exists p. }
  cbv zeta. split; [by apply bt_sorted_insert|]. intros x p Hp. rewrite bt_get_insert by done. case_decide as Hx; [|by exists p].
  subst x. rewrite He in Hp. injection Hp as <-. eexists. split; [done|].
  set (a' := merge_addr (default [] a) (addr e)).
  assert (Ha : addr e ≠ [] → a' ≠ []) by (subst a'; unfold merge_addr; case_bool_decide; cbn [andb]; [destruct (_ || _)|]; done).
  destruct (incoming_is_fresher (last_seen_at_unix e) ls) eqn:Hf.
  - unfold incoming_is_fresher in Hf. destruct ls as [t'|]; [|by destruct (last_seen_at_unix e)].
    split_and!; cbn [last_seen_at_unix addr]; [|intros _|done].
    + intros t Ht. rewrite Ht in Hf. apply bool_decide_eq_true in Hf. eauto.
    + unfold unknown. cbn [status]. destruct (_ || _) eqn:Ho; [apply canonical_known|]. by apply orb_false_iff in Ho as [_ Ho].
  - split_and!; cbn [last_seen_at_unix addr]; [|done|done]. intros t Ht. exists t. by split; [|lia].
Qed.

Lemma peers_le_trans rt1 rt2 rt3 : peers_le rt1 rt2 → peers_le rt2 rt3 → peers_le rt1 rt3.
Proof.
  intros H12 H23 x p Hp. destruct (H12 x p Hp) as (p2 & Hp2 & Hle). destruct (H23 x p2 Hp2) as (p3 & Hp3 & Hle2).
  exists p3. split; [done|]. by etrans.
Qed.

(** Gossip only adds knowledge.  Merging what a peer says, whatever it says, keeps every
    known node, never moves the time a node was last seen back, never turns a known status
    into unknown and never forgets an address; the local node's entry changes only by what
    the peer claims to be; ring, replication factor and addresses used for quorums stay. *)
Theorem gossip_monotone peer hello observed c :
  bt_sorted (peers c) →
  let c' := merge_gossip_from_peer peer hello observed c in
  bt_sorted (peers c') ∧ peers_le (peers c) (peers c') ∧
  (peer ≠ local_node_id c → bt_get (local_node_id c) (peers c') = bt_get (local_node_id c) (peers c)) ∧
  ring c' = ring c ∧ n c' = n c ∧ peer_addrs c' = peer_addrs c.
Proof.
  intros Hs c'. unfold c', merge_gossip_from_peer. cbn [peers with_peers ring n peer_addrs].
  set (rt0 := merge_peer_runtime peer _ _ _ _ _ _). destruct (merge_peer_le peer None (default (str "up") (h_status hello))
    match h_last_seen hello with Some t => Some t | None => observed end (h_vnodes hello) (co_vnodes_per_node c) (peers c) Hs) as [Hs0 Hle0].
  fold rt0 in Hs0, Hle0. assert (Hl0 : peer ≠ local_node_id c → bt_get (local_node_id c) rt0 = bt_get (local_node_id c) (peers c)).
  { intros Hne. unfold rt0, merge_peer_runtime. cbv zeta. destruct (bt_get peer (peers c)); rewrite bt_get_insert by done; by rewrite decide_False. }
  clearbody rt0. generalize (h_membership hello). intros es. revert rt0 Hs0 Hle0 Hl0.
  induction es as [|e es IH]; intros rt Hs0 Hle Hl; [done|]. cbn [foldl]. case_decide as He; [by apply IH|].
  destruct (merge_peer_le (gs_node_id e) (Some (gs_addr e)) (gs_status e) (gs_last_seen e) (gs_vnodes e) (co_vnodes_per_node c) rt Hs0) as [Hs1 Hle1].
  apply IH; [done|by eapply peers_le_trans|]. intros Hne. rewrite <- Hl by done. unfold merge_peer_runtime. cbv zeta.
  destruct (bt_get (gs_node_id e) rt); rewrite bt_get_insert by done; by rewrite decide_False.
Qed.

(** ** Rebalancing *)

Lemma primary_in c key : configured c → (0 < co_vnodes_per_node c)%nat → primary (ring c) key ≠ [] → is_Some (bt_get (primary (ring c) key) (peer_addrs c)).
Proof.
  intros [Hr _ Hk] Hpos Hne. apply Hk. destruct (preference_list_spec _ _ key 0 1 Hpos Hr) as (_ & Hin & _).
  unfold primary in *. destruct (preference_list (ring c) key 1) as [|x l]; [done|]. apply Hin. left.
Qed.

(** Transfers to an added node never happen: a node outside the configuration has no known
    address, and a node inside it is on the ring already, so no document changes owner. *)
Lemma add_node_transfer_never rpc target tenant db coll docs c :
  configured c → target ≠ local_node_id c →
  transferred (execute_rebalance_add_node_transfer rpc target tenant db coll docs c) = 0%nat.
Proof.
  intros [_ _ Hk] Hne. unfold execute_rebalance_add_node_transfer.
  assert (Ht : transferred (mkTransfer 0 0 0 0) = 0%nat) by done. revert Ht. generalize (mkTransfer 0 0 0 0).
  induction docs as [|d docs IH]; intros t Ht; [done|]. cbn [foldl]. apply IH. unfold add_step. cbv zeta. case_decide as Hd; [done|].
  apply Decidable.not_or in Hd as [H1 H2]. apply dec_stable in H1, H2. unfold repair_peer_value, send_peer.
  destruct (bt_get target (peer_addrs c)) as [a|] eqn:Ha; [|done].
  exfalso. assert (Hin : target ∈ physical_nodes (ring c)) by (apply Hk; eauto).
  apply Hne. rewrite <- H1, <- H2. unfold add_node. by rewrite decide_True.
Qed.
End spec.

(** ** Evaluation: two nodes, positions by the first byte of the tag *)

Definition demo_cluster (peer : bytes) : ClusterSection := mkCluster 1 [mkPeerEntry peer (str "h:1") None None []] [] 500 1000.
Definition demo_a : Coordinator := from_config (H := demo) (str "A") (demo_cluster (str "B")) (str "h:0") 10.
Definition demo_b : Coordinator := from_config (H := demo) (str "B") (demo_cluster (str "A")) (str "h:0") 10.

Lemma quorums_intersect_witness :
  let key := mkKey (str "A") (str "c") (str "k") in
  enforce_local_owner (H := demo) key demo_a = Ok tt ∧ enforce_local_write_replica (H := demo) key demo_b = Ok tt ∧
  ∃ x, acked demo_b (λ _, true) x = true ∧ acked demo_a (λ _, false) x = true.
Proof.
  intros key. split_and!; [by vm_compute..|].
  destruct (from_config_ok (H := demo) (str "A") (demo_cluster (str "B")) (str "h:0") 10) as (Ha & _ & _ & Hma).
  destruct (from_config_ok (H := demo) (str "B") (demo_cluster (str "A")) (str "h:0") 10) as (Hb & _ & _ & Hmb).
  destruct (quorums_intersect (H := demo) demo_b demo_a key (λ _, true) (λ _, false) 2 1 Hb Ha ltac:(vm_compute; lia)) as (_ & x & _ & Hx).
  - split_and!; [by vm_compute..|]. intros x. unfold demo_a, demo_b. rewrite Hma, Hmb. cbn. set_solver.
  - by vm_compute.
  - by vm_compute.
  - by vm_compute.
  - by vm_compute.
  - vm_compute. lia.
  - eauto.
Defined.

Lemma gossip_monotone_witness :
  let c' := merge_gossip_from_peer (str "B") (mkHello None (Some 20) [] []) None demo_a in
  bt_sorted (peers demo_a) ∧ is_peer_live (str "B") c' = true ∧ peers_le (peers demo_a) (peers c').
Proof.
  intros c'. assert (Hs : bt_sorted (peers demo_a)) by (vm_compute; by repeat constructor).
  split_and!; [exact Hs|by vm_compute|]. apply (gossip_monotone (str "B") (mkHello None (Some 20) [] []) None demo_a Hs).
Defined.

(** A configuration that lists the local node too gives a replication factor above the
    number of nodes, so a write concern of 2 is accepted and can never be met. *)
Lemma local_node_counted_twice probe key :
  let c := from_config (H := demo) (str "A") (demo_cluster (str "A")) (str "h:0") 10 in
  validate_concerns None (Some 2%nat) c = Ok tt ∧ physical_nodes (ring c) = [str "A"] ∧
  wait_for_write_ack_quorum (H := demo) probe key (Some 2%nat) c ≠ Ok tt.
Proof.
  intros c. split_and!; [by vm_compute..|]. intros Hq. unfold wait_for_write_ack_quorum in Hq.
  pose proof (proj1 (from_config_ok (H := demo) (str "A") (demo_cluster (str "A")) (str "h:0") 10)) as Hc. fold c in Hc.
  destruct (preference_list_spec (H0 := string_display) (H1 := demo) 1 (ring c) key 0 (n c) ltac:(lia) (co_reach _ Hc)) as (Hnd & Hin & Hlen & _).
  assert (Hl : length (preference_list (H1 := demo) (ring c) key (n c)) = 1%nat) by (rewrite Hlen; by vm_compute).
  destruct (preference_list _ _ _) as [|x [|y l]] eqn:Hp; try done.
Qed.
