(* ===== verification/Handler.v ===== *)
(** * Consistency of commands in the connection handler (grumpydb-server/src/tcp/handler.rs)

    The checks on read and write concerns, the write to the replicas after a command, with
    hints for those that fail, and the convergence of the values a quorum read finds.
    [defaults] is the lookup of a database's stored concerns, [rpc] the answers of peers.
    Executing the command itself on the local database is not part of this file. *)

From stdpp Require Import gmap.
From S2P Require Import Prelude RustStd Command Auth Ring JsonLines Hints Coordinator CoordinatorSpec.

Local Open Scope Z_scope.

(** The UTF-8 bytes of a string. *)
Definition utf8_char (c : Z) : bytes :=
  z2b <$> (if c <? 128 then [c]
           else if c <? 2048 then [192 + Z.shiftr c 6; 128 + Z.land c 63]
           else if c <? 65536 then [224 + Z.shiftr c 12; 128 + Z.land (Z.shiftr c 6) 63; 128 + Z.land c 63]
           else [240 + Z.shiftr c 18; 128 + Z.land (Z.shiftr c 12) 63; 128 + Z.land (Z.shiftr c 6) 63; 128 + Z.land c 63]).
Definition utf8 (s : chars) : bytes := concat (utf8_char <$> s).

Definition base_command (c : Command) : Command := match c with WithConsistency _ _ command => command | _ => c end.

Definition consistency_values (c : Command) : option Z * option Z :=
  match c with WithConsistency r w _ => (r, w) | _ => (None, None) end.

Definition supports_consistency (c : Command) : bool :=
  match c with
  | Command.Insert _ _ _ | Get _ _ | Update _ _ _ | Command.Delete _ _ | PutWithVc _ _ _ _ | Scan _ _ _ | Query _ _ _ | QueryRange _ _ _ _ | Count _ => true
  | _ => false
  end.

Definition is_write_command (c : Command) : bool :=
  match c with Command.Insert _ _ _ | Update _ _ _ | Command.Delete _ _ | PutWithVc _ _ _ _ => true | _ => false end.

Definition write_target (c : Command) : option (chars * chars) :=
  match base_command c with
  | Command.Insert coll key _ | Update coll key _ | Command.Delete coll key | PutWithVc coll key _ _ => Some (coll, key)
  | _ => None
  end.

Definition read_target (c : Command) : option (chars * chars) :=
  match base_command c with Get coll key => Some (coll, key) | _ => None end.

(** [format!("q:{collection}:{index_name}:{value}")] and its range form *)
Definition query_route_key (c : Command) : option bytes :=
  match base_command c with
  | Query coll i v => Some (str "q:" ++ utf8 coll ++ str ":" ++ utf8 i ++ str ":" ++ utf8 v)
  | QueryRange coll i s e => Some (str "qr:" ++ utf8 coll ++ str ":" ++ utf8 i ++ str ":" ++ utf8 s ++ str ":" ++ utf8 e)
  | _ => None
  end.

Definition query_collection (c : Command) : option chars :=
  match base_command c with Query coll _ _ | QueryRange coll _ _ _ => Some coll | _ => None end.

Inductive ConsistencyError :=
  | OnlyDataCommands
  | OnlyWriteCommands
  | Coord (e : CoordError)
  | Session (e : AuthError)
  | Defaults.

Definition coord {A} (r : outcome CoordError A) : outcome ConsistencyError A :=
  match r with Ok a => Ok a | Err e => Err (Coord e) | Panic => Panic end.
Definition of_session {A} (r : outcome AuthError A) : outcome ConsistencyError A :=
  match r with Ok a => Ok a | Err e => Err (Session e) | Panic => Panic end.

Abbreviation concern := (option Z).
Definition nat_concern (c : concern) : option nat := Z.to_nat <$> c.

Section handler.
Context `{RingHash} {J : JsonLine HintRecord}.
Context (defaults : chars → chars → option (concern * concern)).
Context (value_with_clock : chars → chars → bytes).
Implicit Types (c : Command) (s : SessionContext) (co : Coordinator).

Definition effective_consistency_values c s : outcome ConsistencyError (concern * concern) :=
  let '(explicit_read, explicit_write) := consistency_values c in
  if bool_decide (is_Some explicit_read) || bool_decide (is_Some explicit_write) then Ok (explicit_read, explicit_write)
  else match current_db s with
       | None => Ok (None, None)
       | Some db => tenant ← of_session (session_tenant s); ok_or (defaults tenant db) Defaults
       end.

Definition validate_consistency_command c co : outcome ConsistencyError unit :=
  let '(r, w) := consistency_values c in
  if decide (r = None ∧ w = None) then Ok tt
  else if negb (supports_consistency (base_command c)) then Err OnlyDataCommands
  else if negb (is_write_command (base_command c)) && bool_decide (is_Some w) then Err OnlyWriteCommands
  else coord (validate_concerns (nat_concern r) (nat_concern w) co).

(** The collection and routing key of a read: those of a GET, or of an index query. *)
Definition read_route c : option (chars * bytes) :=
  match read_target c with
  | Some (coll, key) => Some (coll, utf8 key)
  | None => route ← query_route_key c; coll ← query_collection c; Some (coll, route)
  end.

Definition validate_read_concern_runtime c s co : outcome ConsistencyError unit :=
  '(read_concern, _) ← effective_consistency_values c s;
  match read_concern, read_route c, current_db s with
  | Some r, Some (coll, key), Some db => coord (validate_read_concern_for_key (mkKey (utf8 db) (utf8 coll) key) (Some (Z.to_nat r)) co)
  | _, _, _ => Ok tt
  end.

Definition wait_for_read_ack_quorum (probe : bytes → bool) c s co : outcome ConsistencyError unit :=
  '(read_concern, _) ← effective_consistency_values c s;
  if decide (default 1 read_concern ≤ 1) then Ok tt
  else match read_route c, current_db s with
       | Some (coll, key), Some db => coord (Coordinator.wait_for_read_ack_quorum probe (mkKey (utf8 db) (utf8 coll) key) (nat_concern read_concern) co)
       | _, _ => Ok tt
       end.

Definition validate_write_concern_runtime c s co : outcome ConsistencyError unit :=
  '(_, write_concern) ← effective_consistency_values c s;
  match write_concern, write_target c, current_db s with
  | Some w, Some (coll, key), Some db => coord (validate_write_concern_for_key (mkKey (utf8 db) (utf8 coll) (utf8 key)) (Some (Z.to_nat w)) co)
  | _, _, _ => Ok tt
  end.

Definition write_hint_operation c : option HintOperation :=
  match base_command c with
  | Command.Insert _ _ value | Update _ _ value => Some (Upsert (utf8 value))
  | Command.Delete _ _ => Some Delete
  | PutWithVc _ _ value clock => Some (Upsert (value_with_clock value clock))
  | _ => None
  end.

(** ** Writing to the replicas *)

Abbreviation HintStore := (gmap bytes bytes).

Definition accepts (rpc : bytes → PeerRequest → bool) (hint : HintRecord) co (node : bytes) : bool :=
  match replay_hint_to_peer rpc node hint co with Ok _ => true | _ => false end.

(** The loop over the replicas: acknowledgements, and a hint for every failure.  The hints
    of one write carry one reading of the clock. *)
Fixpoint send_all (rpc : bytes → PeerRequest → bool) (hint : HintRecord) co (replicas : list bytes) (acked_remote : nat) (store : HintStore) : nat * HintStore :=
  match replicas with
  | [] => (acked_remote, store)
  | node :: replicas =>
      if accepts rpc hint co node then send_all rpc hint co replicas (S acked_remote) store
      else send_all rpc hint co replicas acked_remote (Hints.append node hint store)
  end.

Definition wait_for_write_ack_quorum (rpc : bytes → PeerRequest → bool) (now : Z) c s co : ST HintStore ConsistencyError unit := λ store,
  match effective_consistency_values c s with
  | Ok (_, write_concern) =>
      let w := default 1%nat (nat_concern write_concern) in
      if decide (w ≤ 1)%nat then (Ok tt, store)
      else match write_target c, current_db s with
           | Some (coll, key), Some db =>
               match of_session (session_tenant s), write_hint_operation c with
               | Ok tenant, Some operation =>
                   let replicas := replica_peer_nodes_for_key (mkKey (utf8 db) (utf8 coll) (utf8 key)) co in
                   let required_remote := (w - 1)%nat in
                   if decide (length replicas < required_remote)%nat then
                     (Err (Coord (QuorumCannotBeSatisfied required_remote (length replicas))), store)
                   else
                     let hint := mkHint now (utf8 tenant) (utf8 db) (utf8 coll) (utf8 key) (Some operation) None in
                     let '(acked_remote, store) := send_all rpc hint co replicas 0 store in
                     let acked := (1 + acked_remote)%nat in
                     if decide (w ≤ acked)%nat then (Ok tt, store) else (Err (Coord (QuorumNotReached acked w)), store)
               | Ok _, None => (Ok tt, store)
               | Err e, _ => (Err e, store)
               | Panic, _ => (Panic, store)
               end
           | _, _ => (Ok tt, store)
           end
  | Err e => (Err e, store)
  | Panic => (Panic, store)
  end.

(** ** Every replica has the write or a hint of it *)

Lemma send_all_ok rpc hint co replicas k store q :
  NoDup replicas → backlogs store q →
  ∃ store', send_all rpc hint co replicas k store = ((k + length (filter (λ x, accepts rpc hint co x = true) replicas))%nat, store') ∧
    ∃ q', backlogs store' q' ∧ ∀ t, q' t = if decide (t ∈ replicas ∧ accepts rpc hint co t = false) then q t ++ [hint] else q t.
Proof.
  revert k store q. induction replicas as [|x l IH]; intros k store q Hnd Hq; cbn [send_all].
  - exists store. split; [cbn; by rewrite Nat.add_0_r|]. exists q. split; [done|]. intros t. by rewrite decide_False by (rewrite elem_of_nil; tauto).
  - apply NoDup_cons in Hnd as [Hx Hnd]. rewrite filter_cons. destruct (decide (accepts rpc hint co x = true)) as [Ha|Ha].
    + rewrite Ha. destruct (IH (S k) store q Hnd Hq) as (st & -> & q' & Hst & Hq'). exists st. cbn [length]. split; [f_equal; lia|].
      exists q'. split; [done|]. intros t. rewrite Hq'. apply decide_ext. rewrite elem_of_cons. naive_solver congruence.
    + apply not_true_is_false in Ha. rewrite Ha. destruct (IH k _ _ Hnd (append_backlogs store q x hint Hq)) as (st & -> & q' & Hst & Hq').
      exists st. split; [done|]. exists q'. split; [done|]. intros t. rewrite Hq'. destruct (decide (t = x)) as [->|Hne].
      * rewrite decide_False by tauto. by rewrite decide_True by (split; [left|done]).
      * apply decide_ext. rewrite elem_of_cons. naive_solver.
Qed.

Definition hint_of (now : Z) (tenant db coll key : chars) (op : HintOperation) : HintRecord :=
  mkHint now (utf8 tenant) (utf8 db) (utf8 coll) (utf8 key) (Some op) None.

End handler.

(** ** Convergence of reads *)

Fixpoint count_values (values : list bytes) (counts : list (bytes * nat)) : list (bytes * nat) :=
  match values with
  | [] => counts
  | v :: values => count_values values (bt_insert v (S (default 0%nat (bt_get v counts))) counts)
  end.

Fixpoint best_value (counts : list (bytes * nat)) (best : bytes) (best_count : nat) : bytes :=
  match counts with
  | [] => best
  | (v, c) :: counts =>
      if bool_decide (best_count < c)%nat || (bool_decide (c = best_count) && kltb best v) then best_value counts v c
      else best_value counts best best_count
  end.

Definition choose_canonical_json (values : list bytes) : bytes := best_value (count_values values []) [] 0.

(** [maybe_converge_read_quorum] on a GET, once the values are read: the value returned,
    whether the local document is overwritten by it, and the replicas it is sent to.  A
    remote answer is [None] when the peer failed, [Some None] when it has no document. *)
Record Converged := mkConverged { canonical : bytes; update_local : bool; repair : list bytes }.

Definition converge (local_value : option bytes) (remote_reads : list (bytes * option (option bytes))) : option Converged :=
  let values := option_list local_value ++ omap (λ p, p.2 ≫= id) remote_reads in
  match values with
  | [] => None
  | _ =>
      let canonical := choose_canonical_json values in
      Some (mkConverged canonical (bool_decide (local_value ≠ Some canonical))
        (omap (λ p, if decide (p.2 = Some (Some canonical)) then None else Some p.1) remote_reads))
  end.

(** The repairs that fail are queued for the read-repair worker. *)
Definition intent_for (now : Z) (tenant db coll key canonical node : bytes) : ReadRepairIntent :=
  mkIntent now tenant db coll key node canonical (str "convergence-retry").

Fixpoint send_repairs `{RingHash} {J : JsonLine ReadRepairIntent} (rpc : bytes → PeerRequest → bool) (now : Z) (tenant db coll key canonical : bytes)
    (co : Coordinator) (nodes : list bytes) (queue : option bytes) : option bytes :=
  match nodes with
  | [] => queue
  | node :: nodes =>
      send_repairs rpc now tenant db coll key canonical co nodes
        (match repair_peer_value rpc node tenant db coll key canonical co with
         | Ok _ => queue
         | _ => rr_append (intent_for now tenant db coll key canonical node) queue
         end)
  end.

Lemma send_repairs_ok `{RingHash} {J : JsonLine ReadRepairIntent} rpc now tenant db coll key canonical co nodes queue xs :
  holds queue xs →
  ∃ failed, holds (send_repairs rpc now tenant db coll key canonical co nodes queue) (xs ++ (intent_for now tenant db coll key canonical <$> failed)) ∧
    failed `sublist_of` nodes ∧
    ∀ node, node ∈ nodes → repair_peer_value rpc node tenant db coll key canonical co = Ok tt ∨ node ∈ failed.
Proof.
  revert queue xs. induction nodes as [|x l IH]; intros queue xs Hq; cbn [send_repairs].
  - exists []. split_and!; [by rewrite app_nil_r|done|]. intros node Hn. by apply not_elem_of_nil in Hn.
  - destruct (repair_peer_value rpc x tenant db coll key canonical co) as [[]|e|] eqn:Hr.
    + destruct (IH queue xs Hq) as (fl & H1 & H2 & H3). exists fl. split_and!; [done|by constructor|].
      intros node [->|Hn]%elem_of_cons; [by left|by apply H3].
    + destruct (IH _ _ (append_holds (intent_for now tenant db coll key canonical x) _ _ Hq)) as (fl & H1 & H2 & H3).
      exists (x :: fl). rewrite <- app_assoc in H1. split_and!; [done|by constructor|].
      intros node [->|Hn]%elem_of_cons; [right; left|]. destruct (H3 node Hn); [by left|by right; right].
    + destruct (IH _ _ (append_holds (intent_for now tenant db coll key canonical x) _ _ Hq)) as (fl & H1 & H2 & H3).
      exists (x :: fl). rewrite <- app_assoc in H1. split_and!; [done|by constructor|].
      intros node [->|Hn]%elem_of_cons; [right; left|]. destruct (H3 node Hn); [by left|by right; right].
Qed.

Lemma count_values_spec values counts :
  bt_sorted counts →
  bt_sorted (count_values values counts) ∧
  ∀ v, default 0%nat (bt_get v (count_values values counts)) = (default 0%nat (bt_get v counts) + length (filter (λ x, x = v) values))%nat.
Proof.
  revert counts. induction values as [|x l IH]; intros counts Hs; cbn [count_values]; [split; [done|]; intros v; cbn; lia|].
  destruct (IH (bt_insert x (S (default 0%nat (bt_get x counts))) counts) (bt_sorted_insert _ _ _ Hs)) as [Hs' Hv].
  split; [done|]. intros v. rewrite Hv, bt_get_insert, filter_cons by done. destruct (decide (v = x)) as [->|Hne].
  - rewrite decide_True by done. cbn. lia.
  - rewrite decide_False by done. done.
Qed.

(** [best_value] returns the greatest pair, by count and then by bytes. *)
Definition beats (a b : bytes * nat) : Prop := (b.2 < a.2)%nat ∨ (a.2 = b.2 ∧ kle b.1 a.1).

Lemma beats_refl a : beats a a.
Proof. right. split; [done|]. apply kle_refl. Qed.
Lemma beats_trans a b c : beats a b → beats b c → beats a c.
Proof. intros [H1|[H1 H2]] [H3|[H3 H4]]; [left; lia..|]. right. split; [lia|]. by eapply kle_trans. Qed.

Lemma best_value_spec counts best k :
  ∃ m, (best_value counts best k, m) ∈ (best, k) :: counts ∧ ∀ p, p ∈ (best, k) :: counts → beats (best_value counts best k, m) p.
Proof.
  revert best k. induction counts as [|[v c] counts IH]; intros best k; cbn [best_value].
  - exists k. split; [left|]. intros p ->%list_elem_of_singleton. apply beats_refl.
  - assert (Hbk : (bool_decide (k < c)%nat || bool_decide (c = k) && kltb best v = true → beats (v, c) (best, k)) ∧
      (bool_decide (k < c)%nat || bool_decide (c = k) && kltb best v = false → beats (best, k) (v, c))).
    { unfold beats, kltb, kle. cbn [fst snd]. split.
      - intros [Hc%bool_decide_eq_true|[->%bool_decide_eq_true Hl]%andb_true_iff]%orb_true_iff; [by left|]. right. split; [done|]. by destruct (cmp best v).
      - intros [Hc%bool_decide_eq_false Hl]%orb_false_iff. destruct (decide (c = k)) as [->|Hne]; [|left; lia].
        rewrite bool_decide_eq_true_2 in Hl by done. right. split; [done|]. rewrite (cmp_antisym best v). by destruct (cmp best v). }
    destruct (bool_decide (k < c)%nat || bool_decide (c = k) && kltb best v) eqn:Hcond.
    + destruct (IH v c) as (m & Hin & Hall). exists m. split; [by right|]. intros p [->|Hp]%elem_of_cons; [|by apply Hall].
      eapply beats_trans; [apply Hall; left|]. by apply Hbk.
    + destruct (IH best k) as (m & Hin & Hall). exists m. split; [apply elem_of_cons in Hin as [->|Hin]; [left|by do 2 right]|]. intros p [->|[->|Hp]%elem_of_cons]%elem_of_cons.
      * apply Hall. left.
      * eapply beats_trans; [apply Hall; left|]. by apply Hbk.
      * apply Hall. by right.
Qed.

Definition occurrences (v : bytes) (values : list bytes) : nat := length (filter (λ x, x = v) values).

(** The value returned is one that was read, and none was read more often. *)
Lemma canonical_spec values :
  values ≠ [] →
  choose_canonical_json values ∈ values ∧
  ∀ v, v ∈ values → (occurrences v values ≤ occurrences (choose_canonical_json values) values)%nat.
Proof.
  intros Hne. destruct (count_values_spec values [] (SSorted_nil _)) as [Hs Hv]. unfold choose_canonical_json.
  destruct (best_value_spec (count_values values []) [] 0) as (m & Hin & Hall). set (r := best_value _ _ _) in *.
  assert (Hget : ∀ v, v ∈ values → (0 < occurrences v values)%nat ∧ bt_get v (count_values values []) = Some (occurrences v values)).
  { intros v Hv'. specialize (Hv v). cbn [bt_get from_option Nat.add] in Hv. fold (occurrences v values) in Hv.
    assert (0 < occurrences v values)%nat.
    { unfold occurrences. destruct (filter _ values) eqn:E; [|cbn; lia]. assert (v ∈ filter (λ x, x = v) values) as Hf by (by apply list_elem_of_filter).
      rewrite E in Hf. by apply not_elem_of_nil in Hf. }
    split; [done|]. destruct (bt_get v _); cbn in Hv; [by f_equal|lia]. }
  assert (Hr : r ∈ values ∧ m = occurrences r values).
  { apply elem_of_cons in Hin as [Heq|Hin].
    - exfalso. injection Heq as Hr0 Hm0. destruct values as [|v values]; [done|]. destruct (Hget v ltac:(left)) as [Hpos Hg].
      apply bt_get_elem in Hg; [|done]. destruct (Hall (v, occurrences v (v :: values))) as [Hb|[Hb _]]; [by right|cbn [fst snd] in Hb; lia..].
    - apply bt_get_elem in Hin; [|done]. specialize (Hv r). rewrite Hin in Hv. cbn in Hv. fold (occurrences r values) in Hv. split; [|done].
      destruct (Hall ([], 0%nat) ltac:(left)) as [Hb|[Hb _]]; cbn in Hb.
      + assert (Hpos : (0 < occurrences r values)%nat) by lia. unfold occurrences in Hpos. destruct (filter (λ x, x = r) values) as [|y l] eqn:E; [cbn in Hpos; lia|].
        assert (y ∈ filter (λ x, x = r) values) as [-> Hy]%list_elem_of_filter by (rewrite E; left). done.
      + destruct values as [|v values]; [done|]. destruct (Hget v ltac:(left)) as [Hp Hg]. apply bt_get_elem in Hg; [|done].
        destruct (Hall (v, occurrences v (v :: values))) as [Hb2|[Hb2 _]]; [by right|cbn [fst snd] in Hb2; lia..]. }
  destruct Hr as [Hr ->]. split; [done|]. intros v Hvin. destruct (Hget v Hvin) as [_ Hg]. apply bt_get_elem in Hg; [|done].
  destruct (Hall (v, occurrences v values)) as [Hb|[Hb _]]; [by right|cbn [fst snd] in Hb; lia..].
Qed.

(** The most frequent value wins, whatever its age: a write that one replica acknowledged
    is overwritten by a read when two replicas still have the old value. *)
Lemma stale_majority_wins :
  let new := str "2" in let old := str "1" in
  converge (Some new) [(str "B", Some (Some old)); (str "C", Some (Some old))] = Some (mkConverged old true []).
Proof. by vm_compute. Qed.

(** A replica without the document does not vote: a deleted document comes back from a
    replica that has missed the delete. *)
Lemma deleted_document_revived :
  let old := str "1" in
  converge None [(str "B", Some None); (str "C", Some (Some old))] = Some (mkConverged old true [str "B"]).
Proof. by vm_compute. Qed.

(** ** Evaluation: a write with concern 2 whose only other replica does not answer *)

