(* ===== verification/Replication.v ===== *)
(** * Replication: the log tailer, writers and lag (grumpydb-replication/src/tailer.rs,
    writer_control.rs, lag_tracker.rs)

    The tailer reads the log file of the engine while it grows: [poll_once f t] is one poll
    when the file holds the bytes [f].  Writer assignments and lags are maps. *)

From stdpp Require Import gmap.
From S2P Require Import Prelude RustStd Page VClock WalRecord WalWriter Mvcc.

Local Open Scope Z_scope.

(** ** tailer.rs *)

Section tailer.
Context {C : Crc32}.
Implicit Types (f : bytes) (r : WalRecord) (rs : list WalRecord).

Record TailedRecord := mkTailed { record : WalRecord; raw : bytes }.
Record WalTailer := mkTailer { offset : nat; pending : bytes }.
Implicit Types (t : WalTailer).

Definition tailer_open f : res WalTailer :=
  if decide (length f < WAL_HEADER_SIZE)%nat then Ok (mkTailer WAL_HEADER_SIZE [])
  else
    version ← parse_wal_header (take 18 f);
    if decide (version ≠ WAL_VERSION_V2) then Err (UnsupportedWalVersion version) else Ok (mkTailer WAL_HEADER_SIZE []).

Definition refill_pending f t : WalTailer :=
  if decide (length f ≤ offset t)%nat then t
  else mkTailer (length f) (pending t ++ drop (offset t) f).

Definition poll_once f t : option TailedRecord * WalTailer :=
  let t := refill_pending f t in
  match pending t with
  | [] => (None, t)
  | _ =>
      match from_bytes_v2 (pending t) with
      | Ok (r, consumed) => (Some (mkTailed r (take consumed (pending t))), mkTailer (offset t) (drop consumed (pending t)))
      | _ => (None, t)
      end
  end.

(** The polls of [next_record] as the file grows, and the records they return. *)
Fixpoint poll_all (fs : list bytes) t : list TailedRecord * WalTailer :=
  match fs with
  | [] => ([], t)
  | f :: fs =>
      let '(r, t) := poll_once f t in
      let '(out, t) := poll_all fs t in
      (option_list r ++ out, t)
  end.

(** The records of a log, and what the tailer has read when the first [k] bytes after the
    header were visible and [d] records were returned. *)
Definition stream rs : bytes := concat (to_bytes <$> rs).
Definition tailed r : TailedRecord := mkTailed r (to_bytes r).

Record tail_at rs (k d : nat) t : Prop := {
  ta_offset : offset t = (WAL_HEADER_SIZE + k)%nat;
  ta_done : (d ≤ length rs)%nat;
  ta_le : (length (stream (take d rs)) ≤ k)%nat;
  ta_pending : pending t = drop (length (stream (take d rs))) (take k (stream rs));
}.

Lemma stream_app rs1 rs2 : stream (rs1 ++ rs2) = stream rs1 ++ stream rs2.
Proof. unfold stream. by rewrite fmap_app, concat_app. Qed.

Lemma stream_at rs d r : rs !! d = Some r → stream rs = stream (take d rs) ++ to_bytes r ++ stream (drop (S d) rs).
Proof.
  intros Hr. rewrite <- (take_drop_middle rs d r Hr) at 1. rewrite stream_app. done.
Qed.

Lemma poll_once_eq f t :
  poll_once f t =
    let t := refill_pending f t in
    match from_bytes_v2 (pending t) with
    | Ok (r, consumed) => (Some (mkTailed r (take consumed (pending t))), mkTailer (offset t) (drop consumed (pending t)))
    | _ => (None, t)
    end.
Proof. unfold poll_once. cbv zeta. by destruct (pending (refill_pending f t)) as [|b p]. Qed.

(** One poll: it returns the next record if all of its bytes are there, else nothing. *)
Lemma poll_ok rs hdr k k' d t :
  Forall record_wf rs → length hdr = WAL_HEADER_SIZE → (k ≤ k' ≤ length (stream rs))%nat → tail_at rs k d t →
  ∃ t', match rs !! d with
        | Some r =>
            if decide (length (stream (take (S d) rs)) ≤ k')%nat then
              poll_once (hdr ++ take k' (stream rs)) t = (Some (tailed r), t') ∧ tail_at rs k' (S d) t'
            else poll_once (hdr ++ take k' (stream rs)) t = (None, t') ∧ tail_at rs k' d t'
        | None => poll_once (hdr ++ take k' (stream rs)) t = (None, t') ∧ tail_at rs k' d t'
        end.
Proof.
  intros Hwf Hhdr Hk [Ho Hd Hle Hp].
  assert (Hlen : length (take k' (stream rs)) = k') by (rewrite length_take; lia).
  assert (Hrefill : refill_pending (hdr ++ take k' (stream rs)) t = mkTailer (WAL_HEADER_SIZE + k') (drop (length (stream (take d rs))) (take k' (stream rs)))).
  { unfold refill_pending. rewrite length_app, Hhdr, Hlen, Ho. case_decide as Hcase.
    - assert (k' = k) as -> by lia. destruct t as [o p]. cbn in *. by subst.
    - f_equal. rewrite Hp, drop_app_ge by lia. rewrite Hhdr. replace (WAL_HEADER_SIZE + k - WAL_HEADER_SIZE)%nat with k by lia.
      rewrite <- (take_drop k (take k' (stream rs))) at 2. rewrite take_take. replace (k `min` k')%nat with k by lia.
      rewrite drop_app_le by (rewrite length_take; lia). done. }
  rewrite poll_once_eq, Hrefill. cbn [pending offset]. set (L := length (stream (take d rs))) in *.
  assert (Hat : tail_at rs k' d (mkTailer (WAL_HEADER_SIZE + k') (drop L (take k' (stream rs))))) by (constructor; cbn [offset pending]; done || lia).
  destruct (rs !! d) as [r|] eqn:Hr.
  - assert (Hwfr : record_wf r) by (by eapply Forall_lookup_1). pose proof (length_to_bytes r) as Hlr.
    assert (HS : length (stream (take (S d) rs)) = (L + encoded_v2_len r)%nat).
    { rewrite (take_S_r _ _ _ Hr), stream_app, length_app. unfold stream at 2. cbn [fmap list_fmap concat]. rewrite app_nil_r. lia. }
    assert (HP : drop L (take k' (stream rs)) = take (k' - L) (to_bytes r ++ stream (drop (S d) rs))).
    { rewrite (stream_at rs d r Hr). replace k' with (L + (k' - L))%nat at 1 by lia. rewrite <- take_drop_commute. by rewrite drop_app_length' by done. }
    case_decide as Hc.
    + assert (Hfrom : drop L (take k' (stream rs)) = to_bytes r ++ take (k' - (L + encoded_v2_len r)) (stream (drop (S d) rs))).
      { rewrite HP, take_app_ge by lia. do 2 f_equal. lia. }
      rewrite Hfrom, from_to_v2 by done. eexists. split.
      * do 2 f_equal. unfold tailed. f_equal. by rewrite <- Hlr, take_app_length.
      * constructor; cbn [offset pending]; [done|by eapply lookup_lt_Some|done|].
        by rewrite HS, <- drop_drop, Hfrom.
    + rewrite HP, take_app_le by lia. rewrite from_prefix_v2 by (done || lia). eexists. split; [done|].
      rewrite HP, take_app_le in Hat by lia. exact Hat.
  - apply lookup_ge_None in Hr. assert (Hall : L = length (stream rs)) by (unfold L; by rewrite take_ge).
    assert (Hnil : drop L (take k' (stream rs)) = []) by (apply drop_ge; lia). rewrite Hnil in *. eexists. by split.
Qed.

Lemma stream_take_le rs d : (length (stream (take d rs)) ≤ length (stream rs))%nat.
Proof. rewrite <- (take_drop d rs) at 2. rewrite stream_app, length_app. lia. Qed.

(** The file at the polls: [ks] bytes of the log are visible. *)
Definition seen (hdr : bytes) rs (ks : list nat) : list bytes := (λ k, hdr ++ take k (stream rs)) <$> ks.

Lemma poll_all_ok rs hdr ks k d t :
  Forall record_wf rs → length hdr = WAL_HEADER_SIZE → tail_at rs k d t →
  StronglySorted Nat.le (k :: ks) → Forall (λ k', k' ≤ length (stream rs))%nat ks →
  ∃ d', (d ≤ d')%nat ∧ (poll_all (seen hdr rs ks) t).1 = tailed <$> take (d' - d) (drop d rs) ∧
    ((length rs ≤ d + length (filter (λ k', k' = length (stream rs)) ks))%nat → d' = length rs).
Proof.
  intros Hwf Hhdr. revert k d t. induction ks as [|k' ks IH]; intros k d t Hat Hs Hk; cbn [seen fmap list_fmap poll_all].
  - exists d. split_and!; [done|by rewrite Nat.sub_diag|]. intros Hl. cbn in Hl. destruct Hat. lia.
  - apply StronglySorted_inv in Hs as [Hs Hrel]. apply Forall_cons in Hrel as [Hrel _]. apply Forall_cons in Hk as [Hk' Hk].
    destruct (poll_ok rs hdr k k' d t Hwf Hhdr ltac:(lia) Hat) as (t' & Hpoll). fold (seen hdr rs ks).
    destruct (rs !! d) as [r|] eqn:Hr.
    + pose proof (lookup_lt_Some _ _ _ Hr) as Hlt. case_decide as Hc; destruct Hpoll as [-> Hat'].
      * destruct (IH k' (S d) t' Hat' Hs Hk) as (d' & Hd & Hout & Hfull). exists d'. split; [lia|]. destruct (poll_all (seen hdr rs ks) t') as [out t2].
        cbn [fst option_list app] in *. split.
        -- rewrite (drop_S _ _ _ Hr). replace (d' - d)%nat with (S (d' - S d)) by lia. cbn [take fmap list_fmap]. by rewrite Hout.
        -- rewrite filter_cons. intros Hl. apply Hfull. destruct (decide (k' = _)); cbn [length] in Hl; lia.
      * destruct (IH k' d t' Hat' Hs Hk) as (d' & Hd & Hout & Hfull). exists d'. split; [lia|]. destruct (poll_all (seen hdr rs ks) t') as [out t2].
        cbn [fst option_list app] in *. split; [done|]. rewrite filter_cons, decide_False; [done|]. intros ->. apply Hc, stream_take_le.
    + destruct Hpoll as [-> Hat']. destruct (IH k' d t' Hat' Hs Hk) as (d' & Hd & Hout & Hfull). exists d'. split; [lia|].
      destruct (poll_all (seen hdr rs ks) t') as [out t2]. cbn [fst option_list app] in *. split; [done|]. intros _. apply Hfull.
      apply lookup_ge_None in Hr. lia.
Qed.

(** The tailer streams the log.  While the log only grows, however the bytes of a record
    become visible between polls, the tailer returns the records of the log in order, each
    once, with the bytes they have in the file, and never half a record; polled as often
    as there are records once the log is complete, it has returned them all. *)
Theorem tailer_streams rs hdr ks m :
  Forall record_wf rs → length hdr = WAL_HEADER_SIZE → StronglySorted Nat.le ks → Forall (λ k, k ≤ length (stream rs))%nat ks →
  (length rs ≤ m)%nat →
  let t := mkTailer WAL_HEADER_SIZE [] in
  (∃ d, (poll_all (seen hdr rs ks) t).1 = tailed <$> take d rs) ∧
  (poll_all (seen hdr rs (ks ++ replicate m (length (stream rs)))) t).1 = tailed <$> rs.
Proof.
  intros Hwf Hhdr Hs Hk Hm t. assert (Hat : tail_at rs 0 0 t) by (constructor; cbn; lia || done). split.
  - destruct (poll_all_ok rs hdr ks 0 0 t Hwf Hhdr Hat) as (d & _ & Hout & _); [|done|].
    + constructor; [done|]. apply Forall_true. intros. lia.
    + exists d. rewrite Hout. by rewrite Nat.sub_0_r, drop_0.
  - set (L := length (stream rs)). assert (Hall : Forall (λ k, k ≤ L)%nat (ks ++ replicate m L)).
    { apply Forall_app. split; [done|]. apply Forall_replicate. lia. }
    destruct (poll_all_ok rs hdr (ks ++ replicate m L) 0 0 t Hwf Hhdr Hat) as (d & _ & Hout & Hfull); [|done|].
    + constructor; [|apply Forall_true; intros; lia]. apply StronglySorted_app_2; [|done|].
      * intros x y Hx [-> _]%elem_of_replicate. by apply (proj1 (Forall_forall _ _) Hk x Hx).
      * clear. induction m as [|m IH]; constructor; [exact IH|]. by apply Forall_replicate.
    + rewrite Hout, Hfull, Nat.sub_0_r, drop_0, take_ge; [done|done|]. rewrite filter_app, length_app.
      assert (Hrep : filter (λ k, k = L) (replicate m L) = replicate m L).
      { clear. induction m as [|m IH]; [done|]. cbn [replicate]. rewrite filter_cons_True by done. by rewrite IH. }
      fold L. rewrite Hrep, length_replicate. lia.
Qed.

(** A checkpoint truncates the log, but the tailer keeps its offset: a record written after
    the truncation that ends at or before it is never returned. *)
Lemma truncated_log_missed r r' hdr :
  record_wf r → length hdr = WAL_HEADER_SIZE → (length (to_bytes r') ≤ length (to_bytes r))%nat →
  let '(x, t) := poll_once (hdr ++ stream [r]) (mkTailer WAL_HEADER_SIZE []) in
  x = Some (tailed r) ∧ poll_once (hdr ++ stream [r']) t = (None, t).
Proof.
  intros Hwf Hhdr Hlen. set (t0 := mkTailer WAL_HEADER_SIZE []).
  assert (Hat : tail_at [r] 0 0 t0) by (constructor; cbn; lia || done).
  destruct (poll_ok [r] hdr 0 (length (stream [r])) 0 t0 (Forall_cons_2 _ _ _ Hwf (Forall_nil_2 _)) Hhdr ltac:(lia) Hat) as (t & Hp).
  cbn [lookup list_lookup take] in Hp. rewrite decide_True, take_ge in Hp by done. destruct Hp as [-> [Ho _ _ Hpend]]. split; [done|].
  cbn [take] in Hpend. rewrite take_ge, drop_ge in Hpend by done.
  rewrite poll_once_eq. unfold refill_pending. rewrite length_app, Hhdr, Ho. unfold stream in *. cbn [fmap list_fmap concat] in *. rewrite !app_nil_r in *.
  rewrite decide_True by lia. cbv zeta. rewrite Hpend. done.
Qed.
End tailer.

Lemma tailer_streams_witness :
  let C := crc32_ieee in
  let r := page_write 1 2 3 4 [(3, 4)] 5 (str "old") (str "new") in
  (poll_all (seen (build_wal_header 2) [r] [20%nat; length (stream [r])]) (mkTailer WAL_HEADER_SIZE [])).1 = [tailed r].
Proof.
  intros C r. refine (proj2 (tailer_streams [r] (build_wal_header 2) [20%nat] 1 _ _ _ _ _)).
  - constructor; [|constructor]. apply seal_wf; try (vm_compute; intuition discriminate). apply (singleton_wf 3 4); vm_compute; intuition discriminate.
  - apply length_wal_header.
  - repeat constructor.
  - constructor; [|constructor]. apply Nat.leb_le. by vm_compute.
  - cbn. lia.
Defined.

(** ** writer_control.rs *)

Record WriterAssignment := mkAssignment { exact_ : gmap bytes bytes; defaults : gmap bytes bytes }.

Inductive WriterNotAllowed := NotWriter (database collection current_writer : bytes).

Definition assignment_empty : WriterAssignment := mkAssignment ∅ ∅.

(** [format!("{db}/{coll}")] *)
Definition exact_key (db coll : bytes) : bytes := db ++ str "/" ++ coll.

Definition set_collection (db coll node : bytes) (w : WriterAssignment) : WriterAssignment :=
  mkAssignment (<[exact_key db coll := node]> (exact_ w)) (defaults w).
Definition set_database_default (db node : bytes) (w : WriterAssignment) : WriterAssignment :=
  mkAssignment (exact_ w) (<[db := node]> (defaults w)).

Definition lookup_writer (db coll : bytes) (w : WriterAssignment) : option bytes :=
  match exact_ w !! exact_key db coll with
  | Some writer => Some writer
  | None => defaults w !! db
  end.

Definition check_writer (node db coll : bytes) (w : WriterAssignment) : outcome WriterNotAllowed unit :=
  match lookup_writer db coll w with
  | None => Ok tt
  | Some expected => if decide (node = expected) then Ok tt else Err (NotWriter db coll expected)
  end.

Definition elect (node db : bytes) (coll : option bytes) (w : WriterAssignment) : WriterAssignment :=
  match coll with
  | None => set_database_default db node w
  | Some coll => set_collection db coll node w
  end.

Lemma exact_key_inj db coll db' coll' : x2f ∉ db → x2f ∉ db' → exact_key db coll = exact_key db' coll' → db = db' ∧ coll = coll'.
Proof.
  unfold exact_key. revert db'. induction db as [|b db IH]; intros [|b' db'] H1 H2 Heq; cbn in *.
  - by injection Heq as ->.
  - injection Heq as <- _. exfalso. apply H2. left.
  - injection Heq as -> _. exfalso. apply H1. left.
  - injection Heq as <- Heq. apply not_elem_of_cons in H1 as [_ H1], H2 as [_ H2]. destruct (IH db' H1 H2 Heq) as [-> ->]. done.
Qed.

(** The latest election for a collection, else the latest for its database, decides. *)
Fixpoint elected (db coll : bytes) (es : list (bytes * bytes * option bytes)) : option bytes :=
  match es with
  | [] => None
  | (node, db', Some coll') :: es => if decide (db' = db ∧ coll' = coll) then Some node else elected db coll es
  | _ :: es => elected db coll es
  end.
Fixpoint elected_default (db : bytes) (es : list (bytes * bytes * option bytes)) : option bytes :=
  match es with
  | [] => None
  | (node, db', None) :: es => if decide (db' = db) then Some node else elected_default db es
  | _ :: es => elected_default db es
  end.

Definition run_elections (es : list (bytes * bytes * option bytes)) : WriterAssignment :=
  foldr (λ '(node, db, coll) w, elect node db coll w) assignment_empty es.

(** After any elections (latest first) on databases whose names hold no slash, exactly the
    elected node may write to a collection, and any node when none was elected. *)
Lemma single_writer es db coll node :
  x2f ∉ db → Forall (λ e, x2f ∉ e.1.2) es →
  lookup_writer db coll (run_elections es) = (match elected db coll es with Some w => Some w | None => elected_default db es end) ∧
  (check_writer node db coll (run_elections es) = Ok tt ↔
     match lookup_writer db coll (run_elections es) with Some w => w = node | None => True end).
Proof.
  intros Hdb Hes. split; [|unfold check_writer; destruct (lookup_writer _ _ _); [case_decide; naive_solver|done]].
  assert (H : exact_ (run_elections es) !! exact_key db coll = elected db coll es ∧ defaults (run_elections es) !! db = elected_default db es).
  { induction Hes as [|[[node' db'] coll'] es Hx Hes [IH1 IH2]]; [done|]. cbn [run_elections foldr elect]. fold (run_elections es). cbn in Hx.
    destruct coll' as [coll'|]; cbn [elect set_collection set_database_default exact_ defaults elected elected_default].
    - split; [|done]. case_decide as Hd; [destruct Hd as [-> ->]; by rewrite lookup_insert_eq|].
      rewrite lookup_insert_ne; [done|]. intros Heq. apply Hd. by apply exact_key_inj.
    - split; [done|]. case_decide as Hd; [subst; by rewrite lookup_insert_eq|by rewrite lookup_insert_ne]. }
  unfold lookup_writer. destruct H as [-> ->]. done.
Qed.

(** ** lag_tracker.rs *)

Record LagTracker := mkLag { peer_hlc : gmap Z Z; leader_hlc : Z }.

Definition lag_new : LagTracker := mkLag ∅ 0.
Definition set_leader_hlc (hlc : Z) (l : LagTracker) : LagTracker := mkLag (peer_hlc l) hlc.
Definition set_peer_hlc (peer hlc : Z) (l : LagTracker) : LagTracker := mkLag (<[peer := hlc]> (peer_hlc l)) (leader_hlc l).

(** [leader.saturating_sub(peer_hlc)] *)
Definition lag_of (l : LagTracker) (hlc : Z) : Z := Z.max 0 (leader_hlc l - hlc).

Definition peer_lag (peer : Z) (l : LagTracker) : option Z := lag_of l <$> peer_hlc l !! peer.

Definition max_lag (l : LagTracker) : option Z :=
  if decide (peer_hlc l = ∅) then None
  else Some (foldr Z.max 0 (lag_of l <$> (map_to_list (peer_hlc l)).*2)).

Definition all_lags (l : LagTracker) : gmap Z Z := lag_of l <$> peer_hlc l.

(** The maximum is the lag of some peer and no peer lags more. *)
Lemma max_lag_spec l m :
  max_lag l = Some m → (∃ p, peer_lag p l = Some m) ∧ ∀ p k, peer_lag p l = Some k → k ≤ m.
Proof.
  unfold max_lag. case_decide as Hne; [done|]. intros [= <-].
  assert (Hmem : ∀ k, k ∈ lag_of l <$> (map_to_list (peer_hlc l)).*2 ↔ ∃ p, peer_lag p l = Some k).
  { intros k. rewrite list_elem_of_fmap. unfold peer_lag. split.
    - intros (h & -> & ([p h'] & -> & Hp%elem_of_map_to_list)%list_elem_of_fmap). exists p. by rewrite Hp.
    - intros [p Hp]. destruct (peer_hlc l !! p) as [h|] eqn:Hl; [|done]. injection Hp as <-. exists h. split; [done|].
      apply list_elem_of_fmap. exists (p, h). split; [done|]. by apply elem_of_map_to_list. }
  assert (Hnn : Forall (λ k, 0 ≤ k) (lag_of l <$> (map_to_list (peer_hlc l)).*2)).
  { apply Forall_fmap, Forall_true. intros h. unfold lag_of. cbn. lia. }
  assert (Hmax : ∀ ks, Forall (λ k, 0 ≤ k) ks → ks ≠ [] → foldr Z.max 0 ks ∈ ks ∧ ∀ k, k ∈ ks → k ≤ foldr Z.max 0 ks).
  { clear. induction 1 as [|k ks Hk Hks IH]; intros Hne; [done|]. cbn [foldr]. destruct ks as [|k2 ks].
    - cbn. rewrite Z.max_l by lia. split; [left|]. intros x ->%list_elem_of_singleton. done.
    - destruct IH as [IH1 IH2]; [done|]. set (M := foldr Z.max 0 (k2 :: ks)) in *. split.
      + destruct (Z.max_spec k M) as [[_ ->]|[_ ->]]; [by right|left].
      + intros x [->|Hx]%elem_of_cons; [lia|]. specialize (IH2 x Hx). lia. }
  destruct (Hmax _ Hnn) as [H1 H2].
  { intros Hnil%fmap_nil_inv%fmap_nil_inv%map_to_list_empty_iff. done. }
  split; [by apply Hmem|]. intros p k Hp. apply H2, Hmem. eauto.
Qed.
