(* ===== verification/Session.v ===== *)
(** * Replication sessions and tasks (grumpydb-replication/src/session.rs, tasks.rs)

    A session is a framed channel over a byte stream, opened by a handshake; the leader
    task ships the records of the log over it and the follower task applies them.

    A transport is what reading from it will give, in the pieces the network chooses, the
    bytes that were read but not yet decoded, and the bytes written so far ([Wire]).  A
    piece of no bytes is the end of the stream, as is the end of the list.  Time enters as
    flags: whether the heartbeat or acknowledgement interval has passed at a turn. *)

From S2P Require Import Prelude RustStd Page WalRecord WalWriter AppliedSet Frame Replication.

Local Open Scope Z_scope.

Definition MIN_SUPPORTED_VERSION : Z := 1.

Record PeerIdentity := mkIdentity { cluster_id : bytes; node_id : bytes }.

Inductive AuthRejection := InvalidToken (msg : bytes).

#[export] Instance auth_rejection_eq : EqDecision AuthRejection.
Proof. solve_decision. Defined.

Inductive IoFailure := Transport | ConnectionRefused (msg : bytes).
Inductive ReplicationError := FrameErr (e : FrameError) | IoErr (e : IoFailure).

Inductive SessionError :=
| SReplication (e : ReplicationError)
| UnexpectedFrame (t : FrameType)
| Closed
| ClusterMismatch (local remote : bytes)
| VersionTooLow (peer min : Z)
| VersionTooHigh (peer max : Z)
| AuthRejected (e : AuthRejection)
| NodeIdSpoofing (hello token : bytes).

Record PeerSession := mkSession {
  remote_node_id : bytes;
  remote_high_water_hlc : option Z;
  negotiated_version : Z;
}.

(** ** The transport *)

Inductive Read := Data (b : bytes) | ReadFails.

Record Wire := mkWire { incoming : list Read; read_buf : bytes; outgoing : bytes; writable : bool }.

Definition with_reads (rs : list Read) (buf : bytes) (w : Wire) : Wire := mkWire rs buf (outgoing w) (writable w).
Definition with_written (b : bytes) (w : Wire) : Wire := mkWire (incoming w) (read_buf w) (outgoing w ++ b) (writable w).

Definition debug_type (t : FrameType) : bytes :=
  str match t with
      | THello => "Hello" | THelloAck => "HelloAck" | TSubscribe => "Subscribe" | TWalRecord => "WalRecord"
      | TAck => "Ack" | THeartbeat => "Heartbeat" | TBye => "Bye"
      end.

(** ** session.rs *)

Section session.
Context {C : Crc32}.

Definition write_frame_raw (f : Frame) : ST Wire ReplicationError unit := λ w,
  match encode_frame f with
  | Ok b => if writable w then (Ok tt, with_written b w) else (Err (IoErr Transport), w)
  | Err e => (Err (FrameErr e), w)
  | Panic => (Panic, w)
  end.

Definition write_bye (reason : bytes) : ST Wire ReplicationError unit := write_frame_raw (Bye reason).

(** The loop of [read_one_frame] on the reads to come. *)
Fixpoint read_loop (rs : list Read) (buf : bytes) : outcome SessionError Frame * list Read * bytes :=
  match decode_frame buf with
  | Ok (Some (frame, consumed)) => (Ok frame, rs, drop consumed buf)
  | Ok None =>
      match rs with
      | Data ((_ :: _) as b) :: rs => read_loop rs (buf ++ b)
      | ReadFails :: rs => (Err (SReplication (IoErr Transport)), rs, buf)
      | [] | Data [] :: _ =>
          (match buf with
           | [] => Err Closed
           | _ => Err (SReplication (FrameErr (TruncatedPayload THello (Z.to_nat MAX_FRAME_PAYLOAD) (length buf))))
           end, rs, buf)
      end
  | Err e => (Err (SReplication (FrameErr e)), rs, buf)
  | Panic => (Panic, rs, buf)
  end.

Definition read_one_frame : ST Wire SessionError Frame := λ w,
  let '(r, rs, buf) := read_loop (incoming w) (read_buf w) in (r, with_reads rs buf w).

Definition connect_initiator (local : PeerIdentity) (token : bytes) : ST Wire SessionError PeerSession :=
  _ ← st_map_err SReplication (write_frame_raw (Hello PROTOCOL_VERSION (cluster_id local) (node_id local) token));
  frame ← read_one_frame;
  match frame with
  | HelloAck version node hlc =>
      if decide (version < MIN_SUPPORTED_VERSION) then st_fail (VersionTooLow version MIN_SUPPORTED_VERSION)
      else if decide (PROTOCOL_VERSION < version) then st_fail (VersionTooHigh version PROTOCOL_VERSION)
      else mret (mkSession node (Some hlc) version)
  | Bye reason => st_fail (SReplication (IoErr (ConnectionRefused (str "responder closed: " ++ reason))))
  | other => st_fail (UnexpectedFrame (frame_type other))
  end.

Definition accept_responder (local : PeerIdentity) (local_high_water_hlc : Z) (verify_peer_token : bytes → outcome AuthRejection bytes) :
    ST Wire SessionError PeerSession :=
  frame ← read_one_frame;
  match frame with
  | Hello version cluster node token =>
      if decide (cluster ≠ cluster_id local) then
        _ ← st_ignore (write_bye (str "cluster_id mismatch"));
        st_fail (ClusterMismatch (cluster_id local) cluster)
      else if decide (version < MIN_SUPPORTED_VERSION) then
        _ ← st_ignore (write_bye (str "protocol version below minimum"));
        st_fail (VersionTooLow version MIN_SUPPORTED_VERSION)
      else
        let negotiated := Z.min version PROTOCOL_VERSION in
        match verify_peer_token token with
        | Ok token_node_id =>
            if decide (token_node_id ≠ node) then
              _ ← st_ignore (write_bye (str "node_id spoofing"));
              st_fail (NodeIdSpoofing node token_node_id)
            else
              _ ← st_map_err SReplication (write_frame_raw (HelloAck negotiated (node_id local) local_high_water_hlc));
              mret (mkSession node None negotiated)
        | Err e =>
            _ ← st_ignore (write_bye (str "auth rejected"));
            st_fail (AuthRejected e)
        | Panic => st_lift Panic
        end
  | other =>
      _ ← st_ignore (write_bye (str "expected Hello"));
      st_fail (UnexpectedFrame (frame_type other))
  end.

Definition send_frame (f : Frame) : ST Wire ReplicationError unit := write_frame_raw f.
Definition recv_frame : ST Wire SessionError Frame := read_one_frame.

(** ** tasks.rs: the leader *)

Inductive LeaderShutdown := PeerBye (reason : bytes) | PeerClosed.
Inductive LeaderError := LSession (e : SessionError) | LUnexpected (t : FrameType).

(** [update_high_water]: the handles only read the slot, so an exchange that fails saw the
    value it expected and the loop ends with the greater of the two. *)
Definition update_high_water (slot candidate : Z) : Z := if decide (slot < candidate) then candidate else slot.

Definition should_ship (rec : TailedRecord) (start_node : bytes) (start_hlc : Z) : bool :=
  if decide (r_origin_node_id (record rec) ≠ as_u128 start_node) then false
  else bool_decide (start_hlc ≤ r_hlc (record rec)).

(** Step 1 of [run]: the subscription, or an early end. *)
Definition await_subscribe : ST Wire LeaderError (LeaderShutdown + bytes * Z) :=
  frame ← st_map_err LSession recv_frame;
  match frame with
  | Subscribe node hlc => mret (inr (node, hlc))
  | Bye reason => mret (inl (PeerBye reason))
  | other =>
      _ ← st_ignore (send_frame (Bye (str "expected Subscribe, got " ++ debug_type (frame_type other))));
      st_fail (LUnexpected (frame_type other))
  end.

(** The reader subtask: what it sends to the channel, until a terminal result. *)
Definition is_terminal (r : outcome SessionError Frame) : bool :=
  match r with
  | Err Closed | Err (SReplication _) | Ok (Bye _) | Panic => true
  | _ => false
  end.

Fixpoint reader_loop (fuel : nat) (w : Wire) : option (list (outcome SessionError Frame)) :=
  match fuel with
  | O => None
  | S fuel =>
      let '(frame, w) := recv_frame w in
      if is_terminal frame then Some [frame] else cons frame <$> reader_loop fuel w
  end.

(** [rx.try_recv()] *)
Inductive Inbound := Empty | Disconnected | Received (r : outcome SessionError Frame).

Record LeaderTask := mkLeader { l_wire : Wire; tailer : WalTailer; peer_high_water : Z }.

(** What breaks the streaming loop on the inbound side, with the new watermark. *)
Definition drain_inbound (start_node : bytes) (inb : Inbound) (l : LeaderTask) : option (outcome LeaderError LeaderShutdown) * LeaderTask :=
  match inb with
  | Received (Ok (Ack node hlc)) =>
      (None, if decide (as_u128 node = as_u128 start_node) then mkLeader (l_wire l) (tailer l) (update_high_water (peer_high_water l) hlc) else l)
  | Received (Ok (Bye reason)) => (Some (Ok (PeerBye reason)), l)
  | Received (Ok (Heartbeat _)) => (None, l)
  | Received (Ok other) =>
      (Some (Err (LUnexpected (frame_type other))),
       mkLeader (send_frame (Bye (str "unexpected inbound frame " ++ debug_type (frame_type other))) (l_wire l)).2 (tailer l) (peer_high_water l))
  | Received (Err Closed) => (Some (Ok PeerClosed), l)
  | Received (Err e) => (Some (Err (LSession e)), l)
  | Received Panic => (Some Panic, l)
  | Empty => (None, l)
  | Disconnected => (Some (Ok PeerClosed), l)
  end.

(** [if let Err(e) = writer.send_frame(..).await { break Err(..) }] *)
Definition leader_send (f : Frame) (l : LeaderTask) : option (outcome LeaderError LeaderShutdown) * LeaderTask :=
  let '(r, w) := send_frame f (l_wire l) in
  (match r with Ok _ => None | Err e => Some (Err (LSession (SReplication e))) | Panic => Some Panic end, mkLeader w (tailer l) (peer_high_water l)).

(** One turn of the loop: [f] is the log file, [quiet] that the heartbeat interval has passed. *)
Definition leader_turn (start_node : bytes) (start_hlc : Z) (inb : Inbound) (f : bytes) (quiet : bool) (l : LeaderTask) :
    option (outcome LeaderError LeaderShutdown) * LeaderTask :=
  match drain_inbound start_node inb l with
  | (Some r, l) => (Some r, l)
  | (None, l) =>
      let '(pull, t) := poll_once f (tailer l) in
      let l := mkLeader (l_wire l) t (peer_high_water l) in
      match pull with
      | Some rec => if should_ship rec start_node start_hlc then leader_send (WalRecordFrame (raw rec)) l else (None, l)
      | None => if quiet then leader_send (Heartbeat 0) l else (None, l)
      end
  end.

Fixpoint leader_loop (start_node : bytes) (start_hlc : Z) (turns : list (Inbound * bytes * bool)) (l : LeaderTask) :
    option (outcome LeaderError LeaderShutdown) * LeaderTask :=
  match turns with
  | [] => (None, l)
  | (inb, f, quiet) :: turns =>
      match leader_turn start_node start_hlc inb f quiet l with
      | (None, l) => leader_loop start_node start_hlc turns l
      | stop => stop
      end
  end.

(** ** tasks.rs: the follower *)

Inductive FollowerShutdown := LeaderBye (reason : bytes) | LeaderClosed.
Inductive FollowerError := FSession (e : SessionError) | FApply (e : ApplyError) | FUnexpected (t : FrameType).

Definition peek_record_hlc (raw : bytes) : option Z :=
  if decide (length raw < 45)%nat then None else Some (le_at 37 8 raw).

Record FollowerTask (A : Type) := mkFollower { f_wire : Wire; applier : A; applied_high_water : Z; applied_since_ack : Z }.
End session.
Arguments mkFollower {A} _ _ _ _.
Arguments f_wire {A} _.
Arguments applier {A} _.
Arguments applied_high_water {A} _.
Arguments applied_since_ack {A} _.

Section follower.
Context {C : Crc32} {A : Type} (apply : bytes → ST A ApplyError unit) (every_n : Z).
Implicit Types (t : FollowerTask A).

Definition follower_send (f : Frame) t : outcome FollowerError unit * FollowerTask A :=
  let '(r, w) := st_map_err (λ e, FSession (SReplication e)) (send_frame f) (f_wire t) in
  (r, mkFollower w (applier t) (applied_high_water t) (applied_since_ack t)).

(** A record: peek its HLC, apply it, raise the watermark, and acknowledge when [every_n]
    records have come since the last acknowledgement or the interval has passed. *)
Definition follower_record (start_node raw : bytes) (late : bool) t : outcome FollowerError unit * FollowerTask A :=
  let hlc := default 0 (peek_record_hlc raw) in
  let '(r, a) := apply raw (applier t) in
  match r with
  | Ok _ =>
      let hw := if decide (0 < hlc) then update_high_water (applied_high_water t) hlc else applied_high_water t in
      let t := mkFollower (f_wire t) a hw (applied_since_ack t + 1) in
      if bool_decide (every_n ≤ applied_since_ack t) || late then
        let '(r, t) := follower_send (Ack start_node (applied_high_water t)) t in
        match r with
        | Ok _ => (Ok tt, mkFollower (f_wire t) (applier t) (applied_high_water t) 0)
        | r => (r, t)
        end
      else (Ok tt, t)
  | Err e => (Err (FApply e), mkFollower (f_wire t) a (applied_high_water t) (applied_since_ack t))
  | Panic => (Panic, mkFollower (f_wire t) a (applied_high_water t) (applied_since_ack t))
  end.

(** One turn of the apply loop: [None] to go on. *)
Definition follower_turn (start_node : bytes) (late : bool) t : option (outcome FollowerError FollowerShutdown) * FollowerTask A :=
  let '(r, w) := recv_frame (f_wire t) in
  let t := mkFollower w (applier t) (applied_high_water t) (applied_since_ack t) in
  match r with
  | Ok (WalRecordFrame raw) =>
      let '(r, t) := follower_record start_node raw late t in
      (match r with Ok _ => None | Err e => Some (Err e) | Panic => Some Panic end, t)
  | Ok (Heartbeat _) => (None, t)
  | Ok (Bye reason) => (Some (Ok (LeaderBye reason)), t)
  | Ok other =>
      (Some (Err (FUnexpected (frame_type other))), (follower_send (Bye (str "unexpected frame " ++ debug_type (frame_type other))) t).2)
  | Err Closed => (Some (Ok LeaderClosed), t)
  | Err e => (Some (Err (FSession e)), t)
  | Panic => (Some Panic, t)
  end.

(** [late n]: the acknowledgement interval has passed when the frame comes with [n] turns of
    fuel left. *)
Fixpoint follower_loop (fuel : nat) (start_node : bytes) (late : nat → bool) t : option (outcome FollowerError FollowerShutdown) * FollowerTask A :=
  match fuel with
  | O => (None, t)
  | S fuel =>
      match follower_turn start_node (late fuel) t with
      | (None, t) => follower_loop fuel start_node late t
      | stop => stop
      end
  end.

Definition follower_run (fuel : nat) (start_node : bytes) (start_hlc : Z) (late : nat → bool) t :
    option (outcome FollowerError FollowerShutdown) * FollowerTask A :=
  match follower_send (Subscribe start_node start_hlc) t with
  | (Ok _, t) => follower_loop fuel start_node late t
  | (Err e, t) => (Some (Err e), t)
  | (Panic, t) => (Some Panic, t)
  end.
End follower.
