(* ===== verification/SessionSpec.v ===== *)
(** * Replication sessions: framing, handshake and the way of a log record to a follower *)

From S2P Require Import Prelude RustStd Page WalRecord WalWriter AppliedSet Frame Replication Session.

Local Open Scope Z_scope.

Section wire.
Context {C : Crc32}.
Implicit Types (w : Wire) (f : Frame).

(** ** Framing *)

(** Reading gives the bytes [b], in some pieces, and then the end of the stream. *)
Definition delivers w (b : bytes) : Prop :=
  ∃ bs, incoming w = Data <$> bs ∧ Forall (λ x, x ≠ []) bs ∧ read_buf w ++ concat bs = b.

(** The encodings of frames, one after the other. *)
Definition encode_all (fs : list Frame) : bytes := concat ((λ f, match encode_frame f with Ok b => b | _ => [] end) <$> fs).
Definition sendable f : Prop := frame_ok f ∧ Z.of_nat (length (encode_payload f)) ≤ MAX_FRAME_PAYLOAD.

Lemma sendable_enc f : sendable f → ∃ enc, encode_frame f = Ok enc.
Proof. intros [_ Hl]. unfold encode_frame. rewrite decide_False by lia. eauto. Qed.

Lemma encode_all_cons f fs enc : encode_frame f = Ok enc → encode_all (f :: fs) = enc ++ encode_all fs.
Proof. intros He. unfold encode_all. cbn. by rewrite He. Qed.

Lemma encode_all_app fs gs : encode_all (fs ++ gs) = encode_all fs ++ encode_all gs.
Proof. unfold encode_all. by rewrite fmap_app, concat_app. Qed.

Lemma read_loop_next f enc rest bs buf :
  frame_ok f → encode_frame f = Ok enc → Forall (λ x, x ≠ []) bs → buf ++ concat bs = enc ++ rest →
  ∃ bs' buf', read_loop (Data <$> bs) buf = (Ok f, Data <$> bs', buf') ∧ Forall (λ x, x ≠ []) bs' ∧ buf' ++ concat bs' = rest.
Proof.
  intros Hf He. revert buf. induction bs as [|b bs IH]; intros buf Hne Heq; destruct (decide (length buf < length enc)%nat) as [Hlt|Hge].
  1: { apply (f_equal length) in Heq. rewrite !length_app in Heq. cbn in Heq. lia. }
  2: { assert (Hbuf : buf = take (length buf) enc).
       { apply (f_equal (take (length buf))) in Heq. rewrite take_app_length, take_app_le in Heq by lia. done. }
       assert (Hd : decode_frame buf = Ok None) by (rewrite Hbuf; by eapply decode_prefix).
       apply Forall_cons in Hne as [Hb Hne]. cbn [fmap list_fmap read_loop]. rewrite Hd. destruct b as [|x b]; [done|].
       apply IH; [done|]. rewrite <- app_assoc. exact Heq. }
  all: assert (Hbuf : buf = enc ++ drop (length enc) buf) by
         (rewrite <- (take_drop (length enc) buf) at 1; f_equal; apply (f_equal (take (length enc))) in Heq;
          rewrite take_app_le, take_app_length in Heq by lia; done).
  all: pose proof (decode_whole f enc (drop (length enc) buf) Hf He) as Hd; rewrite <- Hbuf in Hd.
  all: eexists _, (drop (length enc) buf); split_and!; [|exact Hne|].
  1,3: cbn [fmap list_fmap read_loop]; by rewrite Hd.
  all: rewrite Hbuf, <- app_assoc in Heq; by apply app_inv_head in Heq.
Qed.

Lemma read_next w f enc rest :
  frame_ok f → encode_frame f = Ok enc → delivers w (enc ++ rest) →
  ∃ w', read_one_frame w = (Ok f, w') ∧ delivers w' rest ∧ outgoing w' = outgoing w ∧ writable w' = writable w.
Proof.
  intros Hf He (bs & Hin & Hne & Heq). destruct (read_loop_next f enc rest bs (read_buf w) Hf He Hne Heq) as (bs' & buf' & Hr & Hne' & Heq').
  unfold read_one_frame. rewrite Hin, Hr. eexists. split; [done|]. split; [|done]. by exists bs'.
Qed.

Lemma read_closed w : delivers w [] → ∃ w', read_one_frame w = (Err Closed, w') ∧ outgoing w' = outgoing w ∧ writable w' = writable w.
Proof.
  intros (bs & Hin & Hne & Heq). apply app_eq_nil in Heq as [Hb Hc]. unfold read_one_frame. rewrite Hin, Hb.
  destruct bs as [|b bs]; [by eexists|]. apply Forall_cons in Hne as [Hx _]. cbn in Hc. by apply app_eq_nil in Hc as [? _].
Qed.

Lemma write_sends w f enc : encode_frame f = Ok enc → writable w = true → write_frame_raw f w = (Ok tt, with_written enc w).
Proof. intros He Hw. unfold write_frame_raw. by rewrite He, Hw. Qed.

Lemma delivers_written w b enc : delivers (with_written enc w) b ↔ delivers w b.
Proof. done. Qed.

(** ** Termination: every frame takes bytes from the stream *)

Definition read_bytes (r : Read) : nat := match r with Data b => length b | ReadFails => 0 end.
Definition unread w : nat := length (read_buf w) + sum_list_with read_bytes (incoming w).

Lemma decode_consumes buf f n : decode_frame buf = Ok (Some (f, n)) → (0 < n ≤ length buf)%nat.
Proof.
  intros Hd. destruct (decode_sound_frame buf f n Hd) as (_ & Hn & He). pose proof (enc_length f _ He) as Hl.
  rewrite length_take in Hl. lia.
Qed.

Lemma read_loop_shrinks rs buf f rs' buf' :
  read_loop rs buf = (Ok f, rs', buf') →
  (length buf' + sum_list_with read_bytes rs' < length buf + sum_list_with read_bytes rs)%nat.
Proof.
  revert buf. induction rs as [|r rs IH]; intros buf; cbn [read_loop sum_list_with];
    destruct (decode_frame buf) as [[[g n]|]|e|] eqn:Hd; try done.
  - intros [= -> <- <-]. apply decode_consumes in Hd. rewrite length_drop. cbn. lia.
  - by destruct buf.
  - intros [= -> <- <-]. apply decode_consumes in Hd. rewrite length_drop. cbn. lia.
  - destruct r as [[|x b]|]; [by destruct buf| |done]. intros Hr. specialize (IH _ Hr). rewrite length_app in IH. cbn [read_bytes]. lia.
Qed.

Lemma recv_shrinks w f w' : recv_frame w = (Ok f, w') → (unread w' < unread w)%nat.
Proof.
  unfold recv_frame, read_one_frame. destruct (read_loop (incoming w) (read_buf w)) as [[r rs] buf] eqn:Hr. intros [= -> <-].
  unfold unread. cbn. by eapply read_loop_shrinks.
Qed.

Lemma recv_terminal w r w' : recv_frame w = (r, w') → is_terminal r = false → ∃ f, r = Ok f.
Proof.
  unfold recv_frame, read_one_frame. destruct (read_loop (incoming w) (read_buf w)) as [[r0 rs] buf] eqn:Hr. intros [= <- <-] Ht.
  destruct r0 as [f|e|]; [eauto| |done]. exfalso. clear -Hr Ht. revert Hr. generalize (read_buf w). generalize (incoming w) as xs.
  induction xs as [|x xs IH]; intros b; cbn [read_loop]; destruct (decode_frame b) as [[[g n]|]|e'|]; try done; try (by intros [= <- _ _]).
  - destruct b; by intros [= <- _ _].
  - destruct x as [[|y d]|]; [destruct b; by intros [= <- _ _]|apply IH|by intros [= <- _ _]].
Qed.

(** The reader subtask ends. *)
Lemma reader_terminates fuel w : (unread w < fuel)%nat → is_Some (reader_loop fuel w).
Proof.
  revert w. induction fuel as [|fuel IH]; intros w Hf; [lia|]. cbn [reader_loop]. destruct (recv_frame w) as [r w'] eqn:Hr.
  destruct (is_terminal r) eqn:Ht; [eauto|]. destruct (recv_terminal _ _ _ Hr Ht) as [f ->]. apply recv_shrinks in Hr.
  apply fmap_is_Some, IH. lia.
Qed.

(** ** The handshake *)

Definition uuid (u : bytes) : Prop := length u = 16%nat.
Definition identity_ok (p : PeerIdentity) : Prop := uuid (cluster_id p) ∧ uuid (node_id p).
Definition token_ok (t : bytes) : Prop := utf8_valid t = true ∧ Z.of_nat (length t) < 65536.

Lemma read_keeps w r w' : read_one_frame w = (r, w') → outgoing w' = outgoing w ∧ writable w' = writable w.
Proof. unfold read_one_frame. destruct (read_loop _ _) as [[? ?] ?]. by intros [= <- <-]. Qed.

Lemma hello_sendable li token : identity_ok li → token_ok token → sendable (Hello PROTOCOL_VERSION (cluster_id li) (node_id li) token).
Proof.
  intros [Hc Hn] [Hu Hl]. unfold uuid in *. split; [done|]. cbn [encode_payload]. unfold len_prefix. len. change MAX_FRAME_PAYLOAD with 1048576. lia.
Qed.

Lemma bye_sendable reason : utf8_valid reason = true → Z.of_nat (length reason) < 65536 → sendable (Bye reason).
Proof. intros Hu Hl. split; [done|]. cbn [encode_payload]. unfold len_prefix. len. change MAX_FRAME_PAYLOAD with 1048576. lia. Qed.

Lemma ack_sendable lr hlc : identity_ok lr → is_u64 hlc → sendable (HelloAck PROTOCOL_VERSION (node_id lr) hlc).
Proof. intros [_ Hn] Hh. unfold uuid in *. split; [done|]. cbn [encode_payload]. len. change MAX_FRAME_PAYLOAD with 1048576. lia. Qed.

(** The initiator: its greeting goes out, and the first frame that comes in decides. *)
Lemma connect_spec li token w enc :
  encode_frame (Hello PROTOCOL_VERSION (cluster_id li) (node_id li) token) = Ok enc → writable w = true →
  outgoing (connect_initiator li token w).2 = outgoing w ++ enc ∧
  (delivers w [] → (connect_initiator li token w).1 = Err Closed) ∧
  (∀ f b, sendable f → encode_frame f = Ok b → delivers w b →
     match f with
     | HelloAck 1 node hlc =>
         (connect_initiator li token w).1 = Ok (mkSession node (Some hlc) 1) ∧ delivers (connect_initiator li token w).2 []
     | Bye _ => ∃ e, (connect_initiator li token w).1 = Err e
     | _ => True
     end).
Proof.
  intros He Hw. unfold connect_initiator. erewrite st_step by (unfold st_map_err; rewrite (write_sends w _ enc He Hw); reflexivity).
  set (w1 := with_written enc w). split_and!.
  - destruct (read_one_frame w1) as [r w2] eqn:Hr. destruct (read_keeps _ _ _ Hr) as [Ho _]. unfold mbind, st_bind. rewrite Hr.
    destruct r as [[]|?|]; cbn -[decide]; repeat case_decide; done.
  - intros Hd. destruct (read_closed w1 Hd) as (w2 & Hr & _). unfold mbind, st_bind. by rewrite Hr.
  - intros f b [Hf _] Hb Hd. destruct (read_next w1 f b [] Hf Hb) as (w2 & Hr & Hd2 & _); [by rewrite app_nil_r|].
    unfold mbind, st_bind. rewrite Hr. destruct f as [| [|[]|] | | | | |]; try done. cbn. eauto.
Qed.

Definition answered (w : Wire) (f : Frame) (w' : Wire) : Prop := sendable f ∧ outgoing w' = outgoing w ++ encode_all [f].

Lemma refuse_spec {A} w e reason :
  writable w = true → utf8_valid reason = true → Z.of_nat (length reason) < 65536 →
  ∃ w', (st_ignore (write_bye reason) ≫= λ _, st_fail e : ST Wire SessionError A) w = (Err e, w') ∧ answered w (Bye reason) w'.
Proof.
  intros Hw Hu Hl. pose proof (bye_sendable reason Hu Hl) as Hs. destruct (sendable_enc _ Hs) as [enc He].
  eexists. split; [|split; [exact Hs|]].
  - unfold mbind, st_bind, st_ignore, write_bye. rewrite (write_sends w _ enc He Hw). reflexivity.
  - cbn [outgoing with_written]. rewrite (encode_all_cons _ _ enc He). by rewrite app_nil_r.
Qed.

(** The responder on a well-formed greeting. *)
Lemma accept_spec li lr token hlc verify w enc :
  identity_ok li → identity_ok lr → token_ok token → is_u64 hlc → writable w = true →
  encode_frame (Hello PROTOCOL_VERSION (cluster_id li) (node_id li) token) = Ok enc → delivers w enc →
  ∃ r w', accept_responder lr hlc verify w = (r, w') ∧
    if decide (cluster_id li = cluster_id lr ∧ verify token = Ok (node_id li)) then
      r = Ok (mkSession (node_id li) None 1) ∧ delivers w' [] ∧ answered w (HelloAck 1 (node_id lr) hlc) w'
    else (∀ s, r ≠ Ok s) ∧ ((∃ reason, answered w (Bye reason) w') ∨ outgoing w' = outgoing w).
Proof.
  intros Hi Hr Ht Hh Hw He Hd. destruct (read_next w _ enc [] (proj1 (hello_sendable li token Hi Ht)) He) as (w1 & Hread & Hd1 & Ho1 & Hw1); [by rewrite app_nil_r|].
  rewrite Hw in Hw1. unfold accept_responder. rewrite (st_step _ _ _ _ _ Hread).
  assert (Hrefuse : ∀ e reason, utf8_valid reason = true → Z.of_nat (length reason) < 65536 →
    ∃ r w', (st_ignore (write_bye reason) ≫= λ _, st_fail e : ST Wire SessionError PeerSession) w1 = (r, w') ∧
      (∀ s, r ≠ Ok s) ∧ ((∃ reason, answered w (Bye reason) w') ∨ outgoing w' = outgoing w)).
  { intros e reason Hu Hl. destruct (refuse_spec (A := PeerSession) w1 e reason Hw1 Hu Hl) as (w2 & -> & Ha). do 2 eexists. split; [done|].
    split; [done|]. left. exists reason. unfold answered in *. by rewrite <- Ho1. }
  destruct (decide (cluster_id li = cluster_id lr ∧ verify token = Ok (node_id li))) as [[Hc Hv]|Hno].
  - destruct (decide (cluster_id li ≠ cluster_id lr)) as [|_]; [done|]. rewrite Hv. destruct (decide (PROTOCOL_VERSION < _)) as [|_]; [done|].
    destruct (decide (node_id li ≠ node_id li)) as [|_]; [done|].
    rewrite Z.min_id. pose proof (ack_sendable lr hlc Hr Hh) as Hs. destruct (sendable_enc _ Hs) as [enc' He'].
    do 2 eexists. split; [unfold mbind, st_bind, st_map_err; rewrite (write_sends w1 _ enc' He' Hw1); reflexivity|].
    split_and!; [done|by apply delivers_written|]. split; [exact Hs|]. cbn [outgoing with_written]. rewrite Ho1. f_equal.
    change (HelloAck 1 (node_id lr) hlc) with (HelloAck PROTOCOL_VERSION (node_id lr) hlc). rewrite (encode_all_cons _ _ enc' He'). by rewrite app_nil_r.
  - destruct (decide (cluster_id li ≠ cluster_id lr)) as [Hc|Hc%dec_stable]; [by apply Hrefuse|].
    destruct (decide (PROTOCOL_VERSION < _)) as [|_]; [done|]. destruct (verify token) as [id|e|] eqn:Hv; [|by apply Hrefuse|].
    + destruct (decide (id ≠ node_id li)) as [Hid|Hid%dec_stable]; [by apply Hrefuse|]. exfalso. apply Hno. by subst.
    + do 2 eexists. split; [reflexivity|]. split; [done|by right].
Qed.

(** C20: The two ends of a handshake agree.  Whatever pieces the network cuts the bytes into,
    when each side reads what the other wrote, both get a session, of the same version and
    naming each other, with nothing left unread, exactly when they belong to the same
    cluster and the token is one that the authenticator issued to the node that presents
    it; otherwise both fail.  And no bytes at all open a session on the responder's side
    unless they hold a token that verifies for the node the session names. *)
Theorem handshake_agrees li lr token hlc verify wi wr :
  identity_ok li → identity_ok lr → token_ok token → is_u64 hlc →
  writable wi = true → writable wr = true → outgoing wi = [] → outgoing wr = [] →
  delivers wr (outgoing (connect_initiator li token wi).2) → delivers wi (outgoing (accept_responder lr hlc verify wr).2) →
  (if decide (cluster_id li = cluster_id lr ∧ verify token = Ok (node_id li)) then
     (connect_initiator li token wi).1 = Ok (mkSession (node_id lr) (Some hlc) 1) ∧
     (accept_responder lr hlc verify wr).1 = Ok (mkSession (node_id li) None 1) ∧
     delivers (connect_initiator li token wi).2 [] ∧ delivers (accept_responder lr hlc verify wr).2 []
   else (∃ e, (connect_initiator li token wi).1 = Err e) ∧ ∀ s, (accept_responder lr hlc verify wr).1 ≠ Ok s) ∧
  (∀ w s w', accept_responder lr hlc verify w = (Ok s, w') → ∃ t, verify t = Ok (remote_node_id s)).
Proof.
  intros Hi Hr Ht Hh Hwi Hwr Hoi Hor Hdr Hdi. destruct (sendable_enc _ (hello_sendable li token Hi Ht)) as [enc He].
  destruct (connect_spec li token wi enc He Hwi) as (Hout & Hclosed & Hfirst). rewrite Hout, Hoi in Hdr. cbn [app] in Hdr.
  destruct (accept_spec li lr token hlc verify wr enc Hi Hr Ht Hh Hwr He Hdr) as (r & w' & Hacc & Hcase).
  rewrite Hacc in *. cbn [fst snd] in *. split.
  - case_decide as Hok.
    + destruct Hcase as (-> & Hd' & [Hs Ho]). destruct (sendable_enc _ Hs) as [b Hb]. rewrite Ho, Hor, (encode_all_cons _ _ b Hb), app_nil_r in Hdi.
      destruct (Hfirst _ b Hs Hb Hdi) as [-> Hd2]. done.
    + destruct Hcase as [Hno Hans]. split; [|done]. destruct Hans as [[reason [Hs Ho]]|Ho].
      * destruct (sendable_enc _ Hs) as [b Hb]. rewrite Ho, Hor, (encode_all_cons _ _ b Hb), app_nil_r in Hdi. exact (Hfirst _ b Hs Hb Hdi).
      * rewrite Ho, Hor in Hdi. eauto.
  - clear. intros w s w'. unfold accept_responder, mbind, st_bind, st_ignore, st_map_err. destruct (read_one_frame w) as [[f|e|] w1]; [|done..].
    destruct f as [version cluster node token| | | | | |]; repeat case_match; try done; intros; simplify_eq/=; try done.
    rename select (_ = (Ok s, _)) into Hs. injection Hs as <- <-. exists token. cbn. rename select (¬ a ≠ node) into Ha. by rewrite <- (dec_stable Ha).
Qed.

(** ** The leader *)

(** Frames a follower sends while it follows. *)
Definition harmless (inb : Inbound) : Prop :=
  match inb with Empty | Received (Ok (Ack _ _)) | Received (Ok (Heartbeat _)) => True | _ => False end.

(** The frames of a stream, and the records they carry. *)
Definition benign f : Prop := sendable f ∧ match f with WalRecordFrame _ | Heartbeat _ => True | _ => False end.
Definition carried (fs : list Frame) : list bytes := omap (λ f, match f with WalRecordFrame r => Some r | _ => None end) fs.
Definition small (b : bytes) : Prop := Z.of_nat (length b) ≤ MAX_FRAME_PAYLOAD.

Lemma leader_send_ok f l :
  sendable f → writable (l_wire l) = true →
  ∃ l', leader_send f l = (None, l') ∧ outgoing (l_wire l') = outgoing (l_wire l) ++ encode_all [f] ∧ writable (l_wire l') = true ∧ tailer l' = tailer l.
Proof.
  intros Hs Hw. destruct (sendable_enc f Hs) as [enc He]. unfold leader_send, send_frame. rewrite (write_sends _ _ enc He Hw).
  eexists. split; [done|]. cbn [l_wire with_written outgoing writable tailer]. by rewrite (encode_all_cons _ _ enc He), app_nil_r.
Qed.

Lemma drain_harmless node inb l :
  harmless inb → ∃ l', drain_inbound node inb l = (None, l') ∧ l_wire l' = l_wire l ∧ tailer l' = tailer l.
Proof. destruct inb as [| |[[]|e|]]; try done; intros _; cbn; [by eexists| |by eexists]. case_decide; by eexists. Qed.

Lemma leader_turn_ok node hlc inb file quiet l :
  harmless inb → writable (l_wire l) = true → Forall (λ rec, small (raw rec)) (option_list (poll_once file (tailer l)).1) →
  ∃ l' fs, leader_turn node hlc inb file quiet l = (None, l') ∧ tailer l' = (poll_once file (tailer l)).2 ∧ writable (l_wire l') = true ∧
    outgoing (l_wire l') = outgoing (l_wire l) ++ encode_all fs ∧ Forall benign fs ∧
    carried fs = raw <$> filter (λ rec, should_ship rec node hlc = true) (option_list (poll_once file (tailer l)).1).
Proof.
  intros Hi Hw Hs. destruct (drain_harmless node inb l Hi) as (l1 & Hd & Hl1 & Ht1). unfold leader_turn. rewrite Hd, Ht1.
  destruct (poll_once file (tailer l)) as [[rec|] t]; cbn [fst snd option_list] in *.
  - change (option_list (Some rec)) with [rec] in *. destruct (should_ship rec node hlc) eqn:Hship.
    + apply Forall_cons in Hs as [Hs _].
      destruct (leader_send_ok (WalRecordFrame (raw rec)) (mkLeader (l_wire l1) t (peer_high_water l1))) as (l' & He & Ho & Hw' & Ht'); [by split|by rewrite Hl1|].
      exists l', [WalRecordFrame (raw rec)]. rewrite He, Ho. cbn [l_wire]. rewrite Hl1, filter_cons_True by done. split_and!; try done. by repeat constructor.
    + exists (mkLeader (l_wire l1) t (peer_high_water l1)), []. cbn [l_wire tailer]. rewrite Hl1, app_nil_r, filter_cons_False by (by rewrite Hship). done.
  - destruct quiet.
    + assert (Hb : sendable (Heartbeat 0)) by (split; [done|by vm_compute]).
      destruct (leader_send_ok (Heartbeat 0) (mkLeader (l_wire l1) t (peer_high_water l1)) Hb) as (l' & He & Ho & Hw' & Ht'); [by rewrite Hl1|].
      exists l', [Heartbeat 0]. rewrite He, Ho. cbn [l_wire]. rewrite Hl1. split_and!; try done. by repeat constructor.
    + exists (mkLeader (l_wire l1) t (peer_high_water l1)), []. cbn [l_wire tailer]. rewrite Hl1, app_nil_r. done.
Qed.

(** Over any turns the leader sends what the tailer returns and the subscription asks for. *)
Lemma leader_loop_ok node hlc turns l :
  Forall (λ x, harmless x.1.1) turns → writable (l_wire l) = true → Forall (λ rec, small (raw rec)) (poll_all turns.*1.*2 (tailer l)).1 →
  ∃ l' fs, leader_loop node hlc turns l = (None, l') ∧ outgoing (l_wire l') = outgoing (l_wire l) ++ encode_all fs ∧ Forall benign fs ∧
    carried fs = raw <$> filter (λ rec, should_ship rec node hlc = true) (poll_all turns.*1.*2 (tailer l)).1.
Proof.
  revert l. induction turns as [|[[inb file] quiet] turns IH]; intros l Hi Hw Hs; cbn [leader_loop fmap list_fmap poll_all fst snd] in *.
  { exists l, []. cbn. by rewrite app_nil_r. }
  apply Forall_cons in Hi as [Hi1 Hi]. destruct (poll_once file (tailer l)) as [rec t] eqn:Hp.
  destruct (poll_all turns.*1.*2 t) as [recs t2] eqn:Hpa. cbn [fst] in *. apply Forall_app in Hs as [Hs1 Hs2].
  destruct (leader_turn_ok node hlc inb file quiet l Hi1 Hw) as (l1 & fs1 & Ht & Htl & Hw1 & Ho1 & Hb1 & Hc1); [by rewrite Hp|].
  rewrite Hp in *. cbn [fst snd] in *. rewrite Ht. destruct (IH l1 Hi Hw1) as (l' & fs & Hl & Ho & Hb & Hc); [by rewrite Htl, Hpa|].
  exists l', (fs1 ++ fs). rewrite Hl. rewrite Htl, Hpa in Hc. cbn [fst] in Hc. split_and!; [done| |by apply Forall_app|].
  - by rewrite Ho, Ho1, encode_all_app, app_assoc.
  - unfold carried in *. by rewrite omap_app, filter_app, fmap_app, Hc1, Hc.
Qed.
End wire.

(** ** The follower *)

Section follower_spec.
Context {C : Crc32} {A : Type} (apply : bytes → ST A ApplyError unit) (every_n : Z) (node : bytes).
Hypothesis Hnode : uuid node.
Implicit Types (t : FollowerTask A).

Definition hlc_of (raw : bytes) : Z := default 0 (peek_record_hlc raw).

(** Applying records one after the other until one is refused. *)
Fixpoint apply_seq (raws : list bytes) : ST A ApplyError unit :=
  match raws with [] => mret tt | raw :: raws => _ ← apply raw; apply_seq raws end.

Definition end_of (r : outcome ApplyError unit) : outcome FollowerError FollowerShutdown :=
  match r with Ok _ => Ok LeaderClosed | Err e => Err (FApply e) | Panic => Panic end.

Lemma hlc_range raw : is_u64 (hlc_of raw).
Proof. unfold hlc_of, peek_record_hlc. case_decide; [done|]. apply le_at_u64. Qed.

Lemma raise_max hw h : is_u64 hw → is_u64 h → (if decide (0 < h) then update_high_water hw h else hw) = Z.max hw h.
Proof. unfold is_u64, update_high_water. intros. repeat case_decide; lia. Qed.

Lemma max_u64 a b : is_u64 a → is_u64 b → is_u64 (Z.max a b).
Proof. unfold is_u64. lia. Qed.

Lemma ack_ok h w : is_u64 h → writable w = true → ∃ enc, encode_frame (Ack node h) = Ok enc ∧ send_frame (Ack node h) w = (Ok tt, with_written enc w).
Proof.
  intros Hh Hw. assert (Hs : sendable (Ack node h)).
  { split; [done|]. cbn [encode_payload]. rewrite length_app, length_to_le. unfold uuid in Hnode. rewrite Hnode. by vm_compute. }
  destruct (sendable_enc _ Hs) as [enc He]. exists enc. split; [done|]. by apply write_sends.
Qed.

Lemma follower_record_ok raw late t :
  is_u64 (applied_high_water t) → writable (f_wire t) = true →
  ∃ t' hs, follower_record apply every_n node raw late t = ((match (apply raw (applier t)).1 with Ok _ => Ok tt | Err e => Err (FApply e) | Panic => Panic end), t') ∧
    applier t' = (apply raw (applier t)).2 ∧ (∀ b, delivers (f_wire t) b → delivers (f_wire t') b) ∧ writable (f_wire t') = true ∧
    outgoing (f_wire t') = outgoing (f_wire t) ++ encode_all (Ack node <$> hs) ∧ Forall (λ h, h = applied_high_water t') hs ∧
    applied_high_water t' = match (apply raw (applier t)).1 with Ok _ => Z.max (applied_high_water t) (hlc_of raw) | _ => applied_high_water t end.
Proof.
  intros Hu Hw. unfold follower_record. fold (hlc_of raw). destruct (apply raw (applier t)) as [[[]|e|] a]; cbn [fst snd].
  2,3: eexists _, []; cbn [f_wire applier applied_high_water fmap list_fmap]; rewrite app_nil_r; by split_and!.
  rewrite raise_max by (done || apply hlc_range). cbn [applied_since_ack applied_high_water f_wire applier].
  case_match; [|eexists _, []; cbn [f_wire applier applied_high_water fmap list_fmap]; rewrite app_nil_r; by split_and!].
  destruct (ack_ok (Z.max (applied_high_water t) (hlc_of raw)) (f_wire t)) as (enc & He & Hsend); [apply max_u64; [done|apply hlc_range]|done|].
  unfold follower_send, st_map_err. cbn [f_wire applier applied_high_water applied_since_ack]. rewrite Hsend.
  eexists _, [Z.max (applied_high_water t) (hlc_of raw)]. cbn [f_wire applier applied_high_water fmap list_fmap].
  rewrite (encode_all_cons _ _ enc He), app_nil_r. split_and!; try done. by repeat constructor.
Qed.

Lemma follower_loop_ok late fs fuel t :
  Forall benign fs → delivers (f_wire t) (encode_all fs) → is_u64 (applied_high_water t) → writable (f_wire t) = true → (length fs < fuel)%nat →
  ∃ t' hs, follower_loop apply every_n fuel node late t = (Some (end_of (apply_seq (carried fs) (applier t)).1), t') ∧
    applier t' = (apply_seq (carried fs) (applier t)).2 ∧ outgoing (f_wire t') = outgoing (f_wire t) ++ encode_all (Ack node <$> hs) ∧
    Forall (λ h, h ≤ applied_high_water t') hs ∧ applied_high_water t ≤ applied_high_water t' ∧
    ((apply_seq (carried fs) (applier t)).1 = Ok tt → applied_high_water t' = foldl Z.max (applied_high_water t) (hlc_of <$> carried fs)).
Proof.
  revert fuel t. induction fs as [|f fs IH]; intros [|fuel] t Hb Hd Hu Hw Hf; cbn [length] in Hf; try lia; cbn [follower_loop]; unfold follower_turn.
  - destruct (read_closed _ Hd) as (w' & Hr & Ho & _). unfold recv_frame. rewrite Hr. exists (mkFollower w' (applier t) (applied_high_water t) (applied_since_ack t)), [].
    cbn. rewrite Ho, app_nil_r. by split_and!.
  - apply Forall_cons in Hb as [[Hs Hkind] Hb]. destruct (sendable_enc f Hs) as [enc He]. rewrite (encode_all_cons _ _ enc He) in Hd.
    destruct (read_next _ f enc _ (proj1 Hs) He Hd) as (w1 & Hr & Hd1 & Ho1 & Hw1). unfold recv_frame. rewrite Hr.
    destruct f as [| | |r| |h|]; try done.
    + set (t1 := mkFollower w1 (applier t) (applied_high_water t) (applied_since_ack t)).
      destruct (follower_record_ok r (late fuel) t1 Hu) as (t2 & hs1 & Hrec & Ha & Hdel & Hw2 & Ho2 & Hh & Hhw); [by rewrite <- Hw; exact Hw1|].
      rewrite Hrec. cbn [carried omap list_omap apply_seq fmap list_fmap foldl]. fold (carried fs). unfold mbind, st_bind.
      cbn [applier applied_high_water f_wire t1] in Ha, Ho2, Hhw |- *. destruct (apply r (applier t)) as [[[]|e|] a] eqn:Hap; cbn [fst snd] in *.
      * destruct (IH fuel t2 Hb (Hdel _ Hd1)) as (t' & hs & Hl & Ha' & Ho' & Hh' & Hle & Hmax); [rewrite Hhw; apply max_u64; [done|apply hlc_range]|done|lia|].
        exists t', (hs1 ++ hs). rewrite Ha in *. split_and!; [done|done| |apply Forall_app; split; [|done]|lia|by rewrite <- Hhw].
        -- by rewrite Ho', Ho2, Ho1, fmap_app, encode_all_app, app_assoc.
        -- eapply Forall_impl; [exact Hh|]. intros x ->. lia.
      * exists t2, hs1. rewrite Ho2, Ho1. split_and!; try done; [|lia]. eapply Forall_impl; [exact Hh|]. intros x ->. lia.
      * exists t2, hs1. rewrite Ho2, Ho1. split_and!; try done; [|lia]. eapply Forall_impl; [exact Hh|]. intros x ->. lia.
    + destruct (IH fuel (mkFollower w1 (applier t) (applied_high_water t) (applied_since_ack t)) Hb Hd1 Hu) as (t' & hs & Hl & Ha' & Ho' & Hrest); [by rewrite <- Hw; exact Hw1|lia|].
      exists t', hs. cbn [f_wire] in Ho'. rewrite Ho1 in Ho'. done.
Qed.

(** Whatever comes over the wire, the follower ends. *)
Lemma follower_terminates late fuel t : (unread (f_wire t) < fuel)%nat → is_Some (follower_loop apply every_n fuel node late t).1.
Proof.
  revert t. induction fuel as [|fuel IH]; intros t Hf; [lia|]. cbn [follower_loop].
  destruct (follower_turn apply every_n node (late fuel) t) as [[r|] t'] eqn:Ht; [eauto|]. apply IH.
  unfold follower_turn in Ht. destruct (recv_frame (f_wire t)) as [r w] eqn:Hr. destruct r as [f|e|]; [|by destruct e|done].
  pose proof (recv_shrinks _ _ _ Hr) as Hlt. enough (unread (f_wire t') = unread w) by lia. clear -Ht.
  assert (Hsend : ∀ g t, unread (f_wire (follower_send (A := A) g t).2) = unread (f_wire t)).
  { intros g t0. unfold follower_send, st_map_err, send_frame, write_frame_raw. destruct (encode_frame g); [|done..]. by destruct (writable (f_wire t0)). }
  destruct f as [| | |raw| | |]; try done; [|by injection Ht as <-]. unfold follower_record in Ht. cbn [applier f_wire] in Ht.
  destruct (apply raw (applier t)) as [[[]|e|] a]; try done. cbn [applied_since_ack applied_high_water f_wire applier] in Ht.
  destruct (bool_decide (every_n ≤ applied_since_ack t + 1) || late fuel); [|by injection Ht as <-].
  match type of Ht with context [follower_send ?g ?t0] => specialize (Hsend g t0); destruct (follower_send g t0) as [[[]|e|] t2] eqn:E end; try done.
  injection Ht as <-. exact Hsend.
Qed.

(** Heartbeats are not occasions to acknowledge: records applied since the last
    acknowledgement stay unacknowledged, however long, until another record comes. *)
Lemma heartbeats_never_acked late n t :
  (0 < n)%nat → writable (f_wire t) = true → delivers (f_wire t) (encode_all (replicate n (Heartbeat 0))) → is_u64 (applied_high_water t) →
  outgoing (f_wire (follower_loop apply every_n (S n) node late t).2) = outgoing (f_wire t).
Proof.
  intros _ Hw. revert t Hw. induction n as [|n IH]; intros t Hw Hd Hu.
  - cbn [follower_loop]. unfold follower_turn, recv_frame. destruct (read_closed _ Hd) as (w' & -> & Ho & _). exact Ho.
  - assert (Hs : sendable (Heartbeat 0)) by (split; [done|by vm_compute]). destruct (sendable_enc _ Hs) as [enc He].
    cbn [replicate] in Hd. rewrite (encode_all_cons _ _ enc He) in Hd. destruct (read_next _ _ enc _ (proj1 Hs) He Hd) as (w1 & Hr & Hd1 & Ho1 & Hw1).
    cbn [follower_loop]. unfold follower_turn at 1, recv_frame at 1. rewrite Hr.
    specialize (IH (mkFollower w1 (applier t) (applied_high_water t) (applied_since_ack t))). cbn [f_wire applied_high_water follower_loop] in IH |- *.
    rewrite IH; [done|by rewrite Hw1|done|done].
Qed.

Lemma subscribe_ok hlc w : is_u64 hlc → writable w = true →
  ∃ enc, encode_frame (Subscribe node hlc) = Ok enc ∧ send_frame (Subscribe node hlc) w = (Ok tt, with_written enc w) ∧
    ∀ w' rest, delivers w' (enc ++ rest) → (await_subscribe w').1 = Ok (inr (node, hlc)).
Proof.
  intros Hh Hw. assert (Hs : sendable (Subscribe node hlc)).
  { split; [done|]. cbn [encode_payload]. rewrite length_app, length_to_le. unfold uuid in Hnode. rewrite Hnode. by vm_compute. }
  destruct (sendable_enc _ Hs) as [enc He]. exists enc. split_and!; [done|by apply write_sends|].
  intros w' rest Hd. destruct (read_next w' _ enc rest (proj1 Hs) He Hd) as (w1 & Hr & _).
  unfold await_subscribe, mbind, st_bind, st_map_err, recv_frame. by rewrite Hr.
Qed.
End follower_spec.

Section streaming.
Context {C : Crc32}.

Lemma encode_all_length fs : Forall benign fs → (length fs ≤ length (encode_all fs))%nat.
Proof.
  induction 1 as [|f fs [Hs _] Hfs IH]; [done|]. destruct (sendable_enc f Hs) as [enc He]. rewrite (encode_all_cons _ _ enc He), length_app.
  rewrite (enc_length f enc He). cbn [length]. lia.
Qed.

Lemma should_ship_tailed r node hlc : should_ship (tailed r) node hlc = true ↔ r_origin_node_id r = as_u128 node ∧ hlc ≤ r_hlc r.
Proof. unfold should_ship, tailed. cbn [record]. case_decide; [split; [done|naive_solver]|]. rewrite bool_decide_eq_true. split; [|tauto]. intros. split; [lia|done]. Qed.

Lemma filter_tailed (rs : list WalRecord) node hlc :
  raw <$> filter (λ rec, should_ship rec node hlc = true) (tailed <$> rs) =
  to_bytes <$> filter (λ r, r_origin_node_id r = as_u128 node ∧ hlc ≤ r_hlc r) rs.
Proof.
  induction rs as [|r rs IH]; [done|]. cbn [fmap list_fmap]. rewrite !filter_cons. destruct (decide (should_ship (tailed r) node hlc = true)) as [H|H].
  - rewrite decide_True by (by apply should_ship_tailed). cbn [fmap list_fmap]. by rewrite IH.
  - rewrite decide_False by (by rewrite <- should_ship_tailed). done.
Qed.

(** C19: The log reaches the follower.  A leader tails a growing log of well-formed records
    and sends them, with heartbeats between, to a follower that reads the stream in whatever
    pieces arrive.  The follower's subscription is read as it was sent; the follower applies
    exactly the records of the subscribed writer from the subscribed HLC on, each once, in
    the order and with the bytes of the log, all of them once the leader has polled the
    complete log often enough; it stops when the stream ends or the applier refuses a
    record, with that outcome; it never acknowledges an HLC above its watermark, which is
    the highest HLC applied. *)
Theorem log_reaches_follower {A} (apply : bytes → ST A ApplyError unit) every_n late rs hdr turns ks node hlc l (t : FollowerTask A) fuel :
  Forall record_wf rs → Forall (λ r, small (to_bytes r)) rs → length hdr = WAL_HEADER_SIZE → uuid node → is_u64 hlc →
  turns.*1.*2 = seen hdr rs ks → StronglySorted Nat.le ks → Forall (λ k, k ≤ length (stream rs))%nat ks →
  Forall (λ x, harmless x.1.1) turns → tailer l = mkTailer WAL_HEADER_SIZE [] → writable (l_wire l) = true → outgoing (l_wire l) = [] →
  writable (f_wire t) = true → outgoing (f_wire t) = [] → applied_high_water t = 0 →
  let '(r, l') := leader_loop node hlc turns l in
  delivers (f_wire t) (outgoing (l_wire l')) → (length (outgoing (l_wire l')) < fuel)%nat →
  r = None ∧ ∃ d t' hs, let raws := to_bytes <$> filter (λ r, r_origin_node_id r = as_u128 node ∧ hlc ≤ r_hlc r) (take d rs) in
    ((length rs ≤ length (filter (λ k, k = length (stream rs)) ks))%nat → take d rs = rs) ∧
    follower_run apply every_n fuel node hlc late t = (Some (end_of (apply_seq apply raws (applier t)).1), t') ∧
    applier t' = (apply_seq apply raws (applier t)).2 ∧
    ((apply_seq apply raws (applier t)).1 = Ok tt → applied_high_water t' = foldl Z.max 0 (hlc_of <$> raws)) ∧
    outgoing (f_wire t') = encode_all (Subscribe node hlc :: (Ack node <$> hs)) ∧ Forall (λ h, h ≤ applied_high_water t') hs ∧
    (∀ w, delivers w (outgoing (f_wire t')) → (await_subscribe w).1 = Ok (inr (node, hlc))).
Proof.
  intros Hwf Hsm Hhdr Hnode Hh Hfiles Hs Hk Hharm Htl Hwl Hol Hwt Hot Hhw.
  assert (Hat : tail_at rs 0 0 (tailer l)) by (rewrite Htl; constructor; cbn; lia || done).
  destruct (poll_all_ok rs hdr ks 0 0 (tailer l) Hwf Hhdr Hat) as (d & _ & Hout & Hfull); [constructor; [done|apply Forall_true; intros; lia]|done|].
  rewrite Nat.sub_0_r, drop_0, <- Hfiles in Hout.
  destruct (leader_loop_ok node hlc turns l Hharm Hwl) as (l' & fs & Hl & Ho & Hb & Hc).
  { rewrite Hout. apply Forall_fmap. by apply Forall_take. }
  rewrite Hl. rewrite Ho, Hol in *. cbn [app]. intros Hd Hf. split; [done|].
  rewrite Hout, filter_tailed in Hc.
  destruct (subscribe_ok node Hnode hlc (f_wire t) Hh Hwt) as (enc & He & Hsub & Hread).
  set (t1 := mkFollower (with_written enc (f_wire t)) (applier t) (applied_high_water t) (applied_since_ack t)).
  pose proof (encode_all_length fs Hb) as Hlen.
  destruct (follower_loop_ok apply every_n node Hnode late fs fuel t1 Hb Hd) as (t' & hs & Hloop & Ha & Ho' & Hhs & _ & Hmax); [cbn; rewrite Hhw; done|done|lia|].
  exists d, t', hs. cbv zeta. rewrite <- Hc. cbn [applier applied_high_water f_wire with_written outgoing t1] in *. rewrite Hot in Ho'. cbn [app] in Ho'.
  rewrite (encode_all_cons _ _ enc He). split_and!; try done.
  - intros Hle. rewrite Hfull by lia. by rewrite take_ge.
  - unfold follower_run, follower_send, st_map_err. rewrite Hsub. exact Hloop.
  - intros Hok. by rewrite Hmax, Hhw by done.
  - rewrite Ho'. intros w. apply Hread.
Qed.
End streaming.

(** ** Witnesses *)

Lemma handshake_agrees_witness :
  let C := crc32_ieee in
  let cluster := replicate 16 x01 in
  let li := mkIdentity cluster (replicate 16 x02) in
  let lr := mkIdentity cluster (replicate 16 x03) in
  let verify := λ _ : bytes, Ok (replicate 16 x02) in
  let hello := outgoing (connect_initiator li (str "jwt") (mkWire [] [] [] true)).2 in
  let wr := mkWire [Data (take 7 hello); Data (drop 7 hello)] [] [] true in
  let wi := mkWire [Data (outgoing (accept_responder lr 9 verify wr).2)] [] [] true in
  (connect_initiator li (str "jwt") wi).1 = Ok (mkSession (replicate 16 x03) (Some 9) 1) ∧
  (accept_responder lr 9 verify wr).1 = Ok (mkSession (replicate 16 x02) None 1).
Proof.
  intros C cluster li lr verify hello wr wi.
  assert (Hdr : delivers wr (outgoing (connect_initiator li (str "jwt") wi).2)).
  { eexists [_; _]. split; [reflexivity|]. split; [repeat constructor; by vm_compute|]. vm_compute. reflexivity. }
  assert (Hdi : delivers wi (outgoing (accept_responder lr 9 verify wr).2)).
  { eexists [_]. split; [reflexivity|]. split; [repeat constructor; by vm_compute|]. vm_compute. reflexivity. }
  pose proof (handshake_agrees li lr (str "jwt") 9 verify wi wr) as H.
  destruct H as [H _]; [done..|exact Hdr|exact Hdi|]. rewrite decide_True in H by (split; reflexivity). split; apply H.
Defined.

Lemma log_reaches_follower_witness :
  let C := crc32_ieee in
  let node := to_be 16 3 in
  let r := page_write 1 2 3 4 [(3, 4)] 5 (str "old") (str "new") in
  let L := length (stream [r]) in
  let hdr := build_wal_header 2 in
  let turns := [(Empty, hdr ++ take 20 (stream [r]), true); (Received (Ok (Heartbeat 1)), hdr ++ take L (stream [r]), false)] in
  let l := mkLeader (mkWire [] [] [] true) (mkTailer WAL_HEADER_SIZE []) 0 in
  let sent := outgoing (l_wire (leader_loop node 0 turns l).2) in
  let t := mkFollower (mkWire [Data (take 30 sent); Data (drop 30 sent)] [] [] true) ([] : list bytes) 0 0 in
  let log : bytes → ST (list bytes) ApplyError unit := λ raw, st_modify (λ a, a ++ [raw]) in
  applier (follower_run log 32 (S (length sent)) node 0 (λ _, false) t).2 = [to_bytes r].
Proof.
  intros C node r L hdr turns l sent t log.
  assert (Hwf : record_wf r).
  { apply seal_wf; try (vm_compute; intuition discriminate). apply (singleton_wf 3 4); vm_compute; intuition discriminate. }
  assert (Hk : Forall (λ k, k ≤ length (stream [r]))%nat [20%nat; L]).
  { constructor; [apply Nat.leb_le; by vm_compute|]. constructor; [apply Nat.leb_le; by vm_compute|constructor]. }
  assert (Hdel : delivers (f_wire t) sent).
  { exists [take 30 sent; drop 30 sent]. split; [reflexivity|]. split; [repeat constructor; by vm_compute|].
    cbn [read_buf f_wire t concat app]. by rewrite app_nil_r, take_drop. }
  pose proof (log_reaches_follower log 32 (λ _, false) [r] hdr turns [20%nat; L] node 0 l t (S (length sent))) as H.
  specialize (H (Forall_cons_2 _ _ _ Hwf (Forall_nil_2 _))).
  destruct (leader_loop node 0 turns l) as [res l'] eqn:Hl. cbn [snd] in sent.
  destruct H as (_ & d & t' & hs & Hd & Hrun & Ha & _).
  - constructor; [|constructor]. unfold small. by vm_compute.
  - apply length_wal_header.
  - reflexivity.
  - split; [apply Z.le_refl|reflexivity].
  - reflexivity.
  - repeat constructor.
  - exact Hk.
  - repeat constructor.
  - reflexivity.
  - reflexivity.
  - reflexivity.
  - reflexivity.
  - reflexivity.
  - reflexivity.
  - exact Hdel.
  - apply Nat.lt_succ_diag_r.
  - rewrite Hrun. cbn [snd]. rewrite Ha, Hd by (apply Nat.leb_le; by vm_compute). reflexivity.
Defined.
