(* ===== verification/JsonValue.v ===== *)
(** * Documents as JSON (grumpydb-server/src/tcp/handler.rs, cluster/handshake.rs)

    How the server turns [Value]s into JSON for clients and for peers, and JSON into
    [Value]s; the text of JSON is left to serde_json.  [serde_json::Value] is [JsonV]; its
    maps are sorted by key.  Base64 is a parameter that reads back what it wrote; the
    conversion of an integer above [i64::MAX] to the nearest [f64] is a parameter too. *)

From S2P Require Import Prelude RustStd Value AppliedSet.

Local Open Scope Z_scope.

Class Base64 := {
  base64 : bytes → bytes;
  base64_decode : bytes → option bytes;
  base64_roundtrip : ∀ b, base64_decode (base64 b) = Some b;
  f64_of_u64 : Z → Z;
}.

Inductive Number := NInt (z : Z) | NFloat (bits : Z).

Inductive JsonV :=
| JNull
| JBool (b : bool)
| JNumber (n : Number)
| JString (s : bytes)
| JArray (arr : list JsonV)
| JObject (obj : list (bytes * JsonV)).

Definition num_as_i64 (n : Number) : option Z := match n with NInt z => if i64b z then Some z else None | NFloat _ => None end.

Definition jv_str (j : JsonV) : option bytes := match j with JString s => Some s | _ => None end.
Definition jv_object (j : JsonV) : option (list (bytes * JsonV)) := match j with JObject m => Some m | _ => None end.

(** Inserting the entries of an iterator one by one. *)
Definition bt_collect {V} (l : list (bytes * V)) : list (bytes * V) := foldl (λ m e, bt_insert e.1 e.2 m) [] l.

(** [json!] of a float: not a number and infinities have no JSON number. *)
Definition f64_finite (b : Z) : bool := Z.ltb (Z.land b 9223372036854775807) 9218868437227405312.
Definition json_of_f64 (b : Z) : JsonV := if f64_finite b then JNumber (NFloat b) else JNull.

Section json.
Context `{UuidText, Base64}.

Definition num_as_f64 (n : Number) : Z := match n with NInt z => f64_of_u64 z | NFloat b => b end.

(** [CrdtKind::from_name] on the bytes of a name. *)
Definition kind_of_name (s : bytes) : option CrdtKind :=
  from_name (String.string_of_list_ascii (Ascii.ascii_of_byte <$> s)).

(** [if let Some(..) = obj.get($crdt) ..] *)
Definition crdt_of_json (obj : list (bytes * JsonV)) : option Value :=
  crdt_json ← bt_get (str "$crdt") obj;
  crdt_obj ← jv_object crdt_json;
  kind ← (bt_get (str "kind") crdt_obj ≫= jv_str) ≫= kind_of_name;
  payload ← (bt_get (str "payload_b64") crdt_obj ≫= jv_str) ≫= base64_decode;
  Some (VCrdt kind payload).

Fixpoint json_to_value (j : JsonV) : Value :=
  match j with
  | JNull => VNull
  | JBool b => VBool b
  | JNumber n => match num_as_i64 n with Some i => VInteger i | None => VFloat (num_as_f64 n) end
  | JString s => VString s
  | JArray arr => VArray (map json_to_value arr)
  | JObject obj =>
      match crdt_of_json obj with
      | Some v => v
      | None => VObject (bt_collect (map (λ e, (e.1, json_to_value e.2)) obj))
      end
  end.

Definition crdt_json (kind : CrdtKind) (payload : bytes) : JsonV :=
  JObject [(str "$crdt", JObject [(str "kind", JString (str (as_str_kind kind))); (str "payload_b64", JString (base64 payload))])].
Definition tombstone_json (hlc : Z) : JsonV := JObject [(str "$tombstone", JObject [(str "hlc", JNumber (NInt hlc))])].
Definition uuid_json (u : bytes) : JsonV := JString (uuid_text (as_u128 u)).

(** What clients are sent (tcp/handler.rs); the number of bytes in the text of [Bytes] is
    left out. *)
Fixpoint value_to_serde_json (v : Value) : JsonV :=
  match v with
  | VNull => JNull
  | VBool b => JBool b
  | VInteger i => JNumber (NInt i)
  | VFloat f => json_of_f64 f
  | VString s => JString s
  | VBytes b => JString (str "< bytes>")
  | VArray arr => JArray (map value_to_serde_json arr)
  | VObject obj => JObject (bt_collect (map (λ e, (e.1, value_to_serde_json e.2)) obj))
  | VRef collection uuid => JObject [(str "$ref", JObject [(str "collection", JString collection); (str "uuid", uuid_json uuid)])]
  | VTombstone hlc _ => tombstone_json hlc
  | VCrdt kind payload => crdt_json kind payload
  end.

(** What peers are sent (cluster/handshake.rs, coordinator.rs). *)
Fixpoint peer_value_json (v : Value) : JsonV :=
  match v with
  | VNull => JNull
  | VBool b => JBool b
  | VInteger i => JNumber (NInt i)
  | VFloat f => json_of_f64 f
  | VString s => JString s
  | VBytes b => JObject [(str "$bytes", JString (base64 b))]
  | VRef coll id => JObject [(str "$ref", JObject [(str "collection", JString coll); (str "id", uuid_json id)])]
  | VArray arr => JArray (map peer_value_json arr)
  | VObject obj => JObject (bt_collect (map (λ e, (e.1, peer_value_json e.2)) obj))
  | VTombstone hlc _ => tombstone_json hlc
  | VCrdt kind payload => crdt_json kind payload
  end.

(** ** What survives *)

(** Values that come back: no bytes, references, tombstones, infinities or not-a-numbers,
    and no object that looks like an encoded CRDT. *)
Fixpoint survives (v : Value) : bool :=
  match v with
  | VBytes _ | VRef _ _ | VTombstone _ _ => false
  | VFloat f => f64_finite f
  | VArray arr => forallb survives arr
  | VObject obj =>
      forallb (λ e, survives e.2) obj && bool_decide (crdt_of_json (map (λ e, (e.1, value_to_serde_json e.2)) obj) = None)
  | _ => true
  end.

Lemma kind_of_as_str k : kind_of_name (str (as_str_kind k)) = Some k.
Proof. by destruct k. Qed.

Lemma bt_collect_app {V} (l acc : list (bytes * V)) : bt_sorted (acc ++ l) → foldl (λ m e, bt_insert e.1 e.2 m) acc l = acc ++ l.
Proof.
  revert acc. induction l as [|[k v] l IH]; intros acc Hs; cbn [foldl fst snd]; [by rewrite app_nil_r|].
  rewrite bt_insert_last.
  - rewrite IH; by rewrite <- app_assoc.
  - apply Forall_forall. intros e He. apply StronglySorted_app in Hs as (Hs & _). by apply (Hs e (k, v)); [|left].
Qed.

Lemma bt_collect_sorted {V} (l : list (bytes * V)) : bt_sorted l → bt_collect l = l.
Proof. apply (bt_collect_app l []). Qed.

(** Sortedness is about keys. *)
Lemma bt_sorted_map_snd {V W} (f : V → W) (l : list (bytes * V)) : bt_sorted l → bt_sorted (map (λ e, (e.1, f e.2)) l).
Proof.
  induction 1 as [|e l Hl IH Hall]; [constructor|]. constructor; [exact IH|]. apply Forall_fmap. eapply Forall_impl; [exact Hall|]. done.
Qed.

Lemma crdt_roundtrip k p : json_to_value (crdt_json k p) = VCrdt k p.
Proof.
  assert (Hc : crdt_of_json [(str "$crdt", JObject [(str "kind", JString (str (as_str_kind k))); (str "payload_b64", JString (base64 p))])] = Some (VCrdt k p)).
  { unfold crdt_of_json. cbn [bt_get]. rewrite !cmp_refl. cbn [mbind option_bind jv_object bt_get]. rewrite cmp_refl.
    replace (cmp (str "payload_b64") (str "kind")) with Gt by reflexivity. rewrite cmp_refl. cbn [mbind option_bind jv_str].
    by rewrite kind_of_as_str, base64_roundtrip. }
  unfold crdt_json. cbn [json_to_value]. by rewrite Hc.
Qed.

Lemma no_crdt_key (m : list (bytes * JsonV)) : bt_get (str "$crdt") m = None → crdt_of_json m = None.
Proof. intros Hn. unfold crdt_of_json. by rewrite Hn. Qed.

Lemma map_id_iff {A} (f : A → A) l : map f l = l ↔ Forall (λ x, f x = x) l.
Proof.
  induction l as [|x l IH]; [done|]. cbn. rewrite Forall_cons, <- IH. split; [by intros [= -> ->]|by intros [-> ->]].
Qed.

Lemma object_json (obj : list (bytes * Value)) : bt_sorted obj → value_to_serde_json (VObject obj) = JObject (map (λ e, (e.1, value_to_serde_json e.2)) obj).
Proof. intros Hs. cbn [value_to_serde_json]. by rewrite bt_collect_sorted by (by apply bt_sorted_map_snd). Qed.

(** Reading back an object that is not taken for a CRDT. *)
Lemma object_back (obj : list (bytes * Value)) :
  bt_sorted obj → crdt_of_json (map (λ e, (e.1, value_to_serde_json e.2)) obj) = None →
  json_to_value (value_to_serde_json (VObject obj)) = VObject obj ↔ Forall (λ e, json_to_value (value_to_serde_json e.2) = e.2) obj.
Proof.
  intros Hs Hc. rewrite object_json by done. cbn [json_to_value]. rewrite Hc, map_map. rewrite bt_collect_sorted by (by apply (bt_sorted_map_snd (λ v, json_to_value (value_to_serde_json v)))).
  cbn [fst snd]. split.
  - intros [= Heq]. apply (map_id_iff (λ e, (e.1, json_to_value (value_to_serde_json e.2)))) in Heq. eapply Forall_impl; [exact Heq|]. intros [k v] Hv. by injection Hv.
  - intros Hall. f_equal. apply (map_id_iff (λ e, (e.1, json_to_value (value_to_serde_json e.2)))). eapply Forall_impl; [exact Hall|]. intros [k v] Hv. cbn in *. by rewrite Hv.
Qed.

Lemma forall_survives {A} (f : A → Value) l :
  Forall (λ x, rust_value (f x) = true → (json_to_value (value_to_serde_json (f x)) = f x ↔ survives (f x) = true)) l →
  forallb (λ x, rust_value (f x)) l = true →
  Forall (λ x, json_to_value (value_to_serde_json (f x)) = f x) l ↔ forallb (λ x, survives (f x)) l = true.
Proof.
  induction 1 as [|x l Hx Hl IH]; [done|]. cbn. rewrite andb_true_iff. intros [Hr Hrs]. rewrite Forall_cons, andb_true_iff, Hx, IH by done. done.
Qed.

Lemma crdt_of_json_is obj v : crdt_of_json obj = Some v → ∃ k p, v = VCrdt k p.
Proof. unfold crdt_of_json. intros Hc. repeat (apply bind_Some in Hc as (? & _ & Hc)). injection Hc as <-. eauto. Qed.

Lemma roundtrip_survives v : rust_value v = true → json_to_value (value_to_serde_json v) = v ↔ survives v = true.
Proof.
  induction v as [|b|n|f|s|b|l IH|m IH|c u|h w|k p] using Value_ind'; intros Hr; cbn [survives]; try done.
  - cbn [value_to_serde_json json_to_value num_as_i64]. cbn in Hr. by rewrite Hr.
  - cbn [value_to_serde_json]. unfold json_of_f64. by destruct (f64_finite f).
  - cbn [rust_value] in Hr. cbn [value_to_serde_json json_to_value]. rewrite map_map, <- (forall_survives (λ x, x)) by done.
    rewrite <- map_id_iff. split; [by intros [= ->]|by intros ->].
  - cbn [rust_value] in Hr. apply andb_true_iff in Hr as [Hs Hr]. apply bt_sortedb_spec in Hs.
    assert (Hr2 : forallb (λ e, rust_value e.2) m = true).
    { apply forallb_forall. intros e He. eapply (proj1 (forallb_forall _ _)) in Hr; [|exact He]. by apply andb_true_iff in Hr as [_ ?]. }
    rewrite andb_true_iff, bool_decide_eq_true. rewrite <- (forall_survives snd) by done.
    destruct (crdt_of_json (map (λ e, (e.1, value_to_serde_json e.2)) m)) as [v|] eqn:Hc.
    + rewrite object_json by done. cbn [json_to_value]. rewrite Hc. apply crdt_of_json_is in Hc as (k & p & ->). split; [done|by intros [_ ?]].
    + rewrite object_back by done. tauto.
  - split; [done|]. intros _. apply crdt_roundtrip.
Qed.

(** Clients and peers are sent the same JSON for values that survive. *)
Lemma peer_json_agrees v : survives v = true → peer_value_json v = value_to_serde_json v.
Proof.
  induction v as [|b|n|f|s|b|l IH|m IH|c u|h w|k p] using Value_ind'; try done; cbn [survives peer_value_json value_to_serde_json]; intros Hs.
  - f_equal. apply map_ext_in. intros x Hx. apply (proj1 (forallb_forall _ _)) with (x := x) in Hs; [|done].
    rewrite Forall_forall in IH. apply IH; [by apply list_elem_of_In|done].
  - apply andb_true_iff in Hs as [Hs _]. do 2 f_equal. apply map_ext_in. intros e He. apply (proj1 (forallb_forall _ _)) with (x := e) in Hs; [|done].
    rewrite Forall_forall in IH. f_equal. apply (IH e); [by apply list_elem_of_In|done].
Qed.

(** C32: The conversions between documents and JSON values are exact.  Turning a document
    into a [serde_json::Value], as for a client, and back gives the same document exactly
    when it has no bytes, references or tombstones, no infinite or not-a-number float and no
    object that looks like an encoded CRDT; for these documents clients and peers are sent
    the same JSON value, so that quorum reads compare like with like.  This is about the
    conversions in memory: printing and parsing the text is left to serde_json, which may
    change the last digit of a float. *)
Theorem json_roundtrip v :
  rust_value v = true →
  (json_to_value (value_to_serde_json v) = v ↔ survives v = true) ∧
  (survives v = true → peer_value_json v = value_to_serde_json v ∧ json_to_value (peer_value_json v) = v).
Proof.
  intros Hr. pose proof (roundtrip_survives v Hr) as Hiff. split; [done|]. intros Hs. pose proof (peer_json_agrees v Hs) as Hp.
  split; [done|]. rewrite Hp. by apply Hiff.
Qed.

(** Bytes: clients are sent a text without them, peers an object, and what a peer was sent
    is stored as that object. *)
Lemma bytes_differ b :
  value_to_serde_json (VBytes b) ≠ peer_value_json (VBytes b) ∧
  json_to_value (value_to_serde_json (VBytes b)) = VString (str "< bytes>") ∧
  json_to_value (peer_value_json (VBytes b)) = VObject [(str "$bytes", VString (base64 b))].
Proof. done. Qed.

(** References come back as objects, and differently from clients and peers. *)
Lemma refs_differ c u :
  value_to_serde_json (VRef c u) ≠ peer_value_json (VRef c u) ∧
  json_to_value (value_to_serde_json (VRef c u)) = VObject [(str "$ref", VObject [(str "collection", VString c); (str "uuid", VString (uuid_text (as_u128 u)))])].
Proof. done. Qed.
End json.

Definition base64_plain : Base64.
Proof. refine {| base64 := λ b, b; base64_decode := Some; f64_of_u64 := λ z, z |}. done. Defined.

Lemma json_roundtrip_witness :
  let U := uuid_plain in let B := base64_plain in
  let v := VObject [(str "a", VArray [VInteger 1; VFloat 0; VNull]); (str "b", VCrdt LwwSet (str "xy"))] in
  json_to_value (value_to_serde_json v) = v ∧ peer_value_json v = value_to_serde_json v.
Proof.
  intros U B v. destruct (json_roundtrip v) as [H1 H2]; [by vm_compute|].
  split; [apply H1; by vm_compute|apply H2; by vm_compute].
Defined.
