(* ===== verification/AuthStore.v ===== *)
(** * The authentication store (grumpydb-server/src/auth/store.rs, jwt.rs, user.rs)

    Users in files of their own, the keys that sign tokens, and what a restart reads back.
    The directory [_auth] is a record: the files of [users], [secret.key], [jwt/config.json],
    the files of [jwt/keys] and the peer token.  Password hashing (argon2), RSA keys and the
    JWT format are third-party code: [AuthCrates] states what the store relies on.  The
    clock, salts, random secrets and fresh keys are arguments.  Writing a user file can fail
    ([write_ok]); permissions are not modelled. *)

From stdpp Require Import gmap.
From S2P Require Import Prelude RustStd Command Crdt Auth.

Local Open Scope Z_scope.

(** A literal as characters. *)
Definition txt (s : string) : chars := b2z <$> str s.

Record User := mkUser {
  username : chars;
  user_tenant : chars;
  password_hash : bytes;
  user_roles : list RoleAssignment;
  created_at : Z;
}.

Inductive StoreError :=
| HashError
| InvalidCredentials
| UserNotFound (tenant username : chars)
| UserAlreadyExists (tenant username : chars)
| JwtError (msg : string)
| TokenExpired
| InvalidToken (msg : string)
| IoError (msg : string)
| BootstrapRefused.

(** ** Keys and tokens (jwt.rs) *)

Inductive JwtAlgorithm := Hs256 | Rs256.

#[export] Instance jwt_algorithm_eq : EqDecision JwtAlgorithm.
Proof. solve_decision. Defined.

Record RsKey := mkRsKey { kid : chars; private_pem : bytes; public_pem : bytes }.
Record RsKeyRing := mkRing { current : RsKey; next : RsKey }.

Record JwtConfig := mkJwt {
  algorithm : JwtAlgorithm;
  access_ttl : Z;
  refresh_ttl : Z;
  hs_secret : option bytes;
  rs_keys : option RsKeyRing;
}.

Record TokenClaims := mkTokenClaims { base : Claims; iat : Z; exp : Z; token_type : chars }.

Inductive JwtFailure := ExpiredSignature | OtherFailure.

Record JwtDiskConfig := mkDiskConfig {
  d_algorithm : JwtAlgorithm;
  d_current_kid : option chars;
  d_next_kid : option chars;
  d_access_ttl_secs : Z;
  d_refresh_ttl_secs : Z;
}.

(** What the crates promise: a password verifies against its own hash; a key reads back from
    its PEM files; its kid, in hexadecimal, has no dot; a token carries the kid it was signed with and decodes, with the key of
    the same pair, to its claims until [exp] has passed. *)
Class AuthCrates := {
  hash_password : bytes → chars → bytes;
  verify_password : chars → bytes → option bool;
  verify_hashed : ∀ salt p, verify_password p (hash_password salt p) = Some true;
  from_pem : bytes → bytes → option RsKey;
  genuine : RsKey → Prop;
  genuine_pem : ∀ k, genuine k → from_pem (private_pem k) (public_pem k) = Some k;
  genuine_kid : ∀ k, genuine k → 46 ∉ kid k;
  jwt_encode : JwtAlgorithm → option chars → TokenClaims → bytes → chars;
  jwt_kid : chars → option (option chars);
  jwt_decode : JwtAlgorithm → Z → chars → bytes → outcome JwtFailure TokenClaims;
  jwt_kid_encode : ∀ a i c key, jwt_kid (jwt_encode a i c key) = Some i;
  hs_decode_encode : ∀ now i c key,
    jwt_decode Hs256 now (jwt_encode Hs256 i c key) key = if decide (exp c < now) then Err ExpiredSignature else Ok c;
  rs_decode_encode : ∀ now i c k, genuine k →
    jwt_decode Rs256 now (jwt_encode Rs256 i c (private_pem k)) (public_pem k) = if decide (exp c < now) then Err ExpiredSignature else Ok c;
  json_user :: Json User;
  json_config :: Json JwtDiskConfig;
}.

Definition new_hs256 (secret : bytes) (access refresh : Z) : JwtConfig := mkJwt Hs256 access refresh (Some secret) None.
Definition new_rs256 (ring : RsKeyRing) (access refresh : Z) : JwtConfig := mkJwt Rs256 access refresh None (Some ring).

Definition ring_find (k : chars) (r : RsKeyRing) : option RsKey :=
  if decide (kid (current r) = k) then Some (current r)
  else if decide (kid (next r) = k) then Some (next r)
  else None.

(** [rotate]: the standby key becomes current, a fresh one standby. *)
Definition rotate (fresh : RsKey) (c : JwtConfig) : outcome StoreError JwtConfig :=
  match rs_keys c with
  | Some ring => Ok (mkJwt (algorithm c) (access_ttl c) (refresh_ttl c) (hs_secret c) (Some (mkRing (next ring) fresh)))
  | None => Err (JwtError "rotate() requires RS256 algorithm")
  end.

Section store.
Context `{AuthCrates} (write_ok : chars → bool).

Definition generate_token (now : Z) (u : User) (c : JwtConfig) (ttl : Z) (ty : chars) : outcome StoreError chars :=
  if decide (18446744073709551616 ≤ now + ttl) then Panic
  else
    let claims := mkTokenClaims (mkClaims (username u) (user_tenant u) (user_roles u)) now (now + ttl) ty in
    match algorithm c with
    | Hs256 =>
        secret ← ok_or (hs_secret c) (JwtError "HS256 config missing secret");
        mret (jwt_encode Hs256 None claims secret)
    | Rs256 =>
        ring ← ok_or (rs_keys c) (JwtError "RS256 config missing keyring");
        mret (jwt_encode Rs256 (Some (kid (current ring))) claims (private_pem (current ring)))
    end.

Definition generate_access_token now u c := generate_token now u c (access_ttl c) (txt "access").
Definition generate_refresh_token now u c := generate_token now u c (refresh_ttl c) (txt "refresh").

Definition jwt_map_err (r : outcome JwtFailure TokenClaims) : outcome StoreError TokenClaims :=
  match r with
  | Ok c => Ok c
  | Err ExpiredSignature => Err TokenExpired
  | Err OtherFailure => Err (InvalidToken "")
  | Panic => Panic
  end.

Definition jwt_verify_token (now : Z) (token : chars) (c : JwtConfig) : outcome StoreError TokenClaims :=
  match algorithm c with
  | Hs256 =>
      secret ← ok_or (hs_secret c) (JwtError "HS256 config missing secret");
      jwt_map_err (jwt_decode Hs256 now token secret)
  | Rs256 =>
      ring ← ok_or (rs_keys c) (JwtError "RS256 config missing keyring");
      header ← ok_or (jwt_kid token) (InvalidToken "bad header");
      k ← ok_or header (InvalidToken "missing kid in header");
      key ← ok_or (ring_find k ring) (InvalidToken "kid not found in keyring");
      jwt_map_err (jwt_decode Rs256 now token (public_pem key))
  end.

(** ** The directory *)

Record AuthDir := mkDir {
  user_files : gmap chars bytes;
  secret_key : option bytes;
  config_file : option bytes;
  key_files : gmap chars bytes;
  peer_token : option chars;
}.

Record AuthStore := mkStore { auth_dir : AuthDir; jwt_config : JwtConfig; users : list User }.

Definition with_user_files (m : gmap chars bytes) (d : AuthDir) : AuthDir := mkDir m (secret_key d) (config_file d) (key_files d) (peer_token d).
Definition with_secret (b : bytes) (d : AuthDir) : AuthDir := mkDir (user_files d) (Some b) (config_file d) (key_files d) (peer_token d).
Definition with_config (b : bytes) (d : AuthDir) : AuthDir := mkDir (user_files d) (secret_key d) (Some b) (key_files d) (peer_token d).
Definition with_keys (m : gmap chars bytes) (d : AuthDir) : AuthDir := mkDir (user_files d) (secret_key d) (config_file d) m (peer_token d).
Definition with_peer_token (t : chars) (d : AuthDir) : AuthDir := mkDir (user_files d) (secret_key d) (config_file d) (key_files d) (Some t).

Definition with_dir (d : AuthDir) (s : AuthStore) : AuthStore := mkStore d (jwt_config s) (users s).
Definition with_users (us : list User) (s : AuthStore) : AuthStore := mkStore (auth_dir s) (jwt_config s) us.

Definition pem_name (k : chars) : chars := k ++ txt ".pem".
Definition pub_name (k : chars) : chars := k ++ txt ".pub.pem".
Definition archived (name : chars) : chars := name ++ txt ".archived".

Definition write_key_pair (k : RsKey) (d : AuthDir) : AuthDir :=
  with_keys (<[pub_name (kid k) := public_pem k]> (<[pem_name (kid k) := private_pem k]> (key_files d))) d.

Definition write_jwt_config (a : JwtAlgorithm) (cur nxt : option chars) (access refresh : Z) (d : AuthDir) : AuthDir :=
  with_config (to_json (mkDiskConfig a cur nxt access refresh)) d.

Definition read_rs_key (d : AuthDir) (k : chars) : outcome StoreError RsKey :=
  priv ← ok_or (key_files d !! pem_name k) (IoError "read");
  pub ← ok_or (key_files d !! pub_name k) (IoError "read");
  ok_or (from_pem priv pub) (JwtError "PEM decode").

(** The secret is there when this is called: its permissions were read before. *)
Definition read_hs_secret (d : AuthDir) : outcome StoreError bytes :=
  data ← ok_or (secret_key d) (IoError "metadata");
  if decide (length data = 32%nat) then Ok data else Err (IoError "secret.key has invalid length").

Definition load_from_disk_config (d : AuthDir) (c : JwtDiskConfig) : outcome StoreError JwtConfig :=
  match d_algorithm c with
  | Hs256 =>
      secret ← read_hs_secret d;
      mret (new_hs256 secret (d_access_ttl_secs c) (d_refresh_ttl_secs c))
  | Rs256 =>
      cur ← ok_or (d_current_kid c) (IoError "RS256 config.json missing current_kid");
      nxt ← ok_or (d_next_kid c) (IoError "RS256 config.json missing next_kid");
      ck ← read_rs_key d cur;
      nk ← read_rs_key d nxt;
      mret (new_rs256 (mkRing ck nk) (d_access_ttl_secs c) (d_refresh_ttl_secs c))
  end.

Definition load_or_create_jwt_config (access refresh : Z) (bootstrap : JwtAlgorithm) (fresh_secret : bytes) (fresh : RsKeyRing) :
    ST AuthDir StoreError JwtConfig := λ d,
  match config_file d with
  | Some raw =>
      (disk ← ok_or (from_json raw) (IoError "config.json"); load_from_disk_config d disk, d)
  | None =>
      match secret_key d with
      | Some _ => (secret ← read_hs_secret d; mret (new_hs256 secret access refresh), d)
      | None =>
          match bootstrap with
          | Hs256 =>
              (Ok (new_hs256 fresh_secret access refresh),
               write_jwt_config Hs256 None None access refresh (with_secret fresh_secret d))
          | Rs256 =>
              (Ok (new_rs256 fresh access refresh),
               write_jwt_config Rs256 (Some (kid (current fresh))) (Some (kid (next fresh))) access refresh
                 (write_key_pair (next fresh) (write_key_pair (current fresh) d)))
          end
      end
  end.

(** ** Users *)

Definition SYSTEM_TENANT : chars := txt "_system".
Definition CLUSTER_PEER_USERNAME : chars := txt "_cluster/local-bootstrap".
Definition CLUSTER_PEER_TTL_SECS : Z := 31536000.

Definition sanitise_for_filename (s : chars) : chars :=
  concat ((λ c, if bool_decide (c = 47 ∨ c = 92) then txt "__" else [c]) <$> s).

Definition user_file_path (tenant username : chars) : chars :=
  tenant ++ txt "__" ++ sanitise_for_filename username ++ txt ".json".

Definition is_user (tenant name : chars) (u : User) : bool := bool_decide (user_tenant u = tenant ∧ username u = name).

Definition get_user (tenant name : chars) (s : AuthStore) : option User := List.find (is_user tenant name) (users s).
Definition list_users (tenant : chars) (s : AuthStore) : list User := List.filter (λ u, bool_decide (user_tenant u = tenant)) (users s).
Definition has_admin (s : AuthStore) : bool := existsb (λ u, existsb (λ r, bool_decide (role r = ServerAdmin)) (user_roles u)) (users s).

Definition save_user (u : User) : ST AuthStore StoreError unit := λ s,
  let path := user_file_path (user_tenant u) (username u) in
  if write_ok path then (Ok tt, with_dir (with_user_files (<[path := to_json u]> (user_files (auth_dir s))) (auth_dir s)) s)
  else (Err (IoError "write"), s).

Definition create_user (now : Z) (salt : bytes) (tenant name password : chars) (roles : list RoleAssignment) : ST AuthStore StoreError unit :=
  s ← st_get;
  if existsb (is_user tenant name) (users s) then st_fail (UserAlreadyExists tenant name)
  else
    let u := mkUser name tenant (hash_password salt password) roles now in
    _ ← save_user u;
    st_modify (λ s, with_users (users s ++ [u]) s).

(** [position] and [remove] *)
Fixpoint remove_first (p : User → bool) (us : list User) : option (list User) :=
  match us with
  | [] => None
  | u :: us => if p u then Some us else cons u <$> remove_first p us
  end.

Definition delete_user (tenant name : chars) : ST AuthStore StoreError unit := λ s,
  match remove_first (is_user tenant name) (users s) with
  | None => (Err (UserNotFound tenant name), s)
  | Some us =>
      (Ok tt, with_users us (with_dir (with_user_files (delete (user_file_path tenant name) (user_files (auth_dir s))) (auth_dir s)) s))
  end.

(** The first user that matches, changed in place. *)
Fixpoint update_first (p : User → bool) (f : User → User) (us : list User) : option (User * list User) :=
  match us with
  | [] => None
  | u :: us => if p u then Some (f u, f u :: us) else (λ '(x, us), (x, u :: us)) <$> update_first p f us
  end.

Definition set_roles (roles : list RoleAssignment) (u : User) : User :=
  mkUser (username u) (user_tenant u) (password_hash u) roles (created_at u).

Definition update_roles (tenant name : chars) (roles : list RoleAssignment) : ST AuthStore StoreError unit := λ s,
  match update_first (is_user tenant name) (set_roles roles) (users s) with
  | None => (Err (UserNotFound tenant name), s)
  | Some (snapshot, us) => save_user snapshot (with_users us s)
  end.

Definition authenticate (now : Z) (tenant name password : chars) (s : AuthStore) : outcome StoreError (chars * chars) :=
  u ← ok_or (get_user tenant name s) InvalidCredentials;
  valid ← ok_or (verify_password password (password_hash u)) HashError;
  if valid : bool then
    access ← generate_access_token now u (jwt_config s);
    refresh ← generate_refresh_token now u (jwt_config s);
    mret (access, refresh)
  else Err InvalidCredentials.

Definition verify_token (now : Z) (token : chars) (s : AuthStore) : outcome StoreError TokenClaims := jwt_verify_token now token (jwt_config s).

Definition refresh_access_token (now : Z) (token : chars) (s : AuthStore) : outcome StoreError chars :=
  claims ← verify_token now token s;
  if decide (token_type claims ≠ txt "refresh") then Err (InvalidToken "expected refresh token")
  else
    u ← ok_or (get_user (tenant (base claims)) (sub (base claims)) s) InvalidCredentials;
    generate_access_token now u (jwt_config s).

(** ** Opening, rotation, migration *)

Definition cluster_peer_role : list RoleAssignment := [mkRole ClusterPeer SServer].

Definition bootstrap_cluster_peer (now : Z) (salt : bytes) (pw : chars) : ST AuthStore StoreError unit :=
  s ← st_get;
  _ ← (if decide (get_user SYSTEM_TENANT CLUSTER_PEER_USERNAME s = None) then
         create_user now salt SYSTEM_TENANT CLUSTER_PEER_USERNAME pw cluster_peer_role
       else mret tt);
  s ← st_get;
  match get_user SYSTEM_TENANT CLUSTER_PEER_USERNAME s with
  | Some u =>
      token ← st_lift (generate_token now u (jwt_config s) CLUSTER_PEER_TTL_SECS (txt "access"));
      st_modify (λ s, with_dir (with_peer_token token (auth_dir s)) s)
  | None => mret tt
  end.

Definition ends_with (suffix s : chars) : bool := bool_decide (drop (length s - length suffix) s = suffix ∧ (length suffix ≤ length s)%nat).

(** [extension() == json] *)
Definition is_json_file (name : chars) : bool := ends_with (txt ".json") name && bool_decide (name ≠ txt ".json").

Definition load_users (listing : list chars) (files : gmap chars bytes) : list User :=
  omap (λ name, files !! name ≫= from_json) (List.filter is_json_file listing).

Definition open (now access refresh : Z) (bootstrap_password : option chars) (bootstrap : JwtAlgorithm) (fresh_secret : bytes) (fresh : RsKeyRing)
    (salt salt' : bytes) (peer_pw : chars) (listing : list chars) : AuthDir → outcome StoreError unit * AuthStore := λ d,
  match load_or_create_jwt_config access refresh bootstrap fresh_secret fresh d with
  | (Ok jwt, d) =>
      let s := mkStore d jwt (load_users listing (user_files d)) in
      (_ ← (if has_admin s then mret tt
            else match bootstrap_password with
                 | None => st_fail BootstrapRefused
                 | Some pwd => create_user now salt SYSTEM_TENANT (txt "admin") pwd [mkRole ServerAdmin SServer]
                 end);
       bootstrap_cluster_peer now salt' peer_pw) s
  | (Err e, d) => (Err e, mkStore d (new_hs256 [] access refresh) [])
  | (Panic, d) => (Panic, mkStore d (new_hs256 [] access refresh) [])
  end.

(** [if path.exists() { let _ = rename(..) }] *)
Definition archive (name : chars) (m : gmap chars bytes) : gmap chars bytes :=
  match m !! name with Some b => <[archived name := b]> (delete name m) | None => m end.

(** Archived files that are [old] go. *)
Definition gc_archived_keys (old : chars → bool) (m : gmap chars bytes) : gmap chars bytes :=
  filter (λ e, ends_with (txt ".archived") e.1 && old e.1 = false) m.

Record RotationOutcome := mkRotation { previous_current_kid : chars; promoted_kid : chars; new_next_kid : chars }.

Definition rotate_jwt_keys (now : Z) (fresh : RsKey) (old : chars → bool) (salt : bytes) (pw : chars) : ST AuthStore StoreError RotationOutcome := λ s,
  if decide (algorithm (jwt_config s) ≠ Rs256) then (Err (JwtError "rotate_jwt_keys requires RS256 algorithm"), s)
  else
    match rs_keys (jwt_config s), rotate fresh (jwt_config s) with
    | Some ring, Ok c =>
        let prev := kid (current ring) in
        let ring' := mkRing (next ring) fresh in
        let keys := archive (pub_name prev) (archive (pem_name prev) (key_files (auth_dir s))) in
        let d := write_jwt_config Rs256 (Some (kid (current ring'))) (Some (kid (next ring'))) (access_ttl c) (refresh_ttl c)
                   (write_key_pair (next ring') (with_keys keys (auth_dir s))) in
        let s := mkStore (with_keys (gc_archived_keys old (key_files d)) d) c (users s) in
        (_ ← bootstrap_cluster_peer now salt pw; mret (mkRotation prev (kid (current ring')) (kid (next ring')))) s
    | _, _ => (Panic, s)
    end.

Definition migrate_to_rs256 (now : Z) (fresh : RsKeyRing) (salt : bytes) (pw : chars) : ST AuthStore StoreError unit := λ s,
  if decide (algorithm (jwt_config s) = Rs256) then (Err (JwtError "already running RS256 — nothing to migrate"), s)
  else
    let c := new_rs256 fresh (access_ttl (jwt_config s)) (refresh_ttl (jwt_config s)) in
    let d := write_jwt_config Rs256 (Some (kid (current fresh))) (Some (kid (next fresh))) (access_ttl c) (refresh_ttl c)
               (write_key_pair (next fresh) (write_key_pair (current fresh) (auth_dir s))) in
    bootstrap_cluster_peer now salt pw (mkStore d c (users s)).
End store.
