(* ===== verification/AuthStoreSpec.v ===== *)
(** * Restarts, rotations and tokens of the authentication store *)

From stdpp Require Import gmap.
From S2P Require Import Prelude RustStd Command Crdt Auth AuthStore.

Local Open Scope Z_scope.

Section spec.
Context `{AuthCrates} (write_ok : chars → bool).
Implicit Types (s : AuthStore) (d : AuthDir) (u : User).

(** The identities in use; their file names differ. *)
Context (ids : chars * chars → Prop).
Definition ident u : chars * chars := (user_tenant u, username u).
Definition path_of (i : chars * chars) : chars := user_file_path i.1 i.2.
Hypothesis path_inj : ∀ i j, ids i → ids j → path_of i = path_of j → i = j.
Hypothesis ids_peer : ids (SYSTEM_TENANT, CLUSTER_PEER_USERNAME).

(** ** Users and their files *)

Record users_synced (us : list User) (m : gmap chars bytes) : Prop := {
  us_nodup : NoDup (ident <$> us);
  us_ids : ∀ u, u ∈ us → ids (ident u);
  us_file : ∀ u, u ∈ us → m !! path_of (ident u) = Some (to_json u);
  us_only : ∀ name b, m !! name = Some b → ∃ u, u ∈ us ∧ name = path_of (ident u);
}.

Lemma is_user_spec t n u : is_user t n u = true ↔ ident u = (t, n).
Proof. unfold is_user, ident. rewrite bool_decide_eq_true. split; [by intros [-> ->]|by intros [= <- <-]]. Qed.

Lemma remove_first_spec p us us' :
  remove_first p us = Some us' → ∃ u us1 us2, us = us1 ++ u :: us2 ∧ us' = us1 ++ us2 ∧ p u = true.
Proof.
  revert us'. induction us as [|u us IH]; intros us'; cbn [remove_first]; [done|]. destruct (p u) eqn:Hp.
  - intros [= <-]. by exists u, [], us.
  - intros (us'' & Hr & ->)%fmap_Some. destruct (IH _ Hr) as (x & us1 & us2 & -> & -> & Hx). by exists x, (u :: us1), us2.
Qed.

Lemma update_first_spec p f us x us' :
  update_first p f us = Some (x, us') → ∃ u us1 us2, us = us1 ++ u :: us2 ∧ us' = us1 ++ f u :: us2 ∧ x = f u ∧ p u = true.
Proof.
  revert x us'. induction us as [|u us IH]; intros x us'; cbn [update_first]; [done|]. destruct (p u) eqn:Hp.
  - intros [= <- <-]. by exists u, [], us.
  - intros ([y us''] & Hr & [= -> ->])%fmap_Some. destruct (IH _ _ Hr) as (v & us1 & us2 & -> & -> & -> & Hv). by exists v, (u :: us1), us2.
Qed.

Lemma synced_add us m u :
  users_synced us m → ids (ident u) → ident u ∉ ident <$> us → users_synced (us ++ [u]) (<[path_of (ident u) := to_json u]> m).
Proof.
  intros [Hn Hi Hf Ho] Hu Hnew. split.
  - rewrite fmap_app. apply NoDup_app. split_and!; [done| |apply NoDup_singleton]. intros x Hx ->%list_elem_of_singleton. done.
  - intros v [Hv| ->%list_elem_of_singleton]%elem_of_app; auto.
  - intros v [Hv| ->%list_elem_of_singleton]%elem_of_app; [|by rewrite lookup_insert_eq].
    rewrite lookup_insert_ne; [auto|]. intros Heq. apply path_inj in Heq; [|done|auto]. apply Hnew. rewrite Heq. by apply list_elem_of_fmap_2.
  - intros name b [[<- <-]|[Hne Hb]]%lookup_insert_Some; [exists u; set_solver|]. destruct (Ho _ _ Hb) as (v & Hv & ->). exists v. set_solver.
Qed.

Lemma synced_remove us1 us2 m u :
  users_synced (us1 ++ u :: us2) m → users_synced (us1 ++ us2) (delete (path_of (ident u)) m).
Proof.
  intros [Hn Hi Hf Ho]. rewrite fmap_app, fmap_cons in Hn. apply NoDup_app in Hn as (Hn1 & Hn12 & [Hnu Hn2]%NoDup_cons).
  assert (Hne : ∀ v, v ∈ us1 ++ us2 → ident v ≠ ident u).
  { intros v [Hv|Hv]%elem_of_app Heq.
    - apply (Hn12 (ident v)); [by apply list_elem_of_fmap_2|]. rewrite Heq. left.
    - apply Hnu. rewrite <- Heq. by apply list_elem_of_fmap_2. }
  assert (Hsub : ∀ v, v ∈ us1 ++ us2 → v ∈ us1 ++ u :: us2) by (intros v; rewrite !elem_of_app, elem_of_cons; tauto). split.
  - rewrite fmap_app. apply NoDup_app. split_and!; [done| |done]. intros x Hx Hx2. apply (Hn12 x Hx). by right.
  - intros v Hv. apply Hi, Hsub, Hv.
  - intros v Hv. rewrite lookup_delete_ne; [apply Hf, Hsub, Hv|]. intros Heq. apply (Hne v Hv). symmetry. apply path_inj; [apply Hi; set_solver|apply Hi, Hsub, Hv|done].
  - intros name b [Hname Hb]%lookup_delete_Some. destruct (Ho _ _ Hb) as (v & Hv & ->). exists v. split; [|done].
    apply elem_of_app in Hv as [Hv|[->|Hv]%elem_of_cons]; [set_solver|done|set_solver].
Qed.

Lemma synced_replace us1 us2 m u u' :
  users_synced (us1 ++ u :: us2) m → ident u' = ident u → users_synced (us1 ++ u' :: us2) (<[path_of (ident u) := to_json u']> m).
Proof.
  intros Hs Hid. pose proof (us_nodup _ _ Hs) as Hn. pose proof (us_ids _ _ Hs u ltac:(set_solver)) as Hu.
  pose proof (synced_remove _ _ _ _ Hs) as Hr. assert (Hnew : ident u' ∉ ident <$> us1 ++ us2).
  { rewrite fmap_app, fmap_cons in Hn. rewrite Hid, fmap_app, not_elem_of_app. apply NoDup_app in Hn as (_ & Hn12 & [Hnu _]%NoDup_cons).
    split; [|done]. intros Hx. apply (Hn12 _ Hx). left. }
  rewrite <- Hid in Hu. pose proof (synced_add _ _ u' Hr Hu Hnew) as [Ha Hi Hf Ho]. rewrite Hid, insert_delete_eq in Ho. rewrite Hid, insert_delete_eq in Hf.
  assert (Hp : us1 ++ u' :: us2 ≡ₚ (us1 ++ us2) ++ [u']) by (rewrite <- Permutation_middle, <- Permutation_cons_append; done).
  split.
  - rewrite fmap_app, fmap_cons, Hid. by rewrite fmap_app, fmap_cons in Hn.
  - intros v Hv. apply Hi. by rewrite <- Hp.
  - intros v Hv. apply Hf. by rewrite <- Hp.
  - intros name b Hb. destruct (Ho _ _ Hb) as (v & Hv & ->). exists v. split; [by rewrite Hp|done].
Qed.

(** ** What a restart reads *)

Lemma path_is_json i : is_json_file (path_of i) = true.
Proof.
  assert (∃ l, path_of i = l ++ txt ".json" ∧ (0 < length l)%nat) as (l & -> & Hl).
  { exists (i.1 ++ txt "__" ++ sanitise_for_filename i.2). split; [by unfold path_of, user_file_path; rewrite <- !app_assoc|]. rewrite !length_app. cbn. lia. }
  unfold is_json_file, ends_with. rewrite andb_true_iff, !bool_decide_eq_true. split_and!.
  - rewrite length_app, Nat.add_sub. by rewrite drop_app_length.
  - rewrite length_app. lia.
  - intros Heq%(f_equal length). rewrite length_app in Heq. lia.
Qed.

Lemma load_users_perm us m listing :
  users_synced us m → listing ≡ₚ (map_to_list m).*1 → load_users listing m ≡ₚ us.
Proof.
  intros [Hn Hi Hf Ho] Hl.
  assert (Hmem : ∀ name, name ∈ listing ↔ ∃ u, u ∈ us ∧ name = path_of (ident u)).
  { intros name. rewrite Hl, list_elem_of_fmap. split.
    - intros ([k b] & -> & Hb%elem_of_map_to_list). by apply Ho in Hb.
    - intros (u & Hu & ->). exists (path_of (ident u), to_json u). split; [done|]. by apply elem_of_map_to_list, Hf. }
  assert (Hnl : NoDup listing) by (rewrite Hl; apply NoDup_fst_map_to_list).
  assert (Hload : load_users listing m = omap (λ name, m !! name ≫= from_json) listing).
  { unfold load_users. f_equal. apply forallb_filter_id, forallb_forall. intros name Hin%list_elem_of_In. apply Hmem in Hin as (u & _ & ->). apply path_is_json. }
  rewrite Hload. clear Hload Hl. apply NoDup_Permutation.
  - assert (Hsub : ∀ name, name ∈ listing → ∃ u, u ∈ us ∧ name = path_of (ident u)) by (intros; by apply Hmem). clear Hmem.
    induction Hnl as [|name l Hnot Hnl IH]; [constructor|]. cbn [omap list_omap]. destruct (Hsub name ltac:(left)) as (u & Hu & ->).
    rewrite (Hf u Hu). cbn [mbind option_bind]. rewrite from_to_json. constructor; [|apply IH; intros; apply Hsub; by right].
    intros (name & Hname & Hx)%list_elem_of_omap. destruct (Hsub name ltac:(by right)) as (v & Hv & ->). rewrite (Hf v Hv) in Hx. cbn in Hx. rewrite from_to_json in Hx.
    injection Hx as ->. done.
  - eapply NoDup_fmap_1, Hn.
  - intros u. rewrite list_elem_of_omap. split.
    + intros (name & (v & Hv & ->)%Hmem & Hx). rewrite (Hf v Hv) in Hx. cbn in Hx. rewrite from_to_json in Hx. by injection Hx as ->.
    + intros Hu. exists (path_of (ident u)). split; [apply Hmem; eauto|]. rewrite (Hf u Hu). cbn. apply from_to_json.
Qed.

(** ** Keys and their files *)

Lemma pem_inj k k' : pem_name k = pem_name k' → k = k'.
Proof. apply app_inj_2. done. Qed.
Lemma pub_inj k k' : pub_name k = pub_name k' → k = k'.
Proof. apply app_inj_2. done. Qed.

Lemma pem_not_pub k k' : 46 ∉ k → pem_name k ≠ pub_name k'.
Proof.
  unfold pem_name, pub_name. change (txt ".pub.pem") with (txt ".pub" ++ txt ".pem"). rewrite app_assoc. intros Hk Heq.
  apply app_inj_2 in Heq as [Heq _]; [|done]. apply Hk. rewrite Heq. apply elem_of_app. right. vm_compute. by left.
Qed.

Lemma last_suffix (a b : chars) x : last b = Some x → last (a ++ b) = Some x.
Proof. intros Hb. by rewrite last_app, Hb. Qed.

Lemma live_not_archived name name' : last name = Some 109 → name ≠ archived name'.
Proof. intros Hl ->. unfold archived in Hl. rewrite (last_suffix _ _ 100) in Hl by reflexivity. done. Qed.

Lemma live_kept name : last name = Some 109 → ends_with (txt ".archived") name = false.
Proof.
  intros Hl. unfold ends_with. apply bool_decide_eq_false. intros [Hd _]. rewrite <- (take_drop (length name - length (txt ".archived")) name), Hd in Hl.
  rewrite (last_suffix _ _ 100) in Hl by reflexivity. done.
Qed.

Lemma pem_live k : last (pem_name k) = Some 109.
Proof. by apply last_suffix. Qed.
Lemma pub_live k : last (pub_name k) = Some 109.
Proof. by apply last_suffix. Qed.

Lemma archive_lookup name m name' : name' ≠ name → last name' = Some 109 → archive name m !! name' = m !! name'.
Proof.
  intros Hne Hl. unfold archive. destruct (m !! name) as [b|]; [|done]. rewrite lookup_insert_ne by (intros Heq; by apply (live_not_archived name' name)).
  by rewrite lookup_delete_ne.
Qed.

Lemma gc_lookup old m name : last name = Some 109 → gc_archived_keys old m !! name = m !! name.
Proof.
  intros Hl. unfold gc_archived_keys. destruct (m !! name) as [b|] eqn:Hb.
  - apply map_lookup_filter_Some. split; [done|]. cbn [fst]. by rewrite (live_kept name Hl).
  - apply map_lookup_filter_None. by left.
Qed.

Definition key_on_disk (k : RsKey) d : Prop :=
  key_files d !! pem_name (kid k) = Some (private_pem k) ∧ key_files d !! pub_name (kid k) = Some (public_pem k).

Record ring_ok (r : RsKeyRing) d : Prop := {
  ro_current : genuine (current r);
  ro_next : genuine (next r);
  ro_ne : kid (current r) ≠ kid (next r);
  ro_current_file : key_on_disk (current r) d;
  ro_next_file : key_on_disk (next r) d;
}.

(** The configuration in memory is the one on disk. *)
Inductive keys_synced : JwtConfig → AuthDir → Prop :=
| hs_synced secret a r d :
    length secret = 32%nat → secret_key d = Some secret →
    (config_file d = None ∨ config_file d = Some (to_json (mkDiskConfig Hs256 None None a r))) →
    keys_synced (new_hs256 secret a r) d
| rs_synced ring a r d :
    ring_ok ring d → config_file d = Some (to_json (mkDiskConfig Rs256 (Some (kid (current ring))) (Some (kid (next ring))) a r)) →
    keys_synced (new_rs256 ring a r) d.

Lemma read_genuine k d : genuine k → key_on_disk k d → read_rs_key d (kid k) = Ok k.
Proof. intros Hg [H1 H2]. unfold read_rs_key. rewrite H1, H2. cbn. by rewrite genuine_pem. Qed.

Lemma keys_reload c d alg sec fresh :
  keys_synced c d → load_or_create_jwt_config (access_ttl c) (refresh_ttl c) alg sec fresh d = (Ok c, d).
Proof.
  unfold load_or_create_jwt_config. destruct 1 as [secret a r d Hl Hs Hc|ring a r d Hr Hc].
  - assert (Hread : read_hs_secret d = Ok secret) by (unfold read_hs_secret; rewrite Hs; cbn; by rewrite decide_True).
    destruct Hc as [Hc|Hc]; rewrite Hc, ?Hs.
    + by rewrite Hread.
    + rewrite from_to_json. cbn [ok_or mbind outcome_bind]. unfold load_from_disk_config. cbn [d_algorithm]. by rewrite Hread.
  - destruct Hr as [Hg1 Hg2 _ H1 H2]. rewrite Hc, from_to_json. cbn [ok_or mbind outcome_bind]. unfold load_from_disk_config.
    cbn [d_algorithm d_current_kid d_next_kid d_access_ttl_secs d_refresh_ttl_secs ok_or mbind outcome_bind].
    rewrite (read_genuine _ _ Hg1 H1). cbn [mbind outcome_bind]. rewrite (read_genuine _ _ Hg2 H2). destruct ring. done.
Qed.

(** Files other than the key material do not matter. *)
Lemma keys_synced_dir c d d' :
  keys_synced c d → secret_key d' = secret_key d → config_file d' = config_file d → key_files d' = key_files d → keys_synced c d'.
Proof.
  intros Hk Hs Hc Hf. destruct Hk as [secret a r d Hl Hs' Hc'|ring a r d [Hg1 Hg2 Hne H1 H2] Hc'].
  - apply hs_synced; [done|by rewrite Hs|by rewrite Hc].
  - apply rs_synced; [|by rewrite Hc]. split; try done; unfold key_on_disk in *; by rewrite Hf.
Qed.

Lemma write_pair_on_disk k d : genuine k → key_on_disk k (write_key_pair k d).
Proof.
  intros Hg. unfold key_on_disk, write_key_pair, with_keys. cbn [key_files].
  split; [|by rewrite lookup_insert_eq]. rewrite lookup_insert_ne by (apply not_eq_sym, pem_not_pub, genuine_kid, Hg). by rewrite lookup_insert_eq.
Qed.

Lemma write_pair_other k k' d : genuine k → genuine k' → kid k ≠ kid k' → key_on_disk k d → key_on_disk k (write_key_pair k' d).
Proof.
  intros Hg Hg' Hne [H1 H2]. unfold key_on_disk, write_key_pair, with_keys. cbn [key_files].
  split; rewrite !lookup_insert_ne; try done; try (intros Heq; first [apply pem_inj in Heq|apply pub_inj in Heq]; congruence).
  - apply not_eq_sym, pem_not_pub, genuine_kid, Hg.
  - apply pem_not_pub, genuine_kid, Hg'.
Qed.

Lemma new_ring_ok (fresh : RsKeyRing) d :
  genuine (current fresh) → genuine (next fresh) → kid (current fresh) ≠ kid (next fresh) →
  ring_ok fresh (write_key_pair (next fresh) (write_key_pair (current fresh) d)).
Proof. intros Hg1 Hg2 Hne. split; [done..| |by apply write_pair_on_disk]. apply write_pair_other; [done..|]. by apply write_pair_on_disk. Qed.

(** ** The operations *)

Definition synced s : Prop := users_synced (users s) (user_files (auth_dir s)) ∧ keys_synced (jwt_config s) (auth_dir s).

Lemma save_user_spec u s r s' :
  save_user write_ok u s = (r, s') →
  (r = Ok tt ∧ s' = with_dir (with_user_files (<[path_of (ident u) := to_json u]> (user_files (auth_dir s))) (auth_dir s)) s) ∨
  (r ≠ Ok tt ∧ s' = s).
Proof. unfold save_user. fold (path_of (ident u)). destruct (write_ok _); intros [= <- <-]; [by left|by right]. Qed.

Lemma not_user_ident t n us : existsb (is_user t n) us = false → (t, n) ∉ ident <$> us.
Proof.
  intros He (u & Heq & Hu)%list_elem_of_fmap. apply not_true_iff_false in He. apply He, existsb_exists. exists u.
  split; [by apply list_elem_of_In|]. by apply is_user_spec.
Qed.

Lemma create_synced now salt t n pw roles s r s' :
  create_user write_ok now salt t n pw roles s = (r, s') → ids (t, n) → synced s → synced s' ∧ jwt_config s' = jwt_config s.
Proof.
  intros Hc Hi [Hu Hk]. unfold create_user in Hc. rewrite st_get_bind in Hc. destruct (existsb _ _) eqn:He; [by injection Hc as <- <-|].
  set (u := mkUser n t (hash_password salt pw) roles now) in *. unfold mbind, st_bind in Hc.
  destruct (save_user write_ok u s) as [r1 s1] eqn:Hs. destruct (save_user_spec _ _ _ _ Hs) as [[-> ->]|[Hne ->]].
  - injection Hc as <- <-. split; [|done]. split; cbn [users auth_dir jwt_config with_users with_dir with_user_files user_files].
    + apply synced_add; [done|done|]. by apply not_user_ident.
    + by eapply keys_synced_dir.
  - destruct r1 as [[]|e|]; [done|by injection Hc as <- <-..].
Qed.

Lemma peer_token_synced token s : synced s → synced (with_dir (with_peer_token token (auth_dir s)) s).
Proof. intros [Hu Hk]. split; [done|]. by eapply keys_synced_dir. Qed.

Lemma bootstrap_synced now salt pw s r s' :
  bootstrap_cluster_peer write_ok now salt pw s = (r, s') → synced s → synced s' ∧ jwt_config s' = jwt_config s.
Proof.
  unfold bootstrap_cluster_peer. rewrite st_get_bind. intros Hb Hs.
  assert (Hlast : ∀ s0 r0 s1, synced s0 →
    (match get_user SYSTEM_TENANT CLUSTER_PEER_USERNAME s0 with
     | Some u => token ← st_lift (generate_token now u (jwt_config s0) CLUSTER_PEER_TTL_SECS (txt "access")); st_modify (λ s, with_dir (with_peer_token token (auth_dir s)) s)
     | None => mret tt end) s0 = (r0, s1) → synced s1 ∧ jwt_config s1 = jwt_config s0).
  { intros s0 r0 s1 Hs0. destruct (get_user _ _ s0) as [u|]; [|by intros [= <- <-]]. unfold mbind, st_bind, st_lift.
    destruct (generate_token _ _ _ _ _) as [tok|e|]; [|by intros [= <- <-]..]. intros [= <- <-]. split; [by apply peer_token_synced|done]. }
  unfold mbind at 1, st_bind at 1 in Hb. case_decide as Hd.
  - destruct (create_user _ _ _ _ _ _ _ s) as [r1 s1] eqn:Hc. destruct (create_synced _ _ _ _ _ _ _ _ _ Hc ids_peer Hs) as [Hs1 Hj1].
    destruct r1 as [[]|e|]; [|by injection Hb as <- <-..]. rewrite st_get_bind in Hb. destruct (Hlast _ _ _ Hs1 Hb) as [? ->]. done.
  - cbn [mret st_ret] in Hb. rewrite st_get_bind in Hb. by apply (Hlast _ _ _ Hs) in Hb.
Qed.

Lemma delete_synced t n s r s' :
  delete_user t n s = (r, s') → synced s → synced s' ∧ jwt_config s' = jwt_config s.
Proof.
  unfold delete_user. destruct (remove_first _ _) as [us|] eqn:Hr; [|by intros [= <- <-]]. intros [= <- <-] [Hu Hk].
  apply remove_first_spec in Hr as (u & us1 & us2 & Hus & -> & Hp). apply is_user_spec in Hp. rewrite Hus in Hu. split; [|done].
  split; cbn [users auth_dir jwt_config with_users with_dir with_user_files user_files]; [|by eapply keys_synced_dir].
  change (user_file_path t n) with (path_of (t, n)). rewrite <- Hp. by apply synced_remove.
Qed.

Lemma update_synced t n roles s s' :
  update_roles write_ok t n roles s = (Ok tt, s') → synced s → synced s' ∧ jwt_config s' = jwt_config s.
Proof.
  unfold update_roles. destruct (update_first _ _ _) as [[x us]|] eqn:Hr; [|done]. intros Hs [Hu Hk].
  apply update_first_spec in Hr as (u & us1 & us2 & Hus & -> & -> & Hp). rewrite Hus in Hu.
  destruct (save_user_spec _ _ _ _ Hs) as [[_ ->]|[Hne _]]; [|done]. split; [|done].
  split; cbn [users auth_dir jwt_config with_users with_dir with_user_files user_files]; [|by eapply keys_synced_dir].
  change (ident (set_roles roles u)) with (ident u). by apply synced_replace.
Qed.

Lemma rotate_synced now fresh old salt pw s r s' :
  rotate_jwt_keys write_ok now fresh old salt pw s = (r, s') → genuine fresh →
  (∀ ring, rs_keys (jwt_config s) = Some ring → kid fresh ≠ kid (current ring) ∧ kid fresh ≠ kid (next ring)) →
  synced s → synced s'.
Proof.
  unfold rotate_jwt_keys. case_decide as Ha; [by intros [= <- <-]|]. intros Hr Hg Hfresh [Hu Hk].
  destruct s as [d c us]. cbn [jwt_config auth_dir users] in *. destruct Hk as [|ring a rf d [Hg1 Hg2 Hne [H1 H1'] [H2 H2']] Hc]; [done|].
  destruct (Hfresh ring eq_refl) as [Hf1 Hf2]. cbn [rs_keys rotate new_rs256 algorithm access_ttl refresh_ttl hs_secret current next] in Hr.
  unfold mbind, st_bind in Hr. destruct (bootstrap_cluster_peer _ _ _ _ _) as [r1 s1] eqn:Hb.
  apply bootstrap_synced in Hb as [Hs _]; [by destruct r1; injection Hr as <- <-|].
  split; cbn [users auth_dir jwt_config user_files with_keys write_jwt_config with_config write_key_pair]; [exact Hu|].
  change (mkJwt Rs256 a rf None (Some (mkRing (next ring) fresh))) with (new_rs256 (mkRing (next ring) fresh) a rf). apply rs_synced; [|done].
  pose proof (genuine_kid _ Hg2) as Hd2. pose proof (genuine_kid _ Hg) as Hd. pose proof (genuine_kid _ Hg1) as Hd1. split; cbn [current next]; try done.
  - split; cbn [key_files with_keys write_jwt_config with_config write_key_pair].
    + rewrite gc_lookup, !lookup_insert_ne, !archive_lookup; try done; try apply pem_live; try (intros Heq; apply pem_inj in Heq; congruence).
      * by apply pem_not_pub.
      * by apply not_eq_sym, pem_not_pub.
    + rewrite gc_lookup, !lookup_insert_ne, !archive_lookup; try done; try apply pub_live; try (intros Heq; apply pub_inj in Heq; congruence).
      * by apply not_eq_sym, pem_not_pub.
      * by apply pem_not_pub.
  - split; cbn [key_files with_keys write_jwt_config with_config write_key_pair].
    + rewrite gc_lookup by apply pem_live. rewrite lookup_insert_ne by (by apply not_eq_sym, pem_not_pub). by rewrite lookup_insert_eq.
    + rewrite gc_lookup by apply pub_live. by rewrite lookup_insert_eq.
Qed.

Lemma migrate_synced now fresh salt pw s r s' :
  migrate_to_rs256 write_ok now fresh salt pw s = (r, s') →
  genuine (current fresh) → genuine (next fresh) → kid (current fresh) ≠ kid (next fresh) → synced s → synced s'.
Proof.
  unfold migrate_to_rs256. case_decide; [by intros [= <- <-]|]. intros Hb Hg1 Hg2 Hne [Hu Hk]. apply bootstrap_synced in Hb as [Hs _]; [done|].
  split; [exact Hu|]. cbn [jwt_config auth_dir]. apply rs_synced; [|done].
  pose proof (new_ring_ok fresh (auth_dir s) Hg1 Hg2 Hne) as [? ? ? ? ?]. by split.
Qed.

(** ** Runs *)

(** What the server does to its store while it runs.  A role change whose file could not be
    written is not among the steps: it stays in memory only. *)
Inductive auth_step : AuthStore → AuthStore → Prop :=
| step_create now salt t n pw roles s r s' : ids (t, n) → create_user write_ok now salt t n pw roles s = (r, s') → auth_step s s'
| step_delete t n s r s' : delete_user t n s = (r, s') → auth_step s s'
| step_update t n roles s s' : update_roles write_ok t n roles s = (Ok tt, s') → auth_step s s'
| step_rotate now fresh old salt pw s r s' :
    genuine fresh → (∀ ring, rs_keys (jwt_config s) = Some ring → kid fresh ≠ kid (current ring) ∧ kid fresh ≠ kid (next ring)) →
    rotate_jwt_keys write_ok now fresh old salt pw s = (r, s') → auth_step s s'
| step_migrate now fresh salt pw s r s' :
    genuine (current fresh) → genuine (next fresh) → kid (current fresh) ≠ kid (next fresh) →
    migrate_to_rs256 write_ok now fresh salt pw s = (r, s') → auth_step s s'.

Lemma step_synced s s' : auth_step s s' → synced s → synced s'.
Proof.
  destruct 1 as [? ? ? ? ? ? ? ? ? Hi Hc|? ? ? ? ? Hd|? ? ? ? ? Hu|? ? ? ? ? ? ? ? Hg Hk Hr|? ? ? ? ? ? ? ? ? ? Hm]; intros Hs.
  - by eapply create_synced.
  - by eapply delete_synced.
  - by eapply update_synced.
  - by eapply rotate_synced.
  - by eapply migrate_synced.
Qed.

Definition empty_dir : AuthDir := mkDir ∅ None None ∅ None.

Lemma open_synced now a rf pwd alg secret fresh salt salt' pw s :
  length secret = 32%nat → genuine (current fresh) → genuine (next fresh) → kid (current fresh) ≠ kid (next fresh) → ids (SYSTEM_TENANT, txt "admin") →
  open write_ok now a rf pwd alg secret fresh salt salt' pw [] empty_dir = (Ok tt, s) → synced s.
Proof.
  intros Hl Hg1 Hg2 Hne Hadmin. unfold open.
  assert (∃ c d, load_or_create_jwt_config a rf alg secret fresh empty_dir = (Ok c, d) ∧ user_files d = ∅ ∧ keys_synced c d) as (c & d & -> & Hf & Hk).
  { unfold load_or_create_jwt_config. cbn [config_file secret_key empty_dir]. destruct alg; do 2 eexists; (split; [reflexivity|]); (split; [reflexivity|]).
    - apply hs_synced; [done|done|by right].
    - apply rs_synced; [|done]. pose proof (new_ring_ok fresh empty_dir Hg1 Hg2 Hne) as [? ? ? ? ?]. by split. }
  set (s0 := mkStore d c _). assert (Hs0 : synced s0).
  { split; [|exact Hk]. cbn [users auth_dir s0]. rewrite Hf. split; try done; [constructor|set_solver|set_solver]. }
  unfold mbind, st_bind. change (has_admin s0) with false. destruct pwd as [pwd|]; [|done].
  destruct (create_user write_ok now salt SYSTEM_TENANT (txt "admin") pwd [mkRole ServerAdmin SServer] s0) as [r1 s1] eqn:Hc. destruct (create_synced _ _ _ _ _ _ _ _ _ Hc Hadmin Hs0) as [Hs1 _].
  destruct r1 as [[]|e|]; [|done..]. intros Hb. by apply bootstrap_synced in Hb as [Hs _].
Qed.

Lemma keys_sign c d now u ttl ty : keys_synced c d → now + ttl < 18446744073709551616 → ∃ tok, generate_token now u c ttl ty = Ok tok.
Proof. intros Hk Ht. unfold generate_token. rewrite decide_False by lia. destruct Hk; eexists; reflexivity. Qed.

Lemma get_user_some t n s : is_Some (get_user t n s) ↔ ∃ u, u ∈ users s ∧ ident u = (t, n).
Proof.
  unfold get_user. split.
  - intros [u Hu]. apply find_some in Hu as [Hin Hp]. exists u. by rewrite list_elem_of_In, <- is_user_spec.
  - intros (u & Hin & Hp). destruct (List.find _ _) eqn:Hf; [eauto|]. eapply find_none in Hf; [|by apply list_elem_of_In]. apply is_user_spec in Hp. congruence.
Qed.

Lemma has_admin_perm s s' : users s ≡ₚ users s' → has_admin s = true → has_admin s' = true.
Proof.
  intros Hp. unfold has_admin. rewrite !existsb_exists. intros (u & Hu & Ha). exists u. split; [|done]. by rewrite <- list_elem_of_In, <- Hp, list_elem_of_In.
Qed.

(** C25: A restart finds the store as it was.  From a fresh installation, after any user
    creations, deletions, role changes, key rotations and migrations, opening the directory
    again needs no bootstrap password, reads exactly the users that were there, with their
    roles and password hashes, and the same keys, so every token verifies as before.  File
    names of the users must differ, and an administrator and the peer user must be left. *)
Theorem auth_restart now a rf pwd alg secret fresh salt salt' pw s0 s now' alg' secret' fresh' salt1 salt2 pw' listing :
  length secret = 32%nat → genuine (current fresh) → genuine (next fresh) → kid (current fresh) ≠ kid (next fresh) → ids (SYSTEM_TENANT, txt "admin") →
  open write_ok now a rf pwd alg secret fresh salt salt' pw [] empty_dir = (Ok tt, s0) → rtc auth_step s0 s →
  has_admin s = true → is_Some (get_user SYSTEM_TENANT CLUSTER_PEER_USERNAME s) → now' + CLUSTER_PEER_TTL_SECS < 18446744073709551616 →
  listing ≡ₚ (map_to_list (user_files (auth_dir s))).*1 →
  ∃ s', open write_ok now' (access_ttl (jwt_config s)) (refresh_ttl (jwt_config s)) None alg' secret' fresh' salt1 salt2 pw' listing (auth_dir s) = (Ok tt, s') ∧
    users s' ≡ₚ users s ∧ jwt_config s' = jwt_config s ∧ (∀ t token, verify_token t token s' = verify_token t token s).
Proof.
  intros Hl Hg1 Hg2 Hne Hadm Hopen Hrun Ha Hpeer Ht Hlist. assert (Hs : synced s).
  { apply open_synced in Hopen; [|done..]. clear -Hopen Hrun path_inj ids_peer. induction Hrun; [done|]. by eapply IHHrun, step_synced. }
  destruct Hs as [Hu Hk]. unfold open. rewrite (keys_reload _ _ _ _ _ Hk). pose proof (load_users_perm _ _ _ Hu Hlist) as Hp.
  set (s1 := mkStore _ _ _). assert (Hp1 : users s1 ≡ₚ users s) by exact Hp. symmetry in Hp1. rewrite (has_admin_perm _ _ Hp1 Ha).
  assert (Hpeer1 : is_Some (get_user SYSTEM_TENANT CLUSTER_PEER_USERNAME s1)).
  { apply get_user_some in Hpeer as (u & Hin & Hi). apply get_user_some. exists u. by rewrite <- Hp1. }
  destruct Hpeer1 as [u Hgu]. destruct (keys_sign _ _ now' u CLUSTER_PEER_TTL_SECS (txt "access") Hk Ht) as [tok Htok].
  unfold mbind, st_bind. cbn [mret st_ret]. unfold bootstrap_cluster_peer. rewrite st_get_bind.
  unfold mbind at 1, st_bind at 1. rewrite decide_False by (by rewrite Hgu). cbn [mret st_ret]. rewrite st_get_bind, Hgu.
  change (jwt_config s1) with (jwt_config s). rewrite Htok. eexists. split; [reflexivity|]. by split_and!.
Qed.

(** ** Tokens *)

(** The claims of a token made for a user. *)
Definition claims_of (now : Z) u (ttl : Z) (ty : chars) : TokenClaims := mkTokenClaims (mkClaims (username u) (user_tenant u) (user_roles u)) now (now + ttl) ty.

Lemma token_verifies c d now u ttl ty tok later :
  keys_synced c d → generate_token now u c ttl ty = Ok tok →
  jwt_verify_token later tok c = if decide (now + ttl < later) then Err TokenExpired else Ok (claims_of now u ttl ty).
Proof.
  unfold generate_token, jwt_verify_token. case_decide; [done|]. destruct 1 as [secret a r d Hl _ _|ring a r d Hr _]; cbn [algorithm new_hs256 new_rs256 hs_secret rs_keys ok_or mbind outcome_bind].
  - intros [= <-]. rewrite hs_decode_encode. cbn [exp]. by case_decide.
  - intros [= <-]. rewrite jwt_kid_encode. cbn [ok_or mbind outcome_bind]. unfold ring_find. rewrite decide_True by done. cbn [ok_or mbind outcome_bind].
    rewrite rs_decode_encode by apply Hr. cbn [exp]. by case_decide.
Qed.

(** The operations on users. *)
Inductive user_change : AuthStore → AuthStore → Prop :=
| change_create now salt t n pw roles s r s' : create_user write_ok now salt t n pw roles s = (r, s') → user_change s s'
| change_delete t n s r s' : delete_user t n s = (r, s') → user_change s s'
| change_update t n roles s r s' : update_roles write_ok t n roles s = (r, s') → user_change s s'.

Lemma save_user_keys u s r s' : save_user write_ok u s = (r, s') → jwt_config s' = jwt_config s.
Proof. intros Hs. by destruct (save_user_spec _ _ _ _ Hs) as [[_ ->]|[_ ->]]. Qed.

Lemma create_user_keys now salt t n pw roles s r s' : create_user write_ok now salt t n pw roles s = (r, s') → jwt_config s' = jwt_config s.
Proof.
  unfold create_user. rewrite st_get_bind. destruct (existsb _ _); [by intros [= _ <-]|]. unfold mbind, st_bind.
  destruct (save_user _ _ _) as [[[]|e|] s1] eqn:Hs; apply save_user_keys in Hs; by intros [= _ <-].
Qed.

Lemma user_change_keys s s' : user_change s s' → jwt_config s' = jwt_config s.
Proof.
  destruct 1 as [? ? ? ? ? ? s r s' Hc|? ? s r s' Hd|? ? ? s r s' Hu].
  - by eapply create_user_keys.
  - unfold delete_user in Hd. by destruct (remove_first _ _); injection Hd as _ <-.
  - unfold update_roles in Hu. destruct (update_first _ _ _) as [[x us]|]; [|by injection Hu as _ <-]. by apply save_user_keys in Hu.
Qed.

Lemma bootstrap_keys now salt pw s r s' : bootstrap_cluster_peer write_ok now salt pw s = (r, s') → jwt_config s' = jwt_config s.
Proof.
  unfold bootstrap_cluster_peer. rewrite st_get_bind. unfold mbind at 1, st_bind at 1.
  assert (Hlast : ∀ s1, (s2 ← st_get; match get_user SYSTEM_TENANT CLUSTER_PEER_USERNAME s2 with
      | Some u => token ← st_lift (generate_token now u (jwt_config s2) CLUSTER_PEER_TTL_SECS (txt "access")); st_modify (λ s, with_dir (with_peer_token token (auth_dir s)) s)
      | None => mret tt end) s1 = (r, s') → jwt_config s' = jwt_config s1).
  { intros s1. rewrite st_get_bind. destruct (get_user _ _ s1) as [u|]; [|by intros [= _ <-]]. unfold mbind, st_bind, st_lift.
    destruct (generate_token _ _ _ _ _); by intros [= _ <-]. }
  case_decide; [|apply Hlast]. destruct (create_user _ _ _ _ _ _ _ s) as [r1 s1] eqn:H1. apply create_user_keys in H1. rewrite <- H1.
  destruct r1 as [[]|e|]; [apply Hlast|by intros [= _ <-]..].
Qed.

(** Neither token is any use in the store. *)
Definition revoked access refresh s : Prop :=
  ∀ later, ∃ why, verify_token later access s = Err (InvalidToken why) ∧ refresh_access_token later refresh s = Err (InvalidToken why).

(** A key that is not in the ring: the other ring, or a token without a key id. *)
Lemma unknown_key_revoked now u c now1 ttl1 ty1 ttl2 ty2 access refresh s ring :
  generate_token now u c ttl1 ty1 = Ok access → generate_token now1 u c ttl2 ty2 = Ok refresh →
  algorithm (jwt_config s) = Rs256 → rs_keys (jwt_config s) = Some ring →
  (algorithm c = Hs256 ∨ ∃ ring0, rs_keys c = Some ring0 ∧ kid (current ring) ≠ kid (current ring0) ∧ kid (next ring) ≠ kid (current ring0)) →
  revoked access refresh s.
Proof.
  intros Ha Hr Halg Hring Hold. assert (Hbad : ∃ why, ∀ now ttl ty tok, generate_token now u c ttl ty = Ok tok → ∀ later, verify_token later tok s = Err (InvalidToken why)).
  { unfold generate_token, verify_token, jwt_verify_token. rewrite Halg, Hring. cbn [ok_or mbind outcome_bind].
    destruct (algorithm c); [exists "missing kid in header"%string|exists "kid not found in keyring"%string]; intros n t y tok; (case_decide; [done|]).
    - destruct (hs_secret c); [|done]. intros [= <-] later. by rewrite jwt_kid_encode.
    - destruct Hold as [?|(ring0 & -> & Hne1 & Hne2)]; [done|]. intros [= <-] later. rewrite jwt_kid_encode. cbn [ok_or mbind outcome_bind]. unfold ring_find.
      by rewrite !decide_False. }
  destruct Hbad as [why Hbad]. intros later. exists why. split; [by eapply Hbad|]. unfold refresh_access_token. by rewrite (Hbad _ _ _ _ Hr).
Qed.

Lemma rotation_keys now fresh old salt pw s o s' :
  rotate_jwt_keys write_ok now fresh old salt pw s = (Ok o, s') →
  ∃ ring, rs_keys (jwt_config s) = Some ring ∧ algorithm (jwt_config s') = Rs256 ∧ rs_keys (jwt_config s') = Some (mkRing (next ring) fresh).
Proof.
  unfold rotate_jwt_keys. case_decide as Halg; [done|]. unfold rotate. destruct (rs_keys (jwt_config s)) as [ring|]; [|done].
  unfold mbind, st_bind. destruct (bootstrap_cluster_peer _ _ _ _ _) as [r1 s1] eqn:Hb. apply bootstrap_keys in Hb. cbn [jwt_config] in Hb.
  destruct r1 as [[]|e|]; [|done..]. intros [= _ <-]. exists ring. rewrite Hb. cbn. split_and!; [done| |done]. by destruct (algorithm (jwt_config s)).
Qed.


(** A refresh token passes where an access token is asked for. *)
Lemma refresh_token_verifies now u s tok :
  keys_synced (jwt_config s) (auth_dir s) → generate_refresh_token now u (jwt_config s) = Ok tok → 0 ≤ refresh_ttl (jwt_config s) →
  verify_token now tok s = Ok (claims_of now u (refresh_ttl (jwt_config s)) (txt "refresh")).
Proof. intros Hk Hg Hr. unfold verify_token. rewrite (token_verifies _ _ _ _ _ _ _ now Hk Hg). by rewrite decide_False by lia. Qed.

(** A rotation ends every token that was signed before it. *)
Lemma rotation_revokes now u ttl ty tok ring fresh a rf d c' later :
  ring_ok ring d → kid (current ring) ≠ kid fresh →
  generate_token now u (new_rs256 ring a rf) ttl ty = Ok tok → rotate fresh (new_rs256 ring a rf) = Ok c' →
  jwt_verify_token later tok c' = Err (InvalidToken "kid not found in keyring").
Proof.
  intros [_ _ Hne _ _] Hf. unfold generate_token. case_decide; [done|]. intros [= <-] [= <-]. unfold jwt_verify_token.
  cbn [algorithm rs_keys ok_or mbind outcome_bind new_rs256]. rewrite jwt_kid_encode. cbn [ok_or mbind outcome_bind]. unfold ring_find. cbn [current next].
  rewrite decide_False by done. by rewrite decide_False by done.
Qed.
End spec.

(** Two users can have one file: deleting the one deletes the file of the other, who is gone
    after a restart. *)
Lemma colliding_users `{AuthCrates} s s' :
  user_file_path (txt "a") (txt "b__c") = user_file_path (txt "a__b") (txt "c") ∧
  (delete_user (txt "a") (txt "b__c") s = (Ok tt, s') → user_files (auth_dir s') !! user_file_path (txt "a__b") (txt "c") = None).
Proof.
  split; [done|]. unfold delete_user. destruct (remove_first _ _); [|done]. intros [= <-]. cbn [auth_dir with_users with_dir with_user_files user_files].
  apply lookup_delete_eq.
Qed.

(** ** Witnesses *)

Definition role_code (r : RoleName) : nat :=
  match r with ServerAdmin => 0 | TenantAdmin => 1 | DbAdmin => 2 | ReadWrite => 3 | ReadOnly => 4 | ClusterPeer => 5 end.
Definition code_role (n : nat) : RoleName :=
  match n with 0 => ServerAdmin | 1 => TenantAdmin | 2 => DbAdmin | 3 => ReadWrite | 4 => ReadOnly | _ => ClusterPeer end%nat.
#[export] Program Instance role_name_countable : Countable RoleName := inj_countable' role_code code_role _.
Next Obligation. by intros []. Qed.

Definition scope_code (s : ResourceScope) : nat * chars * chars :=
  match s with
  | SServer => (0%nat, [], []) | STenant => (1%nat, [], []) | SAllDatabases => (2%nat, [], [])
  | SDatabase n => (3%nat, n, []) | SAllCollections d => (4%nat, d, []) | SCollection d c => (5%nat, d, c)
  end.
Definition code_scope (x : nat * chars * chars) : ResourceScope :=
  let '(k, a, b) := x in
  match k with
  | 0 => SServer | 1 => STenant | 2 => SAllDatabases | 3 => SDatabase a | 4 => SAllCollections a | _ => SCollection a b
  end%nat.
#[export] Program Instance scope_countable : Countable ResourceScope := inj_countable' scope_code code_scope _.
Next Obligation. by intros []. Qed.

#[export] Instance role_assignment_eq : EqDecision RoleAssignment.
Proof. solve_decision. Defined.
#[export] Program Instance role_assignment_countable : Countable RoleAssignment := inj_countable' (λ r, (role r, scope r)) (λ '(r, s), mkRole r s) _.
Next Obligation. by intros []. Qed.
#[export] Instance claims_eq : EqDecision Claims.
Proof. solve_decision. Defined.
#[export] Instance token_claims_eq : EqDecision TokenClaims.
Proof. solve_decision. Defined.
#[export] Program Instance token_claims_countable : Countable TokenClaims :=
  inj_countable' (λ c, (sub (base c), tenant (base c), roles (base c), iat c, exp c, token_type c)) (λ '(a, b, c, d, e, f), mkTokenClaims (mkClaims a b c) d e f) _.
Next Obligation. by intros [[] ? ? ?]. Qed.

Definition code_algorithm (a : JwtAlgorithm) : bool := match a with Hs256 => true | Rs256 => false end.
Definition algorithm_code (b : bool) : JwtAlgorithm := if b then Hs256 else Rs256.

(** A toy signature: the token is the claims and the key in the clear. *)
Definition toy_decode (now : Z) (token : chars) (key : bytes) : outcome JwtFailure TokenClaims :=
  match token with
  | [_; Zpos p] =>
      match decode p with
      | Some (c, k) => if decide (k = key) then if decide (exp c < now) then Err ExpiredSignature else Ok c else Err OtherFailure
      | None => Err OtherFailure
      end
  | _ => Err OtherFailure
  end.

Definition toy_crates : AuthCrates.
Proof.
  refine {| hash_password := λ _ p, z2b <$> p;
            verify_password := λ p h, Some (bool_decide (z2b <$> p = h));
            from_pem := λ priv pub, Some (mkRsKey (b2z <$> priv) priv pub);
            genuine := λ k, private_pem k = public_pem k ∧ kid k = b2z <$> private_pem k ∧ 46 ∉ kid k;
            jwt_encode := λ _ i c key, [Zpos (encode i); Zpos (encode (c, key))];
            jwt_kid := λ t, match t with Zpos p :: _ => decode p | _ => None end;
            jwt_decode := λ _, toy_decode;
            json_user := json_via (λ u, (username u, user_tenant u, password_hash u, user_roles u, created_at u)) (λ '(a, b, c, d, e), mkUser a b c d e) _;
            json_config := json_via (λ c, (code_algorithm (d_algorithm c), d_current_kid c, d_next_kid c, d_access_ttl_secs c, d_refresh_ttl_secs c))
                             (λ '(a, b, c, d, e), mkDiskConfig (algorithm_code a) b c d e) _ |}.
  - intros. by rewrite bool_decide_eq_true_2.
  - intros [k priv pub] (Hp & Hk & _). cbn in *. by subst.
  - by intros k (_ & _ & ?).
  - intros. apply decode_encode.
  - intros. unfold toy_decode. rewrite decode_encode. by rewrite decide_True.
  - intros now i c k [Hp _]. unfold toy_decode. rewrite decode_encode. by rewrite decide_True.
  - by intros [].
  - by intros [[]].
Defined.

Definition toy_key (b : byte) : RsKey := mkRsKey [b2z b] [b] [b].
Definition toy_ring : RsKeyRing := mkRing (toy_key x41) (toy_key x42).

Lemma toy_genuine b : b ≠ x2e → genuine (AuthCrates := toy_crates) (toy_key b).
Proof. intros Hb. split_and!; [done|done|]. cbn. intros Heq%list_elem_of_singleton. apply Hb. apply b2z_inj. by rewrite <- Heq. Qed.

Definition toy_ids (i : chars * chars) : Prop := i ∈ [(SYSTEM_TENANT, CLUSTER_PEER_USERNAME); (SYSTEM_TENANT, txt "admin"); (txt "acme", txt "bob")].

Lemma toy_inj i j : toy_ids i → toy_ids j → path_of i = path_of j → i = j.
Proof.
  unfold toy_ids. rewrite !elem_of_cons, !elem_of_nil.
  intros [->|[->|[->|[]]]] [->|[->|[->|[]]]] Heq; try done; exfalso; revert Heq; by vm_compute.
Qed.

Definition toy_open (K : AuthCrates) : outcome StoreError unit * AuthStore :=
  open (λ _, true) 1000 60 600 (Some (txt "password")) Rs256 (replicate 32 x00) toy_ring [] [] (txt "peer") [] empty_dir.

Lemma auth_restart_witness :
  let K := toy_crates in
  let s0 := (toy_open K).2 in
  let s1 := (create_user (λ _, true) 1001 [] (txt "acme") (txt "bob") (txt "pw") [mkRole ReadOnly STenant] s0).2 in
  let s2 := (rotate_jwt_keys (λ _, true) 1002 (toy_key x43) (λ _, false) [] (txt "x") s1).2 in
  let listing := (map_to_list (user_files (auth_dir s2))).*1 in
  ∃ s', open (λ _, true) 2000 60 600 None Hs256 [] toy_ring [] [] (txt "y") listing (auth_dir s2) = (Ok tt, s') ∧
    users s' ≡ₚ users s2 ∧ jwt_config s' = jwt_config s2.
Proof.
  intros K s0 s1 s2 listing.
  destruct (auth_restart (λ _, true) toy_ids toy_inj ltac:(left) 1000 60 600 (Some (txt "password")) Rs256 (replicate 32 x00) toy_ring [] [] (txt "peer")
    s0 s2 2000 Hs256 [] toy_ring [] [] (txt "y") listing) as (s' & Ho & Hu & Hj & _).
  - reflexivity.
  - by apply toy_genuine.
  - by apply toy_genuine.
  - done.
  - right. left.
  - apply injective_projections; [vm_compute; reflexivity|reflexivity].
  - eapply rtc_l; [|eapply rtc_once].
    + eapply (step_create _ _ 1001 [] (txt "acme") (txt "bob") (txt "pw") [mkRole ReadOnly STenant] s0 _ s1); [right; right; left|apply surjective_pairing].
    + eapply (step_rotate _ _ 1002 (toy_key x43) (λ _, false) [] (txt "x") s1 _ s2); [by apply toy_genuine| |apply surjective_pairing].
      intros ring Hring. assert (ring = toy_ring) as -> by (by vm_compute in Hring; injection Hring as <-). done.
  - vm_compute. reflexivity.
  - apply (bool_decide_eq_true_1 (is_Some _)). vm_compute. reflexivity.
  - reflexivity.
  - reflexivity.
  - exists s'. split_and!; [|done|done]. replace 60 with (access_ttl (jwt_config s2)) by (vm_compute; reflexivity).
    replace 600 with (refresh_ttl (jwt_config s2)) by (vm_compute; reflexivity). exact Ho.
Defined.

