(* ===== verification/Server.v ===== *)
(** * Clients, databases and shared handles (src/server/mod.rs, server/client.rs,
    concurrency/shared.rs)

    Which [Database] instance a request gets.  The disk is its set of directories, as lists
    of path components from the root of the file system, and which of them hold a database;
    an instance is a number, and [instances] says on which directory each was opened.  A
    step of [srv_step] is what a thread does under one lock, or between two: [drop_client]
    and [drop_database] forget the handles and then lock the clients; [database] looks into
    the cache, looks for the directory, opens the database and remembers the handle. *)

From stdpp Require Import gmap.
From S2P Require Import Prelude RustStd Crdt Naming.

Local Open Scope nat_scope.

Abbreviation dir := (list bytes).

Record Client := mkClient { client_path : dir; databases : gmap bytes nat }.

Record World := mkWorld {
  dirs : gset dir;
  db_dirs : gset dir;
  instances : list dir;
  server_path : dir;
  clients : gmap bytes Client;
  cache : gmap bytes nat;
}.

Definition with_clients (m : gmap bytes Client) (w : World) : World := mkWorld (dirs w) (db_dirs w) (instances w) (server_path w) m (cache w).
Definition with_cache (m : gmap bytes nat) (w : World) : World := mkWorld (dirs w) (db_dirs w) (instances w) (server_path w) (clients w) m.
Definition with_dirs (ds dbs : gset dir) (w : World) : World := mkWorld ds dbs (instances w) (server_path w) (clients w) (cache w).

(** ** Paths *)

(** The components between slashes. *)
Fixpoint components (p : bytes) : list bytes :=
  match p with
  | [] => [[]]
  | b :: p =>
      if decide (b = x2f) then [] :: components p
      else match components p with c :: cs => (b :: c) :: cs | [] => [[b]] end
  end.

(** Resolving a path in the file system, from the directory [at_]. *)
Fixpoint walk (ds : gset dir) (at_ : dir) (cs : list bytes) : option dir :=
  match cs with
  | [] => Some at_
  | c :: cs =>
      if decide (c = [] ∨ c = str ".") then walk ds at_ cs
      else if decide (c = str "..") then walk ds (removelast at_) cs
      else if decide (at_ ++ [c] ∈ ds) then walk ds (at_ ++ [c]) cs
      else None
  end.

(** A path: where it starts and the components from there; an absolute argument of [join]
    replaces the path. *)
Abbreviation path := (dir * list bytes)%type.
Definition join (p : path) (q : bytes) : path :=
  if decide (head q = Some x2f) then ([], components q) else (p.1, p.2 ++ components q).
Definition locate (ds : gset dir) (p : path) : option dir := walk ds p.1 p.2.

(** Names of subdirectories. *)
Definition subdirs (ds : gset dir) (p : dir) : list bytes :=
  omap (λ d, match last d with Some n => if decide (d = p ++ [n]) then Some n else None | None => None end) (elements ds).

Definition remove_dir_all (p : dir) (w : World) : World :=
  with_dirs (filter (λ d, ¬ p `prefix_of` d) (dirs w)) (filter (λ d, ¬ p `prefix_of` d) (db_dirs w)) w.

Definition create_dir (p : dir) (w : World) : World := with_dirs ({[p]} ∪ dirs w) (db_dirs w) w.

(** [Database::open(path)] *)
Definition open_database (p : dir) (w : World) : nat * World :=
  (length (instances w),
   mkWorld ({[p]} ∪ dirs w) ({[p]} ∪ db_dirs w) (instances w ++ [p]) (server_path w) (clients w) (cache w)).

(** ** Client *)

Definition client_open (p : dir) (w : World) : Client * World :=
  let w := create_dir p w in
  let '(dbs, w) :=
    foldl (λ '(dbs, w) n,
      if decide (head n = Some x2e) then (dbs, w)
      else if decide (p ++ [n] ∈ db_dirs w) then let '(i, w) := open_database (p ++ [n]) w in (<[n := i]> dbs, w)
      else (dbs, w)) (∅, w) (subdirs (dirs w) p) in
  (mkClient p dbs, w).

Definition create_database_in (name : bytes) (c : Client) : ST World GrumpyError Client := λ w,
  match validate_name name with
  | Ok _ =>
      if decide (is_Some (databases c !! name)) then (Err (DatabaseNotFound (str "database '" ++ name ++ str "' already exists")), w)
      else let '(i, w) := open_database (client_path c ++ [name]) w in (Ok (mkClient (client_path c) (<[name := i]> (databases c))), w)
  | Err e => (Err e, w)
  | Panic => (Panic, w)
  end.

Definition drop_database_in (name : bytes) (c : Client) : ST World GrumpyError Client := λ w,
  match databases c !! name with
  | None => (Err (DatabaseNotFound name), w)
  | Some i =>
      match instances w !! i with
      | Some p => (Ok (mkClient (client_path c) (delete name (databases c))), remove_dir_all p w)
      | None => (Panic, w)
      end
  end.

Definition list_databases_in (c : Client) : list bytes := sort_names (map_to_list (databases c)).*1.

(** ** GrumpyServer *)

Definition create_client (name : bytes) : ST World GrumpyError unit := λ w,
  match validate_name name with
  | Ok _ =>
      if decide (is_Some (clients w !! name)) then (Err (ClientNotFound (str "client '" ++ name ++ str "' already exists")), w)
      else let '(c, w) := client_open (server_path w ++ [name]) w in (Ok tt, with_clients (<[name := c]> (clients w)) w)
  | Err e => (Err e, w)
  | Panic => (Panic, w)
  end.

Definition drop_client_in (name : bytes) : ST World GrumpyError unit := λ w,
  match clients w !! name with
  | None => (Err (ClientNotFound name), w)
  | Some c => (Ok tt, remove_dir_all (client_path c) (with_clients (delete name (clients w)) w))
  end.

(** [client]: the client, opened from its directory if it is not open yet. *)
Definition get_client (name : bytes) : ST World GrumpyError Client := λ w,
  match clients w !! name with
  | Some c => (Ok c, w)
  | None =>
      match locate (dirs w) (join (server_path w, []) name) with
      | Some p => let '(c, w) := client_open p w in (Ok c, with_clients (<[name := c]> (clients w)) w)
      | None => (Err (ClientNotFound name), w)
      end
  end.

(** [GrumpyServer::open] and [SharedServer::open]: the clients found on disk, and no handle yet. *)
Definition server_open (p : dir) (w : World) : World :=
  let w := create_dir p w in
  let '(cs, w) :=
    foldl (λ '(cs, w) n,
      if decide (head n = Some x2e) then (cs, w)
      else let '(c, w) := client_open (p ++ [n]) w in (<[n := c]> cs, w)) (∅, w) (subdirs (dirs w) p) in
  mkWorld (dirs w) (db_dirs w) (instances w) p cs ∅.

Definition list_clients (w : World) : list bytes := sort_names (map_to_list (clients w)).*1.

(** ** SharedServer *)

(** A call on the client, whose new state goes back to the map. *)
Definition on_client (name : bytes) (f : Client → ST World GrumpyError Client) : ST World GrumpyError unit :=
  c ← get_client name;
  c ← f c;
  st_modify (λ w, with_clients (<[name := c]> (clients w)) w).

Definition create_database (client db : bytes) : ST World GrumpyError unit := on_client client (create_database_in db).

(** [format!("{client}/{db_name}")] *)
Definition cache_key (client db : bytes) : bytes := client ++ [x2f] ++ db.

(** [self.databases.write().remove(&key)] *)
Definition forget_database (client db : bytes) (w : World) : World := with_cache (delete (cache_key client db) (cache w)) w.

Definition drop_database (client db : bytes) : ST World GrumpyError unit :=
  _ ← st_modify (forget_database client db);
  on_client client (drop_database_in db).

(** [dbs.retain(|k, _| !k.starts_with(&prefix))] *)
Definition forget_client (name : bytes) (w : World) : World :=
  with_cache (filter (λ e, ¬ (name ++ [x2f]) `prefix_of` e.1) (cache w)) w.

Definition drop_client (name : bytes) : ST World GrumpyError unit :=
  _ ← st_modify (forget_client name);
  drop_client_in name.

Definition list_databases (client : bytes) : ST World GrumpyError (list bytes) :=
  c ← get_client client; mret (list_databases_in c).

(** [database], the first part: a look into the cache. *)
Definition database_cached (client db : bytes) (w : World) : option nat := cache w !! cache_key client db.

(** The second part: open and remember. *)
Definition database_open (client db : bytes) : ST World GrumpyError nat := λ w,
  match locate (dirs w) (join (join (server_path w, []) client) db) with
  | None => (Err (DatabaseNotFound db), w)
  | Some p => let '(i, w) := open_database p w in (Ok i, with_cache (<[cache_key client db := i]> (cache w)) w)
  end.

Definition database (client db : bytes) : ST World GrumpyError nat := λ w,
  match database_cached client db w with
  | Some i => (Ok i, w)
  | None => database_open client db w
  end.

(** [self.databases.write().insert(key, shared_db.clone())] *)
Definition remember (client db : bytes) (i : nat) (w : World) : World := with_cache (<[cache_key client db := i]> (cache w)) w.

(** ** Interleavings *)

(** What a call still has to do, between two of its steps. *)
Inductive task :=
  | TMissed (c d : bytes)
  | TFound (c d : bytes) (p : dir)
  | TOpened (c d : bytes) (i : nat)
  | TDropDatabase (c d : bytes)
  | TDropClient (n : bytes).

(** What is seen of a step: the answer to a request, the handles it forgets. *)
Inductive event :=
  | EAnswer (c d : bytes) (i : nat)
  | EForgetDatabase (c d : bytes)
  | EForgetClient (n : bytes)
  | EOther.

(** One step of some thread, with the calls under way. *)
Inductive srv_step : World * list task → event → World * list task → Prop :=
| ss_create_client n w ts : srv_step (w, ts) EOther ((create_client n w).2, ts)
| ss_create_database c d w ts : srv_step (w, ts) EOther ((create_database c d w).2, ts)
| ss_list_databases c w ts : srv_step (w, ts) EOther ((list_databases c w).2, ts)
| ss_forget_client n w ts : srv_step (w, ts) (EForgetClient n) (forget_client n w, TDropClient n :: ts)
| ss_drop_client n w ts1 ts2 : srv_step (w, ts1 ++ TDropClient n :: ts2) EOther ((drop_client_in n w).2, ts1 ++ ts2)
| ss_forget_database c d w ts : srv_step (w, ts) (EForgetDatabase c d) (forget_database c d w, TDropDatabase c d :: ts)
| ss_drop_database c d w ts1 ts2 :
    srv_step (w, ts1 ++ TDropDatabase c d :: ts2) EOther ((on_client c (drop_database_in d) w).2, ts1 ++ ts2)
| ss_hit c d i w ts : database_cached c d w = Some i → srv_step (w, ts) (EAnswer c d i) (w, ts)
| ss_miss c d w ts : database_cached c d w = None → srv_step (w, ts) EOther (w, TMissed c d :: ts)
| ss_missing c d w ts1 ts2 : locate (dirs w) (join (join (server_path w, []) c) d) = None →
    srv_step (w, ts1 ++ TMissed c d :: ts2) EOther (w, ts1 ++ ts2)
| ss_found c d p w ts1 ts2 : locate (dirs w) (join (join (server_path w, []) c) d) = Some p →
    srv_step (w, ts1 ++ TMissed c d :: ts2) EOther (w, ts1 ++ TFound c d p :: ts2)
| ss_open c d p w ts1 ts2 :
    srv_step (w, ts1 ++ TFound c d p :: ts2) EOther ((open_database p w).2, ts1 ++ TOpened c d (open_database p w).1 :: ts2)
| ss_remember c d i w ts1 ts2 :
    srv_step (w, ts1 ++ TOpened c d i :: ts2) (EAnswer c d i) (remember c d i w, ts1 ++ ts2).

Inductive srv_run : World * list task → list event → World * list task → Prop :=
| sr_nil x : srv_run x [] x
| sr_cons x ev y evs z : srv_step x ev y → srv_run y evs z → srv_run x (ev :: evs) z.

(** A call that no other thread interrupts. *)
Inductive tree_call (w : World) : World → Prop :=
| tc_create_client n : tree_call w (create_client n w).2
| tc_drop_client n : tree_call w (drop_client n w).2
| tc_create_database c d : tree_call w (create_database c d w).2
| tc_drop_database c d : tree_call w (drop_database c d w).2
| tc_list_databases c : tree_call w (list_databases c w).2.

(** ** Handles *)

Definition plain (n : bytes) : Prop := validate_name n = Ok tt.

Lemma plain_spec n : plain n → x2f ∉ n ∧ n ≠ [] ∧ n ≠ str "." ∧ n ≠ str "..".
Proof.
  intros Hp. destruct (validate_name_chars n Hp) as [Hne Hall]. split_and!; [|done|..].
  - intros Hin. rewrite Forall_forall in Hall. destruct (Hall _ Hin) as (_ & Hx & _). by apply Hx.
  - intros ->. apply Forall_cons in Hall as [(Hx & _) _]. by apply Hx.
  - intros ->. apply Forall_cons in Hall as [(Hx & _) _]. by apply Hx.
Qed.

Lemma components_plain n : x2f ∉ n → components n = [n].
Proof.
  induction n as [|b n IH]; [done|]. intros [Hb Hn]%not_elem_of_cons. cbn [components]. rewrite decide_False by done. by rewrite IH.
Qed.

Lemma join_plain q cs n : x2f ∉ n → join (q, cs) n = (q, cs ++ [n]).
Proof.
  intros Hn. unfold join. rewrite decide_False; [by rewrite components_plain|]. destruct n; [done|]. intros [= ->]. apply Hn. left.
Qed.

Lemma walk_plain ds at_ n cs p : plain n → walk ds at_ (n :: cs) = Some p → at_ ++ [n] ∈ ds ∧ walk ds (at_ ++ [n]) cs = Some p.
Proof.
  intros (_ & H2 & H3 & H4)%plain_spec. cbn [walk]. rewrite (decide_False (P := n = [] ∨ n = str ".")) by tauto.
  rewrite (decide_False (P := n = str "..")) by done. by case_decide.
Qed.

Lemma locate_client ds base c p : plain c → locate ds (join (base, []) c) = Some p → p = base ++ [c] ∧ p ∈ ds.
Proof.
  intros Hc. rewrite join_plain by (by apply plain_spec in Hc as [? _]). unfold locate. cbn [fst snd app].
  intros [Hin [= <-]]%walk_plain; [|done]. done.
Qed.

Lemma locate_plain ds base c d p :
  plain c → plain d → locate ds (join (join (base, []) c) d) = Some p → p = base ++ [c; d] ∧ p ∈ ds.
Proof.
  intros Hc Hd. rewrite !join_plain by (apply plain_spec in Hc as [? _], Hd as [? _]; done). unfold locate. cbn [fst snd app].
  intros [_ [Hin [= <-]]%walk_plain]%walk_plain; [|done..]. rewrite <- app_assoc in *. done.
Qed.

Lemma cache_key_inj c d c' d' : plain c → plain d → cache_key c' d' = cache_key c d → c' = c ∧ d' = d.
Proof.
  intros Hc Hd. apply plain_spec in Hc as [Hc _], Hd as [Hd _]. unfold cache_key. revert c Hc. induction c' as [|b c' IH]; intros [|x c] Hc Heq; cbn in Heq.
  - by injection Heq as ->.
  - injection Heq as <- _. exfalso. apply Hc. left.
  - injection Heq as -> <-. exfalso. apply Hd. apply elem_of_app. right. left.
  - injection Heq as -> Heq. apply not_elem_of_cons in Hc as [_ Hc]. destruct (IH c Hc Heq) as [-> ->]. done.
Qed.

(** What calls do to the handles: instances are only added, the cache stays. *)
Definition grows (w w' : World) : Prop := server_path w' = server_path w ∧ instances w `prefix_of` instances w' ∧ cache w' = cache w.

#[export] Instance grows_preorder : PreOrder grows.
Proof.
  split; [by intros w|]. intros w1 w2 w3 (H1 & H2 & H3) (H4 & H5 & H6). split_and!; [congruence|by etrans|congruence].
Qed.

Lemma open_grows p w : grows w (open_database p w).2.
Proof. split_and!; [done| |done]. cbn. by apply prefix_app_r. Qed.

Lemma grows_instance w w' i p : grows w w' → instances w !! i = Some p → instances w' !! i = Some p.
Proof. intros (_ & Hi & _) Hp. by eapply prefix_lookup_Some. Qed.

(** ** The tree of directories *)

(** Every open client is on its directory, and its databases in it. *)
Definition databases_ok (w : World) (c : Client) : Prop :=
  ∀ d i, databases c !! d = Some i → instances w !! i = Some (client_path c ++ [d]).
Definition clients_ok (w : World) : Prop :=
  ∀ n c, clients w !! n = Some c → (plain n → client_path c = server_path w ++ [n]) ∧ databases_ok w c.

(** Nothing is created or removed outside of [p]. *)
Definition kept_outside (p : dir) (w w' : World) : Prop :=
  ∀ q, ¬ p `prefix_of` q → (q ∈ dirs w' ↔ q ∈ dirs w) ∧ (q ∈ db_dirs w' ↔ q ∈ db_dirs w).
(** The clients other than [n] are the same. *)
Definition other_clients (n : bytes) (w w' : World) : Prop := ∀ m, m ≠ n → clients w' !! m = clients w !! m.
Definition same_tree (w w' : World) : Prop := dirs w' = dirs w ∧ db_dirs w' = db_dirs w.

Lemma same_tree_kept p w w' : same_tree w w' → kept_outside p w w'.
Proof. intros [E1 E2] q _. by rewrite E1, E2. Qed.

Lemma kept_trans p w1 w2 w3 : kept_outside p w1 w2 → kept_outside p w2 w3 → kept_outside p w1 w3.
Proof. intros H1 H2 q Hq. destruct (H1 q Hq) as [E1 E2], (H2 q Hq) as [E3 E4]. by rewrite E3, E4. Qed.

Lemma databases_grow w w' c : grows w w' → databases_ok w c → databases_ok w' c.
Proof. intros Hg Hc d i Hi. eapply grows_instance; [exact Hg|]. by apply Hc. Qed.

Lemma clients_ok_insert n c w w' :
  clients_ok w → grows w w' → clients w' = <[n := c]> (clients w) → (plain n → client_path c = server_path w ++ [n]) → databases_ok w' c →
  clients_ok w' ∧ other_clients n w w'.
Proof.
  intros Hok Hg Hcl Hp Hd. split; [|intros m Hm; rewrite Hcl; by apply lookup_insert_ne]. intros m c'. rewrite Hcl.
  pose proof Hg as (Hsp & _ & _). rewrite Hsp. intros [[<- <-]|[Hne Hm]]%lookup_insert_Some; [done|].
  destruct (Hok m c' Hm) as [H1 H2]. split; [done|by eapply databases_grow].
Qed.

Lemma elem_of_subdirs ds p n : n ∈ subdirs ds p → p ++ [n] ∈ ds.
Proof.
  unfold subdirs. rewrite list_elem_of_omap. intros (d & Hd & Hn). apply elem_of_elements in Hd.
  destruct (last d); [|done]. case_decide as E; [|done]. injection Hn as <-. by rewrite <- E.
Qed.

(** Opening a client opens the databases found in its directory; nothing but the
    directory itself may be new. *)
Lemma client_open_spec p w c w' :
  client_open p w = (c, w') →
  client_path c = p ∧ databases_ok w' c ∧ dirs w' = {[p]} ∪ dirs w ∧ db_dirs w' = db_dirs w ∧ clients w' = clients w ∧ grows w w'.
Proof.
  unfold client_open. set (w1 := create_dir p w). set (f := λ '(dbs, w) n, _ : gmap bytes nat * World).
  assert (Hf : ∀ ns dbs w1 dbs' w2, (∀ n, n ∈ ns → p ++ [n] ∈ dirs w1) → databases_ok w1 (mkClient p dbs) → foldl f (dbs, w1) ns = (dbs', w2) →
    databases_ok w2 (mkClient p dbs') ∧ same_tree w1 w2 ∧ clients w2 = clients w1 ∧ grows w1 w2).
  { clear w1 w c w'. induction ns as [|n ns IH]; intros dbs w1 dbs' w2 Hns Hdb; cbn [foldl]; [by intros [= <- <-]|].
    assert (Hn : p ++ [n] ∈ dirs w1) by (apply Hns; by left). assert (Hns' : ∀ m, m ∈ ns → p ++ [m] ∈ dirs w1) by (intros m Hm; apply Hns; by right).
    unfold f at 2. destruct (decide (head n = Some x2e)); [by apply IH|]. destruct (decide (p ++ [n] ∈ db_dirs w1)) as [Hin|]; [|by apply IH].
    cbn [open_database]. set (w1' := mkWorld _ _ _ _ _ _). intros Hfold.
    assert (Hsame : same_tree w1 w1') by (split; apply subseteq_union_1_L; set_solver).
    assert (Hdb' : databases_ok w1' (mkClient p (<[n := length (instances w1)]> dbs))).
    { intros d i. cbn [databases client_path]. intros [[<- <-]|[_ Hi]]%lookup_insert_Some; [cbn; by rewrite lookup_app_r, Nat.sub_diag by lia|].
      eapply grows_instance; [apply (open_grows (p ++ [n]))|]. by apply Hdb. }
    destruct (IH _ w1' _ _ ltac:(intros m Hm; rewrite (proj1 Hsame); by apply Hns') Hdb' Hfold) as (H1 & [H2 H3] & H4 & H5).
    split_and!; [done|destruct Hsame; split; congruence|done|]. etrans; [apply (open_grows (p ++ [n]))|done]. }
  destruct (foldl f (∅, w1) (subdirs (dirs w1) p)) as [dbs w2] eqn:Hfold. intros [= <- <-].
  destruct (Hf _ _ _ _ _ (elem_of_subdirs (dirs w1) p) ltac:(intros d i Hi; cbn in Hi; by rewrite lookup_empty in Hi) Hfold) as (H1 & [H2 H3] & H4 & H5).
  by split_and!.
Qed.

Lemma get_client_grows n w : grows w (get_client n w).2.
Proof.
  unfold get_client. destruct (clients w !! n); [done|]. destruct (locate _ _) as [p|]; [|done].
  destruct (client_open p w) as [c w'] eqn:Ho. apply client_open_spec in Ho as (_ & _ & _ & _ & _ & Hg). done.
Qed.

Lemma get_client_spec n w r w' :
  plain n → clients_ok w → get_client n w = (r, w') →
  same_tree w w' ∧ clients_ok w' ∧ other_clients n w w' ∧ grows w w' ∧
  ∀ c, r = Ok c → client_path c = server_path w ++ [n] ∧ databases_ok w' c.
Proof.
  intros Hn Hok. unfold get_client. destruct (clients w !! n) as [c|] eqn:Hc.
  { intros [= <- <-]. split_and!; try done. intros c' [= <-]. destruct (Hok n c Hc). auto. }
  destruct (locate _ _) as [p|] eqn:Hl; [|intros [= <- <-]; by split_and!].
  apply locate_client in Hl as [-> Hin]; [|done]. destruct (client_open _ w) as [c w1] eqn:Ho. intros [= <- <-].
  apply client_open_spec in Ho as (Hp & Hd & H1 & H2 & H3 & Hg).
  destruct (clients_ok_insert n c w (with_clients (<[n := c]> (clients w1)) w1)) as [Hok' Hoth]; [done|done|cbn; by rewrite H3|done|done|].
  split_and!; try done; [|by intros c' [= <-]]. split; [|done]. cbn. rewrite H1. apply subseteq_union_1_L. set_solver.
Qed.

(** A call [f] on a client that stays inside [p]. *)
Lemma on_client_grows n f w : (∀ c w, grows w (f c w).2) → grows w (on_client n f w).2.
Proof.
  intros Hf. unfold on_client, mbind, st_bind. pose proof (get_client_grows n w) as Hg. destruct (get_client n w) as [[c|e|] w1]; [|done..].
  specialize (Hf c w1). destruct (f c w1) as [[c'|e|] w2]; cbn; by etrans.
Qed.

Lemma on_client_tree n f p w :
  plain n → clients_ok w →
  (∀ c w1 r w2, client_path c = server_path w ++ [n] → databases_ok w1 c → f c w1 = (r, w2) →
     kept_outside p w1 w2 ∧ clients w2 = clients w1 ∧ grows w1 w2 ∧
     ∀ c', r = Ok c' → client_path c' = client_path c ∧ databases_ok w2 c') →
  let w' := (on_client n f w).2 in kept_outside p w w' ∧ clients_ok w' ∧ other_clients n w w'.
Proof.
  intros Hn Hok Hf. unfold on_client, mbind, st_bind. destruct (get_client n w) as [r w1] eqn:Hget.
  destruct (get_client_spec n w r w1 Hn Hok Hget) as (Ht & Hok1 & Hoth & Hg & Hc). pose proof (same_tree_kept p _ _ Ht) as Hk.
  destruct r as [c|e|]; [|done..]. destruct (Hc c eq_refl) as [Hp Hd].
  destruct (f c w1) as [r2 w2] eqn:Hrun. destruct (Hf c w1 r2 w2 Hp Hd Hrun) as (Hk2 & Hcl & Hg2 & Hc2).
  assert (Hok2 : clients_ok w2).
  { intros m cm. rewrite Hcl. pose proof Hg2 as (Hsp & _). rewrite Hsp. intros Hm. destruct (Hok1 m cm Hm). split; [done|by eapply databases_grow]. }
  pose proof (kept_trans _ _ _ _ Hk Hk2) as Hk12.
  assert (Hoth2 : other_clients n w w2) by (intros m Hm; rewrite Hcl; by apply Hoth).
  destruct r2 as [c'|e|]; cbn; [|done..]. destruct (Hc2 c' eq_refl) as [Hp' Hd'].
  destruct (clients_ok_insert n c' w2 (with_clients (<[n := c']> (clients w2)) w2)) as [Hok3 Hoth3]; [done|done|done| |done|].
  { intros _. rewrite Hp', Hp. pose proof Hg as (E1 & _). pose proof Hg2 as (E2 & _). congruence. }
  split_and!; [done|done|]. intros m Hm. rewrite (Hoth3 m Hm). by apply Hoth2.
Qed.

Lemma kept_open p w : kept_outside p w (open_database p w).2.
Proof. intros q Hq. cbn. assert (q ≠ p) by (intros ->; by apply Hq). set_solver. Qed.

Lemma kept_remove p w : kept_outside p w (remove_dir_all p w).
Proof. intros q Hq. cbn. rewrite !elem_of_filter. tauto. Qed.

Lemma create_database_in_grows d c w : grows w (create_database_in d c w).2.
Proof.
  unfold create_database_in. destruct (validate_name d); [|done..]. case_decide; [done|]. apply (open_grows (client_path c ++ [d]) w).
Qed.

Lemma drop_database_in_grows d c w : grows w (drop_database_in d c w).2.
Proof. unfold drop_database_in. destruct (databases c !! d) as [i|]; [|done]. by destruct (instances w !! i). Qed.

Lemma create_database_tree t d w :
  plain t → clients_ok w →
  let w' := (create_database t d w).2 in kept_outside (server_path w ++ [t; d]) w w' ∧ clients_ok w' ∧ other_clients t w w'.
Proof.
  intros Ht Hok. apply on_client_tree; [done|done|]. intros c w1 r w2 Hp Hd Hrun. pose proof (create_database_in_grows d c w1) as Hg. rewrite Hrun in Hg.
  unfold create_database_in in Hrun. destruct (validate_name d); [|by injection Hrun as <- <-..]. case_decide; [by injection Hrun as <- <-|].
  injection Hrun as <- <-. split_and!; [|done|done|].
  - rewrite Hp, <- app_assoc. apply (kept_open (server_path w ++ [t; d]) w1).
  - intros c' [= <-]. split; [done|]. intros d' i. cbn [databases client_path]. intros [[<- <-]|[_ Hi]]%lookup_insert_Some.
    + cbn. by rewrite lookup_app_r, Nat.sub_diag by lia.
    + eapply grows_instance; [apply (open_grows (client_path c ++ [d]))|]. by apply Hd.
Qed.

Lemma drop_database_tree t d w :
  plain t → clients_ok w →
  let w' := (drop_database t d w).2 in kept_outside (server_path w ++ [t; d]) w w' ∧ clients_ok w' ∧ other_clients t w w'.
Proof.
  intros Ht Hok. unfold drop_database, mbind, st_bind, st_modify.
  apply (on_client_tree t _ (server_path w ++ [t; d]) (forget_database t d w)); [done|done|]. intros c w1 r w2 Hp Hd Hrun.
  pose proof (drop_database_in_grows d c w1) as Hg. rewrite Hrun in Hg.
  unfold drop_database_in in Hrun. destruct (databases c !! d) as [i|] eqn:Hi; [|by injection Hrun as <- <-].
  rewrite (Hd d i Hi) in Hrun. injection Hrun as <- <-. split_and!; [|done|done|].
  - rewrite Hp, <- app_assoc. apply kept_remove.
  - intros c' [= <-]. split; [done|]. intros d' j. cbn [databases client_path]. intros [_ Hj]%lookup_delete_Some. by apply Hd.
Qed.

Lemma create_client_tree n w :
  clients_ok w → let w' := (create_client n w).2 in kept_outside (server_path w ++ [n]) w w' ∧ clients_ok w' ∧ other_clients n w w' ∧ grows w w'.
Proof.
  intros Hok. unfold create_client. destruct (validate_name n); [|done..]. case_decide; [done|].
  destruct (client_open _ w) as [c w1] eqn:Ho. apply client_open_spec in Ho as (Hp & Hd & H1 & H2 & H3 & Hg). cbn.
  destruct (clients_ok_insert n c w (with_clients (<[n := c]> (clients w1)) w1)) as [Hok' Hoth]; [done|done|cbn; by rewrite H3|done|done|].
  split_and!; [|done|done|done]. intros q Hq. cbn. rewrite H1, H2. assert (q ≠ server_path w ++ [n]) by (intros ->; by apply Hq). set_solver.
Qed.

Lemma drop_client_tree n w :
  plain n → clients_ok w → let w' := (drop_client n w).2 in kept_outside (server_path w ++ [n]) w w' ∧ clients_ok w' ∧ other_clients n w w'.
Proof.
  intros Hn Hok. unfold drop_client, mbind, st_bind, st_modify, drop_client_in. cbn [clients forget_client with_cache].
  destruct (clients w !! n) as [c|] eqn:Hc; [|done]. destruct (Hok n c Hc) as [Hp _]. cbn. rewrite (Hp Hn). split_and!.
  - apply (kept_remove (server_path w ++ [n]) (with_clients (delete n (clients w)) (forget_client n w))).
  - intros m cm. cbn. intros [_ Hm]%lookup_delete_Some. exact (Hok m cm Hm).
  - intros m Hm. cbn. by apply lookup_delete_ne.
Qed.

Lemma list_databases_tree t w :
  plain t → clients_ok w → let w' := (list_databases t w).2 in same_tree w w' ∧ clients_ok w' ∧ other_clients t w w'.
Proof.
  intros Ht Hok. unfold list_databases, mbind, st_bind. destruct (get_client t w) as [r w1] eqn:Hget.
  destruct (get_client_spec t w r w1 Ht Hok Hget) as (H1 & H2 & H3 & _). by destruct r.
Qed.

Lemma database_tree t d w :
  plain t → plain d → clients_ok w →
  let w' := (database t d w).2 in kept_outside (server_path w ++ [t; d]) w w' ∧ clients_ok w' ∧ clients w' = clients w ∧ server_path w' = server_path w.
Proof.
  intros Ht Hd Hok. unfold database. destruct (database_cached t d w); [done|]. unfold database_open.
  destruct (locate _ _) as [p|] eqn:Hl; [|done]. apply locate_plain in Hl as [-> _]; [|done..]. cbn. split_and!; [|intros n c Hc|done|done].
  - apply (kept_open (server_path w ++ [t; d]) w).
  - destruct (Hok n c Hc) as [H1 H2]. split; [done|]. by apply (databases_grow w _ c (open_grows (server_path w ++ [t; d]) w)).
Qed.

(** ** What the handles point to *)

Definition cache_ok (w : World) : Prop :=
  ∀ c d i, plain c → plain d → cache w !! cache_key c d = Some i → instances w !! i = Some (server_path w ++ [c; d]).

(** Handles may be forgotten. *)
Lemma shrink_cache_ok w w' :
  server_path w' = server_path w → instances w `prefix_of` instances w' → cache w' ⊆ cache w → cache_ok w → cache_ok w'.
Proof.
  intros Hp Hi Hc Hok c d i Hpc Hpd Hl. rewrite Hp. eapply prefix_lookup_Some; [|exact Hi]. apply Hok; [done..|]. by eapply lookup_weaken.
Qed.

Lemma grows_cache_ok w w' : grows w w' → cache_ok w → cache_ok w'.
Proof. intros (Hp & Hi & Hc). apply shrink_cache_ok; [done|done|by rewrite Hc]. Qed.

Lemma forget_client_cache_ok n w : cache_ok w → cache_ok (forget_client n w).
Proof. apply shrink_cache_ok; [done|done|]. cbn. apply map_filter_subseteq. Qed.
Lemma forget_database_cache_ok c d w : cache_ok w → cache_ok (forget_database c d w).
Proof. apply shrink_cache_ok; [done|done|]. cbn. apply delete_subseteq. Qed.

Lemma create_client_grows n w : grows w (create_client n w).2.
Proof.
  unfold create_client. destruct (validate_name n); [|done..]. case_decide; [done|].
  destruct (client_open _ w) as [c w1] eqn:Ho. by apply client_open_spec in Ho as (_ & _ & _ & _ & _ & Hg).
Qed.
Lemma list_databases_grows c w : grows w (list_databases c w).2.
Proof. unfold list_databases, mbind, st_bind. pose proof (get_client_grows c w) as Hg. by destruct (get_client c w) as [[]]. Qed.
Lemma drop_client_in_grows n w : grows w (drop_client_in n w).2.
Proof. unfold drop_client_in. by destruct (clients w !! n). Qed.

Lemma tree_call_cache_ok w w' : tree_call w w' → cache_ok w → cache_ok w'.
Proof.
  intros [n|n|c d|c d|c] Hok.
  - by eapply grows_cache_ok; [apply create_client_grows|].
  - unfold drop_client, mbind, st_bind, st_modify. eapply grows_cache_ok; [apply drop_client_in_grows|]. by apply forget_client_cache_ok.
  - by eapply grows_cache_ok; [apply on_client_grows, create_database_in_grows|].
  - unfold drop_database, mbind, st_bind, st_modify. eapply grows_cache_ok; [apply on_client_grows, drop_database_in_grows|].
    by apply forget_database_cache_ok.
  - by eapply grows_cache_ok; [apply list_databases_grows|].
Qed.

(** A restart forgets every handle. *)
Lemma server_open_cache_ok p w : cache_ok (server_open p w).
Proof. unfold server_open. destruct (foldl _ _ _) as [cs w1]. intros c d i _ _ Hl. cbn in Hl. by rewrite lookup_empty in Hl. Qed.

Lemma remember_cache_ok c d i w :
  (plain c → plain d → instances w !! i = Some (server_path w ++ [c; d])) → cache_ok w → cache_ok (remember c d i w).
Proof.
  intros Hi Hok c' d' j Hc Hd. cbn. intros [[Hk <-]|[_ Hj]]%lookup_insert_Some; [|by apply Hok].
  apply cache_key_inj in Hk as [-> ->]; auto.
Qed.

Lemma database_open_spec c d w r w' :
  database_open c d w = (r, w') → cache_ok w → cache_ok w' ∧
  ∀ i, r = Ok i → cache w' !! cache_key c d = Some i ∧ server_path w' = server_path w.
Proof.
  unfold database_open. destruct (locate _ _) as [p|] eqn:Hl; [|by intros [= <- <-]]. intros [= <- <-] Hok.
  split; [|intros i [= <-]; split; [apply lookup_insert_eq|done]].
  apply (remember_cache_ok c d _ (open_database p w).2); [|by eapply grows_cache_ok; [apply open_grows|]].
  intros Hc Hd. apply locate_plain in Hl as [-> _]; [|done..]. cbn. by rewrite lookup_app_r, Nat.sub_diag by lia.
Qed.

(** ** Runs *)

(** What the calls under way know. *)
Definition task_ok (w : World) (t : task) : Prop :=
  match t with
  | TFound c d p => plain c → plain d → p = server_path w ++ [c; d]
  | TOpened c d i => plain c → plain d → instances w !! i = Some (server_path w ++ [c; d])
  | _ => True
  end.
Definition srv_ok (x : World * list task) : Prop := cache_ok x.1 ∧ Forall (task_ok x.1) x.2.

(** Every step keeps what is known of the instances. *)
Definition extends (w w' : World) : Prop := server_path w' = server_path w ∧ instances w `prefix_of` instances w'.

#[export] Instance extends_preorder : PreOrder extends.
Proof. split; [by intros w|]. intros w1 w2 w3 [H1 H2] [H3 H4]. split; [congruence|by etrans]. Qed.

Lemma grows_extends w w' : grows w w' → extends w w'.
Proof. intros (H1 & H2 & _). by split. Qed.

Lemma extends_instance w w' i p : extends w w' → instances w !! i = Some p → instances w' !! i = Some p.
Proof. intros [_ Hi] Hp. by eapply prefix_lookup_Some. Qed.

Lemma extends_tasks w w' ts : extends w w' → Forall (task_ok w) ts → Forall (task_ok w') ts.
Proof.
  intros He. pose proof He as [Hp _]. intros Hts. eapply Forall_impl; [exact Hts|]. intros [c d|c d p|c d i|c d|n]; cbn; rewrite ?Hp; try done.
  intros Ht Hc Hd. eapply extends_instance; [exact He|]. auto.
Qed.

Lemma step_extends x ev y : srv_step x ev y → extends x.1 y.1.
Proof.
  destruct 1; cbn [fst]; try done; apply grows_extends.
  - apply create_client_grows.
  - apply on_client_grows, create_database_in_grows.
  - apply list_databases_grows.
  - apply drop_client_in_grows.
  - apply on_client_grows, drop_database_in_grows.
  - apply open_grows.
Qed.

Lemma srv_step_ok x ev y :
  srv_step x ev y → srv_ok x →
  srv_ok y ∧ ∀ c d i, ev = EAnswer c d i → plain c → plain d → instances y.1 !! i = Some (server_path y.1 ++ [c; d]).
Proof.
  intros Hs [Hok Hts]. pose proof (step_extends _ _ _ Hs) as He.
  assert (Hmid : ∀ w ts1 t ts2, Forall (task_ok w) (ts1 ++ t :: ts2) → Forall (task_ok w) (ts1 ++ ts2) ∧ task_ok w t).
  { clear. intros w ts1 t ts2 [H1 [H2 H3]%Forall_cons]%Forall_app. split; [by apply Forall_app|done]. }
  destruct Hs as [n w ts|c d w ts|c w ts|n w ts|n w ts1 ts2|c d w ts|c d w ts1 ts2|c d i w ts Hc|c d w ts Hc|c d w ts1 ts2 Hl|c d p w ts1 ts2 Hl|c d p w ts1 ts2|c d i w ts1 ts2];
    cbn [fst snd] in *; (split; [|try (intros ? ? ? [=])]).
  - split; [eapply grows_cache_ok; [apply create_client_grows|done]|by eapply extends_tasks].
  - split; [eapply grows_cache_ok; [apply on_client_grows, create_database_in_grows|done]|by eapply extends_tasks].
  - split; [eapply grows_cache_ok; [apply list_databases_grows|done]|by eapply extends_tasks].
  - split; [by apply forget_client_cache_ok|]. constructor; [done|by eapply extends_tasks].
  - split; [eapply grows_cache_ok; [apply drop_client_in_grows|done]|]. eapply extends_tasks; [exact He|]. by apply Hmid in Hts as [? _].
  - split; [by apply forget_database_cache_ok|]. constructor; [done|by eapply extends_tasks].
  - split; [eapply grows_cache_ok; [apply on_client_grows, drop_database_in_grows|done]|]. eapply extends_tasks; [exact He|]. by apply Hmid in Hts as [? _].
  - done.
  - subst. intros Hpc Hpd. by apply Hok.
  - split; [done|by constructor].
  - split; [done|]. by apply Hmid in Hts as [? _].
  - split; [done|]. apply Forall_app in Hts as [H1 [_ H2]%Forall_cons]. apply Forall_app. split; [done|]. constructor; [|done].
    intros Hpc Hpd. by apply locate_plain in Hl as [? _].
  - split; [eapply grows_cache_ok; [apply open_grows|done]|]. apply Forall_app in Hts as [H1 [H2 H3]%Forall_cons].
    apply Forall_app. split; [by eapply extends_tasks|]. constructor; [|by eapply extends_tasks]. intros Hpc Hpd. cbn in H2. rewrite (H2 Hpc Hpd).
    cbn. by rewrite lookup_app_r, Nat.sub_diag by lia.
  - apply Hmid in Hts as [Hts Ht]. split; [by apply remember_cache_ok|]. exact Hts.
  - subst. intros Hpc Hpd. apply Hmid in Hts as [_ Ht]. by apply Ht.
Qed.

Lemma srv_run_ok x evs y :
  srv_run x evs y → srv_ok x →
  srv_ok y ∧ extends x.1 y.1 ∧
  ∀ c d i, EAnswer c d i ∈ evs → plain c → plain d → instances y.1 !! i = Some (server_path y.1 ++ [c; d]).
Proof.
  induction 1 as [x|x ev y evs z Hs Hr IH]; intros Hok; [split_and!; [done|done|intros ? ? ? Hin; by apply not_elem_of_nil in Hin]|].
  destruct (srv_step_ok _ _ _ Hs Hok) as [Hok1 Ha]. destruct (IH Hok1) as (Hok2 & He & Hans). pose proof (step_extends _ _ _ Hs) as He1.
  split_and!; [done|by etrans|]. intros c d i [<-|Hin]%elem_of_cons Hc Hd; [|by apply Hans].
  pose proof He as [Hp _]. rewrite Hp. eapply extends_instance; [exact He|]. by apply Ha.
Qed.

(** No request for the database is between its look into the cache and its end. *)
Definition no_pending (c d : bytes) (ts : list task) : Prop :=
  ∀ t, t ∈ ts → match t with TMissed c' d' | TFound c' d' _ | TOpened c' d' _ => (c', d') ≠ (c, d) | _ => True end.
Definition handle_at (c d : bytes) (i : nat) (x : World * list task) : Prop :=
  cache x.1 !! cache_key c d = Some i ∧ no_pending c d x.2.

Lemma forget_client_keeps n c d w : plain c → plain d → n ≠ c → cache (forget_client n w) !! cache_key c d = cache w !! cache_key c d.
Proof.
  intros Hc Hd Hne. cbn. rewrite map_lookup_filter. destruct (cache w !! cache_key c d) as [i|]; [|done]. cbn [mbind option_bind].
  rewrite option_guard_True; [done|]. cbn. intros [k Hk]. apply Hne.
  apply (cache_key_inj c d n k Hc Hd). unfold cache_key in *. by rewrite Hk, <- app_assoc.
Qed.

Lemma handle_step c d i x ev y :
  plain c → plain d → srv_step x ev y → ev ≠ EForgetDatabase c d → ev ≠ EForgetClient c → handle_at c d i x →
  handle_at c d i y ∧ ∀ j, ev = EAnswer c d j → j = i.
Proof.
  intros Hc Hd Hs Hf1 Hf2 [Hca Hno].
  assert (Hg : ∀ w w', grows w w' → cache w' !! cache_key c d = cache w !! cache_key c d) by (intros w w' (_ & _ & E); by rewrite E).
  assert (Hmid : ∀ ts1 t ts2, no_pending c d (ts1 ++ t :: ts2) → no_pending c d (ts1 ++ ts2)).
  { intros ts1 t ts2 Hn t' Hin. apply Hn. set_solver. }
  assert (Hcons : ∀ t ts, match t with TMissed c' d' | TFound c' d' _ | TOpened c' d' _ => (c', d') ≠ (c, d) | _ => True end →
    no_pending c d ts → no_pending c d (t :: ts)) by (intros t ts Ht Hn t' [->|Hin]%elem_of_cons; [exact Ht|exact (Hn t' Hin)]).
  destruct Hs as [n w ts|c' d' w ts|c' w ts|n w ts|n w ts1 ts2|c' d' w ts|c' d' w ts1 ts2|c' d' j w ts Hj|c' d' w ts Hj|c' d' w ts1 ts2 Hl|c' d' p w ts1 ts2 Hl|c' d' p w ts1 ts2|c' d' j w ts1 ts2];
    cbn [fst snd] in *; (split; [split; cbn [fst snd]|try (intros ? [=])]); eauto.
  - rewrite (Hg _ _ (create_client_grows _ _)). done.
  - unfold create_database. rewrite (Hg _ _ (on_client_grows _ _ _ (create_database_in_grows _))). done.
  - rewrite (Hg _ _ (list_databases_grows _ _)). done.
  - rewrite forget_client_keeps; [done..|]. intros ->. done.
  - rewrite (Hg _ _ (drop_client_in_grows _ _)). done.
  - cbn. rewrite lookup_delete_ne; [done|]. intros Hk. apply cache_key_inj in Hk as [-> ->]; done.
  - rewrite (Hg _ _ (on_client_grows _ _ _ (drop_database_in_grows _))). done.
  - subst. unfold database_cached in Hj. congruence.
  - apply Hcons; [|done]. cbn. intros [= -> ->]. unfold database_cached in Hj. congruence.
  - intros t [Hin|[->|Hin]%elem_of_cons]%elem_of_app; [apply Hno; set_solver| |apply Hno; set_solver]. apply (Hno (TMissed c' d')). set_solver.
  - intros t [Hin|[->|Hin]%elem_of_cons]%elem_of_app; [apply Hno; set_solver| |apply Hno; set_solver]. apply (Hno (TFound c' d' p)). set_solver.
  - cbn. rewrite lookup_insert_ne; [done|]. intros Hk. apply cache_key_inj in Hk as [-> ->]; [|done..].
    by apply (Hno (TOpened c d j) ltac:(set_solver)).
  - exfalso. subst. eapply (Hno (TOpened _ _ _)); [apply elem_of_app; right; by left|done].
Qed.

Lemma handle_run c d i x evs y :
  plain c → plain d → srv_run x evs y → EForgetDatabase c d ∉ evs → EForgetClient c ∉ evs → handle_at c d i x →
  ∀ j, EAnswer c d j ∈ evs → j = i.
Proof.
  intros Hc Hd. induction 1 as [x|x ev y evs z Hs _ IH]; intros Hf1 Hf2 Hh j Hin; [by apply not_elem_of_nil in Hin|].
  apply not_elem_of_cons in Hf1 as [Hf1 Hf1'], Hf2 as [Hf2 Hf2'].
  destruct (handle_step c d i x ev y Hc Hd Hs (not_eq_sym Hf1) (not_eq_sym Hf2) Hh) as [Hh' Ha].
  apply elem_of_cons in Hin as [<-|Hin]; [by apply Ha|by apply IH].
Qed.

(** A request that nobody interrupts is a run of its steps. *)
Lemma database_run c d w i w' ts : database c d w = (Ok i, w') → ∃ evs, srv_run (w, ts) (evs ++ [EAnswer c d i]) (w', ts) ∧ evs ⊆ [EOther].
Proof.
  unfold database. destruct (database_cached c d w) as [j|] eqn:Hc.
  - intros [= -> <-]. exists []. split; [|set_solver]. eapply sr_cons; [by apply ss_hit|apply sr_nil].
  - unfold database_open. destruct (locate _ _) as [p|] eqn:Hl; [|done]. intros [= <- <-]. exists [EOther; EOther; EOther]. split; [|set_solver].
    eapply sr_cons; [by apply ss_miss|]. eapply sr_cons; [by apply (ss_found c d p w [] ts)|]. eapply sr_cons; [by apply (ss_open c d p w [] ts)|].
    eapply sr_cons; [by apply (ss_remember c d _ _ [] ts)|]. apply sr_nil.
Qed.

(** C28: Handles go to the right database.  After a start of the server, however the
    locked parts of the calls of different threads interleave, every request for a database
    of a client, both with valid names, is answered with an instance that was opened on
    that client's directory of that name, so two requests for different databases never
    share an instance, whenever they are answered.  Once a handle is in the cache and no
    request for it is between its look into the cache and its end, every later request
    gets that instance until the database or its client is dropped (two requests that
    both missed the cache get two instances: [racing_handles]). *)
Theorem handles_isolated w0 root evs x :
  srv_run (server_open root w0, []) evs x →
  (∀ c d i, EAnswer c d i ∈ evs → plain c → plain d → instances x.1 !! i = Some (server_path x.1 ++ [c; d])) ∧
  (∀ c d i c' d' i', EAnswer c d i ∈ evs → EAnswer c' d' i' ∈ evs → plain c → plain d → plain c' → plain d' →
     (c', d') ≠ (c, d) → i' ≠ i) ∧
  (∀ c d i evs' y, plain c → plain d → cache x.1 !! cache_key c d = Some i → no_pending c d x.2 →
     srv_run x evs' y → EForgetDatabase c d ∉ evs' → EForgetClient c ∉ evs' → ∀ j, EAnswer c d j ∈ evs' → j = i).
Proof.
  intros Hrun. destruct (srv_run_ok _ _ _ Hrun) as (Hok & _ & Hans); [split; [apply server_open_cache_ok|constructor]|]. split_and!; [done| |].
  - intros c d i c' d' i' Hin Hin' Hc Hd Hc' Hd' Hne ->. pose proof (Hans _ _ _ Hin Hc Hd) as E. rewrite (Hans _ _ _ Hin' Hc' Hd') in E.
    injection E as E. apply app_inv_head in E. by injection E as -> ->.
  - intros c d i evs' y Hc Hd Hca Hno Hrun' Hf1 Hf2. by eapply handle_run.
Qed.

(** Names are not validated here: with [..] a client reaches the databases of another. *)
Lemma parent_escapes w c c' d :
  plain c → plain c' → plain d →
  server_path w ++ [c] ∈ dirs w → server_path w ++ [c'] ∈ dirs w → server_path w ++ [c'; d] ∈ dirs w →
  let name := str ".." ++ [x2f] ++ c' ++ [x2f] ++ d in
  cache w !! cache_key c name = None →
  ∃ i w', database c name w = (Ok i, w') ∧ instances w' !! i = Some (server_path w ++ [c'; d]).
Proof.
  intros Hc Hc' Hd H1 H2 H3 name Hcache. apply plain_spec in Hc as (Hc1 & Hc2 & Hc3 & Hc4), Hd as (Hd1 & Hd2 & Hd3 & Hd4), Hc' as (Hc1' & Hc2' & Hc3' & Hc4').
  assert (Hcomp : ∀ n rest, x2f ∉ n → components (n ++ [x2f] ++ rest) = n :: components rest).
  { induction n as [|b n IH]; intros rest Hn; [done|]. apply not_elem_of_cons in Hn as [Hb Hn]. cbn [components app]. rewrite decide_False by done. cbn [app] in IH. by rewrite IH. }
  assert (Hl : locate (dirs w) (join (join (server_path w, []) c) name) = Some (server_path w ++ [c'; d])).
  { unfold join at 2. rewrite decide_False by (destruct c; [done|]; intros [= ->]; apply Hc1; left). rewrite components_plain by done.
    unfold join. rewrite decide_False by done. unfold name. rewrite Hcomp by (apply (bool_decide_eq_true_1 (x2f ∉ str "..")); reflexivity). rewrite Hcomp by done. rewrite components_plain by done.
    unfold locate. cbn [fst snd app walk]. rewrite (decide_False (P := c = [] ∨ c = str ".")) by tauto. rewrite (decide_False (P := c = str "..")) by done.
    rewrite decide_True by done. rewrite (decide_False (P := str ".." = [] ∨ _)) by (intros [|]; done). rewrite (decide_True (P := str ".." = str "..")) by done.
    rewrite removelast_last. rewrite (decide_False (P := c' = [] ∨ c' = str ".")) by tauto. rewrite (decide_False (P := c' = str "..")) by done.
    rewrite decide_True by done. rewrite (decide_False (P := d = [] ∨ d = str ".")) by tauto. rewrite (decide_False (P := d = str "..")) by done.
    rewrite decide_True by (by rewrite <- app_assoc). by rewrite <- app_assoc. }
  unfold database, database_cached. rewrite Hcache. unfold database_open. rewrite Hl. do 2 eexists. split; [reflexivity|]. cbn.
  by rewrite lookup_app_r, Nat.sub_diag by lia.
Qed.

Definition empty_disk : World := mkWorld ∅ ∅ [] [] ∅ ∅.
Definition demo_world : World := server_open [str "data"] empty_disk.
Definition demo_db (w : World) : World := (create_database (str "alice") (str "app") (create_client (str "alice") w).2).2.

(** Creating a database opens an instance in the client, and the first request for a handle
    opens another on the same files. *)
Lemma two_instances :
  let w := (database (str "alice") (str "app") (demo_db demo_world)).2 in
  (c ← clients w !! str "alice"; databases c !! str "app") = Some 0 ∧ cache w !! cache_key (str "alice") (str "app") = Some 1 ∧
  instances w = [[str "data"; str "alice"; str "app"]; [str "data"; str "alice"; str "app"]].
Proof. split_and!; vm_compute; reflexivity. Qed.

(** Two threads that both miss the cache get two instances of the same database. *)
Lemma racing_handles :
  ∃ w, srv_run (demo_db demo_world, [])
         [EOther; EOther; EOther; EOther; EOther; EOther; EAnswer (str "alice") (str "app") 1; EAnswer (str "alice") (str "app") 2] (w, []) ∧
    instances w !! 1 = Some [str "data"; str "alice"; str "app"] ∧ instances w !! 2 = Some [str "data"; str "alice"; str "app"].
Proof.
  set (a := str "alice"). set (d := str "app"). set (w := demo_db demo_world). set (p := [str "data"; a; d]).
  set (w1 := (open_database p w).2). set (w2 := (open_database p w1).2).
  exists (remember a d 2 (remember a d 1 w2)). split; [|split; vm_compute; reflexivity].
  eapply sr_cons; [apply (ss_miss a d); vm_compute; reflexivity|]. eapply sr_cons; [apply (ss_miss a d); vm_compute; reflexivity|].
  eapply sr_cons; [apply (ss_found a d p w [] [TMissed a d]); vm_compute; reflexivity|].
  eapply sr_cons; [apply (ss_found a d p w [TFound a d p] []); vm_compute; reflexivity|].
  eapply sr_cons; [apply (ss_open a d p w [] [TFound a d p])|]. eapply sr_cons; [apply (ss_open a d p w1 [TOpened a d 1] [])|].
  eapply sr_cons; [apply (ss_remember a d 1 w2 [] [TOpened a d 2])|]. eapply sr_cons; [apply (ss_remember a d 2 _ [] [])|]. apply sr_nil.
Qed.

(** A database dropped between the check of its directory and its opening comes back: the
    directory is created again and its handle remembered. *)
Lemma dropped_comes_back :
  ∃ w, srv_run (demo_db demo_world, [])
         [EOther; EOther; EForgetDatabase (str "alice") (str "app"); EOther; EOther; EAnswer (str "alice") (str "app") 1] (w, []) ∧
    [str "data"; str "alice"; str "app"] ∈ dirs w ∧ (databases <$> clients w !! str "alice") = Some ∅.
Proof.
  set (a := str "alice"). set (d := str "app"). set (w := demo_db demo_world). set (p := [str "data"; a; d]).
  set (w1 := (on_client a (drop_database_in d) (forget_database a d w)).2).
  exists (remember a d 1 (open_database p w1).2). split; [|split; vm_compute; reflexivity].
  eapply sr_cons; [apply (ss_miss a d); vm_compute; reflexivity|].
  eapply sr_cons; [apply (ss_found a d p w [] []); vm_compute; reflexivity|].
  eapply sr_cons; [apply (ss_forget_database a d w [TFound a d p])|]. eapply sr_cons; [apply (ss_drop_database a d _ [] [TFound a d p])|].
  eapply sr_cons; [apply (ss_open a d p w1 [] [])|]. eapply sr_cons; [apply (ss_remember a d 1 _ [] [])|]. apply sr_nil.
Qed.

Lemma server_open_clients_ok p w : clients_ok (server_open p w).
Proof.
  unfold server_open. set (f := λ '(cs, w) n, _ : gmap bytes Client * World).
  assert (Hf : ∀ ns cs w1, (∀ n c, cs !! n = Some c → client_path c = p ++ [n] ∧ databases_ok w1 c) →
    ∀ n c, (foldl f (cs, w1) ns).1 !! n = Some c → client_path c = p ++ [n] ∧ databases_ok (foldl f (cs, w1) ns).2 c).
  { induction ns as [|m ns IH]; intros cs w1 Hcs; [done|]. cbn [foldl]. unfold f at 2 4. case_decide; [by apply IH|].
    destruct (client_open (p ++ [m]) w1) as [c w2] eqn:Ho. apply client_open_spec in Ho as (Hp & Hd & _ & _ & _ & Hg). apply IH.
    intros n c'. intros [[<- <-]|[_ Hn]]%lookup_insert_Some; [done|]. destruct (Hcs n c' Hn). split; [done|by eapply databases_grow]. }
  specialize (Hf (subdirs (dirs (create_dir p w)) p) ∅ (create_dir p w)). destruct (foldl f _ _) as [cs w2]. cbn [fst snd] in Hf.
  intros n c Hc. destruct (Hf ltac:(intros ? ? Hx; by rewrite lookup_empty in Hx) n c Hc). split; [done|]. intros d i Hi. cbn. auto.
Qed.

Lemma demo_clients_ok : clients_ok (demo_db demo_world).
Proof.
  apply create_database_tree; [reflexivity|]. apply create_client_tree, server_open_clients_ok.
Qed.

Lemma handles_isolated_witness :
  ∃ x : World * list task, srv_run (server_open [str "data"] empty_disk, [])
      [EOther; EOther; EOther; EOther; EOther; EAnswer (str "alice") (str "app") 1; EAnswer (str "alice") (str "app") 1] x ∧
    instances x.1 !! 1 = Some (server_path x.1 ++ [str "alice"; str "app"]).
Proof.
  set (a := str "alice"). set (d := str "app"). set (w := demo_db demo_world). set (p := [str "data"; a; d]).
  set (x := (remember a d 1 (open_database p w).2, [] : list task)). exists x.
  assert (Hrun : srv_run (server_open [str "data"] empty_disk, []) [EOther; EOther; EOther; EOther; EOther; EAnswer a d 1; EAnswer a d 1] x).
  { eapply sr_cons; [apply (ss_create_client a)|]. eapply sr_cons; [apply (ss_create_database a d)|].
    eapply sr_cons; [apply (ss_miss a d); vm_compute; reflexivity|]. eapply sr_cons; [apply (ss_found a d p w [] []); vm_compute; reflexivity|].
    eapply sr_cons; [apply (ss_open a d p w [] [])|]. eapply sr_cons; [apply (ss_remember a d 1 _ [] [])|].
    eapply sr_cons; [apply (ss_hit a d 1); vm_compute; reflexivity|]. apply sr_nil. }
  split; [exact Hrun|]. destruct (handles_isolated empty_disk [str "data"] _ x Hrun) as [H _].
  apply (H a d 1); [do 5 right; left|reflexivity|reflexivity].
Defined.
