(* ===== verification/Exec.v ===== *)
(** * Execution of commands (grumpydb-server/src/tcp/handler.rs, [execute_command])

    One command of a session on the state of the server: the session, the authentication
    store, the handles and the databases behind them.  A database is any type with the
    operations [DbOps] of a [SharedDatabase]; what an instance [i] holds when it is opened is
    [opened i].  Texts of errors, of reports and of JSON come from [Env_]; a panic, which the
    connection handler catches, is [None]. *)

From stdpp Require Import gmap.
From S2P Require Import Prelude RustStd Value Crdt AppliedSet Schema Collection Command Auth Parser Response Ring Coordinator Handler JsonValue AuthStore AuthStoreSpec Server.

Local Open Scope Z_scope.

(** ** Texts of errors *)

Definition hex_digit (n : Z) : byte := z2b (if decide (n < 10) then 48 + n else 87 + n).
(** [{:#010x}] of a [u32] *)
Definition hex8 (n : Z) : bytes := str "0x" ++ ((λ i, hex_digit (Z.land (Z.shiftr n (4 * i)) 15)) <$> [7; 6; 5; 4; 3; 2; 1; 0]).
Definition dec (n : Z) : bytes := text (show_i64 n).

(** [Display] of an error; [io] is the text of an error of the operating system. *)
Definition display `{UuidText} (io : bytes) (err : GrumpyError) : bytes :=
  match err with
  | Io => str "I/O error: " ++ io
  | PageNotFound p => str "page " ++ dec p ++ str " not found"
  | PageFull p => str "page " ++ dec p ++ str " is full"
  | DuplicateKey k => str "key " ++ uuid_text (as_u128 k) ++ str " already exists"
  | KeyNotFound k => str "key " ++ uuid_text (as_u128 k) ++ str " not found"
  | ChecksumMismatch p expected actual => str "checksum mismatch on page " ++ dec p ++ str ": expected " ++ hex8 expected ++ str ", got " ++ hex8 actual
  | WalCorrupted lsn => str "WAL corrupted at LSN " ++ dec lsn
  | BufferPoolExhausted => str "buffer pool exhausted: all frames are pinned"
  | DocumentTooLarge size max => str "document too large: " ++ dec size ++ str " bytes (max: " ++ dec max ++ str ")"
  | Prelude.Codec msg => str "codec error: " ++ str msg
  | NotIndexable => str "value type cannot be indexed"
  | IndexNotFound name => str "index not found: " ++ name
  | IndexAlreadyExists name => str "index already exists: " ++ name
  | CollectionNotFound name => str "collection not found: " ++ name
  | InvalidName msg => str "invalid name: " ++ str msg
  | InvalidArgument msg => str "invalid argument: " ++ str msg
  | CyclicReference => str "cyclic reference detected"
  | ClientNotFound name => str "client not found: " ++ name
  | DatabaseNotFound name => str "database not found: " ++ name
  | Corruption msg => str "data corruption detected: " ++ str msg
  | InvalidPageOffset p o => str "invalid page offset: page " ++ dec p ++ str ", offset " ++ dec o
  | InvalidVarKey msg => str "invalid variable-length key: " ++ str msg
  | HlcErr msg => str "HLC error: " ++ str msg
  | VectorClockErr msg => str "vector clock error: " ++ str msg
  | UnsupportedWalVersion v => str "unsupported WAL format version: " ++ dec v
  end.

(** ** What a session asks of a database *)

Class DbOps (D : Type) := {
  db_create_collection : bytes → ST D GrumpyError unit;
  db_drop_collection : bytes → ST D GrumpyError unit;
  db_list_collections : D → list bytes;
  db_insert : bytes → bytes → Value → ST D GrumpyError unit;
  db_get : bytes → bytes → ST D GrumpyError (option Value);
  db_update : bytes → bytes → Value → ST D GrumpyError unit;
  db_delete : bytes → bytes → ST D GrumpyError unit;
  db_scan : bytes → Bound bytes → Bound bytes → ST D GrumpyError (list (bytes * Value));
  db_count : bytes → ST D GrumpyError Z;
  db_create_index : bytes → bytes → bytes → ST D GrumpyError unit;
  db_drop_index : bytes → bytes → ST D GrumpyError unit;
  db_list_indexes : bytes → ST D GrumpyError (list bytes);
  db_query : bytes → bytes → Value → ST D GrumpyError (list (bytes * Value));
  db_query_range : bytes → bytes → Value → Value → ST D GrumpyError (list (bytes * Value));
  db_compact : bytes → ST D GrumpyError Z;
  db_flush : ST D GrumpyError unit;
  db_index_field_path : bytes → bytes → ST D GrumpyError bytes;
  db_snapshot_hlc : ST D GrumpyError Z;
  db_consistency_defaults : D → option Z * option Z;
  db_set_consistency_defaults : option Z → option Z → ST D GrumpyError unit;
}.

Record Env_ (D : Type) := mkExecEnv {
  now : Z;
  salt : bytes;
  write_ok : chars → bool;
  opened : nat → D;
  uuid_parse : bytes → outcome bytes bytes;
  json_parse : bytes → outcome bytes JsonV;
  json_print : JsonV → bytes;
  io_text : bytes;
  show_store_error : StoreError → bytes;
  show_auth_error : AuthError → bytes;
  show_coord_error : CoordError → bytes;
  show_scope : ResourceScope → bytes;
  report : Command → bytes;
  transfer_report : Command → outcome GrumpyError (list (bytes * Value)) → bytes;
}.
Arguments mkExecEnv {D}.
Arguments now {D}.
Arguments salt {D}.
Arguments write_ok {D}.
Arguments opened {D}.
Arguments uuid_parse {D}.
Arguments json_parse {D}.
Arguments json_print {D}.
Arguments io_text {D}.
Arguments show_store_error {D}.
Arguments show_auth_error {D}.
Arguments show_coord_error {D}.
Arguments show_scope {D}.
Arguments report {D}.
Arguments transfer_report {D}.

Record Exec (D : Type) := mkExec { session : SessionContext; auth : AuthStore; world : World; dbs : gmap nat D }.
Arguments mkExec {D}.
Arguments session {D}.
Arguments auth {D}.
Arguments world {D}.
Arguments dbs {D}.

Section exec.
Context `{UuidText, Base64, AuthCrates, RingHash, JsonPayloads} {D : Type} `{DbOps D} (e : Env_ D) (co : Coordinator) (sn : option Node).
Implicit Types (x : Exec D).

Definition with_session s x : Exec D := mkExec s (auth x) (world x) (dbs x).
Definition with_auth a x : Exec D := mkExec (session x) a (world x) (dbs x).
Definition with_world w x : Exec D := mkExec (session x) (auth x) w (dbs x).
Definition with_db_at (i : nat) d x : Exec D := mkExec (session x) (auth x) (world x) (<[i := d]> (dbs x)).

Abbreviation run := (Exec D → option Response * Exec D).

Definition answer (r : Response) : run := λ x, (Some r, x).
Definition ok_response : Response := ROk (str "OK").

(** [match call { Ok(()) => OK, Err(e) => Error(e.to_string()) }] *)
Definition done_ {E} (show : E → bytes) (r : outcome E unit) : option Response :=
  match r with Ok _ => Some ok_response | Err err => Some (RError (show err)) | Panic => None end.

(** [match session.tenant() { Ok(t) => .., Err(e) => return .. }] *)
Definition with_tenant (f : chars → run) : run := λ x,
  match session_tenant (session x) with
  | Ok t => f t x
  | Err err => (Some (RError (show_auth_error e err)), x)
  | Panic => (None, x)
  end.

(** [shared_server.database(..)], and a call on the instance behind the handle. *)
Definition handle (tenant db : bytes) : ST (Exec D) GrumpyError nat := λ x,
  let '(r, w) := database tenant db (world x) in (r, with_world w x).
Definition instance_of (i : nat) x : D := default (opened e i) (dbs x !! i).
Definition call {E A} (i : nat) (f : ST D E A) : ST (Exec D) E A := λ x,
  let '(r, d) := f (instance_of i x) in (r, with_db_at i d x).

Definition respond (r : outcome bytes Response) : option Response :=
  match r with Ok resp => Some resp | Err msg => Some (RError msg) | Panic => None end.

Definition on_database (tenant db : chars) (f : ST D bytes Response) : run := λ x,
  match handle (utf8 tenant) (utf8 db) x with
  | (Ok i, x) => let '(r, x) := call i f x in (respond r, x)
  | (Err err, x) => (Some (RError (display (io_text e) err)), x)
  | (Panic, x) => (None, x)
  end.

Definition no_database : bytes := str "no database selected (use USE <db>)".

Definition with_db (f : ST D bytes Response) : run :=
  with_tenant (λ tenant x,
    match current_db (session x) with
    | None => (Some (RError no_database), x)
    | Some db => on_database tenant db f x
    end).

(** [s(..)] *)
Definition s_ {A} (m : ST D GrumpyError A) : ST D bytes A := st_map_err (display (io_text e)) m.

Definition parse_json_value (text : bytes) : outcome bytes Value :=
  match json_parse e text with Ok j => Ok (json_to_value j) | Err err => Err (str "invalid JSON: " ++ err) | Panic => Panic end.
Definition parse_uuid (key : bytes) : outcome bytes bytes :=
  match uuid_parse e key with Ok u => Ok u | Err err => Err (str "invalid UUID '" ++ key ++ str "': " ++ err) | Panic => Panic end.

(** [format!("{} {}", k, value_to_json(&v))] *)
Definition row (kv : bytes * Value) : Response :=
  RBulk (Some (uuid_text (as_u128 kv.1) ++ str " " ++ json_print e (value_to_serde_json kv.2))).
Definition bulk (b : bytes) : Response := RBulk (Some b).

(** [if let Some(db_name) = session.current_db() && let Err(e) = coordinator.enforce..] *)
Definition enforce (check : RoutingKey → Coordinator → outcome CoordError unit) (s : SessionContext) (coll key : chars) : outcome bytes unit :=
  match current_db s with
  | None => Ok tt
  | Some db =>
      match check (mkKey (utf8 db) (utf8 coll) (utf8 key)) co with
      | Ok _ => Ok tt
      | Err err => Err (show_coord_error e err)
      | Panic => Panic
      end
  end.

(** ** Data commands *)

Definition run_insert (s : SessionContext) (coll key value : chars) : ST D bytes Response :=
  _ ← st_lift (enforce enforce_local_write_replica s coll key);
  uuid ← st_lift (parse_uuid (utf8 key));
  val ← st_lift (parse_json_value (utf8 value));
  _ ← s_ (db_insert (utf8 coll) uuid val);
  mret ok_response.

Definition run_get (s : SessionContext) (coll key : chars) : ST D bytes Response :=
  _ ← st_lift (enforce enforce_local_owner s coll key);
  uuid ← st_lift (parse_uuid (utf8 key));
  found ← s_ (db_get (utf8 coll) uuid);
  mret (RBulk ((λ v, json_print e (value_to_serde_json v)) <$> found)).

Definition run_update (s : SessionContext) (coll key value : chars) : ST D bytes Response :=
  _ ← st_lift (enforce enforce_local_write_replica s coll key);
  uuid ← st_lift (parse_uuid (utf8 key));
  val ← st_lift (parse_json_value (utf8 value));
  _ ← s_ (db_update (utf8 coll) uuid val);
  mret ok_response.

Definition run_delete (s : SessionContext) (coll key : chars) : ST D bytes Response :=
  _ ← st_lift (enforce enforce_local_write_replica s coll key);
  uuid ← st_lift (parse_uuid (utf8 key));
  _ ← s_ (db_delete (utf8 coll) uuid);
  mret ok_response.

(** The value stored by PUT_WITH_VC over an existing document. *)
Definition reconcile (existing incoming : Value) : outcome bytes Value :=
  if is_crdt existing && is_crdt incoming then
    match merge_values existing incoming with
    | Ok v => Ok v
    | Err err => Err (str "CRDT merge failed: " ++ str err)
    | Panic => Panic
    end
  else Ok incoming.

(** A hidden tombstone still occupies the key: the insert fails and an update replaces it. *)
Definition insert_or_update (coll uuid : bytes) (v : Value) : ST D bytes unit := λ d,
  match db_insert coll uuid v d with
  | (Ok _, d) => (Ok tt, d)
  | (Err (DuplicateKey _), d) => s_ (db_update coll uuid v) d
  | (Err err, d) => (Err (display (io_text e) err), d)
  | (Panic, d) => (Panic, d)
  end.

Definition run_put (s : SessionContext) (coll key value vector_clock : chars) : ST D bytes Response :=
  _ ← st_lift (enforce enforce_local_write_replica s coll key);
  _ ← st_lift (match json_parse e (utf8 vector_clock) with Ok _ => Ok tt | Err err => Err (str "invalid vector_clock JSON: " ++ err) | Panic => Panic end);
  uuid ← st_lift (parse_uuid (utf8 key));
  incoming ← st_lift (parse_json_value (utf8 value));
  existing ← s_ (db_get (utf8 coll) uuid);
  _ ← (match existing with
       | Some existing =>
           reconciled ← st_lift (reconcile existing incoming);
           s_ (db_update (utf8 coll) uuid reconciled)
       | None => insert_or_update (utf8 coll) uuid incoming
       end);
  mret ok_response.

Definition run_scan (coll : chars) (start end_ : option chars) : ST D bytes Response :=
  rows ← (match start, end_ with
          | Some sv, Some ev =>
              lo ← st_lift (parse_uuid (utf8 sv));
              hi ← st_lift (parse_uuid (utf8 ev));
              s_ (db_scan (utf8 coll) (Included lo) (Included hi))
          | _, _ => s_ (db_scan (utf8 coll) Unbounded Unbounded)
          end);
  mret (RArray (row <$> rows)).

(** [coordinator.schema_version()], [coordinator.schema_has_index(..)]: nothing without a schema. *)
Definition coordinator_schema_version : Z := default 0 (schema_version <$> sn).
Definition coordinator_has_index (tenant db coll index : bytes) : bool :=
  match sn with Some n => schema_has_index tenant db coll index n | None => false end.

Definition refine_index_not_found (s : SessionContext) (coll index : chars) : bytes :=
  let tenant := match session_tenant s with Ok t => t | _ => [] end in
  let db := default [] (current_db s) in
  if bool_decide (tenant ≠ []) && bool_decide (db ≠ []) && coordinator_has_index (utf8 tenant) (utf8 db) (utf8 coll) (utf8 index) then
    str "index '" ++ utf8 index ++ str "' is in cluster schema (version " ++ text (show_i64 coordinator_schema_version) ++ str ") but not yet materialized on this node; retry shortly"
  else str "index not found: " ++ utf8 index.

Definition query_result (s : SessionContext) (coll index : chars) (m : ST D GrumpyError (list (bytes * Value))) : ST D bytes Response := λ d,
  match m d with
  | (Ok rows, d) => (Ok (RArray (row <$> rows)), d)
  | (Err (IndexNotFound _), d) => (Err (refine_index_not_found s coll index), d)
  | (Err err, d) => (Err (display (io_text e) err), d)
  | (Panic, d) => (Panic, d)
  end.

Definition run_query (s : SessionContext) (coll index value : chars) : ST D bytes Response :=
  val ← st_lift (parse_json_value (utf8 value));
  query_result s coll index (db_query (utf8 coll) (utf8 index) val).

Definition run_query_range (s : SessionContext) (coll index start end_ : chars) : ST D bytes Response :=
  sv ← st_lift (parse_json_value (utf8 start));
  ev ← st_lift (parse_json_value (utf8 end_));
  query_result s coll index (db_query_range (utf8 coll) (utf8 index) sv ev).

(** [db.begin_read().snapshot_hlc()], as an i64 *)
Definition run_snapshot_hlc : ST D bytes Response :=
  snapshot ← s_ db_snapshot_hlc;
  st_lift (if decide (snapshot < 9223372036854775808) then Ok (RInteger snapshot)
           else Err (str "snapshot HLC " ++ text (show_i64 snapshot) ++ str " does not fit in i64")).

(** The transfers of a rebalance read the whole collection. *)
Definition run_transfer (c : Command) (coll : chars) : ST D bytes Response := λ d,
  match db_scan (utf8 coll) Unbounded Unbounded d with
  | (Panic, d) => (Panic, d)
  | (r, d) => (Ok (bulk (transfer_report e c r)), d)
  end.

(** ** Users and roles *)

(** "user@tenant", or a user of the default tenant. *)
Definition split_tenant_user (input default_tenant : chars) : chars * chars :=
  match split_once 64 input with
  | Some (u, t) => (t, u)
  | None => (default_tenant, input)
  end.

(** [rfind('@')]: what comes before the last [@]. *)
Fixpoint before_last_at (s : chars) : option chars :=
  match s with
  | [] => None
  | c :: s =>
      match before_last_at s with
      | Some b => Some (c :: b)
      | None => if decide (c = 64) then Some [] else None
      end
  end.

Definition parse_resource (input : chars) (current_db : option chars) : ResourceScope :=
  let before_at := default input (before_last_at input) in
  if decide (before_at = []) then STenant
  else match split_once 58 before_at with
       | Some (collection, database) => SCollection database collection
       | None =>
           match current_db with
           | Some db => SCollection db before_at
           | None => SDatabase before_at
           end
       end.

(** [roles.push(..)] and [filter(..)] of GRANT and REVOKE. *)
Definition grant_role (ra : RoleAssignment) (rs : list RoleAssignment) : list RoleAssignment := rs ++ [ra].
Definition revoke_role (ra : RoleAssignment) (rs : list RoleAssignment) : list RoleAssignment :=
  List.filter (λ ra', negb (bool_decide (role ra' = role ra) && bool_decide (scope ra' = scope ra))) rs.

Definition change_roles (change : RoleAssignment → list RoleAssignment → list RoleAssignment) (role_ resource username_ : chars) : run :=
  with_tenant (λ tenant x,
    let '(target_tenant, target_user) := split_tenant_user username_ tenant in
    match from_str_name (utf8 role_) with
    | None => (Some (RError (str "unknown role: " ++ utf8 role_)), x)
    | Some r =>
        let scope := parse_resource resource (current_db (session x)) in
        match get_user target_tenant target_user (auth x) with
        | None => (Some (RError (str "user not found: " ++ utf8 username_)), x)
        | Some u =>
            let '(res, a) := update_roles (write_ok e) target_tenant target_user (change (mkRole r scope) (user_roles u)) (auth x) in
            (done_ (show_store_error e) res, with_auth a x)
        end
    end).

(** [roles.join(",")] *)
Fixpoint join_with (sep : bytes) (l : list bytes) : bytes :=
  match l with [] => [] | [x] => x | x :: l => x ++ sep ++ join_with sep l end.

Definition user_line (u : User) : Response :=
  bulk (utf8 (username u) ++ str "@" ++ utf8 (user_tenant u) ++ str ":" ++ join_with (str ",") ((λ r, role_text (role r)) <$> user_roles u)).

Definition whoami (s : SessionContext) : Response :=
  match claims s with
  | Some c =>
      ROk (str "USER " ++ utf8 (sub c) ++ str " TENANT " ++ utf8 (tenant c) ++ str " ROLES " ++
           join_with (str ",") ((λ r, role_text (role r) ++ str ":" ++ show_scope e (scope r)) <$> roles c))
  | None => RError (str "not authenticated")
  end.

Definition run_create_user (name password : chars) : run :=
  with_tenant (λ t x,
    let '(target_tenant, target_user) := split_tenant_user name t in
    let '(r, a) := create_user (write_ok e) (now e) (salt e) target_tenant target_user password [] (auth x) in
    (done_ (show_store_error e) r, with_auth a x)).

Definition run_drop_user (name : chars) : run :=
  with_tenant (λ t x,
    let '(target_tenant, target_user) := split_tenant_user name t in
    let '(r, a) := delete_user target_tenant target_user (auth x) in
    (done_ (show_store_error e) r, with_auth a x)).

Definition run_list_users (specifier : option chars) : run :=
  with_tenant (λ t x,
    let target := match specifier with
                  | Some (ch :: rest) => if decide (ch = 64) then rest else ch :: rest
                  | Some [] => []
                  | None => t
                  end in
    (Some (RArray (user_line <$> list_users target (auth x))), x)).

(** [_auth] is internal, not a tenant *)
Definition run_list_tenants : run := λ x,
  answer (RArray (bulk <$> List.filter (λ c, negb (bool_decide (c = str "_auth"))) (list_clients (world x)))) x.

(** Accepted without effect. *)
Definition run_elect_writer (node db : chars) (coll : option chars) : run :=
  answer (ROk (str "elected " ++ utf8 node ++ str " as writer for " ++ utf8 db ++ str "/" ++ default (str "*") (utf8 <$> coll))).

(** ** Sessions *)

Definition run_login (tenant user password : chars) : run := λ x,
  match authenticate (now e) tenant user password (auth x) with
  | Ok (access, refresh) =>
      let x := match verify_token (now e) access (auth x) with
               | Ok c => with_session (set_claims (base c) (session x)) x
               | _ => x
               end in
      (Some (ROk (str "TOKEN " ++ utf8 access ++ str " " ++ utf8 refresh)), with_world (create_client (utf8 tenant) (world x)).2 x)
  | Err _ => (Some (RError (str "invalid credentials")), x)
  | Panic => (None, x)
  end.

Definition run_token (token : chars) : run := λ x,
  match verify_token (now e) token (auth x) with
  | Ok c => (Some ok_response, with_session (set_claims (base c) (session x)) x)
  | Err err => (Some (RError (show_store_error e err)), x)
  | Panic => (None, x)
  end.

Definition run_refresh (token : chars) : run := λ x,
  match refresh_access_token (now e) token (auth x) with
  | Ok access => (Some (ROk (str "TOKEN " ++ utf8 access)), x)
  | Err err => (Some (RError (show_store_error e err)), x)
  | Panic => (None, x)
  end.

Definition run_use (db : chars) : run :=
  with_tenant (λ tenant x,
    let w := (create_database (utf8 tenant) (utf8 db) (world x)).2 in
    (Some ok_response, with_session (set_database db (session x)) (with_world w x))).

(** A call on the tree of clients and databases. *)
Definition on_world (m : ST World GrumpyError unit) : run := λ x,
  let '(r, w) := m (world x) in (done_ (display (io_text e)) r, with_world w x).

Definition run_create_database (name : chars) : run := with_tenant (λ t, on_world (create_database (utf8 t) (utf8 name))).
Definition run_drop_database (name : chars) : run := with_tenant (λ t, on_world (drop_database (utf8 t) (utf8 name))).

Definition run_list_databases : run :=
  with_tenant (λ tenant x,
    let '(r, w) := list_databases (utf8 tenant) (world x) in
    (match r with Ok names => Some (RArray (bulk <$> names)) | Err err => Some (RError (display (io_text e) err)) | Panic => None end, with_world w x)).

Definition run_set_consistency (db : chars) (r w : option Z) : run :=
  with_tenant (λ tenant, on_database tenant db (_ ← s_ (db_set_consistency_defaults r w); mret ok_response)).

Definition concern_json (c : option Z) : JsonV := match c with Some n => JNumber (NInt n) | None => JNull end.
Definition show_consistency (db : chars) (c : option Z * option Z) : Response :=
  bulk (json_print e (JObject [(str "database", JString (utf8 db)); (str "read_concern", concern_json c.1); (str "write_concern", concern_json c.2)])).

Definition run_show_consistency (db : chars) : run :=
  with_tenant (λ t, on_database t db (λ d, (Ok (show_consistency db (db_consistency_defaults d)), d))).

(** ** Collections and indexes *)

Definition run_create_collection (name : chars) : ST D bytes Response := _ ← s_ (db_create_collection (utf8 name)); mret ok_response.
Definition run_drop_collection (name : chars) : ST D bytes Response := _ ← s_ (db_drop_collection (utf8 name)); mret ok_response.
Definition run_list_collections : ST D bytes Response := λ d, (Ok (RArray (bulk <$> db_list_collections d)), d).
Definition run_count (coll : chars) : ST D bytes Response := n ← s_ (db_count (utf8 coll)); mret (RInteger (u64_as_i64 n)).
Definition run_create_index (coll index path : chars) : ST D bytes Response := _ ← s_ (db_create_index (utf8 coll) (utf8 index) (utf8 path)); mret ok_response.
Definition run_drop_index (coll index : chars) : ST D bytes Response := _ ← s_ (db_drop_index (utf8 coll) (utf8 index)); mret ok_response.
Definition run_list_indexes (coll : chars) : ST D bytes Response := names ← s_ (db_list_indexes (utf8 coll)); mret (RArray (bulk <$> names)).
Definition run_compact (coll : chars) : ST D bytes Response := n ← s_ (db_compact (utf8 coll)); mret (ROk (str "OK " ++ dec n)).
Definition run_flush : ST D bytes Response := _ ← s_ db_flush; mret ok_response.

(** ** The dispatch *)

Definition execute_command (c : Command) : run := λ x,
  let s := session x in
  match c with
  | WithConsistency _ _ _ => answer (RError (str "internal error: consistency wrapper not unwrapped")) x
  | Login tenant user password => run_login tenant user password x
  | Token token => run_token token x
  | Refresh token => run_refresh token x
  | WhoAmI => answer (whoami s) x
  | Topology | SchemaStatus | PlanRebalanceAddNode _ | PlanRebalanceRemoveNode _ => answer (bulk (report e c)) x
  | SnapshotHlc => with_db run_snapshot_hlc x
  | SchemaVersion => answer (RInteger (u64_as_i64 coordinator_schema_version)) x
  | Use db => run_use db x
  | CreateDatabase name => run_create_database name x
  | DropDatabase name => run_drop_database name x
  | ListDatabases => run_list_databases x
  | SetDatabaseConsistency db r w => run_set_consistency db r w x
  | ResetDatabaseConsistency db => run_set_consistency db None None x
  | ShowDatabaseConsistency db => run_show_consistency db x
  | CreateCollection name => with_db (run_create_collection name) x
  | DropCollection name => with_db (run_drop_collection name) x
  | ListCollections => with_db run_list_collections x
  | Command.Insert coll key value => with_db (run_insert s coll key value) x
  | Get coll key => with_db (run_get s coll key) x
  | Update coll key value => with_db (run_update s coll key value) x
  | Delete coll key => with_db (run_delete s coll key) x
  | PutWithVc coll key value clock => with_db (run_put s coll key value clock) x
  | Scan coll start end_ => with_db (run_scan coll start end_) x
  | Count coll => with_db (run_count coll) x
  | CreateIndex coll index path => with_db (run_create_index coll index path) x
  | DropIndex coll index => with_db (run_drop_index coll index) x
  | ListIndexes coll => with_db (run_list_indexes coll) x
  | Query coll index value => with_db (run_query s coll index value) x
  | QueryRange coll index start end_ => with_db (run_query_range s coll index start end_) x
  | Compact coll => with_db (run_compact coll) x
  | Flush => with_db run_flush x
  | CreateUser name password => run_create_user name password x
  | DropUser name => run_drop_user name x
  | ListUsers specifier => run_list_users specifier x
  | Grant role_ resource name => change_roles grant_role role_ resource name x
  | Revoke role_ resource name => change_roles revoke_role role_ resource name x
  | CreateTenant name => on_world (create_client (utf8 name)) x
  | DropTenant name => on_world (drop_client (utf8 name)) x
  | ListTenants => run_list_tenants x
  | ElectWriter node db coll => run_elect_writer node db coll x
  | ExecuteRebalanceAddNode _ coll | ExecuteRebalanceRemoveNode _ coll => with_db (run_transfer c coll) x
  | Ping | Quit => answer ok_response x
  end.
End exec.

(** The tenant of a resource specifier is dropped: [mydb@acme] and [mydb@other] grant the
    same scope. *)
Lemma before_last_at_none s : 64 ∉ s → before_last_at s = None.
Proof. induction s as [|c s IH]; [done|]. intros [Hc Hs]%not_elem_of_cons. cbn. rewrite IH by done. by rewrite decide_False. Qed.

Lemma before_last_at_app n t : 64 ∉ t → before_last_at (n ++ 64 :: t) = Some n.
Proof. intros Ht. induction n as [|c n IH]; cbn; [by rewrite before_last_at_none|by rewrite IH]. Qed.

Lemma resource_tenant_dropped n t t' cur : 64 ∉ t → 64 ∉ t' → parse_resource (n ++ 64 :: t) cur = parse_resource (n ++ 64 :: t') cur.
Proof. intros Ht Ht'. unfold parse_resource. by rewrite !before_last_at_app. Qed.

(** ** What a command may touch *)

(** The database a command names itself. *)
Definition named_db (c : Command) : option chars :=
  match c with
  | SetDatabaseConsistency db _ _ | ResetDatabaseConsistency db | ShowDatabaseConsistency db => Some db
  | _ => None
  end.

(** The part of the directory tree, below the root of the server, in which a command may
    create and remove directories. *)
Definition tree_scope (c : Command) (s : SessionContext) : option dir :=
  match c with
  | Login t _ _ => Some [utf8 t]
  | CreateTenant n | DropTenant n => Some [utf8 n]
  | Use n | CreateDatabase n | DropDatabase n | SetDatabaseConsistency n _ _ | ResetDatabaseConsistency n | ShowDatabaseConsistency n =>
      cl ← claims s; Some [utf8 (tenant cl); utf8 n]
  | SnapshotHlc | CreateCollection _ | DropCollection _ | ListCollections | Command.Insert _ _ _ | Get _ _ | Update _ _ _ | Delete _ _
  | PutWithVc _ _ _ _ | Scan _ _ _ | Count _ | CreateIndex _ _ _ | DropIndex _ _ | ListIndexes _ | Query _ _ _ | QueryRange _ _ _ _
  | Compact _ | Flush | ExecuteRebalanceAddNode _ _ | ExecuteRebalanceRemoveNode _ _ =>
      cl ← claims s; db ← current_db s; Some [utf8 (tenant cl); utf8 db]
  | _ => None
  end.

(** The clients whose entry in memory a command may change: that of the session's tenant,
    and the tenant it names. *)
Definition owns (c : Command) (s : SessionContext) (n : bytes) : Prop :=
  (∃ cl, claims s = Some cl ∧ n = utf8 (tenant cl)) ∨
  match c with Login t _ _ | CreateTenant t | DropTenant t => n = utf8 t | _ => False end.

(** What happened to the tree from [w] to [w']: nothing outside of [scope], and to no client
    but the owned ones. *)
Record tree_kept (scope : option dir) (owned : bytes → Prop) (w w' : World) : Prop := {
  tk_ok : clients_ok w';
  tk_root : server_path w' = server_path w;
  tk_dirs : ∀ q, (∀ p, scope = Some p → ¬ (server_path w ++ p) `prefix_of` q) →
    (q ∈ dirs w' ↔ q ∈ dirs w) ∧ (q ∈ db_dirs w' ↔ q ∈ db_dirs w);
  tk_clients : ∀ n, clients w' !! n ≠ clients w !! n → owned n;
}.

Lemma tree_kept_refl scope owned w : clients_ok w → tree_kept scope owned w w.
Proof. intros Hok. by split; [..|intros n []]. Qed.

Lemma tree_kept_in p n (owned : bytes → Prop) w w' :
  kept_outside (server_path w ++ p) w w' → clients_ok w' → other_clients n w w' → server_path w' = server_path w → owned n →
  tree_kept (Some p) owned w w'.
Proof.
  intros Hk Hok Hoth Hr Hn. split; [done|done|intros q Hq; apply Hk; by apply Hq|]. intros m Hm.
  destruct (decide (m = n)) as [->|Hne]; [done|]. by destruct Hm; apply Hoth.
Qed.

Section confined.
Context `{UuidText, Base64, AuthCrates, RingHash} {D : Type} `{DbOps D} (e : Env_ D) (co : Coordinator) (sn : option Node).
Implicit Types (x : Exec D) (t d : chars).

(** From [x] to [x'], the only database that changed lies in [t] under the name [d], and
    nothing happened to users and session. *)
Record touches (t d : bytes) x x' : Prop := {
  to_session : session x' = session x;
  to_auth : auth x' = auth x;
  to_cache : cache_ok (world x');
  to_dbs : ∀ i, dbs x' !! i ≠ dbs x !! i → instances (world x') !! i = Some (server_path (world x') ++ [t; d]);
}.

Lemma handle_touches (t d : bytes) x r x' :
  plain t → plain d → cache_ok (world x) → handle t d x = (r, x') →
  touches t d x x' ∧ dbs x' = dbs x ∧ ∀ i, r = Ok i → instances (world x') !! i = Some (server_path (world x') ++ [t; d]).
Proof.
  intros Ht Hd Hok. unfold handle. destruct (database t d (world x)) as [r' w] eqn:Hdb. intros [= -> <-].
  assert (Hw : cache_ok w ∧ ∀ i, r = Ok i → cache w !! cache_key t d = Some i).
  { unfold database in Hdb. destruct (database_cached _ _ _) eqn:Hc; [injection Hdb as <- <-; split; [done|by intros ? [= <-]]|].
    destruct (database_open_spec _ _ _ _ _ Hdb Hok) as [Hok' Hi]. split; [done|]. intros i Hr. by apply Hi. }
  destruct Hw as [Hw1 Hw2]. split_and!; [by split; [| | |intros i []]|done|]. intros i Hr. cbn. apply Hw1; auto.
Qed.

Lemma call_touches {E A} (t d : bytes) i (f : ST D E A) x x1 r x' :
  touches t d x x1 → instances (world x1) !! i = Some (server_path (world x1) ++ [t; d]) → call e i f x1 = (r, x') → touches t d x x'.
Proof.
  intros [Hs Ha Hc Hi] Hins. unfold call. destruct (f _) as [r' d']. intros [= _ <-]. split; [done|done|done|]. cbn. intros j Hj.
  destruct (decide (j = i)) as [->|Hne]; [done|]. rewrite lookup_insert_ne in Hj by done. by apply Hi.
Qed.

Lemma on_database_touches t d f x r x' :
  plain (utf8 t) → plain (utf8 d) → cache_ok (world x) → on_database e t d f x = (r, x') → touches (utf8 t) (utf8 d) x x'.
Proof.
  intros Ht Hd Hok. unfold on_database. destruct (handle (utf8 t) (utf8 d) x) as [[i|err|] x1] eqn:Hh;
    destruct (handle_touches _ _ _ _ _ Ht Hd Hok Hh) as (Hto & _ & Hi); [|by intros [= _ <-]..].
  destruct (call e i f x1) as [r' x2] eqn:Hc. intros [= _ <-]. eapply call_touches; [exact Hto|by apply Hi|exact Hc].
Qed.

(** What the command [c] may do from [x] to [x']. *)
Record confined (c : Command) x x' : Prop := {
  (** the cache of handles stays right, *)
  cf_cache : cache_ok (world x');
  (** a database that changes is one of the session's own tenant: the current one, or the
      one the command names, *)
  cf_dbs : ∀ i, dbs x' !! i ≠ dbs x !! i →
    ∃ cl db, claims (session x) = Some cl ∧ (current_db (session x) = Some db ∨ named_db c = Some db) ∧
      instances (world x') !! i = Some (server_path (world x') ++ [utf8 (tenant cl); utf8 db]);
  (** the identity of the session changes only to that of a token that verifies, shown by
      TOKEN or just issued to the right password, *)
  cf_claims : claims (session x') = claims (session x) ∨
    ∃ tok tc, verify_token (now e) tok (auth x) = Ok tc ∧ claims (session x') = Some (base tc) ∧
      (c = Token tok ∨ ∃ t u p refresh, c = Login t u p ∧ authenticate (now e) t u p (auth x) = Ok (tok, refresh));
  (** its database only by USE, *)
  cf_current : current_db (session x') = current_db (session x) ∨ ∃ db, c = Use db ∧ current_db (session x') = Some db;
  (** and users only by the commands that manage them. *)
  cf_auth : auth x' = auth x ∨ required_action c = ManageUsers;
}.

Lemma confined_refl c x : cache_ok (world x) → confined c x x.
Proof. intros Hok. by split; [|intros i []|left|left|left]. Qed.

Lemma confined_touches c t d x x' cl :
  claims (session x) = Some cl → t = tenant cl → current_db (session x) = Some d ∨ named_db c = Some d → touches (utf8 t) (utf8 d) x x' → confined c x x'.
Proof.
  intros Hcl -> Hd [Hs Ha Hc Hi]. split; [done| |left; congruence|left; congruence|by left]. intros i Hne. exists cl, d. auto.
Qed.

(** A command that changes the tree of databases only. *)
Lemma confined_world c w x : cache_ok w → confined c x (with_world w x).
Proof. intros Hok. by split; [|intros i []|left|left|left]. Qed.

Lemma confined_auth c a x : cache_ok (world x) → required_action c = ManageUsers → confined c x (with_auth a x).
Proof. intros Hok Hc. by split; [|intros i []|left|left|right]. Qed.

Lemma with_tenant_spec f x r x' :
  with_tenant e f x = (r, x') → x' = x ∨ ∃ cl, claims (session x) = Some cl ∧ f (tenant cl) x = (r, x').
Proof. unfold with_tenant, session_tenant. destruct (claims (session x)) as [cl|]; cbn; [eauto|]. intros [= _ <-]. by left. Qed.

Lemma with_db_spec f x r x' :
  with_db e f x = (r, x') →
  x' = x ∨ ∃ cl db, claims (session x) = Some cl ∧ current_db (session x) = Some db ∧ on_database e (tenant cl) db f x = (r, x').
Proof.
  unfold with_db. intros [->|(cl & Hcl & Hf)]%with_tenant_spec; [by left|]. destruct (current_db (session x)) as [db|] eqn:Hdb; [right; by exists cl, db|].
  injection Hf as _ <-. by left.
Qed.

Section run.
Context (c : Command) (x x' : Exec D) (r : option Response).
Hypothesis Hok : cache_ok (world x).
Hypothesis Htenant : ∀ cl, claims (session x) = Some cl → plain (utf8 (tenant cl)).
Hypothesis Hdb : ∀ db, current_db (session x) = Some db ∨ named_db c = Some db → plain (utf8 db).

Lemma with_db_confined f : with_db e f x = (r, x') → confined c x x'.
Proof.
  intros [->|(cl & db & Hcl & Hcur & Hf)]%with_db_spec; [by apply confined_refl|].
  eapply confined_touches; [exact Hcl|done|by left|]. eapply on_database_touches; [by apply Htenant|apply Hdb; by left|done|exact Hf].
Qed.

Lemma named_confined db f : named_db c = Some db → with_tenant e (λ t, on_database e t db f) x = (r, x') → confined c x x'.
Proof.
  intros Hn [->|(cl & Hcl & Hf)]%with_tenant_spec; [by apply confined_refl|].
  eapply confined_touches; [exact Hcl|done|by right|]. eapply on_database_touches; [by apply Htenant|apply Hdb; by right|done|exact Hf].
Qed.

Lemma on_world_confined m w : cache_ok (m w).2 → world x = w → on_world e m x = (r, x') → confined c x x'.
Proof. intros Hm <-. unfold on_world. destruct (m (world x)) as [r' w']. intros [= _ <-]. by apply confined_world. Qed.

Lemma change_roles_confined change ro res u :
  required_action c = ManageUsers → change_roles e change ro res u x = (r, x') → confined c x x'.
Proof.
  intros Hc. unfold change_roles. intros [->|(cl & Hcl & Hf)]%with_tenant_spec; [by apply confined_refl|]. revert Hf.
  destruct (split_tenant_user _ _) as [tt_ tu]. destruct (from_str_name _); [|intros [= _ <-]; by apply confined_refl].
  destruct (get_user _ _ _); [|intros [= _ <-]; by apply confined_refl]. destruct (update_roles _ _ _ _ _) as [r' a]. intros [= _ <-]. by apply confined_auth.
Qed.
End run.

(** ** What a command does to the tree *)

Lemma on_database_world t d f x r x' :
  on_database e t d f x = (r, x') → world x' = (database (utf8 t) (utf8 d) (world x)).2.
Proof.
  unfold on_database, handle. destruct (database _ _ (world x)) as [[i|err|] w]; [|by intros [= _ <-]..].
  unfold call. destruct (f _) as [r' d']. by intros [= _ <-].
Qed.

Lemma database_kept (t d : bytes) (owned : bytes → Prop) w :
  plain t → plain d → clients_ok w → tree_kept (Some [t; d]) owned w (database t d w).2.
Proof.
  intros Ht Hd Hok. destruct (database_tree t d w Ht Hd Hok) as (Hk & Hok' & Hc & Hp). split; [done|done|intros q Hq; apply Hk; by apply Hq|].
  intros n []. by rewrite Hc.
Qed.

Section tree.
Context (c : Command) (x x' : Exec D) (r : option Response).
Hypothesis Hok : clients_ok (world x).
Hypothesis Htenant : ∀ cl, claims (session x) = Some cl → plain (utf8 (tenant cl)).
Hypothesis Hdb : ∀ db, current_db (session x) = Some db ∨ named_db c = Some db → plain (utf8 db).

Lemma with_db_kept f :
  tree_scope c (session x) = (cl ← claims (session x); db ← current_db (session x); Some [utf8 (tenant cl); utf8 db]) →
  with_db e f x = (r, x') → tree_kept (tree_scope c (session x)) (owns c (session x)) (world x) (world x').
Proof.
  intros Hs [->|(cl & db & Hcl & Hcur & Hf)]%with_db_spec; [by apply tree_kept_refl|].
  rewrite Hs, Hcl, Hcur. cbn [mbind option_bind]. rewrite (on_database_world _ _ _ _ _ _ Hf).
  apply database_kept; [by apply Htenant|apply Hdb; by left|done].
Qed.

Lemma named_kept db f :
  named_db c = Some db → tree_scope c (session x) = (cl ← claims (session x); Some [utf8 (tenant cl); utf8 db]) →
  with_tenant e (λ t, on_database e t db f) x = (r, x') → tree_kept (tree_scope c (session x)) (owns c (session x)) (world x) (world x').
Proof.
  intros Hn Hs [->|(cl & Hcl & Hf)]%with_tenant_spec; [by apply tree_kept_refl|].
  rewrite Hs, Hcl. cbn [mbind option_bind]. rewrite (on_database_world _ _ _ _ _ _ Hf).
  apply database_kept; [by apply Htenant|apply Hdb; by right|done].
Qed.

(** A call on the tree for the session's tenant [cl]. *)
Lemma owned_kept p cl w :
  claims (session x) = Some cl → kept_outside (server_path (world x) ++ p) (world x) w → clients_ok w →
  other_clients (utf8 (tenant cl)) (world x) w → server_path w = server_path (world x) → tree_scope c (session x) = Some p →
  tree_kept (tree_scope c (session x)) (owns c (session x)) (world x) w.
Proof. intros Hcl Hk Hw Hoth Hr ->. eapply tree_kept_in; [done..|]. left. eauto. Qed.
End tree.
End confined.

Section execute.
Context `{UuidText, Base64, AuthCrates, RingHash, JsonPayloads} {D : Type} `{DbOps D} (e : Env_ D) (co : Coordinator) (sn : option Node).

Lemma execute_touches c x r x' :
  execute_command e co sn c x = (r, x') → cache_ok (world x) →
  (∀ cl, claims (session x) = Some cl → plain (utf8 (tenant cl))) →
  (∀ db, current_db (session x) = Some db ∨ named_db c = Some db → plain (utf8 db)) →
  confined e c x x'.
Proof.
  intros Hex Hok Ht Hd. assert (Hsrv : ∀ w, tree_call (world x) w → cache_ok w) by (intros w Hw; by eapply tree_call_cache_ok).
  destruct c; cbn [execute_command] in Hex;
    first [ injection Hex as _ <-; by apply confined_refl
          | by eapply with_db_confined
          | eapply named_confined; [done..|exact Hex]
          | eapply change_roles_confined; [done..|exact Hex]
          | eapply on_world_confined; [|done|exact Hex]; apply Hsrv; constructor
          | idtac ].
  all: try (apply with_tenant_spec in Hex as [->|(cl & Hcl & Hex)]; [by apply confined_refl|]).
  - (* LOGIN *)
    unfold run_login in Hex. destruct (authenticate _ _ _ _ _) as [[access refresh]|err|] eqn:Hau; [|injection Hex as _ <-; by apply confined_refl..].
    injection Hex as _ <-. assert (Hc : cache_ok (create_client (utf8 tenant) (world x)).2) by (apply Hsrv; constructor).
    destruct (verify_token _ access _) as [tc|err|] eqn:Hv; [|by apply confined_world..].
    split; [done|by intros i []| |by left|by left]. right. exists access, tc. split_and!; [done|done|right; eauto 10].
  - (* TOKEN *)
    unfold run_token in Hex. destruct (verify_token _ _ _) as [tc|err|] eqn:Hv; [|injection Hex as _ <-; by apply confined_refl..].
    injection Hex as _ <-. split; [done|by intros i []| |by left|by left]. right. eexists _, tc. split_and!; [exact Hv|done|by left].
  - (* REFRESH *)
    unfold run_refresh in Hex. destruct (refresh_access_token _ _ _); injection Hex as _ <-; by apply confined_refl.
  - (* USE *)
    injection Hex as _ <-. split; [apply Hsrv; constructor|by intros i []|by left| |by left]. right. by eexists.
  - eapply on_world_confined; [|done|exact Hex]. apply Hsrv. constructor.
  - eapply on_world_confined; [|done|exact Hex]. apply Hsrv. constructor.
  - pose proof (Hsrv _ (tc_list_databases (world x) (utf8 (tenant cl)))) as Hl. destruct (list_databases _ _) as [ns w]. injection Hex as _ <-. by apply confined_world.
  - destruct (split_tenant_user _ _). destruct (create_user _ _ _ _ _ _ _ _) as [r' a]. injection Hex as _ <-. by apply confined_auth.
  - destruct (split_tenant_user _ _). destruct (delete_user _ _ _) as [r' a]. injection Hex as _ <-. by apply confined_auth.
  - injection Hex as _ <-. by apply confined_refl.
Qed.

Lemma change_roles_world change ro res u x r x' : change_roles e change ro res u x = (r, x') → world x' = world x.
Proof.
  unfold change_roles. intros [->|(cl & Hcl & Hf)]%with_tenant_spec; [done|]. revert Hf. destruct (split_tenant_user _ _) as [tt_ tu].
  destruct (from_str_name _); [|by intros [= _ <-]]. destruct (get_user _ _ _); [|by intros [= _ <-]].
  destruct (update_roles _ _ _ _ _) as [r' a]. by intros [= _ <-].
Qed.

Lemma on_world_world m x r x' : on_world e m x = (r, x') → world x' = (m (world x)).2.
Proof. unfold on_world. destruct (m (world x)) as [r' w']. by intros [= _ <-]. Qed.

Lemma create_client_kept n (owned : bytes → Prop) w : clients_ok w → owned n → tree_kept (Some [n]) owned w (create_client n w).2.
Proof. intros Hok Hn. destruct (create_client_tree n w Hok) as (Hk & Hok' & Hoth & Hp & _). by eapply tree_kept_in. Qed.

Lemma drop_client_root n w : server_path (drop_client n w).2 = server_path w.
Proof. unfold drop_client, mbind, st_bind, st_modify. by destruct (drop_client_in_grows n (forget_client n w)) as (-> & _). Qed.

Lemma on_client_root n f w : (∀ c w, grows w (f c w).2) → server_path (on_client n f w).2 = server_path w.
Proof. intros Hf. by destruct (on_client_grows n f w Hf) as (? & _). Qed.

Lemma execute_tree c x r x' :
  execute_command e co sn c x = (r, x') → clients_ok (world x) →
  (∀ cl, claims (session x) = Some cl → plain (utf8 (tenant cl))) →
  (∀ db, current_db (session x) = Some db ∨ named_db c = Some db → plain (utf8 db)) →
  (∀ n, c = DropTenant n → plain (utf8 n)) →
  tree_kept (tree_scope c (session x)) (owns c (session x)) (world x) (world x').
Proof.
  intros Hex Hok Ht Hd Hn.
  destruct c; cbn [execute_command] in Hex;
    first [ injection Hex as _ <-; by apply tree_kept_refl
          | eapply with_db_kept; [done..|exact Hex]
          | eapply named_kept; [done..|exact Hex]
          | rewrite (change_roles_world _ _ _ _ _ _ _ Hex); by apply tree_kept_refl
          | idtac ].
  all: try (apply with_tenant_spec in Hex as [->|(cl & Hcl & Hex)]; [by apply tree_kept_refl|]; pose proof (Ht cl Hcl) as Htp).
  - (* LOGIN *)
    unfold run_login in Hex. destruct (authenticate _ _ _ _ _) as [[access refresh]|err|]; [|injection Hex as _ <-; by apply tree_kept_refl..].
    injection Hex as _ <-. destruct (verify_token _ access _); cbn [world with_world with_session tree_scope]; apply create_client_kept; try done; by right.
  - unfold run_token in Hex. destruct (verify_token _ _ _); injection Hex as _ <-; by apply tree_kept_refl.
  - unfold run_refresh in Hex. destruct (refresh_access_token _ _ _); injection Hex as _ <-; by apply tree_kept_refl.
  - (* USE *)
    injection Hex as _ <-. destruct (create_database_tree (utf8 (tenant cl)) (utf8 database) (world x) Htp Hok) as (Hk & Hok' & Hoth).
    eapply owned_kept; [exact Hcl|exact Hk|done|done|apply on_client_root, create_database_in_grows|cbn [tree_scope]; by rewrite Hcl].
  - rewrite (on_world_world _ _ _ _ Hex). destruct (create_database_tree (utf8 (tenant cl)) (utf8 name) (world x) Htp Hok) as (Hk & Hok' & Hoth).
    eapply owned_kept; [exact Hcl|exact Hk|done|done|apply on_client_root, create_database_in_grows|cbn [tree_scope]; by rewrite Hcl].
  - rewrite (on_world_world _ _ _ _ Hex). destruct (drop_database_tree (utf8 (tenant cl)) (utf8 name) (world x) Htp Hok) as (Hk & Hok' & Hoth).
    eapply owned_kept; [exact Hcl|exact Hk|done|done| |cbn [tree_scope]; by rewrite Hcl].
    unfold drop_database, mbind, st_bind, st_modify. by rewrite on_client_root by apply drop_database_in_grows.
  - destruct (list_databases_tree (utf8 (tenant cl)) (world x) Htp Hok) as ([Hd1 Hd2] & Hok' & Hoth).
    pose proof (list_databases_grows (utf8 (tenant cl)) (world x)) as (Hp & _). destruct (list_databases _ _) as [ns w]. injection Hex as _ <-.
    split; [done|done|intros q _; cbn in *; by rewrite Hd1, Hd2|]. intros n Hc. left. exists cl. split; [done|].
    destruct (decide (n = utf8 (tenant cl))) as [|Hne]; [done|]. by destruct Hc; apply Hoth.
  - destruct (split_tenant_user _ _). destruct (create_user _ _ _ _ _ _ _ _) as [r' a]. injection Hex as _ <-. by apply tree_kept_refl.
  - destruct (split_tenant_user _ _). destruct (delete_user _ _ _) as [r' a]. injection Hex as _ <-. by apply tree_kept_refl.
  - injection Hex as _ <-. by apply tree_kept_refl.
  - rewrite (on_world_world _ _ _ _ Hex). apply create_client_kept; [done|by right].
  - rewrite (on_world_world _ _ _ _ Hex). destruct (drop_client_tree (utf8 name) (world x) (Hn name eq_refl) Hok) as (Hk & Hok' & Hoth).
    eapply tree_kept_in; [exact Hk|done|done|apply drop_client_root|by right].
Qed.

(** C8: Commands stay with their tenant.  Whatever a command does, a database that changes
    was opened on the directory of the session's own tenant, under the session's current
    database or the name the command gives.  Directories appear and disappear only below
    the session's tenant, in the database that is current or that the command names
    (USE, CREATE DATABASE, DROP DATABASE), or below the tenant that CREATE TENANT, DROP
    TENANT or a LOGIN with the right password names; no other client's entry changes.  The
    session's identity changes only to that of a token the store verifies, and only by
    TOKEN or by LOGIN with the right password; its database only by USE; and users only by
    the commands that manage users.  Assumed: the names of the session's tenant, of the
    database the command works on and of a tenant to drop are valid names, which USE and
    DROP TENANT do not check. *)
Theorem execute_confined c x r x' :
  execute_command e co sn c x = (r, x') → cache_ok (world x) → clients_ok (world x) →
  (∀ cl, claims (session x) = Some cl → plain (utf8 (tenant cl))) →
  (∀ db, current_db (session x) = Some db ∨ named_db c = Some db → plain (utf8 db)) →
  (∀ n, c = DropTenant n → plain (utf8 n)) →
  confined e c x x' ∧ tree_kept (tree_scope c (session x)) (owns c (session x)) (world x) (world x') ∧
  (∀ t u p, c = Login t u p → world x' ≠ world x → ∃ tokens, authenticate (now e) t u p (auth x) = Ok tokens).
Proof.
  intros Hex Hok Hcl Ht Hd Hn. split_and!; [by eapply execute_touches|by eapply execute_tree|].
  intros t u p -> Hw. cbn [execute_command] in Hex. unfold run_login in Hex.
  destruct (authenticate _ _ _ _ _) as [tokens|err|]; [by exists tokens|injection Hex as _ <-; done..].
Qed.
End execute.

(** ** A database in memory, for examples *)

Abbreviation MemDb := (gmap bytes (list (bytes * Value))).

Definition mem_rows {A} (coll : bytes) (f : list (bytes * Value) → outcome GrumpyError A) : ST MemDb GrumpyError A := λ d,
  match d !! coll with Some rows => (f rows, d) | None => (Err (CollectionNotFound coll), d) end.
Definition mem_set (coll : bytes) (rows : list (bytes * Value)) : ST MemDb GrumpyError unit := st_modify (λ d, <[coll := rows]> d).
Definition mem_insert (coll u : bytes) (v : Value) : ST MemDb GrumpyError unit :=
  rows ← mem_rows coll (λ rows, if bt_get u rows then Err (DuplicateKey u) else Ok rows); mem_set coll (bt_insert u v rows).
Definition mem_update (coll u : bytes) (v : Value) : ST MemDb GrumpyError unit :=
  rows ← mem_rows coll (λ rows, if bt_get u rows then Ok rows else Err (KeyNotFound u)); mem_set coll (bt_insert u v rows).
Definition mem_delete (coll u : bytes) : ST MemDb GrumpyError unit :=
  rows ← mem_rows coll (λ rows, if bt_get u rows then Ok rows else Err (KeyNotFound u)); mem_set coll (bt_remove u rows).
Definition mem_create (coll : bytes) : ST MemDb GrumpyError unit := λ d,
  match d !! coll with
  | Some _ => (Err (CollectionNotFound (str "collection '" ++ coll ++ str "' already exists")), d)
  | None => (Ok tt, <[coll := []]> d)
  end.

(** Its indexes, of any name, are on the whole document. *)
Definition mem_ops : DbOps MemDb := {|
  db_create_collection := mem_create;
  db_drop_collection coll := _ ← mem_rows coll Ok; st_modify (delete coll);
  db_list_collections d := sort_names (map_to_list d).*1;
  db_insert := mem_insert;
  db_get coll u := mem_rows coll (λ rows, Ok (bt_get u rows));
  db_update := mem_update;
  db_delete := mem_delete;
  db_scan coll _ _ := mem_rows coll Ok;
  db_count coll := mem_rows coll (λ rows, Ok (Z.of_nat (length rows)));
  db_create_index coll _ _ := mem_rows coll (λ _, Ok tt);
  db_drop_index coll _ := mem_rows coll (λ _, Ok tt);
  db_list_indexes coll := mem_rows coll (λ _, Ok []);
  db_query coll _ _ := mem_rows coll Ok;
  db_query_range coll _ _ _ := mem_rows coll Ok;
  db_compact coll := mem_rows coll (λ rows, Ok (Z.of_nat (length rows)));
  db_flush := mret tt;
  db_index_field_path coll _ := mem_rows coll (λ _, Ok []);
  db_snapshot_hlc := mret 0;
  db_consistency_defaults _ := (None, None);
  db_set_consistency_defaults _ _ := mret tt;
|}.

(** Keys are their own UUIDs, and any text is the JSON string of it. *)
Definition mem_env : Env_ MemDb :=
  mkExecEnv 1000 [] (λ _, true) (λ _, ∅) Ok (λ b, Ok (JString b)) (λ j, match j with JString b => b | _ => [] end)
    [] (λ _, []) (λ _, []) (λ _, []) (λ _, []) (λ _, []) (λ _ _, []).

Definition mem_session : SessionContext := mkSession (Some (mkClaims (txt "bob") (txt "alice") [mkRole ReadWrite STenant])) (Some (txt "app")).
Definition mem_store : AuthStore := mkStore (mkDir ∅ None None ∅ None) (new_hs256 [] 60 600) [].
Definition mem_exec (d : MemDb) : Exec MemDb := mkExec mem_session mem_store (database (str "alice") (str "app") (demo_db demo_world)).2 {[1%nat := d]}.

Definition mem_coordinator : Coordinator := from_config (H := Ring.demo) (str "A") (mkCluster 1 [] [] 500 1000) (str "h:0") 10.

Lemma database_cache_ok c d w : cache_ok w → cache_ok (database c d w).2.
Proof.
  intros Hok. unfold database. destruct (database_cached c d w); [done|]. destruct (database_open c d w) as [r w'] eqn:Ho. by eapply database_open_spec.
Qed.

Lemma mem_cache_ok d : cache_ok (world (mem_exec d)).
Proof.
  apply database_cache_ok. eapply tree_call_cache_ok; [apply (tc_create_database _ (str "alice") (str "app"))|].
  eapply tree_call_cache_ok; [apply (tc_create_client _ (str "alice"))|]. apply server_open_cache_ok.
Qed.

Lemma mem_clients_ok d : clients_ok (world (mem_exec d)).
Proof. apply database_tree; [reflexivity|reflexivity|apply demo_clients_ok]. Qed.

(** An insert changes the open database only; DROP DATABASE removes its directory and no
    other. *)
Lemma execute_confined_witness :
  let U := uuid_plain in let B := base64_plain in let K := toy_crates in let R := Ring.demo in let J := plain_json in let O := mem_ops in
  let c := Insert (txt "users") (txt "k") (txt "v") in
  let x := mem_exec {[str "users" := []]} in
  let out := execute_command mem_env mem_coordinator None c x in
  let drop := DropDatabase (txt "app") in
  let out' := execute_command mem_env mem_coordinator None drop x in
  map_to_list <$> dbs out.2 !! 1%nat = Some [(str "users", [(str "k", VString (str "v"))])] ∧ confined mem_env c x out.2 ∧
  bool_decide ([str "data"; str "alice"; str "app"] ∈ dirs (world out'.2)) = false ∧
  tree_kept (Some [str "alice"; str "app"]) (owns drop (session x)) (world x) (world out'.2).
Proof.
  intros U B K R J O c x out drop out'. split; [vm_compute; reflexivity|].
  assert (Ht : ∀ cl, claims (session x) = Some cl → plain (utf8 (tenant cl))) by (intros cl [= <-]; vm_compute; reflexivity).
  split; [|split; [vm_compute; reflexivity|]].
  - apply (execute_confined mem_env mem_coordinator None c x out.1 out.2);
      [apply surjective_pairing|apply mem_cache_ok|apply mem_clients_ok|exact Ht| |intros n [=]].
    intros db [[= <-]|[=]]. vm_compute. reflexivity.
  - apply (execute_confined mem_env mem_coordinator None drop x out'.1 out'.2);
      [apply surjective_pairing|apply mem_cache_ok|apply mem_clients_ok|exact Ht| |intros n [=]].
    intros db [[= <-]|[=]]. vm_compute. reflexivity.
Defined.
