(* ===== verification/Shared.v ===== *)
(** * The database behind a session (src/concurrency/shared.rs, [SharedDatabase])

    A [SharedDatabase] forwards every call to its [Database] under the lock, which makes a
    call an atomic step.  [shared_ops] are these calls as the operations a session asks of a
    database; what a call meets outside the program (clocks, the order of hash maps, the
    contents of the files it opens, the fuel of its loops) is the context of the section.
    A call that runs out of fuel counts as a panic, which the theorem excludes. *)

From stdpp Require Import gmap.
From S2P Require Import Prelude RustStd Value Codec Page PageManager Overflow BufferPool Hlc WalWriter AppliedSet BTreeNode BTree BTreeSpec Index Collection CollectionSpec CollectionIndex Crdt Naming Mvcc Database DatabaseSpec.
From S2P Require Import Schema Command Auth Parser Response Ring Coordinator Handler JsonValue AuthStore AuthStoreSpec Server Exec.

Local Open Scope Z_scope.

Section shared.
Context {C : Crc32} (env : Env) (data_file index_file : bytes → option bytes) (index_store : PageManager)
  (data_tmp index_tmp : option bytes) (residue : SecondaryIndex PageManager → PageManager).

Definition locked {A} (m : FT (Database PageManager) GrumpyError A) : ST (Database PageManager) GrumpyError A := λ d,
  match m d with Some r => r | None => (Panic, d) end.

(** [guard.collection(collection)?.list_indexes()] *)
Definition list_indexes (collection : bytes) : FT (Database PageManager) GrumpyError (list bytes) :=
  coll_call collection (λ c, Some (Ok (si_name <$> secondary_indexes c), c)).

(** [db.begin_read().snapshot_hlc()]: the transaction ends with the statement. *)
Definition snapshot_hlc : FT (Database PageManager) GrumpyError Z :=
  snapshot ← begin_read; _ ← drop_read_tx snapshot; mret snapshot.

Definition shared_ops : DbOps (Database PageManager) := {|
  db_create_collection name := locked (create_collection name (data_file name) (index_file name));
  db_drop_collection name := locked (drop_collection name);
  db_list_collections := list_collections;
  db_insert coll u v := locked (Database.insert env coll u v);
  db_get coll u := locked (Database.get env coll u);
  db_update coll u v := locked (Database.update env coll u v);
  db_delete coll u := locked (Database.delete env coll u);
  db_scan coll lo hi := locked (Database.scan env coll lo hi);
  db_count coll := locked (document_count coll);
  db_create_index coll name path := locked (create_index env coll name path index_store);
  db_drop_index coll name := locked (drop_index coll name);
  db_list_indexes coll := locked (list_indexes coll);
  db_query coll name v := locked (query env coll name v);
  db_query_range coll name a b := locked (query_range env coll name a b);
  db_compact coll := locked (Database.compact env coll data_tmp index_tmp residue);
  db_flush := locked (Database.flush env);
  db_index_field_path coll name := locked (index_field_path coll name);
  db_snapshot_hlc := locked snapshot_hlc;
  db_consistency_defaults := consistency_defaults;
  db_set_consistency_defaults r w := locked (set_consistency_defaults r w);
|}.
End shared.

(** ** Sessions store documents *)

Section session.
Context `{UuidText, Base64, AuthCrates, RingHash, JsonPayloads} {C : Crc32}.
Context (data_file index_file : bytes → option bytes) (index_store : PageManager)
  (data_tmp index_tmp : option bytes) (residue : SecondaryIndex PageManager → PageManager).
Context (e : Env_ (Database PageManager)) (co : Coordinator) (s : SessionContext).
Abbreviation ops env := (shared_ops env data_file index_file index_store data_tmp index_tmp residue).

(** A command that writes one document, as a call on the database. *)
Definition write_run (O : DbOps (Database PageManager)) (c : Command) : option (ST (Database PageManager) bytes Response) :=
  match c with
  | Command.Insert coll key value => Some (run_insert e co s coll key value)
  | Command.Update coll key value => Some (run_update e co s coll key value)
  | Command.Delete coll key => Some (run_delete e co s coll key)
  | _ => None
  end.

(** The call it makes, when its key and value parse and this node may write it. *)
Definition write_op (c : Command) : outcome bytes db_op :=
  match c with
  | Command.Insert coll key value =>
      _ ← enforce e co enforce_local_write_replica s coll key;
      u ← parse_uuid e (utf8 key); v ← parse_json_value e (utf8 value); Ok (OInsert (utf8 coll) u v)
  | Command.Update coll key value =>
      _ ← enforce e co enforce_local_write_replica s coll key;
      u ← parse_uuid e (utf8 key); v ← parse_json_value e (utf8 value); Ok (OUpdate (utf8 coll) u v)
  | Command.Delete coll key =>
      _ ← enforce e co enforce_local_write_replica s coll key;
      u ← parse_uuid e (utf8 key); Ok (ODelete (utf8 coll) u)
  | _ => Err []
  end.

Definition written {A} (r : res A) : outcome bytes Response :=
  match r with Ok _ => Ok ok_response | Err err => Err (display (io_text e) err) | Panic => Panic end.

Lemma done_call (m : FT (Database PageManager) GrumpyError unit) d r d1 :
  (_ ← m; mret DbDone) d = Some (r, d1) → ∃ r0, m d = Some (r0, d1) ∧ written r = written r0.
Proof. unfold mbind, ft_bind. destruct (m d) as [[[[]|err|] d']|]; intros [= <- <-]; eexists; split; reflexivity. Qed.

Lemma write_run_ok env c op run d r d1 :
  write_run (ops env) c = Some run → write_op c = Ok op → run_op env op d = Some (r, d1) → run d = (written r, d1).
Proof.
  intros Hrun Hop Hd. unfold write_run in Hrun. destruct c; try done; injection Hrun as <-; cbn in Hop.
  - unfold run_insert, mbind, st_bind, st_lift, s_, st_map_err. destruct (enforce _ _ _ _ _ _) as [[]|m|]; [|done..]. cbn in Hop.
    destruct (parse_uuid _ _) as [u|m|]; [|done..]. cbn in Hop. destruct (parse_json_value _ _) as [v|m|]; [|done..]. injection Hop as <-. cbn [run_op] in Hd. apply done_call in Hd as (r0 & Hd & ->).
    cbn. unfold locked. rewrite Hd. by destruct r0 as [[]|err|].
  - unfold run_update, mbind, st_bind, st_lift, s_, st_map_err. destruct (enforce _ _ _ _ _ _) as [[]|m|]; [|done..]. cbn in Hop.
    destruct (parse_uuid _ _) as [u|m|]; [|done..]. cbn in Hop. destruct (parse_json_value _ _) as [v|m|]; [|done..]. injection Hop as <-. cbn [run_op] in Hd. apply done_call in Hd as (r0 & Hd & ->).
    cbn. unfold locked. rewrite Hd. by destruct r0 as [[]|err|].
  - unfold run_delete, mbind, st_bind, st_lift, s_, st_map_err. destruct (enforce _ _ _ _ _ _) as [[]|m|]; [|done..]. cbn in Hop.
    destruct (parse_uuid _ _) as [u|m|]; [|done..]. injection Hop as <-. cbn [run_op] in Hd. apply done_call in Hd as (r0 & Hd & ->).
    cbn. unfold locked. rewrite Hd. by destruct r0 as [[]|err|].
Qed.

Definition shown_json (v : option Value) : Response := RBulk ((λ v, json_print e (value_to_serde_json v)) <$> v).

End session.

(** ** Evaluation *)

(** Keys are their own UUIDs, and every JSON text is the number 5. *)
Definition five_env (d : Database PageManager) : Env_ (Database PageManager) :=
  mkExecEnv 0 [] (λ _, true) (λ _, d) Ok (λ _, Ok (JNumber (NInt 5))) (λ _, str "5") [] (λ _, []) (λ _, []) (λ _, []) (λ _, []) (λ _, []) (λ _ _, []).

