(* ===== verification/VerifiedQuery.v ===== *)
(** * Verified index queries (grumpydb-server/src/tcp/handler.rs)

    QUERY and QUERYRANGE with a read concern above one: the candidates of the local index
    and of the replicas are collected, every candidate is read from its replicas, and the
    documents that really match are returned.  [Peers] is what the other nodes answer. *)

From stdpp Require Import gmap.
From S2P Require Import Prelude RustStd Value Crdt AppliedSet Index Database Schema Collection Command Auth Parser Response Ring Coordinator Handler JsonValue AuthStore AuthStoreSpec Server Exec.

Local Open Scope Z_scope.

Definition INDEX_NOT_YET_MATERIALIZED_PREFIX : bytes := str "index_not_yet_materialized:".
Definition VERIFIED_QUERY_MAX_CANDIDATES : nat := 4096.

Record PeerCandidateFanout := mkFanout { new_candidates : list bytes; skipped_peers : list bytes }.

(** The answers of peers, by address: acknowledgements of probes, the value of a key, and
    the candidates of the query at the first and at the second attempt. *)
Record Peers := mkPeers {
  probe : bytes → bool;
  peer_value : bytes → bytes → outcome bytes (option bytes);
  peer_candidates : nat → bytes → outcome bytes (list bytes);
}.

(** [skipped.join(",")] in the warning *)
Definition format_skip_warning (skipped : list bytes) : bytes :=
  str "_warning convergence: " ++ dec (Z.of_nat (length skipped)) ++ str " peer(s) not yet materialized: [" ++ join_with (str ",") skipped ++ str "]".

Section verify.
Context `{UuidText, Base64, AuthCrates, RingHash, JsonPayloads} {D : Type} `{DbOps D} (e : Env_ D) (co : Coordinator) (p : Peers).

(** ** Candidates *)

Fixpoint parse_candidates (node : bytes) (keys : list bytes) : outcome bytes (list bytes) :=
  match keys with
  | [] => Ok []
  | key :: keys =>
      match uuid_parse e key with
      | Ok id => ids ← parse_candidates node keys; Ok (id :: ids)
      | Err err => Err (str "verified query received invalid candidate key from peer " ++ node ++ str ": " ++ err)
      | Panic => Panic
      end
  end.

Fixpoint collect_peer_candidates (remote : list (bytes * outcome bytes (list bytes))) : outcome bytes PeerCandidateFanout :=
  match remote with
  | [] => Ok (mkFanout [] [])
  | (node, res) :: remote =>
      match res with
      | Ok keys =>
          ids ← parse_candidates node keys;
          f ← collect_peer_candidates remote;
          Ok (mkFanout (ids ++ new_candidates f) (skipped_peers f))
      | Err err =>
          if decide (INDEX_NOT_YET_MATERIALIZED_PREFIX `prefix_of` err) then
            f ← collect_peer_candidates remote;
            Ok (mkFanout (new_candidates f) (node :: skipped_peers f))
          else Err (str "verified query failed to fetch candidates from peer " ++ node ++ str ": " ++ err)
      | Panic => Panic
      end
  end.

(** ** The document of a candidate *)

(** The values the replicas returned; one that failed fails the query. *)
Fixpoint replica_values (remote : list (bytes * outcome bytes (option bytes))) : outcome bytes (list bytes) :=
  match remote with
  | [] => Ok []
  | (node, res) :: remote =>
      match res with
      | Ok v => vs ← replica_values remote; Ok (option_list v ++ vs)
      | Err err => Err (str "verified query failed to read candidate from peer " ++ node ++ str ": " ++ err)
      | Panic => Panic
      end
  end.

Definition decide_document (values : list bytes) : outcome bytes (option Value) :=
  match values with
  | [] => Ok None
  | _ => v ← parse_json_value e (choose_canonical_json values); Ok (Some v)
  end.

Definition resolve_quorum_document_for_key (db coll key : bytes) : ST D bytes (option Value) :=
  uuid ← st_lift (parse_uuid e key);
  local ← s_ e (db_get coll uuid);
  remote ← st_lift (replica_values (fanout_read_peer_values (peer_value p key) (mkKey db coll key) co));
  st_lift (decide_document (option_list ((λ v, json_print e (value_to_serde_json v)) <$> local) ++ remote)).

(** ** The loop over the candidates *)

Definition key_of (id : bytes) : bytes := uuid_text (as_u128 id).

Definition read_acks (rc : concern) (db coll key : bytes) : outcome bytes unit :=
  match Coordinator.wait_for_read_ack_quorum (probe p) (mkKey db coll key) (nat_concern rc) co with
  | Ok _ => Ok tt
  | Err err => Err (show_coord_error e err)
  | Panic => Panic
  end.

Fixpoint verify_ids (rc : concern) (db coll : bytes) (matches : Value → bool) (ids : list bytes) : ST D bytes (list Response) :=
  match ids with
  | [] => mret []
  | id :: ids =>
      let key := key_of id in
      _ ← st_lift (read_acks rc db coll key);
      doc ← resolve_quorum_document_for_key db coll key;
      items ← verify_ids rc db coll matches ids;
      mret (match doc with Some doc => if matches doc then row e (id, doc) :: items else items | None => items end)
  end.

(** What QUERY and QUERYRANGE share: collect, once more after a pause when a peer was not
    ready, and verify. *)
Definition verify_candidates (rc : concern) (db coll : bytes) (ask : nat → list (bytes * outcome bytes (list bytes))) (local_ids : list bytes)
    (matches : Value → bool) : ST D bytes Response :=
  first ← st_lift (collect_peer_candidates (ask 0%nat));
  fanout ← st_lift (if decide (skipped_peers first = []) then Ok first else collect_peer_candidates (ask 1%nat));
  let candidates : gset bytes := list_to_set (local_ids ++ new_candidates fanout) in
  if decide (VERIFIED_QUERY_MAX_CANDIDATES < size candidates)%nat then
    st_fail (str "verified query candidate limit exceeded: " ++ dec (Z.of_nat (size candidates)) ++ str " > " ++ dec (Z.of_nat VERIFIED_QUERY_MAX_CANDIDATES))
  else
    items ← verify_ids rc db coll matches (sort_names (elements candidates));
    mret (RArray (items ++ (if decide (skipped_peers fanout = []) then [] else [bulk (format_skip_warning (skipped_peers fanout))]))).

(** The nodes that are asked: the replicas of the key made of the query's text. *)
Definition ask_peers (c : Command) (db coll : bytes) (attempt : nat) : list (bytes * outcome bytes (list bytes)) :=
  fanout_read_peer_values (peer_candidates p attempt) (mkKey db coll (default [] (query_route_key c))) co.

Definition equals_expected (field_path : bytes) (expected doc : Value) : bool :=
  match extract_field doc field_path with Some v => value_eqb v expected | None => false end.

Definition within_range (field_path lo hi : bytes) (doc : Value) : bool :=
  match extract_field doc field_path with
  | Some v => match encode_sortable_value v with Ok k => kleb lo k && kltb k hi | _ => false end
  | None => false
  end.

Definition response_error_internal : Response := RError (str "internal error: unsupported verified query command").

Definition verify_query (rc : concern) (db : chars) (c : Command) : ST D bytes Response :=
  match base_command c with
  | Query coll index value =>
      expected ← st_lift (parse_json_value e (utf8 value));
      field_path ← s_ e (db_index_field_path (utf8 coll) (utf8 index));
      rows ← s_ e (db_query (utf8 coll) (utf8 index) expected);
      verify_candidates rc (utf8 db) (utf8 coll) (ask_peers c (utf8 db) (utf8 coll)) rows.*1 (equals_expected field_path expected)
  | QueryRange coll index start end_ =>
      start_value ← st_lift (parse_json_value e (utf8 start));
      end_value ← st_lift (parse_json_value e (utf8 end_));
      start_encoded ← s_ e (st_lift (encode_sortable_value start_value));
      end_encoded ← s_ e (st_lift (encode_sortable_value end_value));
      field_path ← s_ e (db_index_field_path (utf8 coll) (utf8 index));
      rows ← s_ e (db_query_range (utf8 coll) (utf8 index) start_value end_value);
      verify_candidates rc (utf8 db) (utf8 coll) (ask_peers c (utf8 db) (utf8 coll)) rows.*1 (within_range field_path start_encoded end_encoded)
  | _ => mret response_error_internal
  end.

(** ** Consistency of the session's database *)

(** [effective_consistency_values], on the databases: reading the defaults opens the
    database of the session when it is not open yet. *)
Definition effective_values (c : Command) (x : Exec D) : outcome bytes (concern * concern) * Exec D :=
  let '(explicit_read, explicit_write) := consistency_values c in
  if bool_decide (is_Some explicit_read) || bool_decide (is_Some explicit_write) then (Ok (explicit_read, explicit_write), x)
  else match current_db (session x) with
       | None => (Ok (None, None), x)
       | Some db =>
           match session_tenant (session x) with
           | Ok tenant =>
               match handle (utf8 tenant) (utf8 db) x with
               | (Ok i, x) => (Ok (db_consistency_defaults (instance_of e i x)), x)
               | (Err err, x) => (Err (display (io_text e) err), x)
               | (Panic, x) => (Panic, x)
               end
           | Err err => (Err (show_auth_error e err), x)
           | Panic => (Panic, x)
           end
       end.

Definition verify_index_query_quorum (c : Command) : Exec D → option Response * Exec D := λ x,
  match effective_values c x with
  | (Ok (rc, _), x) =>
      match current_db (session x) with
      | None => (Some (RError no_database), x)
      | Some db => with_tenant e (λ tenant, on_database e tenant db (verify_query rc db c)) x
      end
  | (Err msg, x) => (Some (RError msg), x)
  | (Panic, x) => (None, x)
  end.
End verify.

(** ** What a verified query returns *)

Lemma sort_names_perm l : sort_names l ≡ₚ l.
Proof. induction l as [|n l IH]; [done|]. cbn [sort_names foldr]. rewrite vec_insert_perm. by f_equiv. Qed.

Lemma sort_names_sorted l : StronglySorted kle (sort_names l).
Proof. induction l as [|n l IH]; [constructor|]. cbn [sort_names foldr]. by apply vec_insert_sorted. Qed.

Lemma sorted_sublist (l k : list bytes) : l `sublist_of` k → StronglySorted kle k → StronglySorted kle l.
Proof.
  induction 1 as [|x l k Hs IH|x l k Hs IH]; intros Hk; [done|..]; apply StronglySorted_inv in Hk as [Hk Hall]; [|auto].
  constructor; [auto|]. rewrite Forall_forall in Hall |- *. intros y Hy. apply Hall. by eapply elem_of_submseteq; [|apply sublist_submseteq].
Qed.

Section answers.
Context `{UuidText, Base64, AuthCrates, RingHash, JsonPayloads} {D : Type} `{DbOps D} (e : Env_ D) (co : Coordinator) (p : Peers).
(** The states of the local database in which [coll] holds the documents [view]: reading a
    document returns it and leads to such a state again. *)
Context (db coll : bytes) (view : bytes → option Value) (I : D → Prop).
Context (read_ok : ∀ d u, I d → ∃ d', db_get coll u d = (Ok (view u), d') ∧ I d').

(** What the other replicas of [key] answered, and the documents among the answers. *)
Definition peer_reads (key : bytes) : list (bytes * outcome bytes (option bytes)) := fanout_read_peer_values (peer_value p key) (mkKey db coll key) co.
Definition peer_documents (key : bytes) : list bytes := omap (λ r, match r.2 with Ok v => v | _ => None end) (peer_reads key).

(** The document the node and the replicas of [key] agree on, or choose; [None] when one of
    the replicas did not answer. *)
Definition agreed (key : bytes) : option (option Value) :=
  match parse_uuid e key with
  | Ok uuid =>
      if forallb (λ r, match r.2 with Ok _ => true | _ => false end) (peer_reads key) then
        match option_list ((λ v, json_print e (value_to_serde_json v)) <$> view uuid) ++ peer_documents key with
        | [] => Some None
        | values => match parse_json_value e (choose_canonical_json values) with Ok v => Some (Some v) | _ => None end
        end
      else None
  | _ => None
  end.

Lemma replica_values_spec l :
  match replica_values l with
  | Ok vs => forallb (λ r, match r.2 with Ok _ => true | _ => false end) l = true ∧ vs = omap (λ r, match r.2 with Ok v => v | _ => None end) l
  | _ => forallb (λ r : bytes * outcome bytes (option bytes), match r.2 with Ok _ => true | _ => false end) l = false
  end.
Proof.
  induction l as [|[node [v|err|]] l IH]; [done| |done..]. cbn [replica_values forallb omap list_omap]. cbn [snd andb].
  destruct (replica_values l) as [vs|err|]; cbn [mbind outcome_bind]; [|done..]. destruct IH as [Hall ->]. split; [done|]. by destruct v.
Qed.

Lemma resolve_ok key d : I d →
  ∃ r d', resolve_quorum_document_for_key e co p db coll key d = (r, d') ∧ I d' ∧ agreed key = match r with Ok doc => Some doc | _ => None end.
Proof.
  intros Hd. unfold resolve_quorum_document_for_key, agreed, st_lift, mbind, st_bind, outcome_bind, s_, st_map_err.
  destruct (parse_uuid e key) as [uuid|err|]; [|by do 2 eexists..]. destruct (read_ok d uuid Hd) as (d' & -> & Hd').
  pose proof (replica_values_spec (peer_reads key)) as Hr. fold (peer_reads key). destruct (replica_values _) as [vs|err|]; [|by rewrite Hr; do 2 eexists..].
  destruct Hr as [-> ->]. fold (peer_documents key). do 2 eexists. split_and!; [done..|]. unfold decide_document. destruct (_ ++ _); [done|].
  by destruct (parse_json_value _ _).
Qed.

(** A candidate that can be verified: enough replicas confirm the read, and they agree. *)
Definition verifiable (rc : concern) (id : bytes) : Prop :=
  read_acks e co p rc db coll (key_of id) = Ok tt ∧ is_Some (agreed (key_of id)).

(** The matching documents of the candidates, in their order. *)
Definition found (matches : Value → bool) (ids : list bytes) : list (bytes * Value) :=
  omap (λ id, match agreed (key_of id) with Some (Some doc) => if matches doc then Some (id, doc) else None | _ => None end) ids.

Lemma verify_ids_ok rc matches ids d : I d →
  match verify_ids e co p rc db coll matches ids d with
  | (Ok items, d') => I d' ∧ items = row e <$> found matches ids ∧ Forall (verifiable rc) ids
  | _ => ¬ Forall (verifiable rc) ids
  end.
Proof.
  revert d. induction ids as [|id ids IH]; intros d Hd; cbn [verify_ids]; [done|].
  unfold st_lift at 1, mbind at 1, st_bind at 1. destruct (read_acks e co p rc db coll (key_of id)) as [[]|err|] eqn:Hack;
    [|by intros [[Ha _] _]%Forall_cons; rewrite Hack in Ha..].
  unfold mbind at 1, st_bind at 1. destruct (resolve_ok (key_of id) d Hd) as (r & d1 & -> & Hd1 & Hag).
  destruct r as [doc|err|]; [|by intros [[_ [? Ha]] _]%Forall_cons; rewrite Hag in Ha..].
  unfold mbind at 1, st_bind at 1. specialize (IH d1 Hd1). destruct (verify_ids e co p rc db coll matches ids d1) as [[rest|err|] d2];
    [|by intros [_ Hall]%Forall_cons..]. destruct IH as (Hd2 & -> & Hall). split_and!; [done| |].
  - unfold found. cbn [omap list_omap]. rewrite Hag. destruct doc as [doc|]; [destruct (matches doc)|]; done.
  - constructor; [|done]. split; [done|]. by rewrite Hag.
Qed.

Lemma found_elem matches ids id doc :
  (id, doc) ∈ found matches ids ↔ id ∈ ids ∧ agreed (key_of id) = Some (Some doc) ∧ matches doc = true.
Proof.
  unfold found. rewrite list_elem_of_omap. split.
  - intros (id' & Hin & Heq). destruct (agreed (key_of id')) as [[doc'|]|] eqn:Hag; try done. destruct (matches doc') eqn:Hm; [|done]. by injection Heq as <- <-.
  - intros (Hin & Hag & Hm). exists id. split; [done|]. by rewrite Hag, Hm.
Qed.

Lemma found_sublist matches ids : (found matches ids).*1 `sublist_of` ids.
Proof.
  induction ids as [|id ids IH]; [done|]. unfold found. cbn [omap list_omap]. fold (found matches ids).
  destruct (agreed (key_of id)) as [[doc|]|]; [destruct (matches doc)|..]; cbn; by constructor.
Qed.

(** *** One round of questions *)

Definition is_key (key : bytes) : Prop := ∃ id, uuid_parse e key = Ok id.

(** A peer may answer keys, or that it has not built the index; anything else is a failure. *)
Definition acceptable (answer : bytes * outcome bytes (list bytes)) : Prop :=
  match answer.2 with
  | Ok keys => Forall is_key keys
  | Err err => INDEX_NOT_YET_MATERIALIZED_PREFIX `prefix_of` err
  | Panic => False
  end.

(** The ids that were sent, and the peers that are behind. *)
Definition sent_ids (keys : list bytes) : list bytes := omap (λ key, match uuid_parse e key with Ok id => Some id | _ => None end) keys.
Definition offered (answers : list (bytes * outcome bytes (list bytes))) : list bytes :=
  answers ≫= λ a, match a.2 with Ok keys => sent_ids keys | _ => [] end.
Definition behind (answers : list (bytes * outcome bytes (list bytes))) : list bytes :=
  omap (λ a, match a.2 with Err err => if decide (INDEX_NOT_YET_MATERIALIZED_PREFIX `prefix_of` err) then Some a.1 else None | _ => None end) answers.

Lemma parse_candidates_spec node keys :
  match parse_candidates e node keys with Ok ids => ids = sent_ids keys ∧ Forall is_key keys | _ => ¬ Forall is_key keys end.
Proof.
  induction keys as [|key keys IH]; cbn [parse_candidates]; [done|]. unfold sent_ids. cbn [omap list_omap]. fold (sent_ids keys).
  destruct (uuid_parse e key) as [id|err|] eqn:Hk; [|by intros [[? Hx] _]%Forall_cons; rewrite Hk in Hx..].
  destruct (parse_candidates e node keys) as [ids|err|]; cbn [mbind outcome_bind]; [|by intros [_ Hall]%Forall_cons..].
  destruct IH as [-> Hall]. split; [done|]. constructor; [by exists id|done].
Qed.

Lemma collect_spec remote :
  match collect_peer_candidates e remote with
  | Ok f => f = mkFanout (offered remote) (behind remote) ∧ Forall acceptable remote
  | _ => ¬ Forall acceptable remote
  end.
Proof.
  induction remote as [|[node res] remote IH]; cbn [collect_peer_candidates]; [done|]. destruct res as [keys|err|].
  - pose proof (parse_candidates_spec node keys) as Hp. destruct (parse_candidates e node keys) as [ids|err|];
      cbn [mbind outcome_bind]; [|by intros [Hx _]%Forall_cons..].
    destruct (collect_peer_candidates e remote) as [f|err|]; cbn [mbind outcome_bind]; [|by intros [_ Hx]%Forall_cons..].
    destruct Hp as [-> Hkeys], IH as [-> Hall]. split; [done|]. by constructor.
  - case_decide as Hpre; [|by intros [Hx _]%Forall_cons]. destruct (collect_peer_candidates e remote) as [f|er|]; cbn [mbind outcome_bind];
      [|by intros [_ Hx]%Forall_cons..]. destruct IH as [-> Hall]. split; [|by constructor].
    unfold behind. cbn [omap list_omap snd fst]. by rewrite decide_True.
  - by intros [Hx _]%Forall_cons.
Qed.

(** The round that counts: the second when a peer was behind in the first. *)
Definition last_round (ask : nat → list (bytes * outcome bytes (list bytes))) : nat := if decide (behind (ask 0%nat) = []) then 0 else 1.

(** The candidates of a query, in the order of their ids. *)
Definition candidates_of (ask : nat → list (bytes * outcome bytes (list bytes))) (local_ids : list bytes) : list bytes :=
  sort_names (elements (list_to_set (local_ids ++ offered (ask (last_round ask))) : gset bytes)).

(** Nothing failed: every peer that was asked answered acceptably, the candidates are not
    too many, and each can be verified. *)
Record complete (rc : concern) (ask : nat → list (bytes * outcome bytes (list bytes))) (local_ids : list bytes) : Prop := {
  first_answers : Forall acceptable (ask 0%nat);
  last_answers : Forall acceptable (ask (last_round ask));
  not_too_many : (length (candidates_of ask local_ids) ≤ VERIFIED_QUERY_MAX_CANDIDATES)%nat;
  all_verifiable : Forall (verifiable rc) (candidates_of ask local_ids);
}.

Lemma verify_candidates_ok rc ask local_ids matches d : I d →
  match verify_candidates e co p rc db coll ask local_ids matches d with
  | (Ok resp, d') => I d' ∧ complete rc ask local_ids ∧
      resp = RArray ((row e <$> found matches (candidates_of ask local_ids)) ++
        (if decide (behind (ask (last_round ask)) = []) then [] else [bulk (format_skip_warning (behind (ask (last_round ask))))]))
  | _ => ¬ complete rc ask local_ids
  end.
Proof.
  intros Hd. unfold verify_candidates, st_lift. unfold mbind at 1, st_bind at 1.
  pose proof (collect_spec (ask 0%nat)) as H0x. destruct (collect_peer_candidates e (ask 0%nat)) as [first|err|] eqn:Hfirst; [|by intros []..].
  destruct H0x as [-> Hacc0]. cbn [skipped_peers]. unfold mbind at 1, st_bind at 1.
  replace (if decide (behind (ask 0%nat) = []) then _ else _) with (collect_peer_candidates e (ask (last_round ask)))
    by (unfold last_round; by case_decide).
  pose proof (collect_spec (ask (last_round ask))) as Hl. destruct (collect_peer_candidates e (ask (last_round ask))) as [fan|err|]; [|by intros []..].
  destruct Hl as [-> Hacc]. cbn [new_candidates skipped_peers]. set (ids := sort_names _). change ids with (candidates_of ask local_ids). clear ids.
  assert (Hlen : length (candidates_of ask local_ids) = size (list_to_set (local_ids ++ offered (ask (last_round ask))) : gset bytes)).
  { unfold candidates_of. by rewrite sort_names_perm. }
  case_decide as Hmany; [intros []; lia|]. unfold mbind at 1, st_bind at 1.
  pose proof (verify_ids_ok rc matches (candidates_of ask local_ids) d Hd) as Hv.
  destruct (verify_ids _ _ _ _ _ _ _ _ _) as [[items|err|] d1]; [|by intros []..]. destruct Hv as (Hd1 & -> & Hall).
  split_and!; [done| |done]. constructor; [done..|lia|done].
Qed.

Lemma candidates_elem ask local_ids id : id ∈ candidates_of ask local_ids ↔ id ∈ local_ids ∨ id ∈ offered (ask (last_round ask)).
Proof. unfold candidates_of. by rewrite elem_of_sort_names, elem_of_elements, elem_of_list_to_set, elem_of_app. Qed.

(** C16: Verified queries are exact.  A verified query succeeds exactly when nothing failed:
    every peer that was asked for candidates sent keys or said that it has not built the
    index yet (any other error of a peer fails the query, in either round), there are at
    most 4096 candidates, and for each of them the read quorum acknowledged, every replica
    that was asked for the document answered, and the chosen document can be read.  Its rows
    are then exactly the candidates, of the local index or sent by a peer, whose agreed
    document matches the query: each once, in the order of their ids, with that document.
    When a peer had not built the index, the peers are asked once more, and those that still
    have not are named, and nobody else, in a last entry.  The peers that are asked are those
    of the query's own text (see [query_misses_owners]). *)
Theorem verified_query_exact rc ask local_ids matches d :
  I d →
  let k := last_round ask in
  let candidate id := id ∈ local_ids ∨ id ∈ offered (ask k) in
  let out := verify_candidates e co p rc db coll ask local_ids matches d in
  ((∃ resp d', out = (Ok resp, d')) ↔ complete rc ask local_ids) ∧
  (complete rc ask local_ids → ∃ rows d',
    out = (Ok (RArray ((row e <$> rows) ++ (if decide (behind (ask k) = []) then [] else [bulk (format_skip_warning (behind (ask k)))]))), d') ∧
    I d' ∧ StronglySorted kle rows.*1 ∧ NoDup rows.*1 ∧
    (∀ id doc, (id, doc) ∈ rows ↔ candidate id ∧ agreed (key_of id) = Some (Some doc) ∧ matches doc = true)).
Proof.
  intros Hd k candidate out. pose proof (verify_candidates_ok rc ask local_ids matches d Hd) as Hout. fold out in Hout. split.
  - split; [intros (resp & d' & Heq); rewrite Heq in Hout; by destruct Hout as (_ & Hc & _)|].
    intros Hc. destruct out as [[resp|err|] d'] eqn:Heq; [eauto|done..].
  - intros Hc. destruct out as [[resp|err|] d'] eqn:Heq; [|done..]. destruct Hout as (Hd' & _ & ->).
    exists (found matches (candidates_of ask local_ids)), d'. split_and!; [done..| | |].
    + eapply sorted_sublist; [apply found_sublist|apply sort_names_sorted].
    + eapply sublist_NoDup; [|apply found_sublist]. unfold candidates_of. rewrite sort_names_perm. apply NoDup_elements.
    + intros id doc. by rewrite found_elem, candidates_elem.
Qed.
End answers.

(** ** Who is asked *)

Definition sum_hash (b : bytes) : Z := foldr (λ x s, (b2z x + s) mod 100) 0 b.
Lemma sum_hash_u64 b : is_u64 (sum_hash b).
Proof. unfold is_u64. destruct b as [|x b]; cbn; [lia|]. pose proof (Z.mod_pos_bound (b2z x + sum_hash b) 100). unfold sum_hash in *. lia. Qed.
Definition sum_ring : RingHash := {| murmur3_hash := sum_hash; murmur3_u64 := sum_hash_u64 |}.

Definition seven : Coordinator :=
  from_config (H := sum_ring) (str "a")
    (mkCluster 1 ((λ n, mkPeerEntry (str n) (str "h") None None []) <$> ["k"; "u"; "J"; "T"; "1"; "9"]%string) [] 500 1000) (str "h:0") 10.

(** Only the replicas of the query's own text are asked for candidates.  In a cluster of
    seven nodes, node [a] answers this query without asking any replica of document [m]:
    the document is missed although all its replicas have it. *)
Lemma query_misses_owners :
  let R := sum_ring in let q := Query (txt "users") (txt "i") (txt "v") in
  let p := mkPeers (λ _, true) (λ _ _, Ok None) (λ _ _, Ok []) in
  (ask_peers seven p q (str "app") (str "users") 0).*1 = [str "J"; str "T"] ∧
  preference_list (ring seven) (mkKey (str "app") (str "users") (str "m")) (n seven) = [str "u"; str "1"; str "9"].
Proof. split; vm_compute; reflexivity. Qed.

Lemma verified_query_exact_witness :
  let U := uuid_plain in let B := base64_plain in let K := toy_crates in let R := sum_ring in let J := plain_json in let O := mem_ops in
  let d : MemDb := {[str "users" := [(str "k", VString (str "v"))]]} in
  let p := mkPeers (λ _, true) (λ _ _, Ok (Some (str "v"))) (λ _ _, Ok []) in
  let ask answer (_ : nat) := [(str "J", Ok [str "k2"]); (str "T", Err answer)] in
  let out answer := (verify_candidates mem_env seven p (Some 2) (str "app") (str "users") (ask answer) [str "k"] (λ _, true) d).1 in
  (∃ rows, out (INDEX_NOT_YET_MATERIALIZED_PREFIX ++ str "i") = Ok (RArray ((row mem_env <$> rows) ++ [bulk (format_skip_warning [str "T"])])) ∧
    (str "k2", VString (str "v")) ∈ rows) ∧
  out (str "disk full") = Err (str "verified query failed to fetch candidates from peer T: disk full").
Proof.
  intros U B K R J O d p ask out. split; [|vm_compute; reflexivity].
  destruct (verified_query_exact mem_env seven p (str "app") (str "users") (λ u, bt_get u [(str "k", VString (str "v"))]) (λ x, x = d)) with
    (rc := Some 2) (ask := ask (INDEX_NOT_YET_MATERIALIZED_PREFIX ++ str "i")) (local_ids := [str "k"]) (matches := λ _ : Value, true) (d := d) as [Hiff Hrows].
  - intros x u ->. exists d. split; [|done]. change (mem_rows (str "users") (λ rows, Ok (bt_get u rows)) d = (Ok (bt_get u [(str "k", VString (str "v"))]), d)).
    unfold mem_rows, d. by rewrite lookup_singleton_eq.
  - done.
  - destruct Hrows as (rows & d' & Hout & _ & _ & _ & Hin).
    { apply Hiff. destruct (verify_candidates _ _ _ _ _ _ _ _ _ _) as [r d'] eqn:Hout. apply (f_equal fst) in Hout. vm_compute in Hout. subst r. by do 2 eexists. }
    assert (Hbehind : behind (ask (INDEX_NOT_YET_MATERIALIZED_PREFIX ++ str "i") (last_round (ask (INDEX_NOT_YET_MATERIALIZED_PREFIX ++ str "i")))) = [str "T"])
      by (vm_compute; reflexivity).
    rewrite Hbehind in Hout. exists rows. split; [exact (f_equal fst Hout)|]. apply Hin. split_and!; [right; left|vm_compute; reflexivity|done].
Defined.
