(* ===== verification/Peer.v ===== *)
(** * The peer channel (grumpydb-server/src/cluster/handshake.rs)

    Nodes talk to each other over short connections: a framed JSON hello, the answer to it,
    one operation and its response.  [rpc] is such a connection between an initiator and the
    node [PeerNode] that serves it; the [*_peer_*] functions are the calls a coordinator
    makes.  UUIDs are 128-bit integers; the JSON of the messages is [PeerJson]. *)

From stdpp Require Import gmap.
From S2P Require Import Prelude RustStd Value Crdt AppliedSet Naming Schema SchemaSpec Collection Command Auth Parser Response Ring Coordinator Handler JsonValue AuthStore AuthStoreSpec Server Exec VerifiedQuery.

Local Open Scope Z_scope.

(** ** Messages *)

Definition GOSSIP_CAPABILITY : bytes := str "gossip-membership-v1".
Definition MAX_HELLO_BYTES : nat := Z.to_nat 65536.

Record Hello := mkHelloMsg { hi_cluster : Z; hi_node : Z; hi_version : bytes; hi_capabilities : list bytes; hi_gossip : ClusterHello; hi_schema : Z }.

Record HelloResponse := mkHelloResponse {
  hr_cluster : Z; hr_node : Z; hr_version : bytes; hr_accepted : bool; hr_error : option bytes; hr_schema : Z;
}.

Inductive PeerDataOp :=
| DGet (tenant database collection key : bytes)
| DUpsert (tenant database collection key value_json : bytes)
| DDelete (tenant database collection key : bytes)
| DCreateIndex (tenant database collection index_name field_path : bytes)
| DDropIndex (tenant database collection index_name : bytes)
| DQueryIndexExact (tenant database collection index_name value_json : bytes)
| DQueryIndexRange (tenant database collection index_name start_json end_json : bytes)
| DPullSchemaSince (since_version : Z).

Inductive PeerDataOpResponse :=
| RespValue (value_json : option bytes)
| RespKeys (keys : list bytes)
| RespAck
| RespError (message : bytes)
| RespSchemaDiff (entries : list SchemaLogEntry).

Inductive HandshakeOutcome := Accepted (peer_node_id : Z) | Rejected (error : bytes).

Inductive HandshakeError := HIo | HMalformed | HFrameTooLarge (len : Z).

Class PeerJson := {
  json_hello :: Json Hello;
  json_hello_response :: Json HelloResponse;
  json_op :: Json PeerDataOp;
  json_op_response :: Json PeerDataOpResponse;
}.

(** ** Frames *)

Definition write_frame {T} `{Json T} (value : T) : outcome HandshakeError bytes :=
  let b := to_json value in
  if decide (MAX_HELLO_BYTES < length b)%nat then Err (HFrameTooLarge (Z.of_nat (length b) mod 4294967296))
  else Ok (to_be 4 (Z.of_nat (length b)) ++ b).

(** The value and what follows it on the stream. *)
Definition read_frame {T} `{Json T} (stream : bytes) : outcome HandshakeError (T * bytes) :=
  if decide (length stream < 4)%nat then Err HIo
  else
    let len := of_le (reverse (take 4 stream)) in
    if decide (Z.of_nat MAX_HELLO_BYTES < len) then Err (HFrameTooLarge len)
    else
      let body := drop 4 stream in
      if decide (length body < Z.to_nat len)%nat then Err HIo
      else match from_json (take (Z.to_nat len) body) with
           | Some v => Ok (v, drop (Z.to_nat len) body)
           | None => Err HMalformed
           end.

(** ** The handshake *)

Record Identity := mkIdentity { cluster_id : Z; node_id : Z; server_version : bytes }.

(** [run_initiator_with_gossip]: the hello. *)
Definition initiator_hello (i : Identity) (payload : ClusterHello) (schema_version : Z) : Hello :=
  let capabilities :=
    if bool_decide (h_membership payload ≠ []) || bool_decide (is_Some (h_status payload)) || bool_decide (h_vnodes payload ≠ [])
    then [GOSSIP_CAPABILITY] else [] in
  mkHelloMsg (cluster_id i) (node_id i) (server_version i) capabilities payload schema_version.

Definition initiator_outcome (r : HelloResponse) : HandshakeOutcome :=
  if hr_accepted r then Accepted (hr_node r) else Rejected (default (str "unknown") (hr_error r)).

(** [GossipPayload::default()] *)
Definition no_gossip : ClusterHello := mkHello None None [] [].

(** [run_acceptor_with_hello_and_schema]: the checks and the answer. *)
Definition judge_hello (i : Identity) (known_peers : gset Z) (hello : Hello) : bool * option bytes :=
  let allows_dynamic_membership := existsb (λ c, bool_decide (c = GOSSIP_CAPABILITY)) (hi_capabilities hello) in
  if decide (hi_cluster hello ≠ cluster_id i) then (false, Some (str "cluster_id_mismatch"))
  else if bool_decide (hi_node hello ∉ known_peers) && negb allows_dynamic_membership then (false, Some (str "unknown_peer"))
  else (true, None).

Definition acceptor_response (i : Identity) (known_peers : gset Z) (local_schema_version : Z) (hello : Hello) : HelloResponse :=
  let '(accepted, error) := judge_hello i known_peers hello in
  mkHelloResponse (cluster_id i) (node_id i) (server_version i) accepted error local_schema_version.

(** ** Operations *)

Section peer.
Context `{UuidText, Base64, AuthCrates, RingHash, JsonPayloads, PeerJson} {D : Type} `{DbOps D} (e : Env_ D).
Implicit Types (x : Exec D).

(** [str::contains] *)
Fixpoint contains_sub (sub s : bytes) : bool :=
  bool_decide (sub `prefix_of` s) || match s with [] => false | _ :: s => contains_sub sub s end.

Definition is_already_exists_error (err : GrumpyError) : bool := contains_sub (str "already exists") (display (io_text e) err).

Definition is_not_found_error (err : GrumpyError) : bool :=
  match err with CollectionNotFound _ | IndexNotFound _ => true | _ => false end.

(** A call on the tree of databases, and one that may have happened before. *)
Definition on_tree {A} (m : ST World GrumpyError A) : ST (Exec D) GrumpyError A := λ x,
  let '(r, w) := m (world x) in (r, with_world w x).
Definition unless_exists (m : ST (Exec D) GrumpyError unit) : ST (Exec D) bytes unit := λ x,
  match m x with
  | (Ok _, x) => (Ok tt, x)
  | (Err err, x) => if is_already_exists_error err then (Ok tt, x) else (Err (display (io_text e) err), x)
  | (Panic, x) => (Panic, x)
  end.

Definition ensure_peer_write_target (tenant database collection : bytes) : ST (Exec D) bytes nat :=
  _ ← unless_exists (on_tree (create_client tenant));
  _ ← unless_exists (on_tree (create_database tenant database));
  i ← st_map_err (display (io_text e)) (handle tenant database);
  _ ← unless_exists (call e i (db_create_collection collection));
  mret i.

(** [PeerDataOpResponse::Error], or an answer made of the result. *)
Definition resp_of {A} (ok : A → PeerDataOpResponse) (r : outcome bytes A) : option PeerDataOpResponse :=
  match r with Ok a => Some (ok a) | Err m => Some (RespError m) | Panic => None end.
Definition respond_with {A} (ok : A → PeerDataOpResponse) (m : ST (Exec D) bytes A) : Exec D → option PeerDataOpResponse * Exec D := λ x,
  let '(r, x) := m x in (resp_of ok r, x).

Definition peer_uuid (key : bytes) : outcome bytes bytes :=
  match uuid_parse e key with Ok u => Ok u | Err err => Err (str "invalid key uuid: " ++ err) | Panic => Panic end.
Definition peer_json_value (what text : bytes) : outcome bytes Value :=
  match json_parse e text with Ok j => Ok (json_to_value j) | Err err => Err (str "invalid " ++ what ++ str " JSON: " ++ err) | Panic => Panic end.

Definition peer_handle (tenant database : bytes) : ST (Exec D) bytes nat := st_map_err (display (io_text e)) (handle tenant database).
Definition on_peer_db {A} (i : nat) (m : ST D GrumpyError A) : ST (Exec D) bytes A := st_map_err (display (io_text e)) (call e i m).

(** Insert, or update what is there. *)
Definition put_value (collection uuid : bytes) (value : Value) : ST D GrumpyError unit := λ d,
  match db_insert collection uuid value d with
  | (Err (DuplicateKey _), d) => db_update collection uuid value d
  | r => r
  end.

Definition remove_value (collection uuid : bytes) : ST D GrumpyError unit := λ d,
  match db_delete collection uuid d with
  | (Err (KeyNotFound _), d) => (Ok tt, d)
  | r => r
  end.

Definition add_index (collection index_name field_path : bytes) : ST D GrumpyError unit := λ d,
  match db_create_index collection index_name field_path d with
  | (Err err, d) => if is_already_exists_error err then (Ok tt, d) else (Err err, d)
  | r => r
  end.

Definition remove_index (collection index_name : bytes) : ST D GrumpyError unit := λ d,
  match db_drop_index collection index_name d with
  | (Err err, d) => if is_not_found_error err then (Ok tt, d) else (Err err, d)
  | r => r
  end.

Definition row_keys (rows : list (bytes * Value)) : PeerDataOpResponse := RespKeys ((λ r, uuid_text (as_u128 r.1)) <$> rows).

Definition handle_peer_data_op (op : PeerDataOp) : Exec D → option PeerDataOpResponse * Exec D :=
  match op with
  | DGet tenant database collection key =>
      respond_with (λ v, RespValue ((λ v, json_print e (peer_value_json v)) <$> v))
        (uuid ← st_lift (peer_uuid key); i ← peer_handle tenant database; on_peer_db i (db_get collection uuid))
  | DUpsert tenant database collection key value_json =>
      respond_with (λ _, RespAck)
        (uuid ← st_lift (peer_uuid key);
         i ← ensure_peer_write_target tenant database collection;
         value ← st_lift (peer_json_value (str "value") value_json);
         on_peer_db i (put_value collection uuid value))
  | DDelete tenant database collection key =>
      respond_with (λ _, RespAck)
        (uuid ← st_lift (peer_uuid key);
         i ← ensure_peer_write_target tenant database collection;
         on_peer_db i (remove_value collection uuid))
  | DCreateIndex tenant database collection index_name field_path =>
      respond_with (λ _, RespAck)
        (i ← ensure_peer_write_target tenant database collection; on_peer_db i (add_index collection index_name field_path))
  | DDropIndex tenant database collection index_name => λ x,
      match handle tenant database x with
      | (Ok i, x) => respond_with (λ _, RespAck) (on_peer_db i (remove_index collection index_name)) x
      | (Err (DatabaseNotFound _), x) => (Some RespAck, x)
      | (Err err, x) => (Some (RespError (display (io_text e) err)), x)
      | (Panic, x) => (None, x)
      end
  | DQueryIndexExact tenant database collection index_name value_json =>
      respond_with row_keys
        (i ← peer_handle tenant database;
         value ← st_lift (peer_json_value (str "value") value_json);
         on_peer_db i (db_query collection index_name value))
  | DQueryIndexRange tenant database collection index_name start_json end_json =>
      respond_with row_keys
        (i ← peer_handle tenant database;
         start ← st_lift (peer_json_value (str "start") start_json);
         end_ ← st_lift (peer_json_value (str "end") end_json);
         on_peer_db i (db_query_range collection index_name start end_))
  | DPullSchemaSince _ => λ x, (Some (RespError (str "PullSchemaSince not supported on this peer endpoint")), x)
  end.

Definition index_query_coords (op : PeerDataOp) : option (bytes * bytes * bytes * bytes) :=
  match op with
  | DQueryIndexExact t d c i _ | DQueryIndexRange t d c i _ _ => Some (t, d, c, i)
  | _ => None
  end.

(** An index of the schema that is not there yet is told apart from one that is nowhere. *)
Definition refine_response (sn : option Node) (op : PeerDataOp) (r : PeerDataOpResponse) : PeerDataOpResponse :=
  match r, index_query_coords op with
  | RespError message, Some (t, d, c, i) =>
      if (contains_sub (str "index not found") message || contains_sub (str "database not found") message || contains_sub (str "collection not found") message)
         && coordinator_has_index sn t d c i
      then RespError (INDEX_NOT_YET_MATERIALIZED_PREFIX ++ i) else r
  | _, _ => r
  end.

Definition handle_peer_data_op_with_coord (sn : option Node) (op : PeerDataOp) : Exec D → option PeerDataOpResponse * Exec D := λ x,
  match op with
  | DPullSchemaSince since => (Some (RespSchemaDiff (match sn with Some n => local_schema_diff_since since n | None => [] end)), x)
  | _ => let '(r, x) := handle_peer_data_op op x in (refine_response sn op <$> r, x)
  end.

(** ** A connection *)

Record PeerNode := mkPeerNode { pn_exec : Exec D; pn_coordinator : Coordinator; pn_schema : option Node }.

(** The serving node: who it is and which peers its configuration lists; texts of errors of
    the connection. *)
Context (self : Identity) (known_peers : gset Z) (io_error json_error : bytes).

Definition handshake_text (err : HandshakeError) : bytes :=
  match err with
  | HIo => str "I/O: " ++ io_error
  | HMalformed => str "malformed handshake JSON: " ++ json_error
  | HFrameTooLarge len => str "handshake frame too large: " ++ dec len ++ str " bytes (max " ++ dec (Z.of_nat MAX_HELLO_BYTES) ++ str ")"
  end.

(** [serve], up to the answer to the hello: the bytes sent back, and whether an operation
    is awaited. *)
Definition serve_hello (now : Z) (input : bytes) (st : PeerNode) : outcome HandshakeError (bytes * bool) * PeerNode :=
  match read_frame input with
  | Ok (hello, _) =>
      let response := acceptor_response self known_peers (coordinator_schema_version (pn_schema st)) hello in
      match write_frame response with
      | Ok out =>
          if hr_accepted response then
            (Ok (out, true), mkPeerNode (pn_exec st) (merge_gossip_from_peer (uuid_text (hi_node hello)) (hi_gossip hello) (Some now) (pn_coordinator st)) (pn_schema st))
          else (Ok (out, false), st)
      | Err err => (Err err, st)
      | Panic => (Panic, st)
      end
  | Err err => (Err err, st)
  | Panic => (Panic, st)
  end.

(** The rest of [serve]: one operation.  A frame that is cut short, malformed or late
    ([in_time] is false) is dropped, and so is an answer too large for a frame; a panic in
    the engine ends the task of the connection. *)
Definition serve_op (in_time : bool) (input : bytes) (st : PeerNode) : bytes * PeerNode :=
  if in_time then
    match read_frame input with
    | Ok (op, _) =>
        let '(r, x) := handle_peer_data_op_with_coord (pn_schema st) op (pn_exec st) in
        (match r with Some resp => match write_frame resp with Ok out => out | _ => [] end | None => [] end,
         mkPeerNode x (pn_coordinator st) (pn_schema st))
    | _ => ([], st)
    end
  else ([], st).

(** ** The initiator *)

(** [run_initiator_with_gossip] against a node. *)
Definition run_initiator_with_gossip (me : Identity) (payload : ClusterHello) (schema_version now : Z) (st : PeerNode) :
    outcome bytes (HelloResponse * HandshakeOutcome) * PeerNode :=
  let failed err := Err (str "handshake error: " ++ handshake_text err) in
  match write_frame (initiator_hello me payload schema_version) with
  | Ok hello =>
      let '(answer, st) := serve_hello now hello st in
      (match read_frame (match answer with Ok (out, _) => out | _ => [] end) with
       | Ok (response, _) => Ok (response, initiator_outcome response)
       | Err err => failed err
       | Panic => Panic
       end, st)
  | Err err => (failed err, st)
  | Panic => (Panic, st)
  end.

Definition outcome_result (o : HandshakeOutcome) : outcome bytes unit :=
  match o with Accepted _ => Ok tt | Rejected err => Err (str "handshake rejected: " ++ err) end.

Definition probe_peer_with_gossip (me : Identity) (payload : ClusterHello) (schema_version now : Z) : ST PeerNode bytes HelloResponse :=
  '(response, o) ← run_initiator_with_gossip me payload schema_version now;
  _ ← st_lift (outcome_result o);
  mret response.

Definition probe_peer_acceptance (me : Identity) (now : Z) : ST PeerNode bytes unit :=
  '(_, o) ← run_initiator_with_gossip me no_gossip 0 now; st_lift (outcome_result o).

Definition send_op (in_time : bool) (op : PeerDataOp) : ST PeerNode bytes PeerDataOpResponse := λ st,
  match write_frame op with
  | Ok sent =>
      let '(out, st) := serve_op in_time sent st in
      (match read_frame out with
       | Ok (resp, _) => Ok resp
       | Err err => Err (str "read op response failed: " ++ handshake_text err)
       | Panic => Panic
       end, st)
  | Err err => (Err (str "write op failed: " ++ handshake_text err), st)
  | Panic => (Panic, st)
  end.

(** What the calls share: connect, handshake, one operation, its response. *)
Definition rpc (me : Identity) (now : Z) (in_time : bool) (op : PeerDataOp) : ST PeerNode bytes PeerDataOpResponse :=
  _ ← probe_peer_acceptance me now; send_op in_time op.

Definition unexpected (what op : string) : outcome bytes unit := Err (str "unexpected " ++ str what ++ str " for " ++ str op).

Definition expect_ack (op : string) (r : PeerDataOpResponse) : outcome bytes unit :=
  match r with
  | RespAck => Ok tt
  | RespValue _ => unexpected "value response" op
  | RespKeys _ => unexpected "keys response" op
  | RespError message => Err message
  | RespSchemaDiff _ => unexpected "schema_diff response" op
  end.

Definition upsert_peer_value me now in_time (tenant database collection key value_json : bytes) : ST PeerNode bytes unit :=
  r ← rpc me now in_time (DUpsert tenant database collection key value_json); st_lift (expect_ack "upsert" r).
Definition delete_peer_value me now in_time (tenant database collection key : bytes) : ST PeerNode bytes unit :=
  r ← rpc me now in_time (DDelete tenant database collection key); st_lift (expect_ack "delete" r).
Definition create_peer_index me now in_time (tenant database collection index_name field_path : bytes) : ST PeerNode bytes unit :=
  r ← rpc me now in_time (DCreateIndex tenant database collection index_name field_path); st_lift (expect_ack "create_index" r).
Definition drop_peer_index me now in_time (tenant database collection index_name : bytes) : ST PeerNode bytes unit :=
  r ← rpc me now in_time (DDropIndex tenant database collection index_name); st_lift (expect_ack "drop_index" r).

Definition fetch_peer_value me now in_time (tenant database collection key : bytes) : ST PeerNode bytes (option bytes) :=
  r ← rpc me now in_time (DGet tenant database collection key);
  st_lift (match r with
           | RespValue v => Ok v
           | RespError message => Err message
           | RespKeys _ => Err (str "unexpected keys response for get")
           | RespAck => Err (str "unexpected ack for get")
           | RespSchemaDiff _ => Err (str "unexpected schema_diff response for get")
           end).

Definition expect_keys (op : string) (r : PeerDataOpResponse) : outcome bytes (list bytes) :=
  match r with
  | RespKeys keys => Ok keys
  | RespError message => Err message
  | RespValue _ => Err (str "unexpected value response for " ++ str op)
  | RespAck => Err (str "unexpected ack for " ++ str op)
  | RespSchemaDiff _ => Err (str "unexpected schema_diff response for " ++ str op)
  end.
Definition query_peer_index_exact me now in_time (tenant database collection index_name value_json : bytes) : ST PeerNode bytes (list bytes) :=
  r ← rpc me now in_time (DQueryIndexExact tenant database collection index_name value_json); st_lift (expect_keys "query" r).
Definition query_peer_index_range me now in_time (tenant database collection index_name start_json end_json : bytes) : ST PeerNode bytes (list bytes) :=
  r ← rpc me now in_time (DQueryIndexRange tenant database collection index_name start_json end_json); st_lift (expect_keys "query_range" r).

Definition pull_schema_from_peer me now in_time (since_version : Z) : ST PeerNode bytes (list SchemaLogEntry) :=
  r ← rpc me now in_time (DPullSchemaSince since_version);
  st_lift (match r with
           | RespSchemaDiff entries => Ok entries
           | RespError message => Err message
           | _ => Err (str "unexpected response for pull_schema_since")
           end).
End peer.

(** ** Frames arrive *)

Definition fits {T} `{Json T} (v : T) : Prop := (length (to_json v) ≤ MAX_HELLO_BYTES)%nat.

Lemma write_frame_fits {T} `{Json T} (v : T) : fits v → write_frame v = Ok (to_be 4 (Z.of_nat (length (to_json v))) ++ to_json v).
Proof. unfold fits, write_frame. intros Hf. by rewrite decide_False by lia. Qed.

Lemma read_frame_written {T} `{Json T} (v : T) b : write_frame v = Ok b → read_frame b = Ok (v, []).
Proof.
  unfold write_frame. case_decide as Hl; [done|]. intros Hb. assert (b = to_be 4 (Z.of_nat (length (to_json v))) ++ to_json v) as -> by congruence. clear Hb. unfold read_frame. set (n := Z.of_nat (length (to_json v))).
  assert (Hlen : length (to_be 4 n) = 4%nat) by apply length_to_be. assert (Hn : 0 ≤ n ≤ 65536) by (unfold n; clear -Hl; change MAX_HELLO_BYTES with (Z.to_nat 65536) in Hl; lia).
  rewrite (decide_False (P := (length (to_be 4 n ++ to_json v) < 4)%nat)) by (rewrite length_app; lia). rewrite take_app_length', drop_app_length' by done.
  replace (of_le (reverse (to_be 4 n))) with n by (unfold to_be; rewrite reverse_involutive; symmetry; apply of_to_le_small; change (256 ^ Z.of_nat 4) with 4294967296; lia).
  cbv zeta. rewrite (decide_False (P := Z.of_nat MAX_HELLO_BYTES < n)) by (unfold MAX_HELLO_BYTES; lia). replace (Z.to_nat n) with (length (to_json v)) by lia.
  rewrite decide_False by lia. rewrite take_ge, drop_ge by lia. by rewrite from_to_json.
Qed.

(** ** What an operation touches *)

Definition op_target (op : PeerDataOp) : option (bytes * bytes) :=
  match op with
  | DGet t d _ _ | DUpsert t d _ _ _ | DDelete t d _ _ | DCreateIndex t d _ _ _ | DDropIndex t d _ _ | DQueryIndexExact t d _ _ _ | DQueryIndexRange t d _ _ _ _ => Some (t, d)
  | DPullSchemaSince _ => None
  end.
Definition is_peer_write (op : PeerDataOp) : bool :=
  match op with DUpsert _ _ _ _ _ | DDelete _ _ _ _ | DCreateIndex _ _ _ _ _ => true | _ => false end.

Section confined.
Context `{UuidText, Base64, AuthCrates, RingHash, JsonPayloads, PeerJson} {D : Type} `{DbOps D} (e : Env_ D).
Implicit Types (x : Exec D).

Lemma touches_refl (t d : bytes) x : cache_ok (world x) → touches t d x x.
Proof. intros Hok. by split; [| | |intros i []]. Qed.

Lemma touches_tree (t d : bytes) (w : World) x : cache_ok w → touches t d x (with_world w x).
Proof. intros Hok. by split; [| | |intros i []]. Qed.

(** A name that is not valid is not excused as one that exists. *)
Lemma invalid_not_excused name err : validate_name name = Err err → is_already_exists_error e err = false.
Proof. unfold validate_name. do 3 (case_decide; [intros [= <-]; vm_compute; reflexivity|]). destruct (forallb name_char name); [done|]. intros [= <-]. vm_compute. reflexivity. Qed.

Lemma unless_exists_tree (m : ST World GrumpyError unit) x u x' :
  (∀ w, tree_call w (m w).2) → cache_ok (world x) → unless_exists e (on_tree m) x = (u, x') →
  x' = with_world (m (world x)).2 x ∧ cache_ok (world x') ∧
  (u = Ok tt → (m (world x)).1 = Ok tt ∨ ∃ err, (m (world x)).1 = Err err ∧ is_already_exists_error e err = true).
Proof.
  intros Hstep Hok. unfold unless_exists, on_tree. specialize (Hstep (world x)). apply (tree_call_cache_ok _ _ Hstep) in Hok.
  destruct (m (world x)) as [[[]|err|] w]; cbn in *; [| |by intros [= <- <-]]; [intros [= <- <-]; auto|].
  destruct (is_already_exists_error e err) eqn:Hx; intros [= <- <-]; split_and!; (done || eauto).
Qed.

Lemma ensure_client (t : bytes) x u x' :
  cache_ok (world x) → unless_exists e (on_tree (create_client t)) x = (u, x') →
  (∀ t' d', touches t' d' x x') ∧ dbs x' = dbs x ∧ (u = Ok tt → plain t ∧ is_Some (clients (world x') !! t)).
Proof.
  intros Hok Hu. apply unless_exists_tree in Hu as (-> & Hok' & Hr); [|intros w; constructor|done]. split_and!; [intros; by apply touches_tree|done|].
  intros Hu. specialize (Hr Hu). cbn [world with_world]. unfold create_client, plain in *. destruct (validate_name t) as [[]|err|] eqn:Hv; cbn in *.
  - split; [done|]. case_decide as Hc; [done|]. destruct (client_open _ _) as [c w]. cbn. rewrite lookup_insert_eq. by eexists.
  - destruct Hr as [?|(err' & [= <-] & Hx)]; [done|]. by rewrite (invalid_not_excused t err Hv) in Hx.
  - by destruct Hr as [?|(? & ? & _)].
Qed.

Lemma ensure_database (t d : bytes) x u x' :
  cache_ok (world x) → is_Some (clients (world x) !! t) → unless_exists e (on_tree (create_database t d)) x = (u, x') →
  (∀ t' d', touches t' d' x x') ∧ dbs x' = dbs x ∧ (u = Ok tt → plain d).
Proof.
  intros Hok [c Hc] Hu. apply unless_exists_tree in Hu as (-> & Hok' & Hr); [|intros w; constructor|done]. split_and!; [intros; by apply touches_tree|done|].
  intros Hu. specialize (Hr Hu). unfold create_database, on_client, mbind, st_bind, get_client in Hr. rewrite Hc in Hr. unfold create_database_in, plain in *.
  destruct (validate_name d) as [[]|err|] eqn:Hv; cbn in Hr; [done| |by destruct Hr as [?|(? & ? & _)]].
  destruct Hr as [?|(err' & [= <-] & Hx)]; [done|]. by rewrite (invalid_not_excused d err Hv) in Hx.
Qed.

Lemma touches_trans (t d : bytes) x x1 x2 :
  dbs x1 = dbs x → touches t d x x1 → touches t d x1 x2 → touches t d x x2.
Proof. intros Hd [] [Hs Ha Hc Hi]. split; [congruence|congruence|done|]. intros i. rewrite <- Hd. apply Hi. Qed.
Lemma ensure_touches (t d coll : bytes) x r x' :
  cache_ok (world x) → ensure_peer_write_target e t d coll x = (r, x') →
  touches t d x x' ∧ ∀ i, r = Ok i → instances (world x') !! i = Some (server_path (world x') ++ [t; d]).
Proof.
  intros Hok. unfold ensure_peer_write_target. unfold mbind at 1, st_bind at 1.
  destruct (unless_exists e (on_tree (create_client t)) x) as [u1 x1] eqn:H1e. destruct (ensure_client _ _ _ _ Hok H1e) as (T1 & D1 & P1).
  destruct u1 as [[]|err|]; [|intros [= <- <-]; split; [apply T1|done]..]. destruct (P1 eq_refl) as [Ht Hc]. unfold mbind at 1, st_bind at 1.
  destruct (unless_exists e (on_tree (create_database t d)) x1) as [u2 x2] eqn:H2e. destruct (ensure_database _ _ _ _ _ (to_cache _ _ _ _ (T1 t d)) Hc H2e) as (T2 & D2 & P2).
  assert (T12 : touches t d x x2) by (eapply touches_trans; [exact D1|apply T1|apply T2]). assert (D12 : dbs x2 = dbs x) by congruence.
  destruct u2 as [[]|err|]; [|intros [= <- <-]; split; [done|done]..]. specialize (P2 eq_refl). unfold mbind at 1, st_bind at 1, st_map_err.
  destruct (handle t d x2) as [u3 x3] eqn:H3e. destruct (handle_touches _ _ _ _ _ Ht P2 (to_cache _ _ _ _ T12) H3e) as (T3 & D3 & P3).
  assert (T13 : touches t d x x3) by (eapply touches_trans; [exact D12|done|exact T3]). destruct u3 as [i|err|]; [|intros [= <- <-]; split; [done|done]..].
  specialize (P3 i eq_refl). unfold mbind, st_bind, unless_exists. destruct (call e i (db_create_collection coll) x3) as [u4 x4] eqn:H4e.
  assert (T4 : touches t d x x4) by (eapply call_touches; [exact T13|done|exact H4e]).
  assert (P4 : instances (world x4) !! i = Some (server_path (world x4) ++ [t; d])) by (unfold call in H4e; destruct (db_create_collection _ _); by injection H4e as _ <-).
  destruct u4 as [[]|err|]; [|destruct (is_already_exists_error e err)|]; intros [= <- <-]; split; (done || by intros ? [= <-]).
Qed.

(** Programs that touch [t]/[d] only, from any state and once its handle [i] is known. *)
Definition keeps {A} (t d : bytes) (m : ST (Exec D) bytes A) : Prop := ∀ x r x', cache_ok (world x) → m x = (r, x') → touches t d x x'.
Definition keeps_at {A} (t d : bytes) (i : nat) (m : ST (Exec D) bytes A) : Prop :=
  ∀ x x1 r x', touches t d x x1 → instances (world x1) !! i = Some (server_path (world x1) ++ [t; d]) → m x1 = (r, x') → touches t d x x'.

Lemma keeps_at_call {A} (t d : bytes) i (m : ST D GrumpyError A) : keeps_at t d i (on_peer_db e i m).
Proof.
  intros x x1 r x' Ht Hi. unfold on_peer_db, st_map_err. destruct (call e i m x1) as [r' x2] eqn:Hc. intros [= _ <-]. by eapply call_touches.
Qed.

Lemma keeps_at_lift {A B} (t d : bytes) i (v : outcome bytes A) (k : A → ST (Exec D) bytes B) : (∀ a, keeps_at t d i (k a)) → keeps_at t d i (st_lift v ≫= k).
Proof. intros Hk x x1 r x' Ht Hi. unfold mbind, st_bind, st_lift. destruct v; [by apply Hk|by intros [= _ <-]..]. Qed.

Lemma keeps_lift {A B} (t d : bytes) (v : outcome bytes A) (k : A → ST (Exec D) bytes B) : (∀ a, keeps t d (k a)) → keeps t d (st_lift v ≫= k).
Proof. intros Hk x r x' Hok. unfold mbind, st_bind, st_lift. destruct v; [by apply Hk|intros [= _ <-]; by apply touches_refl..]. Qed.

Lemma keeps_write {B} (t d coll : bytes) (k : nat → ST (Exec D) bytes B) : (∀ i, keeps_at t d i (k i)) → keeps t d (ensure_peer_write_target e t d coll ≫= k).
Proof.
  intros Hk x r x' Hok. unfold mbind, st_bind. destruct (ensure_peer_write_target e t d coll x) as [u x1] eqn:Hu. destruct (ensure_touches _ _ _ _ _ _ Hok Hu) as [Ht Hi].
  destruct u as [i|err|]; [|by intros [= _ <-]..]. by apply Hk; [|apply Hi].
Qed.

Lemma keeps_read {B} (t d : bytes) (k : nat → ST (Exec D) bytes B) : plain t → plain d → (∀ i, keeps_at t d i (k i)) → keeps t d (peer_handle e t d ≫= k).
Proof.
  intros Hpt Hpd Hk x r x' Hok. unfold mbind, st_bind, peer_handle, st_map_err. destruct (handle t d x) as [u x1] eqn:Hu.
  destruct (handle_touches _ _ _ _ _ Hpt Hpd Hok Hu) as (Ht & _ & Hi). destruct u as [i|err|]; [|by intros [= _ <-]..]. by apply Hk; [|apply Hi].
Qed.

Lemma keeps_respond {A} (t d : bytes) (ok : A → PeerDataOpResponse) (m : ST (Exec D) bytes A) x r x' :
  cache_ok (world x) → keeps t d m → respond_with ok m x = (r, x') → touches t d x x'.
Proof. intros Hok Hk. unfold respond_with. destruct (m x) as [r' x1] eqn:Hm. intros [= _ <-]. by eapply Hk. Qed.

(** Operations of valid names, and all writes, change no other database than the one they
    name. *)
Lemma op_touches sn op (t d : bytes) x r x' :
  cache_ok (world x) → op_target op = Some (t, d) → plain t ∧ plain d ∨ is_peer_write op = true →
  handle_peer_data_op_with_coord e sn op x = (r, x') → touches t d x x'.
Proof.
  intros Hok Htarget Hnames Hop. assert (Hop' : ∃ r', handle_peer_data_op e op x = (r', x')).
  { destruct op; [..|done]; unfold handle_peer_data_op_with_coord in Hop; destruct (handle_peer_data_op e _ x) as [r' x1]; injection Hop as _ <-; by eexists. }
  clear Hop r. destruct Hop' as [r Hop]. destruct op; [..|done]; injection Htarget as -> ->; cbn [handle_peer_data_op] in Hop.
  all: try (eapply keeps_respond; [done| |exact Hop]; repeat (apply keeps_lift; intros);
    first [apply keeps_write|destruct Hnames as [[? ?]|?]; [|done]; apply keeps_read; [done..|]]; intros; repeat (apply keeps_at_lift; intros); apply keeps_at_call).
  destruct Hnames as [[Hpt Hpd]|?]; [|done]. destruct (handle t d x) as [u x1] eqn:Hu. destruct (handle_touches _ _ _ _ _ Hpt Hpd Hok Hu) as (Ht & _ & Hi).
  destruct u as [i|err|]; [|destruct err; by injection Hop as _ <-|by injection Hop as _ <-]. unfold respond_with in Hop.
  destruct (on_peer_db e i _ x1) as [r' x2] eqn:Hc. injection Hop as _ <-. eapply keeps_at_call; [exact Ht|by apply Hi|exact Hc].
Qed.
End confined.

Section theorem.
Context `{UuidText, Base64, AuthCrates, RingHash, JsonPayloads, PeerJson} {D : Type} `{DbOps D} (e : Env_ D).
Context (self : Identity) (known_peers : gset Z) (io_error json_error : bytes).
Implicit Types (st : PeerNode (D := D)) (me : Identity).

Lemma judge_plain me :
  judge_hello self known_peers (initiator_hello me no_gossip 0) =
  if decide (cluster_id me ≠ cluster_id self) then (false, Some (str "cluster_id_mismatch"))
  else if decide (node_id me ∈ known_peers) then (true, None) else (false, Some (str "unknown_peer")).
Proof.
  unfold judge_hello, initiator_hello. cbn. case_decide; [done|]. destruct (decide (node_id me ∈ known_peers)).
  - by rewrite bool_decide_eq_false_2 by naive_solver.
  - by rewrite bool_decide_eq_true_2.
Qed.

(** The handshake without gossip: who is let in. *)
Lemma acceptance me now st :
  let hello := initiator_hello me no_gossip 0 in
  let answer := acceptor_response self known_peers (coordinator_schema_version (pn_schema st)) hello in
  fits hello → fits answer →
  probe_peer_acceptance self known_peers io_error json_error me now st =
  match judge_hello self known_peers hello with
  | (true, _) => (Ok tt, mkPeerNode (pn_exec st) (merge_gossip_from_peer (uuid_text (node_id me)) no_gossip (Some now) (pn_coordinator st)) (pn_schema st))
  | (false, err) => (Err (str "handshake rejected: " ++ default (str "unknown") err), st)
  end.
Proof.
  intros hello answer Hh Ha. unfold probe_peer_acceptance, run_initiator_with_gossip, mbind, st_bind. fold hello.
  destruct (write_frame hello) as [hb|err|] eqn:Hwh; [|by rewrite (write_frame_fits _ Hh) in Hwh..].
  unfold serve_hello. rewrite (read_frame_written _ _ Hwh). fold answer.
  destruct (write_frame answer) as [ab|err|] eqn:Hwa; [|by rewrite (write_frame_fits _ Ha) in Hwa..].
  pose proof (read_frame_written _ _ Hwa) as Hr.
  assert (Hacc : (hr_accepted answer, hr_error answer) = judge_hello self known_peers hello) by (unfold answer, acceptor_response; by destruct (judge_hello self known_peers hello)).
  destruct (judge_hello self known_peers hello) as [acc err]. injection Hacc as Hac Her. rewrite Hac.
  destruct acc; cbn; rewrite Hr; cbn; unfold initiator_outcome; rewrite Hac, ?Her; by destruct err.
Qed.

Lemma send_op_ok op st r x' :
  fits op → handle_peer_data_op_with_coord e (pn_schema st) op (pn_exec st) = (Some r, x') → fits r →
  send_op e io_error json_error true op st = (Ok r, mkPeerNode x' (pn_coordinator st) (pn_schema st)).
Proof.
  intros Ho Hh Hr. unfold send_op. destruct (write_frame op) as [ob|err|] eqn:Hwo; [|by rewrite (write_frame_fits _ Ho) in Hwo..].
  unfold serve_op. rewrite (read_frame_written _ _ Hwo), Hh. destruct (write_frame r) as [rb|err|] eqn:Hwr; [|by rewrite (write_frame_fits _ Hr) in Hwr..].
  by rewrite (read_frame_written _ _ Hwr).
Qed.

(** Who the acceptor lets in: a node of its cluster that is listed, or that claims the
    gossip capability. *)
Definition admitted (hello : Hello) : Prop :=
  hi_cluster hello = cluster_id self ∧ (hi_node hello ∈ known_peers ∨ GOSSIP_CAPABILITY ∈ hi_capabilities hello).

(** The reason given to the others. *)
Definition refusal (hello : Hello) : bytes := if decide (hi_cluster hello = cluster_id self) then str "unknown_peer" else str "cluster_id_mismatch".

Lemma judge_admits hello : (judge_hello self known_peers hello = (true, None) ∧ admitted hello) ∨
  (judge_hello self known_peers hello = (false, Some (refusal hello)) ∧ ¬ admitted hello).
Proof.
  unfold judge_hello, admitted, refusal. destruct (decide (hi_cluster hello = cluster_id self)) as [Hc|Hc]; [rewrite decide_False by auto|rewrite decide_True by auto; naive_solver].
  assert (Hcap : existsb (λ c, bool_decide (c = GOSSIP_CAPABILITY)) (hi_capabilities hello) = true ↔ GOSSIP_CAPABILITY ∈ hi_capabilities hello).
  { rewrite existsb_exists. setoid_rewrite <- list_elem_of_In. split; [intros (c & Hin & ->%bool_decide_eq_true); done|]. intros Hin. exists GOSSIP_CAPABILITY. by rewrite bool_decide_eq_true. }
  destruct (existsb _ _) eqn:He; cbn [negb].
  - rewrite andb_false_r. left. split; [done|]. split; [done|]. right. by apply Hcap.
  - rewrite andb_true_r. case_bool_decide as Hn; [right|left]; (split; [done|]).
    + intros [_ [?|?%Hcap]]; done.
    + split; [done|]. left. by destruct (decide (hi_node hello ∈ known_peers)).
Qed.

(** C17: Calls between nodes.  Whatever bytes a connection starts with, the node awaits an
    operation only after the hello of a node of its cluster that the configuration lists or
    that claims the gossip capability (with it, anyone of the cluster is let in); everyone
    else is refused with the reason and changes nothing.  The calls of the library claim no
    capability, so a caller of another cluster or one that is not listed is refused and
    changes nothing, and a listed one gets exactly the answer of the operation it asked
    for, which runs once; apart from the liveness of the caller, it changes no database but
    the one it names, and nothing of users and sessions.  Every message must fit a frame;
    writes check their names themselves. *)
Theorem peer_rpc me now op st :
  let hello := initiator_hello me no_gossip 0 in
  let version := coordinator_schema_version (pn_schema st) in
  let call := rpc e self known_peers io_error json_error me now true op st in
  (∀ input,
    match serve_hello self known_peers now input st with
    | (Ok (out, awaits), st') => ∃ hello rest, read_frame input = Ok (hello, rest) ∧ (awaits = true ↔ admitted hello) ∧
        write_frame (mkHelloResponse (cluster_id self) (node_id self) (server_version self) awaits (if awaits then None else Some (refusal hello)) version) = Ok out ∧
        st' = if awaits then mkPeerNode (pn_exec st) (merge_gossip_from_peer (uuid_text (hi_node hello)) (hi_gossip hello) (Some now) (pn_coordinator st)) (pn_schema st) else st
    | (_, st') => st' = st
    end) ∧
  (fits hello → fits (acceptor_response self known_peers version hello) → fits op →
    (cluster_id me ≠ cluster_id self → call = (Err (str "handshake rejected: cluster_id_mismatch"), st)) ∧
    (cluster_id me = cluster_id self → node_id me ∉ known_peers → call = (Err (str "handshake rejected: unknown_peer"), st)) ∧
    (cluster_id me = cluster_id self → node_id me ∈ known_peers →
      ∀ r x', handle_peer_data_op_with_coord e (pn_schema st) op (pn_exec st) = (Some r, x') → fits r →
      call = (Ok r, mkPeerNode x' (merge_gossip_from_peer (uuid_text (node_id me)) no_gossip (Some now) (pn_coordinator st)) (pn_schema st)) ∧
      ∀ t d, op_target op = Some (t, d) → cache_ok (world (pn_exec st)) → plain t ∧ plain d ∨ is_peer_write op = true → touches t d (pn_exec st) x')).
Proof.
  intros hello version call. split.
  - intros input. unfold serve_hello. destruct (read_frame input) as [[h rest]|err|]; [|done..]. unfold acceptor_response. fold version.
    destruct (judge_admits h) as [[-> Had]|[-> Had]]; cbn [hr_accepted]; destruct (write_frame _) as [out|err|] eqn:Hw; try done; exists h, rest; by split_and!.
  - intros Hh Ha Ho. unfold call, rpc, mbind, st_bind. rewrite (acceptance me now st Hh Ha). fold hello. unfold hello. rewrite judge_plain. split_and!.
    + intros Hc. by rewrite decide_True.
    + intros Hc Hn. rewrite decide_False by naive_solver. by rewrite decide_False.
    + intros Hc Hn r x' Hop Hr. rewrite decide_False by naive_solver. rewrite decide_True by done. split; [|intros; by eapply op_touches].
      by rewrite (send_op_ok op (mkPeerNode (pn_exec st) _ (pn_schema st)) r x' Ho Hop Hr).
Qed.

(** A message over 64 KiB is never sent: a large document does not reach its replicas. *)
Lemma large_op_not_sent op st : ¬ fits op → ∃ m, send_op e io_error json_error true op st = (Err m, st).
Proof. unfold fits, send_op, write_frame. intros Hf. rewrite decide_True by lia. by eexists. Qed.

(** Whoever claims the gossip capability is let in, listed or not. *)
Lemma gossip_admits_strangers me payload version s :
  cluster_id me = cluster_id self → h_status payload = Some s → judge_hello self known_peers (initiator_hello me payload version) = (true, None).
Proof.
  intros Hc Hs. unfold judge_hello, initiator_hello. rewrite Hs, (bool_decide_eq_true_2 (is_Some (Some s))) by by eexists. rewrite orb_true_r. cbn.
  rewrite decide_False by naive_solver. by rewrite andb_false_r.
Qed.

(** [json!({"value": value, "vector_clock": vector_clock})], what PUT_WITH_VC sends to
    replicas as the document. *)
Definition put_wrapper (value clock : bytes) : bytes := json_print e (JObject [(str "value", JString value); (str "vector_clock", JString clock)]).

(** Replicas store the wrapper, not the value. *)
Lemma put_wraps_value value clock :
  json_parse e (put_wrapper value clock) = Ok (JObject [(str "value", JString value); (str "vector_clock", JString clock)]) →
  peer_json_value e (str "value") (put_wrapper value clock) = Ok (VObject [(str "value", VString value); (str "vector_clock", VString clock)]).
Proof. intros Hp. unfold peer_json_value. by rewrite Hp. Qed.
End theorem.

(** ** Evaluation *)

Definition gossip_code (g : ClusterHello) : option bytes * option Z * list Z * list (bytes * bytes * bytes * option Z * list Z) :=
  (h_status g, h_last_seen g, h_vnodes g, (λ s, (gs_node_id s, gs_addr s, gs_status s, gs_last_seen s, gs_vnodes s)) <$> h_membership g).
Definition code_gossip (c : option bytes * option Z * list Z * list (bytes * bytes * bytes * option Z * list Z)) : ClusterHello :=
  mkHello c.1.1.1 c.1.1.2 c.1.2 ((λ s, mkGossipState s.1.1.1.1 s.1.1.1.2 s.1.1.2 s.1.2 s.2) <$> c.2).
Lemma gossip_code_ok g : code_gossip (gossip_code g) = g.
Proof.
  destruct g as [a b c l]. unfold code_gossip, gossip_code. cbn. f_equal. rewrite <- list_fmap_compose. induction l as [|[] l IH]; [done|]. cbn. by f_equal.
Qed.

#[export] Instance gossip_state_eq_dec : EqDecision PeerGossipState.
Proof. solve_decision. Defined.
#[export] Instance cluster_hello_eq_dec : EqDecision ClusterHello.
Proof. solve_decision. Defined.
#[export] Instance cluster_hello_countable : Countable ClusterHello := inj_countable' gossip_code code_gossip gossip_code_ok.

Definition hello_code (h : Hello) : Z * Z * bytes * list bytes * ClusterHello * Z := (hi_cluster h, hi_node h, hi_version h, hi_capabilities h, hi_gossip h, hi_schema h).
Definition code_hello (c : Z * Z * bytes * list bytes * ClusterHello * Z) : Hello := mkHelloMsg c.1.1.1.1.1 c.1.1.1.1.2 c.1.1.1.2 c.1.1.2 c.1.2 c.2.
Lemma hello_code_ok h : code_hello (hello_code h) = h.
Proof. by destruct h. Qed.

Definition op_code (op : PeerDataOp) : Z * list bytes * Z :=
  match op with
  | DGet a b c d => (0, [a; b; c; d], 0)
  | DUpsert a b c d v => (1, [a; b; c; d; v], 0)
  | DDelete a b c d => (2, [a; b; c; d], 0)
  | DCreateIndex a b c d v => (3, [a; b; c; d; v], 0)
  | DDropIndex a b c d => (4, [a; b; c; d], 0)
  | DQueryIndexExact a b c d v => (5, [a; b; c; d; v], 0)
  | DQueryIndexRange a b c d v w => (6, [a; b; c; d; v; w], 0)
  | DPullSchemaSince v => (7, [], v)
  end.
Definition code_op (c : Z * list bytes * Z) : PeerDataOp :=
  match c with
  | (0, [a; b; c; d], _) => DGet a b c d
  | (1, [a; b; c; d; v], _) => DUpsert a b c d v
  | (2, [a; b; c; d], _) => DDelete a b c d
  | (3, [a; b; c; d; v], _) => DCreateIndex a b c d v
  | (4, [a; b; c; d], _) => DDropIndex a b c d
  | (5, [a; b; c; d; v], _) => DQueryIndexExact a b c d v
  | (6, [a; b; c; d; v; w], _) => DQueryIndexRange a b c d v w
  | (_, _, v) => DPullSchemaSince v
  end.
Lemma op_code_ok op : code_op (op_code op) = op.
Proof. by destruct op. Qed.

Definition response_code (r : PeerDataOpResponse) : Z * option bytes * list bytes * list SchemaLogEntry :=
  match r with
  | RespValue v => (0, v, [], []) | RespKeys l => (1, None, l, []) | RespAck => (2, None, [], [])
  | RespError m => (3, Some m, [], []) | RespSchemaDiff es => (4, None, [], es)
  end.
Definition code_response (c : Z * option bytes * list bytes * list SchemaLogEntry) : PeerDataOpResponse :=
  match c with
  | (0, v, _, _) => RespValue v | (1, _, l, _) => RespKeys l | (3, Some m, _, _) => RespError m | (4, _, _, es) => RespSchemaDiff es
  | _ => RespAck
  end.
Lemma response_code_ok r : code_response (response_code r) = r.
Proof. by destruct r. Qed.

Definition plain_peer_json : PeerJson.
Proof.
  constructor.
  - exact (json_via hello_code code_hello hello_code_ok).
  - refine (json_via (λ h, (hr_cluster h, hr_node h, hr_version h, hr_accepted h, hr_error h, hr_schema h)) (λ '(a, b, c, d, g, s), mkHelloResponse a b c d g s) _).
    by intros [].
  - exact (json_via op_code code_op op_code_ok).
  - exact (json_via response_code code_response response_code_ok).
Defined.

Lemma fits_small {T} `{Json T} (v : T) : Z.of_nat (length (to_json v)) <= 65536 → fits v.
Proof. unfold fits, MAX_HELLO_BYTES. lia. Qed.

Lemma peer_rpc_witness :
  let U := uuid_plain in let B := base64_plain in let K := toy_crates in let R := Ring.demo in let J := plain_json in let P := plain_peer_json in let O := mem_ops in
  let st := mkPeerNode (mem_exec ∅) mem_coordinator None in
  let op := DUpsert (str "alice") (str "app") (str "users") (str "k") (str "v") in
  let out := rpc mem_env (mkIdentity 7 1 (str "s")) {[2]} [] [] (mkIdentity 7 2 (str "s")) 11 true op st in
  out.1 = Ok RespAck.
Proof.
  intros U B K R J P O st op out. set (self := mkIdentity 7 1 (str "s")). set (me := mkIdentity 7 2 (str "s")).
  destruct (peer_rpc mem_env self {[2]} [] [] me 11 op st) as [_ (_ & _ & Hin)].
  - apply fits_small. vm_compute. discriminate.
  - apply fits_small. vm_compute. discriminate.
  - apply fits_small. vm_compute. discriminate.
  - destruct (handle_peer_data_op_with_coord mem_env (pn_schema st) op (pn_exec st)) as [r x'] eqn:Hop.
    assert (Hr : r = Some RespAck) by (change r with (r, x').1; rewrite <- Hop; vm_compute; reflexivity). subst r.
    destruct (Hin eq_refl ltac:(by apply elem_of_singleton) RespAck x' eq_refl) as [Hout _].
    + apply fits_small. vm_compute. discriminate.
    + assert (Heq : out = _) by exact Hout. by rewrite Heq.
Defined.
