(* ===== verification/Connection.v ===== *)
(** * A client connection (grumpydb-server/src/tcp/handler.rs, [handle_connection])

    One line of a connection from the rate limit to the response, on the state of the
    connection and of the server.  [Outside] is what a line meets: the rate limiter's
    answer, the clocks, the answers of peers and the texts of errors.  Metrics and traces
    are left out. *)

From stdpp Require Import gmap.
From S2P Require Import Prelude RustStd Value Crdt AppliedSet Index Database Schema SchemaSpec Collection JsonLines Hints Limits Command Auth Parser Response Ring Coordinator Handler JsonValue AuthStore AuthStoreSpec Server Exec VerifiedQuery Peer.

Local Open Scope Z_scope.

Record Outside (D : Type) := mkOutside {
  allowed : bool;
  clock : Z;
  millis : Z;
  exec_env : Env_ D;
  answers : Peers;
  requests : bytes → PeerRequest → bool;
  show_protocol : ProtocolError → bytes;
  show_consistency_error : ConsistencyError → bytes;
  panic_text : bytes;
}.
Arguments mkOutside {D}.
Arguments allowed {D}.
Arguments clock {D}.
Arguments millis {D}.
Arguments exec_env {D}.
Arguments answers {D}.
Arguments requests {D}.
Arguments show_protocol {D}.
Arguments show_consistency_error {D}.
Arguments panic_text {D}.

Record Conn (Ip D : Type) `{Countable Ip} := mkConn {
  cn_exec : Exec D;
  cn_limits : Limits Ip;
  cn_hints : gmap bytes bytes;
  cn_repairs : option bytes;
  cn_schema : option Node;
  consecutive_errors : Z;
  consecutive_rate_limits : Z;
}.
Arguments mkConn {Ip D _ _}.
Arguments cn_exec {Ip D _ _}.
Arguments cn_limits {Ip D _ _}.
Arguments cn_hints {Ip D _ _}.
Arguments cn_repairs {Ip D _ _}.
Arguments cn_schema {Ip D _ _}.
Arguments consecutive_errors {Ip D _ _}.
Arguments consecutive_rate_limits {Ip D _ _}.

Definition is_error (r : Response) : bool := match r with RError _ => true | _ => false end.
Definition is_login (c : Command) : bool := match c with Login _ _ _ => true | _ => false end.

Section connection.
Context `{UuidText, Base64, AuthCrates, RingHash, JsonPayloads} {D : Type} `{DbOps D} {Ip : Type} `{Countable Ip} (is_loopback : Ip → bool) (ip : Ip).
Context {JH : JsonLine HintRecord} {JR : JsonLine ReadRepairIntent} {JS : JsonLine SchemaLogEntry} (co : Coordinator).
Implicit Types (o : Outside D) (k : Conn Ip D) (c : Command) (x : Exec D).

Definition put_exec x k : Conn Ip D := mkConn x (cn_limits k) (cn_hints k) (cn_repairs k) (cn_schema k) (consecutive_errors k) (consecutive_rate_limits k).
Definition put_limits l k : Conn Ip D := mkConn (cn_exec k) l (cn_hints k) (cn_repairs k) (cn_schema k) (consecutive_errors k) (consecutive_rate_limits k).
Definition put_hints h k : Conn Ip D := mkConn (cn_exec k) (cn_limits k) h (cn_repairs k) (cn_schema k) (consecutive_errors k) (consecutive_rate_limits k).
Definition put_repairs r k : Conn Ip D := mkConn (cn_exec k) (cn_limits k) (cn_hints k) r (cn_schema k) (consecutive_errors k) (consecutive_rate_limits k).
Definition put_schema n k : Conn Ip D := mkConn (cn_exec k) (cn_limits k) (cn_hints k) (cn_repairs k) n (consecutive_errors k) (consecutive_rate_limits k).
Definition put_errors n k : Conn Ip D := mkConn (cn_exec k) (cn_limits k) (cn_hints k) (cn_repairs k) (cn_schema k) n (consecutive_rate_limits k).
Definition put_rate n k : Conn Ip D := mkConn (cn_exec k) (cn_limits k) (cn_hints k) (cn_repairs k) (cn_schema k) (consecutive_errors k) n.

(** ** Checks of the concerns *)

(** A check that starts with [effective_consistency_values(..)?]. *)
Definition with_effective {A} o c (f : (chars → chars → option (concern * concern)) → outcome ConsistencyError A) : ST (Exec D) bytes A := λ x,
  match effective_values (exec_env o) c x with
  | (Ok v, x) =>
      (match f (λ _ _, Some v) with Ok a => Ok a | Err err => Err (show_consistency_error o err) | Panic => Panic end, x)
  | (Err m, x) => (Err m, x)
  | (Panic, x) => (Panic, x)
  end.

Definition check_concerns o c : ST (Exec D) bytes unit := λ x,
  let s := session x in
  (_ ← with_effective o c (λ defaults, validate_write_concern_runtime defaults c s co);
   _ ← with_effective o c (λ defaults, validate_read_concern_runtime defaults c s co);
   with_effective o c (λ defaults, Handler.wait_for_read_ack_quorum defaults (probe (answers o)) c s co)) x.

(** ** After the execution *)

(** The local document takes the value the quorum chose. *)
Definition converge_local o (coll key canonical : bytes) : ST D GrumpyError unit := λ d,
  match parse_uuid (exec_env o) key, parse_json_value (exec_env o) canonical with
  | Ok id, Ok val =>
      match db_get coll id d with
      | (Ok (Some _), d) => db_update coll id val d
      | (Panic, d) => (Panic, d)
      | (_, d) => db_insert coll id val d
      end
  | _, _ => (Ok tt, d)
  end.

(** The update of the local database; only a panic of it matters. *)
Definition update_local_value o (tenant db : chars) (coll key canonical : bytes) x : bool * Exec D :=
  match handle (utf8 tenant) (utf8 db) x with
  | (Ok i, x) =>
      match call (exec_env o) i (converge_local o coll key canonical) x with
      | (Panic, x) => (true, x)
      | (_, x) => (false, x)
      end
  | (Panic, x) => (true, x)
  | (_, x) => (false, x)
  end.

(** [maybe_converge_read_quorum] on a GET whose local answer is [local_value]. *)
Definition converge_get o (tenant db coll key : chars) (local_value : option bytes) (response : Response) k : option Response * Conn Ip D :=
  let remote := fanout_read_peer_values (peer_value (answers o) (utf8 key)) (mkKey (utf8 db) (utf8 coll) (utf8 key)) co in
  let reads := (λ '(node, r), (node, match r with Ok v => Some v | _ => None end)) <$> remote in
  match converge local_value reads with
  | None => (Some response, k)
  | Some cv =>
      let '(panicked, x) := if update_local cv then update_local_value o tenant db (utf8 coll) (utf8 key) (canonical cv) (cn_exec k) else (false, cn_exec k) in
      let k := put_exec x k in
      if (panicked : bool) then (None, k)
      else
        let repairs := send_repairs (requests o) (now (exec_env o)) (utf8 tenant) (utf8 db) (utf8 coll) (utf8 key) (canonical cv) co (repair cv) (cn_repairs k) in
        (Some (RBulk (Some (canonical cv))), put_repairs repairs k)
  end.

Definition maybe_converge_read_quorum o c (response : Response) k : option Response * Conn Ip D :=
  let '(v, x) := effective_values (exec_env o) c (cn_exec k) in
  let k := put_exec x k in
  match v with
  | Err _ => (Some response, k)
  | Panic => (None, k)
  | Ok (rc, _) =>
      if decide (default 1 rc ≤ 1) then (Some response, k)
      else
        match base_command c with
        | Query _ _ _ | QueryRange _ _ _ _ =>
            let '(r, x) := verify_index_query_quorum (exec_env o) co (answers o) c x in (r, put_exec x k)
        | _ =>
            match read_target c, current_db (session x), session_tenant (session x), response with
            | Some (coll, key), Some db, Ok tenant, RBulk local_value => converge_get o tenant db coll key local_value response k
            | _, _, _, _ => (Some response, k)
            end
        end
  end.

(** [record_local_index_ddl]; without a schema nothing is recorded. *)
Definition record_local_index_ddl o c k : outcome bytes unit * Conn Ip D :=
  let record (op : bytes → bytes → ST Node unit SchemaLogEntry) : outcome bytes unit * Conn Ip D :=
    match current_db (session (cn_exec k)) with
    | None => (Ok tt, k)
    | Some db =>
        match session_tenant (session (cn_exec k)) with
        | Ok tenant => (Ok tt, put_schema ((λ n, (op (utf8 tenant) (utf8 db) n).2) <$> cn_schema k) k)
        | Err err => (Err (show_auth_error (exec_env o) err), k)
        | Panic => (Panic, k)
        end
    end in
  match base_command c with
  | CreateIndex coll index path => record (λ t d, apply_local_create_index t d (utf8 coll) (utf8 index) (utf8 path) (millis o))
  | DropIndex coll index => record (λ t d, apply_local_drop_index t d (utf8 coll) (utf8 index) (millis o))
  | _ => (Ok tt, k)
  end.

(** [json!({"value": .., "vector_clock": ..})] *)
Definition value_with_clock o (value clock : chars) : bytes := put_wrapper (exec_env o) (utf8 value) (utf8 clock).

Definition write_quorum o c k : outcome bytes unit * Conn Ip D :=
  match effective_values (exec_env o) c (cn_exec k) with
  | (Ok v, x) =>
      let '(r, hints) := wait_for_write_ack_quorum (λ _ _, Some v) (value_with_clock o) (requests o) (now (exec_env o)) c (session x) co (cn_hints k) in
      (match r with Ok _ => Ok tt | Err err => Err (show_consistency_error o err) | Panic => Panic end, put_hints hints (put_exec x k))
  | (Err m, x) => (Err m, put_exec x k)
  | (Panic, x) => (Panic, put_exec x k)
  end.

(** A step that can only turn a response into an error: not done on an error. *)
Definition then_check (m : Conn Ip D → outcome bytes unit * Conn Ip D) (rk : option Response * Conn Ip D) : option Response * Conn Ip D :=
  match rk with
  | (Some response, k) =>
      if is_error response then rk
      else match m k with
           | (Ok _, k) => (Some response, k)
           | (Err msg, k) => (Some (RError msg), k)
           | (Panic, k) => (None, k)
           end
  | _ => rk
  end.

(** [execute_command] with its panics caught. *)
Definition execute o c k : Response * Conn Ip D :=
  let '(r, x) := execute_command (exec_env o) co (cn_schema k) (base_command c) (cn_exec k) in
  (match r with Some r => r | None => RError (str "internal error (corruption): " ++ panic_text o) end, put_exec x k).

(** Executed, converged, recorded and replicated. *)
Definition run_command o c k : option Response * Conn Ip D :=
  let '(response, k) := execute o c k in
  then_check (write_quorum o c) (then_check (record_local_index_ddl o c) (maybe_converge_read_quorum o c response k)).

Definition account_login o c (response : Response) k : Conn Ip D :=
  if is_login c then
    put_limits (if is_error response then record_failed_login is_loopback (clock o) ip (cn_limits k) else record_successful_login ip (cn_limits k)) k
  else k.

(** ** A line *)

(** The answer, if the connection survives the panic of a task after the execution, and
    whether the next line is read. *)
Abbreviation line_result := (option Response * bool * Conn Ip D)%type.

Definition refuse (m : bytes) k : line_result := (Some (RError m), true, k).

(** An error of the line itself: the eleventh in a row closes the connection. *)
Definition line_error (m : bytes) k : line_result :=
  let k := put_errors (consecutive_errors k + 1) k in (Some (RError m), negb (bool_decide (10 < consecutive_errors k)), k).

Definition retry_secs (ns : Z) : Z := Z.max (ns / 1000000000) 1.

(** A command that may be tried: authorized, checked, run and accounted for. *)
Definition try_command o c k : line_result :=
  match authorize (session (cn_exec k)) c with
  | Err err => refuse (show_auth_error (exec_env o) err) k
  | Panic => (None, false, k)
  | Ok _ =>
      let '(r, x) := check_concerns o c (cn_exec k) in
      let k := put_exec x k in
      match r with
      | Err m => refuse m k
      | Panic => (None, false, k)
      | Ok _ =>
          match run_command o c k with
          | (Some response, k) => (Some response, true, account_login o c response k)
          | (None, k) => (None, false, k)
          end
      end
  end.

(** A command that parsed. *)
Definition handle_command o c k : line_result :=
  match validate_consistency_command c co with
  | Err err => refuse (show_consistency_error o err) k
  | Panic => (None, false, k)
  | Ok _ =>
      match c with
      | Quit => (Some (ROk (str "BYE")), false, k)
      | Ping => (Some (ROk (str "PONG")), true, k)
      | _ =>
          let '(backoff, l) := if is_login c then login_backoff is_loopback (clock o) ip (cn_limits k) else (None, cn_limits k) in
          let k := put_limits l k in
          match backoff with
          | Some retry_after => refuse (str "rate limited (login: retry after " ++ dec (retry_secs retry_after) ++ str "s)") k
          | None => try_command o c k
          end
      end
  end.

Definition handle_line o (line : chars) k : line_result :=
  if negb (allowed o) then
    let k := put_rate (consecutive_rate_limits k + 1) k in
    (Some (RError (str "rate limited")), negb (bool_decide (10 < consecutive_rate_limits k)), k)
  else
    let k := put_rate 0 k in
    if decide (MAX_LINE_LENGTH < byte_len line) then line_error (str "line too long") k
    else match parse_command line with
         | Err err => line_error (show_protocol o err) k
         | Panic => (None, false, k)
         | Ok c => handle_command o c (put_errors 0 k)
         end.

(** The lines of a connection, until it is closed: the answers and the state left. *)
Fixpoint handle_lines (lines : list (Outside D * chars)) k : list (option Response) * Conn Ip D :=
  match lines with
  | [] => ([], k)
  | (o, line) :: lines =>
      let '(r, go_on, k) := handle_line o line k in
      if (go_on : bool) then let '(rs, k) := handle_lines lines k in (r :: rs, k) else ([r], k)
  end.
End connection.

(** ** Without credentials *)

Section inert.
Context `{UuidText, Base64, AuthCrates, RingHash, JsonPayloads} {D : Type} `{DbOps D} {Ip : Type} `{Countable Ip} (is_loopback : Ip → bool) (ip : Ip).
Context {JH : JsonLine HintRecord} {JR : JsonLine ReadRepairIntent} {JS : JsonLine SchemaLogEntry} (co : Coordinator).
Implicit Types (o : Outside D) (k : Conn Ip D) (c : Command) (x : Exec D).

(** Nobody is logged in and no database is selected. *)
Definition nobody (s : SessionContext) : Prop := claims s = None ∧ current_db s = None.

(** What must not change: everything but the limits and the counters of the connection. *)
Definition same_data k k' : Prop :=
  cn_exec k' = cn_exec k ∧ cn_hints k' = cn_hints k ∧ cn_repairs k' = cn_repairs k ∧ cn_schema k' = cn_schema k.

#[local] Instance same_data_preorder : PreOrder same_data.
Proof. split; [by intros k|]. intros k1 k2 k3 (A1 & A2 & A3 & A4) (B1 & B2 & B3 & B4). split_and!; congruence. Qed.

(** A line that shows no credentials the store accepts at its time. *)
Definition no_credentials o (a : AuthStore) c : Prop :=
  match c with
  | Login t u p => ∀ tokens, authenticate (now (exec_env o)) t u p a ≠ Ok tokens
  | Token token => ∀ tc, verify_token (now (exec_env o)) token a ≠ Ok tc
  | _ => True
  end.

Lemma effective_nobody o c x : nobody (session x) →
  effective_values (exec_env o) c x = (Ok (if bool_decide (is_Some (consistency_values c).1) || bool_decide (is_Some (consistency_values c).2) then consistency_values c else (None, None)), x).
Proof. intros [Hc Hd]. unfold effective_values. destruct (consistency_values c) as [r w]. cbn. destruct (_ || _); [done|]. by rewrite Hd. Qed.

Lemma with_effective_nobody {A} o c (f : (chars → chars → option (concern * concern)) → outcome ConsistencyError A) x : nobody (session x) → (with_effective o c f x).2 = x.
Proof. intros Hn. unfold with_effective. by rewrite effective_nobody. Qed.

Lemma check_concerns_nobody o c x : nobody (session x) → (check_concerns co o c x).2 = x.
Proof.
  intros Hn. unfold check_concerns, mbind, st_bind. set (f1 := with_effective o c _). assert (E1 : (f1 x).2 = x) by by apply with_effective_nobody.
  destruct (f1 x) as [[[]|err|] x1]; cbn in *; subst x1; [|done..]. set (f2 := with_effective o c _). assert (E2 : (f2 x).2 = x) by by apply with_effective_nobody.
  destruct (f2 x) as [[[]|err|] x2]; cbn in *; subst x2; [|done..]. by apply with_effective_nobody.
Qed.

(** What the commands allowed before a login do not have. *)
Lemma pre_auth_targets c : is_pre_auth c = true →
  write_target c = None ∧ read_target c = None ∧
  match base_command c with Login _ _ _ | Token _ | Refresh _ | Ping | Quit | WithConsistency _ _ _ => True | _ => False end.
Proof. destruct c; try done. match goal with b : Command |- _ => by destruct b end. Qed.

Lemma execute_nobody o sn c x : is_pre_auth c = true → no_credentials o (auth x) (base_command c) → (execute_command (exec_env o) co sn (base_command c) x).2 = x.
Proof.
  intros Hp. destruct (pre_auth_targets c Hp) as (_ & _ & Hb). destruct (base_command c); try done; cbn [execute_command no_credentials].
  - intros Hno. unfold run_login. destruct (authenticate _ _ _ _ _) as [tokens|err|]; [by destruct (Hno tokens)|done..].
  - intros Hno. unfold run_token. destruct (verify_token _ _ _) as [tc|err|]; [by destruct (Hno tc)|done..].
  - intros _. unfold run_refresh. by destruct (refresh_access_token _ _ _).
Qed.

Lemma put_exec_same (k : Conn Ip D) : put_exec (cn_exec k) k = k.
Proof. by destruct k. Qed.

Lemma converge_nobody o c response k : nobody (session (cn_exec k)) → is_pre_auth c = true → (maybe_converge_read_quorum co o c response k).2 = k.
Proof.
  intros Hn Hp. destruct (pre_auth_targets c Hp) as (_ & Hr & Hb). unfold maybe_converge_read_quorum. rewrite effective_nobody by done.
  destruct (if (_ : bool) then consistency_values c else (None, None)) as [rc w]. case_decide; [by rewrite put_exec_same|]. rewrite Hr.
  destruct (base_command c); try done; by rewrite put_exec_same.
Qed.

Lemma write_quorum_nobody o c k : nobody (session (cn_exec k)) → is_pre_auth c = true → (write_quorum co o c k).2 = k.
Proof.
  intros Hn Hp. destruct (pre_auth_targets c Hp) as (Hw & _). unfold write_quorum. rewrite effective_nobody by done.
  set (v := if (_ : bool) then _ else _). unfold wait_for_write_ack_quorum. destruct (effective_consistency_values _ c _) as [[r w]|err|]; [|cbn; by destruct k..].
  rewrite Hw. cbv zeta. case_decide; cbn; by destruct k.
Qed.

Lemma run_nobody o c k : nobody (session (cn_exec k)) → is_pre_auth c = true → no_credentials o (auth (cn_exec k)) (base_command c) → (run_command co o c k).2 = k.
Proof.
  intros Hn Hp Hc. unfold run_command, execute. pose proof (execute_nobody o (cn_schema k) c (cn_exec k) Hp Hc) as Hx.
  destruct (execute_command _ _ _ _ _) as [r x]. cbn in Hx. subst x. rewrite put_exec_same. set (resp := match r with Some _ => _ | None => _ end).
  pose proof (converge_nobody o c resp k Hn Hp) as Hcv. destruct (maybe_converge_read_quorum co o c resp k) as [r1 k1]. cbn in Hcv. subst k1.
  assert (Hddl : record_local_index_ddl o c k = (Ok tt, k)) by (destruct (pre_auth_targets c Hp) as (_ & _ & Hb); unfold record_local_index_ddl; by destruct (base_command c)).
  destruct r1 as [r1|]; [|done]. unfold then_check at 2. destruct (is_error r1) eqn:He; [unfold then_check; by rewrite He|]. rewrite Hddl. unfold then_check. rewrite He.
  pose proof (write_quorum_nobody o c k Hn Hp) as Hq. destruct (write_quorum co o c k) as [[[]|m|] k1]; by cbn in Hq.
Qed.

Lemma try_nobody o c k :
  nobody (session (cn_exec k)) → no_credentials o (auth (cn_exec k)) (base_command c) → same_data k (try_command is_loopback ip co o c k).2.
Proof.
  intros Hn Hc. unfold try_command. destruct (authorize (session (cn_exec k)) c) as [[]|err|] eqn:Ha; [|done..].
  assert (Hp : is_pre_auth c = true) by (unfold authorize in Ha; destruct (is_pre_auth c); [done|]; rewrite (proj1 Hn) in Ha; done).
  pose proof (check_concerns_nobody o c (cn_exec k) Hn) as Hx. destruct (check_concerns co o c (cn_exec k)) as [r x]. cbn in Hx. subst x. rewrite put_exec_same.
  destruct r as [[]|m|]; [|done..]. pose proof (run_nobody o c k Hn Hp Hc) as Hr. destruct (run_command co o c k) as [[r|] k2]; cbn in Hr; subst k2; [|done].
  cbn. unfold account_login. by destruct (is_login c).
Qed.

Lemma handle_command_nobody o c k :
  nobody (session (cn_exec k)) → no_credentials o (auth (cn_exec k)) (base_command c) → same_data k (handle_command is_loopback ip co o c k).2.
Proof.
  intros Hn Hc. unfold handle_command. destruct (validate_consistency_command c co); [|done..].
  set (p := if is_login c then _ else _). assert (Hmain : same_data k (let '(backoff, l) := p in let k := put_limits l k in
    match backoff with
    | Some retry_after => refuse (str "rate limited (login: retry after " ++ dec (retry_secs retry_after) ++ str "s)") k
    | None => try_command is_loopback ip co o c k
    end).2) by (destruct p as [[?|] l]; [done|]; etrans; [|by apply (try_nobody o c (put_limits l k))]; done).
  destruct c; (done || exact Hmain).
Qed.
Lemma handle_line_nobody o line k :
  nobody (session (cn_exec k)) → (∀ c, parse_command line = Ok c → no_credentials o (auth (cn_exec k)) (base_command c)) →
  same_data k (handle_line is_loopback ip co o line k).2.
Proof.
  intros Hn Hc. unfold handle_line. destruct (allowed o); [|done]. cbn [negb]. case_decide; [done|]. destruct (parse_command line) as [c|err|]; [|done..].
  etrans; [|apply handle_command_nobody; [done|by apply Hc]]. done.
Qed.

Lemma handle_lines_nobody lines k :
  nobody (session (cn_exec k)) →
  (∀ o line c, (o, line) ∈ lines → parse_command line = Ok c → no_credentials o (auth (cn_exec k)) (base_command c)) →
  same_data k (handle_lines is_loopback ip co lines k).2.
Proof.
  revert k. induction lines as [|[o line] lines IH]; intros k Hn Hc; [done|]. cbn [handle_lines].
  pose proof (handle_line_nobody o line k Hn (λ c, Hc o line c ltac:(left))) as Hs. destruct (handle_line is_loopback ip co o line k) as [[r go_on] k1]. cbn in Hs.
  destruct go_on; [|done]. destruct Hs as (Hx & Hrest). assert (Hs : same_data k1 (handle_lines is_loopback ip co lines k1).2).
  { apply IH; [by rewrite Hx|]. intros o' line' c' Hin. rewrite Hx. apply Hc. by right. }
  destruct (handle_lines is_loopback ip co lines k1) as [rs k2]. cbn in *. etrans; [|exact Hs]. done.
Qed.
End inert.

(** ** Users change only by authority *)

Section authority.
Context `{UuidText, Base64, AuthCrates, RingHash, JsonPayloads} {D : Type} `{DbOps D} {Ip : Type} `{Countable Ip} (is_loopback : Ip → bool) (ip : Ip).
Context {JH : JsonLine HintRecord} {JR : JsonLine ReadRepairIntent} {JS : JsonLine SchemaLogEntry} (co : Coordinator).
Implicit Types (o : Outside D) (k : Conn Ip D) (c : Command) (x : Exec D) (e : Env_ D).

Lemma handle_auth (t d : bytes) x : auth (handle t d x).2 = auth x.
Proof. unfold handle. by destruct (database t d (world x)). Qed.
Lemma call_auth {E A} e i (f : ST D E A) x : auth (call e i f x).2 = auth x.
Proof. unfold call. by destruct (f _). Qed.

Lemma on_database_auth e t d f x : auth (on_database e t d f x).2 = auth x.
Proof.
  unfold on_database. pose proof (handle_auth (utf8 t) (utf8 d) x) as Hh. destruct (handle (utf8 t) (utf8 d) x) as [[i|err|] x1]; cbn in *; [|done..].
  pose proof (call_auth e i f x1) as Hc. destruct (call e i f x1) as [r x2]; cbn in *; congruence.
Qed.
Lemma with_tenant_auth e f x : (∀ t, auth (f t x).2 = auth x) → auth (with_tenant e f x).2 = auth x.
Proof. intros Hf. unfold with_tenant. destruct (session_tenant (session x)); [apply Hf|done..]. Qed.
Lemma with_db_auth e f x : auth (with_db e f x).2 = auth x.
Proof. unfold with_db. apply with_tenant_auth. intros t. destruct (current_db (session x)); [apply on_database_auth|done]. Qed.
Lemma on_world_auth e m x : auth (on_world e m x).2 = auth x.
Proof. unfold on_world. by destruct (m (world x)). Qed.

Lemma execute_auth e sn c x : auth (execute_command e co sn c x).2 = auth x ∨ required_action c = ManageUsers.
Proof.
  destruct c; try (right; reflexivity); left; cbn [execute_command];
    first [ apply with_db_auth | apply on_world_auth | apply with_tenant_auth; intros t; first [apply on_database_auth|apply on_world_auth|done|idtac] | done | idtac ].
  - unfold run_login. destruct (authenticate _ _ _ _ _) as [[a r]|err|]; [|done..]. cbn. by destruct (verify_token _ _ _).
  - unfold run_token. by destruct (verify_token _ _ _).
  - unfold run_refresh. by destruct (refresh_access_token _ _ _).
  - by destruct (list_databases _ _).
Qed.
Lemma effective_auth e c x : auth (effective_values e c x).2 = auth x ∧ session (effective_values e c x).2 = session x.
Proof.
  unfold effective_values. destruct (consistency_values c) as [r w]. destruct (_ || _); [done|]. destruct (current_db (session x)) as [d|]; [|done].
  destruct (session_tenant (session x)) as [t|err|]; [|done..]. unfold handle. by destruct (database _ _ (world x)) as [[i|err|] w'].
Qed.

Lemma with_effective_auth {A} o c (f : (chars → chars → option (concern * concern)) → outcome ConsistencyError A) x :
  auth (with_effective o c f x).2 = auth x ∧ session (with_effective o c f x).2 = session x.
Proof. unfold with_effective. pose proof (effective_auth (exec_env o) c x) as He. by destruct (effective_values (exec_env o) c x) as [[v|m|] x1]. Qed.

Lemma check_concerns_auth o c x : auth (check_concerns co o c x).2 = auth x ∧ session (check_concerns co o c x).2 = session x.
Proof.
  unfold check_concerns, mbind, st_bind. set (f1 := with_effective o c _). assert (E1 : auth (f1 x).2 = auth x ∧ session (f1 x).2 = session x) by apply with_effective_auth.
  destruct (f1 x) as [[[]|err|] x1]; cbn in *; [|done..]. destruct E1 as [<- <-].
  set (f2 := with_effective o c _). assert (E2 : auth (f2 x1).2 = auth x1 ∧ session (f2 x1).2 = session x1) by apply with_effective_auth.
  destruct (f2 x1) as [[[]|err|] x2]; cbn in *; [|done..]. destruct E2 as [<- <-]. apply with_effective_auth.
Qed.

Lemma verify_auth e p c x : auth (verify_index_query_quorum e co p c x).2 = auth x.
Proof.
  unfold verify_index_query_quorum. pose proof (proj1 (effective_auth e c x)) as He. destruct (effective_values e c x) as [[[rc w]|m|] x1]; cbn in *; [|done..].
  rewrite <- He. destruct (current_db (session x1)) as [d|]; [|done]. apply with_tenant_auth. intros t. apply on_database_auth.
Qed.

Lemma converge_auth o c response k : auth (cn_exec (maybe_converge_read_quorum co o c response k).2) = auth (cn_exec k).
Proof.
  unfold maybe_converge_read_quorum. pose proof (proj1 (effective_auth (exec_env o) c (cn_exec k))) as He.
  destruct (effective_values (exec_env o) c (cn_exec k)) as [v x]. cbn in He. destruct v as [[rc w]|m|]; [|done..]. case_decide; [done|].
  assert (Hv : auth (cn_exec (let '(r, x0) := verify_index_query_quorum (exec_env o) co (answers o) c x in (r, put_exec x0 (put_exec x k))).2) = auth (cn_exec k)).
  { pose proof (verify_auth (exec_env o) (answers o) c x) as Hv. destruct (verify_index_query_quorum _ _ _ c x) as [r x2]. cbn in *. congruence. }
  assert (Hg : ∀ t d coll key lv, auth (cn_exec (converge_get co o t d coll key lv response (put_exec x k)).2) = auth (cn_exec k)).
  { intros t d coll key lv. unfold converge_get. destruct (converge _ _) as [cv|]; [|done]. set (p := if update_local cv then _ else _).
    assert (Hp : auth p.2 = auth x).
    { unfold p. destruct (update_local cv); [|done]. unfold update_local_value. cbn [cn_exec put_exec]. pose proof (handle_auth (utf8 t) (utf8 d) x) as Hh.
      destruct (handle (utf8 t) (utf8 d) x) as [[i|err|] x1]; cbn in *; [|done..]. pose proof (call_auth (exec_env o) i (converge_local o (utf8 coll) (utf8 key) (canonical cv)) x1) as Hc.
      destruct (call _ i _ x1) as [[[]|err|] x2]; cbn in *; congruence. }
    destruct p as [[] x2]; cbn in *; congruence. }
  assert (Ho : auth (cn_exec (match read_target c, current_db (session x), session_tenant (session x), response with
     | Some (coll, key), Some db, Ok tenant, RBulk local_value => converge_get co o tenant db coll key local_value response (put_exec x k)
     | _, _, _, _ => (Some response, put_exec x k) end).2) = auth (cn_exec k)).
  { destruct (read_target c) as [[coll key]|]; [|done]. destruct (current_db (session x)); [|done]. destruct (session_tenant (session x)); [|done..]. destruct response; [done..|apply Hg|done]. }
  destruct (base_command c); (exact Ho || exact Hv).
Qed.

Lemma run_auth o c k : auth (cn_exec (run_command co o c k).2) = auth (cn_exec k) ∨ required_action (base_command c) = ManageUsers.
Proof.
  unfold run_command, execute. destruct (execute_auth (exec_env o) (cn_schema k) (base_command c) (cn_exec k)) as [Hx|?]; [left|by right].
  destruct (execute_command _ _ _ _ _) as [r x]. cbn in Hx. set (resp := match r with Some _ => _ | None => _ end).
  pose proof (converge_auth o c resp (put_exec x k)) as Hcv. destruct (maybe_converge_read_quorum co o c resp (put_exec x k)) as [r1 k1]. cbn in Hcv.
  assert (Hthen : ∀ m rk, (∀ k, auth (cn_exec (m k).2) = auth (cn_exec k)) → auth (cn_exec (then_check (Ip := Ip) (D := D) m rk).2) = auth (cn_exec rk.2)).
  { intros m [[r'|] k'] Hm; [|done]. unfold then_check. destruct (is_error r'); [done|]. specialize (Hm k'). by destruct (m k') as [[[]|msg|] k2]. }
  rewrite Hthen; [rewrite Hthen; [cbn; congruence|]|].
  - intros k'. unfold record_local_index_ddl. destruct (base_command c); try done; destruct (current_db _); try done; by destruct (session_tenant _).
  - intros k'. unfold write_quorum. pose proof (proj1 (effective_auth (exec_env o) c (cn_exec k'))) as He.
    destruct (effective_values (exec_env o) c (cn_exec k')) as [[v|m|] x2]; cbn in *; [|done..]. by destruct (wait_for_write_ack_quorum _ _ _ _ _ _ _ _).
Qed.

Lemma manage_users_authorized s c : authorize s c = Ok tt → required_action c = ManageUsers →
  ∃ cl ra, claims s = Some cl ∧ ra ∈ roles cl ∧ permits ra AManageUsers SServer = true.
Proof.
  intros [Hp|(cl & Hcl & Hor)]%authorize_ok Hr; [apply (pre_auth_session c None) in Hp as [Hs _]; congruence|].
  assert (Ht : target_resource (current_db s) c = RServer).
  { clear -Hr. induction c; cbn in Hr |- *; (done || auto). }
  destruct Hor as [?|[?|(a & t & ra & Ha & Hres & Hin & Hp & Hc)]]; [congruence|congruence|]. rewrite Hr in Ha. rewrite Ht in Hres. injection Ha as <-. injection Hres as <-.
  exists cl, ra. split_and!; [done|done|]. unfold permits. by rewrite Hp, Hc.
Qed.
Lemma base_action c : required_action (base_command c) = required_action c.
Proof. by destruct c. Qed.

Lemma try_auth o c k : auth (cn_exec (try_command is_loopback ip co o c k).2) = auth (cn_exec k) ∨ (authorize (session (cn_exec k)) c = Ok tt ∧ required_action c = ManageUsers).
Proof.
  unfold try_command. destruct (authorize (session (cn_exec k)) c) as [[]|err|]; [|by left..].
  pose proof (proj1 (check_concerns_auth o c (cn_exec k))) as Hx. destruct (check_concerns co o c (cn_exec k)) as [[[]|m|] x]; cbn in Hx; [|by left..].
  destruct (run_auth o c (put_exec x k)) as [Hr|Hr]; [|right; by rewrite <- base_action]. left.
  destruct (run_command co o c (put_exec x k)) as [[r|] k2]; cbn in *; [|congruence]. unfold account_login. destruct (is_login c); cbn; congruence.
Qed.

Lemma handle_command_auth o c k : auth (cn_exec (handle_command is_loopback ip co o c k).2) = auth (cn_exec k) ∨ (authorize (session (cn_exec k)) c = Ok tt ∧ required_action c = ManageUsers).
Proof.
  unfold handle_command. destruct (validate_consistency_command c co); [|by left..].
  set (p := if is_login c then _ else _). assert (Hmain : auth (cn_exec (let '(backoff, l) := p in let k := put_limits l k in
    match backoff with
    | Some retry_after => refuse (str "rate limited (login: retry after " ++ dec (retry_secs retry_after) ++ str "s)") k
    | None => try_command is_loopback ip co o c k
    end).2) = auth (cn_exec k) ∨ (authorize (session (cn_exec k)) c = Ok tt ∧ required_action c = ManageUsers))
    by (destruct p as [[?|] l]; [by left|]; apply (try_auth o c (put_limits l k))).
  destruct c; (exact Hmain || by left).
Qed.

(** C9: The connection is guarded.  As long as no line shows a password or a token that the
    store accepts, a connection that nobody has logged into changes nothing of the server:
    no database, no user, no hint, no repair and no schema, whatever the lines say.  And
    on any connection the users change only by a line of a session that holds a role which
    permits managing users on the whole server. *)
Theorem connection_guarded (lines : list (Outside D * chars)) o line k :
  (nobody (session (cn_exec k)) →
   (∀ o' line' c, (o', line') ∈ lines → parse_command line' = Ok c → no_credentials o' (auth (cn_exec k)) (base_command c)) →
   same_data k (handle_lines is_loopback ip co lines k).2) ∧
  (auth (cn_exec (handle_line is_loopback ip co o line k).2) ≠ auth (cn_exec k) →
   ∃ cl ra, claims (session (cn_exec k)) = Some cl ∧ ra ∈ roles cl ∧ permits ra AManageUsers SServer = true).
Proof.
  split; [apply handle_lines_nobody|]. unfold handle_line. destruct (allowed o); [|done]. cbn [negb]. case_decide; [done|].
  destruct (parse_command line) as [c|err|]; [|done..]. intros Hne.
  destruct (handle_command_auth o c (put_errors 0 (put_rate 0 k))) as [?|[Ha Hr]]; [done|]. exact (manage_users_authorized _ _ Ha Hr).
Qed.

(** A session whose current database is not there is stuck: every line but PING and QUIT,
    USE of another database included, is answered by an error and does nothing. *)
Lemma session_wedged o c k cl db err :
  claims (session (cn_exec k)) = Some cl → current_db (session (cn_exec k)) = Some db →
  database (utf8 (tenant cl)) (utf8 db) (world (cn_exec k)) = (Err err, world (cn_exec k)) →
  consistency_values c = (None, None) → authorize (session (cn_exec k)) c = Ok tt → c ≠ Quit → c ≠ Ping → is_login c = false →
  handle_command is_loopback ip co o c k = (Some (RError (display (io_text (exec_env o)) err)), true, k).
Proof.
  intros Hcl Hd Hdb Hv Ha Hq Hp Hl. assert (Hlim : put_limits (cn_limits k) k = k) by by destruct k.
  assert (Hw : with_world (world (cn_exec k)) (cn_exec k) = cn_exec k) by (by destruct (cn_exec k)).
  assert (Heff : effective_values (exec_env o) c (cn_exec k) = (Err (display (io_text (exec_env o)) err), cn_exec k)).
  { unfold effective_values. rewrite Hv. cbn. rewrite Hd. unfold session_tenant. rewrite Hcl. cbn. unfold handle. rewrite Hdb. by rewrite Hw. }
  assert (Htry : try_command is_loopback ip co o c k = (Some (RError (display (io_text (exec_env o)) err)), true, k)).
  { unfold try_command. rewrite Ha. unfold check_concerns, mbind, st_bind, with_effective. rewrite Heff. by rewrite put_exec_same. }
  unfold handle_command, validate_consistency_command. rewrite Hv. cbn. rewrite Hl, Hlim, Htry. by destruct c.
Qed.
End authority.

(** ** Evaluation *)

Definition demo_outside : Outside MemDb := mkOutside true 0 0 mem_env (mkPeers (λ _, true) (λ _ _, Ok None) (λ _ _, Ok [])) (λ _ _, true) (λ _, []) (λ _, []) [].
Definition demo_limits : Limits Z := limits_new (mkLimitsConfig 5 10 100 false).
Definition demo_conn (s : SessionContext) (a : AuthStore) (d : MemDb) : Conn Z MemDb :=
  mkConn (mkExec s a (world (mem_exec d)) (dbs (mem_exec d))) demo_limits ∅ None None 0 0.

#[export] Instance intent_eq_dec : EqDecision ReadRepairIntent.
Proof. solve_decision. Defined.
#[export] Program Instance intent_countable : Countable ReadRepairIntent :=
  inj_countable' (λ i, (rr_created_at_unix i, rr_tenant i, rr_database i, rr_collection i, rr_key i, target_node_id i, value_json i, reason i))
    (λ '(a, b, c, d, e, f, g, h), mkIntent a b c d e f g h) _.
Next Obligation. by intros []. Qed.

Definition demo_store : AuthStore := mkStore (mkDir ∅ None None ∅ None) (new_hs256 [] 60 600) [mkUser (txt "bob") (txt "alice") (z2b <$> txt "pw") [mkRole TenantAdmin STenant] 5].

Lemma connection_guarded_witness :
  let U := uuid_plain in let B := base64_plain in let K := toy_crates in let R := Ring.demo in let J := plain_json in let O := mem_ops in
  let JH := digits_json HintRecord in let JR := digits_json ReadRepairIntent in let JS := digits_json SchemaLogEntry in
  let k := demo_conn session_new demo_store {[str "users" := []]} in
  let lines := [(demo_outside, txt "LOGIN alice bob wrong"); (demo_outside, txt "USE app"); (demo_outside, txt "INSERT users k v")] in
  same_data k (handle_lines (λ _ : Z, false) 1 mem_coordinator lines k).2.
Proof.
  intros U B K R J O JH JR JS k lines. apply (proj1 (connection_guarded (λ _ : Z, false) 1 mem_coordinator lines demo_outside [] k)); [done|].
  intros o line c Hin Hp. unfold lines in Hin. rewrite !elem_of_cons, elem_of_nil in Hin. destruct Hin as [[= -> ->]|[[= -> ->]|[[= -> ->]|[]]]].
  - vm_compute in Hp. injection Hp as <-. intros tokens. vm_compute. discriminate.
  - vm_compute in Hp. injection Hp as <-. done.
  - vm_compute in Hp. injection Hp as <-. done.
Defined.

(** Dropping the database in use answers an error, although the database is gone. *)
Lemma drop_current_reports_error :
  let U := uuid_plain in let B := base64_plain in let K := toy_crates in let R := Ring.demo in let J := plain_json in let O := mem_ops in
  let JH := digits_json HintRecord in let JR := digits_json ReadRepairIntent in let JS := digits_json SchemaLogEntry in
  let s := mkSession (Some (mkClaims (txt "bob") (txt "alice") [mkRole TenantAdmin STenant])) (Some (txt "app")) in
  let k := demo_conn s demo_store ∅ in
  let out := handle_command (λ _ : Z, false) 1 mem_coordinator demo_outside (DropDatabase (txt "app")) k in
  out.1.1 = Some (RError (str "database not found: app")) ∧
  bool_decide ([str "data"; str "alice"; str "app"] ∈ dirs (world (cn_exec k))) = true ∧ bool_decide ([str "data"; str "alice"; str "app"] ∈ dirs (world (cn_exec out.2))) = false.
Proof. split_and!; vm_compute; reflexivity. Qed.
