(* ===== verification/Client.v ===== *)
(** * The client library (grumpydb-client/src/lib.rs and connection.rs)

    A connection is the bytes that have arrived and not been read, and what the library
    remembers of the session.  [Network] is the world outside: connecting to a node, and
    the bytes a node sends when a line reaches it.  JSON texts and the check of a token
    against a key set are parameters ([ClientCrates]). *)

From S2P Require Import Prelude RustStd AppliedSet Command Parser ParserSpec Response Handler JsonValue.

Local Open Scope Z_scope.

Inductive ClientError :=
| CConnection
| CAuth (msg : bytes)
| CProtocol (msg : string)
| CJwt (msg : bytes)
| CServer (msg : bytes).

(** ** Texts *)

(** [str::chars] of valid UTF-8 *)
Fixpoint chars_of (l : bytes) : chars :=
  match l with
  | [] => []
  | b0 :: l1 =>
      if b2z b0 <? 128 then b2z b0 :: chars_of l1
      else if b2z b0 <? 224 then
        match l1 with b1 :: l2 => (b2z b0 - 192) * 64 + (b2z b1 - 128) :: chars_of l2 | _ => [] end
      else if b2z b0 <? 240 then
        match l1 with b1 :: b2 :: l3 => (b2z b0 - 224) * 4096 + (b2z b1 - 128) * 64 + (b2z b2 - 128) :: chars_of l3 | _ => [] end
      else
        match l1 with
        | b1 :: b2 :: b3 :: l4 => (b2z b0 - 240) * 262144 + (b2z b1 - 128) * 4096 + (b2z b2 - 128) * 64 + (b2z b3 - 128) :: chars_of l4
        | _ => []
        end
  end.

(** [str::strip_prefix] *)
Definition strip_prefix (p s : chars) : option chars := if decide (take (length p) s = p) then Some (drop (length p) s) else None.

Fixpoint after_last (sep : Z) (s : chars) : option (chars * chars) :=
  match s with
  | [] => None
  | c :: s =>
      match after_last sep s with
      | Some (a, b) => Some (c :: a, b)
      | None => if decide (c = sep) then Some ([], s) else None
      end
  end.

(** [rsplit_once(':')] and a port *)
Definition host_port (s : chars) : option (chars * Z) :=
  '(host, port_str) ← after_last 58 s;
  port ← parse_unsigned u16_max port_str;
  Some (host, port).

Definition parse_seed (seed : chars) : option (chars * Z) :=
  '(host, port) ← host_port seed;
  match host with [] => None | _ => Some (host, port) end.

(** "forward to <node_id>@<host:port>; not the owner" *)
Definition parse_forward_target (msg : bytes) : option (chars * Z) :=
  '(_, after_at) ← split_once 64 (chars_of msg);
  '(addr, _) ← split_once 59 after_at;
  host_port (trim addr).

(** ** The connection *)

Record Connection := mkConnection {
  conn_id : nat;
  unread : bytes;
  tls : bool;
  session_token : option chars;
  conn_db : option chars;
}.

Definition with_unread (b : bytes) (c : Connection) : Connection := mkConnection (conn_id c) b (tls c) (session_token c) (conn_db c).

Class Network (N : Type) := {
  dial : chars → Z → bool → N → option (nat * bytes * N);
  writable : nat → N → bool;
  serve_line : nat → chars → N → bytes * N;
}.

(** [AsyncBufReadExt::read_line]: up to and with the line feed, as a [String]. *)
Fixpoint through_lf (l : bytes) : bytes :=
  match l with [] => [] | b :: l => if decide (b = x0a) then [b] else b :: through_lf l end.

Definition read_line : ST Connection ClientError bytes := λ c,
  let line := through_lf (unread c) in
  (if utf8_valid line then Ok line else Err CConnection, with_unread (drop (length line) (unread c)) c).

Section responses.
Variable response_size : Z.

(** [header[1..].trim()] *)
Definition header_text (header : bytes) : chars := trim (chars_of (drop 1 header)).

Definition read_bulk_response (header : bytes) : ST Connection ClientError Response := λ c,
  match parse_i64 (header_text header) with
  | None => (Err (CProtocol "invalid bulk length"), c)
  | Some len =>
      if decide (len < 0) then (Ok (RBulk None), c)
      else if decide (9223372036854775807 < len + 2) then (Panic, c)
      else if decide (Z.of_nat (length (unread c)) < len + 2) then (Err CConnection, with_unread [] c)
      else (Ok (RBulk (Some (from_utf8_lossy (take (Z.to_nat len) (unread c))))), with_unread (drop (Z.to_nat len + 2) (unread c)) c)
  end.

(** [for _ in 0..count]; every item takes bytes, so their number bounds the loop. *)
Fixpoint read_items (read : FT Connection ClientError Response) (fuel : nat) (count : Z) : FT Connection ClientError (list Response) :=
  if decide (count ≤ 0) then mret []
  else match fuel with
       | O => ft_stop
       | S fuel => r ← read; rs ← read_items read fuel (count - 1); mret (r :: rs)
       end.

Definition read_array_response (read : FT Connection ClientError Response) (header : bytes) : FT Connection ClientError Response := λ c,
  match parse_unsigned u64_max (header_text header) with
  | None => Some (Err (CProtocol "invalid array count"), c)
  | Some count =>
      if decide (9223372036854775807 < count * response_size) then Some (Panic, c)
      else (items ← read_items read (S (length (unread c))) count; mret (RArray items)) c
  end.

Definition single_line (line : bytes) : outcome ClientError Response :=
  match parse response_size line with
  | Some (Ok (r, _)) => Ok r
  | Some (Err Incomplete) => Err (CProtocol "incomplete response data")
  | Some (Err (InvalidPrefix _)) => Err (CProtocol "invalid response prefix")
  | Some (Err (InvalidInteger _)) => Err (CProtocol "invalid integer")
  | Some (Err (InvalidBulkLength _)) => Err (CProtocol "invalid bulk length")
  | Some Panic | None => Panic
  end.

(** [fuel] bounds the nesting of arrays. *)
Fixpoint read_response (fuel : nat) : FT Connection ClientError Response :=
  match fuel with
  | O => ft_stop
  | S fuel =>
      line ← ft_lift read_line;
      match line with
      | [] => ft_lift (st_fail CConnection)
      | first :: _ =>
          if decide (first = x24) then ft_lift (read_bulk_response line)
          else if decide (first = x2a) then read_array_response (read_response fuel) line
          else ft_lift (st_lift (single_line line))
      end
  end.
End responses.

Definition update_session_state (cmd : chars) (c : Connection) : Connection :=
  let trimmed := trim cmd in
  match strip_prefix (kw "TOKEN ") trimmed with
  | Some token => if decide (trim token ≠ []) then mkConnection (conn_id c) (unread c) (tls c) (Some (trim token)) (conn_db c) else c
  | None =>
      match strip_prefix (kw "USE ") trimmed with
      | Some db => if decide (trim db ≠ []) then mkConnection (conn_id c) (unread c) (tls c) (session_token c) (Some (trim db)) else c
      | None => c
      end
  end.

(** ** Sending commands *)

(** The lines of a text, each with its line feed; what follows the last one has not
    reached the server as a line. *)
Fixpoint complete_lines (cur : chars) (s : chars) : list chars :=
  match s with
  | [] => []
  | c :: s => if decide (c = 10) then (cur ++ [c]) :: complete_lines [] s else complete_lines (cur ++ [c]) s
  end.

Section sending.
Context (response_size : Z) {N : Type} `{Network N}.

Abbreviation io := (FT (Connection * N) ClientError).

(** The server gets the text line by line, and what it sends arrives. *)
Fixpoint serve_lines (id : nat) (lines : list chars) (n : N) : bytes * N :=
  match lines with
  | [] => ([], n)
  | line :: lines => let '(b, n) := serve_line id line n in let '(b', n) := serve_lines id lines n in (b ++ b', n)
  end.

(** [write_all] and [flush] *)
Definition write_text (s : chars) : io unit := λ '(c, n),
  if writable (conn_id c) n then
    let '(b, n) := serve_lines (conn_id c) (complete_lines [] s) n in Some (Ok tt, (with_unread (unread c ++ b) c, n))
  else Some (Err CConnection, (c, n)).

Definition on_stream {A} (m : FT Connection ClientError A) : io A := ft_zoom fst (λ c s, (c, s.2)) m.

Definition ends_crlf (s : chars) : bool := bool_decide (take 2 (reverse s) = [10; 13]).

Definition send_and_read (cmd : chars) : io Response :=
  _ ← write_text (if ends_crlf cmd then cmd else cmd ++ [13; 10]);
  _ ← ft_lift (st_modify (λ '(c, n), (update_session_state cmd c, n)));
  '(c, _) ← ft_lift st_get;
  on_stream (read_response response_size (S (length (unread c)))).

Definition connect (host : chars) (port : Z) (tls : bool) : ST N ClientError Connection := λ n,
  match dial host port tls n with
  | None => (Err CConnection, n)
  | Some (id, banner, n) =>
      let '(r, c) := read_line (mkConnection id banner tls None None) in
      (match r with Ok _ => Ok c | Err e => Err e | Panic => Panic end, n)
  end.

(** [if let Some(x) = field { let _ = conn.send_and_read(..).await; }] *)
Definition replay (verb : string) (o : option chars) : io unit :=
  match o with Some x => ft_ignore (send_and_read (kw verb ++ 32 :: x)) | None => mret tt end.

(** On a connection of its own, which is dropped afterwards. *)
Definition forward_once (host : chars) (port : Z) (cmd : chars) : io Response := λ '(c, n),
  match connect host port (tls c) n with
  | (Ok c', n) =>
      match (_ ← replay "TOKEN" (session_token c); _ ← replay "USE" (conn_db c); send_and_read cmd) (c', n) with
      | Some (r, (_, n)) => Some (r, (c, n))
      | None => None
      end
  | (Err e, n) => Some (Err e, (c, n))
  | (Panic, n) => Some (Panic, (c, n))
  end.

Definition execute (cmd : chars) : io Response :=
  resp ← send_and_read cmd;
  match resp with
  | RError msg =>
      match parse_forward_target msg with
      | Some (host, port) => forward_once host port cmd
      | None => mret resp
      end
  | _ => mret resp
  end.
End sending.

(** ** Answers *)

Class ClientCrates := {
  json_text : JsonV → chars;
  json_read : bytes → option JsonV;
  jwks_verify : chars → chars → option bytes;
}.

Definition expect_ok (resp : Response) : outcome ClientError unit :=
  match resp with
  | ROk _ => Ok tt
  | RError msg => Err (CServer msg)
  | _ => Err (CProtocol "expected OK response")
  end.

Definition expect_string_array (resp : Response) : outcome ClientError (list bytes) :=
  match resp with
  | RArray items => Ok (omap (λ item, match item with RBulk (Some s) => Some s | _ => None end) items)
  | RError msg => Err (CServer msg)
  | _ => Err (CProtocol "expected array response")
  end.

(** [data.split_once(' ')] on bytes: an ASCII separator is a byte of its own. *)
Fixpoint split_space (s : bytes) : option (bytes * bytes) :=
  match s with
  | [] => None
  | b :: s => if decide (b = x20) then Some ([], s) else '(a, r) ← split_space s; Some (b :: a, r)
  end.

Definition parse_row `{ClientCrates} (item : Response) : option (bytes * JsonV) :=
  match item with
  | RBulk (Some data) => '(key, json_str) ← split_space data; val ← json_read json_str; Some (key, val)
  | _ => None
  end.

Definition parse_kv_array `{ClientCrates} (resp : Response) : outcome ClientError (list (bytes * JsonV)) :=
  match resp with
  | RArray items => Ok (omap parse_row items)
  | RError msg => Err (CServer msg)
  | _ => Err (CProtocol "expected array response")
  end.

Definition read_document `{ClientCrates} (resp : Response) : outcome ClientError (option JsonV) :=
  match resp with
  | RBulk (Some data) => val ← ok_or (json_read data) (CProtocol "invalid JSON"); Ok (Some val)
  | RBulk None => Ok None
  | RError msg => Err (CServer msg)
  | _ => Err (CProtocol "unexpected GET response")
  end.

Definition read_count (resp : Response) : outcome ClientError Z :=
  match resp with
  | RInteger n => Ok n
  | RError msg => Err (CServer msg)
  | _ => Err (CProtocol "unexpected COUNT response")
  end.

Definition read_snapshot_hlc (resp : Response) : outcome ClientError Z :=
  match resp with
  | RInteger n => if decide (0 ≤ n) then Ok n else Err (CProtocol "negative SNAPSHOT_HLC response")
  | RError msg => Err (CServer msg)
  | _ => Err (CProtocol "unexpected SNAPSHOT_HLC response")
  end.

Definition read_whoami (resp : Response) : outcome ClientError bytes :=
  match resp with
  | ROk msg => Ok msg
  | RError msg => Err (CServer msg)
  | _ => Err (CProtocol "unexpected WHOAMI response")
  end.

(** A bulk string that holds the JSON of a structure, read by [parse]. *)
Definition read_struct {T} (parse : bytes → option T) (resp : Response) : outcome ClientError T :=
  match resp with
  | RBulk (Some json) => ok_or (parse json) (CProtocol "invalid JSON")
  | RError msg => Err (CServer msg)
  | _ => Err (CProtocol "unexpected response")
  end.

(** ** A database of a client *)

Section calls.
Context (response_size : Z) {N : Type} `{Network N, ClientCrates, UuidText}.

Abbreviation io := (FT (Connection * N) ClientError).

Definition uuid_chars (key : bytes) : chars := codes (uuid_text (as_u128 key)).

(** [read(self.conn.execute(cmd).await?)] *)
Definition ask {A} (cmd : chars) (read : Response → outcome ClientError A) : io A :=
  resp ← execute response_size cmd; ft_lift (st_lift (read resp)).

Definition insert (collection : chars) (key : bytes) (value : JsonV) : io unit :=
  ask (kw "INSERT " ++ collection ++ 32 :: uuid_chars key ++ 32 :: json_text value) expect_ok.
Definition get (collection : chars) (key : bytes) : io (option JsonV) :=
  ask (kw "GET " ++ collection ++ 32 :: uuid_chars key) read_document.
Definition get_with_siblings (collection : chars) (key : bytes) : io (list (JsonV * bytes)) :=
  doc ← get collection key; mret (match doc with Some v => [(v, str "{}")] | None => [] end).
Definition update (collection : chars) (key : bytes) (value : JsonV) : io unit :=
  ask (kw "UPDATE " ++ collection ++ 32 :: uuid_chars key ++ 32 :: json_text value) expect_ok.
Definition delete (collection : chars) (key : bytes) : io unit :=
  ask (kw "DELETE " ++ collection ++ 32 :: uuid_chars key) expect_ok.
Definition scan (collection : chars) (start_ end_ : option bytes) : io (list (bytes * JsonV)) :=
  ask (match start_, end_ with
       | Some s, Some e => kw "SCAN " ++ collection ++ 32 :: uuid_chars s ++ 32 :: uuid_chars e
       | _, _ => kw "SCAN " ++ collection
       end) parse_kv_array.
Definition count (collection : chars) : io Z := ask (kw "COUNT " ++ collection) read_count.
Definition create_collection (name : chars) : io unit := ask (kw "CREATE COLLECTION " ++ name) expect_ok.
Definition drop_collection (name : chars) : io unit := ask (kw "DROP COLLECTION " ++ name) expect_ok.
Definition list_collections : io (list bytes) := ask (kw "LIST COLLECTIONS") expect_string_array.
Definition create_index (collection index_name field_path : chars) : io unit :=
  ask (kw "CREATE INDEX " ++ collection ++ 32 :: index_name ++ 32 :: field_path) expect_ok.
Definition drop_index (collection index_name : chars) : io unit :=
  ask (kw "DROP INDEX " ++ collection ++ 32 :: index_name) expect_ok.
Definition list_indexes (collection : chars) : io (list bytes) := ask (kw "LIST INDEXES " ++ collection) expect_string_array.
Definition query (collection index_name : chars) (value : JsonV) : io (list (bytes * JsonV)) :=
  ask (kw "QUERY " ++ collection ++ 32 :: index_name ++ 32 :: json_text value) parse_kv_array.
Definition compact (collection : chars) : io unit := ask (kw "COMPACT " ++ collection) expect_ok.
Definition flush : io unit := ask (kw "FLUSH") expect_ok.
End calls.

(** ** The client *)

Record TopologyPeer := mkTopologyPeer { peer_node_id : bytes; peer_addr : bytes }.
Record TopologyWriter := mkTopologyWriter { writer_collection : bytes; writer_node_id : bytes }.
Record ClusterTopology := mkTopology {
  topo_cluster_id : bytes;
  topo_local_node_id : bytes;
  topo_n : Z;
  vnodes_per_node : Z;
  topo_peers : list TopologyPeer;
  writers : list TopologyWriter;
}.
Record DatabaseConsistency := mkConsistency { cons_database : bytes; cons_read : option Z; cons_write : option Z }.

Record GrumpyClient := mkClient {
  conn : Connection;
  access_token : option chars;
  refresh_token : option chars;
  topology_cache : option ClusterTopology;
  jwks_url : option chars;
}.

Definition with_conn (c : Connection) (g : GrumpyClient) : GrumpyClient := mkClient c (access_token g) (refresh_token g) (topology_cache g) (jwks_url g).
Definition with_topology (t : ClusterTopology) (g : GrumpyClient) : GrumpyClient := mkClient (conn g) (access_token g) (refresh_token g) (Some t) (jwks_url g).
Definition with_tokens (a : chars) (r : option chars) (g : GrumpyClient) : GrumpyClient :=
  mkClient (conn g) (Some a) (match r with Some r => Some r | None => refresh_token g end) (topology_cache g) (jwks_url g).

Section client.
Context (response_size : Z) {N : Type} `{Network N, ClientCrates, UuidText}.
Context (topology_read : bytes → option ClusterTopology) (consistency_read : bytes → option DatabaseConsistency).

Abbreviation gio := (FT (GrumpyClient * N) ClientError).

Definition client_connect (host : chars) (port : Z) (tls : bool) : ST N ClientError GrumpyClient :=
  c ← connect host port tls; mret (mkClient c None None None None).

(** The first seed that answers; the error of the last one, whose text is left out. *)
Fixpoint connect_seeds (seeds : list chars) (tls : bool) : ST N ClientError GrumpyClient := λ n,
  match seeds with
  | [] => (Err CConnection, n)
  | seed :: seeds =>
      match parse_seed seed with
      | None => connect_seeds seeds tls n
      | Some (host, port) =>
          match client_connect host port tls n with
          | (Ok client, n) => (Ok client, n)
          | (Err _, n) => connect_seeds seeds tls n
          | (Panic, n) => (Panic, n)
          end
      end
  end.

Definition connect_cluster (seeds : list chars) (tls : bool) : ST N ClientError GrumpyClient :=
  match seeds with
  | [] => st_fail (CProtocol "connect_cluster requires at least one seed")
  | _ => connect_seeds seeds tls
  end.

Definition on_conn {A} (m : FT (Connection * N) ClientError A) : gio A :=
  ft_zoom (λ s, (conn s.1, s.2)) (λ t s, (with_conn t.1 s.1, t.2)) m.

Definition asked {A} (cmd : chars) (read : Response → outcome ClientError A) : gio A := on_conn (ask response_size cmd read).

Definition refresh_topology : gio ClusterTopology :=
  topo ← asked (kw "TOPOLOGY") (read_struct topology_read);
  _ ← ft_lift (st_modify (λ '(g, n), (with_topology topo g, n)));
  mret topo.

Definition topology : gio ClusterTopology :=
  '(g, _) ← ft_lift st_get;
  match topology_cache g with Some t => mret t | None => refresh_topology end.

(** [self.jwks_cache.verify_access_token(&token).await?], when a key set is configured *)
Definition check_jwks (g : GrumpyClient) (token : chars) : outcome ClientError unit :=
  match jwks_url g with
  | None => Ok tt
  | Some url => match jwks_verify url token with Some e => Err (CJwt e) | None => Ok tt end
  end.

(** The two parts of "TOKEN <access> <refresh>". *)
Definition token_parts (msg : bytes) : bytes * option bytes :=
  let rest := drop 6 msg in
  match split_space rest with Some (a, r) => (a, Some r) | None => (rest, None) end.

Definition login (tenant username password : chars) : gio unit :=
  resp ← on_conn (execute response_size (kw "LOGIN " ++ tenant ++ 32 :: username ++ 32 :: password));
  match resp with
  | RError msg => ft_lift (st_fail (CAuth msg))
  | ROk msg =>
      if decide (take 6 msg = str "TOKEN ") then
        let '(access, refresh) := token_parts msg in
        let token := chars_of access in
        _ ← ft_lift (st_modify (λ '(g, n), (with_tokens token (chars_of <$> refresh) g, n)));
        '(g, _) ← ft_lift st_get;
        _ ← ft_lift (st_lift (check_jwks g token));
        _ ← on_conn (execute response_size (kw "TOKEN " ++ token));
        ft_ignore refresh_topology
      else ft_lift (st_fail (CProtocol "unexpected LOGIN response"))
  | _ => ft_lift (st_fail (CProtocol "unexpected LOGIN response"))
  end.

Definition database (name : chars) : gio unit :=
  asked (kw "USE " ++ name) (λ resp, match resp with ROk _ => Ok tt | RError msg => Err (CServer msg) | _ => Err (CProtocol "unexpected USE response") end).
Definition create_database (name : chars) : gio unit := asked (kw "CREATE DATABASE " ++ name) expect_ok.
Definition drop_database (name : chars) : gio unit := asked (kw "DROP DATABASE " ++ name) expect_ok.
Definition list_databases : gio (list bytes) := asked (kw "LIST DATABASES") expect_string_array.

Definition set_database_consistency (db : chars) (read_concern write_concern : option Z) : gio unit :=
  match read_concern, write_concern with
  | None, None => ft_lift (st_fail (CProtocol "set_database_consistency requires read_concern and/or write_concern"))
  | _, _ =>
      asked (kw "ALTER DATABASE " ++ db ++ kw " SET CONSISTENCY"
             ++ match read_concern with Some r => kw " READ_CONCERN R=" ++ show_nat r | None => [] end
             ++ match write_concern with Some w => kw " WRITE_CONCERN W=" ++ show_nat w | None => [] end) expect_ok
  end.

Definition reset_database_consistency (db : chars) : gio unit := asked (kw "ALTER DATABASE " ++ db ++ kw " RESET CONSISTENCY") expect_ok.
Definition show_database_consistency (db : chars) : gio DatabaseConsistency :=
  asked (kw "SHOW DATABASE " ++ db ++ kw " CONSISTENCY") (read_struct consistency_read).
Definition whoami : gio bytes := asked (kw "WHOAMI") read_whoami.
Definition snapshot_hlc : gio Z := asked (kw "SNAPSHOT_HLC") read_snapshot_hlc.
Definition ping : gio unit := asked (kw "PING") expect_ok.
Definition close : gio unit := ft_ignore (on_conn (execute response_size (kw "QUIT"))).
Definition raw_execute (cmd : chars) : gio Response := on_conn (execute response_size cmd).
Definition set_jwks_url (url : chars) : gio unit :=
  ft_lift (st_modify (λ '(g, n), (mkClient (conn g) (access_token g) (refresh_token g) (topology_cache g) (Some url), n))).
End client.
