(* ===== verification/ClientSpec.v ===== *)
(** * What the client library promises

    The text of each call is read by the server as the command it is meant to be, and the
    answer of the server is what the call returns; a node that names the owner of a
    document in its answer is followed, with the session, once. *)

From S2P Require Import Prelude RustStd AppliedSet Command Parser ParserSpec Response Handler JsonValue Client.

Local Open Scope Z_scope.

(** ** Texts *)

Lemma chars_of_ascii l : Forall (λ b, b2z b < 128) l → chars_of l = codes l.
Proof.
  induction 1 as [|b l Hb _ IH]; [done|]. cbn [chars_of]. rewrite (proj2 (Z.ltb_lt _ _)) by done. by rewrite IH.
Qed.

(** The number in the first line of a bulk string or an array. *)
Lemma header_number l : Forall (λ c, 45 ≤ c < 58) l → l ≠ [] → ∀ p, header_text (p :: text l ++ CRLF) = l.
Proof.
  intros Hl Hne p. unfold header_text. change (drop 1 (p :: text l ++ CRLF)) with (text l ++ CRLF). destruct (text_no_cr l Hl) as [_ Hcodes]. rewrite chars_of_ascii.
  - unfold codes in *. rewrite (fmap_app b2z (text l) CRLF), Hcodes. change (b2z <$> CRLF) with [13; 10].
    assert (Harg : arg l).
    { apply word_arg. split; [done|]. eapply Forall_impl; [exact Hl|]. intros c Hc. cbn beta in Hc. unfold visible_char, is_whitespace. lia. }
    assert (Hts : trim_start (l ++ [13; 10]) = l ++ [13; 10]).
    { destruct l as [|c l]; [done|]. cbn [app trim_start]. destruct Harg as [(c' & r & [= -> ->] & Hc) _]. by rewrite Hc. }
    unfold trim. rewrite Hts. unfold trim_end. rewrite reverse_app. cbn [reverse]. change (reverse [13; 10]) with [10; 13]. cbn [app trim_start].
    change (is_whitespace 10) with true. change (is_whitespace 13) with true. cbn iota. rewrite <- (trim_arg l Harg) at 2.
    unfold trim. rewrite (trim_start_arg l Harg). done.
  - apply Forall_app. split; [|by repeat constructor]. unfold text. apply Forall_fmap. eapply Forall_impl; [exact Hl|].
    intros c Hc. cbn in Hc |- *. rewrite b2z_z2b, Z.mod_small by lia. lia.
Qed.

Lemma nat_digits n : 0 ≤ n → Forall (λ c, 45 ≤ c < 58) (show_nat n) ∧ show_nat n ≠ [].
Proof.
  intros Hn. split; [eapply Forall_impl; [by apply show_range|cbn; lia]|]. destruct (parse_show_nat n Hn) as (_ & c & l & -> & _). done.
Qed.

(** ** Reading a response *)

Definition line_text (m : bytes) : Prop := utf8_valid m = true ∧ x0a ∉ m.

Section responses.
Variable response_size : Z.

(** A response the server can send and the library can tell apart from the next one. *)
Fixpoint sent_ok (r : Response) : Prop :=
  match r with
  | ROk m | RError m => line_text m
  | RInteger n => is_i64 n
  | RBulk None => True
  | RBulk (Some data) => utf8_valid data = true ∧ Z.of_nat (length data) + 2 ≤ 9223372036854775807
  | RArray items => Z.of_nat (length items) ≤ u64_max ∧ Z.of_nat (length items) * response_size ≤ 9223372036854775807 ∧
      (fix all l := match l with [] => True | x :: l => sent_ok x ∧ all l end) items
  end.

Lemma sent_items l : (fix all l := match l with [] => True | x :: l => sent_ok x ∧ all l end) l ↔ Forall sent_ok l.
Proof. induction l as [|x l IH]; [by split; constructor|]. rewrite Forall_cons. by rewrite IH. Qed.

Lemma no_lf_crlf s : x0a ∉ s → no_crlf s.
Proof.
  unfold no_crlf. induction s as [|a s IH]; [done|]. intros Hs. rewrite find_crlf_cons. destruct s as [|b s]; [done|].
  rewrite decide_False by set_solver. by rewrite IH by set_solver.
Qed.

Lemma read_line_ok p s rest c : utf8_valid (p :: s) = true → x0a ∉ p :: s → unread c = p :: s ++ CRLF ++ rest →
  read_line c = (Ok (p :: s ++ CRLF), with_unread rest c).
Proof.
  intros Hv Hlf Hu. unfold read_line. rewrite Hu. assert (Hl : through_lf (p :: s ++ CRLF ++ rest) = p :: s ++ CRLF).
  { change (through_lf ((p :: s) ++ CRLF ++ rest) = (p :: s) ++ CRLF). clear -Hlf. induction (p :: s) as [|a l IH]; [done|].
    cbn [app through_lf]. rewrite decide_False by set_solver. by rewrite IH by set_solver. }
  rewrite Hl. change (p :: s ++ CRLF) with ((p :: s) ++ CRLF). rewrite utf8_valid_app by done. cbn [utf8_valid CRLF].
  f_equal. f_equal. change (p :: s ++ CRLF ++ rest) with ((p :: s) ++ CRLF ++ rest). rewrite app_assoc. apply drop_app_length.
Qed.
End responses.

Lemma ascii_valid l : Forall (λ c, 45 ≤ c < 58) l → utf8_valid (text l) = true ∧ x0a ∉ text l.
Proof.
  intros Hl. assert (Hb : Forall (λ b, 45 ≤ b2z b < 58) (text l)).
  { unfold text. apply Forall_fmap. eapply Forall_impl; [exact Hl|]. intros c Hc. cbn in Hc |- *. rewrite b2z_z2b, Z.mod_small by lia. lia. }
  split; [apply utf8_valid_ascii; eapply Forall_impl; [exact Hb|cbn; lia]|]. intros Hin. rewrite Forall_forall in Hb. specialize (Hb _ Hin). cbn in Hb. lia.
Qed.

Lemma i64_digits n : Forall (λ c, 45 ≤ c < 58) (show_i64 n).
Proof.
  unfold show_i64. case_decide; [constructor; [lia|]|]; (eapply Forall_impl; [apply show_range; lia|cbn; lia]).
Qed.

Section reading.
Variable response_size : Z.
Abbreviation sent_ok := (sent_ok response_size).

(** The responses of one line. *)
Lemma read_single f (p : byte) s r c rest :
  utf8_valid (p :: s) = true → x0a ∉ p :: s → p ∉ [x24; x2a] → resp_ok response_size r → serialize r = p :: s ++ CRLF → unread c = serialize r ++ rest →
  read_response response_size (S f) c = Some (Ok r, with_unread rest c).
Proof.
  intros Hv Hlf Hp Hok Hser Hu. cbn [read_response]. rewrite Hser in Hu. cbn [app] in Hu. rewrite <- app_assoc in Hu.
  erewrite ft_lift_step by by apply read_line_ok. cbn iota. rewrite !decide_False by set_solver.
  unfold ft_lift, st_lift. do 3 f_equal. unfold single_line, parse. rewrite <- Hser.
  destruct (parse_response_ok response_size r Hok (S (length (serialize r))) ltac:(lia)) as [Hw _]. specialize (Hw []). rewrite app_nil_r in Hw. by rewrite Hw.
Qed.

Lemma read_array_items read items : ∀ fuel c rest,
  Forall (λ r, ∀ c rest, unread c = serialize r ++ rest → read c = Some (Ok r, with_unread rest c)) items → (length items ≤ fuel)%nat →
  unread c = concat (serialize <$> items) ++ rest →
  read_items read fuel (Z.of_nat (length items)) c = Some (Ok items, with_unread rest c).
Proof.
  induction items as [|r items IH]; intros fuel c rest Hall Hf Hu.
  { cbn in Hu. assert (Hc : with_unread rest c = c) by (rewrite <- Hu; by destruct c). rewrite Hc. by destruct fuel. }
  apply Forall_cons in Hall as [Hr Hall]. destruct fuel as [|fuel]; cbn [length] in Hf; [lia|]. cbn [fmap list_fmap concat] in Hu. rewrite <- app_assoc in Hu.
  cbn [read_items length]. rewrite decide_False by lia. erewrite ft_step by (by apply Hr). replace (Z.of_nat (S (length items)) - 1) with (Z.of_nat (length items)) by lia.
  erewrite ft_step by (by apply IH; [|lia|]). done.
Qed.

Lemma sent_resp_ok r : sent_ok r → resp_ok response_size r.
Proof.
  induction r as [m|m|n|[d|]|items IH] using Response_ind'; cbn [ClientSpec.sent_ok resp_ok].
  1,2: intros [_ Hm]; by apply no_lf_crlf.
  1,3: done.
  - intros [_ Hd]. lia.
  - intros (Hc & Hs & Hall). split_and!; [done..|]. rewrite sent_items in Hall. rewrite resp_ok_items.
    rewrite Forall_forall in *. intros x Hx. apply IH; [done|by apply Hall].
Qed.

Lemma bulk_header line c rest n : header_text line = show_nat n → 0 ≤ n → n + 2 ≤ 9223372036854775807 → unread c = rest →
  read_bulk_response line c =
    if decide (Z.of_nat (length rest) < n + 2) then (Err CConnection, with_unread [] c)
    else (Ok (RBulk (Some (from_utf8_lossy (take (Z.to_nat n) rest)))), with_unread (drop (Z.to_nat n + 2) rest) c).
Proof.
  intros Hh Hn Hmax <-. unfold read_bulk_response. rewrite Hh. pose proof (len_parses n ltac:(lia)) as Hp.
  rewrite (proj2 (show_nat_text n Hn)) in Hp. rewrite Hp. rewrite !decide_False by lia. done.
Qed.

Lemma read_response_ok r : sent_ok r → ∀ f c rest, (length (serialize r) < f)%nat → unread c = serialize r ++ rest →
  read_response response_size f c = Some (Ok r, with_unread rest c).
Proof.
  induction r as [m|m|n|d|items IH] using Response_ind'; intros Hok f c rest Hf Hu; (destruct f as [|f]; [lia|]); pose proof (sent_resp_ok _ Hok) as Hresp; cbn [ClientSpec.sent_ok] in Hok.
  - destruct Hok as [Hv Hm]. eapply (read_single f x2b m); (done || set_solver).
  - destruct Hok as [Hv Hm]. eapply (read_single f x2d (str "ERR " ++ m)); (done || set_solver).
  - destruct (ascii_valid _ (i64_digits n)) as [Hv Hm]. eapply (read_single f x3a (text (show_i64 n))); (done || set_solver).
  - destruct d as [d|].
    + destruct Hok as [Hv Hmax]. set (k := Z.of_nat (length d)) in *. destruct (nat_digits k ltac:(lia)) as [Hd Hne]. destruct (ascii_valid _ Hd) as [Hv' Hm].
      cbn [serialize] in Hu. fold k in Hu. rewrite <- !app_assoc in Hu. change (str "$" ++ ?x) with (x24 :: x) in Hu.
      cbn [read_response]. erewrite ft_lift_step by (apply read_line_ok; [| |exact Hu]; [cbn; exact Hv'|set_solver]). cbn iota. rewrite decide_True by done.
      unfold ft_lift. f_equal. erewrite bulk_header; [|by apply header_number|lia|lia|reflexivity].
      cbn [unread with_unread]. unfold k. rewrite decide_False by (rewrite !length_app; cbn; lia). rewrite Nat2Z.id, take_app_length, lossy_valid by done.
      f_equal. unfold with_unread. cbn. f_equal. by rewrite <- drop_drop, drop_app_length.
    + cbn [read_response]. cbn [serialize] in Hu. rewrite <- app_assoc in Hu.
      change (unread c = x24 :: str "-1" ++ CRLF ++ rest) in Hu. erewrite ft_lift_step by (apply read_line_ok; [| |exact Hu]; (done || set_solver)). done.
  - destruct Hok as (Hc & Hsz & Hall). rewrite sent_items in Hall. set (k := Z.of_nat (length items)) in *.
    destruct (nat_digits k ltac:(lia)) as [Hd Hne]. destruct (ascii_valid _ Hd) as [Hv' Hm].
    cbn [serialize] in Hu, Hf. fold k in Hu, Hf. rewrite <- !app_assoc in Hu. change (str "*" ++ ?x) with (x2a :: x) in Hu.
    cbn [read_response]. erewrite ft_lift_step by (apply read_line_ok; [| |exact Hu]; [cbn; exact Hv'|set_solver]). cbn iota. rewrite decide_False, decide_True by done.
    unfold read_array_response. rewrite header_number by done. rewrite parse_show_unsigned by lia. rewrite decide_False by lia.
    erewrite ft_step; [|apply (read_array_items _ items _ _ rest); [|cbn [unread with_unread]; rewrite length_app; pose proof (items_length items); lia|done]]; [done|].
    rewrite Forall_forall in *. intros x Hx c' rest' Hu'. apply IH; [done|by apply Hall| |done].
    apply list_elem_of_split in Hx as (l1 & l2 & ->). rewrite !length_app, fmap_app, concat_app, length_app in Hf. cbn [fmap list_fmap concat] in Hf. rewrite length_app in Hf. cbn in Hf. lia.
Qed.
End reading.

(** ** A command on its way *)

Lemma render_arg c : cmd_ok c → arg (render c).
Proof.
  intros Hc. assert (Hbase : ∀ b, base_ok b → line_ok (pieces b) ∧ pieces b ≠ []).
  { intros b Hb. destruct (base_parses b Hb) as (k & ps & -> & Hk & _ & Hl & _). split; [by apply (line_ok_words [k]); [constructor|]|done]. }
  assert (Hps : line_ok (pieces c) ∧ pieces c ≠ []).
  { destruct c; try by apply Hbase. destruct Hc as [Hcs Hb]. destruct (Hbase _ Hb) as [Hl Hne]. destruct (concerns_line _ _ Hcs) as [Hw _].
    cbn [pieces]. split; [by apply line_ok_words|]. intros [_ ?]%app_eq_nil. done. }
  by apply join_arg; apply Hps.
Qed.

(** A command whose words are words, on one line, and not too long for the server. *)
Record fits (c : Command) : Prop := {
  fits_ok : cmd_ok c;
  fits_line : 10 ∉ render c;
  fits_length : byte_len (render c ++ [13; 10]) ≤ MAX_LINE_LENGTH;
}.

Lemma one_line s : 10 ∉ s → complete_lines [] (s ++ [13; 10]) = [s ++ [13; 10]].
Proof.
  assert (H : ∀ s cur, 10 ∉ s → complete_lines cur (s ++ [13; 10]) = [cur ++ s ++ [13; 10]]); [|by intros; apply H].
  clear s. induction s as [|c s IH]; intros cur Hs; [cbn; by rewrite <- app_assoc|]. cbn [app complete_lines]. rewrite decide_False by set_solver.
  rewrite IH by set_solver. by rewrite <- app_assoc.
Qed.

Lemma arg_no_crlf s : arg s → ends_crlf s = false.
Proof.
  intros [_ (r & c & -> & Hc)]. unfold ends_crlf. apply bool_decide_eq_false. rewrite reverse_app. cbn. intros Heq.
  assert (c = 10) as -> by congruence. done.
Qed.

(** What the library remembers of a command it has sent. *)
Definition after (c : Command) (conn : Connection) : Connection :=
  match c with
  | Token t => mkConnection (conn_id conn) (unread conn) (tls conn) (Some t) (conn_db conn)
  | Use d => mkConnection (conn_id conn) (unread conn) (tls conn) (session_token conn) (Some d)
  | _ => conn
  end.

Lemma after_render c conn : cmd_ok c → update_session_state (render c) conn = after c conn.
Proof.
  intros Hc. unfold update_session_state. rewrite trim_arg by (by apply render_arg). unfold strip_prefix.
  destruct c; try done.
  - destruct Hc as [(_ & _ & Hne) _]. destruct read_concern, write_concern; try done. by destruct Hne.
  - cbn [cmd_ok base_ok] in Hc. rewrite decide_True by done. change (drop _ (render (Token jwt))) with jwt. rewrite trim_arg by done.
    by rewrite decide_True by (by apply arg_nonempty).
  - cbn [cmd_ok base_ok] in Hc. rewrite decide_False by done. rewrite decide_True by done. change (drop _ (render (Use database))) with database.
    rewrite trim_arg by done. by rewrite decide_True by (by apply arg_nonempty).
Qed.

(** A node: it runs a command that reaches it on a connection, and answers, or closes the
    connection without an answer. *)
Class Nodes (N : Type) `{Network N} := {
  run : nat → Command → N → option Response * N;
  serves : ∀ id c n, cmd_ok c → byte_len (render c ++ [13; 10]) ≤ MAX_LINE_LENGTH →
    serve_line id (render c ++ [13; 10]) n = (match (run id c n).1 with Some r => serialize r | None => [] end, (run id c n).2);
  always_writable : ∀ id n, writable id n = true;
  one_banner : ∀ host port tls n id banner n', dial host port tls n = Some (id, banner, n') → utf8_valid banner = true ∧ through_lf banner = banner;
}.

Section exchange.
Context (response_size : Z) {N : Type} `{Nodes N}.
Implicit Types (conn : Connection) (n : N) (c : Command).
Abbreviation sent_ok := (sent_ok response_size).

Definition received (r : option Response) : outcome ClientError Response := match r with Some r => Ok r | None => Err CConnection end.
Definition heard (r : option Response) : list Response := match r with Some r => [r] | None => [] end.

Lemma send_and_read_ok c conn n : fits c → unread conn = [] → Forall sent_ok (heard (run (conn_id conn) c n).1) →
  send_and_read response_size (render c) (conn, n) = Some (received (run (conn_id conn) c n).1, (after c conn, (run (conn_id conn) c n).2)).
Proof.
  intros [Hok Hlf Hlen] Hu Hs. unfold send_and_read. rewrite arg_no_crlf by (by apply render_arg).
  set (r := run (conn_id conn) c n) in *. erewrite ft_step.
  2: { unfold write_text. rewrite always_writable, one_line by done. cbn [serve_lines]. rewrite serves by done. fold r. reflexivity. }
  rewrite Hu. cbn [app]. rewrite ft_modify_bind, ft_get_bind, after_render by done. rewrite app_nil_r.
  set (b := match r.1 with Some _ => _ | None => _ end). set (conn1 := after c (with_unread b conn)).
  assert (Hun : unread conn1 = b) by (unfold conn1; by destruct c).
  assert (Hfin : with_unread [] conn1 = after c conn) by (unfold conn1; destruct conn; cbn in Hu; subst; by destruct c).
  unfold on_stream, b in *. destruct r.1 as [x|].
  - apply Forall_cons in Hs as [Hs _]. erewrite ft_zoom_ok; [|cbn [fst]; apply (read_response_ok response_size x Hs _ conn1 []); [rewrite Hun; lia|by rewrite app_nil_r]].
    by rewrite Hfin.
  - unfold ft_zoom. cbn [fst snd read_response]. unfold mbind, ft_bind, ft_lift, read_line. rewrite Hun. cbn. by rewrite Hfin.
Qed.

Definition session_fits conn : Prop :=
  (∀ t, session_token conn = Some t → fits (Token t)) ∧ (∀ d, conn_db conn = Some d → fits (Use d)).

(** One exchange, with the owner of the document when the node names one: the answer, the
    responses read on the way, and the nodes afterwards. *)
Definition told (id : nat) (mk : chars → Command) (o : option chars) (n : N) : list Response * N :=
  match o with Some x => let '(r, n) := run id (mk x) n in (heard r, n) | None => ([], n) end.

Definition at_owner (conn : Connection) (id : nat) (c : Command) (n : N) : outcome ClientError Response * list Response * N :=
  let '(l1, n) := told id Token (session_token conn) n in
  let '(l2, n) := told id Use (conn_db conn) n in
  let '(r, n) := run id c n in (received r, l1 ++ l2 ++ heard r, n).

Definition exchange conn c n : outcome ClientError Response * list Response * N :=
  let '(r, n) := run (conn_id conn) c n in
  match r with
  | Some (RError m) =>
      match parse_forward_target m with
      | Some (host, port) =>
          match dial host port (tls conn) n with
          | Some (id, _, n) => let '(r', l, n) := at_owner (after c conn) id c n in (r', RError m :: l, n)
          | None => (Err CConnection, [RError m], n)
          end
      | None => (received r, heard r, n)
      end
  | _ => (received r, heard r, n)
  end.

Lemma after_id c conn : conn_id (after c conn) = conn_id conn ∧ tls (after c conn) = tls conn ∧ unread (after c conn) = unread conn.
Proof. by destruct c. Qed.

Lemma after_session c conn : session_fits conn → fits c → session_fits (after c conn).
Proof. intros [Ht Hd] Hc. destruct c; split; cbn [after session_token conn_db]; try done; naive_solver. Qed.

(** A line of the session repeated on the connection to the owner. *)
Lemma replay_ok verb mk (o : option chars) conn n :
  (∀ x, kw verb ++ 32 :: x = render (mk x)) → (∀ x, o = Some x → fits (mk x)) → unread conn = [] →
  Forall sent_ok (told (conn_id conn) mk o n).1 →
  ∃ conn', replay response_size verb o (conn, n) = Some (Ok tt, (conn', (told (conn_id conn) mk o n).2)) ∧ unread conn' = [] ∧ conn_id conn' = conn_id conn.
Proof.
  intros Hmk Hfit Hu. destruct o as [x|]; [|by exists conn]. cbn [told]. destruct (run _ (mk x) n) as [r n1] eqn:E. cbn [fst snd]. intros Hs.
  exists (after (mk x) conn). destruct (after_id (mk x) conn) as (-> & _ & ->). split_and!; [|done|done].
  unfold replay, ft_ignore. rewrite Hmk, send_and_read_ok; [rewrite E; by destruct r|by apply Hfit|done|by rewrite E].
Qed.

Lemma at_owner_ok conn conn' c n : fits c → session_fits conn → unread conn' = [] → Forall sent_ok (at_owner conn (conn_id conn') c n).1.2 →
  ∃ conn'', (_ ← replay response_size "TOKEN" (session_token conn); _ ← replay response_size "USE" (conn_db conn); send_and_read response_size (render c)) (conn', n) =
    Some ((at_owner conn (conn_id conn') c n).1.1, (conn'', (at_owner conn (conn_id conn') c n).2)).
Proof.
  intros Hc [Ht Hd] Hu. unfold at_owner. destruct (told _ Token _ n) as [l1 n1] eqn:E1. destruct (told _ Use _ n1) as [l2 n2] eqn:E2.
  destruct (run _ c n2) as [r n3] eqn:E3. cbn [fst snd]. rewrite !Forall_app. intros (H1 & H2 & H3).
  destruct (replay_ok "TOKEN" Token (session_token conn) conn' n) as (c1 & Hr1 & Hu1 & Hi1); [done|done|done|by rewrite E1|].
  rewrite (ft_step _ _ _ _ _ Hr1), E1. cbn [snd].
  destruct (replay_ok "USE" Use (conn_db conn) c1 n1) as (c2 & Hr2 & Hu2 & Hi2); [done|done|done|by rewrite Hi1, E2|].
  rewrite (ft_step _ _ _ _ _ Hr2), Hi1, E2. cbn [snd]. eexists. rewrite send_and_read_ok; [by rewrite Hi2, Hi1, E3|done..|by rewrite Hi2, Hi1, E3].
Qed.

Lemma execute_ok c conn n : fits c → session_fits conn → unread conn = [] → Forall sent_ok (exchange conn c n).1.2 →
  execute response_size (render c) (conn, n) = Some ((exchange conn c n).1.1, (after c conn, (exchange conn c n).2)).
Proof.
  intros Hc Hsess Hu. unfold exchange, execute. pose proof (send_and_read_ok c conn n Hc Hu) as Hsend. destruct (run (conn_id conn) c n) as [r n1]. cbn [fst snd] in Hsend.
  intros Hs. assert (Hr : Forall sent_ok (heard r)).
  { destruct r as [[?|m|?|?|?]|]; try done. cbn [heard]. destruct (parse_forward_target m) as [[host port]|]; [|done].
    destruct (dial _ _ _ _) as [[[id b] n2]|]; [|done]. destruct (at_owner _ _ _ _) as [[r' l] n3]. by apply Forall_cons in Hs as [? _]; constructor. }
  specialize (Hsend Hr). unfold mbind at 1, ft_bind. rewrite Hsend. destruct r as [[?|m|?|?|?]|]; try done. cbn [received].
  destruct (parse_forward_target m) as [[host port]|]; [|done].
  unfold forward_once, connect. destruct (after_id c conn) as (_ & Htls & _). rewrite Htls. destruct (dial host port (tls conn) n1) as [[[id b] n2]|] eqn:Hdial; [|done].
  destruct (one_banner _ _ _ _ _ _ _ Hdial) as [Hv Hb]. unfold read_line. cbn [unread]. rewrite Hb, Hv, drop_all. set (conn' := with_unread _ _).
  destruct (at_owner (after c conn) id c n2) as [[r' l] n3] eqn:E. cbn [fst snd] in Hs |- *. apply Forall_cons in Hs as [_ Hl].
  destruct (at_owner_ok (after c conn) conn' c n2 Hc (after_session _ _ Hsess Hc)) as (c2 & Hrun); [done|change (conn_id conn') with id; by rewrite E|]. change (conn_id conn') with id in Hrun.
  rewrite Hrun, E. done.
Qed.
End exchange.

(** ** The calls *)

Section calls.
Context (response_size : Z) {N : Type} `{Nodes N, ClientCrates, UuidText}.
Context (topology_read : bytes → option ClusterTopology) (consistency_read : bytes → option DatabaseConsistency).

(** [m] has the nodes run [c] and returns what [read] makes of the answer. *)
Definition asks {A} (m : FT (Connection * N) ClientError A) (c : Command) (read : Response → outcome ClientError A) : Prop :=
  fits c → ∀ conn n, session_fits conn → unread conn = [] → Forall (sent_ok response_size) (exchange conn c n).1.2 →
  m (conn, n) = Some ((exchange conn c n).1.1 ≫= read, (after c conn, (exchange conn c n).2)).

Lemma ask_ok {A} cmd c (read : Response → outcome ClientError A) : cmd = render c → asks (Client.ask response_size cmd read) c read.
Proof.
  intros -> Hc conn n Hs Hu Hall. unfold Client.ask. pose proof (execute_ok response_size c conn n Hc Hs Hu Hall) as Hex.
  unfold mbind at 1, ft_bind. rewrite Hex. by destruct (exchange conn c n).1.1.
Qed.

(** The same for a call of the client itself. *)
Definition client_asks {A} (m : FT (GrumpyClient * N) ClientError A) (c : Command) (read : Response → outcome ClientError A) : Prop :=
  fits c → ∀ g n, session_fits (conn g) → unread (conn g) = [] → Forall (sent_ok response_size) (exchange (conn g) c n).1.2 →
  m (g, n) = Some ((exchange (conn g) c n).1.1 ≫= read, (with_conn (after c (conn g)) g, (exchange (conn g) c n).2)).

Lemma asked_ok {A} cmd c (read : Response → outcome ClientError A) : cmd = render c → client_asks (asked response_size cmd read) c read.
Proof.
  intros Hcmd Hc g n Hs Hu Hall. unfold asked, on_conn, ft_zoom. cbn [fst snd]. by rewrite (ask_ok cmd c read Hcmd Hc (conn g) n Hs Hu Hall).
Qed.

(** The call that fetches the topology keeps what it reads. *)
Definition refreshes (m : FT (GrumpyClient * N) ClientError ClusterTopology) : Prop :=
  ∀ g n, session_fits (conn g) → unread (conn g) = [] → Forall (sent_ok response_size) (exchange (conn g) Topology n).1.2 →
  let r := (exchange (conn g) Topology n).1.1 ≫= read_struct topology_read in
  m (g, n) = Some (r, (match r with Ok t => with_topology t g | _ => g end, (exchange (conn g) Topology n).2)).

(** [login] has the nodes run LOGIN, then TOKEN with the token of the answer, then TOPOLOGY;
    a refused LOGIN is reported and nothing more is sent. *)
Definition logs_in (m : FT (GrumpyClient * N) ClientError unit) (t u p : chars) : Prop :=
  fits (Login t u p) → ∀ g n r l n1, session_fits (conn g) → unread (conn g) = [] →
  exchange (conn g) (Login t u p) n = (r, l, n1) → Forall (sent_ok response_size) l →
  match r with
  | Err err => m (g, n) = Some (Err err, (g, n1))
  | Ok (RError msg) => m (g, n) = Some (Err (CAuth msg), (g, n1))
  | Ok (ROk msg) =>
      take 6 msg = str "TOKEN " →
      let token := chars_of (token_parts msg).1 in
      check_jwks (with_tokens token (chars_of <$> (token_parts msg).2) g) token = Ok tt → fits (Token token) →
      ∀ r2 l2 n2, exchange (conn g) (Token token) n1 = (Ok r2, l2, n2) → Forall (sent_ok response_size) l2 →
      ∀ r3 l3 n3, exchange (after (Token token) (conn g)) Topology n2 = (r3, l3, n3) → Forall (sent_ok response_size) l3 →
      ∃ g', m (g, n) = Some (Ok tt, (g', n3)) ∧ access_token g' = Some token ∧ conn g' = after (Token token) (conn g)
  | _ => True
  end.

Lemma fits_topology : fits Topology.
Proof. constructor; [done|apply (bool_decide_eq_false_1 (10 ∈ render Topology)); vm_compute; reflexivity|vm_compute; discriminate]. Qed.

Lemma with_conn_same g c : c = conn g → with_conn c g = g.
Proof. intros ->. by destruct g. Qed.

Lemma refresh_topology_ok : refreshes (refresh_topology response_size topology_read).
Proof.
  intros g n Hs Hu Hall. unfold refresh_topology.
  pose proof (asked_ok (kw "TOPOLOGY") Topology (read_struct topology_read) eq_refl fits_topology g n Hs Hu Hall) as Hask.
  rewrite (with_conn_same g) in Hask by done. cbv zeta. unfold mbind at 1, ft_bind. rewrite Hask.
  by destruct ((exchange (conn g) Topology n).1.1 ≫= read_struct topology_read).
Qed.

Lemma on_conn_execute c g n r l n1 :
  fits c → session_fits (conn g) → unread (conn g) = [] → exchange (conn g) c n = (r, l, n1) → Forall (sent_ok response_size) l →
  on_conn (execute response_size (render c)) (g, n) = Some (r, (with_conn (after c (conn g)) g, n1)).
Proof.
  intros Hc Hs Hu He Hl. unfold on_conn, ft_zoom. cbn [fst snd].
  rewrite (execute_ok response_size c (conn g) n Hc Hs Hu) by (by rewrite He). by rewrite He.
Qed.

Lemma login_ok t u p : logs_in (login response_size topology_read t u p) t u p.
Proof.
  intros Hc g n r l n1 Hs Hu He Hl. unfold login.
  pose proof (on_conn_execute (Login t u p) g n r l n1 Hc Hs Hu He Hl) as Hx1. change (kw "LOGIN " ++ t ++ 32 :: u ++ 32 :: p) with (render (Login t u p)).
  rewrite (with_conn_same g) in Hx1 by done. destruct r as [[msg|msg| | |]|err|]; [| |done|done|done|by rewrite (ft_step_err _ _ _ _ _ Hx1)|done].
  2: by rewrite (ft_step _ _ _ _ _ Hx1).
  cbv zeta. intros Hmsg. set (token := chars_of (token_parts msg).1). intros Hjwks Htok r2 l2 n2 He2 Hl2 r3 l3 n3 He3 Hl3.
  rewrite (ft_step _ _ _ _ _ Hx1), decide_True by done.
  rewrite (surjective_pairing (token_parts msg)). fold token. rewrite ft_modify_bind, ft_get_bind.
  set (g1 := with_tokens token (chars_of <$> (token_parts msg).2) g) in *. erewrite ft_lift_step by (unfold st_lift; by rewrite Hjwks).
  pose proof (on_conn_execute (Token token) g1 n1 (Ok r2) l2 n2 Htok Hs Hu He2 Hl2) as Hx2.
  change (kw "TOKEN " ++ token) with (render (Token token)). rewrite (ft_step _ _ _ _ _ Hx2). set (g2 := with_conn _ g1).
  pose proof (refresh_topology_ok g2 n2) as Hx3. change (conn g2) with (after (Token token) (conn g)) in Hx3. rewrite He3 in Hx3. cbn [fst snd] in Hx3.
  specialize (Hx3 (after_session (Token token) (conn g) Hs Htok) Hu Hl3). cbv zeta in Hx3. unfold ft_ignore. rewrite Hx3.
  destruct (r3 ≫= read_struct topology_read) as [topo|err|] eqn:Hr3; [by eexists|by eexists|]. exfalso. clear -Hr3 He3.
  destruct r3 as [resp|err|]; [|done|].
  - revert Hr3. cbn [mbind outcome_bind]. unfold read_struct, ok_or. by repeat case_match.
  - revert He3. unfold exchange, at_owner. repeat case_match; intros; simplify_eq/=; unfold received in *; by repeat case_match.
Qed.

Definition read_use (resp : Response) : outcome ClientError unit :=
  match resp with ROk _ => Ok tt | RError msg => Err (CServer msg) | _ => Err (CProtocol "unexpected USE response") end.
(** [get_with_siblings]: at most one document, with an empty clock. *)
Definition read_siblings (resp : Response) : outcome ClientError (list (JsonV * bytes)) :=
  doc ← read_document resp; Ok (match doc with Some v => [(v, str "{}")] | None => [] end).

Lemma get_with_siblings_ok coll key : asks (get_with_siblings response_size coll key) (Get coll (Client.uuid_chars key)) read_siblings.
Proof.
  intros Hc conn n Hs Hu Hall. unfold get_with_siblings, Client.get. unfold mbind at 1, ft_bind.
  rewrite (ask_ok (kw "GET " ++ coll ++ 32 :: Client.uuid_chars key) (Get coll (Client.uuid_chars key)) read_document eq_refl Hc conn n Hs Hu Hall).
  destruct (exchange _ _ _).1.1 as [resp|err|]; [|done..]. cbn [mbind outcome_bind]. unfold read_siblings. by destruct (read_document resp).
Qed.

End calls.

(** ** Where the library departs from what it says *)

(** A range with one bound is a scan of the whole collection: the bound is dropped. *)
Lemma one_sided_scan_unbounded response_size {N} `{Network N, ClientCrates, UuidText} coll s :
  Client.scan (N := N) response_size coll (Some s) None = Client.scan response_size coll None None ∧
  Client.scan (N := N) response_size coll None (Some s) = Client.scan response_size coll None None.
Proof. done. Qed.

(** Any error text with an address after an at sign is taken for a redirection: asking for
    a collection of such a name makes the library send its token there. *)
Lemma error_text_redirects :
  parse_forward_target (str "collection not found: a@evil.example:80;") = Some (kw "evil.example", 80).
Proof. vm_compute. reflexivity. Qed.

(** A database that could not be selected is remembered as the current one. *)
Lemma failed_use_remembered response_size {N} `{Nodes N} d conn n m :
  fits (Use d) → session_fits conn → unread conn = [] → (run (conn_id conn) (Use d) n).1 = Some (RError m) → parse_forward_target m = None → line_text m →
  ∃ n', execute response_size (render (Use d)) (conn, n) = Some (Ok (RError m), (after (Use d) conn, n')) ∧ conn_db (after (Use d) conn) = Some d.
Proof.
  intros Hd Hs Hu Hr Hp Hm. assert (Hex : exchange conn (Use d) n = (Ok (RError m), [RError m], (run (conn_id conn) (Use d) n).2)).
  { unfold exchange. destruct (run _ _ _) as [r n1]. cbn [fst] in Hr. subst r. by rewrite Hp. }
  eexists. split; [|done]. rewrite (execute_ok response_size (Use d) conn n); rewrite ?Hex; try done. by constructor.
Qed.

(** A collection name with a line feed is a second command. *)
Lemma name_injects_command :
  complete_lines [] (kw "COUNT a" ++ [10] ++ kw "DROP DATABASE b" ++ [13; 10]) = [kw "COUNT a" ++ [10]; kw "DROP DATABASE b" ++ [13; 10]].
Proof. vm_compute. reflexivity. Qed.
