(* ===== verification/EndToEnd.v ===== *)
(** * Client and server together

    The node a client talks to is the connection handler of the server: lines that reach it
    are handled one after the other, the [i]-th in the surroundings [outside i]. *)

From stdpp Require Import gmap.
From S2P Require Import Prelude RustStd Value Crdt AppliedSet Index Database Schema SchemaSpec Collection JsonLines Hints Limits Command Auth Parser ParserSpec Response Ring Coordinator Handler JsonValue AuthStore AuthStoreSpec Server Exec VerifiedQuery Peer Connection.
From S2P Require Import Client ClientSpec.

Local Open Scope Z_scope.

Section node.
Context `{UuidText, Base64, AuthCrates, RingHash, JsonPayloads} {D : Type} `{DbOps D} {Ip : Type} `{Countable Ip} (is_loopback : Ip → bool) (ip : Ip).
Context {JH : JsonLine HintRecord} {JR : JsonLine ReadRepairIntent} {JS : JsonLine SchemaLogEntry} (co : Coordinator) (outside : nat → Outside D).

Abbreviation node := (nat * Conn Ip D)%type.

Definition answer (out : option Response * bool * Conn Ip D) (i : nat) : option Response * node := let '(r, _, k) := out in (r, (S i, k)).

#[export] Instance server_network : Network node := {
  dial := λ _ _ _ _, None;
  writable := λ _ _, true;
  serve_line := λ _ line '(i, k), let '(r, n) := answer (handle_line is_loopback ip co (outside i) line k) i in (match r with Some r => serialize r | None => [] end, n);
}.

(** The command of a line, in the hands of the connection handler. *)
Definition run_line (c : Command) (n : node) : option Response * node :=
  let '(i, k) := n in
  if allowed (outside i) then answer (handle_command is_loopback ip co (outside i) c (put_errors 0 (put_rate 0 k))) i
  else (Some (RError (str "rate limited")), (S i, put_rate (consecutive_rate_limits k + 1) k)).

Lemma byte_len_app s t : byte_len (s ++ t) = byte_len s + byte_len t.
Proof. unfold byte_len. induction s as [|c s IH]; cbn [app foldr]; [lia|]. rewrite IH. lia. Qed.

#[export] Program Instance server_node : Nodes node := { run := λ _, run_line }.
Next Obligation.
  intros id c [i k] Hc Hlen. cbn [serve_line server_network]. unfold run_line, handle_line. destruct (allowed (outside i)); [|done].
  rewrite decide_False by lia. rewrite byte_len_app in Hlen. change (byte_len [13; 10]) with 2 in Hlen.
  rewrite render_parses; [by destruct (answer _ _)|done|lia|set_solver].
Qed.
Next Obligation. done. Qed.
Next Obligation. done. Qed.
End node.

Definition plain_text : ClientCrates := {| json_text := λ j, match j with JString b => codes b | _ => kw "null" end; json_read := λ b, Some (JString b); jwks_verify := λ _ _, None |}.

