(* ===== verification/Snapshot.v ===== *)
(** * Snapshots of a data directory (grumpydb-server/src/snapshot.rs)

    The file system is its files and its folders, each by the components of its absolute
    path; there are no links.  SHA-256, the JSON of the manifest and the compressed archive
    are parameters ([SnapshotCrates]); the cloud backends are compiled out, as by default. *)

From stdpp Require Import gmap sorting.
From S2P Require Import Prelude RustStd Command Parser Response JsonLines Server.

Local Open Scope Z_scope.

Record Fs := mkFs { files : gmap dir bytes; folders : gset dir }.

Record FileEntry := mkEntry { entry_path : bytes; entry_size : Z; entry_sha : bytes }.
Record Manifest := mkManifest { m_version : Z; m_grumpydb_version : bytes; m_created_at : Z; data_files : list FileEntry }.

Definition MANIFEST_VERSION : Z := 1.
Definition MANIFEST_FILENAME : bytes := str "snapshot.json".
Definition DATA_PREFIX : bytes := str "data/".

Inductive SnapshotError :=
| SIo
| InvalidUrl (msg : string)
| SManifest (msg : string)
| NotEmpty (path : dir)
| Checksum (file expected actual : bytes)
| BackendDisabled (backend feature : string)
| Other (msg : string).

(** A name of a file or folder that stays where it is put. *)
Definition plain_name (c : bytes) : Prop :=
  utf8_valid c = true ∧ c ≠ [] ∧ c ≠ str "." ∧ c ≠ str ".." ∧ Forall (λ b, b ≠ x2f ∧ b ≠ x5c) c.

Class SnapshotCrates := {
  sha256_hex : bytes → bytes;
  manifest_text : Manifest → bytes;
  manifest_read : bytes → option Manifest;
  tar_gz : list (bytes * bytes) → option bytes;
  untar_gz : bytes → option (list (bytes * bytes));
  manifest_read_text : ∀ m, manifest_read (manifest_text m) = Some m;
  untar_tar : ∀ l, Forall (λ e, Forall plain_name (components e.1)) l → ∃ b, tar_gz l = Some b ∧ untar_gz b = Some l;
}.

(** ** Locations *)

Definition split_once_strict (s : bytes) : option (bytes * bytes) :=
  match components s with
  | first :: _ :: _ => Some (first, drop (S (length first)) s)
  | _ => None
  end.

Definition ascii_alpha (b : byte) : bool := in_range 65 90 b || in_range 97 122 b.
Definition ascii_alnum (b : byte) : bool := ascii_alpha b || in_range 48 57 b.

Fixpoint scheme_tail (s : bytes) : bool :=
  match s with
  | [] => false
  | b :: s =>
      if decide (b = x3a) then true
      else if decide (b = x2f ∨ b = x5c) then false
      else if ascii_alnum b || bool_decide (b ∈ [x2b; x2d; x2e]) then scheme_tail s else false
  end.

Definition looks_like_scheme (s : bytes) : bool :=
  match s with b :: _ => ascii_alpha b && scheme_tail s | [] => false end.

(** [Location::parse]; every location is a local path. *)
Definition location_parse (s : bytes) : outcome SnapshotError bytes :=
  let remote (rest : bytes) (backend feature : string) : outcome SnapshotError bytes :=
    match split_once_strict rest with
    | None => Err (InvalidUrl "URL missing key")
    | Some (a, b) => if decide (a = [] ∨ b = []) then Err (InvalidUrl "URL has empty bucket or key") else Err (BackendDisabled backend feature)
    end in
  if decide (take 5 s = str "s3://") then remote (drop 5 s) "s3" "cloud-aws"
  else if decide (take 5 s = str "az://") then remote (drop 5 s) "az" "cloud-azure"
  else if looks_like_scheme s then Err (InvalidUrl "unsupported or malformed URL")
  else Ok s.

(** ** Paths and files *)

Definition exists_ (fs : Fs) (p : dir) : bool := bool_decide (p ∈ folders fs) || bool_decide (is_Some (files fs !! p)).

Fixpoint join_slash (cs : list bytes) : bytes :=
  match cs with
  | [] => []
  | [c] => c
  | c :: cs => c ++ x2f :: join_slash cs
  end.

(** Components that are not UTF-8 are left out. *)
Definition to_archive_path (rel : dir) : bytes := join_slash (filter (λ c, utf8_valid c = true) rel).

(** [data_dir.join(rel)], as the system resolves it: an absolute path replaces the directory. *)
Definition normalize (base : dir) (cs : list bytes) : dir :=
  foldl (λ p c, if decide (c = [] ∨ c = str ".") then p else if decide (c = str "..") then removelast p else p ++ [c]) base cs.
Definition resolve (base : dir) (rel : bytes) : dir := normalize (if decide (head rel = Some x2f) then [] else base) (components rel).

Definition ancestors (p : dir) : list dir := (λ i, take i p) <$> seq 0 (length p).

(** [create_dir_all] of a directory: not through a file. *)
Definition create_dir_all (p : dir) : ST Fs SnapshotError unit := λ fs,
  if decide (Exists (λ q, is_Some (files fs !! q)) (ancestors p ++ [p])) then (Err SIo, fs)
  else (Ok tt, mkFs (files fs) (list_to_set (ancestors p ++ [p]) ∪ folders fs)).

(** [File::create], [write_all] and [sync_all] *)
Definition create_file (p : dir) (b : bytes) : ST Fs SnapshotError unit := λ fs,
  if decide (p ∈ folders fs ∨ Exists (λ q, is_Some (files fs !! q)) (ancestors p)) then (Err SIo, fs)
  else (Ok tt, mkFs (<[p := b]> (files fs)) (folders fs)).

(** ** Archives *)

Definition strip_root (root p : dir) : option dir := if decide (take (length root) p = root) then Some (drop (length root) p) else None.

Fixpoint path_leb (p q : dir) : bool :=
  match p, q with
  | [], _ => true
  | _, [] => false
  | a :: p, b :: q => match bytes_cmp a b with Lt => true | Gt => false | Eq => path_leb p q end
  end.

Definition path_le (p q : dir) : Prop := path_leb p q = true.
#[export] Instance path_le_dec p q : Decision (path_le p q) := bool_eq_dec _ _.

Definition walk_files (fs : Fs) (root : dir) : list dir :=
  merge_sort path_le (omap (strip_root root) (map_to_list (files fs)).*1).

Section archive.
Context `{SnapshotCrates} (grumpydb_version : bytes).

Definition file_entry (rel : dir) (b : bytes) : FileEntry := mkEntry (to_archive_path rel) (Z.of_nat (length b)) (sha256_hex b).

Definition build_archive (now : Z) (data_dir : dir) (fs : Fs) : outcome SnapshotError bytes :=
  if negb (exists_ fs data_dir) then Err (Other "data directory does not exist")
  else if decide (data_dir ∉ folders fs) then Err SIo
  else
    let contents := omap (λ rel, b ← files fs !! (data_dir ++ rel); Some (rel, b)) (walk_files fs data_dir) in
    let manifest := mkManifest MANIFEST_VERSION grumpydb_version now ((λ '(rel, b), file_entry rel b) <$> contents) in
    ok_or (tar_gz ((MANIFEST_FILENAME, manifest_text manifest) :: ((λ '(rel, b), (DATA_PREFIX ++ to_archive_path rel, b)) <$> contents))) SIo.

Definition replace_backslash (s : bytes) : bytes := (λ b, if decide (b = x5c) then x2f else b) <$> s.

(** The first pass: the manifest, the last one if there are several, and the data files. *)
Fixpoint read_entries (entries : list (bytes * bytes)) (manifest : option Manifest) (fl : list (bytes * bytes)) :
    outcome SnapshotError (option Manifest * list (bytes * bytes)) :=
  match entries with
  | [] => Ok (manifest, fl)
  | (path, buf) :: entries =>
      let path := replace_backslash (from_utf8_lossy path) in
      if decide (path = MANIFEST_FILENAME) then
        match manifest_read buf with
        | Some m => read_entries entries (Some m) fl
        | None => Err (SManifest "invalid JSON")
        end
      else if decide (take 5 path = DATA_PREFIX) then read_entries entries manifest (fl ++ [(drop 5 path, buf)])
      else read_entries entries manifest fl
  end.

(** The second pass. *)
Fixpoint verify_entries (entries : list FileEntry) (actual : gmap bytes bytes) : outcome SnapshotError unit :=
  match entries with
  | [] => Ok tt
  | e :: entries =>
      b ← ok_or (actual !! entry_path e) (SManifest "manifest references missing file");
      let got := sha256_hex b in
      if decide (got ≠ entry_sha e) then Err (Checksum (entry_path e) (entry_sha e) got) else verify_entries entries actual
  end.

(** The third pass. *)
Fixpoint write_files (data_dir : dir) (fl : list (bytes * bytes)) : ST Fs SnapshotError unit :=
  match fl with
  | [] => mret tt
  | (rel, b) :: fl =>
      let abs := resolve data_dir rel in
      _ ← create_dir_all (removelast abs);
      _ ← (if decide (last (components rel) = Some []) then st_fail SIo else create_file abs b);
      write_files data_dir fl
  end.

Definition is_empty_dir (fs : Fs) (p : dir) : bool :=
  bool_decide (omap (λ q, match strip_root p q with Some (_ :: _) => Some q | _ => None end) ((map_to_list (files fs)).*1 ++ elements (folders fs)) = []).

Definition prepare (data_dir : dir) (force : bool) : ST Fs SnapshotError unit := λ fs,
  if exists_ fs data_dir then
    if decide (data_dir ∉ folders fs) then (Err SIo, fs)
    else if negb (is_empty_dir fs data_dir) && negb force then (Err (NotEmpty data_dir), fs)
    else (Ok tt, fs)
  else create_dir_all data_dir fs.

Definition extract_archive (b : bytes) (data_dir : dir) (force : bool) : ST Fs SnapshotError unit :=
  _ ← prepare data_dir force;
  entries ← st_lift (ok_or (untar_gz b) SIo);
  '(manifest, fl) ← st_lift (read_entries entries None []);
  manifest ← st_lift (ok_or manifest (SManifest "missing snapshot.json in archive"));
  if decide (m_version manifest ≠ MANIFEST_VERSION) then st_fail (SManifest "unsupported manifest version")
  else
    _ ← st_lift (verify_entries (data_files manifest) (list_to_map (reverse fl)));
    write_files data_dir fl.

(** ** The two commands *)

Definition write_local (now : Z) (path : dir) (b : bytes) : ST Fs SnapshotError unit := λ fs,
  let final_path := if decide (path ∈ folders fs) then path ++ [str "grumpydb-snapshot-" ++ text (show_nat now) ++ str ".tar.gz"] else path in
  (_ ← create_dir_all (removelast final_path); create_file final_path b) fs.

Definition snapshot (now : Z) (data_dir dest : dir) : ST Fs SnapshotError unit := λ fs,
  match build_archive now data_dir fs with
  | Ok b => write_local now dest b fs
  | Err e => (Err e, fs)
  | Panic => (Panic, fs)
  end.

Definition restore (data_dir src : dir) (force : bool) : ST Fs SnapshotError unit := λ fs,
  match files fs !! src with
  | Some b => extract_archive b data_dir force fs
  | None => (Err SIo, fs)
  end.
End archive.

(** ** Paths of plain names *)

Lemma components_ne p : components p ≠ [].
Proof. destruct p as [|b p]; cbn [components]; [done|]. case_decide; [done|]. by destruct (components p). Qed.

Lemma components_cons c p : Forall (λ b, b ≠ x2f ∧ b ≠ x5c) c → components (c ++ x2f :: p) = c :: components p.
Proof.
  induction c as [|b c IH]; intros Hc; [done|]. apply Forall_cons in Hc as [[Hb _] Hc]. cbn [app components].
  rewrite decide_False by done. by rewrite (IH Hc).
Qed.

Lemma components_one c : Forall (λ b, b ≠ x2f ∧ b ≠ x5c) c → components c = [c].
Proof. induction 1 as [|b c [Hb _] _ IH]; [done|]. cbn [components]. rewrite decide_False by done. by rewrite IH. Qed.

Lemma components_join cs : Forall plain_name cs → cs ≠ [] → components (join_slash cs) = cs.
Proof.
  induction cs as [|c cs IH]; [done|]. intros [(_ & _ & _ & _ & Hc) Hcs]%Forall_cons _. destruct cs as [|c' cs]; [by apply components_one|].
  change (components (c ++ x2f :: join_slash (c' :: cs)) = c :: c' :: cs). rewrite components_cons by done. by rewrite IH.
Qed.

Lemma archive_path_plain rel : Forall plain_name rel → to_archive_path rel = join_slash rel.
Proof.
  intros Hp. unfold to_archive_path. f_equal. induction Hp as [|c rel Hc _ IH]; [done|]. rewrite filter_cons_True by apply Hc. by rewrite IH.
Qed.

Lemma join_bytes cs : Forall plain_name cs → utf8_valid (join_slash cs) = true ∧ Forall (λ b, b ≠ x5c) (join_slash cs).
Proof.
  induction cs as [|c cs IH]; [done|]. intros [(Hv & _ & _ & _ & Hc) Hcs]%Forall_cons.
  assert (Hb : Forall (λ b, b ≠ x5c) c) by (eapply Forall_impl; [exact Hc|naive_solver]). destruct cs as [|c' cs]; [done|].
  destruct (IH Hcs) as [IHv IHb]. change (utf8_valid (c ++ x2f :: join_slash (c' :: cs)) = true ∧ Forall (λ b, b ≠ x5c) (c ++ x2f :: join_slash (c' :: cs))).
  rewrite utf8_valid_app by done. split; [exact IHv|]. apply Forall_app. split; [done|by constructor].
Qed.

Lemma normalize_plain base cs : Forall plain_name cs → normalize base cs = base ++ cs.
Proof.
  unfold normalize. revert base. induction cs as [|c cs IH]; intros base Hcs; [by rewrite app_nil_r|].
  apply Forall_cons in Hcs as [(_ & H1 & H2 & H3 & _) Hcs]. cbn [foldl]. rewrite !decide_False by naive_solver. rewrite IH by done. by rewrite <- app_assoc.
Qed.

Lemma join_head cs : Forall plain_name cs → head (join_slash cs) ≠ Some x2f.
Proof.
  destruct cs as [|c cs]; [done|]. intros [(_ & Hne & _ & _ & Hc) _]%Forall_cons. destruct c as [|b c]; [done|]. apply Forall_cons in Hc as [[Hb _] _].
  by destruct cs; cbn; intros [= ->].
Qed.

Lemma resolve_plain base rel : Forall plain_name rel → rel ≠ [] → resolve base (join_slash rel) = base ++ rel.
Proof. intros Hp Hne. unfold resolve. rewrite decide_False by (by apply join_head). rewrite components_join by done. by apply normalize_plain. Qed.

Lemma join_inj p q : Forall plain_name p → Forall plain_name q → p ≠ [] → q ≠ [] → join_slash p = join_slash q → p = q.
Proof. intros Hp Hq Hnp Hnq E. rewrite <- (components_join p), <- (components_join q) by done. by rewrite E. Qed.

Lemma strip_root_spec root p rel : strip_root root p = Some rel ↔ p = root ++ rel.
Proof.
  unfold strip_root. case_decide as H; split.
  - intros [= <-]. rewrite <- H at 1. by rewrite take_drop.
  - intros ->. by rewrite drop_app_length.
  - done.
  - intros ->. by rewrite take_app_length in H.
Qed.

Lemma elem_ancestors p q : q ∈ ancestors p ↔ ∃ r, r ≠ [] ∧ p = q ++ r.
Proof.
  unfold ancestors. rewrite list_elem_of_fmap. split.
  - intros (i & -> & Hi%elem_of_seq). exists (drop i p). split; [|by rewrite take_drop]. intros E. apply (f_equal length) in E. rewrite length_drop in E. cbn in E. lia.
  - intros (r & Hr & ->). exists (length q). rewrite take_app_length. split; [done|]. apply elem_of_seq. rewrite length_app. destruct r; [done|]. cbn. lia.
Qed.

Lemma elem_upto p q : q ∈ ancestors p ++ [p] ↔ q `prefix_of` p.
Proof.
  rewrite elem_of_app, elem_ancestors, list_elem_of_singleton. split.
  - intros [(r & _ & ->)| ->]; [by apply prefix_app_r|done].
  - intros [r ->]. destruct r as [|c r]; [right; by rewrite app_nil_r|]. left. by exists (c :: r).
Qed.

Lemma removelast_snoc {A} (l : list A) : l ≠ [] → ∃ x, l = removelast l ++ [x].
Proof. intros Hl. destruct (exists_last Hl) as (l' & x & ->). exists x. by rewrite removelast_last. Qed.

Lemma ancestors_snoc p q : p ≠ [] → q `prefix_of` removelast p ↔ q ∈ ancestors p.
Proof.
  intros Hp. destruct (removelast_snoc p Hp) as [x Hx]. rewrite elem_ancestors. split.
  - intros [r Hr]. exists (r ++ [x]). split; [by destruct r|]. by rewrite Hx, Hr, app_assoc.
  - intros (r & Hr & E). destruct (removelast_snoc r Hr) as [y Hy]. rewrite E, Hy, app_assoc, removelast_last. by apply prefix_app_r.
Qed.

(** ** Writing the files of an archive *)

(** Files of a tree: no file is inside another. *)
Definition tree (l : list (dir * bytes)) : Prop := ∀ e e', e ∈ l → e' ∈ l → e.1 ∉ ancestors e'.1.

Record written (T : dir) (fs : Fs) (l : list (dir * bytes)) : Prop := {
  w_files : ∀ q, files fs !! (T ++ q) = (list_to_map l : gmap dir bytes) !! q;
  w_folders : ∀ q, T ++ q ∈ folders fs → q = [] ∨ ∃ e, e ∈ l ∧ q ∈ ancestors e.1;
  w_above : ∀ q, q ∈ ancestors T → files fs !! q = None;
}.

Lemma prefix_split (T q p : dir) : q `prefix_of` T ++ p → q ∈ ancestors T ∨ ∃ q', q = T ++ q' ∧ q' `prefix_of` p.
Proof.
  intros [r Hr]. apply app_eq_inv in Hr as [(k & -> & Hk)|(k & -> & Hk)].
  - destruct k as [|c k]; [right; exists []; split; [by rewrite !app_nil_r|by exists p]|left]. apply elem_ancestors. by exists (c :: k).
  - right. exists k. split; [done|]. by exists r.
Qed.

(** A path that no file is in the way of. *)
Lemma path_free T fs l rel b : written T fs l → tree (l ++ [(rel, b)]) → rel ≠ [] → ∀ q, q `prefix_of` T ++ removelast rel → files fs !! q = None.
Proof.
  intros [Hf _ Ha] Ht Hne q [Hq|(q' & -> & Hq)]%prefix_split; [by apply Ha|]. rewrite Hf. apply not_elem_of_list_to_map_1.
  intros ([q0 b'] & -> & He)%list_elem_of_fmap. apply (Ht (q0, b') (rel, b)); [set_solver|set_solver|]. by apply ancestors_snoc.
Qed.

Lemma write_files_ok T todo : ∀ fs l, written T fs l → tree (l ++ todo) → NoDup (l ++ todo).*1 → Forall (λ e, e.1 ≠ [] ∧ Forall plain_name e.1) todo →
  ∃ fs', write_files T ((λ '(rel, b), (join_slash rel, b)) <$> todo) fs = (Ok tt, fs') ∧ written T fs' (l ++ todo) ∧
    ∀ p, ¬ T `prefix_of` p → files fs' !! p = files fs !! p.
Proof.
  induction todo as [|[rel b] todo IH]; intros fs l Hw Ht Hnd Hp; [exists fs; rewrite app_nil_r; done|].
  apply Forall_cons in Hp as [[Hne Hpl] Hp]. cbn [fst] in Hne, Hpl. cbn [fmap list_fmap write_files]. rewrite resolve_plain by done.
  assert (Ht1 : tree (l ++ [(rel, b)])) by (intros e e' He He'; apply Ht; set_solver).
  pose proof (path_free _ _ _ _ _ Hw Ht1 Hne) as Hfree. set (P := T ++ removelast rel) in *.
  destruct (removelast_snoc rel Hne) as [c Hc]. assert (HP : removelast (T ++ rel) = P) by (unfold P; by rewrite Hc at 1; rewrite app_assoc, removelast_last).
  assert (Hrel : T ++ rel = P ++ [c]) by (unfold P; rewrite Hc at 1; by rewrite app_assoc).
  unfold mbind, st_bind. unfold create_dir_all at 1. rewrite HP, decide_False.
  2: { intros (q & Hq%elem_upto & Hs)%Exists_exists. rewrite Hfree in Hs by done. by destruct Hs. }
  assert (Hlast : last (components (join_slash rel)) ≠ Some []).
  { rewrite components_join by done. intros Hl. rewrite Hc, last_snoc in Hl. injection Hl as ->. rewrite Hc in Hpl. apply Forall_app in Hpl as [_ [(_ & ? & _) _]%Forall_cons]. done. }
  rewrite decide_False by done. set (fs1 := mkFs (files fs) _). unfold create_file. rewrite decide_False.
  2: { cbn [folders files fs1]. rewrite elem_of_union, elem_of_list_to_set, elem_upto. intros [[[r Hr]|Hin]|(q & Hq & Hs)%Exists_exists].
       - rewrite Hrel in Hr. apply (f_equal length) in Hr. rewrite !length_app in Hr. cbn in Hr. lia.
       - destruct (w_folders _ _ _ Hw _ Hin) as [?|(e & He & Hanc)]; [done|]. apply (Ht1 (rel, b) e); set_solver.
       - rewrite Hrel in Hq. apply ancestors_snoc in Hq; [|by destruct P]. rewrite removelast_last in Hq. rewrite Hfree in Hs by done. by destruct Hs. }
  set (fs2 := mkFs _ _). assert (Hw2 : written T fs2 (l ++ [(rel, b)])).
  { split; cbn [files folders fs2 fs1].
    - intros q. destruct (decide (q = rel)) as [->|Hq].
      + rewrite lookup_insert_eq. rewrite list_to_map_app, lookup_union_r; [cbn; by rewrite lookup_insert_eq|]. apply not_elem_of_list_to_map_1.
        intros Hin. rewrite fmap_app in Hnd. apply NoDup_app in Hnd as (_ & Hnd & _). apply (Hnd rel Hin). set_solver.
      + rewrite lookup_insert_ne by (intros E; apply app_inv_head in E; done). rewrite (w_files _ _ _ Hw), list_to_map_app, lookup_union_l; [done|].
        cbn. by rewrite lookup_insert_ne.
    - intros q. rewrite elem_of_union, elem_of_list_to_set, elem_upto. intros [Hq|Hq].
      + right. exists (rel, b). split; [set_solver|]. apply ancestors_snoc; [done|]. destruct Hq as [r Hr]. unfold P in Hr. rewrite <- app_assoc in Hr.
        apply app_inv_head in Hr. by exists r.
      + destruct (w_folders _ _ _ Hw _ Hq) as [?|(e & He & Hanc)]; [by left|]. right. exists e. set_solver.
    - intros q Hq. rewrite lookup_insert_ne; [by apply (w_above _ _ _ Hw)|]. apply elem_ancestors in Hq as (r & Hr & E). intros Heq. rewrite <- Heq in E.
      apply (f_equal length) in E. rewrite !length_app in E. destruct r; [done|]. cbn in E. lia. }
  destruct (IH fs2 (l ++ [(rel, b)]) Hw2) as (fs' & Hrun & Hw' & Hout); [by rewrite <- app_assoc|by rewrite <- app_assoc|done|].
  exists fs'. rewrite <- app_assoc in Hw'. split_and!; [exact Hrun|exact Hw'|]. intros p Hpre. rewrite Hout by done. cbn [files fs2].
  rewrite lookup_insert_ne; [done|]. intros <-. apply Hpre. by apply prefix_app_r.
Qed.

(** ** The archive of a directory *)

Definition contents (fs : Fs) (D : dir) : list (dir * bytes) := omap (λ rel, b ← files fs !! (D ++ rel); Some (rel, b)) (walk_files fs D).

Lemma elem_walk fs D rel : rel ∈ walk_files fs D ↔ is_Some (files fs !! (D ++ rel)).
Proof.
  unfold walk_files. rewrite merge_sort_Permutation, list_elem_of_omap. split.
  - intros (p & Hp & Hs). apply strip_root_spec in Hs as ->. apply list_elem_of_fmap in Hp as ([p' b] & -> & Hp). apply elem_of_map_to_list in Hp. by exists b.
  - intros [b Hb]. exists (D ++ rel). split; [|by apply strip_root_spec]. apply list_elem_of_fmap. exists (D ++ rel, b). split; [done|by apply elem_of_map_to_list].
Qed.

Lemma NoDup_omap_inj {A B} (f : A → option B) (l : list A) : (∀ x y b, f x = Some b → f y = Some b → x = y) → NoDup l → NoDup (omap f l).
Proof.
  intros Hinj. induction 1 as [|x l Hx Hl IH]; [constructor|]. cbn. destruct (f x) as [b|] eqn:E; [|done]. constructor; [|done].
  intros (y & Hy & Ey)%list_elem_of_omap. by rewrite (Hinj x y b E Ey) in Hx.
Qed.

Lemma contents_spec fs D :
  (∀ rel b, (rel, b) ∈ contents fs D ↔ files fs !! (D ++ rel) = Some b) ∧ NoDup (contents fs D).*1.
Proof.
  split.
  - intros rel b. unfold contents. rewrite list_elem_of_omap. split.
    + intros (p & _ & Hp). destruct (files fs !! (D ++ p)) as [b'|] eqn:E; [|done]. cbn in Hp. injection Hp as -> ->. done.
    + intros Hb. exists rel. split; [by apply elem_walk|]. by rewrite Hb.
  - assert (E : (contents fs D).*1 = walk_files fs D).
    { unfold contents. assert (Hall : Forall (λ rel, is_Some (files fs !! (D ++ rel))) (walk_files fs D)) by (apply Forall_forall; intros; by apply elem_walk).
      induction Hall as [|rel l [b Hb] _ IH]; [done|]. cbn. rewrite Hb. cbn. by rewrite IH. }
    rewrite E. unfold walk_files. rewrite merge_sort_Permutation. apply NoDup_omap_inj; [|apply NoDup_fst_map_to_list].
    intros x y b Hx%strip_root_spec Hy%strip_root_spec. congruence.
Qed.

(** A directory whose files have plain names. *)
Record source_ok (fs : Fs) (D : dir) : Prop := {
  so_folder : D ∈ folders fs;
  so_names : ∀ rel b, files fs !! (D ++ rel) = Some b → rel ≠ [] ∧ Forall plain_name rel;
  so_tree : ∀ p q b b', files fs !! p = Some b → files fs !! (p ++ q) = Some b' → q = [];
}.

Lemma source_contents fs D : source_ok fs D → tree (contents fs D) ∧ Forall (λ e, e.1 ≠ [] ∧ Forall plain_name e.1) (contents fs D).
Proof.
  intros [_ Hn Ht]. destruct (contents_spec fs D) as [Hc _]. split.
  - intros [p b] [p' b'] Hp Hp' (r & Hr & E)%elem_ancestors. cbn in E. subst p'. apply Hc in Hp, Hp'. rewrite app_assoc in Hp'. exact (Hr (Ht _ _ _ _ Hp Hp')).
  - apply Forall_forall. intros [rel b] Hin%Hc. by eapply Hn.
Qed.

Section roundtrip.
Context `{SnapshotCrates} (version : bytes).

Definition data_entry (e : dir * bytes) : bytes * bytes := (DATA_PREFIX ++ join_slash e.1, e.2).

Lemma replace_none s : Forall (λ b, b ≠ x5c) s → replace_backslash s = s.
Proof. unfold replace_backslash. induction 1 as [|b s Hb _ IH]; [done|]. cbn. rewrite decide_False by done. by rewrite IH. Qed.

Lemma data_path rel : Forall plain_name rel →
  replace_backslash (from_utf8_lossy (DATA_PREFIX ++ join_slash rel)) = DATA_PREFIX ++ join_slash rel.
Proof.
  intros Hp. destruct (join_bytes rel Hp) as [Hv Hb]. rewrite lossy_valid by (by rewrite utf8_valid_app). apply replace_none.
  apply Forall_app. split; [by repeat constructor|done].
Qed.

Lemma read_data_entries l : ∀ m fl, Forall (λ e, e.1 ≠ [] ∧ Forall plain_name e.1) l →
  read_entries (data_entry <$> l) m fl = Ok (m, fl ++ ((λ '(rel, b), (join_slash rel, b)) <$> l)).
Proof.
  induction l as [|[rel b] l IH]; intros m fl Hl; [cbn; by rewrite app_nil_r|]. apply Forall_cons in Hl as [[_ Hp] Hl]. cbn [fst] in Hp.
  cbn [fmap list_fmap data_entry fst snd read_entries]. rewrite data_path by done. rewrite decide_False by done. rewrite decide_True by done.
  change (drop 5 (DATA_PREFIX ++ join_slash rel)) with (join_slash rel). rewrite IH by done. by rewrite <- app_assoc.
Qed.

Lemma verify_ok (actual : gmap bytes bytes) l :
  Forall (λ e, Forall plain_name e.1 ∧ actual !! join_slash e.1 = Some e.2) l →
  verify_entries ((λ '(rel, b), file_entry rel b) <$> l) actual = Ok tt.
Proof.
  induction 1 as [|[rel b] l [Hp Ha] _ IH]; [done|]. cbn [fst snd] in *. cbn [fmap list_fmap verify_entries file_entry entry_path entry_sha].
  rewrite archive_path_plain, Ha by done. cbn [ok_or mbind outcome_bind]. rewrite decide_False by naive_solver. exact IH.
Qed.

Lemma build_ok now D fs : source_ok fs D →
  ∃ b, build_archive version now D fs = Ok b ∧
    untar_gz b = Some ((MANIFEST_FILENAME, manifest_text (mkManifest MANIFEST_VERSION version now ((λ '(rel, b), file_entry rel b) <$> contents fs D))) :: (data_entry <$> contents fs D)).
Proof.
  intros Hs. destruct (source_contents fs D Hs) as [_ Hp]. unfold build_archive. fold (contents fs D). set (m := mkManifest _ _ _ _).
  assert (Hex : exists_ fs D = true) by (unfold exists_; rewrite bool_decide_true by apply Hs; done). rewrite Hex. cbn [negb].
  rewrite decide_False by (intros Hn; apply Hn, Hs).
  assert (Hmap : ((λ '(rel, b), (DATA_PREFIX ++ to_archive_path rel, b)) <$> contents fs D) = (data_entry <$> contents fs D)).
  { induction Hp as [|[rel b] l [_ Hpl] _ IH]; [done|]. cbn [fmap list_fmap]. rewrite archive_path_plain by done. f_equal. exact IH. }
  rewrite Hmap. destruct (untar_tar ((MANIFEST_FILENAME, manifest_text m) :: (data_entry <$> contents fs D))) as (b & Hb & Hu).
  { constructor; [cbn; repeat constructor; try done; by vm_compute|]. apply Forall_fmap. eapply Forall_impl; [exact Hp|]. intros [rel b] [Hne Hpl]. cbn in Hne, Hpl. cbn [data_entry compose fst snd].
    change (DATA_PREFIX ++ join_slash rel) with (str "data" ++ x2f :: join_slash rel). rewrite components_cons by (by repeat constructor).
    rewrite components_join by done. constructor; [|done]. repeat constructor; done. }
  exists b. by rewrite Hb.
Qed.

(** A place nothing has been put to, and no file is in the way of. *)
Definition fresh (fs : Fs) (T : dir) : Prop :=
  (∀ q, files fs !! (T ++ q) = None ∧ T ++ q ∉ folders fs) ∧ ∀ q, q ∈ ancestors T → files fs !! q = None.

Lemma prepare_fresh fs T force : fresh fs T → ∃ fs', prepare T force fs = (Ok tt, fs') ∧ files fs' = files fs ∧ written T fs' [].
Proof.
  intros [Hf Ha]. unfold prepare, exists_. destruct (Hf []) as [HT1 HT2]. rewrite app_nil_r in HT1, HT2.
  rewrite bool_decide_false by done. rewrite HT1, bool_decide_false by (by intros []). cbn [orb]. unfold create_dir_all. rewrite decide_False.
  2: { intros (q & Hq & Hs)%Exists_exists. apply elem_of_app in Hq as [Hq|Hq%list_elem_of_singleton]; [rewrite Ha in Hs by done; by destruct Hs|subst q; rewrite HT1 in Hs; by destruct Hs]. }
  eexists. split; [done|]. split; [done|]. split; cbn [files folders].
  - intros q. rewrite (proj1 (Hf q)). done.
  - intros q. rewrite elem_of_union, elem_of_list_to_set, elem_upto. intros [[r Hr]|Hq]; [|by destruct (Hf q)]. left.
    rewrite <- (app_nil_r T) in Hr at 1. rewrite <- app_assoc in Hr. apply app_inv_head in Hr. symmetry in Hr. by apply app_eq_nil in Hr as [-> _].
  - exact Ha.
Qed.

Lemma list_to_map_reverse (l : list (bytes * bytes)) p b : NoDup l.*1 → (p, b) ∈ l → (list_to_map (reverse l) : gmap bytes bytes) !! p = Some b.
Proof. intros Hnd Hin. apply elem_of_list_to_map_1; [by rewrite fmap_reverse, reverse_Permutation|by rewrite reverse_Permutation]. Qed.

Lemma paths_NoDup (l : list (dir * bytes)) : Forall (λ e, e.1 ≠ [] ∧ Forall plain_name e.1) l → NoDup l.*1 → NoDup ((λ '(rel, b), (join_slash rel, b)) <$> l).*1.
Proof.
  intros Hp Hnd. assert (E : ((λ '(rel, b), (join_slash rel, b)) <$> l).*1 = join_slash <$> l.*1) by (clear; induction l as [|[rel b] l IH]; [done|]; cbn; by f_equal).
  rewrite E. clear E. induction Hp as [|[rel b] l [Hne Hpl] Hp IH]; [constructor|]. cbn in *. apply NoDup_cons in Hnd as [Hx Hnd]. constructor; [|by apply IH].
  intros (rel' & Heq & Hin)%list_elem_of_fmap. apply Hx. apply list_elem_of_fmap in Hin as ([r b'] & -> & Hin). rewrite Forall_forall in Hp. destruct (Hp _ Hin) as [Hne' Hpl'].
  cbn in Heq, Hne', Hpl'. rewrite (join_inj rel r) by done. apply list_elem_of_fmap. by exists (r, b').
Qed.

Lemma extract_ok now D T fs fs1 b : source_ok fs D → build_archive version now D fs = Ok b → fresh fs1 T →
  ∃ fs2, extract_archive b T false fs1 = (Ok tt, fs2) ∧ (∀ rel, files fs2 !! (T ++ rel) = files fs !! (D ++ rel)) ∧
    ∀ p, ¬ T `prefix_of` p → files fs2 !! p = files fs1 !! p.
Proof.
  intros Hs Hb Hf. destruct (build_ok now D fs Hs) as (b' & Hb' & Hu). rewrite Hb in Hb'. injection Hb' as <-.
  destruct (source_contents fs D Hs) as [Ht Hp]. destruct (contents_spec fs D) as [Hc Hnd]. pose proof (paths_NoDup _ Hp Hnd) as Hnd'.
  destruct (prepare_fresh fs1 T false Hf) as (fs1' & Hprep & Hsame & Hw). unfold extract_archive. rewrite (st_step _ _ _ _ _ Hprep).
  rewrite Hu. cbn [ok_or]. rewrite (st_step _ _ _ _ _ (eq_refl : st_lift (Ok _) fs1' = (Ok _, fs1'))).
  erewrite st_step; [|unfold st_lift; cbn [read_entries]; change (replace_backslash (from_utf8_lossy MANIFEST_FILENAME)) with MANIFEST_FILENAME;
    rewrite decide_True, manifest_read_text, read_data_entries by done; reflexivity].
  cbn [ok_or app]. rewrite (st_step _ _ _ _ _ (eq_refl : st_lift (Ok _) fs1' = (Ok _, fs1'))). cbn [m_version data_files]. rewrite decide_False by (intros Hn; by apply Hn).
  erewrite st_step; [|unfold st_lift; rewrite verify_ok; [reflexivity|]].
  2: { apply Forall_forall. intros [rel x] Hin. rewrite Forall_forall in Hp. split; [by apply (Hp _ Hin)|]. apply list_to_map_reverse; [done|].
       apply list_elem_of_fmap. by exists (rel, x). }
  destruct (write_files_ok T (contents fs D) fs1' [] Hw Ht Hnd Hp) as (fs2 & Hrun & Hw2 & Hout). exists fs2. split_and!; [exact Hrun| |by rewrite <- Hsame].
  intros rel. rewrite (w_files _ _ _ Hw2). cbn [app]. destruct (files fs !! (D ++ rel)) as [x|] eqn:E.
  - apply elem_of_list_to_map_1; [done|by apply Hc].
  - apply not_elem_of_list_to_map_1. intros ([r x] & -> & Hin)%list_elem_of_fmap. apply Hc in Hin. cbn in E. congruence.
Qed.

(** C26: A restored snapshot is the directory that was saved.  Whenever files of the data
    directory have plain names, a snapshot succeeds, leaves the other files alone, and
    restoring it to a new directory gives exactly the files with exactly the bytes that were
    there, and changes nothing elsewhere. *)
Theorem snapshot_roundtrip now D T dest fs :
  source_ok fs D → fresh fs T → dest ∉ folders fs → dest ≠ [] → (∀ q, q ∈ ancestors dest → files fs !! q = None) →
  ¬ T `prefix_of` dest → ¬ dest `prefix_of` T →
  ∃ fs1 fs2, snapshot version now D dest fs = (Ok tt, fs1) ∧ restore T dest false fs1 = (Ok tt, fs2) ∧
    (∀ rel, files fs2 !! (T ++ rel) = files fs !! (D ++ rel)) ∧
    (∀ p, p ≠ dest → ¬ T `prefix_of` p → files fs2 !! p = files fs !! p).
Proof.
  intros Hs [Hf Ha] Hd Hne Hfree HT HT'. destruct (build_ok now D fs Hs) as (b & Hb & _). unfold snapshot. rewrite Hb. unfold write_local. rewrite decide_False by done.
  unfold mbind, st_bind, create_dir_all. rewrite decide_False.
  2: { intros (q & Hq & Hx)%Exists_exists. apply elem_upto, ancestors_snoc in Hq; [|done]. rewrite Hfree in Hx by done. by destruct Hx. }
  unfold create_file. cbn [files folders]. rewrite decide_False.
  2: { rewrite elem_of_union, elem_of_list_to_set, elem_upto. intros [[Hq|?]|(q & Hq & Hx)%Exists_exists]; [|done|rewrite Hfree in Hx by done; by destruct Hx].
       apply ancestors_snoc, elem_ancestors in Hq as (r & Hr & E); [|done]. apply (f_equal length) in E. rewrite length_app in E. destruct r; [done|]. cbn in E. lia. }
  set (fs1 := mkFs _ _). assert (Hfresh : fresh fs1 T).
  { split; cbn [files folders fs1].
    - intros q. split; [rewrite lookup_insert_ne; [apply Hf|intros ->; apply HT; by apply prefix_app_r]|]. rewrite elem_of_union, elem_of_list_to_set, elem_upto.
      intros [[r Hr]|Hq]; [|by destruct (Hf q)]. apply HT. destruct (removelast_snoc dest Hne) as [x ->]. rewrite Hr, <- !app_assoc. by apply prefix_app_r.
    - intros q Hq. rewrite lookup_insert_ne; [by apply Ha|]. intros <-. apply HT'. apply elem_ancestors in Hq as (r & _ & ->). by apply prefix_app_r. }
  destruct (extract_ok now D T fs fs1 b Hs Hb Hfresh) as (fs2 & Hrun & Hsame & Hout). exists fs1, fs2. split_and!; [done| |exact Hsame|].
  - unfold restore. cbn [files fs1]. by rewrite lookup_insert_eq.
  - intros p Hp HTp. rewrite Hout by done. cbn [files fs1]. by rewrite lookup_insert_ne.
Qed.

Lemma write_files_error T fl fs e fs' : write_files T fl fs = (Err e, fs') → e = SIo.
Proof.
  revert fs. induction fl as [|[rel x] fl IH]; intros fs1 Hw; [done|]. cbn [write_files] in Hw. unfold mbind, st_bind in Hw.
  destruct (create_dir_all _ fs1) as [[[]|e1|] fs2] eqn:E1; [|by unfold create_dir_all in E1; case_decide; simplify_eq|done].
  case_decide; [by injection Hw as <-|]. destruct (create_file _ x fs2) as [[[]|e1|] fs3] eqn:E2; [by eapply IH|by unfold create_file in E2; case_decide; simplify_eq|done].
Qed.

(** *** What an archive says *)

Definition entry_name (e : bytes * bytes) : bytes := replace_backslash (from_utf8_lossy e.1).

(** The texts of the manifests, and the data files with their paths. *)
Definition manifests (entries : list (bytes * bytes)) : list bytes := omap (λ e, if decide (entry_name e = MANIFEST_FILENAME) then Some e.2 else None) entries.
Definition payload (entries : list (bytes * bytes)) : list (bytes * bytes) :=
  omap (λ e, if decide (take 5 (entry_name e) = DATA_PREFIX) then Some (drop 5 (entry_name e), e.2) else None) entries.

(** The file at a path: the last one, when there are several. *)
Definition stored (entries : list (bytes * bytes)) (path : bytes) : option bytes :=
  last (omap (λ f, if decide (f.1 = path) then Some f.2 else None) (payload entries)).

(** The manifest that counts: all are readable, and it is the last. *)
Definition manifest_is (entries : list (bytes * bytes)) (m : Manifest) : Prop :=
  Forall (λ t, is_Some (manifest_read t)) (manifests entries) ∧ last (manifests entries) ≫= manifest_read = Some m.

Definition intact (entries : list (bytes * bytes)) (f : FileEntry) : Prop := ∃ b, stored entries (entry_path f) = Some b ∧ sha256_hex b = entry_sha f.

(** The reasons to refuse an archive, with the error of each. *)
Inductive refused_with (entries : list (bytes * bytes)) : SnapshotError → Prop :=
| refused_no_manifest : manifests entries = [] → refused_with entries (SManifest "missing snapshot.json in archive")
| refused_bad_manifest : ¬ Forall (λ t, is_Some (manifest_read t)) (manifests entries) → refused_with entries (SManifest "invalid JSON")
| refused_version m : manifest_is entries m → m_version m ≠ 1 → refused_with entries (SManifest "unsupported manifest version")
| refused_missing m good f rest :
    manifest_is entries m → m_version m = 1 → data_files m = good ++ f :: rest → Forall (intact entries) good → stored entries (entry_path f) = None →
    refused_with entries (SManifest "manifest references missing file")
| refused_checksum m good f rest b :
    manifest_is entries m → m_version m = 1 → data_files m = good ++ f :: rest → Forall (intact entries) good →
    stored entries (entry_path f) = Some b → sha256_hex b ≠ entry_sha f →
    refused_with entries (Checksum (entry_path f) (entry_sha f) (sha256_hex b)).

(** A destination that can be restored to. *)
Definition occupied (fs : Fs) (T : dir) : Prop := ∃ q, q ≠ [] ∧ (is_Some (files fs !! (T ++ q)) ∨ T ++ q ∈ folders fs).
Definition ready (fs : Fs) (T : dir) (force : bool) : Prop :=
  T ∈ folders fs ∧ (occupied fs T → force = true) ∨
  T ∉ folders fs ∧ ∀ q, q `prefix_of` T → files fs !! q = None.

Lemma is_empty_dir_spec fs T : if is_empty_dir fs T then ¬ occupied fs T else occupied fs T.
Proof.
  unfold is_empty_dir. set (l := _ ++ elements _).
  assert (Hl : ∀ p, p ∈ l ↔ is_Some (files fs !! p) ∨ p ∈ folders fs).
  { intros p. unfold l. rewrite elem_of_app, elem_of_elements, list_elem_of_fmap. f_equiv. split.
    - intros ([p' b] & -> & Hb%elem_of_map_to_list). cbn. eauto.
    - intros [b Hb]. exists (p, b). by rewrite elem_of_map_to_list. }
  case_bool_decide as Hnil.
  - intros (q & Hq & Hin%Hl). assert (Hx : T ++ q ∈ omap (λ q, match strip_root T q with Some (_ :: _) => Some q | _ => None end) l).
    { apply list_elem_of_omap. exists (T ++ q). split; [done|]. by rewrite (proj2 (strip_root_spec T (T ++ q) q) eq_refl); destruct q. }
    rewrite Hnil in Hx. by apply not_elem_of_nil in Hx.
  - destruct (omap _ l) as [|p k] eqn:E; [done|]. assert (Hp : p ∈ p :: k) by left. rewrite <- E in Hp.
    apply list_elem_of_omap in Hp as (p' & Hin & Hs). destruct (strip_root T p') as [[|c q]|] eqn:Hr; [done| |done]. apply strip_root_spec in Hr as ->.
    exists (c :: q). split; [done|]. by apply Hl.
Qed.

Lemma prepare_ready fs T force : ready fs T force → ∃ fs', prepare T force fs = (Ok tt, fs') ∧ files fs' = files fs.
Proof.
  unfold prepare, exists_. intros [[HT Hocc]|[HT Hfree]].
  - rewrite bool_decide_eq_true_2 by done. cbn [orb]. rewrite decide_False by naive_solver. pose proof (is_empty_dir_spec fs T) as He.
    destruct (is_empty_dir fs T); [by exists fs|]. rewrite (Hocc He). by exists fs.
  - rewrite bool_decide_eq_false_2 by done. rewrite (Hfree T) by done. rewrite bool_decide_eq_false_2 by (by intros []). cbn [orb]. unfold create_dir_all.
    rewrite decide_False; [by eexists|]. intros (q & Hq%elem_upto & Hs)%Exists_exists. rewrite Hfree in Hs by done. by destruct Hs.
Qed.

Lemma read_entries_spec entries m0 fl :
  read_entries entries m0 fl =
  if decide (Forall (λ t, is_Some (manifest_read t)) (manifests entries))
  then Ok (match last (manifests entries) with Some t => manifest_read t | None => m0 end, fl ++ payload entries)
  else Err (SManifest "invalid JSON").
Proof.
  revert m0 fl. induction entries as [|[path buf] entries IH]; intros m0 fl; [cbn; by rewrite app_nil_r|]. cbn [read_entries].
  unfold manifests, payload. cbn [omap list_omap]. fold (manifests entries) (payload entries). change (replace_backslash (from_utf8_lossy path)) with (entry_name (path, buf)).
  destruct (decide (entry_name (path, buf) = MANIFEST_FILENAME)) as [Hn|Hn]; cbn [snd].
  - rewrite Hn. rewrite (decide_False (P := take 5 MANIFEST_FILENAME = DATA_PREFIX)) by done. destruct (manifest_read buf) as [m|] eqn:Hm.
    + rewrite IH. rewrite last_cons. destruct (decide (Forall _ (manifests entries))) as [Hall|Hall].
      * rewrite decide_True by (constructor; [by rewrite Hm|done]). destruct (last (manifests entries)); [done|by rewrite Hm].
      * rewrite decide_False; [done|]. by intros [_ ?]%Forall_cons.
    + rewrite decide_False; [done|]. intros [[? Hx] _]%Forall_cons. by rewrite Hm in Hx.
  - destruct (decide (take 5 (entry_name (path, buf)) = DATA_PREFIX)); rewrite IH; [by rewrite <- app_assoc|done].
Qed.

Lemma stored_lookup entries path : (list_to_map (reverse (payload entries)) : gmap bytes bytes) !! path = stored entries path.
Proof.
  unfold stored. induction (payload entries) as [|[p b] l IH] using rev_ind; [done|]. rewrite reverse_snoc. cbn [list_to_map foldr]. cbn.
  rewrite omap_app, last_app. cbn [omap list_omap fst snd]. destruct (decide (p = path)) as [->|Hp]; cbn [last].
  - by rewrite lookup_insert_eq.
  - rewrite lookup_insert_ne by done. exact IH.
Qed.

Lemma verify_intact (entries : list (bytes * bytes)) (good rest : list FileEntry) (actual : gmap bytes bytes) :
  (∀ path, actual !! path = stored entries path) → Forall (intact entries) good → verify_entries (good ++ rest) actual = verify_entries rest actual.
Proof.
  intros Ha. induction 1 as [|f good (b & Hb & Hsha) _ IH]; [done|]. cbn [app verify_entries]. rewrite Ha, Hb. cbn [ok_or mbind outcome_bind].
  by rewrite decide_False by (intros Hx; by apply Hx).
Qed.

(** After the preparation, an archive is refused as it says. *)
Lemma extract_refused b T force fs fs1 entries e :
  prepare T force fs = (Ok tt, fs1) → untar_gz b = Some entries → refused_with entries e → extract_archive b T force fs = (Err e, fs1).
Proof.
  intros Hprep Hu Href. unfold extract_archive. rewrite (st_step _ _ _ _ _ Hprep). unfold st_lift, mbind, st_bind. rewrite Hu. cbn [ok_or].
  rewrite read_entries_spec. cbn [app].
  assert (Hm : ∀ m, manifest_is entries m → Forall (λ t, is_Some (manifest_read t)) (manifests entries) ∧
    match last (manifests entries) with Some t => manifest_read t | None => None end = Some m).
  { intros m [Hall Hlast]. split; [done|]. by destruct (last (manifests entries)). }
  destruct Href as [Hnil|Hbad|m Hi Hv|m good f rest Hi Hv Hf Hgood Hnone|m good f rest x Hi Hv Hf Hgood Hx Hne].
  - rewrite Hnil. by rewrite decide_True by constructor.
  - by rewrite decide_False.
  - destruct (Hm m Hi) as [Hall ->]. rewrite decide_True by done. cbn [ok_or]. by rewrite decide_True.
  - destruct (Hm m Hi) as [Hall ->]. rewrite decide_True by done. cbn [ok_or]. rewrite decide_False by (intros Hx; by apply Hx). rewrite Hf.
    rewrite (verify_intact entries) by (done || apply stored_lookup). cbn [verify_entries]. by rewrite stored_lookup, Hnone.
  - destruct (Hm m Hi) as [Hall ->]. rewrite decide_True by done. cbn [ok_or]. rewrite decide_False by (intros Hy; by apply Hy). rewrite Hf.
    rewrite (verify_intact entries) by (done || apply stored_lookup). cbn [verify_entries]. rewrite stored_lookup, Hx. cbn [ok_or mbind outcome_bind].
    by rewrite decide_True.
Qed.

(** C27: A restore refuses bad archives and then writes nothing.  Whatever the archive
    holds: when the destination is not empty and force is off, the restore is refused as
    [NotEmpty]; into a destination it may use, an archive without a manifest, with one that
    cannot be read or is of another version, with one that names a file the archive lacks,
    or with a file whose checksum is not the one in the manifest, is refused with the error
    of that case, the first file of the manifest that is wrong deciding; in all these cases
    no file of the system is created or changed.  Only a failing write can leave files
    behind.  (Files the manifest does not name are not checked.) *)
Theorem restore_refused_untouched T src force fs b :
  files fs !! src = Some b →
  (T ∈ folders fs → occupied fs T → force = false → restore T src force fs = (Err (NotEmpty T), fs)) ∧
  (ready fs T force → ∀ entries e, untar_gz b = Some entries → refused_with entries e →
     ∃ fs', restore T src force fs = (Err e, fs') ∧ files fs' = files fs) ∧
  (∀ e fs', restore T src force fs = (Err e, fs') → e ≠ SIo → files fs' = files fs).
Proof.
  intros Hb. unfold restore. rewrite Hb. split_and!.
  - intros HT Hocc ->. unfold extract_archive, mbind, st_bind, prepare, exists_. rewrite bool_decide_eq_true_2 by done. cbn [orb].
    rewrite decide_False by naive_solver. pose proof (is_empty_dir_spec fs T) as He. by destruct (is_empty_dir fs T).
  - intros Hr entries e Hu Href. destruct (prepare_ready fs T force Hr) as (fs1 & Hprep & Hsame). exists fs1. split; [by eapply extract_refused|done].
  - intros e fs'. unfold extract_archive, mbind, st_bind.
    assert (Hprep : files (prepare T force fs).2 = files fs) by (unfold prepare, create_dir_all; by repeat case_match).
    destruct (prepare T force fs) as [[[]|e1|] fs1]; cbn in Hprep; [|by intros [= <- <-]|done].
    unfold st_lift. destruct (untar_gz b) as [entries|]; cbn [ok_or]; [|by intros [= <- <-]].
    destruct (read_entries entries None []) as [[m fl]|e1|]; [|by intros [= <- <-]|done]. destruct m as [m|]; cbn [ok_or]; [|by intros [= <- <-]].
    case_decide; [by intros [= <- <-]|]. destruct (verify_entries _ _) as [[]|e1|]; [|by intros [= <- <-]|done].
    intros Hw Hio. destruct Hio. by eapply write_files_error.
Qed.
End roundtrip.

(** ** Witnesses *)

#[export] Instance FileEntry_eq_dec : EqDecision FileEntry.
Proof. solve_decision. Defined.
#[export] Program Instance FileEntry_countable : Countable FileEntry :=
  inj_countable' (λ e, (entry_path e, entry_size e, entry_sha e)) (λ '(a, b, c), mkEntry a b c) _.
Next Obligation. by intros []. Qed.
#[export] Instance Manifest_eq_dec : EqDecision Manifest.
Proof. solve_decision. Defined.
#[export] Program Instance Manifest_countable : Countable Manifest :=
  inj_countable' (λ m, (m_version m, m_grumpydb_version m, m_created_at m, data_files m)) (λ '(a, b, c, d), mkManifest a b c d) _.
Next Obligation. by intros []. Qed.

Definition toy_snapshot : SnapshotCrates.
Proof.
  refine {| sha256_hex := id; manifest_text := λ m, pos_text (encode m); manifest_read := λ b, decode (text_pos b);
            tar_gz := λ l, Some (pos_text (encode l)); untar_gz := λ b, decode (text_pos b) |}.
  - intros m. by rewrite text_pos_text, decode_encode.
  - intros l _. eexists. split; [done|]. by rewrite text_pos_text, decode_encode.
Defined.

Definition demo_fs : Fs := mkFs {[ [str "d"; str "a"; str "x"] := str "1"; [str "d"; str "y"] := str "2" ]} {[ [str "d"]; [str "d"; str "a"]; [str "d"; str "e"] ]}.

Lemma demo_source : source_ok demo_fs [str "d"].
Proof.
  assert (Hfiles : ∀ p b, files demo_fs !! p = Some b → p = [str "d"; str "a"; str "x"] ∨ p = [str "d"; str "y"]).
  { intros p b Hb. cbn [files demo_fs] in Hb. apply lookup_insert_Some in Hb as [[<- _]|[_ [<- _]%lookup_singleton_Some]]; [by left|by right]. }
  split.
  - vm_compute. reflexivity.
  - intros rel b [E|E]%Hfiles; injection E as ->; (split; [done|]); repeat constructor; done.
  - intros p q b b' Hp%Hfiles Hq%Hfiles. destruct Hp as [->| ->], Hq as [E|E]; by injection E.
Qed.

Lemma snapshot_roundtrip_witness :
  let C := toy_snapshot in
  let D := [str "d"] in let T := [str "t"] in let dest := [str "s"; str "z"] in
  ∃ fs1 fs2, snapshot (str "1") 5 D dest demo_fs = (Ok tt, fs1) ∧ restore T dest false fs1 = (Ok tt, fs2) ∧
    (∀ rel, files fs2 !! (T ++ rel) = files demo_fs !! (D ++ rel)) ∧ (∀ p, p ≠ dest → ¬ T `prefix_of` p → files fs2 !! p = files demo_fs !! p).
Proof.
  intros C D T dest. apply (snapshot_roundtrip (str "1") 5 D T dest demo_fs); [apply demo_source| |vm_compute; discriminate|done| |by intros [? [= ?]]|by intros [? [= ?]]].
  - split; [|by intros q [->| []%not_elem_of_nil]%elem_of_cons]. intros q. split.
    + cbn [files demo_fs]. rewrite lookup_insert_ne by done. by rewrite lookup_singleton_ne.
    + cbn [folders demo_fs]. rewrite !not_elem_of_union, !not_elem_of_singleton. done.
  - intros q Hq. change (q ∈ [[]; [str "s"]]) in Hq. apply elem_of_cons in Hq as [->|Hq]; [done|]. apply list_elem_of_singleton in Hq as ->. done.
Defined.

Definition archive_of (entries : list (bytes * bytes)) (m : Manifest) : bytes := pos_text (encode ((MANIFEST_FILENAME, pos_text (encode m)) :: entries)).

(** An archive of one file, whose checksum the manifest does not have. *)
Definition bad_archive : bytes := archive_of [(str "data/y", str "2")] (mkManifest 1 [] 0 [mkEntry (str "y") 1 (str "3")]).

Lemma restore_refused_untouched_witness :
  let C := toy_snapshot in
  let fs := mkFs {[ [str "s"] := bad_archive ]} ∅ in
  ∃ fs', restore [str "t"] [str "s"] false fs = (Err (Checksum (str "y") (str "3") (str "2")), fs') ∧ files fs' = files fs.
Proof.
  intros C fs. destruct (restore_refused_untouched [str "t"] [str "s"] false fs bad_archive) as (_ & Href & _); [done|].
  set (m := mkManifest 1 [] 0 [mkEntry (str "y") 1 (str "3")]). set (entries := [(MANIFEST_FILENAME, pos_text (encode m)); (str "data/y", str "2")]).
  apply (Href ltac:(right; split; [done|]; intros q [r Hr]; destruct q as [|c q]; [done|]; destruct q; [|done]; injection Hr as <- _; done) entries).
  - change (decode (A := list (bytes * bytes)) (text_pos (pos_text (encode entries))) = Some entries). by rewrite text_pos_text, decode_encode.
  - change (str "2") with (sha256_hex (str "2")).
    apply (refused_checksum entries m [] (mkEntry (str "y") 1 (str "3")) [] (str "2")); [|done|done|constructor|vm_compute; reflexivity|done].
    assert (Hone : manifests entries = [pos_text (encode m)]) by (vm_compute; reflexivity).
    assert (Hread : manifest_read (pos_text (encode m)) = Some m) by (change (decode (A := Manifest) (text_pos (pos_text (encode m))) = Some m); by rewrite text_pos_text, decode_encode).
    split; rewrite Hone; [constructor; [by rewrite Hread|constructor]|exact Hread].
Defined.

(** ** Where restoring departs from what it says *)

(** A file that the manifest does not list is written without a check. *)
Lemma unlisted_file_written :
  let C := toy_snapshot in
  let out := restore [str "t"] [str "s"] false (mkFs {[ [str "s"] := archive_of [(str "data/y", str "2")] (mkManifest 1 [] 0 []) ]} ∅) in
  out.1 = Ok tt ∧ files out.2 !! [str "t"; str "y"] = Some (str "2").
Proof. split; vm_compute; reflexivity. Qed.

(** A path of the archive with [..] in it leaves the directory. *)
Lemma archive_escapes :
  let C := toy_snapshot in
  let out := restore [str "t"] [str "s"] false (mkFs {[ [str "s"] := archive_of [(str "data/../etc", str "2")] (mkManifest 1 [] 0 []) ]} ∅) in
  out.1 = Ok tt ∧ files out.2 !! [str "etc"] = Some (str "2").
Proof. split; vm_compute; reflexivity. Qed.

(** Restoring by force over a directory keeps the files that the archive does not have. *)
Lemma force_keeps_old_files :
  let C := toy_snapshot in
  let fs := mkFs {[ [str "s"] := archive_of [] (mkManifest 1 [] 0 []); [str "t"; str "wal.log"] := str "old" ]} {[ [str "t"] ]} in
  let out := restore [str "t"] [str "s"] true fs in
  out.1 = Ok tt ∧ files out.2 !! [str "t"; str "wal.log"] = Some (str "old").
Proof. split; vm_compute; reflexivity. Qed.

(** A folder without files, as a tenant without databases is, is not in the archive. *)
Lemma empty_folders_lost :
  let C := toy_snapshot in
  let fs1 := (snapshot (str "1") 5 [str "d"] [str "s"] demo_fs).2 in
  let out := restore [str "t"] [str "s"] false fs1 in
  out.1 = Ok tt ∧ bool_decide ([str "d"; str "e"] ∈ folders demo_fs) = true ∧ bool_decide ([str "t"; str "e"] ∈ folders out.2) = false.
Proof. split_and!; vm_compute; reflexivity. Qed.
